(* ===== verification/_CoqProject ===== *)
-Q . S2P
Prelude.v
Memory.v
Chain.v
CString.v
AesTables.v
AesCore.v
AesFacts.v
AesSpec.v
AesProofs.v
AesKeys.v
AesInverse.v
AesModes.v
AesModesFacts.v
AesXts.v
AesTop.v
Hlw8032.v
KList.v
KListFacts.v
KListSpec.v
Queue.v
Ping.v
Http.v
ChatList.v
Chat.v
Double.v
Json.v
JsonPrint.v
JsonSpec.v
JsonPrintFacts.v
JsonParseFacts.v
JsonMinify.v
JsonSafe.v
JsonTop.v
JsonBuffer.v
JsonHeap.v
JsonHeapFacts.v
JsonEdit.v
JsonTree.v
JsonCopy.v
Gree.v
GreeFifo.v
Ini.v
Steps.v
Tickets.v
Semaphore.v
Condition.v
Select.v
Poll.v
Epoll.v
ChatLoop.v
ChatServer.v
Limbs.v
Mpi.v
MpiBits.v
MpiFacts.v
MpiBitsFacts.v
MpiArith.v
MpiDiv.v
MpiDivFacts.v
MpiQuotient.v
MpiMont.v
MpiMontFacts.v
MpiExpFacts.v
MpiExpMod.v
MpiGcd.v
MpiGcdFacts.v
MpiInverse.v
MpiText.v
MpiBytes.v
MpiRead.v
MpiWrite.v
MpiTop.v
MpiCodec.v
