(* ===== verification/Prelude.v ===== *)
(** * Verification of the C programs of the linux-learn repository

    The repository is a collection of C programs that share no build: an AES
    library with its test and the number arithmetic of the same library, a driver for an energy meter, the kernel's lists, a
    queue, a ping, a download client, a chat server, an air conditioner's remote
    control with the JSON library it uses, a reader of configuration files,
    three echo servers and small programs with threads. Each one that carries logic of
    its own is a component here; the definitions are executable and are written
    branch by branch after the code.

    ** Conventions

    Integers are [Z] at the width of their C type: [u8], [u16], [u32], [u64]
    reduce, [i8], [i32] read in two's complement (this file). Where C leaves a
    case undefined (an access outside an object, a division by zero, a NULL
    pointer read, a copy of more bytes than the destination has) the model has no
    result: [None] or a constructor of its own; theorems say either that this does not happen or exactly when it does. Loops
    whose end is not structural take fuel, and their theorems state that the
    fuel given by the exported definition is enough. The answers of system calls
    and of foreign libraries are arguments, or operations of a class with the
    laws the theorems need ([Allocator], [Callocs], [Sqlite], [CLibrary]); a witness
    instantiates them.

    ** The files

    - Shared: [Prelude] (integers, bits, lists), [Memory] (objects from
      [malloc]), [Chain] (singly linked lists in a store), [CString] (string
      functions of the C library), [Steps] (runs of programs with threads).
    - AES, [src/aes_test/library/aes.c]: [AesTables] (generated tables),
      [AesCore] (key schedules, rounds, ECB), [AesModes] and [AesXts] (CBC, CFB,
      OFB, CTR, XTS), [AesTop] (the exported functions together). [AesSpec] is
      the standard's cipher, independent of the tables. [AesFacts], [AesKeys],
      [AesProofs], [AesInverse], [AesModesFacts] hold the proofs.
    - Multiprecision integers, [src/aes_test/library/bignum.c]: [Limbs] (the
      static helpers on arrays of limbs), [Mpi] (objects, memory and errors; the
      class [Callocs] is the answers of [calloc]), [MpiBits] (bits, shifts,
      comparison), [MpiArith] (sums and products), [MpiDiv] (division and
      residues), [MpiMont] (Montgomery products and exponentiation), [MpiGcd]
      (greatest common divisors and inverses), [MpiText] (strings, lines of files
      and bytes of both orders), each
      operation over the store of objects so that results may alias operands.
      [MpiFacts] has the rules for the runs, [MpiBitsFacts], [MpiDivFacts],
      [MpiQuotient], [MpiMontFacts], [MpiExpFacts], [MpiExpMod], [MpiGcdFacts],
      [MpiInverse], [MpiBytes], [MpiRead] and [MpiWrite] the proofs, [MpiTop] the
      theorems on arithmetic and [MpiCodec] those on text and bytes. The multiplication step is the C form of
      [bn_mul.h]; the assembler forms are not modelled.
    - Energy meter, [src/wt_hlw8032.c]: [Hlw8032].
    - Kernel lists, [src/config_item/include/list.h]: [KList] (operations over
      an explicit heap), [KListFacts], [KListSpec] (against plain sequences).
    - Linked queue, [src/queue_test/queue.c]: [Queue].
    - Ping, [src/ping_test/ping.c]: [Ping].
    - Download client, [src/http-client/http-client.c]: [Http].
    - Chat server, [src/socket_test/ChatRome -- select/server/]: [ChatList]
      (list.c), [Chat] (login.c, register.c, chat.c, over [ChatList] and the
      class [Sqlite]), [ChatServer] ([handleRequest] of server.c, over [Chat]),
      [ChatLoop] (main of server.c, over the table of [Select]). The handlers copy
      each received buffer whole to a smaller structure; what they do behind this
      copy are definitions of their own ([login_copied], [register_copied],
      [chat_switch], [request_switch]).
    - Echo servers, [src/socket_test/]: [Select] ([select_socket/server.c]),
      [Poll] ([poll_socket/server.c], related to [Select]) and [Epoll]
      ([epoll_socket/server.c]).
    - JSON, [src/pipe_ser_clnt/cJSON.c]: [Double] (binary64 and the formats of
      [printf] the library uses), [Json] (items and the parser), [JsonPrint]
      (printer, lookup, builders, [cJSON_Minify]), [JsonSpec] (values, their
      texts and the items that stand for them). [JsonPrintFacts],
      [JsonParseFacts], [JsonMinify] and [JsonSafe] hold the proofs, [JsonTop]
      the theorems on the exported functions. The memory's answers and [pow]
      are the class [CLibrary]. [JsonBuffer] is [cJSON_PrintBuffered] with its
      growing buffer. [JsonHeap] has the functions that change trees, over a
      store of items and strings with the class [Allocator]; [JsonHeapFacts]
      says which tree a part of the store is, [JsonEdit] what each function does
      to it, [JsonTree] takes sequences of them together, and [JsonCopy] is
      [cJSON_Duplicate] and the errors in the use of trees.
    - Air conditioner, [src/pipe_ser_clnt/gree_fifo_client.c]: [Gree] (the
      commands and the frame), [GreeFifo] (a turn of the pipe: a request parsed
      by [Json], carried out by [Gree], answered by [JsonPrint]).
    - Configuration files, [src/config_item/src/config_file.c]: [Ini].
    - Threads: [Tickets] ([src/mutex_test/mutex_test.c]), [Semaphore]
      ([src/semaphore_test/sem_test.c]), [Condition]
      ([src/pthread_cond_test/cond_test.c]).

    ** What the theorems show

    - Equivalence and round trips: the AES encryption computes FIPS-197 for
      every key and block; decryption undoes it, and so in every mode, for all
      lengths the mode accepts; a value printed as JSON, formatted or not, is
      parsed back, and minifying the formatted text gives the unformatted one;
      an integer written to a configuration file is read back; an integer of any
      length written as text or as bytes is read back.
    - Refinement: any sequence of operations on the kernel's lists and on the
      queue acts as on a plain sequence, without a bad access, and so does any
      sequence of edits of JSON trees, which frees what it deletes and nothing
      else; the [poll] server's turns are those of the [select] server; printing
      JSON into a buffer that grows gives the text of plain printing.
    - Invariants and safety: the JSON parser ends without a bad access on every
      text whose escapes are complete and whose exponents are short, whatever
      allocations fail; duplicating a tree is all or nothing; the driver answers every packet and divides by zero
      in exactly one stated case; the ping's counters stay in range in every
      interleaving of single statements; the echo server's table stays consistent and each client
      gets its own data, with [epoll] as long as one client at a time is served; the windows sell each ticket once; values are handed
      over in order under condition variables.
    - Termination and liveness: the ticket windows always finish, and so would
      the threads at the semaphores over an array with the element they use; no wakeup is lost at the condition variables,
      yet a consumer waits for ever at the end; the chat server's loop always
      comes back to [select], whatever threads begin.
    - Functional behaviour on every branch, errors included: sums, products,
      quotients, residues, modular powers, common divisors and inverses of
      integers of any length, the strings that stand for them, login, group and
      private chat, checksum and replies of the ping, URL, header and body of a
      download, the commands of the remote control and its answers through the
      pipe, reading and writing values.
    - What goes wrong (properties or lemmas): theorems that exhibit the overflow, the race or the lost
      client where the code has one (a chat server's clients that are idle are
      forgotten; its threads may serve the same client twice; every message it
      receives is copied over the end of a structure; the producer at the
      semaphores writes behind its array at once; a quotient that replaces a negative dividend loses
      its sign; a negative number comes back positive from a file; the common
      divisor with zero is zero; statements overflow their buffers; a JSON text
      with an incomplete escape is read and written past its end; constant names
      of a JSON item are freed and copies of them leak; two clients of the
      [epoll] server get the same answer).

    ** Bounds and fuel

    AES: 10, 12 or 14 rounds, by structural recursion. Lists and chains: the
    fuel of a traversal is the length of the abstract list. Strings and
    configuration files: one turn per line, [turns] is above the number of
    bytes, and a turn consumes one. The JSON parser's loops and its depth are
    bounded by the length of the text, of which every turn reads a part; the
    printer recurs on the item. Walks over a tree in the store are bounded by
    the number of its cells, the buffer's growth by the length asked for. The
    division subtracts the divisor at most 3 times before the digits and lowers a
    digit at most 4 times (fuel 5 each, the last turn finds the end); the
    exponent's loop takes a turn for every bit; the loops of the common divisor
    and of the inverse lower the number of bits of their two numbers in every
    turn (fuel: both together and one), and the inverse's last coefficient is
    brought into range by as many turns at most; a text takes a turn for every
    place of the buffer. The meter, the remote control and the
    servers have no unbounded loop within a turn. Runs of threads are relations,
    a step being a statement or an access to what the threads share; where runs
    end, their length is bounded by a measure that every step lowers.

    ** Not modelled, and why

    - The AES-NI and PadLock branches (other hardware), the self tests (print
      comparisons), the modules of the crypto library besides [aes.c] and
      [bignum.c] (never called by the test), of [bignum.c] the random
      numbers and primes, and SQLite.
    - Creation of sockets, pipes and threads and the reads and writes
      themselves: the system's; what they answer is an argument, as is what
      [loginUser] and [registerUser] receive.
    - Terminal menus of the chat client; the TCP, UDP and threaded echo servers
      and the clients of all of them; the pipe programs besides the remote
      control; the data server; the timers and one-function experiments; the
      demonstration of configuration items. *)
From stdpp Require Export prelude list gmap strings.
From Stdlib Require Export ZArith Lia Btauto.

Declare Scope cmodel_scope.
Delimit Scope cmodel_scope with C.
#[global] Open Scope Z_scope.

(** ** Machine integers as [Z] *)

(** Truncation to an unsigned type of [w] bits, written out as the C
    standard does: reduction modulo [2^w]. *)
Definition wrap (w z : Z) : Z := z mod 2 ^ w.

Notation "'u8' z" := (wrap 8 z) (at level 9, z at level 9) : cmodel_scope.
Notation "'u16' z" := (wrap 16 z) (at level 9, z at level 9) : cmodel_scope.
Notation "'u32' z" := (wrap 32 z) (at level 9, z at level 9) : cmodel_scope.
Notation "'u64' z" := (wrap 64 z) (at level 9, z at level 9) : cmodel_scope.

(** Two's complement reading of a [w]-bit value, the conversion to a
    signed type that the compilers the programs use define. *)
Definition swrap (w z : Z) : Z :=
  let u := z mod 2 ^ w in if u <? 2 ^ (w - 1) then u else u - 2 ^ w.

Notation "'i8' z" := (swrap 8 z) (at level 9, z at level 9) : cmodel_scope.
Notation "'i32' z" := (swrap 32 z) (at level 9, z at level 9) : cmodel_scope.

(** [l[i]] and [l[i] = v] on arrays of integers, for an index in range: the
    models use them where the code's bounds put the index inside the array. *)
Notation "l .[ i ]" := ((l : list Z) !!! (Z.to_nat i))
  (at level 1, left associativity, format "l .[ i ]") : cmodel_scope.
Notation "l .[ i := v ]" := (<[Z.to_nat i := v]> (l : list Z))
  (at level 1, left associativity) : cmodel_scope.

(** A value that fits an unsigned type of [w] bits. *)
Definition fits (w z : Z) : Prop := 0 <= z < 2 ^ w.

#[global] Instance fits_dec w z : Decision (fits w z).
Proof. unfold fits. apply _. Defined.

Create HintDb cmodel.
Create Rewrite HintDb bits.

Lemma wrap_fits w z : 0 <= w -> fits w (wrap w z).
Proof. intros. unfold fits, wrap. apply Z.mod_pos_bound. lia. Qed.

Lemma wrap_id w z : fits w z -> wrap w z = z.
Proof. intros. unfold wrap. by apply Z.mod_small. Qed.

Lemma wrap_land w z : 0 <= w -> wrap w z = Z.land z (Z.ones w).
Proof. intros. unfold wrap. by rewrite Z.land_ones. Qed.

Lemma wrap_wrap w z : wrap w (wrap w z) = wrap w z.
Proof. unfold wrap. apply Zmod_mod. Qed.

Lemma i32_small z : - 2 ^ 31 <= z < 2 ^ 31 -> swrap 32 z = z.
Proof.
  intros Hz. unfold swrap. change (2 ^ 32) with 4294967296. change (2 ^ (32 - 1)) with 2147483648.
  change (2 ^ 31) with 2147483648 in Hz.
  destruct (Z.ltb_spec (z mod 4294967296) 2147483648);
    Z.to_euclidean_division_equations; lia.
Qed.

Lemma fits_0 w : 0 <= w -> fits w 0.
Proof. unfold fits. lia. Qed.

(** ** Lists *)

#[local] Open Scope C.

Lemma byte_insert b i v j :
  0 <= i < Z.of_nat (length b) -> 0 <= j ->
  (b.[i := v]).[j] = if i =? j then v else b.[j].
Proof.
  intros Hi Hj. destruct (Z.eqb_spec i j) as [->|Hn].
  - apply list_lookup_total_insert_eq. lia.
  - apply list_lookup_total_insert_ne. lia.
Qed.


Lemma last_elem {A} (l : list A) d : l <> [] -> List.last l d ∈ l.
Proof.
  intros Hl. destruct (exists_last Hl) as (l' & a & ->). rewrite last_last.
  apply elem_of_app. right. by left.
Qed.

Lemma last_cons_skip {A} (a : A) l d : List.last (a :: l) d = List.last l a.
Proof.
  revert a d. induction l as [|b l IH]; intros a d; [done|].
  change (List.last (b :: l) d = List.last (b :: l) a). by rewrite !IH.
Qed.

Lemma byte_lookup (bs : list Z) i : Forall (fits 8) bs -> fits 8 (bs !!! i).
Proof.
  intros Hbs. rewrite list_lookup_total_alt.
  destruct (bs !! i) as [x|] eqn:Hx; simpl; [|by unfold fits].
  by apply (Forall_lookup_1 _ _ _ _ Hbs Hx).
Qed.

(** ** Bits *)

Lemma fits_testbit w z :
  0 <= w -> fits w z <-> 0 <= z /\ forall i, w <= i -> Z.testbit z i = false.
Proof.
  intros Hw. split.
  - intros [H0 H1]. split; [done|]. intros i Hi.
    destruct (decide (z = 0)) as [->|]; [apply Z.bits_0|].
    apply Z.bits_above_log2; [done|].
    apply Z.lt_le_trans with w; [|done]. apply Z.log2_lt_pow2; lia.
  - intros [H0 Hb]. split; [done|].
    destruct (decide (z = 0)) as [->|]; [lia|].
    apply Z.log2_lt_pow2; [lia|].
    destruct (decide (Z.log2 z < w)); [done|].
    assert (Z.testbit z (Z.log2 z) = false) by (apply Hb; lia).
    rewrite Z.bit_log2 in H by lia. done.
Qed.

Lemma testbit_above w z i : fits w z -> 0 <= w -> w <= i -> Z.testbit z i = false.
Proof. intros Hf Hw Hi. apply (fits_testbit w z Hw) in Hf as [_ Hf]. by apply Hf. Qed.

Lemma wrap_spec w z i :
  0 <= w -> Z.testbit (wrap w z) i = (i <? w) && Z.testbit z i.
Proof.
  intros. unfold wrap. destruct (Z.ltb_spec i w); simpl.
  - destruct (decide (0 <= i)).
    + by apply Z.mod_pow2_bits_low.
    + by rewrite !Z.testbit_neg_r by lia.
  - by apply Z.mod_pow2_bits_high.
Qed.

Lemma ones_spec w i : 0 <= w -> 0 <= i -> Z.testbit (Z.ones w) i = (i <? w).
Proof. intros. destruct (Z.ltb_spec i w); [apply Z.ones_spec_low|apply Z.ones_spec_high]; lia. Qed.

Lemma fits_lxor w a b : 0 <= w -> fits w a -> fits w b -> fits w (Z.lxor a b).
Proof.
  intros Hw Ha Hb. apply fits_testbit; [done|].
  apply fits_testbit in Ha as [Ha1 Ha2]; [|done]. apply fits_testbit in Hb as [Hb1 Hb2]; [|done].
  split; [by apply Z.lxor_nonneg|]. intros. by rewrite Z.lxor_spec, Ha2, Hb2.
Qed.

Lemma fits_lor w a b : 0 <= w -> fits w a -> fits w b -> fits w (Z.lor a b).
Proof.
  intros Hw Ha Hb. apply fits_testbit; [done|].
  apply fits_testbit in Ha as [Ha1 Ha2]; [|done]. apply fits_testbit in Hb as [Hb1 Hb2]; [|done].
  split; [by apply Z.lor_nonneg|]. intros. by rewrite Z.lor_spec, Ha2, Hb2.
Qed.

Lemma fits_land_r w a b : 0 <= w -> 0 <= a -> fits w b -> fits w (Z.land a b).
Proof.
  intros Hw Ha Hb. apply fits_testbit; [done|].
  apply fits_testbit in Hb as [Hb1 Hb2]; [|done].
  split; [apply Z.land_nonneg; lia|]. intros. by rewrite Z.land_spec, Hb2, andb_false_r.
Qed.

Lemma fits_shiftl w a n :
  0 <= n -> fits (w - n) a -> n <= w -> fits w (Z.shiftl a n).
Proof.
  intros Hn [H0 H1] Hnw. rewrite Z.shiftl_mul_pow2 by done. split; [nia|].
  replace w with ((w - n) + n) by lia. rewrite Z.pow_add_r by lia. nia.
Qed.

Lemma fits_mono w v z : 0 <= w <= v -> fits w z -> fits v z.
Proof.
  intros Hw [H0 H1]. split; [done|]. apply Z.lt_le_trans with (2 ^ w); [done|].
  apply Z.pow_le_mono_r; lia.
Qed.

#[export] Hint Resolve wrap_fits fits_0 fits_lxor fits_lor : cmodel.

(** [bits_by i] reduces an equality of integers to one of the booleans at
    an arbitrary bit [i], pushing [testbit] through the operators. *)
#[export] Hint Rewrite Z.lxor_spec Z.land_spec Z.lor_spec Z.bits_0 : bits.
#[export] Hint Rewrite Z.shiftr_spec Z.shiftl_spec wrap_spec ones_spec using lia : bits.

Ltac bits_by i :=
  apply Z.bits_inj'; intros i ?; autorewrite with bits.

(** A sum without carries. *)
Lemma lor_shift a b n : 0 <= n -> 0 <= b < 2 ^ n -> Z.lor (Z.shiftl a n) b = a * 2 ^ n + b.
Proof.
  intros Hn Hb. rewrite <-Z.shiftl_mul_pow2 by done.
  assert (Z.land (Z.shiftl a n) b = 0) as H0.
  { bits_by i. destruct (decide (n <= i)).
    - rewrite (testbit_above n b i) by (done || lia). btauto.
    - by rewrite (Z.testbit_neg_r a) by lia. }
  by rewrite <-Z.lxor_lor, Z.add_nocarry_lxor.
Qed.

(** ** Stateful programs that can fail

    [None] is a step the C standard gives no meaning to (an access outside
    the objects the model knows). *)
Definition prog (S A : Type) : Type := S -> option (A * S).

Definition pret {S A} (a : A) : prog S A := fun s => Some (a, s).
Definition pbind {S A B} (m : prog S A) (k : A -> prog S B) : prog S B :=
  fun s => match m s with Some (a, s') => k a s' | None => None end.
Definition pfail {S A} : prog S A := fun _ => None.

Notation "'do' x <- m ; k" := (pbind m (fun x => k))
  (at level 10, x pattern, m at level 100, k at level 200)
  : cmodel_scope.
Notation "m ;;; k" := (pbind m (fun _ => k))
  (at level 199, right associativity) : cmodel_scope.

Lemma pbind_run {S A B} (m : prog S A) (k : A -> prog S B) s a s' :
  m s = Some (a, s') -> pbind m k s = k a s'.
Proof. intros Hm. unfold pbind. by rewrite Hm. Qed.

(** Total correctness: from a state in [P] the program returns, and [Q]
    holds of its result and final state. *)
Definition triple {S A} (P : S -> Prop) (m : prog S A) (Q : A -> S -> Prop) : Prop :=
  forall s, P s -> exists a s', m s = Some (a, s') /\ Q a s'.

Lemma triple_ret {S A} (P : S -> Prop) (a : A) : triple P (pret a) (fun r s => r = a /\ P s).
Proof. intros s HP. by exists a, s. Qed.

Lemma triple_bind {S A B} P (m : prog S A) R (k : A -> prog S B) Q :
  triple P m R -> (forall a, triple (R a) (k a) Q) -> triple P (pbind m k) Q.
Proof.
  intros Hm Hk s HP. destruct (Hm s HP) as (a & s1 & H1 & HR).
  destruct (Hk a s1 HR) as (b & s2 & H2 & HQ). exists b, s2. unfold pbind. by rewrite H1.
Qed.

Lemma triple_conseq {S A} (P P' : S -> Prop) (m : prog S A) (Q Q' : A -> S -> Prop) :
  triple P' m Q' -> (forall s, P s -> P' s) -> (forall a s, Q' a s -> Q a s) -> triple P m Q.
Proof. intros Hm HP HQ s Hs. destruct (Hm s (HP s Hs)) as (a & s' & H1 & H2). exists a, s'. auto. Qed.
