(* ===== verification/Memory.v ===== *)
(** * Memory: dynamically allocated objects

    The store of the objects of one C type, with [malloc] and [free]. What
    [malloc] answers is the C library's business: it is an operation of the
    class [Allocator], whose law is what the C standard says of it. *)
From S2P Require Import Prelude.

Open Scope C.

Definition addr := Z.
Definition NULL : addr := 0.

(** [malloc k live] is the answer to the [k]-th request when the addresses in
    [live] are in use: [NULL], or an address that is not in use. *)
Class Allocator := {
  malloc : nat -> gset addr -> addr;
  malloc_fresh k live : malloc k live <> NULL -> malloc k live ∉ live
}.

(** Memory never runs out. *)
Class Unlimited `{Allocator} :=
  malloc_some k live : malloc k live <> NULL.

Record store (V : Type) := Store { objs : gmap addr V; requests : nat }.
Arguments Store {V} objs requests.
Arguments objs {V} s.
Arguments requests {V} s.

Section Operations.
Context `{Allocator} {V : Type}.

(** A new object; [v] stands for its indeterminate contents. *)
Definition alloc (v : V) : prog (store V) addr := fun s =>
  let a := malloc (requests s) (dom (objs s)) in
  if a =? NULL then Some (NULL, Store (objs s) (S (requests s)))
  else Some (a, Store (<[a := v]> (objs s)) (S (requests s))).

Definition load (a : addr) : prog (store V) V := fun s =>
  match objs s !! a with Some v => Some (v, s) | None => None end.

Definition save (a : addr) (v : V) : prog (store V) unit := fun s =>
  match objs s !! a with
  | Some _ => Some (tt, Store (<[a := v]> (objs s)) (requests s))
  | None => None
  end.

(** [free(NULL)] does nothing; an address that is not in use is an error. *)
Definition free (a : addr) : prog (store V) unit := fun s =>
  if a =? NULL then Some (tt, s)
  else match objs s !! a with
       | Some _ => Some (tt, Store (delete a (objs s)) (requests s))
       | None => None
       end.

(** ** One step of a run *)

Lemma run_alloc_null {B} v (k : addr -> prog (store V) B) s :
  malloc (requests s) (dom (objs s)) = NULL ->
  pbind (alloc v) k s = k NULL (Store (objs s) (S (requests s))).
Proof. intros Ha. unfold pbind, alloc. by rewrite Ha. Qed.

Lemma run_alloc v s :
  malloc (requests s) (dom (objs s)) <> NULL ->
  exists a, a <> NULL /\ objs s !! a = None /\
    forall B (k : addr -> prog (store V) B), pbind (alloc v) k s = k a (Store (<[a := v]> (objs s)) (S (requests s))).
Proof.
  intros Ha. eexists. split; [exact Ha|]. split.
  - apply not_elem_of_dom, malloc_fresh, Ha.
  - intros B k. unfold pbind, alloc. apply Z.eqb_neq in Ha. by rewrite Ha.
Qed.

Lemma run_load {B} a v (k : V -> prog (store V) B) s :
  objs s !! a = Some v -> pbind (load a) k s = k v s.
Proof. intros Ha. unfold pbind, load. by rewrite Ha. Qed.

Lemma run_save {B} a v v0 (k : unit -> prog (store V) B) s :
  objs s !! a = Some v0 ->
  pbind (save a v) k s = k tt (Store (<[a := v]> (objs s)) (requests s)).
Proof. intros Ha. unfold pbind, save. by rewrite Ha. Qed.

Lemma run_free {B} a v0 (k : unit -> prog (store V) B) s :
  a <> NULL -> objs s !! a = Some v0 ->
  pbind (free a) k s = k tt (Store (delete a (objs s)) (requests s)).
Proof. intros Hn Ha. unfold pbind, free. apply Z.eqb_neq in Hn. by rewrite Hn, Ha. Qed.

Lemma load_null_fails {B} (k : V -> prog (store V) B) s :
  objs s !! NULL = None -> pbind (load NULL) k s = None.
Proof. intros Ha. unfold pbind, load. by rewrite Ha. Qed.

End Operations.

(** The allocator of the concrete runs: addresses never used before. *)
Definition bump (k : nat) (live : gset addr) : addr :=
  Z.of_nat (S (Z.to_nat (set_fold Z.max 0 live))).

Lemma max_in_set (X : gset addr) a : a ∈ X -> a <= set_fold Z.max 0 X.
Proof.
  revert a. apply (set_fold_ind_L (fun m X => forall a, a ∈ X -> a <= m)); [set_solver|].
  intros x Y m Hx IH a [Ha| Ha]%elem_of_union; [set_solver by lia|].
  specialize (IH a Ha). lia.
Qed.

Program Definition bump_allocator : Allocator := {| malloc := bump |}.
Next Obligation. intros k live _ Hin. apply max_in_set in Hin. unfold bump in Hin. lia. Qed.

Lemma bump_unlimited : @Unlimited bump_allocator.
Proof. intros k live. cbn. unfold bump, NULL. lia. Qed.
