(* ===== verification/Chain.v ===== *)
(** * Chain: singly linked lists in a store

    The shape shared by the queue of queue.c and the user list of the chat
    server: objects [node v n] of data [v] and a pointer [n] to the next object,
    [NULL] at the end. *)
From S2P Require Import Prelude.
From S2P Require Import Memory.

Open Scope C.

Section Chain.
Context {V D : Type} (node : D -> addr -> V).

(** From [p] the store holds the objects [xs], addresses with their data. *)
Fixpoint chain (m : gmap addr V) (p : addr) (xs : list (addr * D)) : Prop :=
  match xs with
  | [] => p = NULL
  | (a, v) :: xs =>
      p = a /\ a <> NULL /\ exists n, m !! a = Some (node v n) /\ chain m n xs
  end.

Lemma chain_frame m m' p xs :
  (forall a, a ∈ xs.*1 -> m' !! a = m !! a) -> chain m p xs -> chain m' p xs.
Proof.
  revert p. induction xs as [|[a v] xs IH]; intros p Hm; [done|].
  intros (-> & Hn & n & Ha & Hc). split; [done|]. split; [done|]. exists n.
  split; [rewrite Hm; [done|left]|]. apply IH; [|done]. intros b Hb. apply Hm. by right.
Qed.

Lemma chain_in m p xs a v :
  chain m p xs -> (a, v) ∈ xs -> exists n, m !! a = Some (node v n) /\ a <> NULL.
Proof.
  revert p. induction xs as [|[b w] xs IH]; intros p; [intros _; by intros ?%not_elem_of_nil|].
  intros (-> & Hb & n & Hbm & Hc) [Heq|Hin]%elem_of_cons; [|by apply (IH n)].
  simplify_eq. by exists n.
Qed.

Lemma chain_addr m p xs a :
  chain m p xs -> a ∈ xs.*1 -> a <> NULL /\ is_Some (m !! a).
Proof.
  intros Hc [[b v] [-> Hin]]%list_elem_of_fmap.
  cbn.
  destruct (chain_in _ _ _ _ _ Hc Hin) as (n & -> & Hn). by split.
Qed.

(** The part of a chain from one of its objects on, and the rest put back. *)
Lemma chain_app m p xs ys :
  chain m p (xs ++ ys) -> exists q, chain m q ys /\
    forall m' zs q', (forall a, a ∈ xs.*1 -> last xs.*1 <> Some a -> m' !! a = m !! a) ->
      match last xs with
      | Some (a, v) => m' !! a = Some (node v q')
      | None => q' = p
      end -> NoDup xs.*1 -> chain m' q' zs -> chain m' p (xs ++ zs).
Proof.
  revert p. induction xs as [|[a v] xs IH]; intros p; cbn [app].
  - intros Hc. exists p. split; [done|]. by intros m' zs q' _ -> _ ?.
  - intros (-> & Hn & n & Ha & Hc). destruct (IH n Hc) as (q & Hq & Hput).
    exists q. split; [done|]. intros m' zs q' Hm' Hlast Hnd Hz.
    cbn [fmap list_fmap fst] in *. apply NoDup_cons in Hnd as [Hna Hnd].
    split; [done|]. split; [done|]. destruct xs as [|x xs].
    + cbn in Hlast. exists q'. by split; [exact Hlast|exact Hz].
    + exists n. rewrite last_cons_cons in Hlast. split.
      * rewrite Hm'; [done|by left|]. cbn [fmap list_fmap]. rewrite last_cons_cons.
        intros Hl. apply Hna. apply last_Some_elem_of. exact Hl.
      * apply (Hput m' zs q'); [| |exact Hnd|exact Hz];
          [|destruct (last (x :: xs)) eqn:El; [exact Hlast|by apply last_None in El]].
        intros b Hb Hl. apply Hm'; [by right|].
        cbn [fmap list_fmap] in *. by rewrite last_cons_cons.
Qed.

(** A new object behind the last one. *)
Lemma chain_snoc m p xs r v a t :
  chain m p (xs ++ [(r, v)]) -> NoDup (xs ++ [(r, v)]).*1 ->
  m !! a = None -> a <> NULL ->
  chain (<[r := node v a]> (<[a := node t NULL]> m)) p (xs ++ [(r, v); (a, t)]).
Proof.
  intros Hc Hnd Ha Hn.
  assert (Hin : forall b, b ∈ (xs ++ [(r, v)]).*1 -> b <> a).
  { intros b Hb ->. destruct (chain_addr _ _ _ _ Hc Hb) as [_ [x Hx]]. congruence. }
  change (xs ++ [(r, v); (a, t)]) with (xs ++ [(r, v)] ++ [(a, t)]). rewrite app_assoc.
  rewrite <-(app_nil_r (xs ++ [(r, v)])) in Hc.
  destruct (chain_app _ _ _ _ Hc) as (q & _ & Hput). apply (Hput _ _ a).
  - intros b Hb Hl. rewrite !lookup_insert_ne; [done|..].
    + intros ->. by apply (Hin b).
    + intros ->. apply Hl. rewrite fmap_app. apply last_snoc.
  - rewrite last_snoc. apply lookup_insert_eq.
  - done.
  - split; [done|]. split; [done|]. exists NULL. split; [|done].
    rewrite lookup_insert_ne, lookup_insert_eq; [done|].
    apply Hin. rewrite fmap_app. apply elem_of_app. right. by left.
Qed.

(** The object after [a] unlinked and freed. *)
Lemma chain_unlink m p xs a v b w ys :
  chain m p (xs ++ (a, v) :: (b, w) :: ys) -> NoDup (xs ++ (a, v) :: (b, w) :: ys).*1 ->
  exists n, m !! a = Some (node v b) /\ m !! b = Some (node w n) /\
    chain (delete b (<[a := node v n]> m)) p (xs ++ (a, v) :: ys).
Proof.
  intros Hc Hnd.
  change (xs ++ (a, v) :: (b, w) :: ys) with (xs ++ [(a, v)] ++ (b, w) :: ys) in *.
  rewrite app_assoc in *. destruct (chain_app _ _ _ _ Hc) as (q & Hq & Hput).
  destruct Hq as (-> & Hbn & n & Hb & Hys).
  rewrite fmap_app in Hnd. apply NoDup_app in Hnd as (Hnd1 & Hdis & Hnd2).
  cbn [fmap list_fmap fst] in Hnd2. apply NoDup_cons in Hnd2 as [Hby Hnd2].
  assert (Hab : a <> b).
  { intros ->. apply (Hdis b); [|by left]. rewrite fmap_app. apply elem_of_app. right. by left. }
  assert (Ha : m !! a = Some (node v b)).
  { clear -Hc. revert p Hc. induction xs as [|[c u] xs IH]; intros p; cbn.
    - intros (_ & _ & k & Hk & (-> & _)). done.
    - intros (_ & _ & k & _ & Hk). by apply (IH k). }
  exists n. split; [done|]. split; [done|].
  change (xs ++ (a, v) :: ys) with (xs ++ [(a, v)] ++ ys). rewrite app_assoc.
  apply (Hput _ _ n).
  - intros c Hcin Hl. rewrite lookup_delete_ne; [rewrite lookup_insert_ne; [done|]|].
    + intros ->. apply Hl. rewrite fmap_app. apply last_snoc.
    + intros ->. apply (Hdis c Hcin). by left.
  - rewrite last_snoc, lookup_delete_ne, lookup_insert_eq by done. done.
  - done.
  - apply (chain_frame m); [|done]. intros c Hcin.
    rewrite lookup_delete_ne, lookup_insert_ne; [done|..].
    + intros ->. apply (Hdis c); [|by right]. rewrite fmap_app. apply elem_of_app.
      right. by left.
    + by intros ->.
Qed.

(** The first object freed. *)
Lemma chain_tail m a v xs :
  chain m a ((a, v) :: xs) -> NoDup ((a, v) :: xs).*1 ->
  exists n, m !! a = Some (node v n) /\ chain (delete a m) n xs.
Proof.
  intros (_ & _ & n & Ha & Hc) [Hna Hnd]%NoDup_cons. exists n. split; [done|].
  apply (chain_frame m); [|done]. intros b Hb. rewrite lookup_delete_ne; [done|].
  by intros ->.
Qed.

End Chain.
