(* ===== verification/CString.v ===== *)
(** * CString: the C library's string functions

    What the programs use of <string.h> and <stdio.h>, on the characters of a
    string before its terminating NUL. A buffer's capacity is the business of
    the code that writes into it. *)
From S2P Require Import Prelude.
From Stdlib Require Import Ascii.

Open Scope C.

Definition chars := list ascii.

(** The characters of a literal. *)
Definition lit (s : string) : chars := String.list_ascii_of_string s.

Definition chr (n : nat) : ascii := ascii_of_nat n.
Definition code (c : ascii) : Z := Z.of_nat (nat_of_ascii c).
Definition NUL : ascii := chr 0.
Definition CR : ascii := chr 13.
Definition LF : ascii := chr 10.

(** [strncmp(s, p, strlen(p)) == 0] *)
Fixpoint starts_with (p s : chars) : bool :=
  match p, s with
  | [], _ => true
  | a :: p, b :: s => bool_decide (a = b) && starts_with p s
  | _ :: _, [] => false
  end.

(** [strstr]: the rest of the string from the first occurrence. *)
Fixpoint strstr (s p : chars) : option chars :=
  if starts_with p s then Some s
  else match s with [] => None | _ :: s => strstr s p end.

(** [strcmp(a, b) == 0] *)
Definition streq (a b : chars) : bool := bool_decide (a = b).

Definition isspace (c : ascii) : bool :=
  (9 <=? code c) && (code c <=? 13) || (code c =? 32).
Definition isdigit (c : ascii) : bool := (48 <=? code c) && (code c <=? 57).

(** The longest prefix of characters in [f], and the rest. *)
Fixpoint span (f : ascii -> bool) (s : chars) : chars * chars :=
  match s with
  | [] => ([], [])
  | c :: r => if f c then let '(a, b) := span f r in (c :: a, b) else ([], s)
  end.

(** The string an array holds, if it holds one. *)
Definition text (a : chars) : option chars :=
  match span (fun c => negb (bool_decide (c = NUL))) a with
  | (s, _ :: _) => Some s
  | (_, []) => None
  end.

Definition skip_space (s : chars) : chars := (span isspace s).2.

(** [%s]: blanks skipped, then a word, which may not be empty. *)
Definition scan_word (s : chars) : option (chars * chars) :=
  match span (fun c => negb (isspace c)) (skip_space s) with
  | ([], _) => None
  | (w, r) => Some (w, r)
  end.

(** [%d]: blanks, a sign, digits; the value as an integer of any size. *)
Definition value_of (ds : chars) : Z :=
  fold_left (fun v c => 10 * v + (code c - 48)) ds 0.

Definition scan_int (s : chars) : option (Z * chars) :=
  let s := skip_space s in
  let '(neg, s) :=
    match s with
    | c :: r => if code c =? 45 then (true, r) else if code c =? 43 then (false, r) else (false, s)
    | [] => (false, s)
    end in
  match span isdigit s with
  | ([], _) => None
  | (ds, r) => Some (if (neg : bool) then - value_of ds else value_of ds, r)
  end.

(** [%d] of [printf] *)
Fixpoint digits (fuel : nat) (n : Z) : chars :=
  match fuel with
  | O => []
  | S fuel =>
      (if n <? 10 then [] else digits fuel (n / 10)) ++ [chr (Z.to_nat (48 + n mod 10))]
  end.

Definition print_nat (n : Z) : chars := digits (S (Z.to_nat (Z.log2 n))) n.
Definition print_int (z : Z) : chars :=
  if z <? 0 then chr 45 :: print_nat (- z) else print_nat z.

#[global] Arguments print_nat : simpl never.
#[global] Arguments print_int : simpl never.

(** ** Searching *)

Lemma starts_with_spec p s : starts_with p s = true <-> exists r, s = p ++ r.
Proof.
  revert s. induction p as [|a p IH]; intros s; [cbn; split; [by exists s|done]|].
  destruct s as [|b s]; cbn; [by split; [|intros [r ?]]|].
  rewrite andb_true_iff, bool_decide_eq_true, IH. split.
  - intros [-> [r ->]]. by exists r.
  - intros [r [= -> ->]]. split; [done|]. by exists r.
Qed.

Lemma starts_with_app p r : starts_with p (p ++ r) = true.
Proof. apply starts_with_spec. by exists r. Qed.

(** [p] does not occur in [s ++ p ++ r] before the end of [s]. *)
Definition first_at (s p : chars) (r : chars) : Prop :=
  forall k, (k < length s)%nat -> starts_with p (drop k (s ++ p ++ r)) = false.

Lemma strstr_eq s p :
  strstr s p = if starts_with p s then Some s
               else match s with [] => None | _ :: s => strstr s p end.
Proof. by destruct s. Qed.

Lemma strstr_first s p r : first_at s p r -> strstr (s ++ p ++ r) p = Some (p ++ r).
Proof.
  induction s as [|c s IH]; intros Hf; cbn [app].
  - by rewrite strstr_eq, starts_with_app.
  - pose proof (Hf 0%nat ltac:(cbn; lia)) as H0. cbn [drop app] in H0.
    cbn [strstr]. rewrite H0. apply IH. intros k Hk. apply (Hf (S k)). cbn. lia.
Qed.

Lemma strstr_None s p : strstr s p = None <-> forall k, starts_with p (drop k s) = false.
Proof.
  induction s as [|c s IH].
  - cbn. split.
    + intros H k. rewrite drop_nil. by destruct p.
    + intros H. specialize (H 0%nat). cbn in H. by rewrite H.
  - cbn [strstr]. destruct (starts_with p (c :: s)) eqn:E.
    + split; [done|]. intros H. specialize (H 0%nat). cbn in H. congruence.
    + rewrite IH. split.
      * intros H [|k]; [done|]. apply H.
      * intros H k. apply (H (S k)).
Qed.

Lemma streq_spec a b : streq a b = true <-> a = b.
Proof. apply bool_decide_eq_true. Qed.

(** ** Scanning *)

Lemma span_all f a r :
  forallb f a = true -> match r with [] => True | c :: _ => f c = false end ->
  span f (a ++ r) = (a, r).
Proof.
  induction a as [|c a IH]; cbn; intros Ha Hr.
  - destruct r as [|c r]; [done|]. cbn. by rewrite Hr.
  - apply andb_true_iff in Ha as [Hc Ha]. rewrite Hc, (IH Ha Hr). done.
Qed.

Lemma span_eq f s : forall a b, span f s = (a, b) -> s = a ++ b /\ forallb f a = true.
Proof.
  induction s as [|c s IH]; intros a b; cbn; [by intros [= <- <-]|].
  destruct (f c) eqn:Ec; [|by intros [= <- <-]].
  destruct (span f s) as [a' b'] eqn:E. intros [= <- <-].
  destruct (IH a' b' eq_refl) as [-> Ha]. cbn. by rewrite Ec, Ha.
Qed.

(** A character a field can end with. *)
Definition ends_with (f : ascii -> bool) (r : chars) : Prop :=
  match r with [] => True | c :: _ => f c = false end.

Lemma isdigit_not_space c : isdigit c = true -> isspace c = false.
Proof. unfold isdigit, isspace. intros. lia. Qed.

Lemma code_chr n : (n < 256)%nat -> code (chr n) = Z.of_nat n.
Proof. intros. unfold code, chr. by rewrite nat_ascii_embedding. Qed.

Lemma digit_code n : code (chr (Z.to_nat (48 + n mod 10))) = 48 + n mod 10.
Proof. pose proof (Z.mod_pos_bound n 10). rewrite code_chr; lia. Qed.

Lemma value_of_snoc ds c : value_of (ds ++ [c]) = 10 * value_of ds + (code c - 48).
Proof. unfold value_of. by rewrite fold_left_app. Qed.

Lemma digits_spec fuel : forall n,
  0 <= n < 2 ^ Z.of_nat fuel ->
  value_of (digits fuel n) = n /\ forallb isdigit (digits fuel n) = true /\
  (fuel <> O -> digits fuel n <> []).
Proof.
  induction fuel as [|fuel IH]; intros n Hn.
  { cbn. change (2 ^ Z.of_nat 0) with 1 in Hn. split; [cbn; lia|done]. }
  cbn [digits]. rewrite value_of_snoc, digit_code, forallb_app.
  assert (Hd : forallb isdigit [chr (Z.to_nat (48 + n mod 10))] = true).
  { cbn. rewrite andb_true_r. unfold isdigit. rewrite digit_code.
    pose proof (Z.mod_pos_bound n 10). lia. }
  rewrite Hd. split; [|split; [|by destruct (if n <? 10 then _ else _)]].
  - destruct (Z.ltb_spec n 10).
    + cbn. rewrite Z.mod_small; lia.
    + destruct (IH (n / 10)) as [-> _].
      { rewrite Nat2Z.inj_succ, Z.pow_succ_r in Hn by lia.
        Z.to_euclidean_division_equations. lia. }
      Z.to_euclidean_division_equations. lia.
  - destruct (Z.ltb_spec n 10); [done|]. rewrite andb_true_r. apply IH.
    rewrite Nat2Z.inj_succ, Z.pow_succ_r in Hn by lia.
    Z.to_euclidean_division_equations. lia.
Qed.

Lemma digits_length fuel : forall k n,
  0 <= n < 10 ^ Z.of_nat (S k) -> (length (digits fuel n) <= S k)%nat.
Proof.
  induction fuel as [|fuel IH]; intros k n Hn; [cbn; lia|].
  cbn [digits]. rewrite length_app. cbn [length].
  destruct (Z.ltb_spec n 10); [cbn; lia|].
  destruct k as [|k]; [change (10 ^ Z.of_nat 1) with 10 in Hn; lia|].
  specialize (IH k (n / 10)). rewrite Nat2Z.inj_succ, Z.pow_succ_r in Hn by lia.
  assert (0 <= n / 10 < 10 ^ Z.of_nat (S k)) by (Z.to_euclidean_division_equations; lia).
  specialize (IH ltac:(done)). lia.
Qed.

(** A positive number is printed without a leading zero. *)
Lemma digits_head fuel : forall n,
  0 < n < 2 ^ Z.of_nat fuel ->
  exists c r, digits fuel n = c :: r /\ 49 <= code c <= 57.
Proof.
  induction fuel as [|fuel IH]; intros n Hn; [change (2 ^ Z.of_nat 0) with 1 in Hn; lia|].
  cbn [digits]. destruct (Z.ltb_spec n 10).
  - eexists _, []. split; [done|]. rewrite digit_code, Z.mod_small by lia. lia.
  - rewrite Nat2Z.inj_succ, Z.pow_succ_r in Hn by lia.
    destruct (IH (n / 10)) as (c & r & -> & Hc); [Z.to_euclidean_division_equations; lia|].
    by eexists c, _.
Qed.

Lemma print_nat_spec n : 0 <= n ->
  value_of (print_nat n) = n /\ forallb isdigit (print_nat n) = true /\ print_nat n <> [].
Proof.
  intros Hn. unfold print_nat.
  destruct (digits_spec (S (Z.to_nat (Z.log2 n))) n) as (Hv & Hd & Hne); [|by auto].
  split; [done|]. rewrite Nat2Z.inj_succ, Z2Nat.id by apply Z.log2_nonneg.
  destruct (decide (n = 0)) as [->|]; [done|]. apply Z.log2_spec. lia.
Qed.

Lemma print_nat_head n : 0 < n ->
  exists c r, print_nat n = c :: r /\ 49 <= code c <= 57.
Proof.
  intros Hn. apply digits_head. rewrite Nat2Z.inj_succ, Z2Nat.id by apply Z.log2_nonneg.
  split; [done|]. by apply Z.log2_spec.
Qed.

Lemma print_nat_length n k : 0 <= n < 10 ^ Z.of_nat (S k) -> (length (print_nat n) <= S k)%nat.
Proof. apply digits_length. Qed.

(** Scanning a printed number gives it back. *)
Lemma scan_print_int z r : ends_with isdigit r -> scan_int (print_int z ++ r) = Some (z, r).
Proof.
  intros Hr. unfold print_int.
  destruct (print_nat_spec (Z.abs z) ltac:(lia)) as (Hv & Hd & Hne).
  assert (Hmain : forall neg : bool, forall s, s = print_nat (Z.abs z) ++ r ->
    match span isdigit s with
    | ([], _) => None
    | (ds, r) => Some (if neg then - value_of ds else value_of ds, r)
    end = Some (if neg then - Z.abs z else Z.abs z, r)).
  { intros neg s ->. rewrite span_all by done. destruct (print_nat (Z.abs z)); [done|].
    by rewrite Hv. }
  unfold scan_int, skip_space. destruct (Z.ltb_spec z 0).
  - replace (- z) with (Z.abs z) by lia. cbn [app]. cbn [span].
    change (isspace (chr 45)) with false. cbn iota. cbn [snd].
    change (code (chr 45) =? 45) with true. cbn iota. rewrite (Hmain true _ eq_refl).
    do 2 f_equal. lia.
  - rewrite (Z.abs_eq z) in * by lia.
    destruct (print_nat z) as [|c ds] eqn:E; [done|].
    cbn [forallb] in Hd. apply andb_true_iff in Hd as [Hc Hd].
    cbn [app span]. rewrite (isdigit_not_space c Hc). cbn [snd].
    unfold isdigit in Hc. destruct (Z.eqb_spec (code c) 45); [lia|].
    destruct (Z.eqb_spec (code c) 43); [lia|].
    specialize (Hmain false _ eq_refl). cbn [app] in Hmain.
    exact Hmain.
Qed.

Lemma skip_space_word w r :
  w <> [] -> forallb (fun c => negb (isspace c)) w = true -> skip_space (w ++ r) = w ++ r.
Proof.
  intros Hw Ha. destruct w as [|c w]; [done|]. cbn in Ha. unfold skip_space. cbn.
  destruct (isspace c); done.
Qed.

Lemma scan_word_spec sp w r :
  forallb isspace sp = true -> w <> [] -> forallb (fun c => negb (isspace c)) w = true ->
  ends_with (fun c => negb (isspace c)) r ->
  scan_word (sp ++ w ++ r) = Some (w, r).
Proof.
  intros Hs Hw Ha Hr. unfold scan_word, skip_space.
  rewrite span_all; [|done|].
  - cbn [snd]. rewrite span_all by done. by destruct w.
  - destruct w as [|c w]; [done|]. cbn in *. by destruct (isspace c).
Qed.

Lemma scan_int_space sp s : forallb isspace sp = true -> scan_int (sp ++ s) = scan_int s.
Proof.
  intros Hs. unfold scan_int. replace (skip_space (sp ++ s)) with (skip_space s); [done|].
  unfold skip_space. induction sp as [|c sp IH]; [done|]. cbn in Hs.
  apply andb_true_iff in Hs as [Hc Hs]. cbn [app span]. rewrite Hc, (IH Hs).
  by destruct (span isspace (sp ++ s)).
Qed.
