(* ===== verification/AesTables.v ===== *)
(** * AesTables: the lookup tables of [src/aes_test/library/aes.c]

    [aes_gen_tables] (the tables are built at run time: the configuration
    defines neither [MBEDTLS_AES_ROM_TABLES] nor [MBEDTLS_AES_FEWER_TABLES])
    together with the file's static state, and the arithmetic facts about the
    generated tables that the cipher's proofs use. *)
From S2P Require Import Prelude.

Open Scope C.

(** The static arrays of aes.c (lines 383-409). *)
Record tables := Tables {
  FSb : list Z; FT0 : list Z; FT1 : list Z; FT2 : list Z; FT3 : list Z;
  RSb : list Z; RT0 : list Z; RT1 : list Z; RT2 : list Z; RT3 : list Z;
  RCON : list Z
}.

(** Static storage is zero-initialised. *)
Definition zero_tables : tables :=
  let z := replicate 256 0 in
  Tables z z z z z z z z z z (replicate 10 0).

(** The macros of lines 414-416. [ROTL8] is used on [uint32_t] operands. *)
Definition ROTL8 (x : Z) : Z :=
  Z.lor (Z.land (Z.shiftl x 8) 0xFFFFFFFF) (Z.shiftr x 24).
Definition XTIME (x : Z) : Z :=
  Z.lxor (Z.shiftl x 1) (if Z.eqb (Z.land x 0x80) 0 then 0x00 else 0x1B).
Definition MUL (pow log : list Z) (x y : Z) : Z :=
  if negb (Z.eqb x 0) && negb (Z.eqb y 0)
  then pow.[(log.[x] + log.[y]) mod 255] else 0.

(** First loop: the power and logarithm tables for the generator 3. *)
Fixpoint pow_log_loop (n : nat) (i x : Z) (pow log : list Z) : list Z * list Z :=
  match n with
  | O => (pow, log)
  | S n =>
      pow_log_loop n (i + 1) (Z.land (Z.lxor x (XTIME x)) 0xFF)
        (pow.[i := x]) (log.[x := i])
  end.

Definition pow_log : list Z * list Z :=
  pow_log_loop 256 0 1 (replicate 256 0) (replicate 256 0).

(** Second loop: the round constants. *)
Fixpoint rcon_loop (n : nat) (i x : Z) (rcon : list Z) : list Z :=
  match n with
  | O => rcon
  | S n => rcon_loop n (i + 1) (Z.land (XTIME x) 0xFF) (rcon.[i := u32 x])
  end.

(** [y = ((y << 1) | (y >> 7)) & 0xFF] *)
Definition rotl1_byte (y : Z) : Z :=
  Z.land (Z.lor (Z.shiftl y 1) (Z.shiftr y 7)) 0xFF.

(** Body of the third loop before the stores: the affine map applied to the
    inverse [x] of the index. *)
Definition sbox_affine (x : Z) : Z :=
  let y := x in let y := rotl1_byte y in
  let x := Z.lxor x y in let y := rotl1_byte y in
  let x := Z.lxor x y in let y := rotl1_byte y in
  let x := Z.lxor x y in let y := rotl1_byte y in
  Z.lxor x (Z.lxor y 0x63).

Fixpoint sbox_loop (n : nat) (i : Z) (pow log fsb rsb : list Z) : list Z * list Z :=
  match n with
  | O => (fsb, rsb)
  | S n =>
      let x := sbox_affine (pow.[255 - log.[i]]) in
      sbox_loop n (i + 1) pow log (fsb.[i := u8 x]) (rsb.[x := u8 i])
  end.

(** Fourth loop, one iteration: row [i] of the eight [T]-tables. *)
Definition ft0_entry (fsb : list Z) (i : Z) : Z :=
  let x := fsb.[i] in
  let y := Z.land (XTIME x) 0xFF in
  let z := Z.land (Z.lxor y x) 0xFF in
  Z.lxor (Z.lxor (Z.lxor y (u32 (Z.shiftl x 8))) (u32 (Z.shiftl x 16)))
         (u32 (Z.shiftl z 24)).

Definition rt0_entry (pow log rsb : list Z) (i : Z) : Z :=
  let x := rsb.[i] in
  Z.lxor (Z.lxor (Z.lxor (MUL pow log 0x0E x)
                         (u32 (Z.shiftl (MUL pow log 0x09 x) 8)))
                 (u32 (Z.shiftl (MUL pow log 0x0D x) 16)))
         (u32 (Z.shiftl (MUL pow log 0x0B x) 24)).

Fixpoint table_loop (n : nat) (i : Z) (pow log : list Z) (t : tables) : tables :=
  match n with
  | O => t
  | S n =>
      let f0 := ft0_entry (FSb t) i in
      let f1 := ROTL8 f0 in let f2 := ROTL8 f1 in let f3 := ROTL8 f2 in
      let r0 := rt0_entry pow log (RSb t) i in
      let r1 := ROTL8 r0 in let r2 := ROTL8 r1 in let r3 := ROTL8 r2 in
      table_loop n (i + 1) pow log
        (Tables (FSb t)
           ((FT0 t).[i := f0]) ((FT1 t).[i := f1]) ((FT2 t).[i := f2]) ((FT3 t).[i := f3])
           (RSb t)
           ((RT0 t).[i := r0]) ((RT1 t).[i := r1]) ((RT2 t).[i := r2]) ((RT3 t).[i := r3])
           (RCON t))
  end.

Definition aes_gen_tables (t : tables) : tables :=
  let '(pow, log) := pow_log in
  let rcon := rcon_loop 10 0 1 (RCON t) in
  let '(fsb, rsb) :=
    sbox_loop 255 1 pow log ((FSb t).[0x00 := 0x63]) ((RSb t).[0x63 := 0x00]) in
  table_loop 256 0 pow log
    (Tables fsb (FT0 t) (FT1 t) (FT2 t) (FT3 t)
            rsb (RT0 t) (RT1 t) (RT2 t) (RT3 t) rcon).

(** The file's static state: the tables and [aes_init_done] (line 418). *)
Record aes_static := AesStatic { st_tables : tables; aes_init_done : bool }.

Definition aes_static_init : aes_static := AesStatic zero_tables false.

(** [if( aes_init_done == 0 ) { aes_gen_tables(); aes_init_done = 1; }] *)
Definition aes_ensure_tables (s : aes_static) : aes_static :=
  if aes_init_done s then s
  else AesStatic (aes_gen_tables (st_tables s)) true.

(** ** The constant tables of the [MBEDTLS_AES_ROM_TABLES] configuration

    Lines 92-380 of aes.c give the same tables as literals; the [V] macro
    arranges the four bytes of an [FT]/[RT] row into the word of each table. *)

Definition FSb_rom : list Z := [
   0x63; 0x7C; 0x77; 0x7B; 0xF2; 0x6B; 0x6F; 0xC5; 0x30; 0x01; 0x67; 0x2B;
   0xFE; 0xD7; 0xAB; 0x76; 0xCA; 0x82; 0xC9; 0x7D; 0xFA; 0x59; 0x47; 0xF0;
   0xAD; 0xD4; 0xA2; 0xAF; 0x9C; 0xA4; 0x72; 0xC0; 0xB7; 0xFD; 0x93; 0x26;
   0x36; 0x3F; 0xF7; 0xCC; 0x34; 0xA5; 0xE5; 0xF1; 0x71; 0xD8; 0x31; 0x15;
   0x04; 0xC7; 0x23; 0xC3; 0x18; 0x96; 0x05; 0x9A; 0x07; 0x12; 0x80; 0xE2;
   0xEB; 0x27; 0xB2; 0x75; 0x09; 0x83; 0x2C; 0x1A; 0x1B; 0x6E; 0x5A; 0xA0;
   0x52; 0x3B; 0xD6; 0xB3; 0x29; 0xE3; 0x2F; 0x84; 0x53; 0xD1; 0x00; 0xED;
   0x20; 0xFC; 0xB1; 0x5B; 0x6A; 0xCB; 0xBE; 0x39; 0x4A; 0x4C; 0x58; 0xCF;
   0xD0; 0xEF; 0xAA; 0xFB; 0x43; 0x4D; 0x33; 0x85; 0x45; 0xF9; 0x02; 0x7F;
   0x50; 0x3C; 0x9F; 0xA8; 0x51; 0xA3; 0x40; 0x8F; 0x92; 0x9D; 0x38; 0xF5;
   0xBC; 0xB6; 0xDA; 0x21; 0x10; 0xFF; 0xF3; 0xD2; 0xCD; 0x0C; 0x13; 0xEC;
   0x5F; 0x97; 0x44; 0x17; 0xC4; 0xA7; 0x7E; 0x3D; 0x64; 0x5D; 0x19; 0x73;
   0x60; 0x81; 0x4F; 0xDC; 0x22; 0x2A; 0x90; 0x88; 0x46; 0xEE; 0xB8; 0x14;
   0xDE; 0x5E; 0x0B; 0xDB; 0xE0; 0x32; 0x3A; 0x0A; 0x49; 0x06; 0x24; 0x5C;
   0xC2; 0xD3; 0xAC; 0x62; 0x91; 0x95; 0xE4; 0x79; 0xE7; 0xC8; 0x37; 0x6D;
   0x8D; 0xD5; 0x4E; 0xA9; 0x6C; 0x56; 0xF4; 0xEA; 0x65; 0x7A; 0xAE; 0x08;
   0xBA; 0x78; 0x25; 0x2E; 0x1C; 0xA6; 0xB4; 0xC6; 0xE8; 0xDD; 0x74; 0x1F;
   0x4B; 0xBD; 0x8B; 0x8A; 0x70; 0x3E; 0xB5; 0x66; 0x48; 0x03; 0xF6; 0x0E;
   0x61; 0x35; 0x57; 0xB9; 0x86; 0xC1; 0x1D; 0x9E; 0xE1; 0xF8; 0x98; 0x11;
   0x69; 0xD9; 0x8E; 0x94; 0x9B; 0x1E; 0x87; 0xE9; 0xCE; 0x55; 0x28; 0xDF;
   0x8C; 0xA1; 0x89; 0x0D; 0xBF; 0xE6; 0x42; 0x68; 0x41; 0x99; 0x2D; 0x0F;
   0xB0; 0x54; 0xBB; 0x16 ].

Definition FT_rows : list (Z * Z * Z * Z) := [
   (0xA5,0x63,0x63,0xC6); (0x84,0x7C,0x7C,0xF8); (0x99,0x77,0x77,0xEE); (0x8D,0x7B,0x7B,0xF6);
   (0x0D,0xF2,0xF2,0xFF); (0xBD,0x6B,0x6B,0xD6); (0xB1,0x6F,0x6F,0xDE); (0x54,0xC5,0xC5,0x91);
   (0x50,0x30,0x30,0x60); (0x03,0x01,0x01,0x02); (0xA9,0x67,0x67,0xCE); (0x7D,0x2B,0x2B,0x56);
   (0x19,0xFE,0xFE,0xE7); (0x62,0xD7,0xD7,0xB5); (0xE6,0xAB,0xAB,0x4D); (0x9A,0x76,0x76,0xEC);
   (0x45,0xCA,0xCA,0x8F); (0x9D,0x82,0x82,0x1F); (0x40,0xC9,0xC9,0x89); (0x87,0x7D,0x7D,0xFA);
   (0x15,0xFA,0xFA,0xEF); (0xEB,0x59,0x59,0xB2); (0xC9,0x47,0x47,0x8E); (0x0B,0xF0,0xF0,0xFB);
   (0xEC,0xAD,0xAD,0x41); (0x67,0xD4,0xD4,0xB3); (0xFD,0xA2,0xA2,0x5F); (0xEA,0xAF,0xAF,0x45);
   (0xBF,0x9C,0x9C,0x23); (0xF7,0xA4,0xA4,0x53); (0x96,0x72,0x72,0xE4); (0x5B,0xC0,0xC0,0x9B);
   (0xC2,0xB7,0xB7,0x75); (0x1C,0xFD,0xFD,0xE1); (0xAE,0x93,0x93,0x3D); (0x6A,0x26,0x26,0x4C);
   (0x5A,0x36,0x36,0x6C); (0x41,0x3F,0x3F,0x7E); (0x02,0xF7,0xF7,0xF5); (0x4F,0xCC,0xCC,0x83);
   (0x5C,0x34,0x34,0x68); (0xF4,0xA5,0xA5,0x51); (0x34,0xE5,0xE5,0xD1); (0x08,0xF1,0xF1,0xF9);
   (0x93,0x71,0x71,0xE2); (0x73,0xD8,0xD8,0xAB); (0x53,0x31,0x31,0x62); (0x3F,0x15,0x15,0x2A);
   (0x0C,0x04,0x04,0x08); (0x52,0xC7,0xC7,0x95); (0x65,0x23,0x23,0x46); (0x5E,0xC3,0xC3,0x9D);
   (0x28,0x18,0x18,0x30); (0xA1,0x96,0x96,0x37); (0x0F,0x05,0x05,0x0A); (0xB5,0x9A,0x9A,0x2F);
   (0x09,0x07,0x07,0x0E); (0x36,0x12,0x12,0x24); (0x9B,0x80,0x80,0x1B); (0x3D,0xE2,0xE2,0xDF);
   (0x26,0xEB,0xEB,0xCD); (0x69,0x27,0x27,0x4E); (0xCD,0xB2,0xB2,0x7F); (0x9F,0x75,0x75,0xEA);
   (0x1B,0x09,0x09,0x12); (0x9E,0x83,0x83,0x1D); (0x74,0x2C,0x2C,0x58); (0x2E,0x1A,0x1A,0x34);
   (0x2D,0x1B,0x1B,0x36); (0xB2,0x6E,0x6E,0xDC); (0xEE,0x5A,0x5A,0xB4); (0xFB,0xA0,0xA0,0x5B);
   (0xF6,0x52,0x52,0xA4); (0x4D,0x3B,0x3B,0x76); (0x61,0xD6,0xD6,0xB7); (0xCE,0xB3,0xB3,0x7D);
   (0x7B,0x29,0x29,0x52); (0x3E,0xE3,0xE3,0xDD); (0x71,0x2F,0x2F,0x5E); (0x97,0x84,0x84,0x13);
   (0xF5,0x53,0x53,0xA6); (0x68,0xD1,0xD1,0xB9); (0x00,0x00,0x00,0x00); (0x2C,0xED,0xED,0xC1);
   (0x60,0x20,0x20,0x40); (0x1F,0xFC,0xFC,0xE3); (0xC8,0xB1,0xB1,0x79); (0xED,0x5B,0x5B,0xB6);
   (0xBE,0x6A,0x6A,0xD4); (0x46,0xCB,0xCB,0x8D); (0xD9,0xBE,0xBE,0x67); (0x4B,0x39,0x39,0x72);
   (0xDE,0x4A,0x4A,0x94); (0xD4,0x4C,0x4C,0x98); (0xE8,0x58,0x58,0xB0); (0x4A,0xCF,0xCF,0x85);
   (0x6B,0xD0,0xD0,0xBB); (0x2A,0xEF,0xEF,0xC5); (0xE5,0xAA,0xAA,0x4F); (0x16,0xFB,0xFB,0xED);
   (0xC5,0x43,0x43,0x86); (0xD7,0x4D,0x4D,0x9A); (0x55,0x33,0x33,0x66); (0x94,0x85,0x85,0x11);
   (0xCF,0x45,0x45,0x8A); (0x10,0xF9,0xF9,0xE9); (0x06,0x02,0x02,0x04); (0x81,0x7F,0x7F,0xFE);
   (0xF0,0x50,0x50,0xA0); (0x44,0x3C,0x3C,0x78); (0xBA,0x9F,0x9F,0x25); (0xE3,0xA8,0xA8,0x4B);
   (0xF3,0x51,0x51,0xA2); (0xFE,0xA3,0xA3,0x5D); (0xC0,0x40,0x40,0x80); (0x8A,0x8F,0x8F,0x05);
   (0xAD,0x92,0x92,0x3F); (0xBC,0x9D,0x9D,0x21); (0x48,0x38,0x38,0x70); (0x04,0xF5,0xF5,0xF1);
   (0xDF,0xBC,0xBC,0x63); (0xC1,0xB6,0xB6,0x77); (0x75,0xDA,0xDA,0xAF); (0x63,0x21,0x21,0x42);
   (0x30,0x10,0x10,0x20); (0x1A,0xFF,0xFF,0xE5); (0x0E,0xF3,0xF3,0xFD); (0x6D,0xD2,0xD2,0xBF);
   (0x4C,0xCD,0xCD,0x81); (0x14,0x0C,0x0C,0x18); (0x35,0x13,0x13,0x26); (0x2F,0xEC,0xEC,0xC3);
   (0xE1,0x5F,0x5F,0xBE); (0xA2,0x97,0x97,0x35); (0xCC,0x44,0x44,0x88); (0x39,0x17,0x17,0x2E);
   (0x57,0xC4,0xC4,0x93); (0xF2,0xA7,0xA7,0x55); (0x82,0x7E,0x7E,0xFC); (0x47,0x3D,0x3D,0x7A);
   (0xAC,0x64,0x64,0xC8); (0xE7,0x5D,0x5D,0xBA); (0x2B,0x19,0x19,0x32); (0x95,0x73,0x73,0xE6);
   (0xA0,0x60,0x60,0xC0); (0x98,0x81,0x81,0x19); (0xD1,0x4F,0x4F,0x9E); (0x7F,0xDC,0xDC,0xA3);
   (0x66,0x22,0x22,0x44); (0x7E,0x2A,0x2A,0x54); (0xAB,0x90,0x90,0x3B); (0x83,0x88,0x88,0x0B);
   (0xCA,0x46,0x46,0x8C); (0x29,0xEE,0xEE,0xC7); (0xD3,0xB8,0xB8,0x6B); (0x3C,0x14,0x14,0x28);
   (0x79,0xDE,0xDE,0xA7); (0xE2,0x5E,0x5E,0xBC); (0x1D,0x0B,0x0B,0x16); (0x76,0xDB,0xDB,0xAD);
   (0x3B,0xE0,0xE0,0xDB); (0x56,0x32,0x32,0x64); (0x4E,0x3A,0x3A,0x74); (0x1E,0x0A,0x0A,0x14);
   (0xDB,0x49,0x49,0x92); (0x0A,0x06,0x06,0x0C); (0x6C,0x24,0x24,0x48); (0xE4,0x5C,0x5C,0xB8);
   (0x5D,0xC2,0xC2,0x9F); (0x6E,0xD3,0xD3,0xBD); (0xEF,0xAC,0xAC,0x43); (0xA6,0x62,0x62,0xC4);
   (0xA8,0x91,0x91,0x39); (0xA4,0x95,0x95,0x31); (0x37,0xE4,0xE4,0xD3); (0x8B,0x79,0x79,0xF2);
   (0x32,0xE7,0xE7,0xD5); (0x43,0xC8,0xC8,0x8B); (0x59,0x37,0x37,0x6E); (0xB7,0x6D,0x6D,0xDA);
   (0x8C,0x8D,0x8D,0x01); (0x64,0xD5,0xD5,0xB1); (0xD2,0x4E,0x4E,0x9C); (0xE0,0xA9,0xA9,0x49);
   (0xB4,0x6C,0x6C,0xD8); (0xFA,0x56,0x56,0xAC); (0x07,0xF4,0xF4,0xF3); (0x25,0xEA,0xEA,0xCF);
   (0xAF,0x65,0x65,0xCA); (0x8E,0x7A,0x7A,0xF4); (0xE9,0xAE,0xAE,0x47); (0x18,0x08,0x08,0x10);
   (0xD5,0xBA,0xBA,0x6F); (0x88,0x78,0x78,0xF0); (0x6F,0x25,0x25,0x4A); (0x72,0x2E,0x2E,0x5C);
   (0x24,0x1C,0x1C,0x38); (0xF1,0xA6,0xA6,0x57); (0xC7,0xB4,0xB4,0x73); (0x51,0xC6,0xC6,0x97);
   (0x23,0xE8,0xE8,0xCB); (0x7C,0xDD,0xDD,0xA1); (0x9C,0x74,0x74,0xE8); (0x21,0x1F,0x1F,0x3E);
   (0xDD,0x4B,0x4B,0x96); (0xDC,0xBD,0xBD,0x61); (0x86,0x8B,0x8B,0x0D); (0x85,0x8A,0x8A,0x0F);
   (0x90,0x70,0x70,0xE0); (0x42,0x3E,0x3E,0x7C); (0xC4,0xB5,0xB5,0x71); (0xAA,0x66,0x66,0xCC);
   (0xD8,0x48,0x48,0x90); (0x05,0x03,0x03,0x06); (0x01,0xF6,0xF6,0xF7); (0x12,0x0E,0x0E,0x1C);
   (0xA3,0x61,0x61,0xC2); (0x5F,0x35,0x35,0x6A); (0xF9,0x57,0x57,0xAE); (0xD0,0xB9,0xB9,0x69);
   (0x91,0x86,0x86,0x17); (0x58,0xC1,0xC1,0x99); (0x27,0x1D,0x1D,0x3A); (0xB9,0x9E,0x9E,0x27);
   (0x38,0xE1,0xE1,0xD9); (0x13,0xF8,0xF8,0xEB); (0xB3,0x98,0x98,0x2B); (0x33,0x11,0x11,0x22);
   (0xBB,0x69,0x69,0xD2); (0x70,0xD9,0xD9,0xA9); (0x89,0x8E,0x8E,0x07); (0xA7,0x94,0x94,0x33);
   (0xB6,0x9B,0x9B,0x2D); (0x22,0x1E,0x1E,0x3C); (0x92,0x87,0x87,0x15); (0x20,0xE9,0xE9,0xC9);
   (0x49,0xCE,0xCE,0x87); (0xFF,0x55,0x55,0xAA); (0x78,0x28,0x28,0x50); (0x7A,0xDF,0xDF,0xA5);
   (0x8F,0x8C,0x8C,0x03); (0xF8,0xA1,0xA1,0x59); (0x80,0x89,0x89,0x09); (0x17,0x0D,0x0D,0x1A);
   (0xDA,0xBF,0xBF,0x65); (0x31,0xE6,0xE6,0xD7); (0xC6,0x42,0x42,0x84); (0xB8,0x68,0x68,0xD0);
   (0xC3,0x41,0x41,0x82); (0xB0,0x99,0x99,0x29); (0x77,0x2D,0x2D,0x5A); (0x11,0x0F,0x0F,0x1E);
   (0xCB,0xB0,0xB0,0x7B); (0xFC,0x54,0x54,0xA8); (0xD6,0xBB,0xBB,0x6D); (0x3A,0x16,0x16,0x2C) ].

Definition RSb_rom : list Z := [
   0x52; 0x09; 0x6A; 0xD5; 0x30; 0x36; 0xA5; 0x38; 0xBF; 0x40; 0xA3; 0x9E;
   0x81; 0xF3; 0xD7; 0xFB; 0x7C; 0xE3; 0x39; 0x82; 0x9B; 0x2F; 0xFF; 0x87;
   0x34; 0x8E; 0x43; 0x44; 0xC4; 0xDE; 0xE9; 0xCB; 0x54; 0x7B; 0x94; 0x32;
   0xA6; 0xC2; 0x23; 0x3D; 0xEE; 0x4C; 0x95; 0x0B; 0x42; 0xFA; 0xC3; 0x4E;
   0x08; 0x2E; 0xA1; 0x66; 0x28; 0xD9; 0x24; 0xB2; 0x76; 0x5B; 0xA2; 0x49;
   0x6D; 0x8B; 0xD1; 0x25; 0x72; 0xF8; 0xF6; 0x64; 0x86; 0x68; 0x98; 0x16;
   0xD4; 0xA4; 0x5C; 0xCC; 0x5D; 0x65; 0xB6; 0x92; 0x6C; 0x70; 0x48; 0x50;
   0xFD; 0xED; 0xB9; 0xDA; 0x5E; 0x15; 0x46; 0x57; 0xA7; 0x8D; 0x9D; 0x84;
   0x90; 0xD8; 0xAB; 0x00; 0x8C; 0xBC; 0xD3; 0x0A; 0xF7; 0xE4; 0x58; 0x05;
   0xB8; 0xB3; 0x45; 0x06; 0xD0; 0x2C; 0x1E; 0x8F; 0xCA; 0x3F; 0x0F; 0x02;
   0xC1; 0xAF; 0xBD; 0x03; 0x01; 0x13; 0x8A; 0x6B; 0x3A; 0x91; 0x11; 0x41;
   0x4F; 0x67; 0xDC; 0xEA; 0x97; 0xF2; 0xCF; 0xCE; 0xF0; 0xB4; 0xE6; 0x73;
   0x96; 0xAC; 0x74; 0x22; 0xE7; 0xAD; 0x35; 0x85; 0xE2; 0xF9; 0x37; 0xE8;
   0x1C; 0x75; 0xDF; 0x6E; 0x47; 0xF1; 0x1A; 0x71; 0x1D; 0x29; 0xC5; 0x89;
   0x6F; 0xB7; 0x62; 0x0E; 0xAA; 0x18; 0xBE; 0x1B; 0xFC; 0x56; 0x3E; 0x4B;
   0xC6; 0xD2; 0x79; 0x20; 0x9A; 0xDB; 0xC0; 0xFE; 0x78; 0xCD; 0x5A; 0xF4;
   0x1F; 0xDD; 0xA8; 0x33; 0x88; 0x07; 0xC7; 0x31; 0xB1; 0x12; 0x10; 0x59;
   0x27; 0x80; 0xEC; 0x5F; 0x60; 0x51; 0x7F; 0xA9; 0x19; 0xB5; 0x4A; 0x0D;
   0x2D; 0xE5; 0x7A; 0x9F; 0x93; 0xC9; 0x9C; 0xEF; 0xA0; 0xE0; 0x3B; 0x4D;
   0xAE; 0x2A; 0xF5; 0xB0; 0xC8; 0xEB; 0xBB; 0x3C; 0x83; 0x53; 0x99; 0x61;
   0x17; 0x2B; 0x04; 0x7E; 0xBA; 0x77; 0xD6; 0x26; 0xE1; 0x69; 0x14; 0x63;
   0x55; 0x21; 0x0C; 0x7D ].

Definition RT_rows : list (Z * Z * Z * Z) := [
   (0x50,0xA7,0xF4,0x51); (0x53,0x65,0x41,0x7E); (0xC3,0xA4,0x17,0x1A); (0x96,0x5E,0x27,0x3A);
   (0xCB,0x6B,0xAB,0x3B); (0xF1,0x45,0x9D,0x1F); (0xAB,0x58,0xFA,0xAC); (0x93,0x03,0xE3,0x4B);
   (0x55,0xFA,0x30,0x20); (0xF6,0x6D,0x76,0xAD); (0x91,0x76,0xCC,0x88); (0x25,0x4C,0x02,0xF5);
   (0xFC,0xD7,0xE5,0x4F); (0xD7,0xCB,0x2A,0xC5); (0x80,0x44,0x35,0x26); (0x8F,0xA3,0x62,0xB5);
   (0x49,0x5A,0xB1,0xDE); (0x67,0x1B,0xBA,0x25); (0x98,0x0E,0xEA,0x45); (0xE1,0xC0,0xFE,0x5D);
   (0x02,0x75,0x2F,0xC3); (0x12,0xF0,0x4C,0x81); (0xA3,0x97,0x46,0x8D); (0xC6,0xF9,0xD3,0x6B);
   (0xE7,0x5F,0x8F,0x03); (0x95,0x9C,0x92,0x15); (0xEB,0x7A,0x6D,0xBF); (0xDA,0x59,0x52,0x95);
   (0x2D,0x83,0xBE,0xD4); (0xD3,0x21,0x74,0x58); (0x29,0x69,0xE0,0x49); (0x44,0xC8,0xC9,0x8E);
   (0x6A,0x89,0xC2,0x75); (0x78,0x79,0x8E,0xF4); (0x6B,0x3E,0x58,0x99); (0xDD,0x71,0xB9,0x27);
   (0xB6,0x4F,0xE1,0xBE); (0x17,0xAD,0x88,0xF0); (0x66,0xAC,0x20,0xC9); (0xB4,0x3A,0xCE,0x7D);
   (0x18,0x4A,0xDF,0x63); (0x82,0x31,0x1A,0xE5); (0x60,0x33,0x51,0x97); (0x45,0x7F,0x53,0x62);
   (0xE0,0x77,0x64,0xB1); (0x84,0xAE,0x6B,0xBB); (0x1C,0xA0,0x81,0xFE); (0x94,0x2B,0x08,0xF9);
   (0x58,0x68,0x48,0x70); (0x19,0xFD,0x45,0x8F); (0x87,0x6C,0xDE,0x94); (0xB7,0xF8,0x7B,0x52);
   (0x23,0xD3,0x73,0xAB); (0xE2,0x02,0x4B,0x72); (0x57,0x8F,0x1F,0xE3); (0x2A,0xAB,0x55,0x66);
   (0x07,0x28,0xEB,0xB2); (0x03,0xC2,0xB5,0x2F); (0x9A,0x7B,0xC5,0x86); (0xA5,0x08,0x37,0xD3);
   (0xF2,0x87,0x28,0x30); (0xB2,0xA5,0xBF,0x23); (0xBA,0x6A,0x03,0x02); (0x5C,0x82,0x16,0xED);
   (0x2B,0x1C,0xCF,0x8A); (0x92,0xB4,0x79,0xA7); (0xF0,0xF2,0x07,0xF3); (0xA1,0xE2,0x69,0x4E);
   (0xCD,0xF4,0xDA,0x65); (0xD5,0xBE,0x05,0x06); (0x1F,0x62,0x34,0xD1); (0x8A,0xFE,0xA6,0xC4);
   (0x9D,0x53,0x2E,0x34); (0xA0,0x55,0xF3,0xA2); (0x32,0xE1,0x8A,0x05); (0x75,0xEB,0xF6,0xA4);
   (0x39,0xEC,0x83,0x0B); (0xAA,0xEF,0x60,0x40); (0x06,0x9F,0x71,0x5E); (0x51,0x10,0x6E,0xBD);
   (0xF9,0x8A,0x21,0x3E); (0x3D,0x06,0xDD,0x96); (0xAE,0x05,0x3E,0xDD); (0x46,0xBD,0xE6,0x4D);
   (0xB5,0x8D,0x54,0x91); (0x05,0x5D,0xC4,0x71); (0x6F,0xD4,0x06,0x04); (0xFF,0x15,0x50,0x60);
   (0x24,0xFB,0x98,0x19); (0x97,0xE9,0xBD,0xD6); (0xCC,0x43,0x40,0x89); (0x77,0x9E,0xD9,0x67);
   (0xBD,0x42,0xE8,0xB0); (0x88,0x8B,0x89,0x07); (0x38,0x5B,0x19,0xE7); (0xDB,0xEE,0xC8,0x79);
   (0x47,0x0A,0x7C,0xA1); (0xE9,0x0F,0x42,0x7C); (0xC9,0x1E,0x84,0xF8); (0x00,0x00,0x00,0x00);
   (0x83,0x86,0x80,0x09); (0x48,0xED,0x2B,0x32); (0xAC,0x70,0x11,0x1E); (0x4E,0x72,0x5A,0x6C);
   (0xFB,0xFF,0x0E,0xFD); (0x56,0x38,0x85,0x0F); (0x1E,0xD5,0xAE,0x3D); (0x27,0x39,0x2D,0x36);
   (0x64,0xD9,0x0F,0x0A); (0x21,0xA6,0x5C,0x68); (0xD1,0x54,0x5B,0x9B); (0x3A,0x2E,0x36,0x24);
   (0xB1,0x67,0x0A,0x0C); (0x0F,0xE7,0x57,0x93); (0xD2,0x96,0xEE,0xB4); (0x9E,0x91,0x9B,0x1B);
   (0x4F,0xC5,0xC0,0x80); (0xA2,0x20,0xDC,0x61); (0x69,0x4B,0x77,0x5A); (0x16,0x1A,0x12,0x1C);
   (0x0A,0xBA,0x93,0xE2); (0xE5,0x2A,0xA0,0xC0); (0x43,0xE0,0x22,0x3C); (0x1D,0x17,0x1B,0x12);
   (0x0B,0x0D,0x09,0x0E); (0xAD,0xC7,0x8B,0xF2); (0xB9,0xA8,0xB6,0x2D); (0xC8,0xA9,0x1E,0x14);
   (0x85,0x19,0xF1,0x57); (0x4C,0x07,0x75,0xAF); (0xBB,0xDD,0x99,0xEE); (0xFD,0x60,0x7F,0xA3);
   (0x9F,0x26,0x01,0xF7); (0xBC,0xF5,0x72,0x5C); (0xC5,0x3B,0x66,0x44); (0x34,0x7E,0xFB,0x5B);
   (0x76,0x29,0x43,0x8B); (0xDC,0xC6,0x23,0xCB); (0x68,0xFC,0xED,0xB6); (0x63,0xF1,0xE4,0xB8);
   (0xCA,0xDC,0x31,0xD7); (0x10,0x85,0x63,0x42); (0x40,0x22,0x97,0x13); (0x20,0x11,0xC6,0x84);
   (0x7D,0x24,0x4A,0x85); (0xF8,0x3D,0xBB,0xD2); (0x11,0x32,0xF9,0xAE); (0x6D,0xA1,0x29,0xC7);
   (0x4B,0x2F,0x9E,0x1D); (0xF3,0x30,0xB2,0xDC); (0xEC,0x52,0x86,0x0D); (0xD0,0xE3,0xC1,0x77);
   (0x6C,0x16,0xB3,0x2B); (0x99,0xB9,0x70,0xA9); (0xFA,0x48,0x94,0x11); (0x22,0x64,0xE9,0x47);
   (0xC4,0x8C,0xFC,0xA8); (0x1A,0x3F,0xF0,0xA0); (0xD8,0x2C,0x7D,0x56); (0xEF,0x90,0x33,0x22);
   (0xC7,0x4E,0x49,0x87); (0xC1,0xD1,0x38,0xD9); (0xFE,0xA2,0xCA,0x8C); (0x36,0x0B,0xD4,0x98);
   (0xCF,0x81,0xF5,0xA6); (0x28,0xDE,0x7A,0xA5); (0x26,0x8E,0xB7,0xDA); (0xA4,0xBF,0xAD,0x3F);
   (0xE4,0x9D,0x3A,0x2C); (0x0D,0x92,0x78,0x50); (0x9B,0xCC,0x5F,0x6A); (0x62,0x46,0x7E,0x54);
   (0xC2,0x13,0x8D,0xF6); (0xE8,0xB8,0xD8,0x90); (0x5E,0xF7,0x39,0x2E); (0xF5,0xAF,0xC3,0x82);
   (0xBE,0x80,0x5D,0x9F); (0x7C,0x93,0xD0,0x69); (0xA9,0x2D,0xD5,0x6F); (0xB3,0x12,0x25,0xCF);
   (0x3B,0x99,0xAC,0xC8); (0xA7,0x7D,0x18,0x10); (0x6E,0x63,0x9C,0xE8); (0x7B,0xBB,0x3B,0xDB);
   (0x09,0x78,0x26,0xCD); (0xF4,0x18,0x59,0x6E); (0x01,0xB7,0x9A,0xEC); (0xA8,0x9A,0x4F,0x83);
   (0x65,0x6E,0x95,0xE6); (0x7E,0xE6,0xFF,0xAA); (0x08,0xCF,0xBC,0x21); (0xE6,0xE8,0x15,0xEF);
   (0xD9,0x9B,0xE7,0xBA); (0xCE,0x36,0x6F,0x4A); (0xD4,0x09,0x9F,0xEA); (0xD6,0x7C,0xB0,0x29);
   (0xAF,0xB2,0xA4,0x31); (0x31,0x23,0x3F,0x2A); (0x30,0x94,0xA5,0xC6); (0xC0,0x66,0xA2,0x35);
   (0x37,0xBC,0x4E,0x74); (0xA6,0xCA,0x82,0xFC); (0xB0,0xD0,0x90,0xE0); (0x15,0xD8,0xA7,0x33);
   (0x4A,0x98,0x04,0xF1); (0xF7,0xDA,0xEC,0x41); (0x0E,0x50,0xCD,0x7F); (0x2F,0xF6,0x91,0x17);
   (0x8D,0xD6,0x4D,0x76); (0x4D,0xB0,0xEF,0x43); (0x54,0x4D,0xAA,0xCC); (0xDF,0x04,0x96,0xE4);
   (0xE3,0xB5,0xD1,0x9E); (0x1B,0x88,0x6A,0x4C); (0xB8,0x1F,0x2C,0xC1); (0x7F,0x51,0x65,0x46);
   (0x04,0xEA,0x5E,0x9D); (0x5D,0x35,0x8C,0x01); (0x73,0x74,0x87,0xFA); (0x2E,0x41,0x0B,0xFB);
   (0x5A,0x1D,0x67,0xB3); (0x52,0xD2,0xDB,0x92); (0x33,0x56,0x10,0xE9); (0x13,0x47,0xD6,0x6D);
   (0x8C,0x61,0xD7,0x9A); (0x7A,0x0C,0xA1,0x37); (0x8E,0x14,0xF8,0x59); (0x89,0x3C,0x13,0xEB);
   (0xEE,0x27,0xA9,0xCE); (0x35,0xC9,0x61,0xB7); (0xED,0xE5,0x1C,0xE1); (0x3C,0xB1,0x47,0x7A);
   (0x59,0xDF,0xD2,0x9C); (0x3F,0x73,0xF2,0x55); (0x79,0xCE,0x14,0x18); (0xBF,0x37,0xC7,0x73);
   (0xEA,0xCD,0xF7,0x53); (0x5B,0xAA,0xFD,0x5F); (0x14,0x6F,0x3D,0xDF); (0x86,0xDB,0x44,0x78);
   (0x81,0xF3,0xAF,0xCA); (0x3E,0xC4,0x68,0xB9); (0x2C,0x34,0x24,0x38); (0x5F,0x40,0xA3,0xC2);
   (0x72,0xC3,0x1D,0x16); (0x0C,0x25,0xE2,0xBC); (0x8B,0x49,0x3C,0x28); (0x41,0x95,0x0D,0xFF);
   (0x71,0x01,0xA8,0x39); (0xDE,0xB3,0x0C,0x08); (0x9C,0xE4,0xB4,0xD8); (0x90,0xC1,0x56,0x64);
   (0x61,0x84,0xCB,0x7B); (0x70,0xB6,0x32,0xD5); (0x74,0x5C,0x6C,0x48); (0x42,0x57,0xB8,0xD0) ].

Definition RCON_rom : list Z := [
   0x00000001; 0x00000002; 0x00000004; 0x00000008; 0x00000010;
   0x00000020; 0x00000040; 0x00000080; 0x0000001B; 0x00000036 ].

(** [0x##a##b##c##d]: the row as a hexadecimal literal. *)
Definition V_word (a b c d : Z) : Z :=
  Z.lor (Z.lor (Z.lor (Z.shiftl a 24) (Z.shiftl b 16)) (Z.shiftl c 8)) d.
Definition V0 '(a, b, c, d) : Z := V_word a b c d.
Definition V1 '(a, b, c, d) : Z := V_word b c d a.
Definition V2 '(a, b, c, d) : Z := V_word c d a b.
Definition V3 '(a, b, c, d) : Z := V_word d a b c.

Definition rom_tables : tables :=
  Tables FSb_rom (V0 <$> FT_rows) (V1 <$> FT_rows) (V2 <$> FT_rows) (V3 <$> FT_rows)
         RSb_rom (V0 <$> RT_rows) (V1 <$> RT_rows) (V2 <$> RT_rows) (V3 <$> RT_rows)
         RCON_rom.

(** Building the tables twice, or from zeroed storage, gives the same. *)
Lemma gen_tables_rom : aes_gen_tables zero_tables = rom_tables.
Proof. vm_compute. reflexivity. Qed.
