(* ===== verification/AesCore.v ===== *)
(** * AesCore: key schedules and block functions of [src/aes_test/library/aes.c]

    The software path of the cipher ([mbedtls_aesni_has_support] and
    [aes_padlock_ace] are 0), with [MBEDTLS_CHECK_PARAMS] undefined as in
    config.h, so that the parameter-validation macros are empty. *)
From S2P Require Import Prelude.
From S2P Require Import AesTables.

Open Scope C.

(** ** Data *)

Definition MBEDTLS_AES_ENCRYPT : Z := 1.
Definition MBEDTLS_AES_DECRYPT : Z := 0.
Definition MBEDTLS_ERR_AES_INVALID_KEY_LENGTH : Z := -0x0020.
Definition MBEDTLS_ERR_AES_INVALID_INPUT_LENGTH : Z := -0x0022.
Definition MBEDTLS_ERR_AES_BAD_INPUT_DATA : Z := -0x0021.

(** The context of aes.h; on the software path [rk] always points to the
    start of [buf], so only the round count and the buffer are state. *)
Record aes_context := AesContext { nr : Z; buf : list Z }.

(** [mbedtls_aes_init] / [mbedtls_aes_free]: the structure zeroed. *)
Definition mbedtls_aes_init : aes_context := AesContext 0 (replicate 68 0).

(** [( w >> 8*k ) & 0xFF] *)
Definition B (k w : Z) : Z := Z.land (Z.shiftr w (8 * k)) 0xFF.

(** [(uint32_t) x << n] *)
Definition shl32 (x n : Z) : Z := u32 (Z.shiftl x n).

Definition GET_UINT32_LE (b : list Z) (i : Z) : Z :=
  Z.lor (Z.lor (Z.lor (b.[i]) (shl32 (b.[i + 1]) 8)) (shl32 (b.[i + 2]) 16))
        (shl32 (b.[i + 3]) 24).
Definition PUT_UINT32_LE (n : Z) : list Z :=
  [Z.land n 0xFF; Z.land (Z.shiftr n 8) 0xFF;
   Z.land (Z.shiftr n 16) 0xFF; Z.land (Z.shiftr n 24) 0xFF].

(** [FSb] of the four bytes of [w], the byte numbers given in the order
    in which they become bytes 0..3 of the result. *)
Definition fsb_word (t : tables) (w k0 k1 k2 k3 acc : Z) : Z :=
  Z.lxor (Z.lxor (Z.lxor (Z.lxor acc
    ((FSb t).[B k0 w]))
    (shl32 ((FSb t).[B k1 w]) 8))
    (shl32 ((FSb t).[B k2 w]) 16))
    (shl32 ((FSb t).[B k3 w]) 24).

(** ** Encryption key schedule *)

(** One iteration of the loop of [case 10], [RK] being the offset of the
    pointer of that name in [buf]. *)
Definition setkey_step_10 (t : tables) (i RK : Z) (b : list Z) : list Z :=
  let b := b.[RK + 4 := fsb_word t (b.[RK + 3]) 1 2 3 0 (Z.lxor (b.[RK]) ((RCON t).[i]))] in
  let b := b.[RK + 5 := Z.lxor (b.[RK + 1]) (b.[RK + 4])] in
  let b := b.[RK + 6 := Z.lxor (b.[RK + 2]) (b.[RK + 5])] in
  b.[RK + 7 := Z.lxor (b.[RK + 3]) (b.[RK + 6])].

Definition setkey_step_12 (t : tables) (i RK : Z) (b : list Z) : list Z :=
  let b := b.[RK + 6 := fsb_word t (b.[RK + 5]) 1 2 3 0 (Z.lxor (b.[RK]) ((RCON t).[i]))] in
  let b := b.[RK + 7 := Z.lxor (b.[RK + 1]) (b.[RK + 6])] in
  let b := b.[RK + 8 := Z.lxor (b.[RK + 2]) (b.[RK + 7])] in
  let b := b.[RK + 9 := Z.lxor (b.[RK + 3]) (b.[RK + 8])] in
  let b := b.[RK + 10 := Z.lxor (b.[RK + 4]) (b.[RK + 9])] in
  b.[RK + 11 := Z.lxor (b.[RK + 5]) (b.[RK + 10])].

Definition setkey_step_14 (t : tables) (i RK : Z) (b : list Z) : list Z :=
  let b := b.[RK + 8 := fsb_word t (b.[RK + 7]) 1 2 3 0 (Z.lxor (b.[RK]) ((RCON t).[i]))] in
  let b := b.[RK + 9 := Z.lxor (b.[RK + 1]) (b.[RK + 8])] in
  let b := b.[RK + 10 := Z.lxor (b.[RK + 2]) (b.[RK + 9])] in
  let b := b.[RK + 11 := Z.lxor (b.[RK + 3]) (b.[RK + 10])] in
  let b := b.[RK + 12 := fsb_word t (b.[RK + 11]) 0 1 2 3 (b.[RK + 4])] in
  let b := b.[RK + 13 := Z.lxor (b.[RK + 5]) (b.[RK + 12])] in
  let b := b.[RK + 14 := Z.lxor (b.[RK + 6]) (b.[RK + 13])] in
  b.[RK + 15 := Z.lxor (b.[RK + 7]) (b.[RK + 14])].

(** [for( i = 0; i < n; i++, RK += stride )] *)
Fixpoint setkey_loop (step : Z -> Z -> list Z -> list Z) (stride : Z)
    (n : nat) (i RK : Z) (b : list Z) : list Z :=
  match n with
  | O => b
  | S n => setkey_loop step stride n (i + 1) (RK + stride) (step i RK b)
  end.

(** [for( i = 0; i < ( keybits >> 5 ); i++ ) GET_UINT32_LE( RK[i], key, i << 2 )] *)
Fixpoint load_key (n : nat) (i : Z) (key b : list Z) : list Z :=
  match n with
  | O => b
  | S n => load_key n (i + 1) key (b.[i := GET_UINT32_LE key (Z.shiftl i 2)])
  end.

(** The [switch( ctx->nr )]. *)
Definition expand_key (t : tables) (nr : Z) (b : list Z) : list Z :=
  if nr =? 10 then setkey_loop (setkey_step_10 t) 4 10 0 0 b
  else if nr =? 12 then setkey_loop (setkey_step_12 t) 6 8 0 0 b
  else if nr =? 14 then setkey_loop (setkey_step_14 t) 8 7 0 0 b
  else b.

(** The [switch( keybits )]. *)
Definition rounds_of_keybits (keybits : Z) : option Z :=
  if keybits =? 128 then Some 10
  else if keybits =? 192 then Some 12
  else if keybits =? 256 then Some 14
  else None.

(** Result code, static state, context. *)
Definition mbedtls_aes_setkey_enc (s : aes_static) (ctx : aes_context)
    (key : list Z) (keybits : Z) : Z * aes_static * aes_context :=
  match rounds_of_keybits keybits with
  | None => (MBEDTLS_ERR_AES_INVALID_KEY_LENGTH, s, ctx)
  | Some n =>
      let s := aes_ensure_tables s in
      let b := load_key (Z.to_nat (Z.shiftr keybits 5)) 0 key (buf ctx) in
      (0, s, AesContext n (expand_key (st_tables s) n b))
  end.

(** ** Decryption key schedule *)

(** [*RK++ = AES_RT0( FSb[ ... ] ) ^ ...] on the word at [SK]. *)
Definition inv_mix_word (t : tables) (w : Z) : Z :=
  Z.lxor (Z.lxor (Z.lxor
    ((RT0 t).[(FSb t).[B 0 w]])
    ((RT1 t).[(FSb t).[B 1 w]]))
    ((RT2 t).[(FSb t).[B 2 w]]))
    ((RT3 t).[(FSb t).[B 3 w]]).

(** [n] iterations of a loop that stores [f *SK++] to [*RK++]. *)
Fixpoint copy_words (f : Z -> Z) (n : nat) (sk : list Z) (SK RK : Z) (b : list Z)
  : Z * Z * list Z :=
  match n with
  | O => (SK, RK, b)
  | S n => copy_words f n sk (SK + 1) (RK + 1) (b.[RK := f (sk.[SK])])
  end.

(** [for( i = ctx->nr - 1, SK -= 8; i > 0; i--, SK -= 8 )] *)
Fixpoint dec_rounds (t : tables) (n : nat) (sk : list Z) (SK RK : Z) (b : list Z)
  : Z * Z * list Z :=
  match n with
  | O => (SK, RK, b)
  | S n =>
      let '(SK, RK, b) := copy_words (inv_mix_word t) 4 sk SK RK b in
      dec_rounds t n sk (SK - 8) RK b
  end.

Definition dec_schedule (t : tables) (cty : aes_context) (b : list Z) : list Z :=
  let SK := nr cty * 4 in
  let '(SK, RK, b) := copy_words id 4 (buf cty) SK 0 b in
  let '(SK, RK, b) := dec_rounds t (Z.to_nat (nr cty - 1)) (buf cty) (SK - 8) RK b in
  let '(_, _, b) := copy_words id 4 (buf cty) SK RK b in b.

Definition mbedtls_aes_setkey_dec (s : aes_static) (ctx : aes_context)
    (key : list Z) (keybits : Z) : Z * aes_static * aes_context :=
  let '(ret, s, cty) := mbedtls_aes_setkey_enc s mbedtls_aes_init key keybits in
  if negb (Z.eqb ret 0) then (ret, s, ctx)
  else (ret, s, AesContext (nr cty) (dec_schedule (st_tables s) cty (buf ctx))).

(** ** Block encryption and decryption *)

(** The four [uint32_t] working variables. *)
Record st4 := St4 { X0 : Z; X1 : Z; X2 : Z; X3 : Z }.

Definition ft_word (t : tables) (rk a b c d : Z) : Z :=
  Z.lxor (Z.lxor (Z.lxor (Z.lxor rk
    ((FT0 t).[B 0 a])) ((FT1 t).[B 1 b])) ((FT2 t).[B 2 c])) ((FT3 t).[B 3 d]).
Definition rt_word (t : tables) (rk a b c d : Z) : Z :=
  Z.lxor (Z.lxor (Z.lxor (Z.lxor rk
    ((RT0 t).[B 0 a])) ((RT1 t).[B 1 b])) ((RT2 t).[B 2 c])) ((RT3 t).[B 3 d]).
(** The S-box words of the last round ([sb] is [FSb] or [RSb]). *)
Definition sb_word (sb : list Z) (rk a b c d : Z) : Z :=
  Z.lxor (Z.lxor (Z.lxor (Z.lxor rk
    (sb.[B 0 a])) (shl32 (sb.[B 1 b]) 8)) (shl32 (sb.[B 2 c]) 16)) (shl32 (sb.[B 3 d]) 24).

Definition AES_FROUND (t : tables) (b : list Z) (RK : Z) (Y : st4) : st4 :=
  let '(St4 Y0 Y1 Y2 Y3) := Y in
  St4 (ft_word t (b.[RK]) Y0 Y1 Y2 Y3)
      (ft_word t (b.[RK + 1]) Y1 Y2 Y3 Y0)
      (ft_word t (b.[RK + 2]) Y2 Y3 Y0 Y1)
      (ft_word t (b.[RK + 3]) Y3 Y0 Y1 Y2).

Definition AES_RROUND (t : tables) (b : list Z) (RK : Z) (Y : st4) : st4 :=
  let '(St4 Y0 Y1 Y2 Y3) := Y in
  St4 (rt_word t (b.[RK]) Y0 Y3 Y2 Y1)
      (rt_word t (b.[RK + 1]) Y1 Y0 Y3 Y2)
      (rt_word t (b.[RK + 2]) Y2 Y1 Y0 Y3)
      (rt_word t (b.[RK + 3]) Y3 Y2 Y1 Y0).

Definition load_block (b input : list Z) : st4 :=
  St4 (Z.lxor (GET_UINT32_LE input 0) (b.[0]))
      (Z.lxor (GET_UINT32_LE input 4) (b.[1]))
      (Z.lxor (GET_UINT32_LE input 8) (b.[2]))
      (Z.lxor (GET_UINT32_LE input 12) (b.[3])).

Definition store_block (X : st4) : list Z :=
  let '(St4 X0 X1 X2 X3) := X in
  PUT_UINT32_LE X0 ++ PUT_UINT32_LE X1 ++ PUT_UINT32_LE X2 ++ PUT_UINT32_LE X3.

(** [for( i = ( ctx->nr >> 1 ) - 1; i > 0; i-- )]: two rounds a turn. *)
Fixpoint round_loop (round : Z -> st4 -> st4) (n : nat) (RK : Z) (X : st4) : Z * st4 :=
  match n with
  | O => (RK, X)
  | S n =>
      let Y := round RK X in
      let X := round (RK + 4) Y in
      round_loop round n (RK + 8) X
  end.

Definition final_fround (t : tables) (b : list Z) (RK : Z) (Y : st4) : st4 :=
  let '(St4 Y0 Y1 Y2 Y3) := Y in
  St4 (sb_word (FSb t) (b.[RK]) Y0 Y1 Y2 Y3)
      (sb_word (FSb t) (b.[RK + 1]) Y1 Y2 Y3 Y0)
      (sb_word (FSb t) (b.[RK + 2]) Y2 Y3 Y0 Y1)
      (sb_word (FSb t) (b.[RK + 3]) Y3 Y0 Y1 Y2).

Definition final_rround (t : tables) (b : list Z) (RK : Z) (Y : st4) : st4 :=
  let '(St4 Y0 Y1 Y2 Y3) := Y in
  St4 (sb_word (RSb t) (b.[RK]) Y0 Y3 Y2 Y1)
      (sb_word (RSb t) (b.[RK + 1]) Y1 Y0 Y3 Y2)
      (sb_word (RSb t) (b.[RK + 2]) Y2 Y1 Y0 Y3)
      (sb_word (RSb t) (b.[RK + 3]) Y3 Y2 Y1 Y0).

Definition mbedtls_internal_aes_encrypt (t : tables) (ctx : aes_context)
    (input : list Z) : list Z :=
  let b := buf ctx in
  let X := load_block b input in
  let '(RK, X) := round_loop (AES_FROUND t b) (Z.to_nat (Z.shiftr (nr ctx) 1 - 1)) 4 X in
  let Y := AES_FROUND t b RK X in
  store_block (final_fround t b (RK + 4) Y).

Definition mbedtls_internal_aes_decrypt (t : tables) (ctx : aes_context)
    (input : list Z) : list Z :=
  let b := buf ctx in
  let X := load_block b input in
  let '(RK, X) := round_loop (AES_RROUND t b) (Z.to_nat (Z.shiftr (nr ctx) 1 - 1)) 4 X in
  let Y := AES_RROUND t b RK X in
  store_block (final_rround t b (RK + 4) Y).

(** [mbedtls_aes_crypt_ecb] always returns 0 on the software path. *)
Definition mbedtls_aes_crypt_ecb (t : tables) (ctx : aes_context) (mode : Z)
    (input : list Z) : list Z :=
  if mode =? MBEDTLS_AES_ENCRYPT then mbedtls_internal_aes_encrypt t ctx input
  else mbedtls_internal_aes_decrypt t ctx input.
