(* ===== verification/AesFacts.v ===== *)
(** * AesFacts: arithmetic of the AES tables and of words seen as four bytes

    The facts about the generated tables are decided on the 256 bytes; the
    statements on words follow from them by xor-linearity. *)
From S2P Require Import Prelude.
From S2P Require Import AesTables.
From S2P Require Import AesCore.

Open Scope C.

Create Rewrite HintDb bytes.

(** ** Quantifying over bytes *)

Definition all_bytes (p : Z -> bool) : bool := forallb p (seqZ 0 256).

Lemma all_bytes_spec p x : all_bytes p = true -> fits 8 x -> p x = true.
Proof.
  unfold all_bytes. rewrite forallb_forall. intros H Hx. apply H.
  apply list_elem_of_In, elem_of_seqZ. unfold fits in Hx. lia.
Qed.

(** [by_bytes x]: decide a boolean equality by running it on every byte. *)
Ltac by_bytes x :=
  match goal with
  | Hx : fits 8 x |- ?l = ?r =>
      pattern x;
      match goal with
      | |- ?P x =>
          let p := constr:(fun y : Z => bool_decide (P y)) in
          apply (proj1 (bool_decide_eq_true (P x)));
          apply (all_bytes_spec p x); [vm_compute; reflexivity | exact Hx]
      end
  end.

(** ** Xor-linear functions on bytes *)

(** [f] as the xor of its values on the powers of two below [2^8]. *)
Definition bit_sum (f : Z -> Z) (x : Z) : Z :=
  foldr (fun i acc => Z.lxor (if Z.testbit x i then f (2 ^ i) else 0) acc) 0
        [0; 1; 2; 3; 4; 5; 6; 7].

Lemma lxor_swap a b c d :
  Z.lxor (Z.lxor a b) (Z.lxor c d) = Z.lxor (Z.lxor a c) (Z.lxor b d).
Proof. bits_by i. btauto. Qed.

Lemma bit_sum_lxor f x y : bit_sum f (Z.lxor x y) = Z.lxor (bit_sum f x) (bit_sum f y).
Proof.
  unfold bit_sum. induction [0; 1; 2; 3; 4; 5; 6; 7] as [|i l IH]; simpl; [done|].
  rewrite IH, Z.lxor_spec, lxor_swap. f_equal.
  destruct (Z.testbit x i), (Z.testbit y i); simpl;
    rewrite ?Z.lxor_nilpotent, ?Z.lxor_0_r, ?Z.lxor_0_l; done.
Qed.

Lemma linear_byte f x y :
  all_bytes (fun z => f z =? bit_sum f z) = true ->
  fits 8 x -> fits 8 y -> f (Z.lxor x y) = Z.lxor (f x) (f y).
Proof.
  intros Hf Hx Hy.
  assert (Hs : forall z, fits 8 z -> f z = bit_sum f z).
  { intros z Hz. apply Z.eqb_eq. by apply (all_bytes_spec (fun z => f z =? bit_sum f z)). }
  rewrite !Hs, bit_sum_lxor; auto with cmodel lia.
Qed.

(** ** Words as four bytes *)

(** [uint32_t] from its bytes, least significant first. *)
Definition pack (b0 b1 b2 b3 : Z) : Z :=
  Z.lxor (Z.lxor (Z.lxor b0 (shl32 b1 8)) (shl32 b2 16)) (shl32 b3 24).

Lemma B_fits k w : 0 <= k -> fits 8 (B k w).
Proof.
  intros. unfold B. change 255 with (Z.ones 8). rewrite Z.land_ones by lia.
  by apply Z.mod_pos_bound.
Qed.

Lemma B_lxor k v w : 0 <= k -> B k (Z.lxor v w) = Z.lxor (B k v) (B k w).
Proof. intros. unfold B. bits_by i. btauto. Qed.

Lemma B_spec k w i : 0 <= k -> 0 <= i -> Z.testbit (B k w) i = (i <? 8) && Z.testbit w (i + 8 * k).
Proof.
  intros. unfold B. change 255 with (Z.ones 8). autorewrite with bits. btauto.
Qed.

Lemma shl32_spec x n i :
  0 <= i -> 0 <= n -> Z.testbit (shl32 x n) i = (i <? 32) && Z.testbit x (i - n).
Proof. intros. unfold shl32. by autorewrite with bits. Qed.
#[export] Hint Rewrite B_spec shl32_spec using lia : bits.

(** Bit [i] of a packed word comes from byte [i / 8]. *)
Lemma pack_spec b0 b1 b2 b3 i :
  fits 8 b0 -> fits 8 b1 -> fits 8 b2 -> fits 8 b3 -> 0 <= i ->
  Z.testbit (pack b0 b1 b2 b3) i =
    if i <? 8 then Z.testbit b0 i else if i <? 16 then Z.testbit b1 (i - 8)
    else if i <? 24 then Z.testbit b2 (i - 16) else if i <? 32 then Z.testbit b3 (i - 24)
    else false.
Proof.
  intros H0 H1 H2 H3 Hi. unfold pack. autorewrite with bits.
  repeat case_match; rewrite ?Z.ltb_lt, ?Z.ltb_ge in *;
    repeat match goal with
    | |- context [?a <? ?b] => destruct (Z.ltb_spec a b); try lia
    end;
    repeat match goal with
    | H : fits 8 ?b |- context [Z.testbit ?b ?j] =>
        first [rewrite (Z.testbit_neg_r b j) by lia
              |rewrite (testbit_above 8 b j H) by lia]
    end; simpl; btauto.
Qed.

Lemma pack_fits b0 b1 b2 b3 :
  fits 8 b0 -> fits 8 b1 -> fits 8 b2 -> fits 8 b3 -> fits 32 (pack b0 b1 b2 b3).
Proof.
  intros. unfold pack, shl32. repeat apply fits_lxor; auto with cmodel lia.
  by apply (fits_mono 8).
Qed.

Lemma B_pack b0 b1 b2 b3 k :
  fits 8 b0 -> fits 8 b1 -> fits 8 b2 -> fits 8 b3 -> 0 <= k <= 3 ->
  B k (pack b0 b1 b2 b3) =
    if k =? 0 then b0 else if k =? 1 then b1 else if k =? 2 then b2 else b3.
Proof.
  intros H0 H1 H2 H3 Hk. bits_by i. rewrite pack_spec by (done || lia).
  assert (k = 0 \/ k = 1 \/ k = 2 \/ k = 3) as [-> | [-> | [-> | ->]]] by lia; simpl;
  repeat match goal with
    | |- context [?a <? ?b] => destruct (Z.ltb_spec a b); try lia
    end; simpl; try (f_equal; lia);
    match goal with
    | H : fits 8 ?b |- context [Z.testbit ?b ?j] =>
        by rewrite (testbit_above 8 b j H) by lia
    end.
Qed.

(** The four instances as rewriting rules. *)
Lemma B0_pack b0 b1 b2 b3 :
  fits 8 b0 -> fits 8 b1 -> fits 8 b2 -> fits 8 b3 -> B 0 (pack b0 b1 b2 b3) = b0.
Proof. intros. by rewrite B_pack. Qed.
Lemma B1_pack b0 b1 b2 b3 :
  fits 8 b0 -> fits 8 b1 -> fits 8 b2 -> fits 8 b3 -> B 1 (pack b0 b1 b2 b3) = b1.
Proof. intros. by rewrite B_pack. Qed.
Lemma B2_pack b0 b1 b2 b3 :
  fits 8 b0 -> fits 8 b1 -> fits 8 b2 -> fits 8 b3 -> B 2 (pack b0 b1 b2 b3) = b2.
Proof. intros. by rewrite B_pack. Qed.
Lemma B3_pack b0 b1 b2 b3 :
  fits 8 b0 -> fits 8 b1 -> fits 8 b2 -> fits 8 b3 -> B 3 (pack b0 b1 b2 b3) = b3.
Proof. intros. by rewrite B_pack. Qed.
#[export] Hint Rewrite B0_pack B1_pack B2_pack B3_pack using assumption : bytes.

Lemma pack_B w : fits 32 w -> pack (B 0 w) (B 1 w) (B 2 w) (B 3 w) = w.
Proof.
  intros Hw. apply Z.bits_inj'; intros i Hi.
  rewrite pack_spec by (auto using B_fits with lia).
  repeat match goal with
    | |- context [?a <? ?b] => destruct (Z.ltb_spec a b); try lia
    end; rewrite ?B_spec by lia;
  repeat match goal with
    | |- context [?a <? ?b] => destruct (Z.ltb_spec a b); try lia
    end; simpl; try (f_equal; lia).
  by rewrite (testbit_above 32 w i Hw) by lia.
Qed.

(** Two 32-bit words with the same bytes are equal. *)
Lemma word_ext v w :
  fits 32 v -> fits 32 w -> (forall k, 0 <= k <= 3 -> B k v = B k w) -> v = w.
Proof.
  intros Hv Hw H. rewrite <-(pack_B v), <-(pack_B w) by done.
  by rewrite !H by lia.
Qed.

Lemma lxor_pack a0 a1 a2 a3 b0 b1 b2 b3 :
  Z.lxor (pack a0 a1 a2 a3) (pack b0 b1 b2 b3) =
  pack (Z.lxor a0 b0) (Z.lxor a1 b1) (Z.lxor a2 b2) (Z.lxor a3 b3).
Proof.
  unfold pack. apply Z.bits_inj'; intros i Hi. autorewrite with bits. btauto.
Qed.

(** ** The generated tables *)

Section Tables.
#[local] Abbreviation t := rom_tables (only parsing).

Lemma FSb_fits x : fits 8 x -> fits 8 ((FSb t).[x]).
Proof.
  intros Hx.
  assert (bool_decide (fits 8 ((FSb t).[x])) = true) as H%bool_decide_eq_true; [|done].
  by_bytes x.
Qed.

(** The two S-boxes are inverse permutations. *)
Lemma RSb_FSb x : fits 8 x -> (RSb t).[(FSb t).[x]] = x.
Proof. intros Hx. by_bytes x. Qed.
Lemma FSb_RSb x : fits 8 x -> (FSb t).[(RSb t).[x]] = x.
Proof. intros Hx. by_bytes x. Qed.

(** The image of a byte at position [k] under the inverse column mixing. *)
Definition inv_mix_byte (k x : Z) : Z :=
  if k =? 0 then (RT0 rom_tables).[(FSb rom_tables).[x]]
  else if k =? 1 then (RT1 rom_tables).[(FSb rom_tables).[x]]
  else if k =? 2 then (RT2 rom_tables).[(FSb rom_tables).[x]]
  else (RT3 rom_tables).[(FSb rom_tables).[x]].

Lemma inv_mix_byte_linear k x y :
  0 <= k <= 3 -> fits 8 x -> fits 8 y ->
  inv_mix_byte k (Z.lxor x y) = Z.lxor (inv_mix_byte k x) (inv_mix_byte k y).
Proof.
  intros Hk Hx Hy. apply linear_byte; [|done..].
  assert (k = 0 \/ k = 1 \/ k = 2 \/ k = 3) as [-> | [-> | [-> | ->]]] by lia;
    vm_compute; reflexivity.
Qed.

Lemma inv_mix_word_bytes w :
  inv_mix_word t w =
    Z.lxor (Z.lxor (Z.lxor (inv_mix_byte 0 (B 0 w)) (inv_mix_byte 1 (B 1 w)))
                   (inv_mix_byte 2 (B 2 w))) (inv_mix_byte 3 (B 3 w)).
Proof. reflexivity. Qed.

Lemma inv_mix_word_lxor v w :
  inv_mix_word t (Z.lxor v w) = Z.lxor (inv_mix_word t v) (inv_mix_word t w).
Proof.
  rewrite !inv_mix_word_bytes, !B_lxor by lia.
  rewrite !inv_mix_byte_linear by (auto using B_fits with lia).
  bits_by i. btauto.
Qed.

(** Each forward table entry is the mixed column of one S-box byte, and
    the inverse mixing takes it back to that byte in place. *)
Lemma inv_mix_FT0 x : fits 8 x -> inv_mix_word t ((FT0 t).[x]) = (FSb t).[x].
Proof. intros Hx. by_bytes x. Qed.
Lemma inv_mix_FT1 x : fits 8 x -> inv_mix_word t ((FT1 t).[x]) = shl32 ((FSb t).[x]) 8.
Proof. intros Hx. by_bytes x. Qed.
Lemma inv_mix_FT2 x : fits 8 x -> inv_mix_word t ((FT2 t).[x]) = shl32 ((FSb t).[x]) 16.
Proof. intros Hx. by_bytes x. Qed.
Lemma inv_mix_FT3 x : fits 8 x -> inv_mix_word t ((FT3 t).[x]) = shl32 ((FSb t).[x]) 24.
Proof. intros Hx. by_bytes x. Qed.

Lemma table_entry_fits x : fits 8 x ->
  fits 32 ((FT0 t).[x]) /\ fits 32 ((FT1 t).[x]) /\
  fits 32 ((FT2 t).[x]) /\ fits 32 ((FT3 t).[x]).
Proof.
  intros Hx.
  assert (bool_decide (fits 32 ((FT0 t).[x]) /\ fits 32 ((FT1 t).[x]) /\
    fits 32 ((FT2 t).[x]) /\ fits 32 ((FT3 t).[x])) = true) as H%bool_decide_eq_true; [|done].
  by_bytes x.
Qed.
End Tables.

#[export] Hint Resolve B_fits FSb_fits pack_fits : cmodel.
