(* ===== verification/AesSpec.v ===== *)
(** * AesSpec: the Advanced Encryption Standard on bytes

    A reference definition of the cipher, written from the standard's own
    terms (arithmetic of GF(2^8), a state of four columns of four bytes, the
    word recurrence of the key expansion) and independent of the tables and
    of the word order aes.c works with. *)
From S2P Require Import Prelude.

Open Scope C.

Module Fips.

(** ** GF(2^8) modulo x^8 + x^4 + x^3 + x + 1 *)

Definition xtime (a : Z) : Z :=
  let d := 2 * a in if d <? 256 then d else Z.lxor d 0x11B.

(** Schoolbook multiplication over the eight bits of [a]. *)
Fixpoint gmul_bits (n : nat) (a b : Z) : Z :=
  match n with
  | O => 0
  | S n => Z.lxor (if Z.odd a then b else 0) (gmul_bits n (Z.div2 a) (xtime b))
  end.
Definition gmul (a b : Z) : Z := gmul_bits 8 a b.

(** The multiplicative inverse (0 for 0) as the power 254. *)
Definition ginv (a : Z) : Z :=
  let a2 := gmul a a in let a4 := gmul a2 a2 in let a8 := gmul a4 a4 in
  let a16 := gmul a8 a8 in let a32 := gmul a16 a16 in let a64 := gmul a32 a32 in
  let a128 := gmul a64 a64 in
  gmul a128 (gmul a64 (gmul a32 (gmul a16 (gmul a8 (gmul a4 a2))))).

(** The affine map: bit [i] of the result is
    [b_i + b_(i+4) + b_(i+5) + b_(i+6) + b_(i+7) + c_i], indices mod 8. *)
Definition affine_bit (b i : Z) : bool :=
  xorb (Z.testbit b i)
    (xorb (Z.testbit b ((i + 4) mod 8))
      (xorb (Z.testbit b ((i + 5) mod 8))
        (xorb (Z.testbit b ((i + 6) mod 8))
          (xorb (Z.testbit b ((i + 7) mod 8)) (Z.testbit 0x63 i))))).
Definition sbox (a : Z) : Z :=
  let b := ginv a in
  foldr (fun i acc => acc + (if affine_bit b i then 2 ^ i else 0)) 0
        [0; 1; 2; 3; 4; 5; 6; 7].

(** ** The state *)

(** A column, also a word of the key expansion: four bytes. *)
Record word := Word { w0 : Z; w1 : Z; w2 : Z; w3 : Z }.
(** Four columns. *)
Record state := State { c0 : word; c1 : word; c2 : word; c3 : word }.

Definition xor_word (a b : word) : word :=
  Word (Z.lxor (w0 a) (w0 b)) (Z.lxor (w1 a) (w1 b))
       (Z.lxor (w2 a) (w2 b)) (Z.lxor (w3 a) (w3 b)).
Definition SubWord (a : word) : word :=
  Word (sbox (w0 a)) (sbox (w1 a)) (sbox (w2 a)) (sbox (w3 a)).
Definition RotWord (a : word) : word := Word (w1 a) (w2 a) (w3 a) (w0 a).

Definition map_state (f : word -> word) (s : state) : state :=
  State (f (c0 s)) (f (c1 s)) (f (c2 s)) (f (c3 s)).
Definition SubBytes : state -> state := map_state SubWord.
(** Row [r] rotates left by [r] columns. *)
Definition ShiftRows (s : state) : state :=
  let '(State a b c d) := s in
  State (Word (w0 a) (w1 b) (w2 c) (w3 d)) (Word (w0 b) (w1 c) (w2 d) (w3 a))
        (Word (w0 c) (w1 d) (w2 a) (w3 b)) (Word (w0 d) (w1 a) (w2 b) (w3 c)).
Definition MixColumn (a : word) : word :=
  let '(Word a0 a1 a2 a3) := a in
  let x := Z.lxor in
  Word (x (x (x (gmul 2 a0) (gmul 3 a1)) a2) a3)
       (x (x (x a0 (gmul 2 a1)) (gmul 3 a2)) a3)
       (x (x (x a0 a1) (gmul 2 a2)) (gmul 3 a3))
       (x (x (x (gmul 3 a0) a1) a2) (gmul 2 a3)).
Definition MixColumns : state -> state := map_state MixColumn.
Definition AddRoundKey (k s : state) : state :=
  State (xor_word (c0 s) (c0 k)) (xor_word (c1 s) (c1 k))
        (xor_word (c2 s) (c2 k)) (xor_word (c3 s) (c3 k)).

(** ** Key expansion *)

Definition word_zero : word := Word 0 0 0 0.
#[global] Instance word_inhabited : Inhabited word := populate word_zero.

(** [Rcon[i] = [x^(i-1), 0, 0, 0]] *)
Definition Rcon (i : nat) : word := Word (Nat.iter (i - 1) xtime 1) 0 0 0.

(** The word that follows the words [ws]. *)
Definition next_word (Nk : nat) (ws : list word) : word :=
  let i := length ws in
  let temp := ws !!! (i - 1)%nat in
  let temp :=
    if (i mod Nk =? 0)%nat then xor_word (SubWord (RotWord temp)) (Rcon (i / Nk))
    else if (6 <? Nk)%nat && (i mod Nk =? 4)%nat then SubWord temp
    else temp in
  xor_word (ws !!! (i - Nk)%nat) temp.

(** [n] more words. *)
Fixpoint extend (Nk n : nat) (ws : list word) : list word :=
  match n with
  | O => ws
  | S n => extend Nk n (ws ++ [next_word Nk ws])
  end.

Fixpoint words_of_bytes (n : nat) (bs : list Z) : list word :=
  match n with
  | O => []
  | S n => Word (bs !!! 0%nat) (bs !!! 1%nat) (bs !!! 2%nat) (bs !!! 3%nat)
           :: words_of_bytes n (drop 4 bs)
  end.

Definition KeyExpansion (Nk Nr : nat) (key : list Z) : list word :=
  extend Nk (4 * (Nr + 1) - Nk) (words_of_bytes Nk key).

(** ** The cipher *)

Definition round_key (ws : list word) (r : nat) : state :=
  State (ws !!! (4 * r)%nat) (ws !!! (4 * r + 1)%nat)
        (ws !!! (4 * r + 2)%nat) (ws !!! (4 * r + 3)%nat).

Definition cipher_round (ws : list word) (r : nat) (s : state) : state :=
  AddRoundKey (round_key ws r) (MixColumns (ShiftRows (SubBytes s))).
Definition final_round (ws : list word) (r : nat) (s : state) : state :=
  AddRoundKey (round_key ws r) (ShiftRows (SubBytes s)).

(** Rounds [r], ..., [r + n - 1]. *)
Fixpoint cipher_rounds (ws : list word) (n r : nat) (s : state) : state :=
  match n with
  | O => s
  | S n => cipher_rounds ws n (S r) (cipher_round ws r s)
  end.

Definition state_of_bytes (bs : list Z) : state :=
  round_key (words_of_bytes 4 bs) 0.
Definition bytes_of_word (a : word) : list Z := [w0 a; w1 a; w2 a; w3 a].
Definition bytes_of_state (s : state) : list Z :=
  bytes_of_word (c0 s) ++ bytes_of_word (c1 s) ++
  bytes_of_word (c2 s) ++ bytes_of_word (c3 s).

Definition Cipher (Nr : nat) (ws : list word) (input : list Z) : list Z :=
  let s := AddRoundKey (round_key ws 0) (state_of_bytes input) in
  let s := cipher_rounds ws (Nr - 1) 1 s in
  bytes_of_state (final_round ws Nr s).

(** AES with a key of [4 * Nk] bytes ([Nk] is 4, 6 or 8). *)
Definition aes_encrypt (Nk : nat) (key input : list Z) : list Z :=
  Cipher (Nk + 6) (KeyExpansion Nk (Nk + 6) key) input.

End Fips.
