(* ===== verification/AesProofs.v ===== *)
(** * AesProofs: the rounds of aes.c compute those of the standard *)
From S2P Require Import Prelude.
From S2P Require Import AesTables.
From S2P Require Import AesCore.
From S2P Require Import AesFacts.
From S2P Require Import AesSpec.

Open Scope C.

(** ** Representation of the standard's bytes by the program's words *)

Definition wf_word (a : Fips.word) : Prop :=
  fits 8 (Fips.w0 a) /\ fits 8 (Fips.w1 a) /\ fits 8 (Fips.w2 a) /\ fits 8 (Fips.w3 a).
Definition wordZ (a : Fips.word) : Z :=
  pack (Fips.w0 a) (Fips.w1 a) (Fips.w2 a) (Fips.w3 a).
Definition wf_state (s : Fips.state) : Prop :=
  wf_word (Fips.c0 s) /\ wf_word (Fips.c1 s) /\ wf_word (Fips.c2 s) /\ wf_word (Fips.c3 s).
Definition stateZ (s : Fips.state) : st4 :=
  St4 (wordZ (Fips.c0 s)) (wordZ (Fips.c1 s)) (wordZ (Fips.c2 s)) (wordZ (Fips.c3 s)).

(** A block: sixteen bytes. *)
Definition is_block (bs : list Z) : Prop := length bs = 16%nat /\ Forall (fits 8) bs.

#[export] Instance is_block_dec bs : Decision (is_block bs).
Proof. unfold is_block. apply _. Defined.

Ltac destruct_words :=
  repeat match goal with
  | a : Fips.word |- _ => destruct a
  | s : Fips.state |- _ => destruct s
  | H : wf_word _ |- _ => destruct H as (? & ? & ? & ?)
  | H : wf_state _ |- _ => destruct H as (? & ? & ? & ?)
  end; cbn [Fips.w0 Fips.w1 Fips.w2 Fips.w3 Fips.c0 Fips.c1 Fips.c2 Fips.c3] in *.

Lemma wordZ_fits a : wf_word a -> fits 32 (wordZ a).
Proof. intros (?&?&?&?). by apply pack_fits. Qed.

Lemma wordZ_xor a b : wordZ (Fips.xor_word a b) = Z.lxor (wordZ a) (wordZ b).
Proof. unfold wordZ. by rewrite lxor_pack. Qed.

Lemma wf_xor_word a b : wf_word a -> wf_word b -> wf_word (Fips.xor_word a b).
Proof. intros (?&?&?&?) (?&?&?&?). split_and!; simpl; apply fits_lxor; auto with lia. Qed.

(** ** Tables against the standard's definitions *)

Lemma FSb_sbox x : fits 8 x -> (FSb rom_tables).[x] = Fips.sbox x.
Proof. intros Hx. by_bytes x. Qed.

Lemma sbox_fits x : fits 8 x -> fits 8 (Fips.sbox x).
Proof. intros. rewrite <-FSb_sbox by done. by apply FSb_fits. Qed.

Lemma gmul_fits a x :
  (a = 2 \/ a = 3) -> fits 8 x -> fits 8 (Fips.gmul a x).
Proof.
  intros Ha Hx.
  assert (bool_decide (fits 8 (Fips.gmul a x)) = true) as H%bool_decide_eq_true; [|done].
  destruct Ha as [-> | ->]; by_bytes x.
Qed.

Lemma FT0_column x : fits 8 x ->
  (FT0 rom_tables).[x] =
  (let s := Fips.sbox x in pack (Fips.gmul 2 s) s s (Fips.gmul 3 s)).
Proof. intros Hx. by_bytes x. Qed.
Lemma FT1_column x : fits 8 x ->
  (FT1 rom_tables).[x] =
  (let s := Fips.sbox x in pack (Fips.gmul 3 s) (Fips.gmul 2 s) s s).
Proof. intros Hx. by_bytes x. Qed.
Lemma FT2_column x : fits 8 x ->
  (FT2 rom_tables).[x] =
  (let s := Fips.sbox x in pack s (Fips.gmul 3 s) (Fips.gmul 2 s) s).
Proof. intros Hx. by_bytes x. Qed.
Lemma FT3_column x : fits 8 x ->
  (FT3 rom_tables).[x] =
  (let s := Fips.sbox x in pack s s (Fips.gmul 3 s) (Fips.gmul 2 s)).
Proof. intros Hx. by_bytes x. Qed.

Lemma RCON_Rcon i : 0 <= i < 10 ->
  (RCON rom_tables).[i] = wordZ (Fips.Rcon (Z.to_nat i + 1)).
Proof.
  intros Hi.
  assert (i = 0 \/ i = 1 \/ i = 2 \/ i = 3 \/ i = 4 \/
          i = 5 \/ i = 6 \/ i = 7 \/ i = 8 \/ i = 9) as Hc by lia.
  by repeat destruct Hc as [-> | Hc]; subst.
Qed.

Lemma wf_SubWord a : wf_word a -> wf_word (Fips.SubWord a).
Proof. intros (?&?&?&?). split_and!; simpl; by apply sbox_fits. Qed.
Lemma wf_RotWord a : wf_word a -> wf_word (Fips.RotWord a).
Proof. intros (?&?&?&?). done. Qed.
Lemma xtime_fits x : fits 8 x -> fits 8 (Fips.xtime x).
Proof.
  intros Hx.
  assert (bool_decide (fits 8 (Fips.xtime x)) = true) as H%bool_decide_eq_true; [|done].
  by_bytes x.
Qed.
Lemma wf_Rcon i : wf_word (Fips.Rcon i).
Proof.
  split_and!; simpl; try (by apply fits_0).
  induction (i - 1)%nat as [|n IH]; simpl; [by unfold fits; lia|by apply xtime_fits].
Qed.

#[local] Opaque Fips.gmul Fips.sbox rom_tables.

Lemma wf_MixColumn a : wf_word a -> wf_word (Fips.MixColumn a).
Proof.
  intros. destruct_words. unfold wf_word. simpl.
  split_and!; repeat apply fits_lxor; auto using gmul_fits with lia.
Qed.

(** The state transformations keep the bytes in range. *)
Lemma wf_map_state f s :
  (forall a, wf_word a -> wf_word (f a)) -> wf_state s -> wf_state (Fips.map_state f s).
Proof. intros Hf (?&?&?&?). refine (conj _ (conj _ (conj _ _))); by apply Hf. Qed.
Lemma wf_ShiftRows s : wf_state s -> wf_state (Fips.ShiftRows s).
Proof. intros. destruct_words. by split_and!. Qed.
Lemma wf_AddRoundKey k s : wf_state k -> wf_state s -> wf_state (Fips.AddRoundKey k s).
Proof.
  intros (?&?&?&?) (?&?&?&?).
  refine (conj _ (conj _ (conj _ _))); by apply wf_xor_word.
Qed.
Create HintDb wf.
#[local] Hint Resolve wf_map_state wf_ShiftRows wf_AddRoundKey wf_SubWord wf_MixColumn : wf.

(** ** Rounds *)

(** Both [fsb_word] uses of the key schedule. *)
Lemma fsb_word_rot a acc : wf_word a ->
  fsb_word rom_tables (wordZ a) 1 2 3 0 acc =
  Z.lxor acc (wordZ (Fips.SubWord (Fips.RotWord a))).
Proof.
  intros. destruct_words. unfold fsb_word, wordZ, Fips.SubWord, Fips.RotWord.
  cbn [Fips.w0 Fips.w1 Fips.w2 Fips.w3]. autorewrite with bytes.
  rewrite !FSb_sbox by done. unfold pack. by rewrite <-!Z.lxor_assoc.
Qed.
Lemma fsb_word_sub a acc : wf_word a ->
  fsb_word rom_tables (wordZ a) 0 1 2 3 acc = Z.lxor acc (wordZ (Fips.SubWord a)).
Proof.
  intros. destruct_words. unfold fsb_word, wordZ, Fips.SubWord, Fips.RotWord.
  cbn [Fips.w0 Fips.w1 Fips.w2 Fips.w3]. autorewrite with bytes.
  rewrite !FSb_sbox by done. unfold pack. by rewrite <-!Z.lxor_assoc.
Qed.

(** One output word of [AES_FROUND]: a mixed column of S-box bytes. *)
Lemma ft_word_column k a b c d :
  wf_word a -> wf_word b -> wf_word c -> wf_word d ->
  ft_word rom_tables k (wordZ a) (wordZ b) (wordZ c) (wordZ d) =
  Z.lxor (wordZ (Fips.MixColumn (Fips.Word (Fips.sbox (Fips.w0 a)) (Fips.sbox (Fips.w1 b))
                                           (Fips.sbox (Fips.w2 c)) (Fips.sbox (Fips.w3 d))))) k.
Proof.
  intros. destruct_words. unfold ft_word, wordZ, Fips.MixColumn.
  cbn [Fips.w0 Fips.w1 Fips.w2 Fips.w3]. autorewrite with bytes.
  rewrite FT0_column, FT1_column, FT2_column, FT3_column by done. cbv zeta.
  rewrite !(Z.lxor_assoc k), (Z.lxor_comm k).
  by rewrite !lxor_pack.
Qed.

Lemma sb_word_column k a b c d :
  wf_word a -> wf_word b -> wf_word c -> wf_word d ->
  sb_word (FSb rom_tables) k (wordZ a) (wordZ b) (wordZ c) (wordZ d) =
  Z.lxor (wordZ (Fips.Word (Fips.sbox (Fips.w0 a)) (Fips.sbox (Fips.w1 b))
                           (Fips.sbox (Fips.w2 c)) (Fips.sbox (Fips.w3 d)))) k.
Proof.
  intros. destruct_words. unfold sb_word, wordZ.
  cbn [Fips.w0 Fips.w1 Fips.w2 Fips.w3]. autorewrite with bytes.
  rewrite !FSb_sbox by done. unfold pack.
  by rewrite !(Z.lxor_assoc k), (Z.lxor_comm k).
Qed.

Section Rounds.
(** [b] holds, from offset 0, the words of the expanded key [ws]. *)
Context (b : list Z) (ws : list Fips.word) (n : nat).
Context (Hb : forall i, (i < n)%nat -> b.[Z.of_nat i] = wordZ (ws !!! i)).
Context (Hws : forall i, (i < n)%nat -> wf_word (ws !!! i)).

Lemma wf_round_key r : (4 * r + 4 <= n)%nat -> wf_state (Fips.round_key ws r).
Proof. intros. refine (conj _ (conj _ (conj _ _))); apply Hws; lia. Qed.

Lemma wf_cipher_round r s :
  (4 * r + 4 <= n)%nat -> wf_state s -> wf_state (Fips.cipher_round ws r s).
Proof.
  intros Hr Hs. unfold Fips.cipher_round, Fips.MixColumns, Fips.SubBytes.
  auto 8 using wf_round_key with wf.
Qed.

Lemma key_word r j : (4 * r + j < n)%nat ->
  b.[Z.of_nat (4 * r) + Z.of_nat j] = wordZ (ws !!! (4 * r + j)%nat).
Proof. intros. rewrite <-Hb by lia. do 2 f_equal. lia. Qed.

Lemma AES_FROUND_spec r s :
  (4 * r + 4 <= n)%nat -> wf_state s ->
  AES_FROUND rom_tables b (Z.of_nat (4 * r)) (stateZ s) = stateZ (Fips.cipher_round ws r s).
Proof.
  intros Hr Hs. destruct s as [a b' c d]. destruct Hs as (Ha & Hb' & Hc & Hd).
  unfold stateZ, AES_FROUND, final_fround. cbn [Fips.c0 Fips.c1 Fips.c2 Fips.c3] in *.
  pose proof (key_word r 0) as K0. pose proof (key_word r 1) as K1.
  pose proof (key_word r 2) as K2. pose proof (key_word r 3) as K3.
  rewrite Z.add_0_r, Nat.add_0_r in K0.
  change (Z.of_nat 1) with 1 in K1. change (Z.of_nat 2) with 2 in K2.
  change (Z.of_nat 3) with 3 in K3.
  rewrite !ft_word_column, K0, K1, K2, K3, <-!wordZ_xor by (done || lia). done.
Qed.

Lemma final_fround_spec r s :
  (4 * r + 4 <= n)%nat -> wf_state s ->
  final_fround rom_tables b (Z.of_nat (4 * r)) (stateZ s) = stateZ (Fips.final_round ws r s).
Proof.
  intros Hr Hs. destruct s as [a b' c d]. destruct Hs as (Ha & Hb' & Hc & Hd).
  unfold stateZ, AES_FROUND, final_fround. cbn [Fips.c0 Fips.c1 Fips.c2 Fips.c3] in *.
  pose proof (key_word r 0) as K0. pose proof (key_word r 1) as K1.
  pose proof (key_word r 2) as K2. pose proof (key_word r 3) as K3.
  rewrite Z.add_0_r, Nat.add_0_r in K0.
  change (Z.of_nat 1) with 1 in K1. change (Z.of_nat 2) with 2 in K2.
  change (Z.of_nat 3) with 3 in K3.
  rewrite !sb_word_column, K0, K1, K2, K3, <-!wordZ_xor by (done || lia). done.
Qed.

(** [k] turns of the loop are [2 * k] rounds. *)
Lemma round_loop_spec k : forall r s,
  (4 * (r + 2 * k) <= n)%nat -> wf_state s ->
  round_loop (AES_FROUND rom_tables b) k (Z.of_nat (4 * r)) (stateZ s) =
    (Z.of_nat (4 * (r + 2 * k)), stateZ (Fips.cipher_rounds ws (2 * k) r s)) /\
  wf_state (Fips.cipher_rounds ws (2 * k) r s).
Proof.
  induction k as [|k IH]; intros r s Hn Hs; cbn [round_loop].
  - rewrite Nat.mul_0_r, Nat.add_0_r. done.
  - replace (2 * S k)%nat with (S (S (2 * k))) by lia.
    cbn [Fips.cipher_rounds].
    rewrite AES_FROUND_spec by (done || lia).
    replace (Z.of_nat (4 * r) + 4) with (Z.of_nat (4 * S r)) by lia.
    rewrite AES_FROUND_spec by (try apply wf_cipher_round; done || lia).
    replace (Z.of_nat (4 * r) + 8) with (Z.of_nat (4 * S (S r))) by lia.
    destruct (IH (S (S r)) (Fips.cipher_round ws (S r) (Fips.cipher_round ws r s)))
      as [IH1 IH2]; [lia|repeat apply wf_cipher_round; done || lia|].
    rewrite IH1. split; [|done]. f_equal. lia.
Qed.
End Rounds.

(** ** Loading and storing *)

Lemma lor_pack b0 b1 b2 b3 :
  fits 8 b0 -> fits 8 b1 -> fits 8 b2 -> fits 8 b3 ->
  Z.lor (Z.lor (Z.lor b0 (shl32 b1 8)) (shl32 b2 16)) (shl32 b3 24) = pack b0 b1 b2 b3.
Proof.
  intros H0 H1 H2 H3. apply Z.bits_inj'; intros i Hi. rewrite pack_spec by done.
  autorewrite with bits.
  repeat match goal with |- context [?a <? ?b] => destruct (Z.ltb_spec a b); try lia end;
  repeat match goal with
    | H : fits 8 ?b |- context [Z.testbit ?b ?j] =>
        first [rewrite (Z.testbit_neg_r b j) by lia
              |rewrite (testbit_above 8 b j H) by lia]
    end; simpl; btauto.
Qed.

Lemma PUT_bytes w : PUT_UINT32_LE w = [B 0 w; B 1 w; B 2 w; B 3 w].
Proof. reflexivity. Qed.

Lemma PUT_wordZ a : wf_word a -> PUT_UINT32_LE (wordZ a) = Fips.bytes_of_word a.
Proof.
  intros. destruct_words. rewrite PUT_bytes. unfold wordZ, Fips.bytes_of_word.
  cbn [Fips.w0 Fips.w1 Fips.w2 Fips.w3]. by autorewrite with bytes.
Qed.

Lemma store_block_spec s : wf_state s -> store_block (stateZ s) = Fips.bytes_of_state s.
Proof.
  intros (?&?&?&?). unfold store_block, stateZ, Fips.bytes_of_state.
  by rewrite !PUT_wordZ by done.
Qed.

(** The word the standard reads at byte [4 * i]. *)
Definition word_at (bs : list Z) (i : nat) : Fips.word :=
  Fips.Word (bs !!! (4 * i)%nat) (bs !!! (4 * i + 1)%nat)
            (bs !!! (4 * i + 2)%nat) (bs !!! (4 * i + 3)%nat).

Lemma wf_word_at bs i : Forall (fits 8) bs -> wf_word (word_at bs i).
Proof. intros. refine (conj _ (conj _ (conj _ _))); by apply byte_lookup. Qed.

Lemma GET_word_at bs i :
  Forall (fits 8) bs -> GET_UINT32_LE bs (Z.of_nat (4 * i)) = wordZ (word_at bs i).
Proof.
  intros Hbs. unfold GET_UINT32_LE. rewrite lor_pack by (by apply byte_lookup).
  unfold wordZ, word_at. cbn [Fips.w0 Fips.w1 Fips.w2 Fips.w3].
  f_equal; f_equal; lia.
Qed.

Lemma words_of_bytes_lookup n : forall bs i,
  (i < n)%nat -> Fips.words_of_bytes n bs !!! i = word_at bs i.
Proof.
  induction n as [|n IH]; intros bs i Hi; [lia|].
  destruct i as [|i]; [done|]. cbn [Fips.words_of_bytes].
  change ((?x :: ?l) !!! S i) with (l !!! i). rewrite IH by lia. unfold word_at.
  rewrite !list_lookup_total_alt, !lookup_drop. do 2 f_equal; f_equal; lia.
Qed.

Lemma length_words_of_bytes n bs : length (Fips.words_of_bytes n bs) = n.
Proof. revert bs. induction n; intros; simpl; auto. Qed.

Lemma load_block_spec b ws n input :
  (forall i, (i < n)%nat -> b.[Z.of_nat i] = wordZ (ws !!! i)) -> (4 <= n)%nat ->
  Forall (fits 8) input ->
  load_block b input =
    stateZ (Fips.AddRoundKey (Fips.round_key ws 0) (Fips.state_of_bytes input)).
Proof.
  intros Hb Hn Hin. unfold load_block, stateZ, Fips.AddRoundKey, Fips.state_of_bytes.
  cbn [Fips.c0 Fips.c1 Fips.c2 Fips.c3 Fips.round_key].
  rewrite !wordZ_xor, !words_of_bytes_lookup by lia.
  pose proof (GET_word_at input 0 Hin) as G0. pose proof (GET_word_at input 1 Hin) as G1.
  pose proof (GET_word_at input 2 Hin) as G2. pose proof (GET_word_at input 3 Hin) as G3.
  pose proof (Hb 0%nat) as B0. pose proof (Hb 1%nat) as B1.
  pose proof (Hb 2%nat) as B2. pose proof (Hb 3%nat) as B3.
  change (Z.of_nat (4 * 0)) with 0 in G0. change (Z.of_nat (4 * 1)) with 4 in G1.
  change (Z.of_nat (4 * 2)) with 8 in G2. change (Z.of_nat (4 * 3)) with 12 in G3.
  change (Z.of_nat 0) with 0 in B0. change (Z.of_nat 1) with 1 in B1.
  change (Z.of_nat 2) with 2 in B2. change (Z.of_nat 3) with 3 in B3.
  rewrite G0, G1, G2, G3, B0, B1, B2, B3 by lia.
  done.
Qed.

Lemma wf_state_of_bytes input : Forall (fits 8) input -> wf_state (Fips.state_of_bytes input).
Proof.
  intros. unfold Fips.state_of_bytes, Fips.round_key.
  rewrite !words_of_bytes_lookup by lia.
  refine (conj _ (conj _ (conj _ _))); by apply wf_word_at.
Qed.
