(* ===== verification/AesKeys.v ===== *)
(** * AesKeys: the key schedules of aes.c compute the standard's expansion *)
From S2P Require Import Prelude.
From S2P Require Import AesTables.
From S2P Require Import AesCore.
From S2P Require Import AesFacts.
From S2P Require Import AesSpec.
From S2P Require Import AesProofs.

Open Scope C.

#[local] Opaque Fips.gmul Fips.sbox rom_tables Fips.Rcon.

(** ** The standard's word sequence *)

Lemma length_extend Nk n : forall ws,
  length (Fips.extend Nk n ws) = (length ws + n)%nat.
Proof.
  induction n as [|n IH]; intros ws; cbn [Fips.extend]; [lia|].
  rewrite IH, length_app. simpl. lia.
Qed.

Lemma extend_prefix Nk n : forall ws i,
  (i < length ws)%nat -> Fips.extend Nk n ws !!! i = ws !!! i.
Proof.
  induction n as [|n IH]; intros ws i Hi; cbn [Fips.extend]; [done|].
  rewrite IH by (rewrite length_app; lia). by apply lookup_total_app_l.
Qed.

Lemma extend_add Nk m n : forall ws,
  Fips.extend Nk (m + n) ws = Fips.extend Nk n (Fips.extend Nk m ws).
Proof. induction m as [|m IH]; intros ws; [done|]. cbn [Fips.extend Nat.add]. apply IH. Qed.

(** Each new word is [next_word] of the words before it. *)
Lemma extend_next Nk n ws i :
  (length ws <= i < length ws + n)%nat ->
  Fips.extend Nk n ws !!! i = Fips.next_word Nk (take i (Fips.extend Nk n ws)).
Proof.
  intros Hi. replace n with ((i - length ws) + S (n - (i - length ws) - 1))%nat by lia.
  rewrite extend_add. set (ws' := Fips.extend Nk (i - length ws) ws).
  assert (length ws' = i) as Hl by (unfold ws'; rewrite length_extend; lia).
  set (k := (n - (i - length ws) - 1)%nat). cbn [Fips.extend].
  rewrite extend_prefix by (rewrite length_app; simpl; lia).
  rewrite lookup_total_app_r by lia. rewrite Hl, Nat.sub_diag. simpl. f_equal.
  apply list_eq. intros j. destruct (decide (j < i)%nat).
  - rewrite lookup_take_lt by done.
    rewrite !list_lookup_lookup_total_lt; rewrite ?length_extend, ?length_app; try lia.
    rewrite extend_prefix by (rewrite length_app; lia).
    by rewrite lookup_total_app_l by lia.
  - rewrite lookup_take_ge by lia. apply lookup_ge_None. lia.
Qed.

(** The last of a run of rounds. *)
Lemma cipher_rounds_snoc ws n : forall r s,
  Fips.cipher_rounds ws (S n) r s =
  Fips.cipher_round ws (r + n) (Fips.cipher_rounds ws n r s).
Proof.
  induction n as [|n IH]; intros r s; [rewrite Nat.add_0_r; reflexivity|].
  change (Fips.cipher_rounds ws (S (S n)) r s)
    with (Fips.cipher_rounds ws (S n) (S r) (Fips.cipher_round ws r s)).
  rewrite IH. replace (S r + n)%nat with (r + S n)%nat by lia. reflexivity.
Qed.

Section Schedule.
(** [W] is the expansion of a key of [Nk] words, long enough for the
    words the program computes. *)
Context (Nk M : nat) (key : list Z) (HNk : (4 <= Nk)%nat).
Context (Hkey : Forall (fits 8) key).
Local Abbreviation W := (Fips.extend Nk M (Fips.words_of_bytes Nk key)).

Lemma W_lookup i :
  (Nk <= i < Nk + M)%nat -> W !!! i = Fips.next_word Nk (take i W).
Proof. intros. apply extend_next. by rewrite length_words_of_bytes. Qed.

Lemma W_next i :
  (Nk <= i < Nk + M)%nat ->
  W !!! i = Fips.xor_word (W !!! (i - Nk)%nat)
    (if (i mod Nk =? 0)%nat
     then Fips.xor_word (Fips.SubWord (Fips.RotWord (W !!! (i - 1)%nat))) (Fips.Rcon (i / Nk))
     else if (6 <? Nk)%nat && (i mod Nk =? 4)%nat then Fips.SubWord (W !!! (i - 1)%nat)
     else W !!! (i - 1)%nat).
Proof.
  intros Hi. rewrite W_lookup by done. unfold Fips.next_word.
  rewrite length_take, length_extend, length_words_of_bytes.
  replace (i `min` (Nk + M))%nat with i by lia.
  by rewrite !lookup_total_take_lt by lia.
Qed.

Lemma W_rot i : (Nk * i + Nk < Nk + M)%nat ->
  W !!! (Nk * i + Nk)%nat = Fips.xor_word (W !!! (Nk * i)%nat)
    (Fips.xor_word (Fips.SubWord (Fips.RotWord (W !!! (Nk * i + (Nk - 1))%nat)))
                   (Fips.Rcon (i + 1))).
Proof.
  intros Hi. rewrite W_next by lia.
  replace (Nk * i + Nk)%nat with ((i + 1) * Nk)%nat by lia.
  rewrite Nat.Div0.mod_mul, Nat.div_mul by lia. simpl.
  do 2 f_equal; [f_equal; lia|]. do 4 f_equal. lia.
Qed.

Lemma mod_offset i j : (j < Nk)%nat -> ((Nk * i + (Nk + j)) mod Nk = j)%nat.
Proof.
  intros. replace (Nk * i + (Nk + j))%nat with (j + (i + 1) * Nk)%nat by lia.
  rewrite Nat.Div0.mod_add by lia. by apply Nat.mod_small.
Qed.

Lemma W_plain i j : (0 < j < Nk)%nat -> (Nk <= 6 \/ j <> 4)%nat ->
  (Nk * i + (Nk + j) < Nk + M)%nat ->
  W !!! (Nk * i + (Nk + j))%nat =
    Fips.xor_word (W !!! (Nk * i + j)%nat) (W !!! (Nk * i + (Nk + j - 1))%nat).
Proof.
  intros Hj Hs Hi. rewrite W_next, mod_offset by lia.
  replace (j =? 0)%nat with false by (symmetry; apply Nat.eqb_neq; lia).
  replace ((6 <? Nk)%nat && (j =? 4)%nat) with false.
  - f_equal; f_equal; lia.
  - symmetry. apply andb_false_iff. rewrite Nat.ltb_ge, Nat.eqb_neq. lia.
Qed.

Lemma W_plain_words i j m a b : (0 < j < Nk)%nat -> (Nk <= 6 \/ j <> 4)%nat ->
  (Nk * i + (Nk + j) < Nk + M)%nat -> (m = Nk * i + (Nk + j))%nat ->
  (a = Nk * i + j)%nat -> (b = Nk * i + (Nk + j - 1))%nat ->
  Z.lxor (wordZ (W !!! a)) (wordZ (W !!! b)) = wordZ (W !!! m).
Proof. clear Hkey. intros ? ? ? -> -> ->. by rewrite W_plain, wordZ_xor by done. Qed.

Lemma W_sub i : (6 < Nk)%nat -> (Nk * i + (Nk + 4) < Nk + M)%nat ->
  W !!! (Nk * i + (Nk + 4))%nat =
    Fips.xor_word (W !!! (Nk * i + 4)%nat) (Fips.SubWord (W !!! (Nk * i + (Nk + 3))%nat)).
Proof.
  intros Hs Hi. rewrite W_next, mod_offset by lia. simpl.
  replace (6 <? Nk)%nat with true by (symmetry; by apply Nat.ltb_lt). simpl.
  f_equal; [f_equal; lia|]. do 2 f_equal. lia.
Qed.

Lemma W_key i : (i < Nk)%nat -> W !!! i = word_at key i.
Proof.
  intros. rewrite extend_prefix by (rewrite length_words_of_bytes; lia).
  by apply words_of_bytes_lookup.
Qed.

Lemma wf_W i : (i < Nk + M)%nat -> wf_word (W !!! i).
Proof.
  induction (lt_wf i) as [i _ IH]. intros Hi. destruct (decide (i < Nk)%nat).
  - rewrite W_key by done. by apply wf_word_at.
  - rewrite W_next by lia. apply wf_xor_word; [apply IH; lia|].
    destruct (i mod Nk =? 0)%nat.
    + apply wf_xor_word; [apply wf_SubWord, wf_RotWord, IH; lia|apply wf_Rcon].
    + destruct ((6 <? Nk)%nat && (i mod Nk =? 4)%nat).
      * apply wf_SubWord, IH; lia.
      * apply IH; lia.
Qed.

(** The first [n] words of the buffer are the first [n] words of [W]. *)
Definition agrees (b : list Z) (n : nat) : Prop :=
  length b = 68%nat /\ forall i, (i < n)%nat -> b.[Z.of_nat i] = wordZ (W !!! i).

Lemma agrees_read b n a k : agrees b n -> 0 <= k -> (a + Z.to_nat k < n)%nat ->
  b.[Z.of_nat a + k] = wordZ (W !!! (a + Z.to_nat k)%nat).
Proof. clear HNk Hkey. intros [_ H] Hk Hn. rewrite <-H by done. do 2 f_equal. lia. Qed.

Lemma agrees_read0 b n a : agrees b n -> (a < n)%nat -> b.[Z.of_nat a] = wordZ (W !!! a).
Proof. clear HNk Hkey. intros [_ H] Hn. by apply H. Qed.

Lemma agrees_write b n a v : agrees b n -> (n < 68)%nat -> a = Z.of_nat n ->
  v = wordZ (W !!! n) -> agrees (b.[a := v]) (S n).
Proof.
  clear HNk Hkey. intros [Hl H] Hn -> ->. split; [by rewrite length_insert|].
  intros i Hi. rewrite !Nat2Z.id. destruct (decide (i = n)) as [->|].
  - by rewrite list_lookup_total_insert_eq by lia.
  - rewrite list_lookup_total_insert_ne by done. rewrite <-H by lia. by rewrite Nat2Z.id.
Qed.

Lemma load_key_agrees n : forall i b,
  agrees b i -> (i + n <= Nk)%nat -> (Nk <= 8)%nat ->
  agrees (load_key n (Z.of_nat i) key b) (i + n).
Proof.
  induction n as [|n IH]; intros i b Hb Hn HNk8; cbn [load_key].
  - by rewrite Nat.add_0_r.
  - replace (i + S n)%nat with (S i + n)%nat by lia.
    replace (Z.of_nat i + 1) with (Z.of_nat (S i)) by lia.
    apply IH; [|lia..]. apply agrees_write; [done|lia|done|].
    rewrite W_key by lia. rewrite <-GET_word_at by done. f_equal.
    rewrite Z.shiftl_mul_pow2 by lia. lia.
Qed.
End Schedule.

(** ** The loops of [mbedtls_aes_setkey_enc] *)

(** [ks_write Hag]: the next store [let b := b.[...] in] of a schedule step
    extends the agreement [Hag] by one word; the equation of the stored value
    with the standard's word is left to prove. *)
Ltac ks_write Hag :=
  lazymatch goal with
  | |- agrees ?Nk ?M ?key (let b := ?e in @?k b) ?m =>
      let Hag' := fresh "Hag" in
      lazymatch type of Hag with
      | agrees _ _ _ _ ?n => assert (agrees Nk M key e (S n)) as Hag'
      end;
      [apply agrees_write; [exact Hag|lia|lia|]
      |change (agrees Nk M key (k e) m); generalize dependent e; intros ? Hag'; cbv beta; clear Hag; rename Hag' into Hag]
  end.

(** Reads of earlier words, at constant offsets from [RK]. *)
Ltac ks_read Hag :=
  repeat rewrite (agrees_read _ _ _ _ _ _ _ Hag) by lia.

(** The [j]-th store of a step, the previous word xored with the one a key
    length back. *)
Ltac ks_plain Hag ii jj :=
  ks_read Hag; apply W_plain_words with (i := ii) (j := jj); lia || done.

Section Steps.
Context (key : list Z) (Hkey : Forall (fits 8) key).

Lemma setkey_step_10_agrees i b M :
  (i < 10)%nat -> (4 * i + 8 <= 4 + M)%nat -> agrees 4 M key b (4 * i + 4) ->
  agrees 4 M key (setkey_step_10 rom_tables (Z.of_nat i) (Z.of_nat (4 * i)) b) (4 * i + 8).
Proof.
  intros Hi HM Hag. cbv beta delta [setkey_step_10].
  ks_write Hag.
  { rewrite W_rot by lia. rewrite (agrees_read0 _ _ _ _ _ _ Hag) by lia.
    ks_read Hag. rewrite fsb_word_rot by (apply wf_W; done || lia).
    by rewrite RCON_Rcon, Nat2Z.id, !wordZ_xor, Z.lxor_assoc,
      (Z.lxor_comm (wordZ (Fips.Rcon _))) by lia. }
  ks_write Hag; [ks_plain Hag i 1%nat|].
  ks_write Hag; [ks_plain Hag i 2%nat|].
  replace (4 * i + 8)%nat with (S (S (S (S (4 * i + 4))))) by lia.
  apply agrees_write; [done|lia..|]. ks_plain Hag i 3%nat.
Qed.

Lemma setkey_step_12_agrees i b M :
  (i < 8)%nat -> (6 * i + 12 <= 6 + M)%nat -> agrees 6 M key b (6 * i + 6) ->
  agrees 6 M key (setkey_step_12 rom_tables (Z.of_nat i) (Z.of_nat (6 * i)) b) (6 * i + 12).
Proof.
  intros Hi HM Hag. cbv beta delta [setkey_step_12].
  ks_write Hag.
  { rewrite W_rot by lia. rewrite (agrees_read0 _ _ _ _ _ _ Hag) by lia.
    ks_read Hag. rewrite fsb_word_rot by (apply wf_W; done || lia).
    by rewrite RCON_Rcon, Nat2Z.id, !wordZ_xor, Z.lxor_assoc,
      (Z.lxor_comm (wordZ (Fips.Rcon _))) by lia. }
  ks_write Hag; [ks_plain Hag i 1%nat|].
  ks_write Hag; [ks_plain Hag i 2%nat|].
  ks_write Hag; [ks_plain Hag i 3%nat|].
  ks_write Hag; [ks_plain Hag i 4%nat|].
  replace (6 * i + 12)%nat with (S (S (S (S (S (S (6 * i + 6))))))) by lia.
  apply agrees_write; [done|lia..|]. ks_plain Hag i 5%nat.
Qed.

Lemma setkey_step_14_agrees i b M :
  (i < 7)%nat -> (8 * i + 16 <= 8 + M)%nat -> agrees 8 M key b (8 * i + 8) ->
  agrees 8 M key (setkey_step_14 rom_tables (Z.of_nat i) (Z.of_nat (8 * i)) b) (8 * i + 16).
Proof.
  intros Hi HM Hag. cbv beta delta [setkey_step_14].
  ks_write Hag.
  { rewrite W_rot by lia. rewrite (agrees_read0 _ _ _ _ _ _ Hag) by lia.
    ks_read Hag. rewrite fsb_word_rot by (apply wf_W; done || lia).
    by rewrite RCON_Rcon, Nat2Z.id, !wordZ_xor, Z.lxor_assoc,
      (Z.lxor_comm (wordZ (Fips.Rcon _))) by lia. }
  ks_write Hag; [ks_plain Hag i 1%nat|].
  ks_write Hag; [ks_plain Hag i 2%nat|].
  ks_write Hag; [ks_plain Hag i 3%nat|].
  ks_write Hag.
  { ks_read Hag. rewrite fsb_word_sub by (apply wf_W; done || lia).
    replace (S (S (S (S (8 * i + 8))))) with (8 * i + (8 + 4))%nat by lia.
    by rewrite W_sub, wordZ_xor by lia. }
  ks_write Hag; [ks_plain Hag i 5%nat|].
  ks_write Hag; [ks_plain Hag i 6%nat|].
  replace (8 * i + 16)%nat
    with (S (S (S (S (S (S (S (S (8 * i + 8))))))))) by lia.
  apply agrees_write; [done|lia..|]. ks_plain Hag i 7%nat.
Qed.
End Steps.

(** ** The whole schedule *)

(** An invariant of the loop body is established by the loop. *)
Lemma setkey_loop_ind (P : nat -> list Z -> Prop) step stride N :
  (forall i b, (i < N)%nat -> P i b ->
     P (S i) (step (Z.of_nat i) (Z.of_nat (stride * i)) b)) ->
  forall n i b, (i + n <= N)%nat -> P i b ->
  P (i + n)%nat
    (setkey_loop step (Z.of_nat stride) n (Z.of_nat i) (Z.of_nat (stride * i)) b).
Proof.
  intros Hstep. induction n as [|n IH]; intros i b Hn Hb; cbn [setkey_loop].
  - by rewrite Nat.add_0_r.
  - replace (Z.of_nat i + 1) with (Z.of_nat (S i)) by lia.
    replace (Z.of_nat (stride * i) + Z.of_nat stride) with (Z.of_nat (stride * S i)) by lia.
    replace (i + S n)%nat with (S i + n)%nat by lia.
    apply IH; [lia|]. apply Hstep; [lia|done].
Qed.

(** A buffer that holds a key of [Nk] words, as the caller passes it. *)
Definition is_key (Nk : nat) (key : list Z) : Prop :=
  (4 * Nk <= length key)%nat /\ Forall (fits 8) key.

#[export] Instance is_key_dec Nk key : Decision (is_key Nk key).
Proof. unfold is_key. apply _. Defined.

(** Key sizes the program accepts, in words. *)
Definition valid_Nk (Nk : nat) : Prop := Nk = 4%nat \/ Nk = 6%nat \/ Nk = 8%nat.

#[export] Instance valid_Nk_dec Nk : Decision (valid_Nk Nk).
Proof. unfold valid_Nk. apply _. Defined.

(** Words the loops compute beyond the key: 4 * 10, 6 * 8 and 8 * 7. *)
Definition extra_words (Nk : nat) : nat :=
  if (Nk =? 4)%nat then 40%nat else if (Nk =? 6)%nat then 48%nat else 56%nat.

Lemma expand_key_agrees Nk key b :
  valid_Nk Nk -> Forall (fits 8) key ->
  agrees Nk (extra_words Nk) key b Nk ->
  agrees Nk (extra_words Nk) key
    (expand_key rom_tables (Z.of_nat (Nk + 6)) b) (Nk + extra_words Nk).
Proof.
  intros HNk Hkey Hb.
  destruct HNk as [-> | [-> | ->]]; unfold expand_key; cbn [extra_words Nat.eqb Nat.add] in *.
  - change (Z.of_nat 10 =? 10) with true. cbn [negb].
    apply (setkey_loop_ind (fun i b => agrees 4 40 key b (4 * i + 4)) _ 4 10) with (i := 0%nat);
      [|lia|done].
    intros i b' Hi Hag. replace (4 * S i + 4)%nat with (4 * i + 8)%nat by lia.
    apply setkey_step_10_agrees; done || lia.
  - change (Z.of_nat 12 =? 10) with false. change (Z.of_nat 12 =? 12) with true. cbv iota.
    apply (setkey_loop_ind (fun i b => agrees 6 48 key b (6 * i + 6)) _ 6 8) with (i := 0%nat);
      [|lia|done].
    intros i b' Hi Hag. replace (6 * S i + 6)%nat with (6 * i + 12)%nat by lia.
    apply setkey_step_12_agrees; done || lia.
  - change (Z.of_nat 14 =? 10) with false. change (Z.of_nat 14 =? 12) with false.
    change (Z.of_nat 14 =? 14) with true. cbv iota.
    apply (setkey_loop_ind (fun i b => agrees 8 56 key b (8 * i + 8)) _ 8 7) with (i := 0%nat);
      [|lia|done].
    intros i b' Hi Hag. replace (8 * S i + 8)%nat with (8 * i + 16)%nat by lia.
    apply setkey_step_14_agrees; done || lia.
Qed.

(** The static state between calls: untouched, or holding the tables. *)
Definition static_ok (s : aes_static) : Prop :=
  if aes_init_done s then st_tables s = rom_tables else st_tables s = zero_tables.

Lemma ensure_tables_ok s : static_ok s ->
  aes_ensure_tables s = AesStatic rom_tables true.
Proof.
  destruct s as [t []]; unfold static_ok, aes_ensure_tables; cbn [aes_init_done st_tables];
    intros ->; [done|]. by rewrite gen_tables_rom.
Qed.

(** A context whose buffer has its 68 words. *)
Definition ctx_ok (c : aes_context) : Prop := length (buf c) = 68%nat.

Lemma setkey_enc_agrees Nk s ctx key :
  valid_Nk Nk -> static_ok s -> ctx_ok ctx -> is_key Nk key ->
  exists b, mbedtls_aes_setkey_enc s ctx key (32 * Z.of_nat Nk) =
              (0, AesStatic rom_tables true, AesContext (Z.of_nat (Nk + 6)) b) /\
            agrees Nk (extra_words Nk) key b (Nk + extra_words Nk).
Proof.
  intros HNk Hs Hc [Hl Hkey]. unfold mbedtls_aes_setkey_enc.
  rewrite ensure_tables_ok by done. cbn [st_tables].
  eexists. split.
  - assert (rounds_of_keybits (32 * Z.of_nat Nk) = Some (Z.of_nat (Nk + 6))) as ->
      by (destruct HNk as [-> | [-> | ->]]; reflexivity).
    reflexivity.
  - apply expand_key_agrees; [done..|].
    assert (Z.to_nat (Z.shiftr (32 * Z.of_nat Nk) 5) = Nk) as ->
      by (destruct HNk as [-> | [-> | ->]]; reflexivity).
    apply (load_key_agrees Nk (extra_words Nk) key) with (n := Nk) (i := 0%nat) (b := buf ctx);
      try done; destruct HNk as [-> | [-> | ->]]; try lia; split; done || lia.
Qed.

(** The words that matter are those of the standard's key expansion. *)
Lemma KeyExpansion_prefix Nk key i : valid_Nk Nk -> (i < 4 * (Nk + 7))%nat ->
  Fips.extend Nk (extra_words Nk) (Fips.words_of_bytes Nk key) !!! i =
  Fips.KeyExpansion Nk (Nk + 6) key !!! i.
Proof.
  intros HNk Hi. unfold Fips.KeyExpansion.
  replace (extra_words Nk) with
    ((4 * (Nk + 6 + 1) - Nk) + (extra_words Nk - (4 * (Nk + 6 + 1) - Nk)))%nat
    by (destruct HNk as [-> | [-> | ->]]; reflexivity).
  rewrite extend_add. apply extend_prefix.
  rewrite length_extend, length_words_of_bytes.
  destruct HNk as [-> | [-> | ->]]; simpl in *; lia.
Qed.

(** A context set up for encryption with [key]: the round count and the
    round-key words of the standard. *)
Record enc_ctx (Nk : nat) (key : list Z) (c : aes_context) : Prop := EncCtx {
  enc_nr : nr c = Z.of_nat (Nk + 6);
  enc_len : ctx_ok c;
  enc_words : forall i, (i < 4 * (Nk + 7))%nat ->
    (buf c).[Z.of_nat i] = wordZ (Fips.KeyExpansion Nk (Nk + 6) key !!! i)
}.

Lemma wf_KeyExpansion Nk key i : valid_Nk Nk -> Forall (fits 8) key ->
  (i < 4 * (Nk + 7))%nat -> wf_word (Fips.KeyExpansion Nk (Nk + 6) key !!! i).
Proof.
  intros HNk Hkey Hi. rewrite <-KeyExpansion_prefix by done.
  apply wf_W; [idtac|done|]; destruct HNk as [-> | [-> | ->]]; cbn [extra_words Nat.eqb]; lia.
Qed.

Lemma setkey_enc_ctx Nk s ctx key :
  valid_Nk Nk -> static_ok s -> ctx_ok ctx -> is_key Nk key ->
  exists c, mbedtls_aes_setkey_enc s ctx key (32 * Z.of_nat Nk) =
              (0, AesStatic rom_tables true, c) /\ enc_ctx Nk key c.
Proof.
  intros HNk Hs Hc Hk.
  destruct (setkey_enc_agrees Nk s ctx key) as (b & -> & Hl & Hb); [assumption..|].
  eexists. split; [reflexivity|]. constructor; [reflexivity|exact Hl|].
  intros i Hi. cbn [buf]. rewrite Hb; [by rewrite KeyExpansion_prefix|].
  destruct HNk as [-> | [-> | ->]]; cbn [extra_words Nat.eqb]; lia.
Qed.

(** ** Encryption refines the standard *)

Lemma internal_encrypt_refines Nk key c input :
  valid_Nk Nk -> Forall (fits 8) key -> enc_ctx Nk key c -> is_block input ->
  mbedtls_internal_aes_encrypt rom_tables c input = Fips.aes_encrypt Nk key input.
Proof.
  intros HNk Hkey [Hnr Hl Hw] [Hi Hin].
  unfold mbedtls_internal_aes_encrypt, Fips.aes_encrypt, Fips.Cipher.
  set (ws := Fips.KeyExpansion Nk (Nk + 6) key) in *.
  assert (Hwf : forall i, (i < 4 * (Nk + 7))%nat -> wf_word (ws !!! i))
    by (intros; by apply wf_KeyExpansion).
  rewrite (load_block_spec _ ws _ _ Hw) by (done || lia).
  set (s0 := Fips.AddRoundKey _ _).
  assert (wf_state s0) as Hs0.
  { apply wf_AddRoundKey; [|by apply wf_state_of_bytes].
    apply (wf_round_key _ _ Hwf). lia. }
  assert (exists k, Nk = (2 * k)%nat /\ (2 <= k)%nat) as (k & Hk & Hk2)
    by (destruct HNk as [-> | [-> | ->]]; [exists 2%nat|exists 3%nat|exists 4%nat]; lia).
  replace (Z.to_nat (Z.shiftr (nr c) 1 - 1)) with (k + 2)%nat
    by (rewrite Hnr, Z.shiftr_div_pow2, Hk by lia;
        change (2 ^ 1) with 2; replace (Z.of_nat (2 * k + 6)) with ((Z.of_nat k + 3) * 2) by lia;
        rewrite Z.div_mul by lia; lia).
  change 4 with (Z.of_nat (4 * 1)) at 1.
  destruct (round_loop_spec (buf c) ws _ Hw Hwf (k + 2) 1 s0) as [-> Hs1]; [lia|done|].
  rewrite (AES_FROUND_spec (buf c) ws _ Hw) by (done || lia).
  replace (Z.of_nat (4 * (1 + 2 * (k + 2))) + 4) with (Z.of_nat (4 * (Nk + 6))) by lia.
  assert (Hs2 := wf_cipher_round ws _ Hwf (1 + 2 * (k + 2)) _ ltac:(lia) Hs1).
  rewrite (final_fround_spec (buf c) ws _ Hw) by (done || lia).
  replace (Nk + 6 - 1)%nat with (S (2 * (k + 2))) by lia.
  rewrite cipher_rounds_snoc. apply store_block_spec.
  unfold Fips.final_round. apply wf_AddRoundKey; [apply (wf_round_key _ _ Hwf); lia|].
  apply wf_ShiftRows, wf_map_state; [apply wf_SubWord|done].
Qed.
