(* ===== verification/AesInverse.v ===== *)
(** * AesInverse: the decryption of aes.c inverts its encryption

    The decryption schedule is the encryption schedule read backwards with the
    inner round keys passed through the inverse column mixing; a decryption
    round then undoes one encryption round on states seen after [SubBytes] and
    [ShiftRows]. *)
From S2P Require Import Prelude.
From S2P Require Import AesTables.
From S2P Require Import AesCore.
From S2P Require Import AesFacts.
From S2P Require Import AesSpec.
From S2P Require Import AesProofs.
From S2P Require Import AesKeys.

Open Scope C.

#[local] Opaque Fips.gmul Fips.sbox rom_tables Fips.Rcon.

(** ** The decryption schedule *)

Lemma copy_words_spec f n sk : forall SK RK b,
  0 <= RK -> RK + Z.of_nat n <= Z.of_nat (length b) ->
  exists b', copy_words f n sk SK RK b = (SK + Z.of_nat n, RK + Z.of_nat n, b') /\
    length b' = length b /\
    (forall i, RK <= i < RK + Z.of_nat n -> b'.[i] = f (sk.[SK + (i - RK)])) /\
    (forall i, 0 <= i < RK -> b'.[i] = b.[i]).
Proof.
  induction n as [|n IH]; intros SK RK b HR Hl; cbn [copy_words].
  - exists b. split; [by rewrite !Z.add_0_r|]. split; [done|]. split; [lia|done].
  - destruct (IH (SK + 1) (RK + 1) (b.[RK := f (sk.[SK])])) as (b' & -> & Hl' & Hnew & Hold);
      [lia|rewrite length_insert; lia|].
    exists b'. split; [do 2 f_equal; lia|].
    split; [by rewrite Hl', length_insert|]. split.
    + intros i Hi. destruct (decide (i = RK)) as [->|].
      * rewrite Hold by lia. rewrite list_lookup_total_insert_eq by lia.
        by rewrite Z.sub_diag, Z.add_0_r.
      * rewrite Hnew by lia. do 2 f_equal; f_equal; lia.
    + intros i Hi. rewrite Hold by lia. rewrite list_lookup_total_insert_ne by lia. done.
Qed.

(** Word [i] of the schedule for [n] rounds: round [i / 4] from the end, with
    the inverse mixing in the inner rounds. *)
Definition dec_word (sk : list Z) (n i : Z) : Z :=
  let w := sk.[4 * (n - i / 4) + i mod 4] in
  if (4 <=? i) && (i <? 4 * n) then inv_mix_word rom_tables w else w.

Lemma quad_index r i : 4 * r <= i < 4 * r + 4 -> i / 4 = r /\ i mod 4 = i - 4 * r.
Proof.
  intros Hi. assert (i / 4 = r) as Hq by (symmetry; apply Z.div_unique with (i - 4 * r); lia).
  split; [done|]. rewrite Z.mod_eq by lia. rewrite Hq. lia.
Qed.

Lemma dec_rounds_spec m n sk : forall r b,
  1 <= r -> r + Z.of_nat m = n -> 4 * n <= Z.of_nat (length b) ->
  (forall i, 0 <= i < 4 * r -> b.[i] = dec_word sk n i) ->
  exists b', dec_rounds rom_tables m sk (4 * (n - r)) (4 * r) b = (0, 4 * n, b') /\
    length b' = length b /\ (forall i, 0 <= i < 4 * n -> b'.[i] = dec_word sk n i).
Proof.
  induction m as [|m IH]; intros r b Hr Hm Hl Hb; cbn [dec_rounds].
  - replace r with n in * by lia. exists b. split; [do 2 f_equal; lia|]. by split.
  - destruct (copy_words_spec (inv_mix_word rom_tables) 4 sk (4 * (n - r)) (4 * r) b)
      as (b' & -> & Hl' & Hnew & Hold); [lia..|]. cbv iota beta.
    replace (4 * (n - r) + Z.of_nat 4 - 8) with (4 * (n - (r + 1))) by lia.
    replace (4 * r + Z.of_nat 4) with (4 * (r + 1)) by lia.
    rewrite <-Hl' in Hl |- *. apply IH; [lia..|].
    intros i Hi. destruct (decide (i < 4 * r)); [by rewrite Hold, Hb by lia|].
    rewrite Hnew by lia. unfold dec_word.
    destruct (quad_index r i) as [-> ->]; [lia|].
    replace (4 <=? i) with true by (symmetry; apply Z.leb_le; lia).
    by replace (i <? 4 * n) with true by (symmetry; apply Z.ltb_lt; lia).
Qed.

Lemma dec_schedule_spec cty b :
  1 <= nr cty -> length b = 68%nat -> 4 * nr cty + 4 <= 68 ->
  length (dec_schedule rom_tables cty b) = 68%nat /\
  forall i, 0 <= i < 4 * nr cty + 4 ->
    (dec_schedule rom_tables cty b).[i] = dec_word (buf cty) (nr cty) i.
Proof.
  intros Hn Hl Hn68. unfold dec_schedule. set (n := nr cty) in *. set (sk := buf cty).
  destruct (copy_words_spec id 4 sk (n * 4) 0 b)
    as (b1 & -> & Hl1 & Hnew1 & _); [lia..|]. cbv iota beta.
  replace (n * 4 + Z.of_nat 4 - 8) with (4 * (n - 1)) by lia.
  change (0 + Z.of_nat 4) with (4 * 1).
  destruct (dec_rounds_spec (Z.to_nat (n - 1)) n sk 1 b1) as (b2 & -> & Hl2 & Hb2); [lia..| |].
  { intros i Hi. rewrite Hnew1 by lia. unfold dec_word, id.
    destruct (quad_index 0 i) as [-> ->]; [lia|].
    replace (4 <=? i) with false by (symmetry; apply Z.leb_gt; lia). cbn [andb].
    f_equal. f_equal. lia. }
  cbv iota beta.
  destruct (copy_words_spec id 4 sk 0 (4 * n) b2)
    as (b3 & -> & Hl3 & Hnew3 & Hold3); [lia..|]. cbv iota beta.
  split; [lia|]. intros i Hi. destruct (decide (i < 4 * n)); [by rewrite Hold3, Hb2 by lia|].
  rewrite Hnew3 by lia. unfold dec_word, id. destruct (quad_index n i) as [-> ->]; [lia|].
  replace (i <? 4 * n) with false by (symmetry; apply Z.ltb_ge; lia). rewrite andb_false_r.
  do 2 f_equal. lia.
Qed.

(** A context set up for decryption with [key]. *)
Record dec_ctx (Nk : nat) (key : list Z) (c : aes_context) : Prop := DecCtx {
  dec_nr : nr c = Z.of_nat (Nk + 6);
  dec_len : ctx_ok c;
  dec_outer : forall j, (j < 4)%nat ->
    (buf c).[Z.of_nat j] =
      wordZ (Fips.KeyExpansion Nk (Nk + 6) key !!! (4 * (Nk + 6) + j)%nat) /\
    (buf c).[Z.of_nat (4 * (Nk + 6) + j)] =
      wordZ (Fips.KeyExpansion Nk (Nk + 6) key !!! j);
  dec_inner : forall r j, (1 <= r < Nk + 6)%nat -> (j < 4)%nat ->
    (buf c).[Z.of_nat (4 * r + j)] = inv_mix_word rom_tables
      (wordZ (Fips.KeyExpansion Nk (Nk + 6) key !!! (4 * (Nk + 6 - r) + j)%nat))
}.

Lemma setkey_dec_ctx Nk s ctx key :
  valid_Nk Nk -> static_ok s -> ctx_ok ctx -> is_key Nk key ->
  exists c, mbedtls_aes_setkey_dec s ctx key (32 * Z.of_nat Nk) =
              (0, AesStatic rom_tables true, c) /\ dec_ctx Nk key c.
Proof.
  intros HNk Hs Hc Hk. unfold mbedtls_aes_setkey_dec.
  destruct (setkey_enc_ctx Nk s mbedtls_aes_init key) as (cty & -> & [Hnr _ Hw]);
    [assumption..|reflexivity|assumption|].
  cbn [Z.eqb negb st_tables]. eexists. split; [reflexivity|].
  assert (Nk <= 8)%nat by (destruct HNk as [-> | [-> | ->]]; lia).
  destruct (dec_schedule_spec cty (buf ctx)) as [Hl Hd]; [lia|done|lia|].
  assert (forall r j, (r <= Nk + 6)%nat -> (j < 4)%nat ->
    (dec_schedule rom_tables cty (buf ctx)).[Z.of_nat (4 * r + j)] =
    let w := wordZ (Fips.KeyExpansion Nk (Nk + 6) key !!! (4 * (Nk + 6 - r) + j)%nat) in
    if (1 <=? r)%nat && (r <? Nk + 6)%nat then inv_mix_word rom_tables w else w) as Hall.
  { intros r j Hr Hj. rewrite Hd by lia. unfold dec_word.
    destruct (quad_index (Z.of_nat r) (Z.of_nat (4 * r + j))) as [-> ->]; [lia|].
    rewrite Hnr.
    replace (4 * (Z.of_nat (Nk + 6) - Z.of_nat r) + (Z.of_nat (4 * r + j) - 4 * Z.of_nat r))
      with (Z.of_nat (4 * (Nk + 6 - r) + j)) by lia.
    rewrite Hw by lia. cbv zeta.
    destruct (Nat.leb_spec 1 r), (Nat.ltb_spec r (Nk + 6)),
      (Z.leb_spec 4 (Z.of_nat (4 * r + j))),
      (Z.ltb_spec (Z.of_nat (4 * r + j)) (4 * Z.of_nat (Nk + 6))); try lia; done. }
  constructor; cbn [nr buf]; [done|done| |].
  - intros j Hj. split.
    + rewrite <-(Nat.add_0_l j) at 1. rewrite (Hall 0%nat) by lia. cbn. do 3 f_equal. lia.
    + rewrite Hall by lia. rewrite Nat.ltb_irrefl, andb_false_r, Nat.sub_diag. done.
  - intros r j Hr Hj. rewrite Hall by lia.
    replace (1 <=? r)%nat with true by (symmetry; apply Nat.leb_le; lia).
    by replace (r <? Nk + 6)%nat with true by (symmetry; apply Nat.ltb_lt; lia).
Qed.

(** ** One round undoes one round *)

(** The inverse mixing undoes [MixColumn]. *)
Lemma inv_mix_MixColumn a : wf_word a ->
  inv_mix_word rom_tables (wordZ (Fips.MixColumn (Fips.SubWord a))) =
  wordZ (Fips.SubWord a).
Proof.
  intros Ha. pose proof (ft_word_column 0 a a a a Ha Ha Ha Ha) as H.
  rewrite Z.lxor_0_r in H. unfold Fips.SubWord. rewrite <-H. clear H.
  destruct_words. unfold ft_word, wordZ. cbn [Fips.w0 Fips.w1 Fips.w2 Fips.w3].
  autorewrite with bytes. rewrite Z.lxor_0_l, !inv_mix_word_lxor.
  rewrite inv_mix_FT0, inv_mix_FT1, inv_mix_FT2, inv_mix_FT3, !FSb_sbox by done.
  reflexivity.
Qed.

(** The state after [SubBytes] and [ShiftRows]. *)
Definition sub_shift (s : Fips.state) : Fips.state := Fips.ShiftRows (Fips.SubBytes s).

Lemma wf_sub_shift s : wf_state s -> wf_state (sub_shift s).
Proof. intros. apply wf_ShiftRows, wf_map_state; [apply wf_SubWord|done]. Qed.

(** Reading a sub-shifted state with the column offsets of [AES_RROUND]
    gives back the columns of the original. *)
Lemma rt_word_sub k a b c d e : wf_word e ->
  B 0 a = Fips.sbox (Fips.w0 e) -> B 1 b = Fips.sbox (Fips.w1 e) ->
  B 2 c = Fips.sbox (Fips.w2 e) -> B 3 d = Fips.sbox (Fips.w3 e) ->
  rt_word rom_tables k a b c d = Z.lxor k (inv_mix_word rom_tables (wordZ e)).
Proof.
  intros He H0 H1 H2 H3. destruct_words. unfold rt_word, inv_mix_word, wordZ.
  cbn [Fips.w0 Fips.w1 Fips.w2 Fips.w3]. autorewrite with bytes.
  rewrite H0, H1, H2, H3, !FSb_sbox by done. by rewrite <-!Z.lxor_assoc.
Qed.

Lemma sb_word_sub k a b c d e : wf_word e ->
  B 0 a = Fips.sbox (Fips.w0 e) -> B 1 b = Fips.sbox (Fips.w1 e) ->
  B 2 c = Fips.sbox (Fips.w2 e) -> B 3 d = Fips.sbox (Fips.w3 e) ->
  sb_word (RSb rom_tables) k a b c d = Z.lxor k (wordZ e).
Proof.
  intros He H0 H1 H2 H3. destruct_words. unfold sb_word, wordZ.
  cbn [Fips.w0 Fips.w1 Fips.w2 Fips.w3] in *.
  rewrite H0, H1, H2, H3, <-!FSb_sbox, !RSb_FSb by done. unfold pack.
  by rewrite <-!Z.lxor_assoc.
Qed.

Lemma AES_RROUND_sub b RK s : wf_state s ->
  AES_RROUND rom_tables b RK (stateZ (sub_shift s)) =
  St4 (Z.lxor (b.[RK]) (inv_mix_word rom_tables (wordZ (Fips.c0 s))))
      (Z.lxor (b.[RK + 1]) (inv_mix_word rom_tables (wordZ (Fips.c1 s))))
      (Z.lxor (b.[RK + 2]) (inv_mix_word rom_tables (wordZ (Fips.c2 s))))
      (Z.lxor (b.[RK + 3]) (inv_mix_word rom_tables (wordZ (Fips.c3 s)))).
Proof.
  intros Hs. assert (Hs' := wf_sub_shift s Hs). destruct s as [c0 c1 c2 c3].
  destruct Hs as (H0 & H1 & H2 & H3). cbn [Fips.c0 Fips.c1 Fips.c2 Fips.c3] in *.
  destruct c0, c1, c2, c3. destruct Hs' as (Ha & Hb & Hc & Hd).
  destruct Ha as (?&?&?&?), Hb as (?&?&?&?), Hc as (?&?&?&?), Hd as (?&?&?&?).
  unfold stateZ, AES_RROUND.
  rewrite (rt_word_sub _ _ _ _ _ _ H0), (rt_word_sub _ _ _ _ _ _ H1),
    (rt_word_sub _ _ _ _ _ _ H2), (rt_word_sub _ _ _ _ _ _ H3); [reflexivity|..];
    unfold wordZ; by autorewrite with bytes.
Qed.

Lemma final_rround_sub b RK s : wf_state s ->
  final_rround rom_tables b RK (stateZ (sub_shift s)) =
  St4 (Z.lxor (b.[RK]) (wordZ (Fips.c0 s))) (Z.lxor (b.[RK + 1]) (wordZ (Fips.c1 s)))
      (Z.lxor (b.[RK + 2]) (wordZ (Fips.c2 s))) (Z.lxor (b.[RK + 3]) (wordZ (Fips.c3 s))).
Proof.
  intros Hs. assert (Hs' := wf_sub_shift s Hs). destruct s as [c0 c1 c2 c3].
  destruct Hs as (H0 & H1 & H2 & H3). cbn [Fips.c0 Fips.c1 Fips.c2 Fips.c3] in *.
  destruct c0, c1, c2, c3. destruct Hs' as (Ha & Hb & Hc & Hd).
  destruct Ha as (?&?&?&?), Hb as (?&?&?&?), Hc as (?&?&?&?), Hd as (?&?&?&?).
  unfold stateZ, final_rround.
  rewrite (sb_word_sub _ _ _ _ _ _ H0), (sb_word_sub _ _ _ _ _ _ H1),
    (sb_word_sub _ _ _ _ _ _ H2), (sb_word_sub _ _ _ _ _ _ H3); [reflexivity|..];
    unfold wordZ; by autorewrite with bytes.
Qed.

(** Xoring the mixed round key cancels the key of the forward round. *)
Lemma inv_mix_cancel k a : wf_word a ->
  Z.lxor (inv_mix_word rom_tables (wordZ k))
    (inv_mix_word rom_tables (wordZ (Fips.xor_word (Fips.MixColumn (Fips.SubWord a)) k))) =
  wordZ (Fips.SubWord a).
Proof.
  intros. rewrite wordZ_xor, inv_mix_word_lxor, inv_mix_MixColumn by done.
  bits_by i. btauto.
Qed.

Lemma sub_shift_columns s : wf_state s -> exists a b c d,
  (wf_word a /\ wf_word b /\ wf_word c /\ wf_word d) /\
  sub_shift s = Fips.State (Fips.SubWord a) (Fips.SubWord b) (Fips.SubWord c) (Fips.SubWord d).
Proof.
  intros (H0 & H1 & H2 & H3). destruct s as [a b c d].
  destruct H0 as (?&?&?&?), H1 as (?&?&?&?), H2 as (?&?&?&?), H3 as (?&?&?&?).
  cbn [Fips.c0 Fips.c1 Fips.c2 Fips.c3] in *.
  exists (Fips.Word (Fips.w0 a) (Fips.w1 b) (Fips.w2 c) (Fips.w3 d)),
    (Fips.Word (Fips.w0 b) (Fips.w1 c) (Fips.w2 d) (Fips.w3 a)),
    (Fips.Word (Fips.w0 c) (Fips.w1 d) (Fips.w2 a) (Fips.w3 b)),
    (Fips.Word (Fips.w0 d) (Fips.w1 a) (Fips.w2 b) (Fips.w3 c)).
  split; [|reflexivity]. refine (conj _ (conj _ (conj _ _)));
    refine (conj _ (conj _ (conj _ _))); assumption.
Qed.

(** One decryption round, with the inverse-mixed key of the forward round
    [r], takes the state after [sub_shift] one round back. *)
Lemma AES_RROUND_round b ws r RK s : wf_state s ->
  (forall j, (j < 4)%nat ->
     b.[RK + Z.of_nat j] = inv_mix_word rom_tables (wordZ (ws !!! (4 * r + j)%nat))) ->
  wf_state (Fips.cipher_round ws r s) ->
  AES_RROUND rom_tables b RK (stateZ (sub_shift (Fips.cipher_round ws r s))) =
  stateZ (sub_shift s).
Proof.
  intros Hs Hb Hr. rewrite AES_RROUND_sub by done.
  pose proof (Hb 0%nat ltac:(lia)) as K0. pose proof (Hb 1%nat ltac:(lia)) as K1.
  pose proof (Hb 2%nat ltac:(lia)) as K2. pose proof (Hb 3%nat ltac:(lia)) as K3.
  change (Z.of_nat 0) with 0 in K0. rewrite Z.add_0_r, Nat.add_0_r in K0.
  change (Z.of_nat 1) with 1 in K1. change (Z.of_nat 2) with 2 in K2.
  change (Z.of_nat 3) with 3 in K3. rewrite K0, K1, K2, K3.
  destruct (sub_shift_columns s Hs) as (a & b' & c & d & (Ha & Hb' & Hc & Hd) & He).
  unfold Fips.cipher_round. change (Fips.ShiftRows (Fips.SubBytes s)) with (sub_shift s).
  rewrite He. unfold Fips.AddRoundKey, Fips.MixColumns, Fips.map_state, Fips.round_key.
  cbn [Fips.c0 Fips.c1 Fips.c2 Fips.c3]. rewrite !inv_mix_cancel by done. reflexivity.
Qed.

(** ** Whole blocks *)

Lemma xor_word_cancel k a : Fips.xor_word (Fips.xor_word a k) k = a.
Proof.
  destruct a, k. unfold Fips.xor_word. cbn [Fips.w0 Fips.w1 Fips.w2 Fips.w3].
  by rewrite !Z.lxor_assoc, !Z.lxor_nilpotent, !Z.lxor_0_r.
Qed.

Lemma xor_word_cancel_l k a : Fips.xor_word k (Fips.xor_word a k) = a.
Proof.
  rewrite <-(xor_word_cancel k a) at 2. unfold Fips.xor_word.
  cbn [Fips.w0 Fips.w1 Fips.w2 Fips.w3]. f_equal; apply Z.lxor_comm.
Qed.

Lemma AddRoundKey_cancel k s : Fips.AddRoundKey k (Fips.AddRoundKey k s) = s.
Proof.
  destruct s. unfold Fips.AddRoundKey. cbn [Fips.c0 Fips.c1 Fips.c2 Fips.c3].
  by rewrite !xor_word_cancel.
Qed.

Lemma block_bytes bs : length bs = 16%nat ->
  Fips.bytes_of_state (Fips.state_of_bytes bs) = bs.
Proof. intros. do 16 (destruct bs as [|? bs]; [done|]). by destruct bs. Qed.

Lemma state_bytes s : Fips.state_of_bytes (Fips.bytes_of_state s) = s.
Proof. by destruct s as [[] [] [] []]. Qed.

Lemma bytes_of_state_block s : wf_state s -> is_block (Fips.bytes_of_state s).
Proof.
  destruct s as [[] [] [] []]. intros ((?&?&?&?)&(?&?&?&?)&(?&?&?&?)&(?&?&?&?)).
  split; [done|]. unfold Fips.bytes_of_state, Fips.bytes_of_word. simpl.
  repeat (apply Forall_cons_2; [assumption|]). apply Forall_nil_2.
Qed.

#[local] Opaque Fips.KeyExpansion.

Lemma round_loop_S round n RK X :
  round_loop round (S n) RK X = round_loop round n (RK + 8) (round (RK + 4) (round RK X)).
Proof. reflexivity. Qed.

Section Decrypt.
Context (Nk : nat) (key : list Z) (cd : aes_context).
Context (HNk : valid_Nk Nk) (Hkey : Forall (fits 8) key) (Hcd : dec_ctx Nk key cd).
Local Abbreviation N := (Nk + 6)%nat.
Local Abbreviation ws := (Fips.KeyExpansion Nk (Nk + 6) key).
Context (s0 : Fips.state) (Hs0 : wf_state s0).

(** The state of the encryption after [m] rounds. *)
Local Abbreviation S_ m := (Fips.cipher_rounds ws m 1 s0).

Lemma wf_ws i : (i < 4 * (Nk + 7))%nat -> wf_word (ws !!! i).
Proof. by apply wf_KeyExpansion. Qed.

Lemma wf_rounds m : (m < N)%nat -> wf_state (S_ m).
Proof.
  induction m as [|m IH]; intros Hm; [done|].
  rewrite cipher_rounds_snoc.
  apply (wf_cipher_round ws (4 * (Nk + 7))); [apply wf_ws|lia|apply IH; lia].
Qed.

Lemma RROUND_back r : (1 <= r < N)%nat ->
  AES_RROUND rom_tables (buf cd) (Z.of_nat (4 * r)) (stateZ (sub_shift (S_ (N - r)))) =
  stateZ (sub_shift (S_ (N - r - 1))).
Proof.
  intros Hr. replace (N - r)%nat with (S (N - r - 1)) at 1 by lia.
  assert (Hw := wf_rounds (N - r - 1) ltac:(lia)).
  rewrite cipher_rounds_snoc. apply AES_RROUND_round; [done| |].
  - intros j Hj. rewrite <-Nat2Z.inj_add. rewrite (dec_inner _ _ _ Hcd) by lia.
    do 3 f_equal. lia.
  - apply (wf_cipher_round ws (4 * (Nk + 7))); [apply wf_ws|lia|done].
Qed.

Lemma rround_loop_spec k : forall r, (1 <= r)%nat -> (r + 2 * k <= N)%nat ->
  round_loop (AES_RROUND rom_tables (buf cd)) k (Z.of_nat (4 * r))
    (stateZ (sub_shift (S_ (N - r)))) =
  (Z.of_nat (4 * (r + 2 * k)), stateZ (sub_shift (S_ (N - (r + 2 * k))))).
Proof.
  induction k as [|k IH]; intros r Hr Hk.
  - rewrite Nat.mul_0_r, Nat.add_0_r. reflexivity.
  - rewrite round_loop_S. rewrite RROUND_back by lia.
    replace (Z.of_nat (4 * r) + 4) with (Z.of_nat (4 * (r + 1))) by lia.
    replace (N - r - 1)%nat with (N - (r + 1))%nat by lia.
    rewrite RROUND_back by lia.
    replace (Z.of_nat (4 * r) + 8) with (Z.of_nat (4 * (r + 2))) by lia.
    replace (N - (r + 1) - 1)%nat with (N - (r + 2))%nat by lia.
    rewrite IH by lia. replace (r + 2 + 2 * k)%nat with (r + 2 * S k)%nat by lia.
    reflexivity.
Qed.

(** Loading the ciphertext strips the last round key. *)
Lemma load_last s : wf_state s ->
  load_block (buf cd) (Fips.bytes_of_state (Fips.AddRoundKey (Fips.round_key ws N) s)) =
  stateZ s.
Proof.
  intros Hs.
  assert (Hk : Fips.round_key (drop (4 * N) ws) 0 = Fips.round_key ws N).
  { unfold Fips.round_key. rewrite !lookup_total_drop, Nat.mul_0_r, Nat.add_0_r, !Nat.add_0_l.
    reflexivity. }
  rewrite (load_block_spec _ (drop (4 * N) ws) 4); [..|lia|].
  - by rewrite Hk, state_bytes, AddRoundKey_cancel.
  - intros i Hi. rewrite lookup_total_drop. by apply (dec_outer _ _ _ Hcd).
  - apply bytes_of_state_block. apply wf_AddRoundKey; [|done].
    apply (wf_round_key ws (4 * (Nk + 7))); [apply wf_ws|lia].
Qed.

Lemma decrypt_rounds :
  mbedtls_internal_aes_decrypt rom_tables cd
    (Fips.bytes_of_state (Fips.final_round ws N (S_ (N - 1)))) =
  store_block (St4 (Z.lxor (wordZ (ws !!! 0%nat)) (wordZ (Fips.c0 s0)))
                   (Z.lxor (wordZ (ws !!! 1%nat)) (wordZ (Fips.c1 s0)))
                   (Z.lxor (wordZ (ws !!! 2%nat)) (wordZ (Fips.c2 s0)))
                   (Z.lxor (wordZ (ws !!! 3%nat)) (wordZ (Fips.c3 s0)))).
Proof.
  unfold mbedtls_internal_aes_decrypt, Fips.final_round.
  change (Fips.ShiftRows (Fips.SubBytes ?s)) with (sub_shift s).
  assert (4 <= Nk <= 8)%nat by (destruct HNk as [-> | [-> | ->]]; lia).
  rewrite load_last by (apply wf_sub_shift, wf_rounds; lia).
  assert (exists k, Nk = (2 * k)%nat) as (k & Hk)
    by (destruct HNk as [-> | [-> | ->]]; [exists 2%nat|exists 3%nat|exists 4%nat]; lia).
  replace (Z.to_nat (Z.shiftr (nr cd) 1 - 1)) with (k + 2)%nat
    by (rewrite (dec_nr _ _ _ Hcd), Z.shiftr_div_pow2 by lia; change (2 ^ 1) with 2;
        replace (Z.of_nat (Nk + 6)) with ((Z.of_nat k + 3) * 2) by lia;
        rewrite Z.div_mul by lia; lia).
  change 4 with (Z.of_nat (4 * 1)) at 1. rewrite rround_loop_spec by lia.
  rewrite RROUND_back by lia.
  replace (N - (1 + 2 * (k + 2)) - 1)%nat with 0%nat by lia.
  rewrite final_rround_sub by done.
  destruct (dec_outer _ _ _ Hcd 0%nat) as [_ K0]; [lia|].
  destruct (dec_outer _ _ _ Hcd 1%nat) as [_ K1]; [lia|].
  destruct (dec_outer _ _ _ Hcd 2%nat) as [_ K2]; [lia|].
  destruct (dec_outer _ _ _ Hcd 3%nat) as [_ K3]; [lia|].
  rewrite <-K0, <-K1, <-K2, <-K3. cbn [Fips.cipher_rounds].
  do 2 f_equal; f_equal; f_equal; lia.
Qed.
End Decrypt.

Lemma internal_decrypt_encrypt Nk key cd input :
  valid_Nk Nk -> Forall (fits 8) key -> dec_ctx Nk key cd -> is_block input ->
  mbedtls_internal_aes_decrypt rom_tables cd (Fips.aes_encrypt Nk key input) = input.
Proof.
  intros HNk Hkey Hcd [Hl Hin]. unfold Fips.aes_encrypt, Fips.Cipher.
  assert (wf_state (Fips.state_of_bytes input)) as Hs by by apply wf_state_of_bytes.
  rewrite decrypt_rounds; [|done..|].
  - unfold Fips.AddRoundKey, Fips.round_key. cbn [Fips.c0 Fips.c1 Fips.c2 Fips.c3].
    rewrite <-!wordZ_xor, !xor_word_cancel_l.
    rewrite <-(block_bytes input Hl) at 5. by apply store_block_spec.
  - apply wf_AddRoundKey; [|done].
    apply (wf_round_key _ (4 * (Nk + 7))); [|lia].
    intros. by apply wf_KeyExpansion.
Qed.

Lemma aes_encrypt_block Nk key input :
  valid_Nk Nk -> Forall (fits 8) key -> is_block input ->
  is_block (Fips.aes_encrypt Nk key input).
Proof.
  intros HNk Hkey [Hl Hin]. unfold Fips.aes_encrypt, Fips.Cipher.
  assert (Hwf : forall i, (i < 4 * (Nk + 7))%nat ->
    wf_word (Fips.KeyExpansion Nk (Nk + 6) key !!! i)) by (intros; by apply wf_KeyExpansion).
  apply bytes_of_state_block. apply wf_AddRoundKey; [apply (wf_round_key _ _ Hwf); lia|].
  apply wf_ShiftRows, wf_map_state; [apply wf_SubWord|].
  apply wf_rounds; [done|done| |lia].
  apply wf_AddRoundKey; [apply (wf_round_key _ _ Hwf); lia|].
  by apply wf_state_of_bytes.
Qed.
