(* ===== verification/AesModes.v ===== *)
(** * AesModes: the modes of operation of aes.c

    CBC, CFB128, CFB8, OFB and CTR ([mbedtls_aes_crypt_*], lines 1043-1467).
    The loops take the block function as an argument, so that their theorems
    are proved against the interface [BlockCipher]; the exported functions
    apply them to [mbedtls_aes_crypt_ecb] of a context. A result is the return
    code, the caller's state that the call updates (IV, offset, counter) and
    the bytes stored through [output]. *)
From S2P Require Import Prelude.
From S2P Require Import AesTables.
From S2P Require Import AesCore.

Open Scope C.

(** [(unsigned char)( a ^ b )] *)
Definition xorb (a b : Z) : Z := u8 (Z.lxor a b).

(** [for( i = 0; i < 16; i++ ) r[i] = (unsigned char)( a[i] ^ b[i] )] *)
Definition xor16 (a b : list Z) : list Z := zip_with xorb (take 16 a) (take 16 b).

(** ** CBC *)

(** [while( length > 0 )] of the two branches, [n] blocks to go. *)
Fixpoint cbc_dec_loop (ecb : list Z -> list Z) (n : nat) (iv input : list Z)
  : list Z * list Z :=
  match n with
  | O => (iv, [])
  | S n =>
      let temp := take 16 input in
      let output := ecb temp in
      let output := xor16 output iv in
      let '(iv, rest) := cbc_dec_loop ecb n temp (drop 16 input) in
      (iv, output ++ rest)
  end.

Fixpoint cbc_enc_loop (ecb : list Z -> list Z) (n : nat) (iv input : list Z)
  : list Z * list Z :=
  match n with
  | O => (iv, [])
  | S n =>
      let output := xor16 input iv in
      let output := ecb output in
      let '(iv, rest) := cbc_enc_loop ecb n output (drop 16 input) in
      (iv, output ++ rest)
  end.

Definition mbedtls_aes_crypt_cbc (t : tables) (ctx : aes_context) (mode length : Z)
    (iv input : list Z) : Z * list Z * list Z :=
  if negb (length mod 16 =? 0) then (MBEDTLS_ERR_AES_INVALID_INPUT_LENGTH, iv, [])
  else
    let blocks := Z.to_nat (length / 16) in
    let '(iv, output) :=
      if mode =? MBEDTLS_AES_DECRYPT
      then cbc_dec_loop (mbedtls_aes_crypt_ecb t ctx mode) blocks iv input
      else cbc_enc_loop (mbedtls_aes_crypt_ecb t ctx mode) blocks iv input in
    (0, iv, output).

(** ** CFB128 *)

(** [if( n == 0 ) mbedtls_aes_crypt_ecb( ctx, MBEDTLS_AES_ENCRYPT, iv, iv )] *)
Definition refill (ecb : list Z -> list Z) (n : Z) (iv : list Z) : list Z :=
  if n =? 0 then ecb iv else iv.

Fixpoint cfb128_dec_loop (ecb : list Z -> list Z) (length : nat) (n : Z)
    (iv input : list Z) : Z * list Z * list Z :=
  match length with
  | O => (n, iv, [])
  | S length =>
      let iv := refill ecb n iv in
      let c := input.[0] in
      let o := xorb c (iv.[n]) in
      let iv := iv.[n := c] in
      let '(n, iv, rest) :=
        cfb128_dec_loop ecb length (Z.land (n + 1) 0x0F) iv (drop 1 input) in
      (n, iv, o :: rest)
  end.

Fixpoint cfb128_enc_loop (ecb : list Z -> list Z) (length : nat) (n : Z)
    (iv input : list Z) : Z * list Z * list Z :=
  match length with
  | O => (n, iv, [])
  | S length =>
      let iv := refill ecb n iv in
      let o := xorb (iv.[n]) (input.[0]) in
      let iv := iv.[n := o] in
      let '(n, iv, rest) :=
        cfb128_enc_loop ecb length (Z.land (n + 1) 0x0F) iv (drop 1 input) in
      (n, iv, o :: rest)
  end.

(** Return code, [*iv_off], [iv], [output]. *)
Definition mbedtls_aes_crypt_cfb128 (t : tables) (ctx : aes_context) (mode length : Z)
    (iv_off : Z) (iv input : list Z) : Z * Z * list Z * list Z :=
  if 15 <? iv_off then (MBEDTLS_ERR_AES_BAD_INPUT_DATA, iv_off, iv, [])
  else
    let ecb := mbedtls_aes_crypt_ecb t ctx MBEDTLS_AES_ENCRYPT in
    let '(n, iv, output) :=
      if mode =? MBEDTLS_AES_DECRYPT
      then cfb128_dec_loop ecb (Z.to_nat length) iv_off iv input
      else cfb128_enc_loop ecb (Z.to_nat length) iv_off iv input in
    (0, n, iv, output).

(** ** CFB8 *)

(** The whole body of the loop: [ov] is the shift register with the
    ciphertext byte appended. *)
Fixpoint cfb8_loop (ecb : list Z -> list Z) (mode : Z) (length : nat)
    (iv input : list Z) : list Z * list Z :=
  match length with
  | O => (iv, [])
  | S length =>
      let ov := take 16 iv in
      let iv := ecb iv in
      let c := xorb (iv.[0]) (input.[0]) in
      let ov16 := if mode =? MBEDTLS_AES_DECRYPT then input.[0] else c in
      let iv := drop 1 (ov ++ [ov16]) in
      let '(iv, rest) := cfb8_loop ecb mode length iv (drop 1 input) in
      (iv, c :: rest)
  end.

Definition mbedtls_aes_crypt_cfb8 (t : tables) (ctx : aes_context) (mode length : Z)
    (iv input : list Z) : Z * list Z * list Z :=
  let '(iv, output) :=
    cfb8_loop (mbedtls_aes_crypt_ecb t ctx MBEDTLS_AES_ENCRYPT) mode
      (Z.to_nat length) iv input in
  (0, iv, output).

(** ** OFB *)

Fixpoint ofb_loop (ecb : list Z -> list Z) (length : nat) (n : Z)
    (iv input : list Z) : Z * list Z * list Z :=
  match length with
  | O => (n, iv, [])
  | S length =>
      let iv := refill ecb n iv in
      let o := xorb (input.[0]) (iv.[n]) in
      let '(n, iv, rest) := ofb_loop ecb length (Z.land (n + 1) 0x0F) iv (drop 1 input) in
      (n, iv, o :: rest)
  end.

Definition mbedtls_aes_crypt_ofb (t : tables) (ctx : aes_context) (length : Z)
    (iv_off : Z) (iv input : list Z) : Z * Z * list Z * list Z :=
  if 15 <? iv_off then (MBEDTLS_ERR_AES_BAD_INPUT_DATA, iv_off, iv, [])
  else
    let '(n, iv, output) :=
      ofb_loop (mbedtls_aes_crypt_ecb t ctx MBEDTLS_AES_ENCRYPT) (Z.to_nat length)
        iv_off iv input in
    (0, n, iv, output).

(** ** CTR *)

(** [for( i = 16; i > 0; i-- ) if( ++nonce_counter[i - 1] != 0 ) break;] *)
Fixpoint ctr_increment (i : nat) (nonce : list Z) : list Z :=
  match i with
  | O => nonce
  | S i =>
      let b := u8 (nonce !!! i + 1) in
      let nonce := <[i := b]> nonce in
      if negb (b =? 0) then nonce else ctr_increment i nonce
  end.

Fixpoint ctr_loop (ecb : list Z -> list Z) (length : nat) (n : Z)
    (nonce stream input : list Z) : Z * list Z * list Z * list Z :=
  match length with
  | O => (n, nonce, stream, [])
  | S length =>
      let '(stream, nonce) :=
        if n =? 0 then (ecb nonce, ctr_increment 16 nonce) else (stream, nonce) in
      let c := input.[0] in
      let o := xorb c (stream.[n]) in
      let '(n, nonce, stream, rest) :=
        ctr_loop ecb length (Z.land (n + 1) 0x0F) nonce stream (drop 1 input) in
      (n, nonce, stream, o :: rest)
  end.

(** Return code, [*nc_off], [nonce_counter], [stream_block], [output]. *)
Definition mbedtls_aes_crypt_ctr (t : tables) (ctx : aes_context) (length : Z)
    (nc_off : Z) (nonce_counter stream_block input : list Z)
  : Z * Z * list Z * list Z * list Z :=
  if 0x0F <? nc_off then
    (MBEDTLS_ERR_AES_BAD_INPUT_DATA, nc_off, nonce_counter, stream_block, [])
  else
    let '(n, nonce_counter, stream_block, output) :=
      ctr_loop (mbedtls_aes_crypt_ecb t ctx MBEDTLS_AES_ENCRYPT) (Z.to_nat length)
        nc_off nonce_counter stream_block input in
    (0, n, nonce_counter, stream_block, output).
