(* ===== verification/AesModesFacts.v ===== *)
(** * AesModesFacts: what the modes of aes.c promise, over any block cipher *)
From S2P Require Import Prelude.
From S2P Require Import AesTables.
From S2P Require Import AesCore.
From S2P Require Import AesProofs.
From S2P Require Import AesModes.

Open Scope C.

(** ** The interface the modes use *)

(** What a mode relies on: the two block functions keep blocks, and the
    second undoes the first. *)
Class BlockCipher (E D : list Z -> list Z) : Prop := {
  E_block x : is_block x -> is_block (E x);
  D_E x : is_block x -> D (E x) = x
}.

(** ** Bytes and blocks *)

Lemma xorb_fits a b : fits 8 (xorb a b).
Proof. by apply wrap_fits. Qed.

Lemma xorb_lxor a b : fits 8 a -> fits 8 b -> xorb a b = Z.lxor a b.
Proof. intros. apply wrap_id. by apply fits_lxor. Qed.

Lemma xorb_comm a b : xorb a b = xorb b a.
Proof. unfold xorb. by rewrite Z.lxor_comm. Qed.

Lemma xorb_cancel a b : fits 8 a -> fits 8 b -> xorb (xorb a b) b = a.
Proof.
  intros. rewrite (xorb_lxor a b) by done. rewrite xorb_lxor by (done || by apply fits_lxor).
  by rewrite Z.lxor_assoc, Z.lxor_nilpotent, Z.lxor_0_r.
Qed.

Lemma xorb_cancel_l a b : fits 8 a -> fits 8 b -> xorb (xorb a b) a = b.
Proof. intros. rewrite (xorb_comm a b). by apply xorb_cancel. Qed.

Lemma zip_xorb_fits a : forall b, Forall (fits 8) (zip_with xorb a b).
Proof.
  induction a as [|x a IH]; intros [|y b]; simpl; constructor; auto using xorb_fits.
Qed.

Lemma zip_xorb_cancel a : forall b, length b = length a ->
  Forall (fits 8) a -> Forall (fits 8) b ->
  zip_with xorb (zip_with xorb a b) b = a.
Proof.
  induction a as [|x a IH]; intros [|y b] Hl Ha Hb; simplify_eq/=; [done|].
  inversion Ha; inversion Hb; subst. by rewrite xorb_cancel, IH.
Qed.

Lemma block_take bs : is_block bs -> take 16 bs = bs.
Proof. intros [Hl _]. by rewrite take_ge by lia. Qed.

Lemma xor16_block a b :
  (16 <= length a)%nat -> (16 <= length b)%nat -> is_block (xor16 a b).
Proof.
  intros Ha Hb. split; [|apply zip_xorb_fits].
  unfold xor16. rewrite length_zip_with, !length_take. lia.
Qed.

Lemma xor16_cancel a b : is_block a -> is_block b -> xor16 (xor16 a b) b = a.
Proof.
  intros Ha Hb. assert (is_block (xor16 a b)) as Hx
    by (apply xor16_block; rewrite ?(proj1 Ha), ?(proj1 Hb); lia).
  unfold xor16 at 1. rewrite (block_take _ Hx), (block_take _ Hb).
  unfold xor16. rewrite (block_take _ Ha), (block_take _ Hb).
  apply zip_xorb_cancel; [by rewrite (proj1 Ha), (proj1 Hb)|apply Ha|apply Hb].
Qed.

(** Bytes of a buffer. *)
Lemma bytes_lookup (l : list Z) i : Forall (fits 8) l -> fits 8 (l.[i]).
Proof. apply byte_lookup. Qed.

Lemma block_update iv n c : is_block iv -> fits 8 c -> is_block (iv.[n := c]).
Proof.
  intros [Hl Hb] Hc. split; [by rewrite length_insert|]. by apply Forall_insert.
Qed.

Lemma block_split (n : nat) input :
  length input = (16 * S n)%nat -> Forall (fits 8) input ->
  is_block (take 16 input) /\ length (drop 16 input) = (16 * n)%nat /\
  Forall (fits 8) (drop 16 input).
Proof.
  intros Hl Hb. split; [split|split].
  - rewrite length_take. lia.
  - by apply Forall_take.
  - rewrite length_drop. lia.
  - by apply Forall_drop.
Qed.

(** The index arithmetic of the byte modes. *)
Lemma next_off n : 0 <= n <= 15 -> 0 <= Z.land (n + 1) 0x0F <= 15.
Proof.
  intros. change 15 with (Z.ones 4) at 1 2. rewrite Z.land_ones by lia.
  pose proof (Z.mod_pos_bound (n + 1) (2 ^ 4)). change (2 ^ 4) with 16 in *. lia.
Qed.

Section Modes.
Context (E D : list Z -> list Z) `{HBC : BlockCipher E D}.

(** ** CBC *)

Lemma cbc_enc_loop_bytes n : forall iv input,
  is_block iv -> length input = (16 * n)%nat -> Forall (fits 8) input ->
  is_block (cbc_enc_loop E n iv input).1 /\
  length (cbc_enc_loop E n iv input).2 = (16 * n)%nat /\
  Forall (fits 8) (cbc_enc_loop E n iv input).2.
Proof.
  induction n as [|n IH]; intros iv input Hiv Hl Hb; cbn [cbc_enc_loop]; [done|].
  destruct (block_split n input) as (Ht & Hl' & Hb'); [done..|].
  assert (is_block (E (xor16 input iv))) as HE.
  { apply E_block. apply xor16_block; [lia|]. rewrite (proj1 Hiv). lia. }
  destruct (IH _ _ HE Hl' Hb') as (IH1 & IH2 & IH3).
  destruct (cbc_enc_loop E n _ _) as [iv' rest]. cbn [fst snd] in *.
  split; [done|]. split.
  - rewrite length_app, (proj1 HE). lia.
  - apply Forall_app. split; [apply HE|done].
Qed.

Lemma cbc_dec_enc n : forall iv input,
  is_block iv -> length input = (16 * n)%nat -> Forall (fits 8) input ->
  cbc_dec_loop D n iv (cbc_enc_loop E n iv input).2 =
    ((cbc_enc_loop E n iv input).1, input).
Proof.
  induction n as [|n IH]; intros iv input Hiv Hl Hb; cbn [cbc_enc_loop].
  - destruct input; [done|discriminate].
  - destruct (block_split n input) as (Ht & Hl' & Hb'); [done..|].
    assert (is_block (xor16 input iv)) as Hx
      by (apply xor16_block; [lia|]; rewrite (proj1 Hiv); lia).
    assert (HE := E_block _ Hx).
    specialize (IH _ _ HE Hl' Hb').
    destruct (cbc_enc_loop E n _ _) as [iv' rest]. cbn [fst snd cbc_dec_loop] in *.
    rewrite take_app_length', drop_app_length' by (by rewrite (proj1 HE)).
    rewrite IH, (D_E (E := E) (D := D) _ Hx).
    assert (xor16 input iv = xor16 (take 16 input) iv) as ->
      by (unfold xor16; by rewrite (block_take _ Ht)).
    rewrite xor16_cancel by done. by rewrite take_drop.
Qed.

(** A message processed in two calls, the IV carried between them. *)
Lemma cbc_enc_loop_app m n : forall iv a b,
  length a = (16 * m)%nat -> (16 <= length iv)%nat ->
  cbc_enc_loop E (m + n) iv (a ++ b) =
    let '(iv1, o1) := cbc_enc_loop E m iv a in
    let '(iv2, o2) := cbc_enc_loop E n iv1 b in (iv2, o1 ++ o2).
Proof.
  induction m as [|m IH]; intros iv a b Ha Hiv; cbn [cbc_enc_loop Nat.add].
  - destruct a; [|discriminate]. simpl. by destruct (cbc_enc_loop E n iv b).
  - rewrite drop_app_le by lia.
    assert (xor16 (a ++ b) iv = xor16 a iv) as ->
      by (unfold xor16; by rewrite take_app_le by lia).
    rewrite IH.
    + destruct (cbc_enc_loop E m _ _) as [iv1 o1].
      destruct (cbc_enc_loop E n iv1 b) as [iv2 o2]. by rewrite app_assoc.
    + rewrite length_drop. lia.
    + rewrite (proj1 (E_block (xor16 a iv) ltac:(apply xor16_block; lia))). lia.
Qed.

(** ** CFB128 *)

Lemma refill_block n iv : is_block iv -> is_block (refill E n iv).
Proof. intros. unfold refill. destruct (n =? 0); [by apply E_block|done]. Qed.

Lemma cfb128_enc_bytes len : forall n iv input,
  length (cfb128_enc_loop E len n iv input).2 = len /\
  Forall (fits 8) (cfb128_enc_loop E len n iv input).2.
Proof.
  induction len as [|len IH]; intros n iv input; cbn [cfb128_enc_loop]; [done|].
  set (iv' := <[_ := _]> _).
  destruct (IH (Z.land (n + 1) 15) iv' (drop 1 input)) as [IH1 IH2].
  destruct (cfb128_enc_loop E len _ _ _) as [[n' iv''] rest]. cbn [snd length] in *.
  split; [by rewrite IH1|]. constructor; [apply xorb_fits|done].
Qed.

Lemma cfb128_dec_enc len : forall n iv input,
  0 <= n <= 15 -> is_block iv -> length input = len -> Forall (fits 8) input ->
  let '(n', iv', out) := cfb128_enc_loop E len n iv input in
  cfb128_dec_loop E len n iv out = (n', iv', input).
Proof.
  induction len as [|len IH]; intros n iv input Hn Hiv Hl Hb; cbn [cfb128_enc_loop].
  - destruct input; [done|discriminate].
  - destruct input as [|p input]; [discriminate|]. inversion Hb as [|? ? Hp Hb']; subst.
    assert (Hr := refill_block n iv Hiv).
    change ((p :: input).[0]) with p. change (drop 1 (p :: input)) with input.
    set (c := xorb ((refill E n iv).[n]) p).
    specialize (IH (Z.land (n + 1) 15) ((refill E n iv).[n := c]) input
                   (next_off n Hn)).
    destruct (cfb128_enc_loop E len _ _ _) as [[n' iv'] out] eqn:He.
    cbn [cfb128_dec_loop]. change ((c :: out).[0]) with c.
    change (drop 1 (c :: out)) with out.
    rewrite IH; [|apply block_update; [done|apply xorb_fits]|by simplify_eq/=|done].
    do 2 f_equal. apply xorb_cancel_l; [apply bytes_lookup, Hr|done].
Qed.

(** ** CFB8 *)

Lemma cfb8_dec_enc len : forall iv input,
  is_block iv -> length input = len -> Forall (fits 8) input ->
  cfb8_loop E MBEDTLS_AES_DECRYPT len iv
    (cfb8_loop E MBEDTLS_AES_ENCRYPT len iv input).2 =
  ((cfb8_loop E MBEDTLS_AES_ENCRYPT len iv input).1, input).
Proof.
  induction len as [|len IH]; intros iv input Hiv Hl Hb; cbn [cfb8_loop].
  - destruct input; [done|discriminate].
  - destruct input as [|p input]; [discriminate|]. inversion Hb as [|? ? Hp Hb']; subst.
    change (MBEDTLS_AES_ENCRYPT =? MBEDTLS_AES_DECRYPT) with false.
    change (MBEDTLS_AES_DECRYPT =? MBEDTLS_AES_DECRYPT) with true. cbv iota.
    change ((p :: input).[0]) with p. change (drop 1 (p :: input)) with input.
    set (c := xorb ((E iv).[0]) p).
    assert (is_block (drop 1 (take 16 iv ++ [c]))) as Hiv'.
    { split; [rewrite length_drop, length_app, length_take, (proj1 Hiv); done|].
      apply Forall_drop, Forall_app. split; [apply Forall_take, Hiv|].
      constructor; [apply xorb_fits|done]. }
    specialize (IH _ input Hiv' ltac:(by simplify_eq/=) Hb').
    destruct (cfb8_loop E MBEDTLS_AES_ENCRYPT len _ input) as [iv' out].
    cbn [fst snd] in *. change ((c :: out).[0]) with c.
    change (drop 1 (c :: out)) with out. rewrite IH. do 2 f_equal.
    unfold c. rewrite xorb_comm.
    apply xorb_cancel_l; [apply bytes_lookup, E_block, Hiv|done].
Qed.

(** ** OFB *)

Lemma ofb_involutive len : forall n iv input,
  0 <= n <= 15 -> is_block iv -> length input = len -> Forall (fits 8) input ->
  let '(n', iv', out) := ofb_loop E len n iv input in
  ofb_loop E len n iv out = (n', iv', input).
Proof.
  induction len as [|len IH]; intros n iv input Hn Hiv Hl Hb; cbn [ofb_loop].
  - destruct input; [done|discriminate].
  - destruct input as [|p input]; [discriminate|]. inversion Hb as [|? ? Hp Hb']; subst.
    assert (Hr := refill_block n iv Hiv).
    change ((p :: input).[0]) with p. change (drop 1 (p :: input)) with input.
    set (c := xorb p ((refill E n iv).[n])).
    specialize (IH (Z.land (n + 1) 15) (refill E n iv) input (next_off n Hn) Hr
                   ltac:(by simplify_eq/=) Hb').
    destruct (ofb_loop E len _ _ _) as [[n' iv'] out] eqn:He.
    change ((c :: out).[0]) with c. change (drop 1 (c :: out)) with out.
    rewrite IH. do 2 f_equal. apply xorb_cancel; [done|]. apply bytes_lookup, Hr.
Qed.
End Modes.

(** ** CTR *)

(** A byte string read as a big-endian number. *)
Definition be_value (l : list Z) : Z := foldl (fun acc b => acc * 256 + b) 0 l.

Lemma be_value_snoc l b : be_value (l ++ [b]) = be_value l * 256 + b.
Proof. unfold be_value. by rewrite foldl_app. Qed.

Lemma take_snoc (l : list Z) i : (i < length l)%nat -> take (S i) l = take i l ++ [l !!! i].
Proof.
  intros. apply take_S_r. by rewrite list_lookup_lookup_total_lt.
Qed.

Lemma length_ctr_increment i : forall l, length (ctr_increment i l) = length l.
Proof.
  induction i as [|i IH]; intros l; cbn [ctr_increment]; [done|].
  cbv zeta. destruct (negb _); rewrite ?IH; by rewrite length_insert.
Qed.

Lemma ctr_increment_beyond i : forall l j, (i <= j)%nat ->
  ctr_increment i l !!! j = l !!! j.
Proof.
  induction i as [|i IH]; intros l j Hj; cbn [ctr_increment]; [done|].
  cbv zeta. destruct (negb _); rewrite ?IH by lia; by rewrite list_lookup_total_insert_ne by lia.
Qed.

Lemma ctr_increment_bytes i : forall l, Forall (fits 8) l -> Forall (fits 8) (ctr_increment i l).
Proof.
  induction i as [|i IH]; intros l Hl; cbn [ctr_increment]; [done|].
  cbv zeta. destruct (negb _); [|apply IH]; apply Forall_insert; auto; by apply wrap_fits.
Qed.

Lemma ctr_increment_app i : forall p x, (i <= length p)%nat ->
  ctr_increment i (p ++ x) = ctr_increment i p ++ x.
Proof.
  induction i as [|i IH]; intros p x Hi; cbn [ctr_increment]; [done|]. cbv zeta.
  rewrite lookup_total_app_l, insert_app_l by lia.
  destruct (negb _); [done|]. apply IH. rewrite length_insert. lia.
Qed.

Lemma be_value_bound l : Forall (fits 8) l -> 0 <= be_value l < 256 ^ Z.of_nat (length l).
Proof.
  induction l as [|x l IH] using rev_ind; intros H.
  - unfold be_value. simpl. lia.
  - apply Forall_app in H as [H1 H2]. inversion H2 as [|? ? Hx]; subst.
    rewrite length_app, be_value_snoc. simpl. specialize (IH H1).
    unfold fits in Hx. change (2 ^ 8) with 256 in Hx.
    replace (Z.of_nat (length l + 1)) with (Z.of_nat (length l) + 1) by lia.
    rewrite Z.pow_add_r by lia. lia.
Qed.

(** Incrementing the counter block is adding one to the number it spells,
    modulo its width. *)
Lemma ctr_increment_value i : forall l,
  length l = i -> Forall (fits 8) l ->
  be_value (ctr_increment i l) = (be_value l + 1) mod 256 ^ Z.of_nat i.
Proof.
  induction i as [|i IH]; intros l Hl Hb.
  - destruct l; [|discriminate]. reflexivity.
  - destruct (exists_last (l := l)) as (p & c & ->); [by destruct l|].
    rewrite length_app in Hl. simpl in Hl. assert (length p = i) as Hp by lia.
    apply Forall_app in Hb as [Hb Hc]. inversion Hc as [|? ? Hc']; subst.
    pose proof (be_value_bound p Hb) as Hbound.
    unfold fits in Hc'. change (2 ^ 8) with 256 in Hc'.
    cbn [ctr_increment]. cbv zeta.
    rewrite lookup_total_app_r, Nat.sub_diag by lia. change ([c] !!! 0%nat) with c.
    rewrite insert_app_r_alt, Nat.sub_diag by lia. cbn [insert list_insert].
    replace (Z.of_nat (S (length p))) with (Z.of_nat (length p) + 1) by lia.
    rewrite Z.pow_add_r, be_value_snoc by lia. change (256 ^ 1) with 256.
    destruct (decide (c = 255)) as [->|Hc255].
    + change (u8 (255 + 1)) with 0. cbn [Z.eqb negb].
      rewrite ctr_increment_app, be_value_snoc, IH by done.
      replace (be_value p * 256 + 255 + 1) with ((be_value p + 1) * 256) by lia.
      rewrite Z.mul_mod_distr_r by lia. lia.
    + rewrite (wrap_id 8 (c + 1)) by (unfold fits; lia).
      replace (c + 1 =? 0) with false by (symmetry; apply Z.eqb_neq; lia). cbn [negb].
      rewrite be_value_snoc, Z.mod_small by lia. lia.
Qed.

(** Counter block number [k] of a run that starts at [nonce]. *)
Definition counter_block (k : nat) (nonce : list Z) : list Z :=
  Nat.iter k (ctr_increment 16) nonce.

Lemma counter_block_S k nonce :
  counter_block (S k) nonce = counter_block k (ctr_increment 16 nonce).
Proof. unfold counter_block. by rewrite Nat.iter_succ_r. Qed.

Lemma ctr_increment_block l : is_block l -> is_block (ctr_increment 16 l).
Proof.
  intros [Hl Hb]. split; [by rewrite length_ctr_increment|by apply ctr_increment_bytes].
Qed.

Lemma counter_block_value k nonce : is_block nonce ->
  is_block (counter_block k nonce) /\
  be_value (counter_block k nonce) = (be_value nonce + Z.of_nat k) mod 2 ^ 128.
Proof.
  intros Hn. induction k as [|k [IH1 IH2]].
  - split; [done|]. rewrite Z.add_0_r, Z.mod_small; [done|].
    destruct Hn as [Hl Hb]. pose proof (be_value_bound nonce Hb) as H.
    rewrite Hl in H. exact H.
  - change (counter_block (S k) nonce) with (ctr_increment 16 (counter_block k nonce)).
    split; [by apply ctr_increment_block|].
    destruct IH1 as [Hl Hb]. rewrite ctr_increment_value, IH2 by done.
    change (256 ^ Z.of_nat 16) with (2 ^ 128). rewrite Zplus_mod_idemp_l. f_equal. lia.
Qed.

Section Counter.
Context (E : list Z -> list Z).

(** Byte [j] of the key stream from offset [n] of the current block. *)
Definition key_stream (n : nat) (nonce stream : list Z) (j : nat) : Z :=
  if (n =? 0)%nat then E (counter_block (j / 16) nonce) !!! (j mod 16)%nat
  else if (n + j <? 16)%nat then stream !!! (n + j)%nat
  else E (counter_block ((n + j) / 16 - 1) nonce) !!! ((n + j) mod 16)%nat.

Lemma key_stream_step n nonce stream j : (n < 16)%nat ->
  key_stream n nonce stream (S j) =
  if (n =? 0)%nat then key_stream 1 (ctr_increment 16 nonce) (E nonce) j
  else key_stream ((n + 1) mod 16) nonce stream j.
Proof.
  intros Hn. unfold key_stream. destruct (Nat.eqb_spec n 0) as [->|Hn0].
  - cbn [Nat.eqb Nat.add]. destruct (Nat.ltb_spec (S j) 16).
    + by rewrite Nat.div_small, Nat.mod_small by lia.
    + rewrite <-counter_block_S. do 3 f_equal.
      assert (1 <= S j / 16)%nat by (apply Nat.div_le_lower_bound; lia). lia.
  - destruct (decide (n = 15%nat)) as [->|].
    + change ((15 + 1) mod 16)%nat with 0%nat. cbn [Nat.eqb].
      replace (15 + S j)%nat with (j + 1 * 16)%nat by lia.
      rewrite Nat.div_add, Nat.Div0.mod_add by lia.
      replace (j + 1 * 16 <? 16)%nat with false by (symmetry; apply Nat.ltb_ge; lia).
      do 3 f_equal. lia.
    + rewrite (Nat.mod_small (n + 1)) by lia.
      replace (n + 1 =? 0)%nat with false by (symmetry; apply Nat.eqb_neq; lia).
      by replace (n + 1 + j)%nat with (n + S j)%nat by lia.
Qed.

Lemma ctr_loop_stream len : forall n nonce stream input j,
  (n < 16)%nat -> length input = len -> (j < len)%nat ->
  (ctr_loop E len (Z.of_nat n) nonce stream input).2 !!! j =
    xorb (input !!! j) (key_stream n nonce stream j).
Proof.
  induction len as [|len IH]; intros n nonce stream input j Hn Hl Hj; [lia|].
  destruct input as [|p input]; [discriminate|]. cbn [ctr_loop].
  change ((p :: input).[0]) with p. change (drop 1 (p :: input)) with input.
  assert (Z.land (Z.of_nat n + 1) 15 = Z.of_nat ((n + 1) mod 16)) as ->.
  { change 15 with (Z.ones 4). rewrite Z.land_ones by lia.
    rewrite Nat2Z.inj_mod, Nat2Z.inj_add. done. }
  destruct (decide (n = 0)%nat) as [->|Hn0].
  - change (Z.of_nat 0 =? 0) with true. cbv iota beta.
    change ((0 + 1) mod 16)%nat with 1%nat.
    destruct (ctr_loop E len _ _ _ _) as [[[n' nonce'] stream'] rest] eqn:He.
    destruct j as [|j]; [done|].
    change ((p :: input) !!! S j) with (input !!! j).
    rewrite key_stream_step by lia. cbn [Nat.eqb snd].
    rewrite <-IH by (simpl in Hl; lia). by rewrite He.
  - replace (Z.of_nat n =? 0) with false by (symmetry; apply Z.eqb_neq; lia).
    destruct (ctr_loop E len _ _ _ _) as [[[n' nonce'] stream'] rest] eqn:He.
    destruct j as [|j].
    + cbn [snd]. change ((?x :: ?l) !!! 0%nat) with x. unfold key_stream.
      replace (n =? 0)%nat with false by (symmetry; apply Nat.eqb_neq; lia).
      rewrite Nat.add_0_r. replace (n <? 16)%nat with true by (symmetry; apply Nat.ltb_lt; lia).
      by rewrite Nat2Z.id.
    + change ((p :: input) !!! S j) with (input !!! j).
      rewrite key_stream_step by lia.
      replace (n =? 0)%nat with false by (symmetry; apply Nat.eqb_neq; lia).
      rewrite <-IH by (try apply Nat.mod_upper_bound; simpl in Hl; lia).
      by rewrite He.
Qed.

Lemma ctr_involutive (HE : forall x, is_block x -> is_block (E x)) len :
  forall n nonce stream input,
  0 <= n <= 15 -> is_block nonce -> is_block stream ->
  length input = len -> Forall (fits 8) input ->
  let '(n', nonce', stream', out) := ctr_loop E len n nonce stream input in
  ctr_loop E len n nonce stream out = (n', nonce', stream', input).
Proof.
  induction len as [|len IH]; intros n nonce stream input Hn Hno Hst Hl Hb;
    cbn [ctr_loop].
  - destruct input; [done|discriminate].
  - destruct input as [|p input]; [discriminate|]. inversion Hb as [|? ? Hp Hb']; subst.
    change ((p :: input).[0]) with p. change (drop 1 (p :: input)) with input.
    set (s' := if n =? 0 then (E nonce, ctr_increment 16 nonce) else (stream, nonce)).
    assert (is_block s'.1 /\ is_block s'.2) as [Hs1 Hs2]
      by (unfold s'; destruct (n =? 0); cbn [fst snd];
          auto using ctr_increment_block).
    clearbody s'. destruct s' as [stream1 nonce1]. cbn [fst snd] in *.
    specialize (IH (Z.land (n + 1) 15) nonce1 stream1 input (next_off n Hn) Hs2 Hs1
                   ltac:(by simplify_eq/=) Hb').
    destruct (ctr_loop E len _ _ _ _) as [[[n' nonce'] stream'] out].
    change ((?x :: out).[0]) with x. change (drop 1 (?x :: out)) with out.
    rewrite IH. do 2 f_equal. apply xorb_cancel; [done|]. apply bytes_lookup, Hs1.
Qed.
End Counter.
