(* ===== verification/AesXts.v ===== *)
(** * AesXts: the XTS mode of aes.c (lines 534-549, 740-813, 1113-1276)

    The tweak sequence, whole blocks, and ciphertext stealing for lengths that
    are not a multiple of the block size. *)
From S2P Require Import Prelude.
From S2P Require Import AesTables.
From S2P Require Import AesCore.
From S2P Require Import AesProofs.
From S2P Require Import AesModes.
From S2P Require Import AesModesFacts.

Open Scope C.

Record xts_context := XtsContext { crypt : aes_context; tweak : aes_context }.

Definition mbedtls_aes_xts_init : xts_context := XtsContext mbedtls_aes_init mbedtls_aes_init.

(** The two halves of the key, and the size of each in bits. *)
Definition mbedtls_aes_xts_decode_keys (key : list Z) (keybits : Z)
  : option (list Z * Z * (list Z * Z)) :=
  let half_keybits := keybits / 2 in
  let half_keybytes := half_keybits / 8 in
  if (keybits =? 256) || (keybits =? 512)
  then Some (key, half_keybits, (drop (Z.to_nat half_keybytes) key, half_keybits))
  else None.

(** [setkey] is the schedule of the [crypt] context. *)
Definition xts_setkey
    (setkey : aes_static -> aes_context -> list Z -> Z -> Z * aes_static * aes_context)
    (s : aes_static) (ctx : xts_context) (key : list Z) (keybits : Z)
  : Z * aes_static * xts_context :=
  match mbedtls_aes_xts_decode_keys key keybits with
  | None => (MBEDTLS_ERR_AES_INVALID_KEY_LENGTH, s, ctx)
  | Some (key1, key1bits, (key2, key2bits)) =>
      let '(ret, s, tw) := mbedtls_aes_setkey_enc s (tweak ctx) key2 key2bits in
      let ctx := XtsContext (crypt ctx) tw in
      if negb (Z.eqb ret 0) then (ret, s, ctx)
      else
        let '(ret, s, cr) := setkey s (crypt ctx) key1 key1bits in
        (ret, s, XtsContext cr (tweak ctx))
  end.

Definition mbedtls_aes_xts_setkey_enc := xts_setkey mbedtls_aes_setkey_enc.
Definition mbedtls_aes_xts_setkey_dec := xts_setkey mbedtls_aes_setkey_dec.

(** ** The tweak *)

Definition GET_UINT64_LE (b : list Z) (i : Z) : Z :=
  Z.lor (Z.lor (Z.lor (Z.lor (Z.lor (Z.lor (Z.lor
    (u64 (Z.shiftl (b.[i + 7]) 56)) (u64 (Z.shiftl (b.[i + 6]) 48)))
    (u64 (Z.shiftl (b.[i + 5]) 40))) (u64 (Z.shiftl (b.[i + 4]) 32)))
    (u64 (Z.shiftl (b.[i + 3]) 24))) (u64 (Z.shiftl (b.[i + 2]) 16)))
    (u64 (Z.shiftl (b.[i + 1]) 8))) (b.[i]).

Definition PUT_UINT64_LE (n : Z) : list Z :=
  [u8 n; u8 (Z.shiftr n 8); u8 (Z.shiftr n 16); u8 (Z.shiftr n 24);
   u8 (Z.shiftr n 32); u8 (Z.shiftr n 40); u8 (Z.shiftr n 48); u8 (Z.shiftr n 56)].

Definition mbedtls_gf128mul_x_ble (x : list Z) : list Z :=
  let a := GET_UINT64_LE x 0 in
  let b := GET_UINT64_LE x 8 in
  let ra := Z.lxor (u64 (Z.shiftl a 1))
              (Z.shiftr 0x0087 (u64 (8 - u64 (Z.shiftl (Z.shiftr b 63) 3)))) in
  let rb := Z.lor (Z.shiftr a 63) (u64 (Z.shiftl b 1)) in
  PUT_UINT64_LE ra ++ PUT_UINT64_LE rb.

(** ** Encryption and decryption *)

(** [while( blocks-- )]; the result is [tweak], [prev_tweak], the rest of the
    input and the bytes written. *)
Fixpoint xts_loop (ecb : list Z -> list Z) (mode leftover : Z) (blocks : nat)
    (tweak prev_tweak input : list Z) : list Z * list Z * list Z * list Z :=
  match blocks with
  | O => (tweak, prev_tweak, input, [])
  | S blocks =>
      let '(prev_tweak, tweak) :=
        if negb (leftover =? 0) && (mode =? MBEDTLS_AES_DECRYPT) && (blocks =? 0)%nat
        then (tweak, mbedtls_gf128mul_x_ble tweak) else (prev_tweak, tweak) in
      let tmp := xor16 input tweak in
      let tmp := ecb tmp in
      let output := xor16 tmp tweak in
      let tweak := mbedtls_gf128mul_x_ble tweak in
      let '(tweak, prev_tweak, input, rest) :=
        xts_loop ecb mode leftover blocks tweak prev_tweak (drop 16 input) in
      (tweak, prev_tweak, input, output ++ rest)
  end.

(** The [if( leftover )] branch on what the loop wrote: the last block is
    replaced, and the first [leftover] bytes of it follow. *)
Definition xts_steal (ecb : list Z -> list Z) (mode leftover : Z)
    (tweak prev_tweak input output : list Z) : list Z :=
  let t := if mode =? MBEDTLS_AES_DECRYPT then prev_tweak else tweak in
  let n := Z.to_nat leftover in
  let before := take (length output - 16) output in
  let prev_output := drop (length output - 16) output in
  let tmp := xor16 (take n input ++ drop n prev_output) t in
  let tmp := ecb tmp in
  before ++ xor16 tmp t ++ take n prev_output.

(** The blocks and the stealing; [prev_tweak] starts uninitialised: [junk]. *)
Definition xts_data (ecb : list Z -> list Z) (mode leftover : Z) (blocks : nat)
    (tw junk input : list Z) : list Z :=
  let '(tw, prev_tweak, input, output) :=
    xts_loop ecb mode leftover blocks tw junk input in
  if negb (leftover =? 0)
  then xts_steal ecb mode leftover tw prev_tweak input output
  else output.

(** Return code and output. *)
Definition mbedtls_aes_crypt_xts (t : tables) (ctx : xts_context) (mode length : Z)
    (data_unit junk input : list Z) : Z * list Z :=
  let blocks := Z.to_nat (length / 16) in
  let leftover := length mod 16 in
  if length <? 16 then (MBEDTLS_ERR_AES_INVALID_INPUT_LENGTH, [])
  else if Z.shiftl 1 20 * 16 <? length then (MBEDTLS_ERR_AES_INVALID_INPUT_LENGTH, [])
  else
    let tw := mbedtls_aes_crypt_ecb t (tweak ctx) MBEDTLS_AES_ENCRYPT data_unit in
    (0, xts_data (mbedtls_aes_crypt_ecb t (crypt ctx) mode) mode leftover blocks
          tw junk input).

(** ** The tweak is multiplied by [x] in GF(2^128) *)

(** A byte string read as a little-endian number. *)
Definition le_value (l : list Z) : Z := foldr (fun b acc => b + 256 * acc) 0 l.

(** Multiplication by [x] modulo [x^128 + x^7 + x^2 + x + 1]. *)
Definition gf128_double (v : Z) : Z :=
  if Z.testbit v 127 then Z.lxor (2 * v mod 2 ^ 128) 0x87 else 2 * v mod 2 ^ 128.

Lemma PUT64_fits n : Forall (fits 8) (PUT_UINT64_LE n).
Proof. unfold PUT_UINT64_LE. repeat (apply Forall_cons_2; [by apply wrap_fits|]). apply Forall_nil_2. Qed.

Lemma PUT64_value n : le_value (PUT_UINT64_LE n) = n mod 2 ^ 64.
Proof.
  unfold PUT_UINT64_LE, wrap. cbn [le_value foldr]. rewrite !Z.shiftr_div_pow2 by lia.
  change (2 ^ 8) with 256. change (2 ^ 64) with 18446744073709551616.
  change (2 ^ 16) with 65536. change (2 ^ 24) with 16777216.
  change (2 ^ 32) with 4294967296. change (2 ^ 40) with 1099511627776.
  change (2 ^ 48) with 281474976710656. change (2 ^ 56) with 72057594037927936.
  Z.to_euclidean_division_equations. lia.
Qed.

Lemma gf128mul_block x : is_block (mbedtls_gf128mul_x_ble x).
Proof. split; [done|]. apply Forall_app. split; apply PUT64_fits. Qed.

(** Disjoint bits: the or is a sum. *)
Lemma lor_disjoint n b a : 0 <= n -> fits n a -> (2 ^ n | b) -> Z.lor b a = b + a.
Proof.
  intros Hn Ha [c ->]. rewrite <-Z.shiftl_mul_pow2 by done.
  assert (Z.land (Z.shiftl c n) a = 0) as H0.
  { bits_by i. destruct (decide (n <= i)).
    - rewrite (testbit_above n a i) by (done || lia). btauto.
    - rewrite (Z.testbit_neg_r c) by lia. done. }
  by rewrite <-Z.lxor_lor, Z.add_nocarry_lxor.
Qed.

(** The innermost or of the goal, its left operand being [c * 2 ^ n]. *)
Ltac lor_sum n c :=
  match goal with
  | |- context [Z.lor ?b ?a] =>
      lazymatch b with
      | context [Z.lor] => fail
      | _ => rewrite (lor_disjoint n b a);
             [|lia
              |unfold fits; let v := eval vm_compute in (2 ^ n) in change (2 ^ n) with v; lia
              |exists c; let v := eval vm_compute in (2 ^ n) in change (2 ^ n) with v; lia]
      end
  end.

Lemma GET64_value x i :
  Forall (fits 8) x -> 0 <= i ->
  GET_UINT64_LE x i = le_value [x.[i]; x.[i + 1]; x.[i + 2]; x.[i + 3];
                                x.[i + 4]; x.[i + 5]; x.[i + 6]; x.[i + 7]].
Proof.
  intros Hx Hi. unfold GET_UINT64_LE. cbn [le_value foldr].
  assert (Hb : forall j, 0 <= x.[j] < 256) by (intros; by apply bytes_lookup).
  pose proof (Hb i). pose proof (Hb (i + 1)). pose proof (Hb (i + 2)).
  pose proof (Hb (i + 3)). pose proof (Hb (i + 4)). pose proof (Hb (i + 5)).
  pose proof (Hb (i + 6)). pose proof (Hb (i + 7)). clear Hb.
  rewrite !Z.shiftl_mul_pow2 by lia.
  change (2 ^ 8) with 256. change (2 ^ 16) with 65536. change (2 ^ 24) with 16777216.
  change (2 ^ 32) with 4294967296. change (2 ^ 40) with 1099511627776.
  change (2 ^ 48) with 281474976710656. change (2 ^ 56) with 72057594037927936.
  rewrite !wrap_id by (unfold fits; change (2 ^ 64) with 18446744073709551616; lia).
  generalize dependent (x.[i]). generalize dependent (x.[i + 1]).
  generalize dependent (x.[i + 2]). generalize dependent (x.[i + 3]).
  generalize dependent (x.[i + 4]). generalize dependent (x.[i + 5]).
  generalize dependent (x.[i + 6]). generalize dependent (x.[i + 7]).
  intros b7 H7 b6 H6 b5 H5 b4 H4 b3 H3 b2 H2 b1 H1 b0 H0.
  lor_sum 56 b7. lor_sum 48 (b6 + 256 * b7). lor_sum 40 (b5 + 256 * (b6 + 256 * b7)).
  lor_sum 32 (b4 + 256 * (b5 + 256 * (b6 + 256 * b7))).
  lor_sum 24 (b3 + 256 * (b4 + 256 * (b5 + 256 * (b6 + 256 * b7)))).
  lor_sum 16 (b2 + 256 * (b3 + 256 * (b4 + 256 * (b5 + 256 * (b6 + 256 * b7))))).
  lor_sum 8 (b1 + 256 * (b2 + 256 * (b3 + 256 * (b4 + 256 * (b5 + 256 * (b6 + 256 * b7)))))).
  lia.
Qed.

Lemma le_value_app a b :
  le_value (a ++ b) = le_value a + 256 ^ Z.of_nat (length a) * le_value b.
Proof.
  induction a as [|x a IH]; simpl; [lia|].
  unfold le_value in *. cbn [foldr app]. rewrite IH.
  replace (Z.of_nat (S (length a))) with (Z.of_nat (length a) + 1) by lia.
  rewrite Z.pow_add_r by lia. lia.
Qed.

Lemma le_value_bound l : Forall (fits 8) l -> 0 <= le_value l < 256 ^ Z.of_nat (length l).
Proof.
  induction 1 as [|x l Hx Hl IH]; [unfold le_value; simpl; lia|].
  unfold fits in Hx. change (2 ^ 8) with 256 in Hx. cbn [length le_value foldr] in *.
  fold (le_value l) in *.
  replace (Z.of_nat (S (length l))) with (Z.of_nat (length l) + 1) by lia.
  rewrite Z.pow_add_r by lia. unfold le_value in *. lia.
Qed.

(** The two halves of the block. *)
Lemma block_halves x : is_block x ->
  fits 64 (GET_UINT64_LE x 0) /\ fits 64 (GET_UINT64_LE x 8) /\
  le_value x = GET_UINT64_LE x 0 + 2 ^ 64 * GET_UINT64_LE x 8.
Proof.
  intros [Hl Hb]. rewrite !GET64_value by (done || lia).
  assert (x = [x.[0]; x.[1]; x.[2]; x.[3]; x.[4]; x.[5]; x.[6]; x.[7]] ++
              [x.[8]; x.[9]; x.[10]; x.[11]; x.[12]; x.[13]; x.[14]; x.[15]]) as Hx.
  { clear Hb. do 16 (destruct x as [|? x]; [done|]). by destruct x. }
  assert (Forall (fits 8) [x.[0]; x.[1]; x.[2]; x.[3]; x.[4]; x.[5]; x.[6]; x.[7]] /\
    Forall (fits 8) [x.[8]; x.[9]; x.[10]; x.[11]; x.[12]; x.[13]; x.[14]; x.[15]]) as [H1 H2]
    by (apply Forall_app; rewrite <-Hx; done).
  pose proof (le_value_bound _ H1) as B1. pose proof (le_value_bound _ H2) as B2.
  split; [exact B1|]. split; [exact B2|]. rewrite Hx at 1. by rewrite le_value_app.
Qed.

(** Xor of a value that fits the low bits. *)
Lemma lxor_low n x y c : 0 <= n -> fits n x -> fits n c ->
  Z.lxor (x + 2 ^ n * y) c = Z.lxor x c + 2 ^ n * y.
Proof.
  intros Hn Hx Hc.
  rewrite (Z.add_comm x), (Z.add_comm (Z.lxor x c)).
  rewrite <-(lor_disjoint n _ x), <-(lor_disjoint n _ (Z.lxor x c));
    [|lia|by apply fits_lxor|exists y; lia|lia|done|exists y; lia].
  rewrite Z.mul_comm, <-Z.shiftl_mul_pow2 by done. bits_by i.
  destruct (decide (n <= i)).
  - rewrite (testbit_above n x i), (testbit_above n c i) by (done || lia). btauto.
  - rewrite (Z.testbit_neg_r y) by lia. btauto.
Qed.

Lemma gf128mul_value x : is_block x ->
  le_value (mbedtls_gf128mul_x_ble x) = gf128_double (le_value x).
Proof.
  intros Hx. destruct (block_halves x Hx) as (Ha & Hb & ->).
  unfold mbedtls_gf128mul_x_ble, gf128_double.
  set (a := GET_UINT64_LE x 0) in *. set (b := GET_UINT64_LE x 8) in *. clearbody a b.
  rewrite le_value_app, !PUT64_value. change (256 ^ Z.of_nat (length _)) with (2 ^ 64).
  unfold wrap.
  rewrite Z.testbit_eqb, !Z.shiftr_div_pow2, !Z.shiftl_mul_pow2
    by (lia || (apply Z.mod_pos_bound; lia)).
  rewrite (Z.lor_comm (a / 2 ^ 63)), (lor_disjoint 1).
  2: lia.
  2: { unfold fits in *. change (2 ^ 1) with 2. change (2 ^ 64) with 18446744073709551616 in *.
       change (2 ^ 63) with 9223372036854775808. Z.to_euclidean_division_equations. lia. }
  2: { exists (b mod 2 ^ 63). change (2 ^ 1) with 2. change (2 ^ 64) with 18446744073709551616.
       change (2 ^ 63) with 9223372036854775808. Z.to_euclidean_division_equations. lia. }
  assert (b / 2 ^ 63 = 0 \/ b / 2 ^ 63 = 1) as Hcase.
  { unfold fits in *. change (2 ^ 64) with 18446744073709551616 in *.
    change (2 ^ 63) with 9223372036854775808. Z.to_euclidean_division_equations. lia. }
  assert ((a + 2 ^ 64 * b) / 2 ^ 127 = b / 2 ^ 63) as ->.
  { unfold fits in *. change (2 ^ 127) with (18446744073709551616 * 9223372036854775808).
    change (2 ^ 64) with 18446744073709551616 in *. change (2 ^ 63) with 9223372036854775808.
    rewrite <-Z.div_div by lia. f_equal. Z.to_euclidean_division_equations. lia. }
  set (lo := (a * 2 ^ 1) mod 2 ^ 64).
  set (hi := (b * 2 ^ 1) mod 2 ^ 64 + a / 2 ^ 63).
  assert ((2 * (a + 2 ^ 64 * b)) mod 2 ^ 128 = lo + 2 ^ 64 * hi /\ fits 64 lo /\ fits 64 hi)
    as (-> & Hlo & Hhi).
  { unfold lo, hi, fits in *. change (2 ^ 128) with (18446744073709551616 * 18446744073709551616).
    change (2 ^ 64) with 18446744073709551616 in *. change (2 ^ 63) with 9223372036854775808.
    change (2 ^ 1) with 2. Z.to_euclidean_division_equations. lia. }
  destruct Hcase as [-> | ->].
  - change (135 / 2 ^ _) with 0. cbn [Z.eqb]. rewrite Z.lxor_0_r. cbv iota.
    by rewrite !Z.mod_small.
  - change (135 / 2 ^ _) with 135. change (1 mod 2 =? 1) with true. cbv iota.
    rewrite lxor_low by (done || lia). rewrite !Z.mod_small; [done|done|].
    apply fits_lxor; [lia|done|by unfold fits].
Qed.

(** ** Decryption inverts encryption, ciphertext stealing included *)

Definition xts_block (f : list Z -> list Z) (tw blk : list Z) : list Z :=
  xor16 (f (xor16 blk tw)) tw.

(** The tweak of block [k]. *)
Definition tweak_at (k : nat) (tw : list Z) : list Z := Nat.iter k mbedtls_gf128mul_x_ble tw.

(** [m] whole blocks, no stealing. *)
Fixpoint xts_full (f : list Z -> list Z) (m : nat) (tw input : list Z) : list Z :=
  match m with
  | O => []
  | S m => xts_block f tw input ++ xts_full f m (mbedtls_gf128mul_x_ble tw) (drop 16 input)
  end.

Lemma tweak_at_S k tw : tweak_at (S k) tw = tweak_at k (mbedtls_gf128mul_x_ble tw).
Proof. unfold tweak_at. by rewrite Nat.iter_succ_r. Qed.

Lemma tweak_at_block k tw : is_block tw -> is_block (tweak_at k tw).
Proof. intros. destruct k; [done|]. apply gf128mul_block. Qed.

Lemma xts_loop_plain f mode lo m : forall tw prev input,
  (lo = 0 \/ mode <> MBEDTLS_AES_DECRYPT) ->
  xts_loop f mode lo m tw prev input =
    (tweak_at m tw, prev, drop (16 * m) input, xts_full f m tw input).
Proof.
  induction m as [|m IH]; intros tw prev input Hm; [done|].
  cbn [xts_loop xts_full].
  replace (negb (lo =? 0) && (mode =? MBEDTLS_AES_DECRYPT) && (m =? 0)%nat) with false.
  - rewrite IH by done. rewrite tweak_at_S, drop_drop.
    by replace (16 + 16 * m)%nat with (16 * S m)%nat by lia.
  - symmetry. destruct Hm as [-> |Hm%Z.eqb_neq]; [done|]. by rewrite Hm, andb_false_r.
Qed.

Lemma xts_loop_dec f lo m : forall tw prev input, lo <> 0 ->
  xts_loop f MBEDTLS_AES_DECRYPT lo (S m) tw prev input =
    (tweak_at (2 + m) tw, tweak_at m tw, drop (16 * S m) input,
     xts_full f m tw input ++ xts_block f (tweak_at (1 + m) tw) (drop (16 * m) input)).
Proof.
  induction m as [|m IH]; intros tw prev input Hlo.
  - cbn [xts_loop xts_full]. rewrite (proj2 (Z.eqb_neq lo 0)) by done.
    cbn. by rewrite app_nil_r, drop_0.
  - replace (xts_loop f MBEDTLS_AES_DECRYPT lo (S (S m)) tw prev input) with
      (let '(tw', prev', input', rest) :=
         xts_loop f MBEDTLS_AES_DECRYPT lo (S m) (mbedtls_gf128mul_x_ble tw) prev
           (drop 16 input) in
       (tw', prev', input', xts_block f tw input ++ rest))
      by (cbn [xts_loop]; by rewrite andb_false_r).
    rewrite IH by done. cbn [xts_full]. rewrite <-!tweak_at_S, !drop_drop, app_assoc.
    by replace (16 + 16 * m)%nat with (16 * S m)%nat by lia;
      replace (16 + 16 * S m)%nat with (16 * S (S m))%nat by lia.
Qed.

Lemma xor16_take a b : xor16 (take 16 a) b = xor16 a b.
Proof. unfold xor16. by rewrite take_take. Qed.

Lemma xts_block_take f tw a : xts_block f tw (take 16 a) = xts_block f tw a.
Proof. unfold xts_block. by rewrite xor16_take. Qed.

Section Xts.
Context (E D : list Z -> list Z) `{HBC : BlockCipher E D}.

Lemma xts_block_block tw x : (16 <= length x)%nat -> is_block tw ->
  is_block (xts_block E tw x).
Proof.
  intros Hx Ht. apply xor16_block; [|rewrite (proj1 Ht); lia].
  rewrite (proj1 (E_block (xor16 x tw) ltac:(apply xor16_block; rewrite ?(proj1 Ht); lia))).
  lia.
Qed.

Lemma xts_block_inverse tw x : is_block x -> is_block tw ->
  xts_block D tw (xts_block E tw x) = x.
Proof.
  intros Hx Ht. unfold xts_block.
  assert (is_block (xor16 x tw)) as Hxt
    by (apply xor16_block; rewrite ?(proj1 Ht), ?(proj1 Hx); lia).
  rewrite xor16_cancel by (done || by apply E_block).
  rewrite (D_E (E := E) (D := D) _ Hxt). by apply xor16_cancel.
Qed.

Lemma xts_full_props m : forall tw input,
  is_block tw -> (16 * m <= length input)%nat -> Forall (fits 8) input ->
  length (xts_full E m tw input) = (16 * m)%nat /\
  Forall (fits 8) (xts_full E m tw input) /\
  forall rest, xts_full D m tw (xts_full E m tw input ++ rest) = take (16 * m) input.
Proof.
  induction m as [|m IH]; intros tw input Ht Hl Hb; [done|]. cbn [xts_full].
  assert (HE := xts_block_block tw input ltac:(lia) Ht).
  destruct (IH (mbedtls_gf128mul_x_ble tw) (drop 16 input)) as (IH1 & IH2 & IH3);
    [apply gf128mul_block|rewrite length_drop; lia|by apply Forall_drop|].
  split; [rewrite length_app, IH1, (proj1 HE); lia|].
  split; [apply Forall_app; split; [apply HE|done]|].
  intros rest. rewrite <-app_assoc, drop_app_length' by (by rewrite (proj1 HE)).
  rewrite IH3, <-xts_block_take, take_app_length' by (by rewrite (proj1 HE)).
  rewrite <-(xts_block_take E), xts_block_inverse.
  - replace (16 * S m)%nat with (16 + 16 * m)%nat by lia. by rewrite take_take_drop.
  - split; [rewrite length_take; lia|by apply Forall_take].
  - done.
Qed.

Lemma xts_steal_split f mode lo tw prev input A P :
  length P = 16%nat ->
  let t := if mode =? MBEDTLS_AES_DECRYPT then prev else tw in
  xts_steal f mode lo tw prev input (A ++ P) =
    A ++ xts_block f t (take (Z.to_nat lo) input ++ drop (Z.to_nat lo) P)
      ++ take (Z.to_nat lo) P.
Proof.
  intros HP t. unfold xts_steal. rewrite length_app, HP, Nat.add_sub.
  by rewrite take_app_length, drop_app_length.
Qed.

Lemma xts_full_snoc f m : forall tw input,
  xts_full f (S m) tw input =
  xts_full f m tw input ++ xts_block f (tweak_at m tw) (drop (16 * m) input).
Proof.
  induction m as [|m IH]; intros tw input.
  - cbn [xts_full]. by rewrite app_nil_r, drop_0.
  - change (xts_full f (S (S m)) tw input) with
      (xts_block f tw input ++ xts_full f (S m) (mbedtls_gf128mul_x_ble tw) (drop 16 input)).
    rewrite IH. cbn [xts_full]. rewrite <-tweak_at_S, drop_drop, app_assoc.
    by replace (16 + 16 * m)%nat with (16 * S m)%nat by lia.
Qed.

Lemma xts_dec_enc_whole m tw junk input :
  is_block tw -> length input = (16 * S m)%nat -> Forall (fits 8) input ->
  xts_data D MBEDTLS_AES_DECRYPT 0 (S m) tw junk
    (xts_data E MBEDTLS_AES_ENCRYPT 0 (S m) tw junk input) = input.
Proof.
  intros Ht Hl Hb. unfold xts_data. rewrite !xts_loop_plain by (by left).
  cbn [Z.eqb negb]. destruct (xts_full_props (S m) tw input Ht ltac:(lia) Hb) as (_ & _ & H).
  specialize (H []). rewrite app_nil_r in H. rewrite H. by rewrite take_ge by lia.
Qed.

(** The shape of the output when [r] bytes are left over. *)
Lemma xts_enc_steal m r tw junk input :
  is_block tw -> (0 < r < 16)%nat -> length input = (16 * S m + r)%nat ->
  Forall (fits 8) input ->
  let C := xts_block E (tweak_at m tw) (drop (16 * m) input) in
  xts_data E MBEDTLS_AES_ENCRYPT (Z.of_nat r) (S m) tw junk input =
    xts_full E m tw input ++
    xts_block E (tweak_at (S m) tw) (drop (16 * S m) input ++ drop r C) ++ take r C.
Proof.
  intros Ht Hr Hl Hb C. unfold xts_data. rewrite xts_loop_plain by (by right).
  replace (Z.of_nat r =? 0) with false by (symmetry; apply Z.eqb_neq; lia). cbn [negb].
  rewrite xts_full_snoc. fold C.
  assert (is_block C) as [HC _]
    by (apply xts_block_block; [rewrite length_drop; lia|by apply tweak_at_block]).
  rewrite (xts_steal_split _ _ _ _ _ _ _ _ HC). rewrite Nat2Z.id.
  rewrite (take_ge (drop (16 * S m) input)) by (rewrite length_drop; lia). done.
Qed.

Lemma xts_dec_enc_steal m r tw junk input :
  is_block tw -> (0 < r < 16)%nat -> length input = (16 * S m + r)%nat ->
  Forall (fits 8) input ->
  xts_data D MBEDTLS_AES_DECRYPT (Z.of_nat r) (S m) tw junk
    (xts_data E MBEDTLS_AES_ENCRYPT (Z.of_nat r) (S m) tw junk input) = input.
Proof.
  intros Ht Hr Hl Hb. rewrite (xts_enc_steal m r) by done.
  set (P := drop (16 * S m) input). set (B := drop (16 * m) input).
  set (C := xts_block E (tweak_at m tw) B).
  assert (is_block C) as HC
    by (apply xts_block_block; [unfold B; rewrite length_drop; lia|by apply tweak_at_block]).
  assert (length P = r) as HP by (unfold P; rewrite length_drop; lia).
  assert (is_block (P ++ drop r C)) as Hx.
  { split; [rewrite length_app, length_drop, (proj1 HC); lia|].
    apply Forall_app. split; [by apply Forall_drop|apply Forall_drop, HC]. }
  assert (HCC := xts_block_block _ _ ltac:(rewrite (proj1 Hx); lia)
                   (tweak_at_block (S m) tw Ht)).
  set (CC := xts_block E (tweak_at (S m) tw) (P ++ drop r C)) in *.
  destruct (xts_full_props m tw input Ht ltac:(lia) Hb) as (HF & _ & Hinv).
  unfold xts_data. rewrite xts_loop_dec by lia.
  replace (Z.of_nat r =? 0) with false by (symmetry; apply Z.eqb_neq; lia). cbn [negb].
  rewrite Hinv, (drop_app_length' (xts_full E m tw input) _ (16 * m)) by done.
  assert (xts_block D (tweak_at (1 + m) tw) (CC ++ take r C) = P ++ drop r C) as ->.
  { rewrite <-xts_block_take, take_app_length' by (by rewrite (proj1 HCC)).
    apply xts_block_inverse; [done|by apply tweak_at_block]. }
  rewrite (xts_steal_split _ _ _ _ _ _ _ _ (proj1 Hx)).
  change (MBEDTLS_AES_DECRYPT =? MBEDTLS_AES_DECRYPT) with true. cbv iota.
  rewrite Nat2Z.id, (take_app_length' P), (drop_app_length' P) by done.
  assert (drop (16 * S m) (xts_full E m tw input ++ CC ++ take r C) = take r C) as ->.
  { rewrite app_assoc. apply drop_app_length'. rewrite length_app, HF, (proj1 HCC). lia. }
  rewrite take_take, Nat.min_id, take_drop.
  assert (C = xts_block E (tweak_at m tw) (take 16 B)) as ->
    by (unfold C; by rewrite xts_block_take).
  rewrite xts_block_inverse; [|split|by apply tweak_at_block].
  - rewrite app_assoc. unfold B, P. rewrite take_take_drop.
    replace (16 * m + 16)%nat with (16 * S m)%nat by lia. apply take_drop.
  - unfold B. rewrite length_take, length_drop. lia.
  - by apply Forall_take, Forall_drop.
Qed.
End Xts.
