(* ===== verification/AesTop.v ===== *)
(** * AesTop: the exported functions of aes.c, and the demo of aes_test/main.c

    The theorems of the other files stated for contexts that the two key
    schedules have set up, from whatever the static state and the context
    held before. *)
From S2P Require Import Prelude.
From S2P Require Import AesTables.
From S2P Require Import AesCore.
From S2P Require Import AesSpec.
From S2P Require Import AesProofs.
From S2P Require Import AesKeys.
From S2P Require Import AesInverse.
From S2P Require Import AesModes.
From S2P Require Import AesModesFacts.
From S2P Require Import AesXts.

Open Scope C.

#[local] Opaque rom_tables Fips.KeyExpansion Fips.aes_encrypt.

(** ** [my_test] (aes.c 1785-1798), called by [main] *)

(** [char buf[64]="hello"] *)
Definition my_test_buf : list Z := [104; 101; 108; 108; 111] ++ replicate 59 0.

(** The nine bytes of the literal [key] points to. *)
Definition my_test_key : list Z := [49; 50; 51; 52; 53; 54; 55; 56; 0].

(** What [printf("%s")] prints of a buffer. *)
Fixpoint c_string (b : list Z) : list Z :=
  match b with
  | [] => []
  | c :: b => if c =? 0 then [] else c :: c_string b
  end.

(** [mbedtls_aes_crypt_ecb( &ctx, mode, buf, buf )] *)
Definition crypt_in_place (t : tables) (ctx : aes_context) (mode : Z) (b : list Z) : list Z :=
  mbedtls_aes_crypt_ecb t ctx mode (take 16 b) ++ drop 16 b.

(** The two strings printed and the final buffer. [after] is the memory that
    follows the literal: the call asks for 128 key bits and the literal has
    nine bytes. [ctx] is not initialised. *)
Definition my_test (s : aes_static) (ctx : aes_context) (after : list Z)
  : list Z * list Z * list Z :=
  let key := my_test_key ++ after in
  let b := my_test_buf in
  let '(_, s, ctx) := mbedtls_aes_setkey_enc s ctx key 128 in
  let b := crypt_in_place (st_tables s) ctx 1 b in
  let out1 := c_string b in
  let '(_, s, ctx) := mbedtls_aes_setkey_dec s ctx key 128 in
  let b := crypt_in_place (st_tables s) ctx 0 b in
  (out1, c_string b, b).

(** ** The block cipher of a key *)

Lemma ecb_block_cipher Nk key ce cd :
  valid_Nk Nk -> Forall (fits 8) key -> enc_ctx Nk key ce -> dec_ctx Nk key cd ->
  BlockCipher (mbedtls_aes_crypt_ecb rom_tables ce MBEDTLS_AES_ENCRYPT)
              (mbedtls_aes_crypt_ecb rom_tables cd MBEDTLS_AES_DECRYPT).
Proof.
  intros HNk Hkey He Hd. unfold mbedtls_aes_crypt_ecb.
  change (MBEDTLS_AES_ENCRYPT =? MBEDTLS_AES_ENCRYPT) with true.
  change (MBEDTLS_AES_DECRYPT =? MBEDTLS_AES_ENCRYPT) with false. cbv iota.
  split; intros x Hx; rewrite (internal_encrypt_refines Nk key) by assumption.
  - by apply aes_encrypt_block.
  - by apply internal_decrypt_encrypt.
Qed.

Lemma ecb_encrypt_refines Nk key c input :
  valid_Nk Nk -> Forall (fits 8) key -> enc_ctx Nk key c -> is_block input ->
  mbedtls_aes_crypt_ecb rom_tables c MBEDTLS_AES_ENCRYPT input = Fips.aes_encrypt Nk key input.
Proof. apply internal_encrypt_refines. Qed.

(** Both schedules run, in either order. *)
Lemma setkey_pair Nk s c1 c2 key :
  valid_Nk Nk -> static_ok s -> ctx_ok c1 -> ctx_ok c2 -> is_key Nk key ->
  exists ce cd,
    mbedtls_aes_setkey_enc s c1 key (32 * Z.of_nat Nk) = (0, AesStatic rom_tables true, ce) /\
    mbedtls_aes_setkey_dec (AesStatic rom_tables true) c2 key (32 * Z.of_nat Nk) =
      (0, AesStatic rom_tables true, cd) /\
    enc_ctx Nk key ce /\ dec_ctx Nk key cd.
Proof.
  intros HNk Hs H1 H2 Hk.
  destruct (setkey_enc_ctx Nk s c1 key) as (ce & He & Hce); [assumption..|].
  destruct (setkey_dec_ctx Nk (AesStatic rom_tables true) c2 key) as (cd & Hd & Hcd);
    [assumption|reflexivity|assumption..|].
  exists ce, cd. exact (conj He (conj Hd (conj Hce Hcd))).
Qed.

(** What a caller has before it sets a key. *)
Record caller (Nk : nat) (s : aes_static) (c1 c2 : aes_context) (key : list Z) : Prop :=
  Caller {
    cl_Nk : valid_Nk Nk;
    cl_static : static_ok s;
    cl_enc : ctx_ok c1;
    cl_dec : ctx_ok c2;
    cl_key : is_key Nk key
  }.

(** A schedule for each direction, and the cipher they give. *)
Definition keyed (Nk : nat) (s : aes_static) (c1 c2 : aes_context) (key : list Z)
    (P : tables -> aes_context -> aes_context -> Prop) : Prop :=
  let '(r1, s1, ce) := mbedtls_aes_setkey_enc s c1 key (32 * Z.of_nat Nk) in
  let '(r2, s2, cd) := mbedtls_aes_setkey_dec s1 c2 key (32 * Z.of_nat Nk) in
  r1 = 0 /\ r2 = 0 /\ P (st_tables s2) ce cd.

Lemma keyed_intro Nk s c1 c2 key (P : tables -> aes_context -> aes_context -> Prop) :
  caller Nk s c1 c2 key ->
  (forall ce cd, enc_ctx Nk key ce ->
     BlockCipher (mbedtls_aes_crypt_ecb rom_tables ce MBEDTLS_AES_ENCRYPT)
                 (mbedtls_aes_crypt_ecb rom_tables cd MBEDTLS_AES_DECRYPT) ->
     P rom_tables ce cd) ->
  keyed Nk s c1 c2 key P.
Proof.
  intros [HNk Hs H1 H2 Hk] HP. unfold keyed.
  destruct (setkey_pair Nk s c1 c2 key) as (ce & cd & -> & -> & Hce & Hcd); [assumption..|].
  refine (conj eq_refl (conj eq_refl _)). apply HP; [assumption|].
  apply (ecb_block_cipher Nk key); [assumption|apply Hk|assumption..].
Qed.

(** Inputs for the witnesses: the zero key and block, and a fresh context. *)
Definition key0 : list Z := replicate 64 0.
Definition block0 : list Z := replicate 16 0.
Definition msg0 : list Z := replicate 32 7.

Lemma key0_ok : Forall (fits 8) key0.
Proof. by apply (bool_decide_unpack _). Qed.
Lemma block0_ok : is_block block0.
Proof. by apply (bool_decide_unpack _). Qed.
Lemma msg0_ok : Forall (fits 8) msg0.
Proof. by apply (bool_decide_unpack _). Qed.
Lemma caller0 : caller 4 aes_static_init mbedtls_aes_init mbedtls_aes_init key0.
Proof. constructor; [by left|done|done|done|]. split; [simpl; lia|apply key0_ok]. Qed.

(** ** Theorems *)

(** C1: after [mbedtls_aes_setkey_enc] with a 128, 192 or 256-bit key, whatever
    the context and the tables held before, encrypting a block gives the
    FIPS-197 cipher of that block. *)
Theorem aes_encrypt_is_FIPS197 Nk s ctx key input :
  valid_Nk Nk -> static_ok s -> ctx_ok ctx -> is_key Nk key -> is_block input ->
  let '(ret, s', c) := mbedtls_aes_setkey_enc s ctx key (32 * Z.of_nat Nk) in
  ret = 0 /\
  mbedtls_aes_crypt_ecb (st_tables s') c MBEDTLS_AES_ENCRYPT input =
    Fips.aes_encrypt Nk key input.
Proof.
  intros HNk Hs Hc Hk Hi.
  destruct (setkey_enc_ctx Nk s ctx key) as (c & -> & Hec); [assumption..|].
  split; [reflexivity|].
  apply (ecb_encrypt_refines Nk key); [assumption|apply Hk|assumption..].
Qed.

Lemma aes_encrypt_is_FIPS197_witness :
  let '(ret, s', c) :=
    mbedtls_aes_setkey_enc aes_static_init mbedtls_aes_init key0 (32 * Z.of_nat 8) in
  ret = 0 /\
  mbedtls_aes_crypt_ecb (st_tables s') c MBEDTLS_AES_ENCRYPT block0 =
    Fips.aes_encrypt 8 key0 block0.
Proof.
  refine (aes_encrypt_is_FIPS197 8 aes_static_init mbedtls_aes_init key0 block0
            (or_intror (or_intror eq_refl)) eq_refl eq_refl _ block0_ok).
  split; [simpl; lia|apply key0_ok].
Defined.

(** C2: decryption with the same key gives every block back. *)
Theorem aes_decrypt_encrypt Nk s c1 c2 key input :
  caller Nk s c1 c2 key -> is_block input ->
  keyed Nk s c1 c2 key (fun t ce cd =>
    mbedtls_aes_crypt_ecb t cd MBEDTLS_AES_DECRYPT
      (mbedtls_aes_crypt_ecb t ce MBEDTLS_AES_ENCRYPT input) = input).
Proof. intros Hc Hi. apply keyed_intro; [done|]. intros ce cd _ HBC. by apply D_E. Qed.

Lemma aes_decrypt_encrypt_witness :
  keyed 4 aes_static_init mbedtls_aes_init mbedtls_aes_init key0 (fun t ce cd =>
    mbedtls_aes_crypt_ecb t cd MBEDTLS_AES_DECRYPT
      (mbedtls_aes_crypt_ecb t ce MBEDTLS_AES_ENCRYPT block0) = block0).
Proof. exact (aes_decrypt_encrypt 4 _ _ _ key0 block0 caller0 block0_ok). Defined.

(** C33: CBC decryption from the same IV gives the message back, and both
    directions leave the same IV for the next call; a length that is not a
    multiple of 16 is refused with nothing changed. *)
Theorem aes_cbc_roundtrip Nk s c1 c2 key iv input length :
  caller Nk s c1 c2 key -> is_block iv ->
  Forall (fits 8) input -> Z.of_nat (List.length input) = length ->
  keyed Nk s c1 c2 key (fun t ce cd =>
    let '(ret, iv', out) := mbedtls_aes_crypt_cbc t ce MBEDTLS_AES_ENCRYPT length iv input in
    if length mod 16 =? 0
    then ret = 0 /\ List.length out = List.length input /\
         mbedtls_aes_crypt_cbc t cd MBEDTLS_AES_DECRYPT length iv out = (0, iv', input)
    else (ret, iv', out) = (MBEDTLS_ERR_AES_INVALID_INPUT_LENGTH, iv, [])).
Proof.
  intros Hc Hiv Hb <-. apply keyed_intro; [done|]. intros ce cd _ HBC.
  unfold mbedtls_aes_crypt_cbc.
  destruct (Z.eqb_spec (Z.of_nat (List.length input) mod 16) 0) as [Hm|]; cbn [negb]; [|done].
  change (MBEDTLS_AES_ENCRYPT =? MBEDTLS_AES_DECRYPT) with false.
  change (MBEDTLS_AES_DECRYPT =? MBEDTLS_AES_DECRYPT) with true. cbv iota.
  set (n := Z.to_nat _).
  assert (List.length input = (16 * n)%nat) as Hl.
  { unfold n. apply Z.div_exact in Hm; [|lia]. lia. }
  destruct (cbc_enc_loop_bytes _ _ (HBC := HBC) n iv input) as (_ & Hlo & _); [done..|].
  pose proof (cbc_dec_enc _ _ (HBC := HBC) n iv input Hiv Hl Hb) as Hde.
  destruct (cbc_enc_loop _ n iv input) as [iv' out]. cbn [fst snd] in *.
  rewrite Hde. split; [done|]. split; [congruence|done].
Qed.

Lemma aes_cbc_roundtrip_witness :
  keyed 4 aes_static_init mbedtls_aes_init mbedtls_aes_init key0 (fun t ce cd =>
    let '(ret, iv', out) := mbedtls_aes_crypt_cbc t ce MBEDTLS_AES_ENCRYPT 32 block0 msg0 in
    if 32 mod 16 =? 0
    then ret = 0 /\ List.length out = List.length msg0 /\
         mbedtls_aes_crypt_cbc t cd MBEDTLS_AES_DECRYPT 32 block0 out = (0, iv', msg0)
    else (ret, iv', out) = (MBEDTLS_ERR_AES_INVALID_INPUT_LENGTH, block0, [])).
Proof.
  exact (aes_cbc_roundtrip 4 _ _ _ key0 block0 msg0 32 caller0 block0_ok msg0_ok eq_refl).
Defined.

(** C32: CFB128 decryption from the same offset and IV inverts encryption for a
    message of any length, and leaves the same offset and IV; an offset past
    the block is refused. *)
Theorem aes_cfb128_roundtrip Nk s c1 c2 key iv_off iv input :
  caller Nk s c1 c2 key -> 0 <= iv_off -> is_block iv -> Forall (fits 8) input ->
  keyed Nk s c1 c2 key (fun t ce _ =>
    let len := Z.of_nat (length input) in
    let '(ret, off', iv', out) :=
      mbedtls_aes_crypt_cfb128 t ce MBEDTLS_AES_ENCRYPT len iv_off iv input in
    if iv_off <=? 15
    then ret = 0 /\ mbedtls_aes_crypt_cfb128 t ce MBEDTLS_AES_DECRYPT len iv_off iv out =
                      (0, off', iv', input)
    else (ret, off', iv', out) = (MBEDTLS_ERR_AES_BAD_INPUT_DATA, iv_off, iv, [])).
Proof.
  intros Hc Ho Hiv Hb. apply keyed_intro; [done|]. intros ce cd _ HBC.
  unfold mbedtls_aes_crypt_cfb128. rewrite Nat2Z.id.
  destruct (Z.leb_spec iv_off 15), (Z.ltb_spec 15 iv_off); try lia; [|done].
  pose proof (cfb128_dec_enc _ _ (HBC := HBC) _ iv_off iv input ltac:(lia) Hiv eq_refl Hb) as H'.
  change (MBEDTLS_AES_ENCRYPT =? MBEDTLS_AES_DECRYPT) with false.
  change (MBEDTLS_AES_DECRYPT =? MBEDTLS_AES_DECRYPT) with true. cbv iota zeta.
  destruct (cfb128_enc_loop _ _ iv_off iv input) as [[off' iv'] out].
  by rewrite H'.
Qed.

Lemma aes_cfb128_roundtrip_witness :
  keyed 4 aes_static_init mbedtls_aes_init mbedtls_aes_init key0 (fun t ce _ =>
    let len := Z.of_nat (length msg0) in
    let '(ret, off', iv', out) :=
      mbedtls_aes_crypt_cfb128 t ce MBEDTLS_AES_ENCRYPT len 3 block0 msg0 in
    if 3 <=? 15
    then ret = 0 /\ mbedtls_aes_crypt_cfb128 t ce MBEDTLS_AES_DECRYPT len 3 block0 out =
                      (0, off', iv', msg0)
    else (ret, off', iv', out) = (MBEDTLS_ERR_AES_BAD_INPUT_DATA, 3, block0, [])).
Proof.
  refine (aes_cfb128_roundtrip 4 _ _ _ key0 3 block0 msg0 caller0 _ block0_ok msg0_ok). lia.
Defined.

(** CFB8 decryption inverts encryption byte by byte and leaves the same
    shift register; OFB applied twice from the same state gives the message
    back with the same final state. *)
Theorem aes_cfb8_ofb_roundtrip Nk s c1 c2 key n iv input :
  caller Nk s c1 c2 key -> 0 <= n <= 15 -> is_block iv -> Forall (fits 8) input ->
  keyed Nk s c1 c2 key (fun t ce _ =>
    let len := Z.of_nat (length input) in
    (let '(ret, iv', out) := mbedtls_aes_crypt_cfb8 t ce MBEDTLS_AES_ENCRYPT len iv input in
     ret = 0 /\
     mbedtls_aes_crypt_cfb8 t ce MBEDTLS_AES_DECRYPT len iv out = (0, iv', input)) /\
    (let '(ret, n', iv', out) := mbedtls_aes_crypt_ofb t ce len n iv input in
     ret = 0 /\ mbedtls_aes_crypt_ofb t ce len n iv out = (0, n', iv', input))).
Proof.
  intros Hc Hn Hiv Hb. apply keyed_intro; [done|]. intros ce cd _ HBC.
  unfold mbedtls_aes_crypt_cfb8, mbedtls_aes_crypt_ofb. rewrite Nat2Z.id. cbv zeta. split.
  - pose proof (cfb8_dec_enc _ _ (HBC := HBC) _ iv input Hiv eq_refl Hb) as H'.
    destruct (cfb8_loop _ MBEDTLS_AES_ENCRYPT _ iv input) as [iv' out].
    cbn [fst snd] in H'. by rewrite H'.
  - replace (15 <? n) with false by (symmetry; apply Z.ltb_ge; lia).
    pose proof (ofb_involutive _ _ (HBC := HBC) _ n iv input Hn Hiv eq_refl Hb) as H'.
    destruct (ofb_loop _ _ n iv input) as [[n' iv'] out]. by rewrite H'.
Qed.

Lemma aes_cfb8_ofb_roundtrip_witness :
  keyed 4 aes_static_init mbedtls_aes_init mbedtls_aes_init key0 (fun t ce _ =>
    let len := Z.of_nat (length msg0) in
    (let '(ret, iv', out) := mbedtls_aes_crypt_cfb8 t ce MBEDTLS_AES_ENCRYPT len block0 msg0 in
     ret = 0 /\
     mbedtls_aes_crypt_cfb8 t ce MBEDTLS_AES_DECRYPT len block0 out = (0, iv', msg0)) /\
    (let '(ret, n', iv', out) := mbedtls_aes_crypt_ofb t ce len 5 block0 msg0 in
     ret = 0 /\ mbedtls_aes_crypt_ofb t ce len 5 block0 out = (0, n', iv', msg0))).
Proof.
  refine (aes_cfb8_ofb_roundtrip 4 _ _ _ key0 5 block0 msg0 caller0 _ block0_ok msg0_ok). lia.
Defined.

(** C31: in counter mode from a block boundary, byte [j] of the output is byte
    [j] of the input xored with byte [j mod 16] of the FIPS-197 encryption of
    the nonce plus [j / 16], the nonce being a 128-bit big-endian number; and
    applying the mode again from the same state undoes it. *)
Theorem aes_ctr_keystream Nk s c1 c2 key nonce stream input :
  caller Nk s c1 c2 key -> is_block nonce -> is_block stream -> Forall (fits 8) input ->
  keyed Nk s c1 c2 key (fun t ce _ =>
    let len := Z.of_nat (length input) in
    let '(ret, n', nonce', stream', out) :=
      mbedtls_aes_crypt_ctr t ce len 0 nonce stream input in
    ret = 0 /\
    (forall j, (j < length input)%nat -> exists block,
       is_block block /\
       be_value block = (be_value nonce + Z.of_nat (j / 16)) mod 2 ^ 128 /\
       out !!! j = Z.lxor (input !!! j) (Fips.aes_encrypt Nk key block !!! (j mod 16)%nat)) /\
    mbedtls_aes_crypt_ctr t ce len 0 nonce stream out = (0, n', nonce', stream', input)).
Proof.
  intros Hc Hno Hst Hb. assert (Hk := cl_key _ _ _ _ _ Hc). assert (HNk := cl_Nk _ _ _ _ _ Hc).
  apply keyed_intro; [done|]. intros ce cd Hce HBC.
  unfold mbedtls_aes_crypt_ctr. rewrite Nat2Z.id. cbv zeta.
  change (15 <? 0) with false. cbv iota.
  set (E := mbedtls_aes_crypt_ecb rom_tables ce MBEDTLS_AES_ENCRYPT) in *.
  pose proof (ctr_loop_stream E (length input) 0 nonce stream input) as Hks.
  pose proof (ctr_involutive E (@E_block _ _ HBC) (length input) 0 nonce stream input
                ltac:(lia) Hno Hst eq_refl Hb) as Hinv.
  change (Z.of_nat 0) with 0 in Hks.
  destruct (ctr_loop E (length input) 0 nonce stream input) as [[[n' nonce'] stream'] out].
  rewrite Hinv. split; [done|]. split; [|done].
  intros j Hj. exists (counter_block (j / 16) nonce).
  destruct (counter_block_value (j / 16) nonce Hno) as [Hcb Hv].
  split; [done|]. split; [done|].
  cbn [snd] in Hks. rewrite (Hks j ltac:(lia) eq_refl Hj). unfold key_stream. cbn [Nat.eqb].
  rewrite xorb_lxor; [|by apply byte_lookup|apply byte_lookup, E_block, Hcb].
  unfold E. rewrite (ecb_encrypt_refines Nk key); [done|assumption|apply Hk|assumption..].
Qed.

Lemma aes_ctr_keystream_witness :
  keyed 4 aes_static_init mbedtls_aes_init mbedtls_aes_init key0 (fun t ce _ =>
    let len := Z.of_nat (length msg0) in
    let '(ret, n', nonce', stream', out) :=
      mbedtls_aes_crypt_ctr t ce len 0 block0 block0 msg0 in
    ret = 0 /\
    (forall j, (j < length msg0)%nat -> exists block,
       is_block block /\
       be_value block = (be_value block0 + Z.of_nat (j / 16)) mod 2 ^ 128 /\
       out !!! j = Z.lxor (msg0 !!! j) (Fips.aes_encrypt 4 key0 block !!! (j mod 16)%nat)) /\
    mbedtls_aes_crypt_ctr t ce len 0 block0 block0 out = (0, n', nonce', stream', msg0)).
Proof.
  exact (aes_ctr_keystream 4 _ _ _ key0 block0 block0 msg0 caller0 block0_ok block0_ok msg0_ok).
Defined.

(** XTS. The tweak of the next block is the previous one multiplied by
    [x] in GF(2^128), in the little-endian byte order of the standard. *)
Theorem aes_xts_tweak x : is_block x ->
  is_block (mbedtls_gf128mul_x_ble x) /\
  le_value (mbedtls_gf128mul_x_ble x) = gf128_double (le_value x).
Proof. intros. split; [apply gf128mul_block|by apply gf128mul_value]. Qed.

Lemma aes_xts_tweak_witness :
  is_block (mbedtls_gf128mul_x_ble (replicate 16 255)) /\
  le_value (mbedtls_gf128mul_x_ble (replicate 16 255)) =
    gf128_double (le_value (replicate 16 255)).
Proof. apply (aes_xts_tweak (replicate 16 255)). by apply (bool_decide_unpack _). Defined.

(** Both XTS schedules, for a key of two halves of [4 * Nk] bytes. *)
Lemma xts_setkey_pair Nk s c1 c2 key :
  (Nk = 4 \/ Nk = 8)%nat -> static_ok s -> length key = (8 * Nk)%nat ->
  Forall (fits 8) key -> ctx_ok (crypt c1) -> ctx_ok (tweak c1) ->
  ctx_ok (crypt c2) -> ctx_ok (tweak c2) ->
  exists ce cd,
    mbedtls_aes_xts_setkey_enc s c1 key (64 * Z.of_nat Nk) =
      (0, AesStatic rom_tables true, ce) /\
    mbedtls_aes_xts_setkey_dec (AesStatic rom_tables true) c2 key (64 * Z.of_nat Nk) =
      (0, AesStatic rom_tables true, cd) /\
    enc_ctx Nk key (crypt ce) /\ dec_ctx Nk key (crypt cd) /\
    enc_ctx Nk (drop (4 * Nk) key) (tweak ce) /\ enc_ctx Nk (drop (4 * Nk) key) (tweak cd).
Proof.
  intros HNk Hs Hl Hb H1 H2 H3 H4.
  assert (valid_Nk Nk) as HNk' by (destruct HNk as [-> | ->]; [left|right; right]; done).
  assert (is_key Nk key) as Hk1 by (split; [lia|done]).
  assert (is_key Nk (drop (4 * Nk) key)) as Hk2
    by (split; [rewrite length_drop; lia|by apply Forall_drop]).
  assert (mbedtls_aes_xts_decode_keys key (64 * Z.of_nat Nk) =
    Some (key, 32 * Z.of_nat Nk, (drop (4 * Nk) key, 32 * Z.of_nat Nk))) as Hd
    by (by destruct HNk as [-> | ->]).
  unfold mbedtls_aes_xts_setkey_enc, mbedtls_aes_xts_setkey_dec, xts_setkey. rewrite Hd.
  destruct (setkey_enc_ctx Nk s (tweak c1) (drop (4 * Nk) key)) as (t1 & -> & Ht1);
    [assumption..|].
  destruct (setkey_enc_ctx Nk (AesStatic rom_tables true) (crypt c1) key)
    as (e1 & He1 & Hce1); [assumption|reflexivity|assumption..|].
  destruct (setkey_enc_ctx Nk (AesStatic rom_tables true) (tweak c2) (drop (4 * Nk) key))
    as (t2 & -> & Ht2); [assumption|reflexivity|assumption..|].
  destruct (setkey_dec_ctx Nk (AesStatic rom_tables true) (crypt c2) key)
    as (d2 & Hd2 & Hcd2); [assumption|reflexivity|assumption..|].
  cbn [Z.eqb negb crypt tweak]. rewrite He1, Hd2.
  eexists (XtsContext e1 t1), (XtsContext d2 t2).
  exact (conj eq_refl (conj eq_refl (conj Hce1 (conj Hcd2 (conj Ht1 Ht2))))).
Qed.

(** C30: XTS with a 256 or 512-bit key: for every data unit of 16 bytes to 2^24
    bytes, multiple of the block size or not, decryption gives the data back;
    any other length is refused. *)
Theorem aes_xts_roundtrip Nk s c1 c2 key unit junk input :
  (Nk = 4 \/ Nk = 8)%nat -> static_ok s -> length key = (8 * Nk)%nat ->
  Forall (fits 8) key -> ctx_ok (crypt c1) -> ctx_ok (tweak c1) ->
  ctx_ok (crypt c2) -> ctx_ok (tweak c2) -> is_block unit -> Forall (fits 8) input ->
  let '(r1, s1, ce) := mbedtls_aes_xts_setkey_enc s c1 key (64 * Z.of_nat Nk) in
  let '(r2, s2, cd) := mbedtls_aes_xts_setkey_dec s1 c2 key (64 * Z.of_nat Nk) in
  let len := Z.of_nat (length input) in
  let '(r3, out) :=
    mbedtls_aes_crypt_xts (st_tables s2) ce MBEDTLS_AES_ENCRYPT len unit junk input in
  r1 = 0 /\ r2 = 0 /\
  if (16 <=? len) && (len <=? 16777216)
  then r3 = 0 /\
    mbedtls_aes_crypt_xts (st_tables s2) cd MBEDTLS_AES_DECRYPT len unit junk out = (0, input)
  else (r3, out) = (MBEDTLS_ERR_AES_INVALID_INPUT_LENGTH, []).
Proof.
  intros HNk Hs Hl Hb H1 H2 H3 H4 Hu Hin.
  destruct (xts_setkey_pair Nk s c1 c2 key)
    as (ce & cd & -> & -> & Hce & Hcd & Hte & Htd); [assumption..|].
  cbv zeta. cbn [st_tables]. set (len := Z.of_nat (length input)).
  unfold mbedtls_aes_crypt_xts. change (Z.shiftl 1 20 * 16) with 16777216.
  destruct (Z.leb_spec 16 len), (Z.ltb_spec len 16); try lia; cbn [andb]; [|done].
  destruct (Z.leb_spec len 16777216), (Z.ltb_spec 16777216 len); try lia; [|done].
  refine (conj eq_refl (conj eq_refl (conj eq_refl _))). f_equal.
  assert (valid_Nk Nk) as HNk' by (destruct HNk as [-> | ->]; [left|right; right]; done).
  assert (Forall (fits 8) (drop (4 * Nk) key)) as Hb2 by by apply Forall_drop.
  rewrite (ecb_encrypt_refines Nk (drop (4 * Nk) key) (tweak ce)),
    (ecb_encrypt_refines Nk (drop (4 * Nk) key) (tweak cd)) by assumption.
  assert (is_block (Fips.aes_encrypt Nk (drop (4 * Nk) key) unit)) as Htw
    by by apply aes_encrypt_block.
  assert (HBC := ecb_block_cipher Nk key (crypt ce) (crypt cd) HNk' Hb Hce Hcd).
  assert (0 < len / 16) by (apply Z.div_str_pos; lia).
  pose proof (Z.div_mod len 16 ltac:(lia)) as Hdm.
  pose proof (Z.mod_pos_bound len 16 ltac:(lia)) as Hmb.
  replace (Z.to_nat (len / 16)) with (S (Z.to_nat (len / 16 - 1))) by lia.
  destruct (decide (len mod 16 = 0)) as [Hm|Hm].
  - rewrite Hm. apply (xts_dec_enc_whole _ _ (HBC := HBC)); [done| |done]. lia.
  - replace (len mod 16) with (Z.of_nat (Z.to_nat (len mod 16))) by lia.
    apply (xts_dec_enc_steal _ _ (HBC := HBC)); [done|lia| |done]. lia.
Qed.

Lemma aes_xts_roundtrip_witness :
  let c := mbedtls_aes_xts_init in
  let input := replicate 37 9 in
  let '(r1, s1, ce) := mbedtls_aes_xts_setkey_enc aes_static_init c key0 (64 * Z.of_nat 8) in
  let '(r2, s2, cd) := mbedtls_aes_xts_setkey_dec s1 c key0 (64 * Z.of_nat 8) in
  let len := Z.of_nat (length input) in
  let '(r3, out) :=
    mbedtls_aes_crypt_xts (st_tables s2) ce MBEDTLS_AES_ENCRYPT len block0 [] input in
  r1 = 0 /\ r2 = 0 /\
  if (16 <=? len) && (len <=? 16777216)
  then r3 = 0 /\
    mbedtls_aes_crypt_xts (st_tables s2) cd MBEDTLS_AES_DECRYPT len block0 [] out = (0, input)
  else (r3, out) = (MBEDTLS_ERR_AES_INVALID_INPUT_LENGTH, []).
Proof.
  refine (aes_xts_roundtrip 8 aes_static_init mbedtls_aes_xts_init mbedtls_aes_xts_init key0
            block0 [] (replicate 37 9) (or_intror eq_refl) eq_refl eq_refl key0_ok
            eq_refl eq_refl eq_refl eq_refl block0_ok _).
  by apply (bool_decide_unpack _).
Defined.

(** [my_test] leaves the buffer as it was, so its second line prints
    "hello", whatever bytes follow the nine of its key literal and whatever the
    uninitialised context held. *)
Theorem my_test_restores s ctx after :
  static_ok s -> ctx_ok ctx -> length after = 7%nat -> Forall (fits 8) after ->
  let '(out1, out2, b) := my_test s ctx after in
  b = my_test_buf /\ out2 = [104; 101; 108; 108; 111].
Proof.
  intros Hs Hc Hl Ha. unfold my_test. set (key := my_test_key ++ after).
  assert (is_key 4 key) as Hk.
  { split; [unfold key; rewrite length_app, Hl; simpl; lia|].
    apply Forall_app. split; [|done]. by apply (bool_decide_unpack _). }
  change 128 with (32 * Z.of_nat 4).
  destruct (setkey_enc_ctx 4 s ctx key) as (ce & -> & Hce); [by left|assumption..|].
  destruct (setkey_dec_ctx 4 (AesStatic rom_tables true) ce key) as (cd & -> & Hcd);
    [by left|reflexivity|apply Hce|assumption|].
  cbn [st_tables]. unfold crypt_in_place.
  assert (HBC := ecb_block_cipher 4 key ce cd ltac:(by left) (proj2 Hk) Hce Hcd).
  assert (is_block (take 16 my_test_buf)) as Hblk by by apply (bool_decide_unpack _).
  change MBEDTLS_AES_ENCRYPT with 1 in HBC. change MBEDTLS_AES_DECRYPT with 0 in HBC.
  assert (HE := proj1 (E_block (BlockCipher := HBC) _ Hblk)).
  rewrite take_app_length', drop_app_length' by done.
  rewrite (D_E (BlockCipher := HBC)) by done. rewrite take_drop. done.
Qed.

Lemma my_test_restores_witness :
  let '(out1, out2, b) := my_test aes_static_init mbedtls_aes_init (replicate 7 3) in
  b = my_test_buf /\ out2 = [104; 101; 108; 108; 111].
Proof.
  refine (my_test_restores aes_static_init mbedtls_aes_init (replicate 7 3)
            eq_refl eq_refl eq_refl _).
  by apply (bool_decide_unpack _).
Defined.
