(* ===== verification/Hlw8032.v ===== *)
(** * Hlw8032: the energy-meter driver [src/wt_hlw8032.c]

    The median filter over the last three samples of each channel, the packet
    handler [DealUartInf] with the file's static variables as its state and
    the lines it prints as events, the serial-port settings, and the receive
    loop. [unsigned long] is 64 bits, [unsigned int] 32. *)
From S2P Require Import Prelude.

Open Scope C.

Definition ARRAY_LEN : nat := 3.
Definition COUNT_NUM : Z := 1.
Definition DATA_PACKAGE : nat := 24.
Definition ENERGY_FLOW_NUM : Z := 65536.
Definition UART_IND_HD : Z := 0.
Definition UART_IND_VK : Z := 2.
Definition UART_IND_VT : Z := 5.
Definition UART_IND_IK : Z := 8.
Definition UART_IND_IT : Z := 11.
Definition UART_IND_PK : Z := 14.
Definition UART_IND_PT : Z := 17.
Definition UART_IND_FG : Z := 20.
Definition UART_IND_EN : Z := 21.

(** ** The sample lists *)

(** First loop: the indices of the largest and the smallest sample. *)
Definition vip_index_step (arr : list Z) (mm : nat * nat) (j : nat) : nat * nat :=
  let '(maxIndex, minIndex) := mm in
  (if arr !!! maxIndex <=? arr !!! j then j else maxIndex,
   if arr !!! j <? arr !!! minIndex then j else minIndex).

(** [None]: control reaches the end of the function without a value. *)
Definition getVIPvalue (arr : list Z) : option Z :=
  let '(maxIndex, minIndex) := fold_left (vip_index_step arr) (seq 1 (ARRAY_LEN - 1)) (0, 0)%nat in
  match List.find (fun j => negb ((maxIndex =? j) || (minIndex =? j))%nat)
          (seq 0 ARRAY_LEN) with
  | None => None
  | Some j => Some (arr !!! j)
  end.

Definition isUpdataNewData (arr : list Z) (dat : Z) : bool := negb (arr.[0] =? dat).

(** [for (ii = n; ii > 0; ii--) arr[ii] = arr[ii - 1];] *)
Fixpoint shift_right (n : nat) (arr : list Z) : list Z :=
  match n with
  | O => arr
  | S n => shift_right n (<[S n := arr !!! n]> arr)
  end.

Definition updataVIPvalue (arr : list Z) (dat : Z) : list Z :=
  <[0%nat := dat]> (shift_right (ARRAY_LEN - 1) arr).

Fixpoint fill_down (n : nat) (dat : Z) (arr : list Z) : list Z :=
  match n with
  | O => arr
  | S n => fill_down n dat (<[n := dat]> arr)
  end.

Definition resetVIPvalue (arr : list Z) (dat : Z) : list Z := fill_down ARRAY_LEN dat arr.

(** ** State and output *)

Record RuningInf_t := RuningInf {
  r_voltage : Z; r_electricity : Z; r_power : Z;   (* 16-bit display values *)
  energy : Z;                                      (* accumulated pulses, times ten *)
  energyCurrent : Z; energyLast : Z;               (* 16-bit pulse counter *)
  energyFlowFlag : Z;
  energyUnit : Z
}.

(** [runingInf] and the static locals of [DealUartInf]. *)
Record hlw_state := Hlw {
  runingInf : RuningInf_t;
  voltage_a : list Z; voltageCnt : Z;
  electricity_a : list Z; electricityCnt : Z;
  power_a : list Z; powerCnt : Z;
  powerNewFlag : Z
}.

Definition hlw_init : hlw_state :=
  Hlw (RuningInf 0 0 0 0 0 0 0 0) [0; 0; 0] 0 [0; 0; 0] 0 [0; 0; 0] 0 1.

Inductive channel := Voltage | Current | Power.

(** The lines printed outside [DEBUG]. *)
Inductive event :=
  | LengthError
  | ChecksumError
  | Samples (c : channel) (a : list Z)          (* "voltage:%ld,%ld,%ld" *)
  | Value (c : channel) (k t v : Z)             (* "Vk = %ld,Vt = %ld,v = %ld" *)
  | FlagError (c : channel)
  | NotChecked
  | Broken
  | PowerError
  | Summary (flag v i p : Z).

(** [DivByZero]: the integer division the C standard leaves undefined. *)
Inductive outcome (A : Type) :=
  | Returns (a : A)
  | DivByZero.
Arguments Returns {A} a.
Arguments DivByZero {A}.

(** ** Pieces of the handler that the code repeats *)

(** Three bytes, most significant first. *)
Definition read24 (buf : list Z) (i : Z) : Z :=
  Z.lor (Z.lor (Z.shiftl (buf.[i]) 16) (Z.shiftl (buf.[i + 1]) 8)) (buf.[i + 2]).

(** A fresh sample: the list and the repetition counter. *)
Definition take_sample (a : list Z) (cnt dat : Z) : list Z * Z :=
  if isUpdataNewData a dat then (updataVIPvalue a dat, 0)
  else
    let cnt := u32 (cnt + 1) in
    if COUNT_NUM <=? cnt then (updataVIPvalue a dat, 0) else (a, cnt).

(** The sample used: the filter's value. *)
Definition filtered (a : list Z) : Z := default 0 (getVIPvalue a).

(** [k * 100 / t], then [* 10]; 0 when [t] is 0. *)
Definition ratio (k t : Z) : Z :=
  if t =? 0 then 0 else u64 (u64 (k * 100) / t * 10).

(** The [powerNewFlag == 0] branch: no new sample, but a cycle much longer
    than the filtered one replaces the list. *)
Definition power_stale (a : list Z) (power_t : Z) : list Z :=
  if isUpdataNewData a power_t then
    let powerData := filtered a in
    if (powerData <? power_t) && (Z.shiftr powerData 2 <? u64 (power_t - powerData))
    then resetVIPvalue a power_t else a
  else a.

Definition set_voltage (s : hlw_state) a cnt :=
  Hlw (runingInf s) a cnt (electricity_a s) (electricityCnt s) (power_a s) (powerCnt s)
      (powerNewFlag s).
Definition set_electricity (s : hlw_state) a cnt :=
  Hlw (runingInf s) (voltage_a s) (voltageCnt s) a cnt (power_a s) (powerCnt s)
      (powerNewFlag s).
Definition set_power (s : hlw_state) a cnt flag :=
  Hlw (runingInf s) (voltage_a s) (voltageCnt s) (electricity_a s) (electricityCnt s)
      a cnt flag.
Definition set_inf (s : hlw_state) inf :=
  Hlw inf (voltage_a s) (voltageCnt s) (electricity_a s) (electricityCnt s)
      (power_a s) (powerCnt s) (powerNewFlag s).

(** Bits of the update register. *)
Definition flag_set (buf : list Z) (mask : Z) : bool :=
  Z.land (buf.[UART_IND_FG]) mask =? mask.

(** The channel blocks; [verbose] is false in the fault branch, where the
    line with the samples is commented out. Result: state, value, events. *)
Definition deal_voltage (verbose : bool) (buf : list Z) (s : hlw_state)
  : hlw_state * Z * list event :=
  if flag_set buf 0x40 then
    let k := read24 buf UART_IND_VK in
    let '(a, cnt) := take_sample (voltage_a s) (voltageCnt s) (read24 buf UART_IND_VT) in
    let t := filtered a in
    (set_voltage s a cnt, ratio k t,
     (if verbose then [Samples Voltage a] else []) ++ [Value Voltage k t (ratio k t)])
  else (s, 0, [FlagError Voltage]).

Definition deal_electricity (verbose : bool) (buf : list Z) (s : hlw_state)
  : hlw_state * Z * list event :=
  if flag_set buf 0x20 then
    let k := read24 buf UART_IND_IK in
    let '(a, cnt) :=
      take_sample (electricity_a s) (electricityCnt s) (read24 buf UART_IND_IT) in
    let t := filtered a in
    (set_electricity s a cnt, ratio k t,
     (if verbose then [Samples Current a] else []) ++ [Value Current k t (ratio k t)])
  else (s, 0, [FlagError Current]).

(** Also gives [power_k], which the energy computation divides by. *)
Definition deal_power (verbose : bool) (buf : list Z) (s : hlw_state)
  : hlw_state * Z * Z * list event :=
  let k := read24 buf UART_IND_PK in
  let out a := let t := filtered a in
    (if verbose then [Samples Power a] else []) ++ [Value Power k t (ratio k t)] in
  if flag_set buf 0x10 then
    let '(a, cnt) := take_sample (power_a s) (powerCnt s) (read24 buf UART_IND_PT) in
    (set_power s a cnt 0, k, ratio k (filtered a), out a)
  else if powerNewFlag s =? 0 then
    let a := power_stale (power_a s) (read24 buf UART_IND_PT) in
    (set_power s a (powerCnt s) (powerNewFlag s), k, ratio k (filtered a), out a)
  else (s, 0, 0, []).

(** The energy counter, up to the division. *)
Definition deal_energy (buf : list Z) (inf : RuningInf_t) : RuningInf_t :=
  let flow := Z.shiftr (buf.[UART_IND_FG]) 7 in
  let current := Z.lor (Z.shiftl (buf.[UART_IND_EN]) 8) (buf.[UART_IND_EN + 1]) in
  let '(current, energy_cnt) :=
    if negb (energyFlowFlag inf =? flow) then
      let current := if energyLast inf <? current then 0 else current in
      (current, u32 (current + ENERGY_FLOW_NUM - energyLast inf))
    else (current, u32 (current - energyLast inf)) in
  RuningInf (r_voltage inf) (r_electricity inf) (r_power inf)
    (u64 (energy inf + u32 (energy_cnt * 10)))
    current current flow (energyUnit inf).

Definition deal_unit (power_k : Z) (inf : RuningInf_t) : outcome RuningInf_t :=
  let d := Z.shiftr power_k 1 in
  if d =? 0 then DivByZero
  else Returns (RuningInf (r_voltage inf) (r_electricity inf) (r_power inf)
    (energy inf) (energyCurrent inf) (energyLast inf) (energyFlowFlag inf)
    (u64 (Z.shiftr 0xD693A400 1 / d * 10))).

(** [case 0x55] *)
Definition deal_normal (buf : list Z) (s : hlw_state) : outcome (hlw_state * list event) :=
  let '(s, _, e1) := deal_voltage true buf s in
  let '(s, _, e2) := deal_electricity true buf s in
  let '(s, power_k, _, e3) := deal_power true buf s in
  match deal_unit power_k (deal_energy buf (runingInf s)) with
  | DivByZero => DivByZero
  | Returns inf => Returns (set_inf s inf, e1 ++ e2 ++ e3)
  end.

(** [default]: a fault is reported in the bits of the first byte. *)
Definition fault (startFlag mask : Z) : bool := Z.land startFlag mask =? mask.

Definition clear_power (inf : RuningInf_t) : RuningInf_t :=
  RuningInf (r_voltage inf) (r_electricity inf) 0 (energy inf) (energyCurrent inf)
    (energyLast inf) (energyFlowFlag inf) (energyUnit inf).
Definition clear_electricity (inf : RuningInf_t) : RuningInf_t :=
  RuningInf (r_voltage inf) 0 (r_power inf) (energy inf) (energyCurrent inf)
    (energyLast inf) (energyFlowFlag inf) (energyUnit inf).
Definition clear_voltage (inf : RuningInf_t) : RuningInf_t :=
  RuningInf 0 (r_electricity inf) (r_power inf) (energy inf) (energyCurrent inf)
    (energyLast inf) (energyFlowFlag inf) (energyUnit inf).

Definition deal_fault (buf : list Z) (s : hlw_state) : hlw_state * list event :=
  let startFlag := buf.[UART_IND_HD] in
  let e0 := if fault startFlag 0xF1 then [Broken] else [] in
  let '(s, power, e1) :=
    if fault startFlag 0xF2 then (set_inf s (clear_power (runingInf s)), 0, [PowerError])
    else let '(s, _, power, e) := deal_power false buf s in (s, power, e) in
  let '(s, electricity, e2) :=
    if fault startFlag 0xF4 then (set_inf s (clear_electricity (runingInf s)), 0, [])
    else deal_electricity false buf s in
  let '(s, voltage, e3) :=
    if fault startFlag 0xF8 then (set_inf s (clear_voltage (runingInf s)), 0, [])
    else deal_voltage false buf s in
  (s, e0 ++ e1 ++ e2 ++ e3 ++ [Summary startFlag voltage electricity power]).

(** [checksum += inDataBuffer[j + 2]] for [j < 21], then [& 0xFF] *)
Definition packet_checksum (buf : list Z) : Z :=
  Z.land (u32 (fold_left Z.add (take 21 (drop 2 buf)) 0)) 0xFF.

Definition DealUartInf (buf : list Z) (recvlen : Z) (s : hlw_state)
  : outcome (Z * hlw_state * list event) :=
  if negb (recvlen =? 24) then Returns (-1, s, [LengthError])
  else if negb (packet_checksum buf =? buf.[23]) then Returns (-2, s, [ChecksumError])
  else
    let startFlag := buf.[UART_IND_HD] in
    if startFlag =? 0x55 then
      match deal_normal buf s with
      | DivByZero => DivByZero
      | Returns (s, e) => Returns (1, s, e)
      end
    else if startFlag =? 0xAA then Returns (1, s, [NotChecked])
    else let '(s, e) := deal_fault buf s in Returns (1, s, e).

(** ** The serial port *)

(** The fields of [struct termios] the code writes, and the Linux values of
    the flags it uses. *)
Record termios := Termios {
  c_cflag : Z; c_iflag : Z; c_lflag : Z; c_oflag : Z; c_vtime : Z; c_vmin : Z
}.

Definition B4800 : Z := 12.
Definition CS7 : Z := 32.
Definition CS8 : Z := 48.
Definition CSTOPB : Z := 64.
Definition CREAD : Z := 128.
Definition PARENB : Z := 256.
Definition PARODD : Z := 512.
Definition CLOCAL : Z := 2048.
Definition INPCK : Z := 16.
Definition ICRNL : Z := 256.

Definition setf (flag mask : Z) : Z := Z.lor flag mask.
Definition clrf (flag mask : Z) : Z := Z.ldiff flag mask.

Inductive serial_error := GetAttr | DataSize | Parity | StopBits | SetAttr.

(** The options [set_parity] installs. [before] is what [tcgetattr] gives,
    [None] when it fails; [parity] is a character code. *)
Definition databits_flag (databits : Z) : option Z :=
  if databits =? 7 then Some CS7 else if databits =? 8 then Some CS8 else None.

Definition parity_flags (parity c i : Z) : option (Z * Z) :=
  if (parity =? 110) || (parity =? 78) then         (* n N *)
    Some (clrf c PARENB, clrf i INPCK)
  else if (parity =? 111) || (parity =? 79) then    (* o O *)
    Some (setf c (Z.lor PARODD PARENB), setf i INPCK)
  else if (parity =? 101) || (parity =? 69) then    (* e E *)
    Some (clrf (setf c PARENB) PARODD, setf i INPCK)
  else if (parity =? 83) || (parity =? 115) then    (* S s *)
    Some (clrf (clrf c PARENB) CSTOPB, i)
  else None.

Definition stopbits_flags (stopbits c : Z) : option Z :=
  if stopbits =? 1 then Some (clrf c CSTOPB)
  else if stopbits =? 2 then Some (setf c CSTOPB)
  else None.

Definition set_parity (before : option termios) (set_ok : bool)
    (databits stopbits parity : Z) : termios + serial_error :=
  match before with
  | None => inr GetAttr
  | Some options =>
      let c := Z.lor (Z.lor B4800 CLOCAL) CREAD in
      match databits_flag databits with
      | None => inr DataSize
      | Some size =>
          match parity_flags parity (setf c size) (c_iflag options) with
          | None => inr Parity
          | Some (c, i) =>
              match stopbits_flags stopbits c with
              | None => inr StopBits
              | Some c =>
                  let i := if negb (parity =? 110) then setf i INPCK else i in
                  let i := clrf i ICRNL in
                  if set_ok then inl (Termios c i 0 0 0 24) else inr SetAttr
              end
          end
      end
  end.

Definition EPERM : Z := 1.
Definition ENODEV : Z := 19.

(** Return code and the options in force. *)
Definition set_serial (before : option termios) (set_ok : bool)
    (databits stopbits parity : Z) : Z * option termios :=
  match set_parity before set_ok databits stopbits parity with
  | inl t => (0, Some t)
  | inr _ => (- EPERM, before)
  end.

(** ** The receive loop *)

(** [hlw_buff] and [wait_flag] with the handler's state and the local buffer
    of [deal_data]. [wait_flag] is [true] for the C value [FALSE] (-1) that
    [signal_handler_IO] stores, "input pending". *)
Record driver := Driver {
  d_state : hlw_state;
  hlw_buff : list Z;
  d_buf : list Z;
  input_pending : bool
}.

(** [static int wait_flag = 0]: not pending before the first signal. *)
Definition driver_init : driver :=
  Driver hlw_init (replicate 24 0) (replicate 48 0) false.

Definition signal_handler_IO (d : driver) : driver :=
  Driver (d_state d) (hlw_buff d) (d_buf d) true.

(** [for (num = 0; num <= size - 1; num++) p_dest[num] = p_src[num];] *)
Definition cpy (src dest : list Z) (size : nat) : list Z := take size src ++ drop size dest.

(** One turn of [while (signal_stop == FALSE)]; [input] is what [read] delivers,
    at most 48 bytes, [None] when it returns -1. *)
Definition deal_turn (input : option (list Z)) (d : driver)
  : outcome (driver * list event) :=
  if input_pending d then
    let '(res, buf) :=
      match input with
      | None => (-1, d_buf d)
      | Some bytes => (Z.of_nat (length bytes), cpy bytes (d_buf d) (length bytes))
      end in
    let hb := if existsb (Z.eqb 0x5A) (take DATA_PACKAGE buf)
              then cpy buf (hlw_buff d) DATA_PACKAGE else hlw_buff d in
    if hb.[1] =? 0x5A then
      match DealUartInf hb res (d_state d) with
      | DivByZero => DivByZero
      | Returns (_, s, e) => Returns (Driver s hb buf false, e)
      end
    else Returns (Driver (d_state d) hb buf false, [])
  else Returns (d, []).

(** Turns in sequence, each preceded by the signal that announces its input. *)
Fixpoint deal_data (inputs : list (option (list Z))) (d : driver)
  : outcome (driver * list event) :=
  match inputs with
  | [] => Returns (d, [])
  | i :: inputs =>
      match deal_turn i (signal_handler_IO d) with
      | DivByZero => DivByZero
      | Returns (d, e) =>
          match deal_data inputs d with
          | DivByZero => DivByZero
          | Returns (d, e') => Returns (d, e ++ e')
          end
      end
  end.

(** ** Bytes and registers *)

Definition packet (buf : list Z) : Prop := length buf = 24%nat /\ Forall (fits 8) buf.

#[export] Instance packet_dec buf : Decision (packet buf).
Proof. unfold packet. apply _. Defined.

Lemma packet_byte buf i : Forall (fits 8) buf -> 0 <= buf.[i] < 256.
Proof.
  intros Hb. rewrite list_lookup_total_alt.
  destruct (buf !! Z.to_nat i) as [x|] eqn:Hx; simpl; [|lia].
  exact (Forall_lookup_1 _ _ _ _ Hb Hx).
Qed.

Lemma read24_value buf i : Forall (fits 8) buf ->
  read24 buf i = buf.[i] * 65536 + buf.[i + 1] * 256 + buf.[i + 2].
Proof.
  intros Hb. unfold read24.
  pose proof (packet_byte buf i Hb). pose proof (packet_byte buf (i + 1) Hb).
  pose proof (packet_byte buf (i + 2) Hb).
  rewrite (lor_shift _ (Z.shiftl _ 8)).
  - replace (buf.[i] * 2 ^ 16 + Z.shiftl (buf.[i + 1]) 8)
      with (Z.shiftl (buf.[i] * 2 ^ 8 + buf.[i + 1]) 8)
      by (rewrite !Z.shiftl_mul_pow2 by lia; change (2 ^ 16) with 65536;
          change (2 ^ 8) with 256; lia).
    rewrite lor_shift by (change (2 ^ 8) with 256; lia).
    change (2 ^ 8) with 256. lia.
  - lia.
  - rewrite Z.shiftl_mul_pow2 by lia. change (2 ^ 8) with 256. change (2 ^ 16) with 65536. lia.
Qed.

Lemma read24_fits buf i : Forall (fits 8) buf -> fits 24 (read24 buf i).
Proof.
  intros Hb. rewrite read24_value by done. unfold fits. change (2 ^ 24) with 16777216.
  pose proof (packet_byte buf i Hb). pose proof (packet_byte buf (i + 1) Hb).
  pose proof (packet_byte buf (i + 2) Hb). lia.
Qed.

(** ** The median filter *)

(** The middle one of three values. *)
Definition median (a b c : Z) : Z := Z.max (Z.min a b) (Z.min (Z.max a b) c).

Lemma getVIPvalue_is_median a b c : getVIPvalue [a; b; c] = Some (median a b c).
Proof.
  unfold getVIPvalue, vip_index_step, median.
  cbn -[Z.leb Z.ltb Z.max Z.min].
  destruct (a <=? b) eqn:E1, (b <? a) eqn:E2; try lia; cbn -[Z.leb Z.ltb Z.max Z.min];
    destruct (a <=? c) eqn:E3, (b <=? c) eqn:E4, (c <? a) eqn:E5, (c <? b) eqn:E6;
    try lia; cbn -[Z.leb Z.ltb Z.max Z.min]; f_equal; lia.
Qed.

Lemma filtered_median a b c : filtered [a; b; c] = median a b c.
Proof. unfold filtered. by rewrite getVIPvalue_is_median. Qed.

Lemma updataVIPvalue_shift a b c x : updataVIPvalue [a; b; c] x = [x; a; b].
Proof. reflexivity. Qed.

Lemma resetVIPvalue_all a b c x : resetVIPvalue [a; b; c] x = [x; x; x].
Proof. reflexivity. Qed.

(** With [COUNT_NUM] 1 every sample is taken. *)
Lemma take_sample_shift a b c x : take_sample [a; b; c] 0 x = ([x; a; b], 0).
Proof.
  unfold take_sample, isUpdataNewData. change ([a; b; c].[0]) with a.
  by destruct (a =? x).
Qed.

Definition samples_ok (l : list Z) : Prop := length l = 3%nat /\ Forall (fits 24) l.

Lemma samples_cases l : samples_ok l -> exists a b c, l = [a; b; c].
Proof.
  intros [Hl _]. destruct l as [|a [|b [|c [|]]]]; try discriminate. by exists a, b, c.
Qed.

Lemma take_sample_ok l x : samples_ok l -> fits 24 x ->
  samples_ok (take_sample l 0 x).1 /\ (take_sample l 0 x).2 = 0.
Proof.
  intros Hl Hx. destruct (samples_cases l Hl) as (a & b & c & ->).
  rewrite take_sample_shift. destruct Hl as [_ Hf]. inversion Hf as [|? ? Ha Hf1]; subst.
  inversion Hf1 as [|? ? Hb' Hf2]; subst.
  split; [split; [done|]|done]. cbn [fst]. repeat (apply Forall_cons_2; [done|]). apply Forall_nil_2.
Qed.

Lemma power_stale_ok l x : samples_ok l -> fits 24 x -> samples_ok (power_stale l x).
Proof.
  intros Hl Hx. destruct (samples_cases l Hl) as (a & b & c & ->). unfold power_stale.
  destruct (isUpdataNewData _ _); [|done]. destruct (_ && _); [|done].
  rewrite resetVIPvalue_all. split; [done|].
  repeat (apply Forall_cons_2; [done|]). apply Forall_nil_2.
Qed.

(** ** The state invariant *)

Record hlw_ok (s : hlw_state) : Prop := HlwOk {
  ok_voltage : samples_ok (voltage_a s) /\ voltageCnt s = 0;
  ok_electricity : samples_ok (electricity_a s) /\ electricityCnt s = 0;
  ok_power : samples_ok (power_a s) /\ powerCnt s = 0;
  ok_flag : powerNewFlag s = 0 \/ powerNewFlag s = 1;
  ok_energy : fits 64 (energy (runingInf s));
  ok_last : fits 16 (energyLast (runingInf s));
  ok_flow : energyFlowFlag (runingInf s) = 0 \/ energyFlowFlag (runingInf s) = 1
}.

Section Handler.
Context (buf : list Z) (Hbuf : Forall (fits 8) buf).

Lemma deal_voltage_ok verbose s : hlw_ok s ->
  hlw_ok (deal_voltage verbose buf s).1.1 /\
  powerNewFlag (deal_voltage verbose buf s).1.1 = powerNewFlag s /\
  runingInf (deal_voltage verbose buf s).1.1 = runingInf s.
Proof.
  intros [[Hv Hc] He Hp Hf Hen Hl Hfl]. unfold deal_voltage.
  destruct (flag_set buf 64); [|done].
  destruct (take_sample_ok (voltage_a s) (read24 buf UART_IND_VT)) as [H1 H2];
    [done|by apply read24_fits|].
  rewrite Hc. destruct (take_sample _ 0 _) as [a cnt]. cbn [fst snd] in *. done.
Qed.

Lemma deal_electricity_ok verbose s : hlw_ok s ->
  hlw_ok (deal_electricity verbose buf s).1.1 /\
  powerNewFlag (deal_electricity verbose buf s).1.1 = powerNewFlag s /\
  runingInf (deal_electricity verbose buf s).1.1 = runingInf s.
Proof.
  intros [Hv [He Hc] Hp Hf Hen Hl Hfl]. unfold deal_electricity.
  destruct (flag_set buf 32); [|done].
  destruct (take_sample_ok (electricity_a s) (read24 buf UART_IND_IT)) as [H1 H2];
    [done|by apply read24_fits|].
  rewrite Hc. destruct (take_sample _ 0 _) as [a cnt]. cbn [fst snd] in *. done.
Qed.

(** The power coefficient the energy computation uses. *)
Definition power_coeff (s : hlw_state) : Z :=
  if flag_set buf 0x10 || (powerNewFlag s =? 0) then read24 buf UART_IND_PK else 0.

Lemma deal_power_ok verbose s : hlw_ok s ->
  hlw_ok (deal_power verbose buf s).1.1.1 /\
  (deal_power verbose buf s).1.1.2 = power_coeff s /\
  runingInf (deal_power verbose buf s).1.1.1 = runingInf s.
Proof.
  intros [Hv He [Hp Hc] Hf Hen Hl Hfl]. unfold deal_power, power_coeff.
  destruct (flag_set buf 16); cbn [orb].
  - destruct (take_sample_ok (power_a s) (read24 buf UART_IND_PT)) as [H1 H2];
      [done|by apply read24_fits|].
    rewrite Hc. destruct (take_sample _ 0 _) as [a cnt]. cbn [fst snd] in *.
    split; [|done]. constructor; try done. by left.
  - destruct (Z.eqb_spec (powerNewFlag s) 0) as [Hz|Hz]; [|done].
    cbn [fst snd]. split; [|done]. constructor; try done.
    split; [|done]. apply power_stale_ok; [done|by apply read24_fits].
Qed.

Lemma energy_register :
  fits 16 (Z.lor (Z.shiftl (buf.[UART_IND_EN]) 8) (buf.[UART_IND_EN + 1])).
Proof.
  pose proof (packet_byte buf UART_IND_EN Hbuf).
  pose proof (packet_byte buf (UART_IND_EN + 1) Hbuf).
  rewrite lor_shift by (change (2 ^ 8) with 256; lia).
  unfold fits. change (2 ^ 8) with 256. change (2 ^ 16) with 65536. lia.
Qed.

Lemma flow_bit : Z.shiftr (buf.[UART_IND_FG]) 7 = 0 \/ Z.shiftr (buf.[UART_IND_FG]) 7 = 1.
Proof.
  pose proof (packet_byte buf UART_IND_FG Hbuf). rewrite Z.shiftr_div_pow2 by lia.
  change (2 ^ 7) with 128. Z.to_euclidean_division_equations. lia.
Qed.

Lemma deal_energy_ok inf :
  fits 64 (energy (deal_energy buf inf)) /\ fits 16 (energyLast (deal_energy buf inf)) /\
  (energyFlowFlag (deal_energy buf inf) = 0 \/ energyFlowFlag (deal_energy buf inf) = 1).
Proof.
  unfold deal_energy. pose proof energy_register as Hr. pose proof flow_bit as Hfl.
  destruct (negb _); [destruct (energyLast inf <? _)|]; cbn [energy energyLast energyFlowFlag];
    (split; [by apply wrap_fits|]; split; [done || by apply fits_0|done]).
Qed.
End Handler.

(** What makes the division of the energy unit fail. *)
Definition divides_by_zero (buf : list Z) (recvlen : Z) (s : hlw_state) : Prop :=
  recvlen = 24 /\ packet_checksum buf = buf.[23] /\ buf.[UART_IND_HD] = 0x55 /\
  power_coeff buf s < 2.

Lemma deal_normal_cases buf s : Forall (fits 8) buf -> hlw_ok s ->
  if power_coeff buf s <? 2 then deal_normal buf s = DivByZero
  else exists s' e, deal_normal buf s = Returns (s', e) /\ hlw_ok s'.
Proof.
  intros Hb Hs. unfold deal_normal.
  destruct (deal_voltage_ok buf Hb true s Hs) as (H1 & F1 & I1).
  destruct (deal_voltage true buf s) as [[s1 v1] e1]. cbn [fst snd] in *.
  destruct (deal_electricity_ok buf Hb true s1 H1) as (H2 & F2 & I2).
  destruct (deal_electricity true buf s1) as [[s2 v2] e2]. cbn [fst snd] in *.
  destruct (deal_power_ok buf Hb true s2 H2) as (H3 & F3 & I3).
  destruct (deal_power true buf s2) as [[[s3 k] v3] e3]. cbn [fst snd] in *.
  assert (k = power_coeff buf s) as -> by (rewrite F3; unfold power_coeff; by rewrite F2, F1).
  assert (0 <= power_coeff buf s) as Hpos.
  { unfold power_coeff. destruct (_ || _); [|lia]. by apply read24_fits. }
  unfold deal_unit. rewrite Z.shiftr_div_pow2 by lia. change (2 ^ 1) with 2.
  destruct (Z.ltb_spec (power_coeff buf s) 2) as [Hlt|Hge].
  - by rewrite Z.div_small by lia.
  - assert (1 <= power_coeff buf s / 2) by (apply Z.div_le_lower_bound; lia).
    destruct (Z.eqb_spec (power_coeff buf s / 2) 0); [lia|].
    eexists _, _. split; [reflexivity|].
    destruct H3 as [Hv He Hp Hf Hen Hl Hfl].
    destruct (deal_energy_ok buf Hb (runingInf s3)) as (E1 & E2 & E3). by constructor.
Qed.

Lemma clear_ok s f : hlw_ok s ->
  (energy (f (runingInf s)) = energy (runingInf s) /\
   energyLast (f (runingInf s)) = energyLast (runingInf s) /\
   energyFlowFlag (f (runingInf s)) = energyFlowFlag (runingInf s)) ->
  hlw_ok (set_inf s (f (runingInf s))).
Proof.
  intros [Hv He Hp Hf Hen Hl Hfl] (E1 & E2 & E3). constructor; try done;
    cbn [set_inf runingInf]; by rewrite ?E1, ?E2, ?E3.
Qed.

Lemma deal_fault_ok buf s : Forall (fits 8) buf -> hlw_ok s ->
  hlw_ok (deal_fault buf s).1 /\
  energy (runingInf (deal_fault buf s).1) = energy (runingInf s).
Proof.
  intros Hb Hs. unfold deal_fault.
  set (p := if fault _ 0xF2 then _ else _).
  assert (hlw_ok p.1.1 /\ energy (runingInf p.1.1) = energy (runingInf s)) as [H1 I1].
  { unfold p. destruct (fault _ 0xF2); cbn [fst].
    - split; [by apply clear_ok|done].
    - destruct (deal_power_ok buf Hb false s Hs) as (H & _ & I).
      destruct (deal_power false buf s) as [[[s1 k] v] e]. cbn [fst snd] in *. by rewrite I. }
  clearbody p. destruct p as [[s1 v1] e1]. cbn [fst] in *.
  set (q := if fault _ 0xF4 then _ else _).
  assert (hlw_ok q.1.1 /\ energy (runingInf q.1.1) = energy (runingInf s)) as [H2 I2].
  { unfold q. destruct (fault _ 0xF4); cbn [fst].
    - split; [by apply clear_ok|done].
    - destruct (deal_electricity_ok buf Hb false s1 H1) as (H & _ & I). by rewrite I. }
  clearbody q. destruct q as [[s2 v2] e2]. cbn [fst] in *.
  set (r := if fault _ 0xF8 then _ else _).
  assert (hlw_ok r.1.1 /\ energy (runingInf r.1.1) = energy (runingInf s)) as [H3 I3].
  { unfold r. destruct (fault _ 0xF8); cbn [fst].
    - split; [by apply clear_ok|done].
    - destruct (deal_voltage_ok buf Hb false s2 H2) as (H & _ & I). by rewrite I. }
  clearbody r. destruct r as [[s3 v3] e3]. cbn [fst] in *. done.
Qed.

Lemma hlw_init_is_ok : hlw_ok hlw_init.
Proof.
  assert (samples_ok [0; 0; 0]) by by apply (bool_decide_unpack _).
  constructor; cbn; try done; [by right|by left].
Qed.

(** A normal packet with all three readings and a pulse count of 5. *)
Definition packet1 : list Z :=
  [85; 90; 2; 220; 0; 0; 1; 16; 0; 80; 0; 0; 32; 0; 51; 0; 0; 0; 64; 0; 113; 0; 5; 72].

Lemma packet1_ok : packet packet1.
Proof. by apply (bool_decide_unpack _). Qed.

Lemma driver_init_ok : input_pending driver_init = false /\
  length (hlw_buff driver_init) = 24%nat /\ Forall (fits 8) (hlw_buff driver_init) /\
  length (d_buf driver_init) = 48%nat /\ Forall (fits 8) (d_buf driver_init).
Proof.
  refine (conj eq_refl (conj eq_refl (conj _ (conj eq_refl _))));
    by apply (bool_decide_unpack _).
Qed.

(** The outcomes of the handler. *)
Lemma DealUartInf_cases buf recvlen s :
  Forall (fits 8) buf -> hlw_ok s ->
  match DealUartInf buf recvlen s with
  | DivByZero => divides_by_zero buf recvlen s
  | Returns (r, s', _) =>
      ~ divides_by_zero buf recvlen s /\ hlw_ok s' /\
      (r = 1 /\ recvlen = 24 /\ packet_checksum buf = buf.[23] \/
       r = -1 /\ recvlen <> 24 /\ s' = s \/
       r = -2 /\ recvlen = 24 /\ packet_checksum buf <> buf.[23] /\ s' = s)
  end.
Proof.
  intros Hb Hs. unfold DealUartInf, divides_by_zero.
  destruct (Z.eqb_spec recvlen 24) as [Hr|Hr]; cbn [negb].
  2: { split; [by intros (?&_)|]. split; [done|]. right; left; done. }
  destruct (Z.eqb_spec (packet_checksum buf) (buf.[23])) as [Hc|Hc]; cbn [negb].
  2: { split; [by intros (_&?&_)|]. split; [done|]. right; right; done. }
  destruct (Z.eqb_spec (buf.[UART_IND_HD]) 0x55) as [Hh|Hh].
  - pose proof (deal_normal_cases buf s Hb Hs) as H.
    destruct (Z.ltb_spec (power_coeff buf s) 2) as [Hp|Hp].
    + by rewrite H.
    + destruct H as (s' & e & -> & Hs'). split; [lia|]. split; [done|]. by left.
  - destruct (Z.eqb_spec (buf.[UART_IND_HD]) 0xAA).
    + split; [by intros (_&_&?&_)|]. split; [done|]. by left.
    + destruct (deal_fault_ok buf s Hb Hs) as [H _].
      destruct (deal_fault buf s) as [s' e]. split; [by intros (_&_&?&_)|].
      split; [done|]. by left.
Qed.

(** ** Properties *)

(** C23: for every packet, length and reachable state, the handler either
    answers 1, -1 or -2 in a state that keeps the invariant (the state
    untouched when it refuses), or divides by zero, which happens exactly for an
    accepted normal packet whose power coefficient is below 2, counting as 0
    when no power reading has been announced yet. *)
Theorem DealUartInf_outcomes buf recvlen s :
  Forall (fits 8) buf -> hlw_ok s ->
  match DealUartInf buf recvlen s with
  | DivByZero => divides_by_zero buf recvlen s
  | Returns (r, s', _) =>
      ~ divides_by_zero buf recvlen s /\ hlw_ok s' /\
      (r = 1 /\ recvlen = 24 /\ packet_checksum buf = buf.[23] \/
       r = -1 /\ recvlen <> 24 /\ s' = s \/
       r = -2 /\ recvlen = 24 /\ packet_checksum buf <> buf.[23] /\ s' = s)
  end.
Proof. apply DealUartInf_cases. Qed.

Lemma DealUartInf_outcomes_witness :
  match DealUartInf packet1 24 hlw_init with
  | DivByZero => divides_by_zero packet1 24 hlw_init
  | Returns (r, s', _) =>
      ~ divides_by_zero packet1 24 hlw_init /\ hlw_ok s' /\
      (r = 1 /\ 24 = 24 /\ packet_checksum packet1 = packet1.[23] \/
       r = -1 /\ 24 <> 24 /\ s' = hlw_init \/
       r = -2 /\ 24 = 24 /\ packet_checksum packet1 <> packet1.[23] /\ s' = hlw_init)
  end.
Proof. exact (DealUartInf_outcomes packet1 24 hlw_init (proj2 packet1_ok) hlw_init_is_ok). Defined.

(** The filter returns the median of the three last samples: it is total
    (control never falls off the end), does not depend on their order, and two
    equal samples out of three decide the value, so that one wild reading
    between two equal ones is never used. *)
Theorem getVIPvalue_median a b c t :
  getVIPvalue [a; b; c] = Some (median a b c) /\
  (forall l, l ≡ₚ [a; b; c] -> getVIPvalue l = getVIPvalue [a; b; c]) /\
  filtered (updataVIPvalue (updataVIPvalue [a; b; c] t) t) = t /\
  filtered (updataVIPvalue (updataVIPvalue (updataVIPvalue [a; b; c] t) b) t) = t.
Proof.
  split; [apply getVIPvalue_is_median|]. split; [|split].
  - intros l Hl. symmetry in Hl. apply permutations_Permutation in Hl. cbn in Hl.
    rewrite !elem_of_cons in Hl. rewrite getVIPvalue_is_median.
    destruct Hl as [-> | [-> | [-> | [-> | [-> | [-> | Hn]]]]]];
      [..|by apply not_elem_of_nil in Hn];
      rewrite getVIPvalue_is_median; f_equal; unfold median; lia.
  - rewrite !updataVIPvalue_shift, filtered_median. unfold median. lia.
  - rewrite !updataVIPvalue_shift, filtered_median. unfold median. lia.
Qed.

(** ** The energy counter *)

(** The chip counts pulses without bound; a packet carries the count modulo
    2^16 and the parity of the number of overflows. *)
Definition shows_count (c : Z) (buf : list Z) : Prop :=
  packet buf /\
  buf.[UART_IND_EN] * 256 + buf.[UART_IND_EN + 1] = c mod 65536 /\
  buf.[UART_IND_FG] / 128 = (c / 65536) mod 2.

#[export] Instance shows_count_dec c buf : Decision (shows_count c buf).
Proof. unfold shows_count. apply _. Defined.

Definition synced (c : Z) (inf : RuningInf_t) : Prop :=
  energyLast inf = c mod 65536 /\ energyFlowFlag inf = (c / 65536) mod 2.

Lemma deal_energy_registers buf inf : packet buf ->
  deal_energy buf inf =
    let flow := buf.[UART_IND_FG] / 128 in
    let current := buf.[UART_IND_EN] * 256 + buf.[UART_IND_EN + 1] in
    let '(current, energy_cnt) :=
      if negb (energyFlowFlag inf =? flow) then
        let current := if energyLast inf <? current then 0 else current in
        (current, u32 (current + 65536 - energyLast inf))
      else (current, u32 (current - energyLast inf)) in
    RuningInf (r_voltage inf) (r_electricity inf) (r_power inf)
      (u64 (energy inf + u32 (energy_cnt * 10))) current current flow (energyUnit inf).
Proof.
  intros [_ Hb]. unfold deal_energy.
  pose proof (packet_byte buf (UART_IND_EN + 1) Hb).
  rewrite lor_shift by (change (2 ^ 8) with 256; lia).
  rewrite Z.shiftr_div_pow2 by lia. reflexivity.
Qed.

Lemma deal_energy_step c c' buf inf :
  synced c inf -> shows_count c' buf -> 0 <= c -> c <= c' < c + 65536 ->
  synced c' (deal_energy buf inf) /\
  energy (deal_energy buf inf) = (energy inf + 10 * (c' - c)) mod 2 ^ 64.
Proof.
  intros [Hl Hf] (Hp & Hen & Hfl) Hc Hc'. rewrite deal_energy_registers by done.
  rewrite Hen, Hfl, Hl, Hf. cbv zeta. unfold synced, wrap.
  destruct (Z.eqb_spec ((c / 65536) mod 2) ((c' / 65536) mod 2)) as [He|He]; cbn [negb].
  - cbn [energyLast energyFlowFlag energy]. split; [done|].
    assert (c' / 65536 = c / 65536) as Hq by (Z.to_euclidean_division_equations; lia).
    assert (c' mod 65536 - c mod 65536 = c' - c) as -> by (Z.to_euclidean_division_equations; lia).
    rewrite (Z.mod_small (c' - c)) by lia. rewrite (Z.mod_small ((c' - c) * 10)) by lia.
    f_equal. lia.
  - assert (c' / 65536 = c / 65536 + 1) as Hq by (Z.to_euclidean_division_equations; lia).
    assert (c' mod 65536 <= c mod 65536) as Hle by (Z.to_euclidean_division_equations; lia).
    replace (c mod 65536 <? c' mod 65536) with false by (symmetry; apply Z.ltb_ge; lia).
    cbn [energyLast energyFlowFlag energy]. split; [done|].
    assert (c' mod 65536 + 65536 - c mod 65536 = c' - c) as ->
      by (Z.to_euclidean_division_equations; lia).
    rewrite (Z.mod_small (c' - c)) by lia. rewrite (Z.mod_small ((c' - c) * 10)) by lia.
    f_equal. lia.
Qed.

(** Consecutive readings less than one overflow apart. *)
Fixpoint counts_up (c : Z) (cs : list Z) : Prop :=
  match cs with
  | [] => True
  | c' :: cs => c <= c' < c + 65536 /\ counts_up c' cs
  end.

#[export] Instance counts_up_dec c cs : Decision (counts_up c cs).
Proof. revert c. induction cs; intros; apply _. Defined.

(** as long as the chip's counter advances by less than 2^16 between
    packets, the accumulated energy is ten times the pulses counted, across any
    number of counter overflows; processing a packet again adds nothing. *)
Theorem energy_counts_pulses cs : forall c bufs inf,
  synced c inf -> 0 <= c -> fits 64 (energy inf) ->
  Forall2 shows_count cs bufs -> counts_up c cs ->
  energy (fold_left (fun i b => deal_energy b i) bufs inf) =
    (energy inf + 10 * (List.last cs c - c)) mod 2 ^ 64.
Proof.
  induction cs as [|c' cs IH]; intros c bufs inf Hs Hc He Hb Hup.
  - inversion Hb; subst. cbn. rewrite Z.sub_diag, Z.mul_0_r, Z.add_0_r.
    symmetry. by apply Z.mod_small.
  - inversion Hb as [|? b ? bufs' Hb1 Hb2]; subst. destruct Hup as [Hc' Hup].
    destruct (deal_energy_step c c' b inf Hs Hb1 Hc Hc') as [Hs' He'].
    cbn [fold_left]. rewrite (IH c'); [|done|lia| |done|done].
    + rewrite He', Zplus_mod_idemp_l. f_equal.
      assert (List.last (c' :: cs) c = List.last cs c') as ->.
      { clear. revert c'. induction cs as [|x cs IH]; intros c'; [done|].
        change (List.last (x :: cs) c = List.last (x :: cs) c'). clear.
        revert x. induction cs; intros; [done|]. apply IHcs. }
      lia.
    + rewrite He'. unfold fits. apply Z.mod_pos_bound. lia.
Qed.

Lemma energy_counts_pulses_witness :
  energy (fold_left (fun i b => deal_energy b i) [packet1; packet1]
            (RuningInf 0 0 0 70 0 0 0 0)) = (70 + 10 * (List.last [5; 5] 0 - 0)) mod 2 ^ 64.
Proof.
  apply (energy_counts_pulses [5; 5] 0 [packet1; packet1] (RuningInf 0 0 0 70 0 0 0 0)).
  - by split.
  - lia.
  - by unfold fits.
  - repeat (apply List.Forall2_cons || apply Forall2_nil_2); by apply (bool_decide_unpack _).
  - simpl. lia.
Defined.

(** Between two flagged power readings, a cycle time in a packet without
    the power flag is used only when it exceeds the filtered one by more than a
    quarter; it then replaces all three samples. *)
Theorem power_stale_spec a b c t :
  let m := median a b c in
  samples_ok [a; b; c] -> fits 24 t ->
  power_stale [a; b; c] t =
    (if (a =? t) || (t - m <=? m / 4) then [a; b; c] else [t; t; t]) /\
  filtered (power_stale [a; b; c] t) =
    (if (a =? t) || (t - m <=? m / 4) then m else t).
Proof.
  intros m Hs Ht.
  assert (power_stale [a; b; c] t =
    if (a =? t) || (t - m <=? m / 4) then [a; b; c] else [t; t; t]) as ->.
  { unfold power_stale, isUpdataNewData. change ([a; b; c].[0]) with a.
    destruct (a =? t); [done|]. cbn [negb orb]. rewrite filtered_median. fold m.
    assert (0 <= m).
    { destruct Hs as [_ Hf]. rewrite !Forall_cons in Hf. destruct Hf as (?&?&?&_).
      unfold m, median, fits in *. lia. }
    rewrite Z.shiftr_div_pow2 by lia. change (2 ^ 2) with 4. unfold wrap, fits in *.
    destruct (Z.leb_spec (t - m) (m / 4)), (Z.ltb_spec m t); cbn [andb].
    - rewrite Z.mod_small by lia. by destruct (Z.ltb_spec (m / 4) (t - m)); [lia|].
    - done.
    - rewrite Z.mod_small by lia. by destruct (Z.ltb_spec (m / 4) (t - m)); [|lia].
    - pose proof (Z.div_pos m 4 ltac:(lia) ltac:(lia)). lia. }
  split; [done|]. destruct (_ || _).
  - by rewrite filtered_median.
  - rewrite filtered_median. unfold median. lia.
Qed.

Lemma power_stale_spec_witness :
  power_stale [100; 90; 110] 200 =
    (if (100 =? 200) || (200 - median 100 90 110 <=? median 100 90 110 / 4)
     then [100; 90; 110] else [200; 200; 200]) /\
  filtered (power_stale [100; 90; 110] 200) =
    (if (100 =? 200) || (200 - median 100 90 110 <=? median 100 90 110 / 4)
     then median 100 90 110 else 200).
Proof.
  apply (power_stale_spec 100 90 110 200); by apply (bool_decide_unpack _).
Defined.

(** A counter that goes back by [d] with the overflow bit unchanged (a
    restarted chip) is read as almost 2^32 pulses, less [10 * d]. *)
Theorem energy_counter_reset buf inf d :
  packet buf -> energyFlowFlag inf = buf.[UART_IND_FG] / 128 ->
  buf.[UART_IND_EN] * 256 + buf.[UART_IND_EN + 1] = energyLast inf - d ->
  0 < d <= energyLast inf -> energyLast inf < 65536 ->
  energy (deal_energy buf inf) = (energy inf + 4294967296 - 10 * d) mod 2 ^ 64.
Proof.
  intros Hp Hf Hc Hd Hl. rewrite deal_energy_registers by done. cbv zeta. rewrite Hf, Hc, Z.eqb_refl.
  cbn [negb]. cbv iota. cbn [energy]. unfold wrap.
  assert ((energyLast inf - d - energyLast inf) mod 2 ^ 32 = 4294967296 - d) as ->.
  { change (2 ^ 32) with 4294967296. symmetry. apply Z.mod_unique with (-1); lia. }
  assert (((4294967296 - d) * 10) mod 2 ^ 32 = 4294967296 - 10 * d) as ->.
  { change (2 ^ 32) with 4294967296. symmetry. apply Z.mod_unique with 9; lia. }
  f_equal. lia.
Qed.

Lemma energy_counter_reset_witness :
  energy (deal_energy packet1 (RuningInf 0 0 0 0 0 100 0 0)) =
    (0 + 4294967296 - 10 * 95) mod 2 ^ 64.
Proof.
  apply (energy_counter_reset packet1 (RuningInf 0 0 0 0 0 100 0 0) 95 packet1_ok);
    done || (cbn [energyLast]; lia).
Defined.

(** From power-up, the first accepted normal packet divides by zero
    unless it announces a power reading with a coefficient of at least 2. *)
Theorem first_packet_power buf :
  packet buf -> packet_checksum buf = buf.[23] -> buf.[UART_IND_HD] = 0x55 ->
  DealUartInf buf 24 hlw_init = DivByZero <->
  (flag_set buf 0x10 = false \/ read24 buf UART_IND_PK < 2).
Proof.
  intros [_ Hb] Hc Hh. unfold DealUartInf. change (24 =? 24) with true. cbn [negb].
  rewrite Hc, Z.eqb_refl, Hh. cbn [negb]. change (0x55 =? 0x55) with true. cbv iota.
  pose proof (deal_normal_cases buf hlw_init Hb hlw_init_is_ok) as H.
  unfold power_coeff in H. change (powerNewFlag hlw_init =? 0) with false in H.
  rewrite orb_false_r in H. destruct (flag_set buf 16).
  - destruct (Z.ltb_spec (read24 buf UART_IND_PK) 2).
    + rewrite H. split; [by right|done].
    + destruct H as (s' & e & -> & _). split; [done|]. intros [?|?]; [done|lia].
  - change (0 <? 2) with true in H. cbv iota in H. rewrite H. split; [by left|done].
Qed.

Lemma first_packet_power_witness :
  DealUartInf packet1 24 hlw_init = DivByZero <->
  (flag_set packet1 0x10 = false \/ read24 packet1 UART_IND_PK < 2).
Proof. exact (first_packet_power packet1 packet1_ok eq_refl eq_refl). Defined.

(** ** The serial port *)

Lemma set_parity_result before databits stopbits parity t :
  set_parity (Some before) true databits stopbits parity = inl t ->
  (databits = 7 \/ databits = 8) /\ (stopbits = 1 \/ stopbits = 2) /\
  c_lflag t = 0 /\ c_oflag t = 0 /\ c_vtime t = 0 /\ c_vmin t = 24 /\
  Z.testbit (c_iflag t) 8 = false.
Proof.
  unfold set_parity, databits_flag, stopbits_flags.
  destruct (Z.eqb_spec databits 7), (Z.eqb_spec databits 8), (Z.eqb_spec stopbits 1),
    (Z.eqb_spec stopbits 2); try discriminate; try lia;
    destruct (parity_flags _ _ _) as [[c i]|]; try discriminate; intros [= <-];
    cbn [c_lflag c_oflag c_vtime c_vmin c_iflag]; unfold clrf;
    rewrite Z.ldiff_spec; change (Z.testbit ICRNL 8) with true; rewrite andb_false_r; tauto.
Qed.

(** [set_serial] as [main] calls it (8 data bits, 1 stop bit, even
    parity) installs 4800 baud, 8E1, parity checked on input, carriage returns
    kept, reads of 24 bytes; every refusal (an unsupported size, parity or stop
    count, or a failing system call) gives -EPERM and leaves the port alone. *)
Theorem set_serial_8E1 before set_ok databits stopbits parity :
  set_serial (Some before) true 8 1 69 =
    (0, Some (Termios (Z.lor (Z.lor (Z.lor (Z.lor B4800 CLOCAL) CREAD) CS8) PARENB)
               (Z.ldiff (Z.lor (c_iflag before) INPCK) ICRNL) 0 0 0 24)) /\
  (forall e, set_parity (Some before) set_ok databits stopbits parity = inr e ->
     set_serial (Some before) set_ok databits stopbits parity = (-1, Some before) /\
     match e with
     | GetAttr => False
     | DataSize => databits <> 7 /\ databits <> 8
     | Parity => parity_flags parity 0 0 = None
     | StopBits => stopbits <> 1 /\ stopbits <> 2
     | SetAttr => set_ok = false
     end).
Proof.
  split.
  - unfold set_serial. cbn. do 3 f_equal. unfold clrf, setf.
    rewrite <-Z.lor_assoc. by rewrite Z.lor_diag.
  - intros e He. unfold set_serial. rewrite He. split; [done|]. revert He.
    unfold set_parity, databits_flag, stopbits_flags, parity_flags.
    destruct (Z.eqb_spec databits 7), (Z.eqb_spec databits 8); try lia;
      repeat case_match; intros ?; simplify_eq; done || lia.
Qed.

Lemma set_serial_8E1_witness :
  set_serial (Some (Termios 0 0 0 0 0 0)) true 9 1 69 = (-1, Some (Termios 0 0 0 0 0 0)).
Proof.
  exact (proj1 (proj2 (set_serial_8E1 (Termios 0 0 0 0 0 0) true 9 1 69) DataSize eq_refl)).
Defined.

(** The letter 'N' asks for no parity like 'n' does, and clears the
    parity bit, but leaves input parity checking on; only 'n' turns it off. *)
Theorem set_parity_N_keeps_INPCK before t t' :
  set_parity (Some before) true 8 1 78 = inl t ->
  set_parity (Some before) true 8 1 110 = inl t' ->
  c_cflag t = c_cflag t' /\ Z.testbit (c_cflag t) 8 = false /\
  Z.testbit (c_iflag t) 4 = true /\ Z.testbit (c_iflag t') 4 = false.
Proof.
  intros [= <-] [= <-]. cbn [c_cflag c_iflag]. split; [done|]. split; [done|].
  unfold clrf, setf. rewrite !Z.ldiff_spec, Z.lor_spec, !Z.ldiff_spec.
  change (Z.testbit INPCK 4) with true. change (Z.testbit ICRNL 4) with false.
  split; [by rewrite orb_true_r|]. by rewrite andb_false_r.
Qed.

Lemma set_parity_N_keeps_INPCK_witness :
  exists t t', c_cflag t = c_cflag t' /\ Z.testbit (c_cflag t) 8 = false /\
  Z.testbit (c_iflag t) 4 = true /\ Z.testbit (c_iflag t') 4 = false.
Proof.
  eexists _, _.
  exact (set_parity_N_keeps_INPCK (Termios 0 0 0 0 0 0) _ _ eq_refl eq_refl).
Defined.

(** ** The receive loop *)

Record driver_ok (d : driver) : Prop := DriverOk {
  dok_state : hlw_ok (d_state d);
  dok_hlw : length (hlw_buff d) = 24%nat /\ Forall (fits 8) (hlw_buff d);
  dok_buf : length (d_buf d) = 48%nat /\ Forall (fits 8) (d_buf d)
}.

Lemma cpy_ok src dest n : (n <= length src)%nat -> (n <= length dest)%nat ->
  Forall (fits 8) src -> Forall (fits 8) dest ->
  length (cpy src dest n) = length dest /\ Forall (fits 8) (cpy src dest n).
Proof.
  intros. unfold cpy. split.
  - rewrite length_app, length_take, length_drop. lia.
  - apply Forall_app. split; [by apply Forall_take|by apply Forall_drop].
Qed.

(** What [read] can deliver. *)
Definition read_result (input : option (list Z)) : Prop :=
  match input with None => True | Some b => (length b <= 48)%nat /\ Forall (fits 8) b end.

#[export] Instance read_result_dec i : Decision (read_result i).
Proof. destruct i; apply _. Defined.

Lemma existsb_second buf : (2 <= length buf)%nat -> buf.[1] = 0x5A ->
  existsb (Z.eqb 0x5A) (take 24 buf) = true.
Proof.
  destruct buf as [|x [|y buf]]; simpl; [lia..|]. intros _ ->. by rewrite orb_true_r.
Qed.

(** A turn of the loop hands a read of exactly 24 bytes whose second
    byte is the check byte 0x5A to the handler as it is; a read of any other
    length changes nothing of the measurements. The buffers keep their sizes
    and the turn consumes the pending input. *)
Theorem deal_turn_packets d input :
  driver_ok d -> read_result input -> input_pending d = true ->
  match deal_turn input d with
  | DivByZero => exists b, input = Some b /\ length b = 24%nat
  | Returns (d', e) =>
      driver_ok d' /\ input_pending d' = false /\
      match input with
      | Some b =>
          if decide (length b = 24%nat)
          then b.[1] = 0x5A ->
               exists r, DealUartInf b 24 (d_state d) = Returns (r, d_state d', e)
          else d_state d' = d_state d
      | None => d_state d' = d_state d
      end
  end.
Proof.
  intros [Hs [Hhl Hhb] [Hbl Hbb]] Hi Hp. unfold deal_turn. rewrite Hp.
  set (rb := match input with None => _ | Some _ => _ end).
  assert (length rb.2 = 48%nat /\ Forall (fits 8) rb.2 /\
    match input with
    | Some b => rb.1 = Z.of_nat (length b) /\
                (length b = 24%nat -> take 24 rb.2 = b)
    | None => rb.1 = -1 end) as (Hrl & Hrb & Hr1).
  { unfold rb. destruct input as [b|]; cbn [fst snd]; [|done]. destruct Hi as [Hi1 Hi2].
    destruct (cpy_ok b (d_buf d) (length b)) as [H1 H2]; [lia|lia|done|done|].
    split; [lia|]. split; [done|]. split; [done|]. intros Hb24. unfold cpy.
    rewrite firstn_all. by apply take_app_length'. }
  clearbody rb. destruct rb as [res buf]. cbn [fst snd] in *.
  set (hb := if existsb _ _ then _ else _).
  assert (length hb = 24%nat /\ Forall (fits 8) hb) as [Hh1 Hh2].
  { unfold hb, DATA_PACKAGE. destruct (existsb _ _); [|done].
    destruct (cpy_ok buf (hlw_buff d) 24) as [H1 H2]; [lia|lia|done|done|].
    split; [lia|done]. }
  assert (forall b, input = Some b -> length b = 24%nat -> b.[1] = 0x5A -> hb = b) as Hb24.
  { intros b -> Hl Hb1. destruct Hr1 as [_ Ht]. specialize (Ht Hl). unfold hb.
    unfold DATA_PACKAGE. rewrite Ht.
    rewrite <-(firstn_all b), Hl, existsb_second by (done || lia).
    unfold cpy. rewrite Ht, drop_ge, app_nil_r by lia. rewrite <-Hl. by rewrite firstn_all. }
  clearbody hb.
  destruct (Z.eqb_spec (hb.[1]) 0x5A) as [H5|H5].
  - pose proof (DealUartInf_cases hb res (d_state d) Hh2 Hs) as Hout.
    destruct (DealUartInf hb res (d_state d)) as [[[r s'] e]|] eqn:HD.
    + destruct Hout as (_ & Hs' & Hc). split; [by constructor|]. split; [done|].
      cbn [d_state]. destruct input as [b|].
      * destruct Hr1 as [-> _]. destruct (decide (length b = 24%nat)) as [Hl|Hl].
        -- intros Hb1. exists r. rewrite <-(Hb24 b), <-HD, Hl by done. done.
        -- destruct Hc as [(_&?&_) | [(_&_&?) | (_&?&_)]]; [lia|done|lia].
      * destruct Hc as [(_&?&_) | [(_&_&?) | (_&?&_)]]; [lia|done|lia].
    + destruct Hout as (Hr & _). destruct input as [b|]; [|lia].
      exists b. split; [done|]. lia.
  - split; [by constructor|]. split; [done|]. cbn [d_state].
    destruct input as [b|]; [|done]. destruct (decide _) as [Hl|]; [|done].
    intros Hb1. by rewrite (Hb24 b) in H5.
Qed.

Lemma deal_turn_packets_witness :
  let d := signal_handler_IO driver_init in
  match deal_turn (Some packet1) d with
  | DivByZero => exists b, Some packet1 = Some b /\ length b = 24%nat
  | Returns (d', e) =>
      driver_ok d' /\ input_pending d' = false /\
      if decide (length packet1 = 24%nat)
      then packet1.[1] = 0x5A ->
           exists r, DealUartInf packet1 24 (d_state d) = Returns (r, d_state d', e)
      else d_state d' = d_state d
  end.
Proof.
  refine (deal_turn_packets (signal_handler_IO driver_init) (Some packet1) _ _ eq_refl).
  - destruct driver_init_ok as (_ & ? & ? & ? & ?). constructor; [apply hlw_init_is_ok|done..].
  - by apply (bool_decide_unpack _).
Defined.
