(* ===== verification/KList.v ===== *)
(** * KList: the linked lists of [src/config_item/include/list.h]

    The kernel's doubly linked circular lists ([struct list_head]) and its
    pointer-to-pointer lists ([struct hlist_head], [struct hlist_node]), on an
    explicit store. Both kinds of node have two pointer fields, at offsets 0 and
    8: [nxt] maps an address to the field at offset 0 ([next], or [first] of a
    [hlist_head]), [prv] to the field at offset 8 ([prev] or [pprev]). A
    [struct hlist_node **] is the address of a field at offset 0. *)
From S2P Require Import Prelude.
From S2P Require Import Memory.

Open Scope C.




Record heap := Heap { nxt : gmap addr addr; prv : gmap addr addr }.

Definition set_nxt (h : heap) (a v : addr) : heap := Heap (<[a := v]> (nxt h)) (prv h).
Definition set_prv (h : heap) (a v : addr) : heap := Heap (nxt h) (<[a := v]> (prv h)).

(** Loads and stores; they fail outside the allocated nodes. *)
Definition get_next (a : addr) : prog heap addr :=
  fun h => match nxt h !! a with Some v => Some (v, h) | None => None end.
Definition get_prev (a : addr) : prog heap addr :=
  fun h => match prv h !! a with Some v => Some (v, h) | None => None end.
Definition put_next (a v : addr) : prog heap unit :=
  fun h => match nxt h !! a with Some _ => Some (tt, set_nxt h a v) | None => None end.
Definition put_prev (a v : addr) : prog heap unit :=
  fun h => match prv h !! a with Some _ => Some (tt, set_prv h a v) | None => None end.

(** ** Doubly linked lists *)

Definition LIST_POISON1 : addr := 0x00100100.
Definition LIST_POISON2 : addr := 0x00200200.

Definition INIT_LIST_HEAD (list : addr) : prog heap unit :=
  put_next list list ;;; put_prev list list.

Definition __list_add (new prev next : addr) : prog heap unit :=
  put_prev next new ;;; put_next new next ;;; put_prev new prev ;;; put_next prev new.

Definition list_add (new head : addr) : prog heap unit :=
  do n <- get_next head; __list_add new head n.

Definition list_add_tail (new head : addr) : prog heap unit :=
  do p <- get_prev head; __list_add new p head.

Definition __list_del (prev next : addr) : prog heap unit :=
  put_prev next prev ;;; put_next prev next.

Definition __list_del_entry (entry : addr) : prog heap unit :=
  do p <- get_prev entry; do n <- get_next entry; __list_del p n.

Definition list_del (entry : addr) : prog heap unit :=
  do p <- get_prev entry; do n <- get_next entry; __list_del p n ;;;
  put_next entry LIST_POISON1 ;;; put_prev entry LIST_POISON2.

Definition list_replace (old new : addr) : prog heap unit :=
  do n <- get_next old; put_next new n ;;;
  do n <- get_next new; put_prev n new ;;;
  do p <- get_prev old; put_prev new p ;;;
  do p <- get_prev new; put_next p new.

Definition list_replace_init (old new : addr) : prog heap unit :=
  list_replace old new ;;; INIT_LIST_HEAD old.

Definition list_del_init (entry : addr) : prog heap unit :=
  __list_del_entry entry ;;; INIT_LIST_HEAD entry.

Definition list_move (list head : addr) : prog heap unit :=
  __list_del_entry list ;;; list_add list head.

Definition list_move_tail (list head : addr) : prog heap unit :=
  __list_del_entry list ;;; list_add_tail list head.

Definition list_is_last (list head : addr) : prog heap bool :=
  do n <- get_next list; pret (n =? head).

Definition list_empty (head : addr) : prog heap bool :=
  do n <- get_next head; pret (n =? head).

Definition list_empty_careful (head : addr) : prog heap bool :=
  do next <- get_next head;
  if next =? head then do p <- get_prev head; pret (next =? p) else pret false.

Definition list_rotate_left (head : addr) : prog heap unit :=
  do e <- list_empty head;
  if e then pret tt else do first <- get_next head; list_move_tail first head.

Definition list_is_singular (head : addr) : prog heap bool :=
  do e <- list_empty head;
  if e then pret false
  else do n <- get_next head; do p <- get_prev head; pret (n =? p).

Definition __list_cut_position (list head entry : addr) : prog heap unit :=
  do new_first <- get_next entry;
  do n <- get_next head; put_next list n ;;;
  do n <- get_next list; put_prev n list ;;;
  put_prev list entry ;;; put_next entry list ;;;
  put_next head new_first ;;; put_prev new_first head.

Definition list_cut_position (list head entry : addr) : prog heap unit :=
  do e <- list_empty head;
  if e then pret tt
  else
    do s <- list_is_singular head;
    do n <- get_next head;
    if s && (negb (n =? entry) && negb (head =? entry)) then pret tt
    else if entry =? head then INIT_LIST_HEAD list
    else __list_cut_position list head entry.

Definition __list_splice (list prev next : addr) : prog heap unit :=
  do first <- get_next list; do last <- get_prev list;
  put_prev first prev ;;; put_next prev first ;;;
  put_next last next ;;; put_prev next last.

Definition list_splice (list head : addr) : prog heap unit :=
  do e <- list_empty list;
  if e then pret tt else do n <- get_next head; __list_splice list head n.

Definition list_splice_tail (list head : addr) : prog heap unit :=
  do e <- list_empty list;
  if e then pret tt else do p <- get_prev head; __list_splice list p head.

Definition list_splice_init (list head : addr) : prog heap unit :=
  do e <- list_empty list;
  if e then pret tt
  else do n <- get_next head; __list_splice list head n ;;; INIT_LIST_HEAD list.

Definition list_splice_tail_init (list head : addr) : prog heap unit :=
  do e <- list_empty list;
  if e then pret tt
  else do p <- get_prev head; __list_splice list p head ;;; INIT_LIST_HEAD list.

(** The iteration macros as the list of cursors the body sees; [fuel] bounds
    the number of turns, and running out of it is a failure. *)
Fixpoint list_for_each_from (step : addr -> prog heap addr) (fuel : nat)
    (pos head : addr) : prog heap (list addr) :=
  if pos =? head then pret []
  else match fuel with
       | O => pfail
       | S fuel =>
           do p <- step pos; do l <- list_for_each_from step fuel p head; pret (pos :: l)
       end.

Definition list_for_each (fuel : nat) (head : addr) : prog heap (list addr) :=
  do pos <- get_next head; list_for_each_from get_next fuel pos head.

Definition list_for_each_prev (fuel : nat) (head : addr) : prog heap (list addr) :=
  do pos <- get_prev head; list_for_each_from get_prev fuel pos head.

(** [list_for_each_safe] with a body that may remove the current entry. *)
Fixpoint list_for_each_safe_from (body : addr -> prog heap unit) (fuel : nat)
    (pos n head : addr) : prog heap (list addr) :=
  if pos =? head then pret []
  else match fuel with
       | O => pfail
       | S fuel =>
           body pos ;;;
           do n' <- get_next n;
           do l <- list_for_each_safe_from body fuel n n' head; pret (pos :: l)
       end.

Definition list_for_each_safe (body : addr -> prog heap unit) (fuel : nat) (head : addr)
  : prog heap (list addr) :=
  do pos <- get_next head; do n <- get_next pos;
  list_for_each_safe_from body fuel pos n head.

(** ** Lists with a pointer to the previous [next] field *)

Definition INIT_HLIST_HEAD (h : addr) : prog heap unit := put_next h NULL.

Definition INIT_HLIST_NODE (n : addr) : prog heap unit :=
  put_next n NULL ;;; put_prev n NULL.

Definition hlist_unhashed (n : addr) : prog heap bool :=
  do p <- get_prev n; pret (p =? NULL).

Definition hlist_empty (h : addr) : prog heap bool :=
  do f <- get_next h; pret (f =? NULL).

Definition __hlist_del (n : addr) : prog heap unit :=
  do next <- get_next n; do pprev <- get_prev n;
  put_next pprev next ;;;
  if negb (next =? NULL) then put_prev next pprev else pret tt.

Definition hlist_del (n : addr) : prog heap unit :=
  __hlist_del n ;;; put_next n LIST_POISON1 ;;; put_prev n LIST_POISON2.

Definition hlist_del_init (n : addr) : prog heap unit :=
  do u <- hlist_unhashed n;
  if negb u then __hlist_del n ;;; INIT_HLIST_NODE n else pret tt.

Definition hlist_add_head (n h : addr) : prog heap unit :=
  do first <- get_next h;
  put_next n first ;;;
  (if negb (first =? NULL) then put_prev first n else pret tt) ;;;
  put_next h n ;;; put_prev n h.

Definition hlist_add_before (n next : addr) : prog heap unit :=
  do p <- get_prev next; put_prev n p ;;;
  put_next n next ;;; put_prev next n ;;;
  do p <- get_prev n; put_next p n.

Definition hlist_add_behind (n prev : addr) : prog heap unit :=
  do x <- get_next prev; put_next n x ;;;
  put_next prev n ;;; put_prev n prev ;;;
  do x <- get_next n;
  if negb (x =? NULL) then put_prev x n else pret tt.

Definition hlist_add_fake (n : addr) : prog heap unit := put_prev n n.

Definition hlist_move_list (old new : addr) : prog heap unit :=
  do f <- get_next old; put_next new f ;;;
  do f <- get_next new;
  (if negb (f =? NULL) then put_prev f new else pret tt) ;;;
  put_next old NULL.

Fixpoint hlist_for_each_from (fuel : nat) (pos : addr) : prog heap (list addr) :=
  if pos =? NULL then pret []
  else match fuel with
       | O => pfail
       | S fuel => do p <- get_next pos; do l <- hlist_for_each_from fuel p; pret (pos :: l)
       end.

Definition hlist_for_each (fuel : nat) (head : addr) : prog heap (list addr) :=
  do pos <- get_next head; hlist_for_each_from fuel pos.
