(* ===== verification/KListFacts.v ===== *)
(** * KListFacts: the operations of list.h implement sequences

    [ring h head l]: the circular list at [head] holds exactly the entries [l],
    in order; [hlist h p l] is the same for the singly ended lists. Every
    operation is shown to run without a bad access and to give the ring of the
    corresponding sequence, touching nothing outside the lists involved. *)
From S2P Require Import Prelude.
From S2P Require Import Memory.
From S2P Require Import KList.

Open Scope C.

(** ** Symbolic execution *)

Lemma run_get_next {B} h a v (k : addr -> prog heap B) :
  nxt h !! a = Some v -> pbind (get_next a) k h = k v h.
Proof. intros H. unfold pbind, get_next. by rewrite H. Qed.
Lemma run_get_prev {B} h a v (k : addr -> prog heap B) :
  prv h !! a = Some v -> pbind (get_prev a) k h = k v h.
Proof. intros H. unfold pbind, get_prev. by rewrite H. Qed.
Lemma run_put_next {B} h a v (k : unit -> prog heap B) :
  is_Some (nxt h !! a) -> pbind (put_next a v) k h = k tt (set_nxt h a v).
Proof. intros [x H]. unfold pbind, put_next. by rewrite H. Qed.
Lemma run_put_prev {B} h a v (k : unit -> prog heap B) :
  is_Some (prv h !! a) -> pbind (put_prev a v) k h = k tt (set_prv h a v).
Proof. intros [x H]. unfold pbind, put_prev. by rewrite H. Qed.
Lemma end_put_next h a v :
  is_Some (nxt h !! a) -> put_next a v h = Some (tt, set_nxt h a v).
Proof. intros [x H]. unfold put_next. by rewrite H. Qed.
Lemma end_put_prev h a v :
  is_Some (prv h !! a) -> put_prev a v h = Some (tt, set_prv h a v).
Proof. intros [x H]. unfold put_prev. by rewrite H. Qed.
Lemma run_assoc {S A B D} (m : prog S A) (k : A -> prog S B) (k' : B -> prog S D) s :
  pbind (pbind m k) k' s = pbind m (fun a => pbind (k a) k') s.
Proof. unfold pbind. by destruct (m s) as [[a s']|]. Qed.
Lemma run_ret {S A B} (a : A) (k : A -> prog S B) s : pbind (pret a) k s = k a s.
Proof. reflexivity. Qed.

(** A stored field stays allocated, and the two fields are independent. *)
Lemma nxt_is_Some h a v x : is_Some (nxt h !! x) -> is_Some (nxt (set_nxt h a v) !! x).
Proof. intros. cbn. destruct (decide (a = x)) as [->|]; simplify_map_eq; eauto. Qed.
Lemma prv_is_Some h a v x : is_Some (prv h !! x) -> is_Some (prv (set_prv h a v) !! x).
Proof. intros. cbn. destruct (decide (a = x)) as [->|]; simplify_map_eq; eauto. Qed.
Lemma nxt_set_prv h a v : nxt (set_prv h a v) = nxt h.
Proof. done. Qed.
Lemma prv_set_nxt h a v : prv (set_nxt h a v) = prv h.
Proof. done. Qed.
Lemma nxt_same h a v : nxt (set_nxt h a v) !! a = Some v.
Proof. cbn. by simplify_map_eq. Qed.
Lemma prv_same h a v : prv (set_prv h a v) !! a = Some v.
Proof. cbn. by simplify_map_eq. Qed.
Lemma nxt_other h a v x : a <> x -> nxt (set_nxt h a v) !! x = nxt h !! x.
Proof. intros. cbn. by simplify_map_eq. Qed.
Lemma prv_other h a v x : a <> x -> prv (set_prv h a v) !! x = prv h !! x.
Proof. intros. cbn. by simplify_map_eq. Qed.

Create HintDb alloc.
Create Rewrite HintDb heap.
#[export] Hint Resolve nxt_is_Some prv_is_Some mk_is_Some : alloc.
#[export] Hint Rewrite nxt_set_prv prv_set_nxt nxt_same prv_same : heap.
#[export] Hint Rewrite nxt_other prv_other using congruence : heap.

(** One step of a program whose heap lookups are known. *)
Ltac alloc := autorewrite with heap; eauto 8 with alloc.
Ltac run1 :=
  first
    [ rewrite run_assoc
    | rewrite run_ret
    | erewrite run_get_next by (autorewrite with heap; eassumption || reflexivity)
    | erewrite run_get_prev by (autorewrite with heap; eassumption || reflexivity)
    | rewrite run_put_next by alloc
    | rewrite run_put_prev by alloc
    | rewrite end_put_next by alloc
    | rewrite end_put_prev by alloc ].
Ltac run := repeat run1.

(** ** Chains of nodes *)

Fixpoint linked (h : heap) (l : list addr) : Prop :=
  match l with
  | [] => True
  | a :: l' =>
      match l' with
      | [] => True
      | b :: _ => nxt h !! a = Some b /\ prv h !! b = Some a /\ linked h l'
      end
  end.

Lemma linked_app h l1 a l2 :
  linked h (l1 ++ a :: l2) <-> linked h (l1 ++ [a]) /\ linked h (a :: l2).
Proof.
  induction l1 as [|x l1 IH]; [simpl; tauto|].
  destruct l1 as [|y l1]; [simpl; tauto|].
  cbn in *. tauto.
Qed.

Lemma linked_cons h a b l :
  linked h (a :: b :: l) <-> (nxt h !! a = Some b /\ prv h !! b = Some a) /\ linked h (b :: l).
Proof. cbn. tauto. Qed.

(** A link in the middle. *)
Lemma linked_mid h A p n B :
  linked h (A ++ p :: n :: B) <->
  linked h (A ++ [p]) /\ (nxt h !! p = Some n /\ prv h !! n = Some p) /\ linked h (n :: B).
Proof. rewrite (linked_app h A p (n :: B)), linked_cons. tauto. Qed.

(** Stores outside the sources and targets of a chain leave it alone. *)
Lemma linked_frame h h' l :
  (forall x, x ∈ removelast l -> nxt h' !! x = nxt h !! x) ->
  (forall x, x ∈ tail l -> prv h' !! x = prv h !! x) ->
  linked h l -> linked h' l.
Proof.
  induction l as [|a l IH]; intros Hn Hp; [done|].
  destruct l as [|b l]; [done|]. rewrite !linked_cons. intros [[H1 H2] H3].
  split; [split|].
  - rewrite Hn; [done|]. left.
  - rewrite Hp; [done|]. left.
  - apply IH; [| |done].
    + intros x Hx. apply Hn. right. done.
    + intros x Hx. apply Hp. right. by destruct l; [apply not_elem_of_nil in Hx|].
Qed.

(** The circular list at [head]. *)
Definition ring (h : heap) (head : addr) (l : list addr) : Prop :=
  NoDup (head :: l) /\ linked h (head :: l ++ [head]).

Definition allocated (h : heap) (a : addr) : Prop :=
  is_Some (nxt h !! a) /\ is_Some (prv h !! a).

(** Nothing outside [S] changes. *)
Definition only (h h' : heap) (S : list addr) : Prop :=
  forall x, x ∉ S -> nxt h' !! x = nxt h !! x /\ prv h' !! x = prv h !! x.

Lemma ring_only h h' S head l :
  only h h' S -> (forall x, x ∈ head :: l -> x ∉ S) -> ring h head l -> ring h' head l.
Proof.
  intros Ho HS [Hnd Hl]. split; [done|]. revert Hl. apply linked_frame.
  - intros x Hx. apply Ho, HS. change (x ∈ removelast ((head :: l) ++ [head])) in Hx.
    by rewrite removelast_last in Hx.
  - intros x Hx. apply Ho, HS. cbn in Hx. set_solver.
Qed.

(** A non-empty list seen from both ends: the entry before a position, and
    the one after it, the head standing at both ends. *)
Lemma around head (l1 l2 : list addr) :
  exists (A : list addr) (p n : addr) (B : list addr), head :: l1 = A ++ [p] /\ l2 ++ [head] = n :: B.
Proof.
  destruct (exists_last (l := head :: l1)) as (A & p & HA); [done|].
  destruct (l2 ++ [head]) as [|n B] eqn:HB; [by destruct l2|].
  by exists A, p, n, B.
Qed.

(** What [NoDup] of the ring says about the two halves of [around]: the
    sources and targets of the two chains, apart from the cut. *)
Record cut (head : addr) (l1 l2 A : list addr) (p n : addr) (B : list addr) : Prop := Cut {
  cut_A : head :: l1 = A ++ [p];
  cut_B : l2 ++ [head] = n :: B;
  cut_src1 : forall x, x ∈ removelast (A ++ [p]) -> x <> p /\ x ∈ head :: l1 ++ l2;
  cut_tgt1 : forall x, x ∈ tail (A ++ [p]) -> x <> n /\ x ∈ head :: l1 ++ l2;
  cut_src2 : forall x, x ∈ removelast (n :: B) -> x <> p /\ x ∈ head :: l1 ++ l2;
  cut_tgt2 : forall x, x ∈ tail (n :: B) -> x <> n /\ x ∈ head :: l1 ++ l2;
  cut_p : p ∈ head :: l1 ++ l2;
  cut_n : n ∈ head :: l1 ++ l2
}.

Lemma ring_cut head l1 l2 : NoDup (head :: l1 ++ l2) ->
  exists A p n B, cut head l1 l2 A p n B.
Proof.
  intros Hnd. destruct (around head l1 l2) as (A & p & n & B & HA & HB).
  exists A, p, n, B.
  change (head :: l1 ++ l2) with ((head :: l1) ++ l2) in Hnd.
  apply NoDup_app in Hnd as (Hnd1 & Hdisj & Hnd2).
  assert (forall x, x ∈ head :: l1 -> x ∈ head :: l1 ++ l2) as Hin1.
  { intros x Hx. change (x ∈ (head :: l1) ++ l2). apply elem_of_app. by left. }
  assert (forall x, x ∈ l2 -> x ∈ head :: l1 ++ l2) as Hin2.
  { intros x Hx. change (x ∈ (head :: l1) ++ l2). apply elem_of_app. by right. }
  assert (p ∈ head :: l1) as Hp by (rewrite HA; apply elem_of_app; right; left).
  assert (n ∈ l2 ++ [head]) as Hn by (rewrite HB; left).
  assert (removelast (A ++ [p]) = A) as HrA by apply removelast_last.
  assert (tail (A ++ [p]) = l1) as HtA by by rewrite <-HA.
  assert (removelast (n :: B) = l2) as HrB by (rewrite <-HB; apply removelast_last).
  assert (NoDup (n :: B)) as HndB.
  { rewrite <-HB. apply NoDup_app. split; [done|]. split; [|apply NoDup_singleton].
    intros x Hx Hh. apply list_elem_of_singleton in Hh as ->. apply (Hdisj head); [left|done]. }
  assert (NoDup (A ++ [p])) as HndA by by rewrite <-HA.
  apply NoDup_cons in HndB as [HnB _].
  apply NoDup_app in HndA as (_ & HAp & _).
  constructor; try done.
  - rewrite HrA. intros x Hx. split.
    + intros ->. apply (HAp p Hx). left.
    + apply Hin1. rewrite HA. apply elem_of_app. by left.
  - rewrite HtA. intros x Hx. split.
    + intros ->. apply elem_of_app in Hn as [Hn|Hn].
      * apply (Hdisj n); [by right|done].
      * apply list_elem_of_singleton in Hn as ->. apply NoDup_cons in Hnd1 as [Hh _]. done.
    + apply Hin1. by right.
  - rewrite HrB. intros x Hx. split; [|by apply Hin2]. intros ->. by apply (Hdisj p).
  - cbn [tail]. intros x Hx. split; [intros ->; done|].
    assert (x ∈ l2 ++ [head]) as Hx' by (rewrite HB; by right).
    apply elem_of_app in Hx' as [Hx'|Hx']; [by apply Hin2|].
    apply list_elem_of_singleton in Hx' as ->. left.
  - by apply Hin1.
  - apply elem_of_app in Hn as [Hn|Hn]; [by apply Hin2|].
    apply list_elem_of_singleton in Hn as ->. left.
Qed.

(** The ring as one chain cut between [p] and [n]. *)
Lemma cut_chain head l1 l2 A p n B m : cut head l1 l2 A p n B ->
  head :: (l1 ++ m ++ l2) ++ [head] = A ++ p :: m ++ n :: B.
Proof.
  intros H. rewrite <-(cut_B _ _ _ _ _ _ _ H).
  change (p :: m ++ l2 ++ [head]) with ([p] ++ m ++ l2 ++ [head]).
  rewrite (app_assoc A), <-(cut_A _ _ _ _ _ _ _ H). cbn. by rewrite <-!app_assoc.
Qed.

(** Nodes of a ring are allocated. *)
Lemma linked_nxt h l x : linked h l -> x ∈ removelast l -> is_Some (nxt h !! x).
Proof.
  induction l as [|a l IH]; [intros _ Hx; by apply not_elem_of_nil in Hx|].
  destruct l as [|b l]; [intros _ Hx; by apply not_elem_of_nil in Hx|].
  rewrite linked_cons. intros [[H1 H2] H3] Hx.
  change (removelast (a :: b :: l)) with (a :: removelast (b :: l)) in Hx.
  apply elem_of_cons in Hx as [-> |Hx]; [by eexists|by apply IH].
Qed.

Lemma linked_prv h l x : linked h l -> x ∈ tail l -> is_Some (prv h !! x).
Proof.
  induction l as [|a l IH]; [intros _ Hx; by apply not_elem_of_nil in Hx|].
  destruct l as [|b l]; [intros _ Hx; by apply not_elem_of_nil in Hx|].
  rewrite linked_cons. intros [[H1 H2] H3] Hx.
  cbn in Hx. apply elem_of_cons in Hx as [-> |Hx]; [by eexists|].
  apply IH; [done|]. by destruct l; [apply not_elem_of_nil in Hx|].
Qed.

Lemma ring_allocated h head l x : ring h head l -> x ∈ head :: l -> allocated h x.
Proof.
  intros [_ Hl] Hx. split.
  - eapply linked_nxt; [exact Hl|].
    change (head :: l ++ [head]) with ((head :: l) ++ [head]). by rewrite removelast_last.
  - eapply linked_prv; [exact Hl|]. cbn. set_solver.
Qed.

(** [miss H]: the updates of the goal's store miss a chain whose nodes
    satisfy [H]. *)
Ltac fresh_ne :=
  repeat match goal with
  | Hn : ?y ∉ ?l, Hx : ?x ∈ ?l |- _ =>
      lazymatch goal with
      | _ : x <> y |- _ => fail
      | _ => assert (x <> y) by (intros ->; exact (Hn Hx))
      end
  end.
Ltac miss H :=
  let x := fresh "x" in let Hx := fresh "Hx" in
  intros x Hx; apply H in Hx as [? ?]; fresh_ne; autorewrite with heap;
  repeat first [rewrite nxt_other by congruence | rewrite prv_other by congruence];
  reflexivity.

(** ** Insertion *)

(** The four stores of [__list_add]. *)
Definition add_stores (h : heap) (new prev next : addr) : heap :=
  set_nxt (set_prv (set_nxt (set_prv h next new) new next) new prev) prev new.

Lemma __list_add_run h new prev next :
  allocated h new -> allocated h prev -> allocated h next ->
  __list_add new prev next h = Some (tt, add_stores h new prev next).
Proof. intros [? ?] [? ?] [? ?]. unfold __list_add. by run. Qed.

Lemma add_stores_ring h head l1 l2 A p n B new :
  ring h head (l1 ++ l2) -> new ∉ head :: l1 ++ l2 -> cut head l1 l2 A p n B ->
  ring (add_stores h new p n) head (l1 ++ new :: l2) /\
  only h (add_stores h new p n) [new; p; n].
Proof.
  intros [Hnd Hl] Hnew Hc. assert (Hp := cut_p _ _ _ _ _ _ _ Hc).
  assert (Hn := cut_n _ _ _ _ _ _ _ Hc). fresh_ne. unfold add_stores.
  split; [split|].
  - change (head :: l1 ++ new :: l2) with ((head :: l1) ++ new :: l2).
    rewrite <-Permutation_middle. by apply NoDup_cons.
  - change (l1 ++ l2) with (l1 ++ [] ++ l2) in Hl.
    rewrite (cut_chain _ _ _ _ _ _ _ [] Hc) in Hl.
    change (l1 ++ new :: l2) with (l1 ++ [new] ++ l2).
    rewrite (cut_chain _ _ _ _ _ _ _ [new] Hc).
    apply linked_mid in Hl as (H1 & H2 & H3). apply linked_mid. cbn [app].
    rewrite linked_cons. split; [|split; [|split]].
    + revert H1. apply linked_frame; [miss (cut_src1 _ _ _ _ _ _ _ Hc)|miss (cut_tgt1 _ _ _ _ _ _ _ Hc)].
    + split; autorewrite with heap; done.
    + split; autorewrite with heap; done.
    + revert H3. apply linked_frame; [miss (cut_src2 _ _ _ _ _ _ _ Hc)|miss (cut_tgt2 _ _ _ _ _ _ _ Hc)].
  - intros x Hx. rewrite !not_elem_of_cons in Hx. destruct Hx as (?&?&?&_).
    by autorewrite with heap.
Qed.

(** The link across a cut. *)
Lemma ring_cut_link h head l1 l2 A p n B :
  ring h head (l1 ++ l2) -> cut head l1 l2 A p n B ->
  nxt h !! p = Some n /\ prv h !! n = Some p.
Proof.
  intros [_ Hl] Hc. change (l1 ++ l2) with (l1 ++ [] ++ l2) in Hl.
  rewrite (cut_chain _ _ _ _ _ _ _ [] Hc) in Hl.
  by apply linked_mid in Hl as (_ & H & _).
Qed.

Lemma cut_first head l A p n B : cut head [] l A p n B -> p = head.
Proof.
  intros [H _ _ _ _ _ _ _]. destruct A as [|a [|]]; simplify_eq/=; done.
Qed.
Lemma cut_last head l A p n B : cut head l [] A p n B -> n = head.
Proof. intros [_ H _ _ _ _ _ _]. by simplify_eq/=. Qed.

Lemma only_mono h h' S S' :
  only h h' S -> (forall x, x ∈ S -> x ∈ S') -> only h h' S'.
Proof. intros H HS x Hx. apply H. intros Hx'. by apply Hx, HS. Qed.

Lemma only_trans h1 h2 h3 S : only h1 h2 S -> only h2 h3 S -> only h1 h3 S.
Proof.
  intros H1 H2 x Hx. destruct (H1 x Hx) as [<- <-]. by apply H2.
Qed.

(** The entries and head of a ring, with a new entry: what insertions touch. *)
Lemma add_touches head l1 l2 A p n B new : cut head l1 l2 A p n B ->
  forall x, x ∈ [new; p; n] -> x ∈ new :: head :: l1 ++ l2.
Proof.
  intros Hc x. rewrite !elem_of_cons. intros [-> | [-> | [-> | H]]].
  - by left.
  - right. apply elem_of_cons. apply (cut_p _ _ _ _ _ _ _ Hc).
  - right. apply elem_of_cons. apply (cut_n _ _ _ _ _ _ _ Hc).
  - by apply not_elem_of_nil in H.
Qed.

Lemma list_add_spec h head l new :
  ring h head l -> new ∉ head :: l -> allocated h new ->
  exists h', list_add new head h = Some (tt, h') /\ ring h' head (new :: l) /\
             only h h' (new :: head :: l).
Proof.
  intros Hr Hnew Ha. destruct (ring_cut head [] l (proj1 Hr)) as (A & p & n & B & Hc).
  pose proof (ring_cut_link h head [] l A p n B Hr Hc) as [Hn Hp].
  pose proof (add_stores_ring h head [] l A p n B new Hr Hnew Hc) as [Hr' Ho].
  pose proof (cut_n _ _ _ _ _ _ _ Hc) as Hin. pose proof (cut_p _ _ _ _ _ _ _ Hc) as Hip.
  pose proof (add_touches _ _ _ _ _ _ _ new Hc) as Ht.
  rewrite (cut_first _ _ _ _ _ _ Hc) in *.
  exists (add_stores h new head n). split; [|split; [done|]].
  - unfold list_add. erewrite run_get_next by exact Hn.
    apply __list_add_run; [done|..]; eapply ring_allocated; done.
  - by apply (only_mono _ _ _ _ Ho).
Qed.

Lemma list_add_tail_spec h head l new :
  ring h head l -> new ∉ head :: l -> allocated h new ->
  exists h', list_add_tail new head h = Some (tt, h') /\ ring h' head (l ++ [new]) /\
             only h h' (new :: head :: l).
Proof.
  intros Hr Hnew Ha. rewrite <-(app_nil_r l) in Hr, Hnew.
  destruct (ring_cut head l [] (proj1 Hr)) as (A & p & n & B & Hc).
  pose proof (ring_cut_link h head l [] A p n B Hr Hc) as [Hn Hp].
  pose proof (add_stores_ring h head l [] A p n B new Hr Hnew Hc) as [Hr' Ho].
  pose proof (cut_n _ _ _ _ _ _ _ Hc) as Hin. pose proof (cut_p _ _ _ _ _ _ _ Hc) as Hip.
  pose proof (add_touches _ _ _ _ _ _ _ new Hc) as Ht.
  rewrite (cut_last _ _ _ _ _ _ Hc) in *.
  exists (add_stores h new p head). split; [|split; [done|]].
  - unfold list_add_tail. erewrite run_get_prev by exact Hp.
    apply __list_add_run; [done|..]; eapply ring_allocated; done.
  - rewrite app_nil_r in Ht. by apply (only_mono _ _ _ _ Ho).
Qed.

(** ** Deletion *)

Definition del_stores (h : heap) (prev next : addr) : heap :=
  set_nxt (set_prv h next prev) prev next.

Lemma ring_member_nodup (head : addr) (l1 : list addr) (e : addr) (l2 : list addr) :
  NoDup (head :: l1 ++ e :: l2) -> NoDup (head :: l1 ++ l2) /\ e ∉ head :: l1 ++ l2.
Proof.
  change (head :: l1 ++ e :: l2) with ((head :: l1) ++ e :: l2).
  rewrite <-Permutation_middle, NoDup_cons. tauto.
Qed.

(** The neighbours of a member. *)
Lemma ring_entry_links h head l1 e l2 A p n B :
  ring h head (l1 ++ e :: l2) -> cut head l1 l2 A p n B ->
  nxt h !! e = Some n /\ prv h !! e = Some p /\ nxt h !! p = Some e /\ prv h !! n = Some e.
Proof.
  intros [_ Hl] Hc. change (l1 ++ e :: l2) with (l1 ++ [e] ++ l2) in Hl.
  rewrite (cut_chain _ _ _ _ _ _ _ [e] Hc) in Hl. cbn [app] in Hl.
  apply linked_mid in Hl as (_ & [H1 H2] & H). apply linked_cons in H as [[H3 H4] _]. done.
Qed.

Lemma del_stores_ring h head l1 e l2 A p n B :
  ring h head (l1 ++ e :: l2) -> cut head l1 l2 A p n B ->
  ring (del_stores h p n) head (l1 ++ l2) /\ only h (del_stores h p n) [p; n] /\
  allocated (del_stores h p n) e.
Proof.
  intros [Hnd Hl] Hc. destruct (ring_member_nodup _ _ _ _ Hnd) as [Hnd' He].
  assert (Hp := cut_p _ _ _ _ _ _ _ Hc). assert (Hn := cut_n _ _ _ _ _ _ _ Hc).
  assert (allocated h e) as [Ha1 Ha2].
  { apply (ring_allocated h head (l1 ++ e :: l2)); [done|].
    change (e ∈ (head :: l1) ++ e :: l2). apply elem_of_app. right. left. }
  unfold del_stores. split; [split|split].
  - done.
  - change (l1 ++ e :: l2) with (l1 ++ [e] ++ l2) in Hl.
    rewrite (cut_chain _ _ _ _ _ _ _ [e] Hc) in Hl. cbn [app] in Hl.
    change (l1 ++ l2) with (l1 ++ [] ++ l2). rewrite (cut_chain _ _ _ _ _ _ _ [] Hc).
    apply linked_mid in Hl as (H1 & H2 & H3). apply linked_cons in H3 as [_ H3].
    apply linked_mid. split; [|split].
    + revert H1. apply linked_frame; [miss (cut_src1 _ _ _ _ _ _ _ Hc)|miss (cut_tgt1 _ _ _ _ _ _ _ Hc)].
    + split; autorewrite with heap; done.
    + revert H3. apply linked_frame; [miss (cut_src2 _ _ _ _ _ _ _ Hc)|miss (cut_tgt2 _ _ _ _ _ _ _ Hc)].
  - intros x Hx. rewrite !not_elem_of_cons in Hx. destruct Hx as (?&?&_).
    by autorewrite with heap.
  - split; alloc.
Qed.

Lemma del_entry_run h head l1 e l2 A p n B {X} (k : unit -> prog heap X) :
  ring h head (l1 ++ e :: l2) -> cut head l1 l2 A p n B ->
  pbind (__list_del_entry e) k h = k tt (del_stores h p n).
Proof.
  intros Hr Hc. destruct (ring_entry_links h head l1 e l2 A p n B Hr Hc) as (H1 & H2 & H3 & H4).
  unfold __list_del_entry, __list_del. by run.
Qed.

(** What a deletion touches. *)
Lemma del_touches head l1 e l2 A p n B : cut head l1 l2 A p n B ->
  forall x, x ∈ [p; n; e] -> x ∈ head :: l1 ++ e :: l2.
Proof.
  intros Hc x. assert (forall y, y ∈ head :: l1 ++ l2 -> y ∈ head :: l1 ++ e :: l2) as Hi.
  { intros y. change (y ∈ (head :: l1) ++ l2 -> y ∈ (head :: l1) ++ e :: l2).
    rewrite !elem_of_app, (elem_of_cons l2). tauto. }
  rewrite !elem_of_cons. intros [-> | [-> | [-> | H]]].
  - rewrite <-elem_of_cons. apply Hi, (cut_p _ _ _ _ _ _ _ Hc).
  - rewrite <-elem_of_cons. apply Hi, (cut_n _ _ _ _ _ _ _ Hc).
  - right. apply elem_of_app. right. left.
  - by apply not_elem_of_nil in H.
Qed.

Lemma store_pair_only h e v w : only h (set_prv (set_nxt h e v) e w) [e].
Proof.
  intros x Hx. rewrite not_elem_of_cons in Hx. destruct Hx as [? _]. by autorewrite with heap.
Qed.

(** Deleting, then storing both fields of the entry: the common part of
    [list_del] and [list_del_init]. *)
Lemma del_then_store h head l1 e l2 A p n B v w :
  ring h head (l1 ++ e :: l2) -> cut head l1 l2 A p n B ->
  let h' := set_prv (set_nxt (del_stores h p n) e v) e w in
  ring h' head (l1 ++ l2) /\ nxt h' !! e = Some v /\ prv h' !! e = Some w /\
  only h h' (head :: l1 ++ e :: l2).
Proof.
  intros Hr Hc h'. destruct (del_stores_ring h head l1 e l2 A p n B Hr Hc) as (Hr' & Ho & Ha).
  destruct (ring_member_nodup _ _ _ _ (proj1 Hr)) as [_ He].
  split; [|split; [|split]].
  - apply (ring_only _ _ _ _ _ (store_pair_only _ e v w)); [|done].
    intros x Hx Hx'. apply list_elem_of_singleton in Hx' as ->. done.
  - unfold h'. by autorewrite with heap.
  - unfold h'. by autorewrite with heap.
  - assert (Ht := del_touches head l1 e l2 A p n B Hc).
    eapply only_trans.
    + apply (only_mono _ _ _ _ Ho). intros x Hx. apply Ht. set_solver.
    + apply (only_mono _ _ _ _ (store_pair_only _ e v w)). intros x Hx. apply Ht. set_solver.
Qed.

Lemma list_del_spec h head l1 e l2 :
  ring h head (l1 ++ e :: l2) ->
  exists h', list_del e h = Some (tt, h') /\ ring h' head (l1 ++ l2) /\
    nxt h' !! e = Some LIST_POISON1 /\ prv h' !! e = Some LIST_POISON2 /\
    only h h' (head :: l1 ++ e :: l2).
Proof.
  intros Hr. destruct (ring_member_nodup _ _ _ _ (proj1 Hr)) as [Hnd _].
  destruct (ring_cut head l1 l2 Hnd) as (A & p & n & B & Hc).
  eexists. split; [|exact (del_then_store h head l1 e l2 A p n B _ _ Hr Hc)].
  destruct (ring_entry_links h head l1 e l2 A p n B Hr Hc) as (H1 & H2 & H3 & H4).
  unfold list_del, __list_del. by run.
Qed.

Lemma single_ring h e : nxt h !! e = Some e -> prv h !! e = Some e -> ring h e [].
Proof. intros. split; [apply NoDup_singleton|]. done. Qed.

Lemma INIT_LIST_HEAD_spec h e : allocated h e ->
  exists h', INIT_LIST_HEAD e h = Some (tt, h') /\ ring h' e [] /\ only h h' [e].
Proof.
  intros [? ?]. eexists. split; [unfold INIT_LIST_HEAD; by run|]. split.
  - apply single_ring; by autorewrite with heap.
  - apply store_pair_only.
Qed.

Lemma list_del_init_spec h head l1 e l2 :
  ring h head (l1 ++ e :: l2) ->
  exists h', list_del_init e h = Some (tt, h') /\ ring h' head (l1 ++ l2) /\
    ring h' e [] /\ only h h' (head :: l1 ++ e :: l2).
Proof.
  intros Hr. destruct (ring_member_nodup _ _ _ _ (proj1 Hr)) as [Hnd _].
  destruct (ring_cut head l1 l2 Hnd) as (A & p & n & B & Hc).
  destruct (del_then_store h head l1 e l2 A p n B e e Hr Hc) as (H1 & H2 & H3 & H4).
  eexists. split; [|split; [exact H1|split; [by apply single_ring|exact H4]]].
  destruct (del_stores_ring h head l1 e l2 A p n B Hr Hc) as (_ & _ & Ha & Ha').
  unfold list_del_init. rewrite (del_entry_run h head l1 e l2 A p n B) by done.
  unfold INIT_LIST_HEAD. by run.
Qed.

(** ** Moving between lists *)

(** Removing an entry leaves a ring, the entry ready to be inserted. *)
Lemma del_entry_spec h head l1 e l2 :
  ring h head (l1 ++ e :: l2) ->
  exists h1, (forall X (k : unit -> prog heap X), pbind (__list_del_entry e) k h = k tt h1) /\
    ring h1 head (l1 ++ l2) /\ allocated h1 e /\ (e ∉ head :: l1 ++ l2) /\
    only h h1 (head :: l1 ++ e :: l2).
Proof.
  intros Hr. destruct (ring_member_nodup _ _ _ _ (proj1 Hr)) as [Hnd He].
  destruct (ring_cut head l1 l2 Hnd) as (A & p & n & B & Hc).
  destruct (del_stores_ring h head l1 e l2 A p n B Hr Hc) as (Hr' & Ho & Ha).
  exists (del_stores h p n).
  split; [intros; by apply (del_entry_run h head l1 e l2 A p n B)|].
  split; [done|]. split; [done|]. split; [done|].
  apply (only_mono _ _ _ _ Ho). intros x Hx.
  apply (del_touches head l1 e l2 A p n B Hc). set_solver.
Qed.

(** Within one list. *)
Lemma list_move_spec h head l1 e l2 :
  ring h head (l1 ++ e :: l2) ->
  exists h', list_move e head h = Some (tt, h') /\ ring h' head (e :: l1 ++ l2) /\
    only h h' (head :: l1 ++ e :: l2).
Proof.
  intros Hr. destruct (del_entry_spec h head l1 e l2 Hr) as (h1 & Hd & Hr1 & Ha & He & Ho).
  destruct (list_add_spec h1 head (l1 ++ l2) e Hr1 He Ha) as (h2 & Hrun & Hr2 & Ho2).
  exists h2. split; [unfold list_move; by rewrite Hd|]. split; [done|].
  apply (only_trans _ _ _ _ Ho). apply (only_mono _ _ _ _ Ho2). set_solver.
Qed.

Lemma list_move_tail_spec h head l1 e l2 :
  ring h head (l1 ++ e :: l2) ->
  exists h', list_move_tail e head h = Some (tt, h') /\ ring h' head ((l1 ++ l2) ++ [e]) /\
    only h h' (head :: l1 ++ e :: l2).
Proof.
  intros Hr. destruct (del_entry_spec h head l1 e l2 Hr) as (h1 & Hd & Hr1 & Ha & He & Ho).
  destruct (list_add_tail_spec h1 head (l1 ++ l2) e Hr1 He Ha) as (h2 & Hrun & Hr2 & Ho2).
  exists h2. split; [unfold list_move_tail; by rewrite Hd|]. split; [done|].
  apply (only_trans _ _ _ _ Ho). apply (only_mono _ _ _ _ Ho2). set_solver.
Qed.

(** From one list to another. *)
Lemma list_move_other_spec h head l1 e l2 head' l' :
  ring h head (l1 ++ e :: l2) -> ring h head' l' ->
  (forall x, x ∈ head' :: l' -> x ∉ head :: l1 ++ e :: l2) ->
  exists h', list_move e head' h = Some (tt, h') /\ ring h' head (l1 ++ l2) /\
    ring h' head' (e :: l').
Proof.
  intros Hr Hr' Hdis.
  destruct (del_entry_spec h head l1 e l2 Hr) as (h1 & Hd & Hr1 & Ha & He & Ho).
  assert (ring h1 head' l') as Hr1' by (by apply (ring_only _ _ _ _ _ Ho)).
  assert (e ∉ head' :: l') as He' by (intros Hx; apply (Hdis e Hx); set_solver).
  destruct (list_add_spec h1 head' l' e Hr1' He' Ha) as (h2 & Hrun & Hr2 & Ho2).
  exists h2. split; [unfold list_move; by rewrite Hd|]. split; [|done].
  apply (ring_only _ _ _ _ _ Ho2); [|done].
  intros x Hx Hx'. apply elem_of_cons in Hx' as [-> |Hx']; [done|].
  apply (Hdis x Hx'). set_solver.
Qed.

Lemma ring_hd h head x l : ring h head (x :: l) -> nxt h !! head = Some x.
Proof. intros [_ Hl]. by destruct Hl as [? _]. Qed.

Lemma ring_next h head l : ring h head l -> nxt h !! head = Some (hd head l).
Proof. intros [_ Hl]. by destruct l; destruct Hl as [? _]. Qed.

Lemma ring_prev h head l : ring h head l -> prv h !! head = Some (List.last l head).
Proof.
  intros Hr. rewrite <-(app_nil_r l) in Hr.
  destruct (ring_cut head l [] (proj1 Hr)) as (A & p & n & B & Hc).
  pose proof (ring_cut_link h head l [] A p n B Hr Hc) as [_ Hp].
  rewrite (cut_last _ _ _ _ _ _ Hc) in Hp. rewrite Hp. f_equal.
  pose proof (cut_A _ _ _ _ _ _ _ Hc) as HA.
  destruct l as [|x l _] using rev_ind.
  - destruct A as [|? [|]]; simplify_eq/=; done.
  - rewrite last_last. change (head :: l ++ [x]) with ((head :: l) ++ [x]) in HA.
    by apply app_inj_tail in HA as [_ ->].
Qed.

Lemma hd_neq (head : addr) l : head ∉ l -> (hd head l =? head) = bool_decide (l = []).
Proof.
  destruct l as [|x l]; intros H; cbn [hd]; [by rewrite Z.eqb_refl|].
  rewrite not_elem_of_cons in H. apply Z.eqb_neq. intros ->. by destruct H.
Qed.

Lemma list_empty_spec h head l : ring h head l ->
  list_empty head h = Some (bool_decide (l = []), h).
Proof.
  intros Hr. unfold list_empty. erewrite run_get_next by (by apply ring_next).
  unfold pret. rewrite hd_neq; [done|]. by destruct Hr as [[? _]%NoDup_cons _].
Qed.

Lemma list_is_singular_spec h head l : ring h head l ->
  list_is_singular head h = Some (bool_decide (length l = 1%nat), h).
Proof.
  intros Hr. unfold list_is_singular.
  unfold pbind at 1. rewrite (list_empty_spec h head l Hr).
  destruct l as [|x l]; [done|]. cbn [bool_decide decide list_eq_nil_dec].
  erewrite run_get_next by exact (ring_hd _ _ _ _ Hr).
  erewrite run_get_prev by exact (ring_prev _ _ _ Hr).
  unfold pret. do 2 f_equal. destruct Hr as [Hnd _].
  apply NoDup_cons in Hnd as [_ Hnd]. destruct l as [|y l _] using rev_ind.
  - cbn. by rewrite Z.eqb_refl.
  - change (x :: l ++ [y]) with ((x :: l) ++ [y]) in *. rewrite last_last.
    apply NoDup_app in Hnd as (_ & Hd & _).
    replace (x =? y) with false
      by (symmetry; apply Z.eqb_neq; intros ->; apply (Hd y); [left|left]).
    symmetry. apply bool_decide_eq_false. rewrite length_app. simpl. lia.
Qed.

Lemma list_rotate_left_spec h head l : ring h head l ->
  exists h', list_rotate_left head h = Some (tt, h') /\
    ring h' head (match l with [] => [] | x :: l => l ++ [x] end) /\
    only h h' (head :: l).
Proof.
  intros Hr. unfold list_rotate_left, pbind at 1. rewrite (list_empty_spec h head l Hr).
  destruct l as [|x l]; [by exists h|].
  cbn [bool_decide decide list_eq_nil_dec].
  erewrite run_get_next by exact (ring_hd _ _ _ _ Hr).
  apply (list_move_tail_spec h head [] x l Hr).
Qed.

(** ** Replacing an entry *)

Lemma list_replace_spec h head l1 old l2 new :
  ring h head (l1 ++ old :: l2) -> new ∉ head :: l1 ++ old :: l2 -> allocated h new ->
  exists h', list_replace old new h = Some (tt, h') /\ ring h' head (l1 ++ new :: l2) /\
    allocated h' old /\ only h h' (new :: head :: l1 ++ old :: l2).
Proof.
  intros Hr Hnew [Ha1 Ha2]. pose proof Hr as [Hnd Hl].
  destruct (ring_member_nodup _ _ _ _ Hnd) as [Hnd' He].
  destruct (ring_cut head l1 l2 Hnd') as (A & p & n & B & Hc).
  destruct (ring_entry_links h head l1 old l2 A p n B Hr Hc) as (H1 & H2 & H3 & H4).
  assert (Hp := cut_p _ _ _ _ _ _ _ Hc). assert (Hn := cut_n _ _ _ _ _ _ _ Hc).
  assert (forall x, x ∈ head :: l1 ++ l2 -> x <> new) as Hne.
  { intros x Hx ->. apply Hnew. change (new ∈ (head :: l1) ++ l2) in Hx.
    change (new ∈ (head :: l1) ++ old :: l2). apply elem_of_app in Hx.
    apply elem_of_app. rewrite (elem_of_cons l2). tauto. }
  assert (p <> new) by by apply Hne. assert (n <> new) by by apply Hne.
  assert (old <> new).
  { intros ->. apply Hnew. change (new ∈ (head :: l1) ++ new :: l2).
    apply elem_of_app. right. left. }
  assert (p <> old) by (intros ->; done). assert (n <> old) by (intros ->; done).
  set (h' := set_nxt (set_prv (set_prv (set_nxt h new n) n new) new p) p new).
  exists h'. split; [|split; [split|split]].
  - unfold list_replace, h'. by run.
  - change (head :: l1 ++ new :: l2) with ((head :: l1) ++ new :: l2).
    rewrite <-Permutation_middle. apply NoDup_cons. split; [|done].
    intros Hx. by apply (Hne new).
  - change (l1 ++ old :: l2) with (l1 ++ [old] ++ l2) in Hl.
    rewrite (cut_chain _ _ _ _ _ _ _ [old] Hc) in Hl.
    change (l1 ++ new :: l2) with (l1 ++ [new] ++ l2).
    rewrite (cut_chain _ _ _ _ _ _ _ [new] Hc). cbn [app] in *.
    apply linked_mid in Hl as (L1 & _ & L3). apply linked_cons in L3 as [_ L3].
    apply linked_mid. rewrite linked_cons. unfold h'. split; [|split; [|split]].
    + revert L1. apply linked_frame; intros x Hx;
        [apply (cut_src1 _ _ _ _ _ _ _ Hc) in Hx as [? Hx]
        |apply (cut_tgt1 _ _ _ _ _ _ _ Hc) in Hx as [? Hx]];
        apply Hne in Hx; by autorewrite with heap.
    + split; autorewrite with heap; done.
    + split; autorewrite with heap; done.
    + revert L3. apply linked_frame; intros x Hx;
        [apply (cut_src2 _ _ _ _ _ _ _ Hc) in Hx as [? Hx]
        |apply (cut_tgt2 _ _ _ _ _ _ _ Hc) in Hx as [? Hx]];
        apply Hne in Hx; by autorewrite with heap.
  - unfold h'. split; alloc.
  - intros x Hx. apply not_elem_of_cons in Hx as [? Hx].
    assert (x <> p).
    { intros ->. apply Hx. apply (del_touches head l1 old l2 A p n B Hc). left. }
    assert (x <> n).
    { intros ->. apply Hx. apply (del_touches head l1 old l2 A p n B Hc). right. left. }
    unfold h'. by autorewrite with heap.
Qed.

Lemma list_replace_init_spec h head l1 old l2 new :
  ring h head (l1 ++ old :: l2) -> new ∉ head :: l1 ++ old :: l2 -> allocated h new ->
  exists h', list_replace_init old new h = Some (tt, h') /\
    ring h' head (l1 ++ new :: l2) /\ ring h' old [].
Proof.
  intros Hr Hnew Ha.
  destruct (list_replace_spec h head l1 old l2 new Hr Hnew Ha) as (h1 & Hrun & Hr1 & Ho1 & _).
  destruct (INIT_LIST_HEAD_spec h1 old Ho1) as (h2 & Hrun2 & Hr2 & Ho2).
  exists h2. split; [unfold list_replace_init, pbind; by rewrite Hrun|]. split; [|done].
  apply (ring_only _ _ _ _ _ Ho2); [|done].
  destruct (ring_member_nodup _ _ _ _ (proj1 Hr)) as [_ He].
  intros x Hx Hx'. apply list_elem_of_singleton in Hx' as ->.
  change (old ∈ (head :: l1) ++ new :: l2) in Hx. apply He.
  change (old ∈ (head :: l1) ++ l2). apply elem_of_app in Hx. apply elem_of_app.
  destruct Hx as [Hx|Hx]; [by left|]. apply elem_of_cons in Hx as [-> |Hx]; [|by right].
  destruct Hnew. change (new ∈ (head :: l1) ++ new :: l2). apply elem_of_app. right. left.
Qed.

(** ** Joining lists *)

Definition splice_stores (h : heap) (first last prev next : addr) : heap :=
  set_prv (set_nxt (set_nxt (set_prv h first prev) prev first) last next) next last.

(** A non-empty list of entries from both ends. *)
Lemma both_ends (m : list addr) : m <> [] -> NoDup m ->
  exists f z M1 M2, m = f :: M1 /\ m = M2 ++ [z] /\ List.last m f = z /\
    (forall x, x ∈ removelast m -> x <> z /\ x ∈ m) /\
    (forall x, x ∈ tail m -> x <> f /\ x ∈ m).
Proof.
  intros Hm Hnd. destruct (exists_last Hm) as (M2 & z & HM). destruct m as [|f M1]; [done|].
  exists f, z, M1, M2. split; [done|]. split; [done|].
  split; [rewrite HM; by rewrite last_last|]. split.
  - rewrite HM, removelast_last. intros x Hx. rewrite HM in Hnd.
    apply NoDup_app in Hnd as (_ & Hd & _). split.
    + intros ->. apply (Hd z Hx). left.
    + apply elem_of_app. by left.
  - cbn [tail]. intros x Hx. apply NoDup_cons in Hnd as [Hf _].
    split; [intros ->; done|by right].
Qed.

Lemma splice_ring h head l1 l2 A p n B list f z M1 :
  ring h head (l1 ++ l2) -> cut head l1 l2 A p n B ->
  ring h list (f :: M1) -> List.last (f :: M1) f = z ->
  (forall x, x ∈ list :: f :: M1 -> x ∉ head :: l1 ++ l2) ->
  let h' := splice_stores h f z p n in
  ring h' head (l1 ++ (f :: M1) ++ l2) /\
  only h h' (head :: (f :: M1) ++ l1 ++ l2).
Proof.
  intros [Hnd Hl] Hc [Hndm Hm] Hz Hdis h'.
  apply NoDup_cons in Hndm as [Hlist Hndm].
  destruct (both_ends (f :: M1)) as (f0 & z0 & M0 & M2 & [= <- <-] & HM & Hz0 & Hsrc & Htgt);
    [done|done|]. rewrite Hz in Hz0. subst z0.
  assert (Hp := cut_p _ _ _ _ _ _ _ Hc). assert (Hn := cut_n _ _ _ _ _ _ _ Hc).
  assert (z ∈ f :: M1) as Hzm by (rewrite HM; apply elem_of_app; right; left).
  assert (forall x, x ∈ f :: M1 -> x ∉ head :: l1 ++ l2) as Hdis'
    by (intros x Hx; apply Hdis; by right).
  assert (f ∈ f :: M1) as Hfm by left.
  pose proof (Hdis' f Hfm). pose proof (Hdis' z Hzm). fresh_ne.
  split; [split|].
  - change (head :: l1 ++ (f :: M1) ++ l2) with ((head :: l1) ++ (f :: M1) ++ l2).
    change (head :: l1 ++ l2) with ((head :: l1) ++ l2) in Hnd, Hdis'.
    rewrite (Permutation_app_comm (f :: M1)), app_assoc. apply NoDup_app.
    split; [done|]. split; [|done]. intros x Hx Hx'. by apply (Hdis' x).
  - change (l1 ++ l2) with (l1 ++ [] ++ l2) in Hl.
    rewrite (cut_chain _ _ _ _ _ _ _ [] Hc) in Hl.
    rewrite (cut_chain _ _ _ _ _ _ _ (f :: M1) Hc).
    apply linked_mid in Hl as (L1 & L2 & L3).
    change (list :: (f :: M1) ++ [list]) with (([list] ++ f :: M1) ++ [list]) in Hm.
    assert (linked h (f :: M1)) as Lm.
    { change (([list] ++ f :: M1) ++ [list]) with (list :: f :: M1 ++ [list]) in Hm.
      apply linked_cons in Hm as [_ Hm].
      change (f :: M1 ++ [list]) with ((f :: M1) ++ [list]) in Hm.
      rewrite HM in Hm |- *. rewrite <-app_assoc in Hm. by apply linked_app in Hm as [Hm _]. }
    change ((f :: M1) ++ n :: B) with (f :: M1 ++ n :: B).
    apply linked_mid. unfold h', splice_stores. split; [|split].
    + revert L1. apply linked_frame; [miss (cut_src1 _ _ _ _ _ _ _ Hc)|miss (cut_tgt1 _ _ _ _ _ _ _ Hc)].
    + split; autorewrite with heap; done.
    + assert ((f :: M1) ++ n :: B = M2 ++ z :: n :: B) as Hmid
        by (rewrite HM, <-app_assoc; done).
      cbn [app] in Hmid. rewrite Hmid. apply linked_mid. rewrite <-HM. split; [|split].
      * revert Lm. apply linked_frame; intros x Hx;
          [apply Hsrc in Hx as [? Hx]|apply Htgt in Hx as [? Hx]];
          pose proof (Hdis' x Hx); fresh_ne; by autorewrite with heap.
      * split; autorewrite with heap; done.
      * revert L3. apply linked_frame;
          [miss (cut_src2 _ _ _ _ _ _ _ Hc)|miss (cut_tgt2 _ _ _ _ _ _ _ Hc)].
  - intros x Hx. assert (x <> p /\ x <> n /\ x <> f /\ x <> z) as (?&?&?&?).
    { assert (forall y, y ∈ head :: l1 ++ l2 \/ y ∈ f :: M1 -> x <> y) as Hxy.
      { intros y Hy ->. apply Hx. rewrite elem_of_cons, !elem_of_app.
        rewrite elem_of_cons, elem_of_app in Hy. tauto. }
      split; [|split; [|split]]; apply Hxy; by (left + right). }
    unfold h', splice_stores. by autorewrite with heap.
Qed.

Lemma splice_run h head l1 l2 A p n B list f z M1 {X} (k : unit -> prog heap X) :
  ring h head (l1 ++ l2) -> cut head l1 l2 A p n B ->
  ring h list (f :: M1) -> List.last (f :: M1) f = z ->
  pbind (__list_splice list p n) k h = k tt (splice_stores h f z p n).
Proof.
  intros Hr Hc Hm Hz. destruct (ring_cut_link _ _ _ _ _ _ _ _ Hr Hc) as [H1 H2].
  pose proof (ring_hd _ _ _ _ Hm) as H3. pose proof (ring_prev _ _ _ Hm) as H4.
  assert (List.last (f :: M1) list = z) as Hz'.
  { revert Hz. destruct (exists_last (l := f :: M1)) as (? & w & ->); [done|].
    by rewrite !last_last. }
  rewrite Hz' in H4.
  assert (z ∈ f :: M1) as Hzm.
  { rewrite <-Hz. destruct (exists_last (l := f :: M1)) as (? & w & ->); [done|].
    rewrite last_last. apply elem_of_app. right. left. }
  assert (allocated h f) as [? ?] by (apply (ring_allocated h list _ _ Hm); right; left).
  assert (allocated h z) as [? ?] by (apply (ring_allocated h list _ _ Hm); by right).
  assert (allocated h p) as [? ?]
    by (apply (ring_allocated h head _ _ Hr), (cut_p _ _ _ _ _ _ _ Hc)).
  assert (allocated h n) as [? ?]
    by (apply (ring_allocated h head _ _ Hr), (cut_n _ _ _ _ _ _ _ Hc)).
  unfold __list_splice. by run.
Qed.

(** The two rings of a splice. *)
Record two_rings (h : heap) (head : addr) (l : list addr) (lst : addr) (m : list addr)
  : Prop := TwoRings {
  tr_head : ring h head l;
  tr_list : ring h lst m;
  tr_disj : forall x, x ∈ lst :: m -> x ∉ head :: l
}.

Lemma splice_front h head l lst f M1 : two_rings h head l lst (f :: M1) ->
  exists n h', nxt h !! head = Some n /\
    (forall X (k : unit -> prog heap X), pbind (__list_splice lst head n) k h = k tt h') /\
    ring h' head ((f :: M1) ++ l) /\ only h h' (head :: (f :: M1) ++ l).
Proof.
  intros [Hr Hm Hdis]. destruct (ring_cut head [] l (proj1 Hr)) as (A & p & n & B & Hc).
  pose proof (ring_cut_link h head [] l A p n B Hr Hc) as [Hn _].
  destruct (splice_ring h head [] l A p n B lst f _ M1 Hr Hc Hm eq_refl Hdis) as [H1 H2].
  pose proof (fun X k => splice_run h head [] l A p n B lst f _ M1 (X := X) k Hr Hc Hm eq_refl)
    as Hrun.
  rewrite (cut_first _ _ _ _ _ _ Hc) in *.
  by exists n, (splice_stores h f (List.last (f :: M1) f) head n).
Qed.

Lemma splice_back h head l lst f M1 : two_rings h head l lst (f :: M1) ->
  exists p h', prv h !! head = Some p /\
    (forall X (k : unit -> prog heap X), pbind (__list_splice lst p head) k h = k tt h') /\
    ring h' head (l ++ f :: M1) /\ only h h' (head :: (f :: M1) ++ l).
Proof.
  intros [Hr Hm Hdis]. rewrite <-(app_nil_r l) in Hr, Hdis.
  destruct (ring_cut head l [] (proj1 Hr)) as (A & p & n & B & Hc).
  pose proof (ring_cut_link h head l [] A p n B Hr Hc) as [_ Hn].
  destruct (splice_ring h head l [] A p n B lst f _ M1 Hr Hc Hm eq_refl Hdis) as [H1 H2].
  pose proof (fun X k => splice_run h head l [] A p n B lst f _ M1 (X := X) k Hr Hc Hm eq_refl)
    as Hrun.
  rewrite (cut_last _ _ _ _ _ _ Hc) in *. rewrite app_nil_r in H1, H2.
  by exists p, (splice_stores h f (List.last (f :: M1) f) p head).
Qed.

Lemma run_end {S} (m : prog S unit) s : pbind m pret s = m s.
Proof. unfold pbind, pret. by destruct (m s) as [[[] ?]|]. Qed.

Lemma list_splice_spec h head l lst m : two_rings h head l lst m ->
  exists h', list_splice lst head h = Some (tt, h') /\ ring h' head (m ++ l) /\
    only h h' (head :: m ++ l).
Proof.
  intros Htr. unfold list_splice, pbind at 1.
  rewrite (list_empty_spec h lst m (tr_list _ _ _ _ _ Htr)).
  destruct m as [|f M1]; [exists h; split; [done|]; split; [apply Htr|done]|].
  cbn [bool_decide decide list_eq_nil_dec].
  destruct (splice_front h head l lst f M1 Htr) as (n & h' & Hn & Hrun & H1 & H2).
  exists h'. erewrite run_get_next by exact Hn. rewrite <-run_end, Hrun. done.
Qed.

Lemma list_splice_tail_spec h head l lst m : two_rings h head l lst m ->
  exists h', list_splice_tail lst head h = Some (tt, h') /\ ring h' head (l ++ m) /\
    only h h' (head :: m ++ l).
Proof.
  intros Htr. unfold list_splice_tail, pbind at 1.
  rewrite (list_empty_spec h lst m (tr_list _ _ _ _ _ Htr)).
  destruct m as [|f M1].
  { exists h. split; [done|]. rewrite app_nil_r. split; [apply Htr|done]. }
  cbn [bool_decide decide list_eq_nil_dec].
  destruct (splice_back h head l lst f M1 Htr) as (n & h' & Hn & Hrun & H1 & H2).
  exists h'. erewrite run_get_prev by exact Hn. rewrite <-run_end, Hrun. done.
Qed.

(** Reinitialising the emptied list after a splice. *)
Lemma splice_reinit h h' head l lst m r :
  two_rings h head l lst m -> ring h' head r -> (forall x, x ∈ r -> x ∈ m ++ l) ->
  only h h' (head :: m ++ l) ->
  exists h2, INIT_LIST_HEAD lst h' = Some (tt, h2) /\ ring h2 head r /\ ring h2 lst [].
Proof.
  intros [Hr Hm Hdis] Hr' Hsub Ho.
  assert (lst ∉ head :: m ++ l) as Hlst.
  { intros Hx. apply elem_of_cons in Hx as [-> |Hx]; [apply (Hdis head); left|].
    apply elem_of_app in Hx as [Hx|Hx].
    - by destruct Hm as [[? _]%NoDup_cons _].
    - apply (Hdis lst); [left|by right]. }
  assert (allocated h' lst) as Ha.
  { destruct (Ho lst Hlst) as [E1 E2]. unfold allocated. rewrite E1, E2.
    apply (ring_allocated h lst m _ Hm). left. }
  destruct (INIT_LIST_HEAD_spec h' lst Ha) as (h2 & Hrun & Hr2 & Ho2).
  exists h2. split; [done|]. split; [|done]. apply (ring_only _ _ _ _ _ Ho2); [|done].
  intros x Hx Hx'. apply list_elem_of_singleton in Hx' as ->. apply Hlst.
  apply elem_of_cons in Hx as [-> |Hx]; [left|right; by apply Hsub].
Qed.

Lemma list_splice_init_spec h head l lst m : two_rings h head l lst m ->
  exists h', list_splice_init lst head h = Some (tt, h') /\ ring h' head (m ++ l) /\
    ring h' lst [].
Proof.
  intros Htr. unfold list_splice_init, pbind at 1.
  rewrite (list_empty_spec h lst m (tr_list _ _ _ _ _ Htr)).
  destruct m as [|f M1].
  { exists h. split; [done|]. split; [apply Htr|apply (tr_list _ _ _ _ _ Htr)]. }
  cbn [bool_decide decide list_eq_nil_dec].
  destruct (splice_front h head l lst f M1 Htr) as (n & h' & Hn & Hrun & H1 & H2).
  destruct (splice_reinit h h' head l lst (f :: M1) _ Htr H1) as (h2 & Hi & Hr2 & Hl2);
    [done|done|].
  exists h2. erewrite run_get_next by exact Hn. by rewrite Hrun.
Qed.

Lemma list_splice_tail_init_spec h head l lst m : two_rings h head l lst m ->
  exists h', list_splice_tail_init lst head h = Some (tt, h') /\ ring h' head (l ++ m) /\
    ring h' lst [].
Proof.
  intros Htr. unfold list_splice_tail_init, pbind at 1.
  rewrite (list_empty_spec h lst m (tr_list _ _ _ _ _ Htr)).
  destruct m as [|f M1].
  { exists h. split; [done|]. rewrite app_nil_r. split; [apply Htr|apply (tr_list _ _ _ _ _ Htr)]. }
  cbn [bool_decide decide list_eq_nil_dec].
  destruct (splice_back h head l lst f M1 Htr) as (n & h' & Hn & Hrun & H1 & H2).
  destruct (splice_reinit h h' head l lst (f :: M1) _ Htr H1) as (h2 & Hi & Hr2 & Hl2);
    [|done|].
  { intros x. rewrite !elem_of_app. tauto. }
  exists h2. erewrite run_get_prev by exact Hn. by rewrite Hrun.
Qed.

(** ** Cutting a list *)

Definition cut_stores (h : heap) (lst head entry f n : addr) : heap :=
  set_prv (set_nxt (set_nxt (set_prv (set_prv (set_nxt h lst f) f lst) lst entry) entry lst)
             head n) n head.

Lemma cut_ring h head M2 e l2 lst f M1 :
  ring h head (M2 ++ e :: l2) -> lst ∉ head :: M2 ++ e :: l2 -> M2 ++ [e] = f :: M1 ->
  let n := hd head l2 in
  let h' := cut_stores h lst head e f n in
  ring h' lst (M2 ++ [e]) /\ ring h' head l2.
Proof.
  intros [Hnd Hl] Hlst HM n h'.
  replace (M2 ++ e :: l2) with ((M2 ++ [e]) ++ l2) in * by by rewrite <-app_assoc.
  set (m := M2 ++ [e]) in *. apply NoDup_cons in Hnd as [Hhead Hnd].
  apply NoDup_app in Hnd as (Hndm & Hdis & Hnd2).
  destruct (both_ends m) as (f0 & z & M0 & M3 & Hm1 & Hm2 & _ & Hsrc & Htgt);
    [by destruct M2|done|].
  assert (f0 = f) as -> by (rewrite HM in Hm1; by simplify_eq).
  assert (z = e) as -> by (by apply app_inj_tail in Hm2 as [_ ->]).
  assert (l2 ++ [head] = n :: tail (l2 ++ [head])) as HB by by destruct l2.
  set (B := tail (l2 ++ [head])) in *.
  assert (head :: m ++ l2 ++ [head] = (head :: m) ++ n :: B) as HC by (rewrite HB; done).
  replace (head :: (m ++ l2) ++ [head]) with ((head :: m) ++ n :: B) in Hl
    by (rewrite <-HC; by rewrite <-app_assoc).
  rewrite Hm2 in Hl. change (head :: M3 ++ [e]) with ((head :: M3) ++ [e]) in Hl.
  rewrite <-app_assoc in Hl. cbn [app] in Hl.
  change (head :: M3 ++ e :: n :: B) with ((head :: M3) ++ e :: n :: B) in Hl.
  apply linked_mid in Hl as (L1 & _ & L3).
  change ((head :: M3) ++ [e]) with (head :: M3 ++ [e]) in L1. rewrite <-Hm2, HM in L1.
  apply linked_cons in L1 as [_ L1]. rewrite <-HM in L1.
  (* distinctness *)
  assert ((lst ∉ m) /\ (lst ∉ l2) /\ lst <> head) as (Hlm & Hl2 & Hlh).
  { rewrite elem_of_cons, elem_of_app in Hlst. split; [|split]; [..|intros ->]; tauto. }
  assert ((head ∉ m) /\ (head ∉ l2)) as [Hhm Hh2] by (rewrite elem_of_app in Hhead; tauto).
  assert (f ∈ m) as Hf by (rewrite HM; left).
  assert (e ∈ m) as He by (unfold m; apply elem_of_app; right; left).
  assert (n ∈ l2 ++ [head]) as Hn by (rewrite HB; left).
  assert (forall x, x ∈ m -> x <> n) as Hmn.
  { intros x Hx ->. apply elem_of_app in Hn as [Hn|Hn]; [by apply (Hdis n)|].
    apply list_elem_of_singleton in Hn as ->. done. }
  assert (lst <> n).
  { intros <-. apply elem_of_app in Hn as [Hn|Hn]; [done|].
    by apply list_elem_of_singleton in Hn as ->. }
  pose proof (Hmn f Hf). pose proof (Hmn e He).
  assert (f <> lst) by (intros ->; done). assert (e <> lst) by (intros ->; done).
  assert (e <> head) by (intros ->; done). assert (f <> head) by (intros ->; done).
  unfold h', cut_stores. split.
  - split; [apply NoDup_cons; split; [done|done]|].
    rewrite HM. cbn [app]. apply linked_cons.
    split; [split; autorewrite with heap; done|].
    change (f :: M1 ++ [lst]) with ((f :: M1) ++ [lst]). rewrite <-HM, Hm2, <-app_assoc.
    cbn [app]. apply linked_mid. rewrite <-Hm2. split; [|split; [|done]].
    + revert L1. apply linked_frame; intros x Hx.
      * apply Hsrc in Hx as [? Hx]. pose proof (Hmn x Hx).
        assert (x <> lst) by (intros ->; done). assert (x <> head) by (intros ->; done).
        by autorewrite with heap.
      * apply Htgt in Hx as [? Hx]. pose proof (Hmn x Hx).
        assert (x <> lst) by (intros ->; done). by autorewrite with heap.
    + split; autorewrite with heap; done.
  - split; [by apply NoDup_cons|]. rewrite HB. apply linked_cons.
    split; [split; autorewrite with heap; done|].
    assert (NoDup (n :: B)) as HndB.
    { rewrite <-HB. apply NoDup_app. split; [done|]. split; [|apply NoDup_singleton].
      intros x Hx Hx'. apply list_elem_of_singleton in Hx' as ->. done. }
    apply NoDup_cons in HndB as [HnB _].
    revert L3. apply linked_frame; intros x Hx.
    + rewrite <-HB, removelast_last in Hx.
      assert (x <> lst) by (intros ->; done). assert (x <> head) by (intros ->; done).
      assert (x <> e) by (intros ->; by apply (Hdis e)). by autorewrite with heap.
    + cbn [tail] in Hx. assert (x <> n) by (intros ->; done).
      assert (x ∈ l2 ++ [head]) as Hx' by (rewrite HB; by right).
      assert (x <> lst).
      { intros ->. apply elem_of_app in Hx' as [Hx'|Hx']; [done|].
        by apply list_elem_of_singleton in Hx' as ->. }
      assert (x <> f).
      { intros ->. apply elem_of_app in Hx' as [Hx'|Hx']; [by apply (Hdis f)|].
        by apply list_elem_of_singleton in Hx' as ->. }
      by autorewrite with heap.
Qed.

Lemma ring_after h head M2 e l2 : ring h head (M2 ++ e :: l2) -> nxt h !! e = Some (hd head l2).
Proof.
  intros [_ Hl].
  replace (head :: (M2 ++ e :: l2) ++ [head]) with ((head :: M2) ++ e :: l2 ++ [head]) in Hl
    by (cbn; by rewrite <-app_assoc).
  apply linked_app in Hl as [_ Hl]. by destruct l2; destruct Hl as [? _].
Qed.

Lemma list_cut_position_spec h head M2 e l2 lst :
  ring h head (M2 ++ e :: l2) -> lst ∉ head :: M2 ++ e :: l2 -> allocated h lst ->
  exists h', list_cut_position lst head e h = Some (tt, h') /\
    ring h' lst (M2 ++ [e]) /\ ring h' head l2.
Proof.
  intros Hr Hlst [Ha1 Ha2].
  destruct (M2 ++ [e]) as [|f M1] eqn:HM; [by destruct M2|].
  rewrite <-HM. exists (cut_stores h lst head e f (hd head l2)).
  split; [|by apply cut_ring with M1].
  assert (M2 ++ e :: l2 = f :: M1 ++ l2) as HL.
  { change (e :: l2) with ([e] ++ l2). by rewrite app_assoc, HM. }
  assert (e <> head) as Heh.
  { intros ->. destruct Hr as [[Hh _]%NoDup_cons _]. apply Hh. apply elem_of_app. right. left. }
  unfold list_cut_position. unfold pbind at 1.
  rewrite (list_empty_spec h head _ Hr).
  rewrite (bool_decide_eq_false_2 (M2 ++ e :: l2 = [])) by (by destruct M2).
  unfold pbind at 1.
  rewrite (list_is_singular_spec h head _ Hr).
  rewrite (run_get_next _ _ f) by (apply (ring_hd h head f (M1 ++ l2)); by rewrite <-HL).
  assert (bool_decide (length (M2 ++ e :: l2) = 1%nat) && (negb (f =? e) && negb (head =? e))
          = false) as ->.
  { destruct (bool_decide _) eqn:Hb; [|done]. apply bool_decide_eq_true in Hb.
    destruct M2 as [|? ?]; [|rewrite length_app in Hb; simpl in Hb; lia].
    simplify_eq/=. by rewrite Z.eqb_refl. }
  replace (e =? head) with false by (symmetry; by apply Z.eqb_neq).
  unfold __list_cut_position, cut_stores.
  pose proof (ring_after _ _ _ _ _ Hr) as Hn.
  assert (nxt h !! head = Some f) as Hf by (apply (ring_hd h head f (M1 ++ l2)); by rewrite <-HL).
  assert (lst <> f /\ lst <> e /\ lst <> head) as (?&?&?).
  { rewrite HL in Hlst. split; [|split].
    - intros ->. apply Hlst. right. left.
    - intros ->. apply Hlst. rewrite <-HL. right. apply elem_of_app. right. left.
    - intros ->. apply Hlst. left. }
  assert (allocated h f) as [? ?]
    by (apply (ring_allocated h head _ _ Hr); rewrite HL; right; left).
  assert (allocated h e) as [? ?]
    by (apply (ring_allocated h head _ _ Hr); right; apply elem_of_app; right; left).
  assert (allocated h head) as [? ?] by (apply (ring_allocated h head _ _ Hr); left).
  assert (allocated h (hd head l2)) as [? ?].
  { apply (ring_allocated h head _ _ Hr). destruct l2 as [|y l2]; [left|].
    right. apply elem_of_app. right. right. left. }
  by run.
Qed.

(** ** Iteration *)

Lemma for_each_next h head s : forall fuel,
  linked h (s ++ [head]) -> head ∉ s -> (length s <= fuel)%nat ->
  list_for_each_from get_next fuel (hd head s) head h = Some (s, h).
Proof.
  induction s as [|x s IH]; intros fuel Hl Hh Hf.
  - destruct fuel; cbn [list_for_each_from hd]; by rewrite Z.eqb_refl.
  - destruct fuel as [|fuel]; [simpl in Hf; lia|]. apply not_elem_of_cons in Hh as [Hx Hh].
    cbn [list_for_each_from hd].
    replace (x =? head) with false by (symmetry; apply Z.eqb_neq; done).
    assert (nxt h !! x = Some (hd head s)) as Hn by (destruct s; by destruct Hl as [? _]).
    erewrite run_get_next by exact Hn. unfold pbind. rewrite IH; [done| |done|simpl in Hf; lia].
    destruct s; [done|]. by apply linked_cons in Hl as [_ Hl].
Qed.

Lemma for_each_prev h head s : forall fuel,
  linked h (head :: s) -> head ∉ s -> (length s <= fuel)%nat ->
  list_for_each_from get_prev fuel (List.last s head) head h = Some (rev s, h).
Proof.
  induction s as [|x s IH] using rev_ind; intros fuel Hl Hh Hf.
  - destruct fuel; cbn [list_for_each_from List.last]; by rewrite Z.eqb_refl.
  - rewrite length_app in Hf. simpl in Hf. destruct fuel as [|fuel]; [lia|].
    rewrite elem_of_app in Hh. rewrite last_last, rev_app_distr. cbn [list_for_each_from rev app].
    replace (x =? head) with false
      by (symmetry; apply Z.eqb_neq; intros ->; apply Hh; right; left).
    destruct (exists_last (l := head :: s)) as (A & p & HA); [done|].
    change (head :: s ++ [x]) with ((head :: s) ++ [x]) in Hl.
    rewrite HA, <-app_assoc in Hl. cbn [app] in Hl. apply linked_mid in Hl as (Hl & [_ Hp] & _).
    rewrite <-HA in Hl. erewrite run_get_prev by exact Hp.
    assert (p = List.last s head) as ->.
    { destruct s as [|y s _] using rev_ind.
      - destruct A as [|? [|]]; simplify_eq/=; done.
      - rewrite last_last. change (head :: s ++ [y]) with ((head :: s) ++ [y]) in HA.
        by apply app_inj_tail in HA as [_ ->]. }
    unfold pbind. rewrite IH; [done|done|tauto|lia].
Qed.

Lemma list_for_each_spec h head l fuel : ring h head l -> (length l <= fuel)%nat ->
  list_for_each fuel head h = Some (l, h) /\
  list_for_each_prev fuel head h = Some (rev l, h).
Proof.
  intros Hr Hf. pose proof Hr as [[Hh _]%NoDup_cons Hl]. split.
  - unfold list_for_each. erewrite run_get_next by exact (ring_next _ _ _ Hr).
    apply for_each_next; [|done|done].
    destruct l; [done|]. by apply linked_cons in Hl as [_ Hl].
  - unfold list_for_each_prev. erewrite run_get_prev by exact (ring_prev _ _ _ Hr).
    apply for_each_prev; [|done|done].
    change (head :: l ++ [head]) with ((head :: l) ++ [head]) in Hl.
    destruct (exists_last (l := head :: l)) as (A & p & HA); [done|].
    rewrite HA, <-app_assoc in Hl. cbn [app] in Hl. apply linked_mid in Hl as (Hl & _).
    by rewrite HA.
Qed.

Lemma ring_hd_next h head l : ring h head l ->
  nxt h !! (hd head l) = Some (match l with [] => head | _ :: l' => hd head l' end).
Proof.
  intros Hr. destruct l as [|x l]; [apply (ring_next _ _ _ Hr)|].
  apply (ring_after h head [] x l Hr).
Qed.

(** The loop that removes every entry it visits. *)
Lemma for_each_safe_del head l : forall h fuel, ring h head l -> (length l <= fuel)%nat ->
  exists h', list_for_each_safe list_del fuel head h = Some (l, h') /\ ring h' head [].
Proof.
  assert (forall h fuel, ring h head l -> (length l <= fuel)%nat ->
    exists h', list_for_each_safe_from list_del fuel (hd head l)
      (match l with [] => head | _ :: l' => hd head l' end) head h = Some (l, h') /\
      ring h' head []) as Hloop.
  { induction l as [|x l IH]; intros h fuel Hr Hf.
    - exists h. destruct fuel; cbn [list_for_each_safe_from hd]; by rewrite Z.eqb_refl.
    - destruct fuel as [|fuel]; [simpl in Hf; lia|]. cbn [list_for_each_safe_from hd].
      pose proof Hr as [Hnd _].
      replace (x =? head) with false
        by (symmetry; apply Z.eqb_neq; apply NoDup_cons in Hnd as [Hh _];
            intros ->; apply Hh; left).
      destruct (list_del_spec h head [] x l Hr) as (h1 & Hd & Hr1 & _).
      unfold pbind at 1. rewrite Hd. erewrite run_get_next by exact (ring_hd_next _ _ _ Hr1).
      destruct (IH h1 fuel Hr1 ltac:(simpl in Hf; lia)) as (h2 & Hrun & Hr2).
      exists h2. cbn [app]. unfold pbind. by rewrite Hrun. }
  intros h fuel Hr Hf. destruct (Hloop h fuel Hr Hf) as (h' & Hrun & Hr').
  exists h'. split; [|done]. unfold list_for_each_safe.
  erewrite run_get_next by exact (ring_next _ _ _ Hr).
  by erewrite run_get_next by exact (ring_hd_next _ _ _ Hr).
Qed.
