(* ===== verification/KListSpec.v ===== *)
(** * KListSpec: list.h against its abstract specification

    Any sequence of list operations that respects the callers' obligations
    runs without a bad access and acts on the ring as the same operations act on
    a plain sequence; and the [hlist] operations likewise. *)
From S2P Require Import Prelude.
From S2P Require Import Memory.
From S2P Require Import KList.
From S2P Require Import KListFacts.

Open Scope C.

(** ** Sequences of operations *)

Inductive list_op :=
  | OpAdd (n : addr) | OpAddTail (n : addr) | OpDel (e : addr) | OpDelInit (e : addr)
  | OpMove (e : addr) | OpMoveTail (e : addr) | OpRotate | OpReplace (old new : addr).

Definition run_op (head : addr) (o : list_op) : prog heap unit :=
  match o with
  | OpAdd n => list_add n head
  | OpAddTail n => list_add_tail n head
  | OpDel e => list_del e
  | OpDelInit e => list_del_init e
  | OpMove e => list_move e head
  | OpMoveTail e => list_move_tail e head
  | OpRotate => list_rotate_left head
  | OpReplace old new => list_replace old new
  end.

Fixpoint run_ops (head : addr) (os : list list_op) : prog heap unit :=
  match os with [] => pret tt | o :: os => run_op head o ;;; run_ops head os end.

(** The same on sequences: what a caller may do ([None] otherwise), [pool]
    being the allocated nodes, and the effect. *)
Definition without (e : addr) (l : list addr) : list addr := filter (fun x => x <> e) l.

Definition spec_op (head : addr) (pool : list addr) (o : list_op) (l : list addr)
  : option (list addr) :=
  let fresh n := bool_decide (n ∈ pool) && bool_decide (n ∉ head :: l) in
  match o with
  | OpAdd n => if fresh n then Some (n :: l) else None
  | OpAddTail n => if fresh n then Some (l ++ [n]) else None
  | OpDel e | OpDelInit e => if bool_decide (e ∈ l) then Some (without e l) else None
  | OpMove e => if bool_decide (e ∈ l) then Some (e :: without e l) else None
  | OpMoveTail e => if bool_decide (e ∈ l) then Some (without e l ++ [e]) else None
  | OpRotate => Some (match l with [] => [] | x :: l => l ++ [x] end)
  | OpReplace old new =>
      if bool_decide (old ∈ l) && fresh new
      then Some ((fun x => if decide (x = old) then new else x) <$> l) else None
  end.

Fixpoint spec_ops (head : addr) (pool : list addr) (os : list list_op) (l : list addr)
  : option (list addr) :=
  match os with
  | [] => Some l
  | o :: os => match spec_op head pool o l with
               | Some l' => spec_ops head pool os l'
               | None => None
               end
  end.

(** Programs never free. *)
Definition keeps {A} (m : prog heap A) : Prop :=
  forall h a h' x, m h = Some (a, h') -> allocated h x -> allocated h' x.

Lemma keeps_bind {A B} (m : prog heap A) (k : A -> prog heap B) :
  keeps m -> (forall a, keeps (k a)) -> keeps (pbind m k).
Proof.
  intros Hm Hk h b h' x. unfold pbind. destruct (m h) as [[a h1]|] eqn:E; [|done].
  intros H Hx. eapply Hk; [exact H|]. by eapply Hm.
Qed.
Lemma keeps_ret {A} (a : A) : keeps (pret a).
Proof. intros h b h' x [= <- <-]. done. Qed.
Lemma keeps_get_next a : keeps (get_next a).
Proof. intros h b h' x. unfold get_next. destruct (nxt h !! a); naive_solver. Qed.
Lemma keeps_get_prev a : keeps (get_prev a).
Proof. intros h b h' x. unfold get_prev. destruct (prv h !! a); naive_solver. Qed.
Lemma keeps_put_next a v : keeps (put_next a v).
Proof.
  intros h b h' x. unfold put_next. destruct (nxt h !! a); [|done]. intros [= _ <-] [? ?].
  split; [by apply nxt_is_Some|done].
Qed.
Lemma keeps_put_prev a v : keeps (put_prev a v).
Proof.
  intros h b h' x. unfold put_prev. destruct (prv h !! a); [|done]. intros [= _ <-] [? ?].
  split; [done|by apply prv_is_Some].
Qed.
Create HintDb keeps.
#[export] Hint Resolve keeps_bind keeps_ret keeps_get_next keeps_get_prev keeps_put_next
  keeps_put_prev : keeps.

Lemma keeps_run_op head o : keeps (run_op head o).
Proof.
  destruct o; cbn [run_op]; unfold list_add, list_add_tail, list_del, list_del_init, list_move,
    list_move_tail, list_rotate_left, list_replace, INIT_LIST_HEAD, __list_del_entry,
    list_add, list_add_tail, __list_add, __list_del; auto 20 with keeps.
  apply keeps_bind; [unfold list_empty; auto with keeps|]. intros [|]; [auto with keeps|].
  unfold list_move_tail, __list_del_entry, list_add_tail, __list_add, __list_del.
  auto 20 with keeps.
Qed.

(** Splitting a duplicate-free list at a member. *)
Lemma without_split l1 (e : addr) l2 :
  NoDup (l1 ++ e :: l2) -> without e (l1 ++ e :: l2) = l1 ++ l2.
Proof.
  intros Hnd. apply NoDup_app in Hnd as (_ & Hd & Hnd). apply NoDup_cons in Hnd as [He _].
  unfold without. rewrite filter_app, filter_cons_False by tauto.
  assert (forall l : list addr, e ∉ l -> filter (fun x => x <> e) l = l) as Hid.
  { induction l as [|x l IH]; intros H; [done|]. apply not_elem_of_cons in H as [Hx H].
    rewrite filter_cons_True by (intros ->; done). by rewrite IH. }
  rewrite !Hid; [done|done|]. intros H. apply (Hd e H). left.
Qed.

Lemma replace_split l1 (old : addr) l2 new :
  NoDup (l1 ++ old :: l2) ->
  ((fun x => if decide (x = old) then new else x) <$> l1 ++ old :: l2) = l1 ++ new :: l2.
Proof.
  intros Hnd. apply NoDup_app in Hnd as (_ & Hd & Hnd). apply NoDup_cons in Hnd as [He _].
  rewrite fmap_app, fmap_cons, decide_True by done.
  assert (forall l : list addr, old ∉ l ->
    ((fun x => if decide (x = old) then new else x) <$> l) = l) as Hid.
  { induction l as [|x l IH]; intros H; [done|]. apply not_elem_of_cons in H as [Hx H].
    rewrite fmap_cons, decide_False by (intros ->; done). by rewrite IH. }
  rewrite !Hid; [done|done|]. intros H. apply (Hd old H). left.
Qed.

Lemma spec_op_sim head pool o l l' h :
  ring h head l -> (forall x, x ∈ pool -> allocated h x) ->
  spec_op head pool o l = Some l' ->
  exists h', run_op head o h = Some (tt, h') /\ ring h' head l'.
Proof.
  intros Hr Hpool.
  assert (forall n, bool_decide (n ∈ pool) && bool_decide (n ∉ head :: l) = true ->
            allocated h n /\ n ∉ head :: l) as Hfresh.
  { intros n [H1 H2]%andb_true_iff. apply bool_decide_eq_true in H1, H2. auto. }
  assert (forall e, bool_decide (e ∈ l) = true -> exists l1 l2,
            l = l1 ++ e :: l2 /\ without e l = l1 ++ l2) as Hmem.
  { intros e He. apply bool_decide_eq_true in He.
    apply list_elem_of_split in He as (l1 & l2 & ->). exists l1, l2. split; [done|].
    apply without_split. by destruct Hr as [[_ ?]%NoDup_cons _]. }
  destruct o as [n|n|e|e|e|e| |old new]; cbn [spec_op run_op].
  - destruct (_ && _) eqn:E; intros [= <-]. destruct (Hfresh n E) as [Ha Hn].
    destruct (list_add_spec h head l n Hr Hn Ha) as (h' & ? & ? & _). by exists h'.
  - destruct (_ && _) eqn:E; intros [= <-]. destruct (Hfresh n E) as [Ha Hn].
    destruct (list_add_tail_spec h head l n Hr Hn Ha) as (h' & ? & ? & _). by exists h'.
  - destruct (bool_decide _) eqn:E; intros [= <-]. destruct (Hmem e E) as (l1 & l2 & -> & ->).
    destruct (list_del_spec h head l1 e l2 Hr) as (h' & ? & ? & _). by exists h'.
  - destruct (bool_decide _) eqn:E; intros [= <-]. destruct (Hmem e E) as (l1 & l2 & -> & ->).
    destruct (list_del_init_spec h head l1 e l2 Hr) as (h' & ? & ? & _). by exists h'.
  - destruct (bool_decide _) eqn:E; intros [= <-]. destruct (Hmem e E) as (l1 & l2 & -> & ->).
    destruct (list_move_spec h head l1 e l2 Hr) as (h' & ? & ? & _). by exists h'.
  - destruct (bool_decide _) eqn:E; intros [= <-]. destruct (Hmem e E) as (l1 & l2 & -> & ->).
    destruct (list_move_tail_spec h head l1 e l2 Hr) as (h' & ? & ? & _). by exists h'.
  - intros [= <-]. destruct (list_rotate_left_spec h head l Hr) as (h' & ? & ? & _).
    by exists h'.
  - destruct (bool_decide (old ∈ l)) eqn:E; [|done]. cbn [andb].
    destruct (_ && _) eqn:E2; intros [= <-]. destruct (Hfresh new E2) as [Ha Hn].
    destruct (Hmem old E) as (l1 & l2 & -> & _).
    rewrite replace_split by (by destruct Hr as [[_ ?]%NoDup_cons _]).
    destruct (list_replace_spec h head l1 old l2 new Hr Hn Ha) as (h' & ? & ? & _).
    by exists h'.
Qed.

(** Stores for the witnesses: an empty list at 100 and three loose nodes; a list
    at 100 holding 1 and 2, an empty one at 200. *)
Definition heap0 : heap :=
  Heap (list_to_map [(100, 100); (1, 0); (2, 0); (3, 0)])
       (list_to_map [(100, 100); (1, 0); (2, 0); (3, 0)]).
Definition heap12 : heap :=
  Heap (list_to_map [(100, 1); (1, 2); (2, 100); (200, 200); (3, 0)])
       (list_to_map [(1, 100); (2, 1); (100, 2); (200, 200); (3, 0)]).

Lemma heap12_ring : ring heap12 100 [1; 2].
Proof. split; [by apply (bool_decide_unpack _)|]. vm_compute. repeat split; reflexivity. Qed.

(** C7: refinement. Starting from an initialised list with entries [l], any
    sequence of insertions, deletions, moves, rotations and replacements whose
    obligations the abstract sequence records (new entries allocated and not
    already linked, removed entries present) runs without a bad access and
    leaves a well-formed ring of exactly the abstract result; traversals in
    both directions then visit it in order. *)
Theorem list_ops_refine os : forall head pool l l' h fuel,
  ring h head l -> (forall x, x ∈ pool -> allocated h x) ->
  spec_ops head pool os l = Some l' -> (length l' <= fuel)%nat ->
  exists h', run_ops head os h = Some (tt, h') /\ ring h' head l' /\
    list_for_each fuel head h' = Some (l', h') /\
    list_for_each_prev fuel head h' = Some (rev l', h').
Proof.
  induction os as [|o os IH]; intros head pool l l' h fuel Hr Hpool Hs Hf; cbn in Hs.
  - simplify_eq. exists h. split; [done|]. split; [done|]. by apply list_for_each_spec.
  - destruct (spec_op head pool o l) as [l1|] eqn:E; [|done].
    destruct (spec_op_sim head pool o l l1 h Hr Hpool E) as (h1 & Hrun & Hr1).
    assert (forall x, x ∈ pool -> allocated h1 x) as Hpool1.
    { intros x Hx. eapply keeps_run_op; [exact Hrun|by apply Hpool]. }
    destruct (IH head pool l1 l' h1 fuel Hr1 Hpool1 Hs Hf) as (h' & Hrun' & H').
    exists h'. split; [|done]. cbn [run_ops]. unfold pbind. by rewrite Hrun.
Qed.

Lemma list_ops_refine_witness :
  exists h', run_ops 100 [OpAdd 1; OpAddTail 2; OpMove 2; OpReplace 1 3; OpRotate] heap0 =
      Some (tt, h') /\
    ring h' 100 [3; 2] /\ list_for_each 2 100 h' = Some ([3; 2], h') /\
    list_for_each_prev 2 100 h' = Some (rev [3; 2], h').
Proof.
  apply (list_ops_refine [OpAdd 1; OpAddTail 2; OpMove 2; OpReplace 1 3; OpRotate]
           100 [1; 2; 3] []).
  - split; [apply NoDup_singleton|]. vm_compute. repeat split; reflexivity.
  - intros x Hx. rewrite !elem_of_cons in Hx.
    destruct Hx as [-> | [-> | [-> | Hx]]]; [split; eexists; reflexivity..|].
    by apply not_elem_of_nil in Hx.
  - reflexivity.
  - simpl. lia.
Defined.

(** Joining and cutting. The four splices put the entries of one list at
    the front or the back of another (the reinitialising ones leave the first
    list empty), and cutting after an entry splits the sequence there. *)
Theorem list_splice_cut h head l lst m M2 e l2 :
  (two_rings h head l lst m ->
   (exists h', list_splice lst head h = Some (tt, h') /\ ring h' head (m ++ l)) /\
   (exists h', list_splice_tail lst head h = Some (tt, h') /\ ring h' head (l ++ m)) /\
   (exists h', list_splice_init lst head h = Some (tt, h') /\ ring h' head (m ++ l) /\
      ring h' lst []) /\
   (exists h', list_splice_tail_init lst head h = Some (tt, h') /\ ring h' head (l ++ m) /\
      ring h' lst [])) /\
  (ring h head (M2 ++ e :: l2) -> lst ∉ head :: M2 ++ e :: l2 -> allocated h lst ->
   exists h', list_cut_position lst head e h = Some (tt, h') /\
     ring h' lst (M2 ++ [e]) /\ ring h' head l2).
Proof.
  split; [|apply list_cut_position_spec].
  intros Htr. split; [|split; [|split]].
  - destruct (list_splice_spec h head l lst m Htr) as (h' & ? & ? & _). by exists h'.
  - destruct (list_splice_tail_spec h head l lst m Htr) as (h' & ? & ? & _). by exists h'.
  - by apply list_splice_init_spec.
  - by apply list_splice_tail_init_spec.
Qed.

Lemma list_splice_cut_witness :
  exists h', list_cut_position 3 100 1 heap12 = Some (tt, h') /\
    ring h' 3 ([] ++ [1]) /\ ring h' 100 [2].
Proof.
  apply (proj2 (list_splice_cut heap12 100 [1; 2] 3 [] [] 1 [2]) heap12_ring).
  - by apply (bool_decide_unpack _).
  - split; by eexists.
Defined.

(** the loop [list_for_each_safe] may delete the entry it visits: it
    still visits every entry once, in order, and leaves the list empty. *)
Theorem list_for_each_safe_deletes head l h fuel :
  ring h head l -> (length l <= fuel)%nat ->
  exists h', list_for_each_safe list_del fuel head h = Some (l, h') /\ ring h' head [].
Proof. apply for_each_safe_del. Qed.

Lemma list_for_each_safe_deletes_witness :
  exists h', list_for_each_safe list_del 2 100 heap12 = Some ([1; 2], h') /\ ring h' 100 [].
Proof. apply (list_for_each_safe_deletes 100 [1; 2] heap12 2 heap12_ring). simpl. lia. Defined.

(** ** Lists with a pointer to the previous [next] field *)

(** The chain whose first field is at [p]. *)
Fixpoint hlist (h : heap) (p : addr) (l : list addr) : Prop :=
  match l with
  | [] => nxt h !! p = Some NULL
  | x :: l' => nxt h !! p = Some x /\ x <> NULL /\ prv h !! x = Some p /\ hlist h x l'
  end.

Lemma hlist_frame h h' l : forall p,
  (forall x, x ∈ p :: l -> nxt h' !! x = nxt h !! x) ->
  (forall x, x ∈ l -> prv h' !! x = prv h !! x) ->
  hlist h p l -> hlist h' p l.
Proof.
  induction l as [|x l IH]; intros p Hn Hp; cbn [hlist].
  - rewrite Hn; [done|left].
  - intros (H1 & H2 & H3 & H4). rewrite Hn by left. rewrite Hp by left.
    split; [done|]. split; [done|]. split; [done|]. apply IH; [| |done].
    + intros y Hy. apply Hn. by right.
    + intros y Hy. apply Hp. by right.
Qed.

(** The links of the first entries, and the address of the last of them. *)
Fixpoint hpart (h : heap) (p : addr) (l : list addr) : Prop :=
  match l with
  | [] => True
  | x :: l' => nxt h !! p = Some x /\ x <> NULL /\ prv h !! x = Some p /\ hpart h x l'
  end.

Fixpoint hend (p : addr) (l : list addr) : addr :=
  match l with [] => p | x :: l' => hend x l' end.

Lemma hlist_app h l1 l2 : forall p,
  hlist h p (l1 ++ l2) <-> hpart h p l1 /\ hlist h (hend p l1) l2.
Proof.
  induction l1 as [|x l1 IH]; intros p; cbn [app hlist hpart hend]; [tauto|].
  rewrite IH. tauto.
Qed.

Lemma hend_in l : forall p, hend p l ∈ p :: l.
Proof. induction l as [|x l IH]; intros p; [left|right; apply IH]. Qed.

Lemma hend_snoc l x : forall p, hend p (l ++ [x]) = x.
Proof. induction l as [|y l IH]; intros p; [done|apply IH]. Qed.

(** Stores that spare [hend] and what follows it leave the first part alone. *)
Lemma hpart_frame h h' l : forall p,
  NoDup (p :: l) ->
  (forall x, x ∈ p :: l -> x <> hend p l -> nxt h' !! x = nxt h !! x) ->
  (forall x, x ∈ l -> prv h' !! x = prv h !! x) ->
  hpart h p l -> hpart h' p l.
Proof.
  induction l as [|x l IH]; intros p Hnd Hn Hp; cbn [hpart]; [done|].
  intros (H1 & H2 & H3 & H4). apply NoDup_cons in Hnd as [Hpx Hnd].
  rewrite Hn; [|left|change (p <> hend x l); intros ->; apply Hpx, hend_in]. rewrite Hp by left.
  split; [done|]. split; [done|]. split; [done|]. apply IH; [done| | |done].
  - intros y Hy Hne. apply Hn; [by right|done].
  - intros y Hy. apply Hp. by right.
Qed.

Lemma hpart_nonnull h p l x : hpart h p l -> x ∈ l -> x <> NULL.
Proof.
  revert p. induction l as [|z l IH]; intros p L Hx; [by apply not_elem_of_nil in Hx|].
  destruct L as (_ & Hz & _ & L). apply elem_of_cons in Hx as [-> |Hx]; [done|by apply (IH z)].
Qed.

Lemma hlist_first h p l : hlist h p l -> nxt h !! p = Some (hd NULL l).
Proof. destruct l; [done|]. by intros [? _]. Qed.

(** [n] between [q] and the rest. *)
Lemma hlist_insert h h' p l1 l2 n :
  hlist h p (l1 ++ l2) -> NoDup (p :: l1 ++ l2) -> n ∉ p :: l1 ++ l2 -> n <> NULL ->
  let q := hend p l1 in
  nxt h' !! q = Some n -> prv h' !! n = Some q -> nxt h' !! n = nxt h !! q ->
  (forall x l', l2 = x :: l' -> prv h' !! x = Some n) ->
  (forall y, y <> q -> y <> n -> nxt h' !! y = nxt h !! y) ->
  (forall y, y <> n -> y <> hd NULL l2 -> prv h' !! y = prv h !! y) ->
  hlist h' p (l1 ++ n :: l2).
Proof.
  intros Hl Hnd Hn Hn0 q Hq Hpn Hnn Hpx Hrest Hrestp.
  apply hlist_app in Hl as [L1 L2]. fold q in L2. apply hlist_app. fold q.
  change (p :: l1 ++ l2) with ((p :: l1) ++ l2) in Hnd, Hn.
  rewrite elem_of_app in Hn. apply NoDup_app in Hnd as (Hnd1 & Hd & Hnd2).
  assert (Hq1 : q ∈ p :: l1) by apply hend_in.
  assert (forall x, x ∈ l1 -> x <> hd NULL l2 \/ l2 = []) as Hl1.
  { intros x Hx. destruct l2 as [|y l2]; [by right|]. left. intros ->.
    apply (Hd y); [by right|left]. }
  split.
  - destruct l2 as [|x l2].
    + apply (hpart_frame h); [done| | |done].
      * intros y Hy Hyq. apply Hrest; [done|]. intros ->. tauto.
      * intros y Hy. apply Hrestp; [intros ->; apply Hn; left; by right|].
        by apply (hpart_nonnull h p l1).
    + apply (hpart_frame h); [done| | |done].
      * intros y Hy Hyq. apply Hrest; [done|]. intros ->. tauto.
      * intros y Hy. apply Hrestp; [intros ->; apply Hn; left; by right|].
        by destruct (Hl1 y Hy) as [H|H].
  - cbn [hlist]. split; [done|]. split; [done|]. split; [done|].
    destruct l2 as [|x l2]; cbn [hlist] in *; [by rewrite Hnn|].
    destruct L2 as (E1 & E2 & E3 & E4). split; [by rewrite Hnn|]. split; [done|].
    split; [by apply (Hpx x l2)|].
    apply NoDup_cons in Hnd2 as [Hx Hnd2].
    revert E4. apply hlist_frame; intros y Hy.
    + apply Hrest; [|intros ->; tauto]. intros ->. by apply (Hd q).
    + apply Hrestp; [|cbn [hd]; intros ->; done]. intros ->. apply Hn. right. by right.
Qed.

(** The rest follows [q] directly. *)
Lemma hlist_remove h h' p l1 e l2 :
  hlist h p (l1 ++ e :: l2) -> NoDup (p :: l1 ++ e :: l2) ->
  let q := hend p l1 in
  nxt h' !! q = nxt h !! e ->
  (forall x l', l2 = x :: l' -> prv h' !! x = Some q) ->
  (forall y, y <> q -> y <> e -> nxt h' !! y = nxt h !! y) ->
  (forall y, y <> e -> y <> hd NULL l2 -> prv h' !! y = prv h !! y) ->
  hlist h' p (l1 ++ l2).
Proof.
  intros Hl Hnd q Hq Hpx Hrest Hrestp.
  apply hlist_app in Hl as [L1 (L2 & L3 & L4 & L5)]. fold q in L2, L4. apply hlist_app. fold q.
  change (p :: l1 ++ e :: l2) with ((p :: l1) ++ e :: l2) in Hnd.
  apply NoDup_app in Hnd as (Hnd1 & Hd & Hnd2). apply NoDup_cons in Hnd2 as [He Hnd2].
  assert (Hq1 : q ∈ p :: l1) by apply hend_in.
  assert (forall x, x ∈ p :: l1 -> x <> e) as Hne.
  { intros x Hx ->. apply (Hd e Hx). left. }
  split.
  - apply (hpart_frame h); [done| | |done].
    + intros y Hy Hyq. apply Hrest; [done|by apply Hne].
    + intros y Hy. apply Hrestp; [apply Hne; by right|].
      destruct l2 as [|x l2]; cbn [hd].
      * by apply (hpart_nonnull h p l1).
      * intros ->. apply (Hd x); [by right|right; left].
  - destruct l2 as [|x l2]; cbn [hlist] in *; [by rewrite Hq|].
    destruct L5 as (E1 & E2 & E3 & E4). split; [by rewrite Hq|]. split; [done|].
    split; [by apply (Hpx x l2)|].
    apply NoDup_cons in Hnd2 as [Hx Hnd2].
    revert E4. apply hlist_frame; intros y Hy.
    + apply Hrest.
      * intros ->. apply (Hd q Hq1). by right.
      * intros ->. done.
    + apply Hrestp; [intros ->; apply He; by right|cbn [hd]; intros ->; done].
Qed.

(** A list, its head and room for one more entry. *)
Record hready (h : heap) (p : addr) (l : list addr) (n : addr) : Prop := HReady {
  hr_list : hlist h p l;
  hr_nodup : NoDup (p :: l);
  hr_new : n ∉ p :: l;
  hr_nonnull : n <> NULL;
  hr_alloc : allocated h n
}.

(** The next field of the address after which [l2] hangs, and the [pprev] of
    its first entry. *)
Lemma hlist_at h p l1 l2 : hlist h p (l1 ++ l2) ->
  nxt h !! (hend p l1) = Some (hd NULL l2) /\
  (forall x l', l2 = x :: l' -> x <> NULL /\ prv h !! x = Some (hend p l1)).
Proof.
  intros [_ H]%hlist_app. split; [by apply hlist_first|].
  intros x l' ->. by destruct H as (_ & ? & ? & _).
Qed.

Lemma hready_ne h p l n y : hready h p l n -> y ∈ p :: l -> y <> n.
Proof. intros H Hy ->. by apply (hr_new _ _ _ _ H). Qed.

(** Both ways of linking [n] after the first entries [l1]. *)
Lemma hlist_add_behind_spec h p l1 prev l2 n :
  hready h p (l1 ++ prev :: l2) n ->
  exists h', hlist_add_behind n prev h = Some (tt, h') /\ hlist h' p (l1 ++ prev :: n :: l2).
Proof.
  intros Hr. pose proof (hr_alloc _ _ _ _ Hr) as [Ha1 Ha2].
  assert (prev <> n) as Hpn.
  { apply (hready_ne _ _ _ _ _ Hr). right. apply elem_of_app. right. left. }
  assert (forall x l', l2 = x :: l' -> x <> n /\ x <> NULL) as Hx.
  { intros x l' ->. split.
    - apply (hready_ne _ _ _ _ _ Hr). right. apply elem_of_app. right. right. left.
    - destruct (hlist_at h p (l1 ++ [prev]) (x :: l')) as [_ H].
      + rewrite <-app_assoc. apply (hr_list _ _ _ _ Hr).
      + by apply (H x l'). }
  destruct Hr as [Hl Hnd Hnew Hn0 _].
  replace (l1 ++ prev :: l2) with ((l1 ++ [prev]) ++ l2) in * by by rewrite <-app_assoc.
  replace (l1 ++ prev :: n :: l2) with ((l1 ++ [prev]) ++ n :: l2) by by rewrite <-app_assoc.
  destruct (hlist_at _ _ _ _ Hl) as [Hq Hfst].
  pose proof (hend_snoc l1 prev p) as He.
  rewrite He in *. unfold hlist_add_behind. destruct l2 as [|x l2]; cbn [hd] in *.
  - eexists. split.
    + erewrite run_get_next by exact Hq. rewrite run_put_next, run_put_next, run_put_prev by alloc.
      erewrite run_get_next by (autorewrite with heap; reflexivity). reflexivity.
    + apply (hlist_insert h) with (l2 := []); rewrite ?He; autorewrite with heap; try done.
      * intros y ? ?; cbn [hd hend] in *; by autorewrite with heap.
      * intros y ? ?; cbn [hd hend] in *; by autorewrite with heap.
  - destruct (Hx x l2 eq_refl) as [Hxn Hx0]. destruct (Hfst x l2 eq_refl) as [_ Hpx].
    eexists. split.
    + erewrite run_get_next by exact Hq. rewrite run_put_next, run_put_next, run_put_prev by alloc.
      erewrite run_get_next by (autorewrite with heap; reflexivity).
      replace (x =? NULL) with false by (symmetry; by apply Z.eqb_neq). cbn [negb].
      rewrite end_put_prev by alloc. reflexivity.
    + apply (hlist_insert h) with (l2 := x :: l2); rewrite ?He; autorewrite with heap; try done.
      * intros y l' [= <- <-]. by autorewrite with heap.
      * intros y ? ?; cbn [hd hend] in *; by autorewrite with heap.
      * intros y ? ?; cbn [hd hend] in *; by autorewrite with heap.
Qed.

Lemma hlist_add_head_spec h p l n : hready h p l n ->
  exists h', hlist_add_head n p h = Some (tt, h') /\ hlist h' p (n :: l).
Proof.
  intros Hr. pose proof (hr_alloc _ _ _ _ Hr) as [Ha1 Ha2].
  assert (p <> n) as Hpn by (apply (hready_ne _ _ _ _ _ Hr); left).
  assert (forall x l', l = x :: l' -> x <> n) as Hx.
  { intros x l' ->. apply (hready_ne _ _ _ _ _ Hr). right. left. }
  destruct Hr as [Hl Hnd Hnew Hn0 _]. destruct (hlist_at h p [] l Hl) as [Hq Hfst].
  cbn [hend] in *. unfold hlist_add_head. destruct l as [|x l]; cbn [hd] in *.
  - eexists. split.
    + erewrite run_get_next by exact Hq. rewrite run_put_next by alloc.
      change (negb (NULL =? NULL)) with false. cbv iota.
      rewrite run_ret, run_put_next, end_put_prev by alloc. reflexivity.
    + apply (hlist_insert h _ p [] []); autorewrite with heap; try done;
        intros y ? ?; cbn [hd hend] in *; by autorewrite with heap.
  - pose proof (Hx x l eq_refl) as Hxn. destruct (Hfst x l eq_refl) as [Hx0 Hpx].
    eexists. split.
    + erewrite run_get_next by exact Hq. rewrite run_put_next by alloc.
      replace (x =? NULL) with false by (symmetry; by apply Z.eqb_neq). cbn [negb].
      rewrite run_put_prev, run_put_next, end_put_prev by alloc. reflexivity.
    + apply (hlist_insert h _ p [] (x :: l)); autorewrite with heap; try done.
      * intros y l' [= <- <-]. by autorewrite with heap.
      * intros y ? ?; cbn [hd hend] in *; by autorewrite with heap.
      * intros y ? ?; cbn [hd hend] in *; by autorewrite with heap.
Qed.

Lemma hlist_add_before_spec h p l1 next l2 n :
  hready h p (l1 ++ next :: l2) n ->
  exists h', hlist_add_before n next h = Some (tt, h') /\ hlist h' p (l1 ++ n :: next :: l2).
Proof.
  intros Hr. pose proof (hr_alloc _ _ _ _ Hr) as [Ha1 Ha2].
  assert (next <> n) as Hxn.
  { apply (hready_ne _ _ _ _ _ Hr). right. apply elem_of_app. right. left. }
  assert (hend p l1 <> n) as Hqn.
  { apply (hready_ne _ _ _ _ _ Hr). change (hend p l1 ∈ (p :: l1) ++ next :: l2).
    apply elem_of_app. left. apply hend_in. }
  destruct Hr as [Hl Hnd Hnew Hn0 _]. destruct (hlist_at h p l1 _ Hl) as [Hq Hfst].
  destruct (Hfst next l2 eq_refl) as [Hx0 Hpx]. cbn [hd] in *. unfold hlist_add_before.
  eexists. split.
  - erewrite run_get_prev by exact Hpx. rewrite run_put_prev, run_put_next, run_put_prev by alloc.
    erewrite run_get_prev by (autorewrite with heap; reflexivity).
    rewrite end_put_next by alloc. reflexivity.
  - apply (hlist_insert h) with (l2 := next :: l2); autorewrite with heap; try done.
    * intros y l' [= <- <-]. by autorewrite with heap.
    * intros y ? ?; cbn [hd hend] in *; by autorewrite with heap.
    * intros y ? ?; cbn [hd hend] in *; by autorewrite with heap.
Qed.

Lemma hlist_del_spec h p l1 e l2 :
  hlist h p (l1 ++ e :: l2) -> NoDup (p :: l1 ++ e :: l2) ->
  exists h', hlist_del e h = Some (tt, h') /\ hlist h' p (l1 ++ l2) /\
    nxt h' !! e = Some LIST_POISON1 /\ prv h' !! e = Some LIST_POISON2.
Proof.
  intros Hl Hnd. destruct (hlist_at h p l1 _ Hl) as [Hq Hfst].
  destruct (Hfst e l2 eq_refl) as [He0 Hpe].
  assert (hend p l1 <> e) as Hqe.
  { intros <-. change (p :: l1 ++ hend p l1 :: l2) with ((p :: l1) ++ hend p l1 :: l2) in Hnd.
    apply NoDup_app in Hnd as (_ & Hd & _). apply (Hd (hend p l1)); [apply hend_in|left]. }
  pose proof Hl as Hl'.
  replace (l1 ++ e :: l2) with ((l1 ++ [e]) ++ l2) in Hl' by by rewrite <-app_assoc.
  destruct (hlist_at _ _ _ _ Hl') as [Hn Hfst'].
  pose proof (hend_snoc l1 e p) as He.
  rewrite He in *. unfold hlist_del, __hlist_del.
  destruct l2 as [|x l2]; cbn [hd] in *.
  - eexists. split.
    + rewrite run_assoc. erewrite run_get_next by exact Hn. rewrite run_assoc.
      erewrite run_get_prev by exact Hpe. rewrite run_assoc, run_put_next by alloc.
      change (negb (NULL =? NULL)) with false. cbv iota.
      rewrite run_ret, run_put_next, end_put_prev by alloc. reflexivity.
    + split; [|by autorewrite with heap].
      apply (hlist_remove h _ p l1 e []); autorewrite with heap; try done.
      * intros y ? ?; cbn [hd hend] in *; by autorewrite with heap.
      * intros y ? ?; cbn [hd hend] in *; by autorewrite with heap.
  - destruct (Hfst' x l2 eq_refl) as [Hx0 Hpx].
    assert (x <> e) as Hxe.
    { intros ->. apply NoDup_cons in Hnd as [_ Hnd].
      apply NoDup_app in Hnd as (_ & _ & Hnd). apply NoDup_cons in Hnd as [Hx _].
      apply Hx. left. }
    eexists. split.
    + rewrite run_assoc. erewrite run_get_next by exact Hn. rewrite run_assoc.
      erewrite run_get_prev by exact Hpe. rewrite run_assoc, run_put_next by alloc.
      replace (x =? NULL) with false by (symmetry; by apply Z.eqb_neq). cbn [negb].
      rewrite run_put_prev, run_put_next, end_put_prev by alloc. reflexivity.
    + split; [|by autorewrite with heap].
      apply (hlist_remove h _ p l1 e (x :: l2)); autorewrite with heap; try done.
      * intros y l' [= <- <-]. by autorewrite with heap.
      * intros y ? ?; cbn [hd hend] in *; by autorewrite with heap.
      * intros y ? ?; cbn [hd hend] in *; by autorewrite with heap.
Qed.

Lemma hlist_for_each_spec h p l fuel : hlist h p l -> (length l <= fuel)%nat ->
  hlist_for_each fuel p h = Some (l, h).
Proof.
  intros Hl Hf. unfold hlist_for_each. erewrite run_get_next by exact (hlist_first _ _ _ Hl).
  revert p fuel Hl Hf. induction l as [|x l IH]; intros p fuel Hl Hf.
  - by destruct fuel.
  - destruct Hl as (H1 & H2 & H3 & H4). destruct fuel as [|fuel]; [simpl in Hf; lia|].
    cbn [hd hlist_for_each_from].
    replace (x =? NULL) with false by (symmetry; by apply Z.eqb_neq).
    erewrite run_get_next by exact (hlist_first _ _ _ H4).
    unfold pbind. by rewrite (IH x fuel) by (done || simpl in Hf; lia).
Qed.

(** The [hlist] operations: adding at the head, before or behind an
    entry, and deleting an entry without knowing the head, act on the sequence
    of entries as their names say, and a traversal visits exactly it. *)
Theorem hlist_ops_spec h p l1 e l2 n fuel :
  (hready h p (l1 ++ e :: l2) n ->
   (exists h', hlist_add_head n p h = Some (tt, h') /\ hlist h' p (n :: l1 ++ e :: l2)) /\
   (exists h', hlist_add_before n e h = Some (tt, h') /\ hlist h' p (l1 ++ n :: e :: l2)) /\
   (exists h', hlist_add_behind n e h = Some (tt, h') /\ hlist h' p (l1 ++ e :: n :: l2))) /\
  (hlist h p (l1 ++ e :: l2) -> NoDup (p :: l1 ++ e :: l2) ->
   exists h', hlist_del e h = Some (tt, h') /\ hlist h' p (l1 ++ l2) /\
     ((length (l1 ++ l2) <= fuel)%nat -> hlist_for_each fuel p h' = Some (l1 ++ l2, h'))).
Proof.
  split.
  - intros Hr. split; [by apply hlist_add_head_spec|].
    split; [by apply hlist_add_before_spec|by apply hlist_add_behind_spec].
  - intros Hl Hnd. destruct (hlist_del_spec h p l1 e l2 Hl Hnd) as (h' & Hrun & Hl' & _).
    exists h'. split; [done|]. split; [done|]. intros Hf. by apply hlist_for_each_spec.
Qed.

(** A hash chain at 100 holding 1 and 2. *)
Definition hheap : heap :=
  Heap (list_to_map [(100, 1); (1, 2); (2, 0); (3, 0)])
       (list_to_map [(1, 100); (2, 1); (3, 0)]).

Lemma hlist_ops_spec_witness :
  exists h', hlist_del 1 hheap = Some (tt, h') /\ hlist h' 100 ([] ++ [2]) /\
     ((length ([] ++ [2]) <= 5)%nat -> hlist_for_each 5 100 h' = Some ([] ++ [2], h')).
Proof.
  apply (proj2 (hlist_ops_spec hheap 100 [] 1 [2] 3 5)).
  - vm_compute. repeat split; done.
  - by apply (bool_decide_unpack _).
Defined.
