(* ===== verification/Queue.v ===== *)
(** * Queue: the linked queue of [src/queue_test/queue.c]

    A singly linked chain of nodes behind a header node; [front] is the
    header, [rear] the last node. The variable [queue_myself] and the other
    [LinkQueue] values are passed along explicitly. *)
From S2P Require Import Prelude.
From S2P Require Import Memory.
From S2P Require Import Chain.

Open Scope C.

Record Node := MkNode { data : Z; next : addr }.
Record LinkQueue := MkQueue { front : addr; rear : addr }.

Section Queue.
Context `{Allocator}.

Local Abbreviation run A := (prog (store Node) A).

Definition set_next (a v : addr) : run unit :=
  do n <- load a; save a (MkNode (data n) v).
Definition set_data (a : addr) (v : Z) : run unit :=
  do n <- load a; save a (MkNode v (next n)).

(** [None]: the process exits because there is no memory. *)
Definition init_queue : run (option LinkQueue) :=
  do q <- alloc (MkNode 0 NULL);
  if q =? NULL then pret None
  else set_next q NULL ;;; set_data q 0 ;;; pret (Some (MkQueue q q)).

Definition is_empty (queue : LinkQueue) : bool := rear queue =? front queue.

Definition insert_queue (queue : LinkQueue) (temp : Z) : run LinkQueue :=
  do q <- alloc (MkNode 0 NULL);
  set_data q temp ;;; set_next q NULL ;;;
  set_next (rear queue) q ;;;
  pret (MkQueue (front queue) q).

Definition delete_queue (queue : LinkQueue) : run LinkQueue :=
  if is_empty queue then free NULL ;;; pret queue
  else
    do f <- load (front queue);
    let q := next f in
    do n <- load q;
    set_next (front queue) (next n) ;;;
    let queue := if rear queue =? q then MkQueue (front queue) (front queue) else queue in
    free q ;;; pret queue.

(** [while (q != NULL)], printing the data; the fuel bounds the number of
    nodes visited. *)
Fixpoint traverse_from (fuel : nat) (q : addr) : run (list Z) :=
  if q =? NULL then pret [] else
  match fuel with
  | O => pfail
  | S fuel =>
      do n <- load q;
      do out <- traverse_from fuel (next n);
      pret (data n :: out)
  end.

Definition traversal (queue : LinkQueue) : run (list Z) := fun s =>
  (do h <- load (front queue); traverse_from (size (objs s)) (next h)) s.

(** [while (i++ < 51) insert_queue(&queue_myself, i - 1)] *)
Fixpoint fill_room (fuel : nat) (i : Z) (queue : LinkQueue) : run LinkQueue :=
  match fuel with
  | O => pfail
  | S fuel =>
      let more := i <? 51 in
      let i := i + 1 in
      if more then do queue <- insert_queue queue (i - 1); fill_room fuel i queue
      else pret queue
  end.

Definition create_room_50ps : run (option LinkQueue) :=
  do q <- init_queue;
  match q with
  | None => pret None
  | Some queue => do queue <- fill_room 51 1 queue; pret (Some queue)
  end.

Definition room_survive (queue : LinkQueue) (data : Z) : run LinkQueue :=
  do queue <- delete_queue queue; insert_queue queue data.

(** The repetitions of [room_survive] and [traversal] in [main]. *)
Fixpoint survive (datas : list Z) (queue : LinkQueue) : run (list (list Z)) :=
  match datas with
  | [] => pret []
  | d :: datas =>
      do queue <- room_survive queue d;
      do line <- traversal queue;
      do rest <- survive datas queue;
      pret (line :: rest)
  end.

(** Nothing is allocated when the program starts. *)
Definition no_objects : store Node := Store ∅ 0.

(** The lines [main] prints; [None] when it exits. *)
Definition main : run (option (list (list Z))) :=
  do q <- create_room_50ps;
  match q with
  | None => pret None
  | Some queue =>
      do line <- traversal queue;
      do rest <- survive [51; 52; 53; 54] queue;
      pret (Some (line :: rest))
  end.

(** ** Abstract queues *)

(** The queue [queue] has the nodes [xs] behind its header, and there is
    nothing else in the store. *)
Record is_queue (s : store Node) (queue : LinkQueue) (hd : Z) (xs : list (addr * Z)) : Prop :=
  IsQueue {
    q_chain : chain MkNode (objs s) (front queue) ((front queue, hd) :: xs);
    q_rear : rear queue = List.last xs.*1 (front queue);
    q_nodup : NoDup (front queue :: xs.*1);
    q_dom : dom (objs s) = list_to_set (front queue :: xs.*1)
  }.

Definition holds (s : store Node) (queue : LinkQueue) (vs : list Z) : Prop :=
  exists hd xs, is_queue s queue hd xs /\ xs.*2 = vs.

(** ** The operations on a represented queue *)

Lemma run_node_next {B} a x v n (k : unit -> run B) s :
  objs s !! a = Some (MkNode v n) ->
  pbind (set_next a x) k s = k tt (Store (<[a := MkNode v x]> (objs s)) (requests s)).
Proof. intros Ha. unfold pbind, set_next, load, save, pbind. by rewrite Ha, Ha. Qed.

Lemma run_set_data {B} a x v n (k : unit -> run B) s :
  objs s !! a = Some (MkNode v n) ->
  pbind (set_data a x) k s = k tt (Store (<[a := MkNode x n]> (objs s)) (requests s)).
Proof. intros Ha. unfold pbind, set_data, load, save, pbind. by rewrite Ha, Ha. Qed.

(** The last node of a queue, its header when it is empty. *)
Lemma split_last s queue hd xs :
  is_queue s queue hd xs ->
  exists ys v, (front queue, hd) :: xs = ys ++ [(rear queue, v)].
Proof.
  intros [_ Hr _ _]. rewrite Hr. clear Hr.
  destruct xs as [|x xs _] using rev_ind; [by exists [], hd|].
  exists ((front queue, hd) :: xs), x.2. rewrite fmap_app. cbn.
  by rewrite last_last, <-surjective_pairing.
Qed.

Lemma init_queue_spec s :
  objs s = ∅ -> malloc (requests s) (dom (objs s)) <> NULL ->
  exists queue s', init_queue s = Some (Some queue, s') /\ holds s' queue [].
Proof.
  intros He Hm. unfold init_queue.
  destruct (run_alloc (MkNode 0 NULL) s Hm) as (a & Ha & Hf & Hrun). rewrite Hrun.
  rewrite (proj2 (Z.eqb_neq a NULL) Ha).
  erewrite run_node_next by apply lookup_insert_eq.
  erewrite run_set_data by apply lookup_insert_eq. cbn [objs requests].
  eexists _, _. split; [reflexivity|]. exists 0, []. split; [|done].
  constructor; cbn.
  - split; [done|]. split; [done|]. exists NULL. by rewrite lookup_insert_eq.
  - done.
  - apply NoDup_singleton.
  - rewrite He. set_solver.
Qed.

Lemma insert_queue_spec s queue vs t :
  holds s queue vs -> malloc (requests s) (dom (objs s)) <> NULL ->
  exists queue' s', insert_queue queue t s = Some (queue', s') /\ holds s' queue' (vs ++ [t]).
Proof.
  intros (hd & xs & Hq & <-) Hm. unfold insert_queue.
  destruct (run_alloc (MkNode 0 NULL) s Hm) as (a & Ha & Hf & Hrun). rewrite Hrun.
  erewrite run_set_data by apply lookup_insert_eq.
  erewrite run_node_next by apply lookup_insert_eq. cbn [objs requests].
  rewrite !insert_insert_eq.
  destruct (split_last _ _ _ _ Hq) as (ys & v & Hys).
  destruct Hq as [Hc Hr Hnd Hd].
  assert (Hin : a ∉ front queue :: xs.*1).
  { apply not_elem_of_dom in Hf. rewrite Hd in Hf. set_solver. }
  destruct (chain_in _ _ _ _ (rear queue) v Hc) as (n & Hrear & _).
  { rewrite Hys. apply elem_of_app. right. by left. }
  erewrite run_node_next by (cbn; rewrite lookup_insert_ne by congruence; exact Hrear).
  eexists _, _. split; [reflexivity|]. exists hd, (xs ++ [(a, t)]).
  split; [|by rewrite fmap_app]. constructor; cbn [objs requests front rear].
  - change ((front queue, hd) :: xs ++ [(a, t)]) with (((front queue, hd) :: xs) ++ [(a, t)]).
    rewrite Hys, <-app_assoc. apply chain_snoc; [by rewrite <-Hys|by rewrite <-Hys|done|done].
  - rewrite fmap_app. cbn. by rewrite last_last.
  - rewrite fmap_app. change (front queue :: xs.*1 ++ [(a, t)].*1)
      with ((front queue :: xs.*1) ++ [a]).
    apply NoDup_app. split; [done|]. split; [|apply NoDup_singleton].
    intros b Hb ->%list_elem_of_singleton. done.
  - rewrite !dom_insert_L, Hd, fmap_app.
    assert (rear queue ∈ (front queue :: xs.*1)).
    { change (front queue :: xs.*1) with (((front queue, hd) :: xs).*1). rewrite Hys, fmap_app.
      apply elem_of_app. right. by left. }
    rewrite !list_to_set_cons, list_to_set_app_L. set_solver.
Qed.

Lemma delete_queue_spec s queue vs :
  holds s queue vs ->
  exists queue' s', delete_queue queue s = Some (queue', s') /\ holds s' queue' (tail vs).
Proof.
  intros (hd & xs & Hq & <-). unfold delete_queue, is_empty.
  destruct Hq as [Hc Hr Hnd Hd]. destruct xs as [|[a v] xs].
  { cbn in Hr. rewrite Hr, Z.eqb_refl. eexists _, _. split; [reflexivity|].
    exists hd, []. split; [by constructor|done]. }
  apply NoDup_cons in Hnd as [Hf Hnd]. cbn in Hf, Hnd.
  assert (Hrin : rear queue ∈ a :: xs.*1) by (rewrite Hr; by apply last_elem).
  assert (Hne : rear queue <> front queue) by (intros He; by rewrite He in Hrin).
  rewrite (proj2 (Z.eqb_neq _ _) Hne).
  destruct (chain_unlink _ _ _ [] _ _ _ _ _ Hc) as (n & Hfm & Ham & Hc').
  { by apply NoDup_cons. }
  erewrite run_load by exact Hfm. cbn [next]. erewrite run_load by exact Ham. cbn [next].
  erewrite run_node_next by exact Hfm.
  destruct (chain_addr _ _ _ _ a Hc) as [Han _]; [right; by left|].
  assert (Hfa : front queue <> a) by (intros He; apply Hf; rewrite He; by left).
  erewrite run_free; [|done|cbn; rewrite lookup_insert_ne by done; exact Ham].
  cbn [objs requests fmap list_fmap] in *. apply NoDup_cons in Hnd as [Ha Hnd].
  eexists _, _. split; [reflexivity|]. exists hd, xs. split; [|done].
  rewrite last_cons_skip in Hr.
  assert (Hxs : (rear queue =? a) = match xs with [] => true | _ => false end).
  { destruct xs as [|x xs]; [by apply Z.eqb_eq|]. apply Z.eqb_neq. intros He.
    apply Ha. rewrite <-He, Hr. by apply last_elem. }
  rewrite Hxs. clear Hxs.
  assert (Hfront : forall q : LinkQueue, q = (if match xs with [] => true | _ => false end
    then MkQueue (front queue) (front queue) else queue) ->
    front q = front queue /\ rear q = List.last xs.*1 (front queue)).
  { intros q ->. destruct xs as [|x xs]; [done|]. split; [done|]. rewrite Hr.
    cbn [fmap list_fmap]. by rewrite !last_cons_skip. }
  destruct (Hfront _ eq_refl) as [Hf1 Hf2]. constructor; cbn [objs]; rewrite ?Hf1.
  - exact Hc'.
  - by rewrite Hf2.
  - apply NoDup_cons. split; [|done]. intros Hin. apply Hf. by right.
  - rewrite dom_delete_L, dom_insert_L, Hd. rewrite !list_to_set_cons.
    assert (a ∉ (list_to_set xs.*1 : gset addr)) by (by rewrite elem_of_list_to_set).
    set_solver.
Qed.

(** The traversal visits the chain; as many steps as the store has objects are
    enough. *)
Lemma traverse_chain s : forall xs p fuel,
  chain MkNode (objs s) p xs -> (length xs <= fuel)%nat ->
  traverse_from fuel p s = Some (xs.*2, s).
Proof.
  induction xs as [|[a v] xs IH]; intros p fuel Hc Hf.
  - cbn in Hc. subst p. by destruct fuel.
  - destruct Hc as (-> & Hn & n & Ha & Hc). destruct fuel as [|fuel]; [cbn in Hf; lia|].
    cbn [traverse_from]. rewrite (proj2 (Z.eqb_neq _ _) Hn).
    erewrite run_load by exact Ha. cbn [next]. unfold pbind at 1.
    rewrite (IH n fuel Hc) by (cbn in Hf; lia). done.
Qed.

Lemma traversal_spec s queue vs :
  holds s queue vs -> traversal queue s = Some (vs, s).
Proof.
  intros (hd & xs & [Hc Hr Hnd Hd] & <-). unfold traversal.
  destruct Hc as (_ & _ & n & Hfm & Hc). erewrite run_load by exact Hfm. cbn [next].
  apply traverse_chain; [done|].
  rewrite <-size_dom, Hd, size_list_to_set by done. cbn. rewrite length_fmap. lia.
Qed.

(** ** The queue as a list *)

Inductive op := Insert (v : Z) | Delete | Show.

Definition run_op (o : op) (queue : LinkQueue) : run (LinkQueue * list (list Z)) :=
  match o with
  | Insert v => do queue <- insert_queue queue v; pret (queue, [])
  | Delete => do queue <- delete_queue queue; pret (queue, [])
  | Show => do line <- traversal queue; pret (queue, [line])
  end.

Fixpoint run_ops (os : list op) (queue : LinkQueue) : run (LinkQueue * list (list Z)) :=
  match os with
  | [] => pret (queue, [])
  | o :: os =>
      do r <- run_op o queue;
      do r' <- run_ops os r.1;
      pret (r'.1, r.2 ++ r'.2)
  end.

Definition spec_op (o : op) (vs : list Z) : list Z * list (list Z) :=
  match o with
  | Insert v => (vs ++ [v], [])
  | Delete => (tail vs, [])
  | Show => (vs, [vs])
  end.

Fixpoint spec_ops (os : list op) (vs : list Z) : list Z * list (list Z) :=
  match os with
  | [] => (vs, [])
  | o :: os =>
      let r := spec_op o vs in
      let r' := spec_ops os r.1 in (r'.1, r.2 ++ r'.2)
  end.

Lemma queue_null s queue vs : holds s queue vs -> objs s !! NULL = None.
Proof.
  intros (hd & xs & [Hc _ _ Hd] & _). apply not_elem_of_dom. rewrite Hd, elem_of_list_to_set.
  change (NULL ∉ ((front queue, hd) :: xs).*1). intros [[a v] [Ha Hin]]%list_elem_of_fmap.
  destruct (chain_in _ _ _ _ a v Hc Hin) as (_ & _ & Hn). by apply Hn.
Qed.

Lemma insert_queue_null s queue vs t :
  holds s queue vs -> malloc (requests s) (dom (objs s)) = NULL -> insert_queue queue t s = None.
Proof.
  intros Hq Hm. unfold insert_queue. rewrite run_alloc_null by done.
  unfold set_data. unfold pbind at 1. rewrite load_null_fails; [done|].
  apply (queue_null _ _ _ Hq).
Qed.

Section Unlimited.
Context `{!Unlimited}.

Lemma run_op_sim s queue vs o :
  holds s queue vs ->
  exists queue' s', run_op o queue s = Some ((queue', (spec_op o vs).2), s') /\
    holds s' queue' (spec_op o vs).1.
Proof.
  intros Hq. destruct o as [v| |]; cbn [run_op spec_op fst snd].
  - destruct (insert_queue_spec s queue vs v Hq (malloc_some _ _)) as (q' & s' & Hr & Hq').
    exists q', s'. unfold pbind. by rewrite Hr.
  - destruct (delete_queue_spec s queue vs Hq) as (q' & s' & Hr & Hq').
    exists q', s'. unfold pbind. by rewrite Hr.
  - exists queue, s. unfold pbind. by rewrite (traversal_spec _ _ _ Hq).
Qed.

Lemma run_ops_sim os : forall s queue vs,
  holds s queue vs ->
  exists queue' s', run_ops os queue s = Some ((queue', (spec_ops os vs).2), s') /\
    holds s' queue' (spec_ops os vs).1.
Proof.
  induction os as [|o os IH]; intros s queue vs Hq; [by exists queue, s|].
  destruct (run_op_sim s queue vs o Hq) as (q1 & s1 & H1 & Hq1).
  destruct (IH s1 q1 _ Hq1) as (q2 & s2 & H2 & Hq2).
  exists q2, s2. cbn [run_ops spec_ops fst snd]. unfold pbind. rewrite H1. cbn [fst snd].
  by rewrite H2.
Qed.

(** The repetitions of [main], on a list. *)
Fixpoint spec_survive (datas vs : list Z) : list (list Z) :=
  match datas with
  | [] => []
  | d :: datas => (tail vs ++ [d]) :: spec_survive datas (tail vs ++ [d])
  end.

Lemma survive_spec datas : forall s queue vs,
  holds s queue vs ->
  exists s', survive datas queue s = Some (spec_survive datas vs, s').
Proof.
  induction datas as [|d datas IH]; intros s queue vs Hq; [by exists s|].
  cbn [survive spec_survive]. unfold room_survive.
  destruct (delete_queue_spec s queue vs Hq) as (q1 & s1 & H1 & Hq1).
  destruct (insert_queue_spec s1 q1 _ d Hq1 (malloc_some _ _)) as (q2 & s2 & H2 & Hq2).
  destruct (IH s2 q2 _ Hq2) as (s3 & H3). exists s3. unfold pbind.
  by rewrite H1, H2, (traversal_spec _ _ _ Hq2), H3.
Qed.

Lemma fill_room_spec n : forall i s queue vs,
  i = 51 - Z.of_nat n -> holds s queue vs ->
  exists queue' s', fill_room (S n) i queue s = Some (queue', s') /\
    holds s' queue' (vs ++ seqZ i (Z.of_nat n)).
Proof.
  induction n as [|n IH]; intros i s queue vs -> Hq.
  - exists queue, s. by rewrite app_nil_r.
  - remember (S n) as m. cbn [fill_room]. subst m.
    rewrite (proj2 (Z.ltb_lt (51 - Z.of_nat (S n)) 51)) by lia.
    set (i := 51 - Z.of_nat (S n)). replace (i + 1 - 1) with i by lia.
    destruct (insert_queue_spec s queue vs i Hq (malloc_some _ _)) as (q1 & s1 & H1 & Hq1).
    destruct (IH (i + 1) s1 q1 _ ltac:(lia) Hq1) as (q2 & s2 & H2 & Hq2).
    exists q2, s2. unfold pbind. rewrite H1, H2. split; [done|].
    rewrite (seqZ_cons i) by lia. unfold Z.succ, Z.pred.
    rewrite <-app_assoc in Hq2.
    by replace (Z.of_nat (S n) + -1) with (Z.of_nat n) by lia.
Qed.

End Unlimited.

(** ** Theorems *)

(** C15: as long as memory lasts, any sequence of insertions, deletions and
    traversals is a sequence of first-in first-out operations on a list: no
    bad access, deleting from an empty queue does nothing, every traversal
    prints the list, and the store holds the header and the queued nodes only,
    so nothing leaks. Without memory an insertion writes through [NULL]. *)
Theorem queue_refines_fifo s queue vs os t :
  holds s queue vs ->
  (Unlimited -> exists queue' s',
     run_ops os queue s = Some ((queue', (spec_ops os vs).2), s') /\
     holds s' queue' (spec_ops os vs).1) /\
  (malloc (requests s) (dom (objs s)) = NULL -> insert_queue queue t s = None).
Proof. intros Hq. split; [intros; by apply run_ops_sim|by apply (insert_queue_null _ _ vs)]. Qed.

(** [main] prints the numbers 1 to 50, then four times the list with its
    first number gone and the next one, 51 to 54, at the end: the room always
    has fifty places. It exits at once when there is no memory for the header. *)
Theorem main_prints :
  (Unlimited ->
     exists s', main no_objects = Some (Some ((fun k => seqZ k 50) <$> seqZ 1 5), s')) /\
  (malloc 0 ∅ = NULL -> exists s', main no_objects = Some (None, s')).
Proof.
  unfold main, create_room_50ps. split.
  - intros HU. destruct (init_queue_spec no_objects eq_refl (malloc_some _ _))
      as (q0 & s0 & H0 & Hq0).
    destruct (fill_room_spec 50 1 s0 q0 [] eq_refl Hq0) as (q1 & s1 & H1 & Hq1).
    destruct (survive_spec [51; 52; 53; 54] s1 q1 _ Hq1) as (s2 & H2).
    exists s2. unfold pbind. rewrite H0, H1. unfold pret at 1.
    rewrite (traversal_spec _ _ _ Hq1), H2. reflexivity.
  - intros Hm. exists (Store ∅ 1). unfold init_queue, pbind, alloc. cbn [requests objs no_objects].
    rewrite dom_empty_L, Hm. reflexivity.
Qed.

End Queue.

(** A queue of one number, for the witness. *)
Definition queue1 : LinkQueue := MkQueue 1 2.
Definition store1 : store Node :=
  Store (<[1 := MkNode 0 2]> (<[2 := MkNode 7 NULL]> ∅)) 2.

Lemma store1_holds : holds store1 queue1 [7].
Proof.
  exists 0, [(2, 7)]. split; [|done]. constructor.
  - split; [done|]. split; [done|]. exists 2. split; [done|]. split; [done|]. split; [done|].
    by exists NULL.
  - done.
  - by apply (bool_decide_unpack _).
  - by apply (bool_decide_unpack _).
Qed.

Lemma queue_refines_fifo_witness :
  (@Unlimited bump_allocator -> exists queue' s',
     @run_ops bump_allocator [Delete; Delete; Insert 3; Show] queue1 store1 =
       Some ((queue', [[3]]), s') /\ holds s' queue' [3]) /\
  (@malloc bump_allocator 2 (dom (objs store1)) = NULL ->
     @insert_queue bump_allocator queue1 5 store1 = None).
Proof. exact (@queue_refines_fifo bump_allocator store1 queue1 [7] _ 5 store1_holds). Defined.

Lemma main_prints_witness :
  exists s', @main bump_allocator no_objects =
    Some (Some ((fun k => seqZ k 50) <$> seqZ 1 5), s').
Proof. exact (proj1 (@main_prints bump_allocator) bump_unlimited). Defined.
