(* ===== verification/Ping.v ===== *)
(** * Ping: the ICMP echo test of [src/ping_test/ping.c]

    The checksum, the messages, the two threads and the statistics. A message
    is a list of bytes, laid out as [struct icmp]; 16-bit fields are stored
    in the host's order, low byte first. *)
From S2P Require Import Prelude.

Open Scope C.

Definition PACKET_SEND_MAX_NUM : Z := 3.
Definition ICMP_ECHO : Z := 8.
Definition ICMP_ECHOREPLY : Z := 0.

Record timeval := TimeVal { tv_sec : Z; tv_usec : Z }.

(** [end_time] and [seq] of the C structure are never used. *)
Record ping_packet_status := Status { begin_time : timeval; flag : Z }.

(** ** Messages *)

Definition get16 (b : list Z) (i : Z) : Z := b.[i] + 256 * b.[i + 1].
Definition put16 (b : list Z) (i v : Z) : list Z :=
  b.[i := v mod 256].[i + 1 := v / 256 mod 256].

(** [while (nleft > 1)]: the sum, what is left and where. *)
Fixpoint sum_words (nleft : nat) (sum : Z) (w : list Z) : Z * nat * list Z :=
  match nleft with
  | S (S n) => sum_words n (i32 (sum + get16 w 0)) (drop 2 w)
  | _ => (sum, nleft, w)
  end.

Definition cal_chksum (addr : list Z) (len : Z) : Z :=
  let '(sum, nleft, w) := sum_words (Z.to_nat len) 0 addr in
  let sum := if (nleft =? 1)%nat then i32 (sum + w.[0]) else sum in
  let sum := i32 (Z.shiftr sum 16 + Z.land sum 0xffff) in
  let sum := i32 (sum + Z.shiftr sum 16) in
  u16 (Z.lnot sum).

Definition cal_time_offset (begin finish : timeval) : timeval :=
  let sec := tv_sec finish - tv_sec begin in
  let usec := tv_usec finish - tv_usec begin in
  if usec <? 0 then TimeVal (sec - 1) (usec + 1000000) else TimeVal sec usec.

(** [for (i = 0; i < length; i++) icmphdr->icmp_data[i] = i;] from [i] on *)
Fixpoint fill_data (n : nat) (i : Z) (b : list Z) : list Z :=
  match n with
  | O => b
  | S n => fill_data n (i + 1) (b.[8 + i := u8 i])
  end.

Definition icmp_pack (pid : Z) (icmphdr : list Z) (seq length : Z) : list Z :=
  let b := icmphdr.[0 := ICMP_ECHO].[1 := 0] in
  let b := put16 b 2 0 in
  let b := put16 b 6 (u16 seq) in
  let b := put16 b 4 (Z.land pid 0xffff) in
  let b := fill_data (Z.to_nat length) 0 b in
  put16 b 2 (cal_chksum b length).

(** What [icmp_unpack] prints. *)
Inductive event :=
  | TooShort
  | SeqOutOfRange
  | NotOurs
  | Reply (len src seq ttl rtt : Z)
  | SelectFailed
  | SelectTimeout
  | RecvFailed
  | SendFailed
  | Sent (message : list Z).

(** The tests of [icmp_unpack], on the buffer alone. *)
Inductive verdict := Refused (e : event) | Answers (seq : Z).

Definition icmp_test (pid : Z) (buf : list Z) (len : Z) : verdict :=
  let iphdr_len := Z.land (buf.[0]) 15 * 4 in
  let icmp := drop (Z.to_nat iphdr_len) buf in
  let len := len - iphdr_len in
  if len <? 8 then Refused TooShort
  else if (icmp.[0] =? ICMP_ECHOREPLY) && (get16 icmp 4 =? Z.land pid 0xffff) then
    let seq := get16 icmp 6 in
    if (seq <? 0) || (PACKET_SEND_MAX_NUM <? seq) then Refused SeqOutOfRange else Answers seq
  else Refused NotOurs.

(** The line for reply [seq], sent at [begin]. *)
Definition icmp_print (begin now : timeval) (buf : list Z) (len seq : Z) : event :=
  let offset_time := cal_time_offset begin now in
  let rtt := i32 (tv_sec offset_time * 1000 + Z.quot (tv_usec offset_time) 1000) in
  let src := get16 buf 12 + 65536 * get16 buf 14 in
  Reply (len - Z.land (buf.[0]) 15 * 4) src seq (buf.[8]) rtt.

(** The return code, the packet table and the line; [None] when the table is
    accessed past its end. [now] is the time read on arrival. *)
Definition icmp_unpack (pid : Z) (now : timeval) (table : list ping_packet_status)
    (buf : list Z) (len : Z) : option (Z * list ping_packet_status * event) :=
  match icmp_test pid buf len with
  | Refused e => Some (-1, table, e)
  | Answers seq =>
      match table !! Z.to_nat seq with
      | None => None
      | Some p =>
          Some (0, <[Z.to_nat seq := Status (begin_time p) 0]> table,
                icmp_print (begin_time p) now buf len seq)
      end
  end.

(** ** The shared variables *)

Record shared := Shared {
  ping_packet : list ping_packet_status;
  alive_recv : Z;
  alive_send : Z;
  send_count : Z;
  recv_count : Z;
  ping_flag : Z;
  start_time : timeval;
  end_time : timeval;
  time_interval : timeval
}.

Definition with_packets (g : shared) v := Shared v (alive_recv g) (alive_send g)
  (send_count g) (recv_count g) (ping_flag g) (start_time g) (end_time g) (time_interval g).
Definition with_alive_send (g : shared) v := Shared (ping_packet g) (alive_recv g) v
  (send_count g) (recv_count g) (ping_flag g) (start_time g) (end_time g) (time_interval g).
Definition with_send_count (g : shared) v := Shared (ping_packet g) (alive_recv g)
  (alive_send g) v (recv_count g) (ping_flag g) (start_time g) (end_time g) (time_interval g).
Definition with_recv_count (g : shared) v := Shared (ping_packet g) (alive_recv g)
  (alive_send g) (send_count g) v (ping_flag g) (start_time g) (end_time g) (time_interval g).
Definition with_ping_flag (g : shared) v := Shared (ping_packet g) (alive_recv g)
  (alive_send g) (send_count g) (recv_count g) v (start_time g) (end_time g) (time_interval g).
Definition with_start_time (g : shared) v := Shared (ping_packet g) (alive_recv g)
  (alive_send g) (send_count g) (recv_count g) (ping_flag g) v (end_time g) (time_interval g).

Definition with_alive_recv (g : shared) v := Shared (ping_packet g) v (alive_send g)
  (send_count g) (recv_count g) (ping_flag g) (start_time g) (end_time g) (time_interval g).
Definition with_end_time (g : shared) v := Shared (ping_packet g) (alive_recv g) (alive_send g)
  (send_count g) (recv_count g) (ping_flag g) (start_time g) v (time_interval g).
Definition with_time_interval (g : shared) v := Shared (ping_packet g) (alive_recv g) (alive_send g)
  (send_count g) (recv_count g) (ping_flag g) (start_time g) (end_time g) v.

(** ** The threads

    Both threads and the interrupt's handler run statement by statement: a step
    is one access to the shared variables, with the calls and the local
    computation up to the next one. Between any two steps of a thread the others
    may take any number of theirs. *)

Inductive send_pc :=
  | TestSend             (** [while(alive_send)] *)
  | Stamp                (** [gettimeofday(&(ping_packet[send_count].begin_time), NULL)] *)
  | Mark                 (** [ping_packet[send_count].flag = 1] *)
  | SendTo               (** [icmp_pack] of [send_count], and [sendto] *)
  | CountSent (size : Z) (** [if(++send_count >= PACKET_SEND_MAX_NUM)] *)
  | StopSend             (** [alive_send = 0] *)
  | GiveUp               (** [ping_flag = -1] *)
  | SendDone.

#[global] Instance send_pc_eq_dec : EqDecision send_pc.
Proof. solve_decision. Defined.

Record sender := Sender { send_buf : list Z; s_i : Z; s_pc : send_pc }.

(** The statements before the loop. *)
Definition send_enter (g : shared) (now : timeval) : shared * sender :=
  (with_start_time g now, Sender (replicate 128 0) 0 TestSend).

(** [now] and [size] are what [gettimeofday] and [sendto] answer. [None]: the
    table is accessed past its end. *)
Definition ping_send (pid : Z) (now : timeval) (size : Z) (g : shared) (t : sender)
  : option (shared * sender * list event) :=
  let goto pc := Sender (send_buf t) (s_i t) pc in
  let entry := ping_packet g !! Z.to_nat (send_count g) in
  let store p := with_packets g (<[Z.to_nat (send_count g) := p]> (ping_packet g)) in
  match s_pc t with
  | TestSend => Some (g, goto (if alive_send g =? 0 then SendDone else Stamp), [])
  | Stamp => match entry with Some p => Some (store (Status now (flag p)), goto Mark, []) | None => None end
  | Mark => match entry with Some p => Some (store (Status (begin_time p) 1), goto SendTo, []) | None => None end
  | SendTo =>
      let b := icmp_pack pid (send_buf t) (send_count g) 64 in
      Some (g, Sender b (s_i t) (CountSent size), [Sent (take 64 b)])
  | CountSent size =>
      let g := with_send_count g (send_count g + 1) in
      if PACKET_SEND_MAX_NUM <=? send_count g then Some (g, goto StopSend, [])
      else if size <? 0 then
        Some (g, Sender (send_buf t) (s_i t + 1) (if 3 <=? s_i t then GiveUp else TestSend), [SendFailed])
      else Some (g, goto TestSend, [])
  | StopSend => Some (with_alive_send g 0, goto SendDone, [])
  | GiveUp => Some (with_ping_flag g (-1), goto SendDone, [])
  | SendDone => Some (g, t, [])
  end.

Inductive recv_pc :=
  | TestRecv                    (** [while(alive_recv)] *)
  | Select                      (** [select], [recv] and the tests of [icmp_unpack] *)
  | FlagSelect                  (** [ping_flag = -1] after [select] *)
  | Answered (len seq : Z)      (** [ping_packet[icmp->icmp_seq].flag = 0] *)
  | Timed (len seq : Z)         (** [begin_time = ping_packet[icmp->icmp_seq].begin_time] *)
  | FlagPacket                  (** [ping_flag = -1] after four refused packets *)
  | CountReceived               (** [if(++recv_count >= PACKET_SEND_MAX_NUM)] *)
  | StopRecv                    (** [alive_recv = 0] *)
  | EndRecv                     (** [gettimeofday(&end_time, NULL)] *)
  | IntervalRecv                (** [time_interval = cal_time_offset(start_time, end_time)] *)
  | RecvDone.

#[global] Instance recv_pc_eq_dec : EqDecision recv_pc.
Proof. solve_decision. Defined.

Record receiver := Receiver { recv_buf : list Z; r_i : Z; r_pc : recv_pc }.

Definition recv_enter : receiver := Receiver (replicate 512 0) 0 TestRecv.

(** What the calls of a turn answer: [select], then [recv] and its bytes. *)
Inductive arrival :=
  | SelectReturns (ret : Z)
  | RecvError
  | Packet (bytes : list Z).

(** [now] is what [gettimeofday] answers, if the statement calls it. *)
Definition ping_recv (pid : Z) (now : timeval) (a : arrival) (g : shared) (t : receiver)
  : option (shared * receiver * list event) :=
  let goto pc := Receiver (recv_buf t) (r_i t) pc in
  match r_pc t with
  | TestRecv => Some (g, goto (if alive_recv g =? 0 then RecvDone else Select), [])
  | Select =>
      match a with
      | SelectReturns ret => Some (g, goto FlagSelect, [if ret =? 0 then SelectTimeout else SelectFailed])
      | RecvError => Some (g, goto TestRecv, [RecvFailed])
      | Packet bytes =>
          let buf := bytes ++ drop (length bytes) (recv_buf t) in
          let len := Z.of_nat (length bytes) in
          match icmp_test pid buf len with
          | Answers seq => Some (g, Receiver buf (r_i t) (Answered len seq), [])
          | Refused e => Some (g, Receiver buf (r_i t + 1) (if 3 <=? r_i t then FlagPacket else TestRecv), [e])
          end
      end
  | FlagSelect => Some (with_ping_flag g (-1), goto RecvDone, [])
  | Answered len seq =>
      match ping_packet g !! Z.to_nat seq with
      | None => None
      | Some p =>
          Some (with_packets g (<[Z.to_nat seq := Status (begin_time p) 0]> (ping_packet g)), goto (Timed len seq), [])
      end
  | Timed len seq =>
      match ping_packet g !! Z.to_nat seq with
      | None => None
      | Some p => Some (g, goto CountReceived, [icmp_print (begin_time p) now (recv_buf t) len seq])
      end
  | FlagPacket => Some (with_ping_flag g (-1), goto CountReceived, [])
  | CountReceived =>
      let g := with_recv_count g (recv_count g + 1) in
      Some (g, goto (if PACKET_SEND_MAX_NUM <=? recv_count g then StopRecv else TestRecv), [])
  | StopRecv => Some (with_alive_recv g 0, goto EndRecv, [])
  | EndRecv => Some (with_end_time g now, goto IntervalRecv, [])
  | IntervalRecv => Some (with_time_interval g (cal_time_offset (start_time g) (end_time g)), goto RecvDone, [])
  | RecvDone => Some (g, t, [])
  end.

(** The handler of [SIGINT], when it is not running and before each of its
    statements but the first. *)
Inductive sig_pc := Idle | StopSendSig | EndSig | IntervalSig.

Definition icmp_sigint (now : timeval) (g : shared) (pc : sig_pc) : shared * sig_pc :=
  match pc with
  | Idle => (with_alive_recv g 0, StopSendSig)
  | StopSendSig => (with_alive_send g 0, EndSig)
  | EndSig => (with_end_time g now, IntervalSig)
  | IntervalSig => (with_time_interval g (cal_time_offset (start_time g) (end_time g)), Idle)
  end.

(** ** The run *)

(** Transmitted, received, loss in percent, milliseconds; and [ping_flag].
    [None]: a division by zero. *)
Definition ping_stats_show (g : shared) : option (Z * Z * Z * Z * Z) :=
  let time := tv_sec (time_interval g) * 1000 + Z.quot (tv_usec (time_interval g)) 1000 in
  if send_count g =? 0 then None
  else
    let tmp := Z.quot ((send_count g - recv_count g) * 100) (send_count g) in
    Some (send_count g, recv_count g, tmp, time, if tmp =? 0 then 0 else -1).

Definition zero_time : timeval := TimeVal 0 0.

(** The static variables when [ping_test] creates the threads. *)
Definition ping_start : shared :=
  Shared (replicate 3 (Status zero_time 0)) 1 1 0 0 0 zero_time zero_time zero_time.

(** The variables, the threads, the handler, and the messages sent, oldest
    first. The sender is [None] until it runs. *)
Record config := Config {
  g : shared;
  snd_t : option sender;
  rcv_t : receiver;
  handler : sig_pc;
  wire : list (list Z)
}.

Definition sent (es : list event) : list (list Z) :=
  omap (fun e => match e with Sent m => Some m | _ => None end) es.

(** [select] answers -1 or 0, or there is something to receive: at most the 512
    bytes of the buffer. *)
Definition arrival_ok (a : arrival) : Prop :=
  match a with
  | SelectReturns ret => ret = -1 \/ ret = 0
  | RecvError => True
  | Packet bytes => (length bytes <= 512)%nat /\ Forall (fits 8) bytes
  end.

(** A step: a statement of one of the threads or of the handler. *)
Inductive step (pid : Z) : config -> config -> Prop :=
  | step_enter now c :
      snd_t c = None ->
      step pid c (Config (send_enter (g c) now).1 (Some (send_enter (g c) now).2)
                         (rcv_t c) (handler c) (wire c))
  | step_send now size c t g' t' es :
      snd_t c = Some t -> s_pc t <> SendDone ->
      ping_send pid now size (g c) t = Some (g', t', es) ->
      step pid c (Config g' (Some t') (rcv_t c) (handler c) (wire c ++ sent es))
  | step_recv now a c g' t' es :
      r_pc (rcv_t c) <> RecvDone ->
      arrival_ok a ->
      ping_recv pid now a (g c) (rcv_t c) = Some (g', t', es) ->
      step pid c (Config g' (snd_t c) t' (handler c) (wire c))
  | step_sigint now c :
      step pid c (Config (icmp_sigint now (g c) (handler c)).1 (snd_t c) (rcv_t c)
                         (icmp_sigint now (g c) (handler c)).2 (wire c)).

Definition initial : config := Config ping_start None recv_enter Idle [].

Definition reachable (pid : Z) (c : config) : Prop := rtc (step pid) initial c.

(** What [ping_test] returns when both threads have returned, after the
    statistics; [None] for a division by zero. *)
Definition ping_test (c : config) : option Z :=
  match ping_stats_show (g c) with
  | None => None
  | Some (_, _, _, _, flag) => Some flag
  end.

(** ** The checksum *)

(** The sum of the 16-bit words, an odd last byte being a word of its own. *)
Fixpoint word_sum (b : list Z) : Z :=
  match b with
  | x :: y :: b => x + 256 * y + word_sum b
  | [x] => x
  | [] => 0
  end.

(** The ones' complement sum: the sum folded into 16 bits, 0 only for 0. *)
Definition ones_fold (s : Z) : Z := if s =? 0 then 0 else (s - 1) mod 65535 + 1.

Lemma word_sum_bound b : Forall (fits 8) b ->
  0 <= word_sum b <= 65535 * ((Z.of_nat (length b) + 1) / 2).
Proof.
  remember (length b) as n eqn:Hn. revert b Hn.
  induction n as [n IH] using lt_wf_ind; intros b -> Hb.
  destruct b as [|x [|y b]]; [by cbn|..].
  - apply Forall_cons in Hb as [Hx _]. destruct Hx. cbn [length word_sum].
    change ((Z.of_nat 1 + 1) / 2) with 1. change (2 ^ 8) with 256 in *. lia.
  - apply Forall_cons in Hb as [Hx [Hy Hb]%Forall_cons]. unfold fits in Hx, Hy.
    specialize (IH (length b) ltac:(cbn; lia) b eq_refl Hb).
    cbn [word_sum length]. Z.to_euclidean_division_equations. lia.
Qed.

Lemma sum_words_spec n : forall b sum,
  (n <= length b)%nat -> Forall (fits 8) b ->
  0 <= sum -> sum + word_sum (take n b) < 2 ^ 31 ->
  exists s m w, sum_words n sum b = (s, m, w) /\
    (if (m =? 1)%nat then i32 (s + w.[0]) else s) = sum + word_sum (take n b).
Proof.
  induction n as [n IH] using lt_wf_ind; intros b sum Hl Hb Hs Hlt.
  destruct n as [|[|n]].
  - exists sum, 0%nat, b. split; [done|]. rewrite take_0. cbn [word_sum Nat.eqb]. lia.
  - exists sum, 1%nat, b. split; [done|]. destruct b as [|x b]; [cbn in Hl; lia|].
    apply Forall_cons in Hb as [Hx _]. unfold fits in Hx. cbn in *. rewrite take_0 in *.
    apply i32_small. lia.
  - destruct b as [|x [|y b]]; [cbn in Hl; lia..|].
    apply Forall_cons in Hb as [Hx [Hy Hb]%Forall_cons]. unfold fits in Hx, Hy.
    change (take (S (S n)) (x :: y :: b)) with (x :: y :: take n b) in *.
    cbn [word_sum] in *. cbn [sum_words].
    assert (Hw : 0 <= word_sum (take n b)) by (apply word_sum_bound; by apply Forall_take).
    change (get16 (x :: y :: b) 0) with (x + 256 * y).
    rewrite i32_small by lia. cbn [drop].
    destruct (IH n ltac:(lia) b (sum + (x + 256 * y))) as (s & m & w & Hr & He);
      [cbn in Hl; lia|done|lia|lia|].
    exists s, m, w. split; [done|]. rewrite He. lia.
Qed.

Lemma fold_twice s : 0 <= s < 2 ^ 31 ->
  let s1 := i32 (Z.shiftr s 16 + Z.land s 0xffff) in
  let s2 := i32 (s1 + Z.shiftr s1 16) in
  u16 (Z.lnot s2) = 65535 - ones_fold s.
Proof.
  intros Hs. change (2 ^ 31) with 2147483648 in Hs. cbv zeta.
  change 0xffff with (Z.ones 16). rewrite Z.land_ones by lia.
  rewrite !Z.shiftr_div_pow2 by lia. change (2 ^ 16) with 65536.
  assert (H1 : 0 <= s / 65536 + s mod 65536 < 98304) by (Z.to_euclidean_division_equations; lia).
  assert (Hk : s = s / 65536 + s mod 65536 + s / 65536 * 65535)
    by (Z.to_euclidean_division_equations; lia).
  assert (Hp : s <> 0 -> 0 < s / 65536 + s mod 65536)
    by (intros; Z.to_euclidean_division_equations; lia).
  rewrite (i32_small (s / 65536 + s mod 65536)) by lia.
  set (s1 := s / 65536 + s mod 65536) in *.
  rewrite i32_small by (Z.to_euclidean_division_equations; lia).
  unfold wrap, ones_fold, Z.lnot. change (2 ^ 16) with 65536.
  destruct (Z.eqb_spec s 0) as [->|Hn]; [done|].
  specialize (Hp Hn). clearbody s1. rewrite Hk at 1.
  replace (s1 + s / 65536 * 65535 - 1) with (s1 - 1 + s / 65536 * 65535) by lia.
  rewrite Z_mod_plus_full. clear Hk. change (Z.ones 16) with 65535. Z.to_euclidean_division_equations. lia.
Qed.

Lemma cal_chksum_value b len :
  Forall (fits 8) b -> 0 <= len <= 65536 -> len <= Z.of_nat (length b) ->
  cal_chksum b len = 65535 - ones_fold (word_sum (take (Z.to_nat len) b)).
Proof.
  intros Hb Hlen Hl. unfold cal_chksum.
  pose proof (word_sum_bound (take (Z.to_nat len) b) ltac:(by apply Forall_take)) as Hw.
  rewrite length_take in Hw.
  assert (word_sum (take (Z.to_nat len) b) < 2 ^ 31).
  { change (2 ^ 31) with 2147483648. Z.to_euclidean_division_equations. lia. }
  destruct (sum_words_spec (Z.to_nat len) b 0) as (s & m & w & -> & ->); [lia|done|lia|lia|].
  rewrite Z.add_0_l. apply fold_twice. lia.
Qed.

(** ** Messages *)

Lemma ones_fold_complement w : 0 <= w -> ones_fold (w + (65535 - ones_fold w)) = 65535.
Proof.
  intros Hw. unfold ones_fold at 2. destruct (Z.eqb_spec w 0) as [->|Hn]; [done|].
  unfold ones_fold. set (q := (w - 1) / 65535).
  assert (Hq : w - 1 = 65535 * q + (w - 1) mod 65535) by (apply Z.div_mod; lia).
  assert (0 <= (w - 1) mod 65535 < 65535) by (apply Z.mod_pos_bound; lia).
  assert (0 <= q) by (apply Z.div_pos; lia).
  rewrite (proj2 (Z.eqb_neq _ 0)) by lia.
  replace (w + (65535 - ((w - 1) mod 65535 + 1)) - 1) with (65534 + q * 65535) by lia.
  by rewrite Z_mod_plus_full.
Qed.

Lemma length_put16 b i v : length (put16 b i v) = length b.
Proof. unfold put16. by rewrite !length_insert. Qed.

Lemma byte_put16 b i v j :
  0 <= i -> i + 1 < Z.of_nat (length b) -> 0 <= j ->
  (put16 b i v).[j] =
    if i =? j then v mod 256 else if i + 1 =? j then v / 256 mod 256 else b.[j].
Proof.
  intros Hi Hl Hj. unfold put16. rewrite byte_insert by (rewrite ?length_insert; lia).
  rewrite byte_insert by lia.
  destruct (Z.eqb_spec (i + 1) j), (Z.eqb_spec i j); done || lia.
Qed.

Lemma put16_fits b i v : Forall (fits 8) b -> Forall (fits 8) (put16 b i v).
Proof.
  intros Hb. unfold put16.
  apply Forall_insert; [apply Forall_insert; [done|]|]; apply wrap_fits; lia.
Qed.

Lemma fill_data_spec n : forall i b,
  0 <= i -> 8 + i + Z.of_nat n <= Z.of_nat (length b) ->
  length (fill_data n i b) = length b /\
  (Forall (fits 8) b -> Forall (fits 8) (fill_data n i b)) /\
  forall j, 0 <= j ->
    (fill_data n i b).[j] =
      if (8 + i <=? j) && (j <? 8 + i + Z.of_nat n) then u8 (j - 8) else b.[j].
Proof.
  induction n as [|n IH]; intros i b Hi Hl; cbn [fill_data].
  - split; [done|]. split; [done|]. intros j Hj.
    destruct (Z.leb_spec (8 + i) j), (Z.ltb_spec j (8 + i + Z.of_nat 0)); done || lia.
  - destruct (IH (i + 1) (b.[8 + i := u8 i])) as (Hlen & Hfit & Hat);
      [lia|rewrite length_insert; lia|].
    rewrite length_insert in Hlen. split; [done|]. split.
    + intros Hb. apply Hfit. apply Forall_insert; [done|]. by apply wrap_fits.
    + intros j Hj. rewrite Hat by done. rewrite byte_insert by lia.
      destruct (Z.leb_spec (8 + (i + 1)) j), (Z.ltb_spec j (8 + (i + 1) + Z.of_nat n)),
        (Z.leb_spec (8 + i) j), (Z.ltb_spec j (8 + i + Z.of_nat (S n))),
        (Z.eqb_spec (8 + i) j); cbn [andb]; try done || lia; f_equal; lia.
Qed.

Lemma word_sum_put16 b c n :
  (4 <= length b)%nat -> fits 16 c -> (4 <= n)%nat -> get16 b 2 = 0 ->
  word_sum (take n (put16 b 2 c)) = word_sum (take n b) + c.
Proof.
  intros Hl [Hc1 Hc2] Hn Hz. destruct b as [|x0 [|x1 [|x2 [|x3 b]]]]; cbn in Hl; [lia..|].
  destruct n as [|[|[|[|n]]]]; [lia..|].
  change (x2 + 256 * x3 = 0) in Hz. change (2 ^ 16) with 65536 in Hc2.
  change (take _ (put16 _ 2 c))
    with (x0 :: x1 :: c mod 256 :: c / 256 mod 256 :: take n b).
  cbn [word_sum take]. Z.to_euclidean_division_equations. lia.
Qed.

Section Pack.
Context (pid : Z) (b : list Z) (seq : Z).
Context (Hl : length b = 128%nat) (Hb : Forall (fits 8) b) (Hseq : fits 16 seq).

(** The message before its checksum is stored. *)
Local Abbreviation unsummed :=
  (fill_data 64 0 (put16 (put16 (put16 (b.[0 := ICMP_ECHO].[1 := 0]) 2 0) 6 (u16 seq))
     4 (Z.land pid 0xffff))).

Lemma length_head l : length l = length b ->
  length (put16 (put16 (put16 (l.[0 := ICMP_ECHO].[1 := 0]) 2 0) 6 (u16 seq)) 4
    (Z.land pid 0xffff)) = 128%nat.
Proof. intros Hl'. by rewrite !length_put16, !length_insert, Hl'. Qed.

Lemma unsummed_spec :
  length unsummed = 128%nat /\ Forall (fits 8) unsummed /\
  forall j, 0 <= j -> unsummed.[j] =
    if (8 <=? j) && (j <? 72) then j - 8
    else if j =? 4 then Z.land pid 0xffff mod 256
    else if j =? 5 then Z.land pid 0xffff / 256 mod 256
    else if j =? 6 then seq mod 256
    else if j =? 7 then seq / 256 mod 256
    else if j =? 2 then 0 else if j =? 3 then 0
    else if j =? 1 then 0 else if j =? 0 then 8 else b.[j].
Proof.
  destruct (fill_data_spec 64 0
    (put16 (put16 (put16 (b.[0 := ICMP_ECHO].[1 := 0]) 2 0) 6 (u16 seq)) 4
       (Z.land pid 0xffff))) as (Hlen & Hfit & Hat);
    [lia|rewrite length_head by done; lia|].
  rewrite length_head in Hlen by done. split; [done|]. split.
  - apply Hfit. do 3 apply put16_fits. by repeat apply Forall_insert.
  - intros j Hj. rewrite Hat by done.
    rewrite !byte_put16 by (rewrite ?length_put16, ?length_insert; lia).
    rewrite !byte_insert by (rewrite ?length_insert; lia).
    rewrite (wrap_id 16 seq) by done.
    change (8 + 0 + Z.of_nat 64) with 72. change (8 + 0) with 8.
    change (2 + 1) with 3. change (4 + 1) with 5. change (6 + 1) with 7.
    destruct (Z.leb_spec 8 j), (Z.ltb_spec j 72); cbn [andb];
      [rewrite wrap_id; [done|unfold fits; change (2 ^ 8) with 256; lia]|..];
      repeat match goal with |- context [?x =? ?y] => destruct (Z.eqb_spec x y) end;
      done || lia.
Qed.

Lemma get16_eq l i v :
  l.[i] = v mod 256 -> l.[i + 1] = v / 256 mod 256 -> fits 16 v -> get16 l i = v.
Proof.
  intros H0 H1 [Hv0 Hv1]. change (2 ^ 16) with 65536 in Hv1. unfold get16. rewrite H0, H1.
  Z.to_euclidean_division_equations. lia.
Qed.

(** What [icmp_pack] leaves in its buffer. *)
Record packed (m : list Z) : Prop := Packed {
  pk_length : length m = 128%nat;
  pk_bytes : Forall (fits 8) m;
  pk_type : m.[0] = ICMP_ECHO;
  pk_code : m.[1] = 0;
  pk_id : get16 m 4 = pid mod 65536;
  pk_seq : get16 m 6 = seq;
  pk_data : forall i, 0 <= i < 64 -> m.[8 + i] = i;
  pk_rest : forall i, 72 <= i -> m.[i] = b.[i];
  pk_chksum : cal_chksum m 64 = 0
}.

Lemma icmp_pack_packed : packed (icmp_pack pid b seq 64).
Proof.
  destruct unsummed_spec as (Hlen & Hfit & Hat).
  change (icmp_pack pid b seq 64) with (put16 unsummed 2 (cal_chksum unsummed 64)).
  assert (Hid : Z.land pid 0xffff = pid mod 65536)
    by (change 0xffff with (Z.ones 16); by rewrite Z.land_ones).
  rewrite Hid in *. clear Hid.
  assert (Hpid : fits 16 (pid mod 65536)) by (apply Z.mod_pos_bound; done).
  set (u := fill_data _ _ _) in *. clearbody u.
  assert (Hm : forall j, 0 <= j -> j <> 2 -> j <> 3 -> (put16 u 2 (cal_chksum u 64)).[j] = u.[j]).
  { intros j Hj H2 H3. rewrite byte_put16 by lia.
    destruct (Z.eqb_spec 2 j), (Z.eqb_spec (2 + 1) j); done || lia. }
  assert (Hc : fits 16 (cal_chksum u 64)).
  { unfold cal_chksum. destruct (sum_words _ _ _) as [[??]?]. by apply wrap_fits. }
  constructor.
  - by rewrite length_put16.
  - by apply put16_fits.
  - rewrite Hm, Hat by lia. done.
  - rewrite Hm, Hat by lia. done.
  - apply get16_eq; [..|done]; rewrite Hm, Hat by lia; done.
  - apply get16_eq; [..|done]; rewrite Hm, Hat by lia; done.
  - intros i Hi. rewrite Hm, Hat by lia.
    destruct (Z.leb_spec 8 (8 + i)), (Z.ltb_spec (8 + i) 72); cbn [andb]; lia.
  - intros i Hi. rewrite Hm, Hat by lia.
    destruct (Z.leb_spec 8 i), (Z.ltb_spec i 72); cbn [andb]; try lia.
    repeat match goal with |- context [?x =? ?y] => destruct (Z.eqb_spec x y) end; done || lia.
  - rewrite cal_chksum_value by (try apply put16_fits; rewrite ?length_put16; done || lia).
    rewrite word_sum_put16; [|lia|done|by apply Nat.leb_le|].
    + rewrite cal_chksum_value by (done || lia).
      rewrite ones_fold_complement; [done|]. apply word_sum_bound. by apply Forall_take.
    + unfold get16. rewrite !Hat by lia. done.
Qed.

End Pack.

(** ** The reply *)

Definition normal (t : timeval) : Prop := 0 <= tv_usec t < 1000000.
Definition micros (t : timeval) : Z := tv_sec t * 1000000 + tv_usec t.

Lemma cal_time_offset_spec t1 t2 :
  normal t1 -> normal t2 ->
  normal (cal_time_offset t1 t2) /\ micros (cal_time_offset t1 t2) = micros t2 - micros t1.
Proof.
  unfold normal, micros, cal_time_offset. intros H1 H2.
  destruct (Z.ltb_spec (tv_usec t2 - tv_usec t1) 0); cbn; lia.
Qed.

(** A reply to this process. *)
Definition our_reply (pid : Z) (buf : list Z) (len : Z) : Prop :=
  let icmp := drop (Z.to_nat (Z.land (buf.[0]) 15 * 4)) buf in
  8 <= len - Z.land (buf.[0]) 15 * 4 /\ icmp.[0] = ICMP_ECHOREPLY /\
  get16 icmp 4 = pid mod 65536.

Definition reply_seq (buf : list Z) : Z :=
  get16 (drop (Z.to_nat (Z.land (buf.[0]) 15 * 4)) buf) 6.

#[global] Instance our_reply_dec pid buf len : Decision (our_reply pid buf len).
Proof. unfold our_reply. apply _. Defined.

Lemma our_reply_test pid buf len :
  our_reply pid buf len <->
  (len - Z.land (buf.[0]) 15 * 4 <? 8) = false /\
  ((drop (Z.to_nat (Z.land (buf.[0]) 15 * 4)) buf).[0] =? ICMP_ECHOREPLY) &&
  (get16 (drop (Z.to_nat (Z.land (buf.[0]) 15 * 4)) buf) 4 =? Z.land pid 0xffff) = true.
Proof.
  unfold our_reply. change 0xffff with (Z.ones 16). rewrite Z.land_ones by lia.
  change (2 ^ 16) with 65536. rewrite andb_true_iff, !Z.eqb_eq, Z.ltb_ge. tauto.
Qed.

(** The milliseconds [icmp_unpack] prints. *)
Definition round_trip (begin now : timeval) : Z :=
  let offset_time := cal_time_offset begin now in
  i32 (tv_sec offset_time * 1000 + Z.quot (tv_usec offset_time) 1000).

Lemma round_trip_spec begin now :
  normal begin -> normal now ->
  round_trip begin now = i32 ((micros now - micros begin) / 1000).
Proof.
  intros Hb Hn. destruct (cal_time_offset_spec begin now Hb Hn) as [Ho <-].
  unfold round_trip, micros, normal in *. f_equal.
  rewrite Z.quot_div_nonneg by lia. Z.to_euclidean_division_equations. lia.
Qed.

(** The tests accept the replies to this process up to number 3. *)
Lemma icmp_test_spec pid buf len : Forall (fits 8) buf ->
  match icmp_test pid buf len with
  | Answers seq => our_reply pid buf len /\ seq = reply_seq buf /\ 0 <= seq <= 3
  | Refused _ => our_reply pid buf len -> 3 < reply_seq buf
  end.
Proof.
  intros Hb. unfold icmp_test. pose proof (our_reply_test pid buf len) as Htest.
  destruct (Z.ltb_spec (len - Z.land (buf.[0]) 15 * 4) 8) as [Hlen|Hlen].
  { intros Ho. by apply Htest in Ho as [? _]. }
  destruct (_ && _) eqn:E; [|intros Ho; by apply Htest in Ho as [_ ?]].
  assert (Ho : our_reply pid buf len) by by apply Htest.
  fold (reply_seq buf).
  assert (Hs : 0 <= reply_seq buf).
  { unfold reply_seq, get16.
    set (d := drop _ buf). assert (Hd : Forall (fits 8) d) by by apply Forall_drop.
    destruct (byte_lookup d (Z.to_nat 6) Hd), (byte_lookup d (Z.to_nat (6 + 1)) Hd). lia. }
  rewrite (proj2 (Z.ltb_ge (reply_seq buf) 0)) by done. cbn [orb].
  unfold PACKET_SEND_MAX_NUM. by destruct (Z.ltb_spec 3 (reply_seq buf)).
Qed.

(** The outcomes of [icmp_unpack] with the table of three entries. *)
Lemma icmp_unpack_cases pid now table buf len :
  length table = 3%nat -> Forall (fits 8) buf ->
  match icmp_unpack pid now table buf len with
  | None => our_reply pid buf len /\ reply_seq buf = 3
  | Some (ret, table', e) =>
      (ret = 0 /\ our_reply pid buf len /\ 0 <= reply_seq buf < 3 /\
       exists p, table !! Z.to_nat (reply_seq buf) = Some p /\
         table' = <[Z.to_nat (reply_seq buf) := Status (begin_time p) 0]> table /\
         exists src ttl, e = Reply (len - Z.land (buf.[0]) 15 * 4) src (reply_seq buf) ttl
           (round_trip (begin_time p) now)) \/
      (ret = -1 /\ table' = table /\ (our_reply pid buf len -> 3 < reply_seq buf))
  end.
Proof.
  intros Ht Hb. unfold icmp_unpack. pose proof (icmp_test_spec pid buf len Hb) as Hs.
  destruct (icmp_test pid buf len) as [e|seq]; [by right|]. destruct Hs as (Ho & -> & Hr).
  destruct (table !! Z.to_nat (reply_seq buf)) as [p|] eqn:Ep.
  - left. split; [done|]. split; [done|].
    apply lookup_lt_Some in Ep as Hlt. split; [lia|].
    exists p. split; [done|]. split; [done|]. by eexists _, _.
  - split; [done|]. apply lookup_ge_None in Ep. lia.
Qed.

(** ** The invariant of the two threads *)

(** Message [k] on the wire is the first 64 bytes of a packed message with
    sequence number [k]. *)
Definition wire_ok (pid : Z) (wire : list (list Z)) : Prop :=
  forall k m, wire !! k = Some m ->
  exists b p, m = take 64 p /\ packed pid b (Z.of_nat k) p.

(** The sender's message has not been counted, or it has. *)
Definition uncounted (t : sender) : Z := match s_pc t with CountSent _ => 1 | _ => 0 end.
Definition sending (t : sender) : bool :=
  match s_pc t with StopSend | GiveUp | SendDone => false | _ => true end.
Definition receiving (t : receiver) : bool :=
  match r_pc t with StopRecv | EndRecv | IntervalRecv | RecvDone => false | _ => true end.

Record ping_ok (pid : Z) (c : config) : Prop := PingOk {
  ok_table : length (ping_packet (g c)) = 3%nat;
  ok_wire : wire_ok pid (wire c);
  ok_recv_count : 0 <= recv_count (g c) <= 3;
  ok_receiving : receiving (rcv_t c) = true -> recv_count (g c) < 3;
  ok_recv_buf : length (recv_buf (rcv_t c)) = 512%nat /\ Forall (fits 8) (recv_buf (rcv_t c));
  ok_r_i : 0 <= r_i (rcv_t c);
  ok_reply :
    match r_pc (rcv_t c) with
    | Answered len seq => our_reply pid (recv_buf (rcv_t c)) len /\ seq = reply_seq (recv_buf (rcv_t c)) /\ 0 <= seq <= 3
    | Timed _ seq => 0 <= seq < 3
    | _ => True
    end;
  ok_sender :
    match snd_t c with
    | None => wire c = [] /\ send_count (g c) = 0
    | Some t =>
        length (send_buf t) = 128%nat /\ Forall (fits 8) (send_buf t) /\
        0 <= s_i t <= send_count (g c) /\ send_count (g c) <= 3 /\ s_pc t <> GiveUp /\
        send_count (g c) + uncounted t = Z.of_nat (length (wire c)) /\
        (sending t = true -> send_count (g c) < 3)
    end
}.

Lemma initial_ok pid : ping_ok pid initial.
Proof.
  constructor; try done. split; [apply length_replicate|]. by apply Forall_replicate.
Qed.

Lemma wire_ok_snoc pid w b p :
  wire_ok pid w -> packed pid b (Z.of_nat (length w)) p -> wire_ok pid (w ++ [take 64 p]).
Proof.
  intros Hw Hp k m [Hk|[Hk Hm]]%lookup_app_Some; [by apply Hw|].
  apply list_lookup_singleton_Some in Hm as [Hk' <-].
  replace k with (length w) by lia. by exists b, p.
Qed.

(** A statement of the sender. *)
Lemma ping_send_ok pid now size c t :
  ping_ok pid c -> snd_t c = Some t -> s_pc t <> SendDone ->
  exists g' t' es, ping_send pid now size (g c) t = Some (g', t', es) /\
    ping_ok pid (Config g' (Some t') (rcv_t c) (handler c) (wire c ++ sent es)).
Proof.
  intros [Ht Hw Hr Hrg Hrb Hri Hrp Hsd] Et Hd. rewrite Et in Hsd.
  destruct Hsd as (Hl & Hb & Hi & Hmax & Hgu & Hsc & Hlt).
  destruct (g c) as [table ar als sc rc pf st en ti] eqn:Eg. destruct t as [b i pc].
  cbn [ping_packet send_count recv_count send_buf s_i s_pc] in *.
  unfold ping_send, uncounted, sending in *. cbn [s_pc send_buf s_i alive_send ping_packet send_count] in *.
  assert (Hin : sc < 3 -> exists q, table !! Z.to_nat sc = Some q).
  { intros H. apply lookup_lt_is_Some_2. lia. }
  destruct pc as [| | | |sz| | |]; try done.
  - eexists _, _, _. split; [reflexivity|]. cbn [sent omap list_omap]. rewrite app_nil_r.
    destruct (als =? 0); constructor; try done; cbn; by split_and!.
  - destruct (Hin (Hlt eq_refl)) as [q ->]. eexists _, _, _. split; [reflexivity|].
    cbn [sent omap list_omap]. rewrite app_nil_r. constructor; cbn; rewrite ?length_insert; first [done | by split_and!].
  - destruct (Hin (Hlt eq_refl)) as [q ->]. eexists _, _, _. split; [reflexivity|].
    cbn [sent omap list_omap]. rewrite app_nil_r. constructor; cbn; rewrite ?length_insert; first [done | by split_and!].
  - assert (Hpk : packed pid b (Z.of_nat (length (wire c))) (icmp_pack pid b sc 64)).
    { replace (Z.of_nat (length (wire c))) with sc by lia. apply icmp_pack_packed; [done|done|].
      unfold fits. change (2 ^ 16) with 65536. specialize (Hlt eq_refl). lia. }
    pose proof (wire_ok_snoc _ _ _ _ Hw Hpk) as Hw'. destruct Hpk as [Hml Hmb _ _ _ _ _ _ _].
    eexists _, _, _. split; [reflexivity|]. constructor; try done; cbn -[icmp_pack].
    rewrite length_app. cbn [length]. split_and!; done || lia.
  - specialize (Hlt eq_refl). unfold PACKET_SEND_MAX_NUM. cbn [send_count with_send_count].
    destruct (Z.leb_spec 3 (sc + 1)); [|destruct (Z.ltb_spec sz 0); [destruct (Z.leb_spec 3 i); [lia|]|]];
      eexists _, _, _; (split; [reflexivity|]); cbn [sent omap list_omap]; rewrite app_nil_r;
      constructor; try done; cbn; split_and!; done || lia.
  - eexists _, _, _. split; [reflexivity|]. cbn [sent omap list_omap]. rewrite app_nil_r.
    constructor; try done; cbn; by split_and!.
Qed.

Lemma received_buf bytes (buf : list Z) :
  (length bytes <= 512)%nat -> Forall (fits 8) bytes ->
  length buf = 512%nat -> Forall (fits 8) buf ->
  length (bytes ++ drop (length bytes) buf) = 512%nat /\
  Forall (fits 8) (bytes ++ drop (length bytes) buf).
Proof.
  intros Hl Hb Hl' Hb'. split; [rewrite length_app, length_drop; lia|].
  apply Forall_app. split; [done|]. by apply Forall_drop.
Qed.

(** A statement of the receiver. *)
Lemma ping_recv_ok pid now a c :
  ping_ok pid c -> r_pc (rcv_t c) <> RecvDone -> arrival_ok a ->
  match ping_recv pid now a (g c) (rcv_t c) with
  | Some (g', t', es) => ping_ok pid (Config g' (snd_t c) t' (handler c) (wire c))
  | None => exists len, r_pc (rcv_t c) = Answered len 3 /\ our_reply pid (recv_buf (rcv_t c)) len /\
      reply_seq (recv_buf (rcv_t c)) = 3
  end.
Proof.
  intros [Ht Hw Hr Hrg [Hrb1 Hrb2] Hri Hrp Hsd] Hd Ha.
  destruct (g c) as [table ar als sc rc pf st en ti] eqn:Eg. destruct (rcv_t c) as [b i pc].
  cbn [ping_packet send_count recv_count recv_buf r_i r_pc] in *.
  unfold ping_recv, receiving in *. cbn [r_pc recv_buf r_i alive_recv ping_packet recv_count] in *.
  destruct pc as [| | |len seq|len seq| | | | | |]; try done; try (constructor; by try done).
  - destruct (ar =? 0); by constructor.
  - specialize (Hrg eq_refl). destruct a as [ret| |bytes]; [by constructor..|].
    destruct Ha as [Hbl Hbb]. destruct (received_buf bytes b Hbl Hbb Hrb1 Hrb2) as [Hl2 Hb2].
    pose proof (icmp_test_spec pid _ (Z.of_nat (length bytes)) Hb2) as Hcase.
    destruct (icmp_test _ _ _) as [e|seq]; [|by constructor].
    destruct (3 <=? i); constructor; try done; cbn; lia.
  - destruct Hrp as (Ho & -> & Hseq). destruct (table !! _) as [q|] eqn:Eq.
    + apply lookup_lt_Some in Eq. constructor; cbn; rewrite ?length_insert; first [done | lia].
    + apply lookup_ge_None in Eq. exists len. replace (reply_seq b) with 3 in * by lia. done.
  - destruct (table !! _) as [q|] eqn:Eq; [by constructor|]. apply lookup_ge_None in Eq. lia.
  - specialize (Hrg eq_refl). unfold PACKET_SEND_MAX_NUM. cbn [recv_count with_recv_count].
    destruct (Z.leb_spec 3 (rc + 1)); constructor; try done; cbn; lia.
Qed.

Lemma step_ok pid c c' : ping_ok pid c -> step pid c c' -> ping_ok pid c'.
Proof.
  intros Hok Hstep. destruct Hstep as [now c Hn|now size c t g' t' es Ht Hd Hs
    |now a c g' t' es Hd Ha Hr|now c].
  - destruct Hok as [Ht Hw Hr Hrg Hrb Hri Hrp Hsd]. rewrite Hn in Hsd. destruct Hsd as [Hnil Hsd].
    rewrite Hnil in *. constructor; cbn; try done.
    split_and!; try done; try lia. by apply (bool_decide_unpack _).
  - destruct (ping_send_ok pid now size c t Hok Ht Hd) as (g2 & t2 & es2 & Hs' & Hok').
    by simplify_eq.
  - pose proof (ping_recv_ok pid now a c Hok Hd Ha) as H. by rewrite Hr in H.
  - destruct Hok as [Ht Hw Hr Hrg Hrb Hri Hrp Hsd]. by destruct (handler c).
Qed.

Lemma reachable_ok pid c : reachable pid c -> ping_ok pid c.
Proof.
  intros Hr. pose proof (initial_ok pid) as H0. unfold reachable in Hr. revert H0.
  induction Hr as [|c0 c1 c2 Hs _ IH]; [done|]. intros H0. by apply IH, (step_ok pid c0).
Qed.

(** ** Foreign packets *)

(** A received packet that is not a reply to this process, with an IP header
    of 20 bytes. *)
Definition foreign (pid : Z) (bytes : list Z) : Prop :=
  (20 <= length bytes <= 512)%nat /\ Forall (fits 8) bytes /\ Z.land (bytes.[0]) 15 = 5 /\
  forall rest, ~ our_reply pid (bytes ++ rest) (Z.of_nat (length bytes)).

(** The receiver's statements up to its next test of [alive_recv], or its end,
    while nobody else runs: at most eight. *)
Fixpoint recv_turn (n : nat) (pid : Z) (now : timeval) (p : list Z) (s : shared) (t : receiver)
  : option (shared * receiver) :=
  match n with
  | O => None
  | S n =>
      match ping_recv pid now (Packet p) s t with
      | None => None
      | Some (s, t, _) =>
          match r_pc t with TestRecv | RecvDone => Some (s, t) | _ => recv_turn n pid now p s t end
      end
  end.

(** The receiver's turns, in sequence, on packets. *)
Fixpoint receive (pid : Z) (now : timeval) (ps : list (list Z)) (s : shared) (t : receiver)
  : option (shared * receiver) :=
  match ps with
  | [] => Some (s, t)
  | p :: ps =>
      match recv_turn 8 pid now p s t with
      | Some (s, t) => receive pid now ps s t
      | None => None
      end
  end.

Lemma recv_turn_S n pid now p s t : recv_turn (S n) pid now p s t =
  match ping_recv pid now (Packet p) s t with
  | None => None
  | Some (s, t, _) => match r_pc t with TestRecv | RecvDone => Some (s, t) | _ => recv_turn n pid now p s t end
  end.
Proof. done. Qed.

Ltac statement := rewrite recv_turn_S; unfold ping_recv at 1; cbn [r_pc recv_buf r_i alive_recv recv_count
  with_recv_count with_ping_flag with_alive_recv with_end_time].

Lemma foreign_turn pid now p s t :
  foreign pid p -> r_pc t = TestRecv -> alive_recv s <> 0 ->
  length (recv_buf t) = 512%nat -> Forall (fits 8) (recv_buf t) ->
  exists s' t', recv_turn 8 pid now p s t = Some (s', t') /\
    ping_packet s' = ping_packet s /\ send_count s' = send_count s /\
    length (recv_buf t') = 512%nat /\ Forall (fits 8) (recv_buf t') /\
    r_i t' = r_i t + 1 /\
    recv_count s' = (if 3 <=? r_i t then recv_count s + 1 else recv_count s) /\
    (if (3 <=? r_i t) && (3 <=? recv_count s + 1) then alive_recv s' = 0
     else r_pc t' = TestRecv /\ alive_recv s' = alive_recv s).
Proof.
  intros (Hl & Hb & Hh & Hf) Hpc Ha Hl1 Hb1. specialize (Hf (drop (length p) (recv_buf t))).
  destruct (received_buf p (recv_buf t) ltac:(lia) Hb Hl1 Hb1) as [Hl2 Hb2].
  pose proof (icmp_test_spec pid _ (Z.of_nat (length p)) Hb2) as H.
  destruct t as [b i pc]. cbn [r_pc recv_buf r_i] in *. subst pc. apply Z.eqb_neq in Ha.
  assert (He : exists e, icmp_test pid (p ++ drop (length p) b) (Z.of_nat (length p)) = Refused e).
  { destruct (icmp_test _ _ _) as [e|seq]; [by exists e|by destruct H]. }
  destruct He as [e He]. statement. rewrite Ha. cbn [r_pc]. statement. rewrite He.
  destruct (Z.leb_spec 3 i); cbn [r_pc andb]; [|eexists _, _; split; [done|]; by split_and!].
  statement. statement. unfold PACKET_SEND_MAX_NUM.
  destruct (Z.leb_spec 3 (recv_count s + 1)); cbn [r_pc]; [|eexists _, _; split; [done|]; by split_and!].
  statement. statement. statement. eexists _, _. split; [done|]. by split_and!.
Qed.

(** After [n] foreign packets with [i] before them, those past the third count. *)
Lemma foreign_run pid now ps : forall s t,
  Forall (foreign pid) ps -> (ps = [] \/ r_pc t = TestRecv) -> alive_recv s <> 0 ->
  length (recv_buf t) = 512%nat -> Forall (fits 8) (recv_buf t) -> 0 <= r_i t ->
  recv_count s < 3 ->
  let counted := Z.max 0 (Z.of_nat (length ps) - Z.max 0 (3 - r_i t)) in
  recv_count s + counted <= 3 ->
  exists s' t', receive pid now ps s t = Some (s', t') /\
    ping_packet s' = ping_packet s /\ send_count s' = send_count s /\
    recv_count s' = recv_count s + counted /\ (recv_count s' = 3 -> alive_recv s' = 0).
Proof.
  induction ps as [|p ps IH]; intros s t Hf Hpc Ha Hl Hb Hi Hr counted Hc.
  { unfold counted. cbn [length]. exists s, t. repeat (split; [done || lia|]). lia. }
  destruct Hpc as [|Hpc]; [done|].
  apply Forall_cons in Hf as [Hp Hf]. unfold counted in *. clear counted. cbn [length] in *.
  destruct (foreign_turn pid now p s t Hp Hpc Ha Hl Hb)
    as (s1 & t1 & Hrun & Hpk & Hsc & Hl1 & Hb1 & Hi1 & Hc1 & Ha1).
  cbn [receive]. rewrite Hrun. clear Hrun.
  destruct (Z.leb_spec 3 (r_i t)) as [H3|H3]; cbn [andb] in *;
    [destruct (Z.leb_spec 3 (recv_count s + 1)) as [H4|H4]|].
  - assert (ps = []) as -> by (destruct ps; [done|cbn in Hc; lia]). exists s1, t1.
    cbn [length] in *. repeat (split; [done || lia|]). done.
  - destruct Ha1 as [Hpc1 Ha1].
    destruct (IH s1 t1) as (s' & t' & Hrun & Hpk' & Hsc' & Hc' & Ha'); try done; try congruence;
      try lia; [by right|]. exists s', t'. rewrite Hpk', Hsc'. repeat (split; [done || lia|]). done.
  - destruct Ha1 as [Hpc1 Ha1].
    destruct (IH s1 t1) as (s' & t' & Hrun & Hpk' & Hsc' & Hc' & Ha'); try done; try congruence;
      try lia; [by right|]. exists s', t'. rewrite Hpk', Hsc'. repeat (split; [done || lia|]). done.
Qed.

(** ** Theorems *)

(** [icmp_pack] writes an echo request with the given sequence number, the
    process's identifier and the data 0, 1, ..., 63 (the last eight bytes fall
    after the 64 that are sent), whose 64 bytes have checksum 0, as a receiver
    checks; the checksum of up to 64 KiB is the complement of the ones'
    complement sum of the 16-bit words. *)
Theorem icmp_checksum pid b seq l len :
  (length b = 128%nat -> Forall (fits 8) b -> fits 16 seq ->
     packed pid b seq (icmp_pack pid b seq 64)) /\
  (Forall (fits 8) l -> 0 <= len <= 65536 -> len <= Z.of_nat (length l) ->
     cal_chksum l len = 65535 - ones_fold (word_sum (take (Z.to_nat len) l))).
Proof.
  split; intros; [by apply icmp_pack_packed|by apply cal_chksum_value].
Qed.

Lemma icmp_checksum_witness :
  packed 4660 (replicate 128 0) 2 (icmp_pack 4660 (replicate 128 0) 2 64) /\
  cal_chksum [69; 0; 1] 3 = 65535 - ones_fold (word_sum [69; 0; 1]).
Proof.
  pose proof (icmp_checksum 4660 (replicate 128 0) 2 [69; 0; 1] 3) as [H1 H2]. split.
  - apply H1; [done|by apply (bool_decide_unpack _)|by apply (bool_decide_unpack _)].
  - apply H2; [by apply (bool_decide_unpack _)|lia|cbn; lia].
Defined.

(** [icmp_unpack] accepts exactly the replies to this process numbered 0 to
    2: it marks that packet answered, touches no other, and prints the time
    since it was sent in milliseconds. Everything else is refused with the
    table unchanged, except a reply numbered 3, which passes the range check
    and is looked up past the end of the table. *)
Theorem icmp_unpack_outcomes pid now table buf len :
  length table = 3%nat -> Forall (fits 8) buf ->
  match icmp_unpack pid now table buf len with
  | None => our_reply pid buf len /\ reply_seq buf = 3
  | Some (ret, table', e) =>
      (ret = 0 /\ our_reply pid buf len /\ 0 <= reply_seq buf < 3 /\
       exists p src ttl rtt, table !! Z.to_nat (reply_seq buf) = Some p /\
         table' = <[Z.to_nat (reply_seq buf) := Status (begin_time p) 0]> table /\
         e = Reply (len - Z.land (buf.[0]) 15 * 4) src (reply_seq buf) ttl rtt /\
         (normal (begin_time p) -> normal now ->
            rtt = i32 ((micros now - micros (begin_time p)) / 1000))) \/
      (ret = -1 /\ table' = table /\ (our_reply pid buf len -> 3 < reply_seq buf))
  end.
Proof.
  intros Ht Hb. pose proof (icmp_unpack_cases pid now table buf len Ht Hb) as H.
  destruct (icmp_unpack _ _ _ _ _) as [[[ret table'] e]|]; [|done].
  destruct H as [(-> & Ho & Hs & p & Hp & -> & src & ttl & ->)|H]; [left|by right].
  split; [done|]. split; [done|]. split; [done|]. eexists p, _, _, _. split; [done|].
  split; [done|]. split; [done|]. apply round_trip_spec.
Qed.

(** A reply numbered [n] from 127.0.0.1, for process 7. *)
Definition reply_bytes (n : Z) : list Z :=
  [69; 0; 0; 84; 0; 0; 0; 0; 64; 1; 0; 0; 127; 0; 0; 1; 127; 0; 0; 1] ++
  [0; 0; 0; 0; 7; 0; n; 0] ++ replicate 56 0.

Lemma icmp_unpack_outcomes_witness :
  icmp_unpack 7 (TimeVal 10 5000) (ping_packet ping_start) (reply_bytes 3) 84 = None /\
  our_reply 7 (reply_bytes 3) 84 /\ reply_seq (reply_bytes 3) = 3.
Proof.
  split; [reflexivity|].
  apply (icmp_unpack_outcomes 7 (TimeVal 10 5000) (ping_packet ping_start) (reply_bytes 3) 84);
    [done|by apply (bool_decide_unpack _)].
Defined.

(** C22: However the statements of the two threads and of the interrupt's handler
    interleave, the messages on the wire are those numbered 0, 1, ... in order, at
    most three; both counters stay within 0 and 3, the sender's never more than one
    behind the wire; every statement of the sender is defined, its table index in
    range, and the one that gives up after four failures is never reached; the
    receiver goes past the table's end exactly when it marks a reply numbered 3
    answered. *)
Theorem ping_invariant pid c :
  reachable pid c ->
  ping_ok pid c /\
  (forall now size t, snd_t c = Some t -> s_pc t <> GiveUp /\ is_Some (ping_send pid now size (g c) t)) /\
  (forall now a, arrival_ok a ->
     ping_recv pid now a (g c) (rcv_t c) = None <->
     exists len, r_pc (rcv_t c) = Answered len 3 /\ our_reply pid (recv_buf (rcv_t c)) len /\
       reply_seq (recv_buf (rcv_t c)) = 3).
Proof.
  intros Hr. apply reachable_ok in Hr as Hok. split; [done|]. split.
  - intros now size t Ht. pose proof (ok_sender _ _ Hok) as Hsd. rewrite Ht in Hsd. split; [apply Hsd|].
    destruct (decide (s_pc t = SendDone)) as [E|Hd]; [unfold ping_send; rewrite E; by eexists|].
    destruct (ping_send_ok pid now size c t Hok Ht Hd) as (g' & t' & es & -> & _). by eexists.
  - intros now a Ha. split.
    + intros Hn. pose proof (ping_recv_ok pid now a c Hok) as H. rewrite Hn in H. apply H; [|done].
      intros E. unfold ping_recv in Hn. by rewrite E in Hn.
    + intros (len & E & _). unfold ping_recv. rewrite E.
      destruct (ping_packet (g c) !! Z.to_nat 3) eqn:El; [|done].
      apply lookup_lt_Some in El. rewrite (ok_table _ _ Hok) in El. cbn in El. lia.
Qed.

(** An executable run: [true] is a statement of the sender, [false] one of the
    receiver, to which the reply numbered [k] arrives. *)
Fixpoint run (pid k : Z) (reply : Z -> list Z) (who : list bool) (c : config) : option config :=
  match who with
  | [] => Some c
  | true :: who =>
      match snd_t c with
      | None => run pid k reply who (Config (send_enter (g c) zero_time).1 (Some (send_enter (g c) zero_time).2)
                                     (rcv_t c) (handler c) (wire c))
      | Some t =>
          if decide (s_pc t = SendDone) then None
          else
            match ping_send pid zero_time 64 (g c) t with
            | Some (g', t', es) => run pid k reply who (Config g' (Some t') (rcv_t c) (handler c) (wire c ++ sent es))
            | None => None
            end
      end
  | false :: who =>
      if decide (r_pc (rcv_t c) = RecvDone) then None
      else
        match ping_recv pid zero_time (Packet (reply k)) (g c) (rcv_t c) with
        | Some (g', t', _) => run pid k reply who (Config g' (snd_t c) t' (handler c) (wire c))
        | None => None
        end
  end.

Lemma run_steps pid k reply who : arrival_ok (Packet (reply k)) -> forall c c',
  run pid k reply who c = Some c' -> rtc (step pid) c c'.
Proof.
  intros Ha. induction who as [|[] who IH]; intros c c' Hr; cbn [run] in Hr; [injection Hr as <-; apply rtc_refl|..].
  - destruct (snd_t c) as [t|] eqn:Et.
    + case_decide; [done|]. destruct (ping_send _ _ _ _ _) as [[[g' t'] es]|] eqn:E; [|done].
      eapply rtc_l; [by eapply step_send|auto].
    + eapply rtc_l; [by apply (step_enter pid zero_time)|auto].
  - case_decide; [done|]. destruct (ping_recv _ _ _ _ _) as [[[g' t'] es]|] eqn:E; [|done].
    eapply rtc_l; [by eapply step_recv|auto].
Qed.

(** The first message is on the wire, its reply comes before it is counted, and
    is counted first. *)
Definition reply_first : list bool := [true; true; true; true; true; false; false; false; false; false].

Definition overtaken : config := default initial (run 7 0 reply_bytes reply_first initial).

Lemma overtaken_reachable : reachable 7 overtaken.
Proof.
  apply (run_steps 7 0 reply_bytes reply_first).
  - split; [cbn; lia|]. by apply (bool_decide_unpack _).
  - by vm_compute.
Qed.

Lemma ping_invariant_witness :
  ping_ok 7 overtaken /\ recv_count (g overtaken) = 1 /\ send_count (g overtaken) = 0 /\ length (wire overtaken) = 1%nat.
Proof.
  split; [exact (proj1 (ping_invariant 7 overtaken overtaken_reachable))|]. by vm_compute.
Defined.

(** [ping_test] succeeds exactly when as many packets were counted as
    received as were sent, and divides by zero exactly when none was sent,
    which an interrupt before the first test of the sender brings about. *)
Theorem ping_result pid :
  (forall c, reachable pid c -> (forall t, snd_t c = Some t -> s_pc t = SendDone) ->
     (ping_test c = None <-> wire c = []) /\
     (ping_test c = Some 0 <->
        wire c <> [] /\ recv_count (g c) = Z.of_nat (length (wire c)))) /\
  exists c t, reachable pid c /\ snd_t c = Some t /\ s_pc t = SendDone /\
    r_pc (rcv_t c) = RecvDone /\ ping_test c = None.
Proof.
  split.
  - intros c Hr Hdone. destruct (reachable_ok pid c Hr) as [Ht Hw Hrc Hrg Hrb Hri Hrp Hsd].
    assert (Hs : send_count (g c) = Z.of_nat (length (wire c)) /\ send_count (g c) <= 3).
    { destruct (snd_t c) as [t|].
      - destruct Hsd as (_ & _ & _ & ? & _ & Hsc & _). unfold uncounted in Hsc. rewrite (Hdone t eq_refl) in Hsc. lia.
      - destruct Hsd as [-> ->]. done. }
    destruct Hs as [Hs Hlen]. rewrite Hs in Hlen. unfold ping_test, ping_stats_show. rewrite Hs.
    destruct (wire c) as [|m w] eqn:Ew; [cbn; split; split; done || naive_solver|].
    cbn [length] in *. set (n := length w) in *. clearbody n.
    assert (Hn : (n = 0 \/ n = 1 \/ n = 2)%nat) by lia.
    assert (Hc : recv_count (g c) = 0 \/ recv_count (g c) = 1 \/ recv_count (g c) = 2 \/
      recv_count (g c) = 3) by lia.
    destruct Hn as [-> | [-> | ->]], Hc as [-> | [-> | [-> | ->]]]; cbn; naive_solver.
  - set (g1 := with_alive_send (with_alive_recv ping_start 0) 0).
    exists (Config g1 (Some (Sender (replicate 128 0) 0 SendDone)) (Receiver (replicate 512 0) 0 RecvDone) EndSig []),
      (Sender (replicate 128 0) 0 SendDone).
    split; [|done].
    eapply rtc_l; [apply (step_enter pid zero_time); done|].
    eapply rtc_l; [apply (step_sigint pid zero_time)|].
    eapply rtc_l; [apply (step_sigint pid zero_time)|].
    eapply rtc_l; [eapply (step_send pid zero_time 0); reflexivity || done|].
    eapply rtc_l; [eapply (step_recv pid zero_time RecvError); reflexivity || done|].
    apply rtc_refl.
Qed.

(** Three packets that are not replies to this process are discarded, but
    each one after them counts as a received reply: six of them end the
    reception with no packet answered, and after three sent messages the test
    reports no loss and success. *)
Theorem foreign_packets_counted pid now ps s :
  Forall (foreign pid) ps -> length ps = 6%nat ->
  alive_recv s <> 0 -> recv_count s = 0 ->
  exists s' t', receive pid now ps s recv_enter = Some (s', t') /\
    ping_packet s' = ping_packet s /\ recv_count s' = 3 /\ alive_recv s' = 0 /\
    (send_count s = 3 -> exists ms, ping_stats_show s' = Some (3, 3, 0, ms, 0)).
Proof.
  intros Hf Hl Ha Hr.
  destruct (foreign_run pid now ps s recv_enter) as (s' & t' & Hrun & Hpk & Hsc & Hc & Ha');
    [done|by right|done|apply length_replicate|by apply Forall_replicate|done|lia| |].
  { rewrite Hl, Hr. done. }
  assert (Hc3 : recv_count s' = 3) by (rewrite Hc, Hr, Hl; done).
  exists s', t'. split; [done|]. split; [done|]. split; [done|]. split; [by apply Ha'|].
  intros Hs. unfold ping_stats_show. rewrite Hsc, Hs, Hc3. by eexists.
Qed.

(** An echo request seen on the loopback interface. *)
Definition request_bytes : list Z :=
  [69; 0; 0; 84; 0; 0; 0; 0; 64; 1; 0; 0; 127; 0; 0; 1; 127; 0; 0; 1] ++
  [8; 0; 0; 0; 7; 0; 0; 0].

Lemma request_foreign : foreign 7 request_bytes.
Proof.
  split; [cbn; lia|]. split; [by apply (bool_decide_unpack _)|]. split; [done|].
  by intros rest (_ & H & _).
Qed.

Lemma foreign_packets_counted_witness :
  exists s' t', receive 7 zero_time (replicate 6 request_bytes)
      (with_send_count ping_start 3) recv_enter = Some (s', t') /\
    ping_packet s' = ping_packet ping_start /\ recv_count s' = 3 /\ alive_recv s' = 0 /\
    (3 = 3 -> exists ms, ping_stats_show s' = Some (3, 3, 0, ms, 0)).
Proof.
  apply (foreign_packets_counted 7 zero_time (replicate 6 request_bytes)
           (with_send_count ping_start 3)); [|done..].
  apply Forall_replicate, request_foreign.
Defined.
