(* ===== verification/Http.v ===== *)
(** * Http: the download client of [src/http-client/http-client.c]

    URL parsing, the request, the reception of the response header one byte at
    a time, the header's fields and the download loop. A string is its
    characters before the NUL; a write past the end of a buffer has no meaning
    and gives [None] or a constructor of its own. *)
From S2P Require Import Prelude.
From S2P Require Import CString.
From Stdlib Require Import Ascii.

Open Scope C.

(** ** The URL *)

(** The range of a signed type of [w] bits; [sscanf] says nothing outside it. *)
Definition in_range (w z : Z) : bool := (- 2 ^ (w - 1) <=? z) && (z <? 2 ^ (w - 1)).

Definition patterns : list chars := [lit "http://"; lit "https://"].

Definition not_char (c : string) : ascii -> bool :=
  fun a => negb (bool_decide ([a] = lit c)).

(** The size of [domain] in [main]. *)
Definition DOMAIN_SIZE : nat := 64.

(** The domain and the port. The file name is not touched (that part is
    commented out). [None]: the domain does not fit its buffer, or the port is
    no [int]. *)
Definition parse_url (url : chars) : option (chars * Z) :=
  let start :=
    fold_left (fun start p => if starts_with p url then length p else start) patterns 0%nat in
  let domain := (span (not_char "/") (drop start url)).1 in
  if (DOMAIN_SIZE <=? length domain)%nat then None
  else
    let port :=
      match strstr domain (lit ":") with
      | None => Some 80
      | Some pos =>
          match scan_int (drop 1 pos) with
          | None => Some 80
          | Some (v, _) => if in_range 32 v then Some v else None
          end
      end in
    match port with
    | None => None
    | Some port => Some ((span (not_char ":") domain).1, port)
    end.

(** ** The request *)

Definition crlf : chars := [CR; LF].

Definition request_text (url domain : chars) : chars :=
  lit "GET " ++ url ++ lit " HTTP/1.1" ++ crlf ++
  lit "Accept:text/html,application/xhtml+xml,application/xml;q=0.9,image/webp,*/*;q=0.8" ++
  crlf ++
  lit "User-Agent:Mozilla/5.0 (X11; Linux x86_64) AppleWebKit/537(KHTML, like Gecko) Chrome/47.0.2526Safari/537.36" ++
  crlf ++ lit "Host:" ++ domain ++ crlf ++ lit "Connection:close" ++ crlf ++ crlf.

(** [char header[2048]]. *)
Definition request (url domain : chars) : option chars :=
  let t := request_text url domain in
  if (2048 <=? length t)%nat then None else Some t.

(** The part of [main] before the network: the copies of the arguments, the
    URL, the default of the port. Gives the domain, the port, the file name and
    the request. *)
Definition main_arguments (url : chars) (file : option chars)
  : option (chars * Z * chars * chars) :=
  if (2048 <=? length url)%nat then None
  else
    match parse_url url with
    | None => None
    | Some (domain, port) =>
        let name := default [] file in
        if (256 <=? length name)%nat then None
        else
          match request url domain with
          | None => None
          | Some header => Some (domain, port, name, header)
          end
    end.

(** ** Reading the response header *)

Definition is_crlf (c : ascii) : bool := bool_decide (c = LF) || bool_decide (c = CR).

(** The loop that counts [flag]; [None] when it runs to [response[-1]]. *)
Definition trailing (response : chars) : option nat :=
  match span is_crlf (rev response) with
  | (_, []) => None
  | (a, _ :: _) => Some (length a)
  end.

Inductive header_result :=
  | Header (response : chars) (rest : list (option ascii))
  | HeapOverflow
  | HeapUnderrun.

(** [while ((len = read(client_socket, buf, 1)) != 0)]: the stream is the bytes
    [read] delivers, [None] for an error (-1, and then [buf[-1]] is written);
    at its end [read] answers 0. [realloc] succeeds. *)
Fixpoint read_header (mem_size length : Z) (response : chars) (stream : list (option ascii))
  : header_result :=
  match stream with
  | [] => Header response []
  | None :: _ => HeapUnderrun
  | Some c :: stream =>
      let mem_size := if mem_size <? length + 1 then mem_size * 2 else mem_size in
      let response := if bool_decide (c = NUL) then response else response ++ [c] in
      if mem_size <? Z.of_nat (List.length response) + 1 then HeapOverflow
      else
        match trailing response with
        | None => HeapUnderrun
        | Some flag =>
            if (flag =? 4)%nat then Header response stream
            else read_header mem_size (length + 1) response stream
        end
  end.

(** ** Fields *)

Record resp_header := RespHeader {
  status_code : Z;
  content_type : chars;
  content_length : Z;
  file_name : chars
}.

(** [sscanf(pos, "%*s %d", ...)] (or [%ld]) where [pos] is at the tag; [old] is
    the uninitialised field, of [w] bits. *)
Definition int_field (w : Z) (response tag : chars) (old : Z) : option Z :=
  match strstr response tag with
  | None => Some old
  | Some pos =>
      match scan_word pos with
      | None => Some old
      | Some (_, r) =>
          match scan_int r with
          | None => Some old
          | Some (v, _) => if in_range w v then Some v else None
          end
      end
  end.

(** A word stored in a buffer of [size] characters. *)
Definition store_word (size : nat) (w : chars) : option chars :=
  if (size <=? length w)%nat then None else Some w.

Definition word_field (size : nat) (response tag : chars) (old : chars) : option chars :=
  match strstr response tag with
  | None => Some old
  | Some pos =>
      match scan_word pos with
      | None => Some old
      | Some (_, r) =>
          match scan_word r with None => Some old | Some (w, _) => store_word size w end
      end
  end.

(** [strtok(pos, "="); sscanf(strtok(NULL, "="), "%s", resp.file_name)]. The
    second token may not exist: [sscanf] is then given [NULL]. *)
Definition name_field (response : chars) (old : chars) : option chars :=
  match strstr response (lit "filename=") with
  | None => Some old
  | Some pos =>
      let rest := drop 1 (span (not_char "=") pos).2 in
      let token := (span (not_char "=") (span (fun c => negb (not_char "=" c)) rest).2).1 in
      if bool_decide (token = []) then None
      else match scan_word token with None => Some old | Some (w, _) => store_word 256 w end
  end.

(** [junk] is the uninitialised structure. *)
Definition get_resp_header (junk : resp_header) (response : chars) : option resp_header :=
  match int_field 32 response (lit "HTTP/") (status_code junk) with
  | None => None
  | Some status =>
      match word_field 128 response (lit "Content-Type:") (content_type junk) with
      | None => None
      | Some ty =>
          match int_field 64 response (lit "Content-Length:") (content_length junk) with
          | None => None
          | Some len =>
              match name_field response (file_name junk) with
              | None => None
              | Some name => Some (RespHeader status ty len name)
              end
          end
      end
  end.

(** ** The download *)

(** [while ((len = read(...)) != 0 && length < resp.content_length)]: the
    file's contents and the final [length]. [None] in [reads] is an error: -1,
    and [write] refuses that size. A chunk read when the length is reached is
    dropped. *)
Fixpoint download_loop (content_length length : Z) (file : chars)
    (reads : list (option chars)) : chars * Z :=
  match reads with
  | [] => (file, length)
  | r :: reads =>
      if length <? content_length then
        match r with
        | Some chunk =>
            download_loop content_length (i32 (length + Z.of_nat (List.length chunk)))
              (file ++ chunk) reads
        | None => download_loop content_length (i32 (length - 1)) file reads
        end
      else (file, length)
  end.

(** The file and whether the success line is printed. The file is opened
    without being truncated: [old] is what it held. *)
Definition download (content_length : Z) (old : chars) (reads : list (option chars))
  : chars * bool :=
  let '(file, length) := download_loop content_length 0 [] reads in
  (file ++ drop (List.length file) old, length =? content_length).

(** ** The URL *)

(** A host name: no slash, no colon. *)
Definition host_char (c : ascii) : bool := not_char "/" c && not_char ":" c.

(** What follows the host: an explicit port or nothing, then the path. *)
Definition port_text (port : option Z) : chars :=
  match port with Some p => lit ":" ++ print_nat p | None => [] end.

Definition is_path (path : chars) : Prop :=
  match path with [] => True | c :: _ => not_char "/" c = false end.

Definition schemes : list chars := [] :: patterns.

Lemma span_exact f a r : forallb f a = true -> ends_with f r -> span f (a ++ r) = (a, r).
Proof. intros. apply span_all; done. Qed.

Lemma print_nat_no_slash p : 0 <= p -> forallb (not_char "/") (print_nat p) = true.
Proof.
  intros Hp. destruct (print_nat_spec p Hp) as (_ & Hd & _). revert Hd.
  induction (print_nat p) as [|c l IH]; [done|]. cbn. intros [Hc Hl]%andb_true_iff.
  rewrite (IH Hl), andb_true_r. unfold not_char. destruct (decide (c = "/"%char)) as [->|Hn]; [done|].
  rewrite bool_decide_eq_false_2; [done|]. intros [= ->]. done.
Qed.

(** Without a scheme the URL does not start with one. *)
Lemma no_scheme host port path p :
  forallb host_char host = true -> (forall n, port = Some n -> 0 <= n) -> is_path path ->
  p ∈ patterns -> starts_with p (host ++ port_text port ++ path) = false.
Proof.
  intros Hh Hport Hpath Hp.
  destruct (starts_with p _) eqn:E; [|done]. exfalso.
  apply starts_with_spec in E as [r Hr].
  assert (Hrest : forall a b, port_text port ++ path = lit ":" ++ a :: b -> a <> "/"%char).
  { intros a b Hab ->. destruct port as [n|]; cbn in Hab.
    - destruct (print_nat_spec n (Hport n eq_refl)) as (_ & Hd & Hne).
      destruct (print_nat n) as [|c l]; [done|]. cbn in Hab, Hd. simplify_eq.
    - subst path. done. }
  assert (Hrest' : forall a b, port_text port ++ path = a :: b -> a = ":"%char \/ a = "/"%char).
  { intros a b Hab. destruct port as [n|]; cbn in Hab; [left; congruence|]. right.
    subst path. cbn in Hpath. unfold not_char in Hpath. apply negb_false_iff in Hpath.
    apply bool_decide_eq_true in Hpath. cbn in Hpath. congruence. }
  unfold patterns in Hp. rewrite !elem_of_cons in Hp.
  set (rest := port_text port ++ path) in *. clearbody rest.
  assert (Hh' : Forall (fun c => c <> ":"%char /\ c <> "/"%char) host).
  { revert Hh. clear. induction host as [|c l IH]; [by constructor|].
    cbn. intros [Hc Hl]%andb_true_iff. constructor; [|by apply IH].
    unfold host_char, not_char in Hc. split; intros ->; done. }
  destruct Hp as [-> | [-> | []%not_elem_of_nil]]; cbn in Hr.
  all: repeat (destruct host as [|? host]; cbn in Hr;
    [ destruct (Hrest' _ _ Hr); simplify_eq; try (by eapply (Hrest "/"%char))
    | injection Hr as -> Hr; apply Forall_cons in Hh' as [[??] Hh']; try done ]).
Qed.

Lemma strstr_colon host r :
  forallb (not_char ":") host = true -> strstr (host ++ r) (lit ":") = strstr r (lit ":").
Proof.
  induction host as [|c host IH]; [done|]. cbn [forallb app]. intros [Hc Hh]%andb_true_iff.
  rewrite strstr_eq. replace (starts_with (lit ":") (c :: host ++ r)) with false; [by apply IH|].
  cbn. rewrite andb_true_r. symmetry. apply bool_decide_eq_false_2. intros <-. done.
Qed.

Lemma host_chars host : forallb host_char host = true ->
  forallb (not_char "/") host = true /\ forallb (not_char ":") host = true.
Proof.
  induction host as [|c l IH]; [done|]. cbn. unfold host_char at 1.
  intros [[Hc1 Hc2]%andb_true_iff Hl]%andb_true_iff. destruct (IH Hl). by rewrite Hc1, Hc2.
Qed.

(** A URL of the form the client accepts. *)
Record url_parts (scheme host : chars) (port : option Z) (path : chars) : Prop := UrlParts {
  up_scheme : scheme ∈ schemes;
  up_host : forallb host_char host = true;
  up_port : forall n, port = Some n -> 0 <= n < 2 ^ 31;
  up_path : is_path path
}.

Lemma url_start scheme host port path :
  url_parts scheme host port path ->
  fold_left (fun start p =>
      if starts_with p (scheme ++ host ++ port_text port ++ path) then length p else start)
    patterns 0%nat = length scheme.
Proof.
  intros [Hs Hh Hp Hpath]. unfold schemes, patterns in Hs.
  rewrite !elem_of_cons in Hs. destruct Hs as [-> | [-> | [-> | []%not_elem_of_nil]]];
    [|done..]. cbn [app].
  assert (Hport : forall n, port = Some n -> 0 <= n) by (intros; by apply Hp).
  unfold patterns. cbn [fold_left].
  rewrite (no_scheme host port path (lit "http://")); [|done..|by left].
  by rewrite (no_scheme host port path (lit "https://")); [|done..|right; by left].
Qed.

Lemma parse_url_parts scheme host port path :
  url_parts scheme host port path ->
  parse_url (scheme ++ host ++ port_text port ++ path) =
    if (DOMAIN_SIZE <=? length (host ++ port_text port))%nat then None
    else Some (host, default 80 port).
Proof.
  intros Hu. unfold parse_url. rewrite (url_start _ _ _ _ Hu). destruct Hu as [_ Hh Hp Hpath].
  rewrite drop_app_length. destruct (host_chars host Hh) as [Hh1 Hh2].
  assert (Hslash : forallb (not_char "/") (host ++ port_text port) = true).
  { rewrite forallb_app, Hh1. destruct port as [n|]; [|done]. cbn [port_text].
    rewrite forallb_app, print_nat_no_slash; [done|]. by apply Hp. }
  rewrite app_assoc, span_exact by (done || by destruct path). cbn [fst].
  destruct (_ <=? _)%nat; [done|]. rewrite strstr_colon by done.
  destruct port as [n|]; cbn [port_text default].
  - rewrite strstr_eq, starts_with_app.
    change (drop 1 (lit ":" ++ print_nat n)) with (print_nat n).
    destruct (print_nat_spec n) as (_ & Hd & _); [by apply Hp|].
    pose proof (scan_print_int n [] I) as Hscan. rewrite app_nil_r in Hscan.
    unfold print_int in Hscan. rewrite (proj2 (Z.ltb_ge n 0)) in Hscan by by apply Hp.
    rewrite Hscan. specialize (Hp n eq_refl).
    assert (in_range 32 n = true) as ->.
    { unfold in_range. change (32 - 1) with 31. lia. }
    by rewrite span_exact.
  - rewrite app_nil_r. cbn. pose proof (span_exact (not_char ":") host [] Hh2 I) as Hs.
    rewrite app_nil_r in Hs. by rewrite Hs.
Qed.

(** ** The header *)

(** A line of a header: some text, no line breaks and no NUL. *)
Definition text_char (c : ascii) : bool := negb (is_crlf c) && negb (bool_decide (c = NUL)).
Definition line_ok (l : chars) : Prop := l <> [] /\ forallb text_char l = true.

(** The lines of a header, each ended by CR LF, and the empty line. *)
Definition header_text (lines : list chars) : chars :=
  concat ((fun l => l ++ crlf) <$> lines) ++ crlf.

Lemma trailing_snoc_text s c : text_char c = true -> trailing (s ++ [c]) = Some 0%nat.
Proof.
  intros Hc. unfold trailing. rewrite rev_app_distr. cbn.
  unfold text_char in Hc. destruct (is_crlf c); [done|]. done.
Qed.

Lemma trailing_snoc_crlf s c n :
  is_crlf c = true -> trailing s = Some n -> trailing (s ++ [c]) = Some (S n).
Proof.
  intros Hc. unfold trailing. rewrite rev_app_distr. cbn. rewrite Hc.
  destruct (span is_crlf (rev s)) as [a [|b r]]; [done|]. by intros [= <-].
Qed.

(** One byte of the header, stored where there is room for it. *)
Lemma read_header_byte n resp c flag rest :
  n = Z.of_nat (length resp) -> n + 1 < 4096 -> c <> NUL ->
  trailing (resp ++ [c]) = Some flag ->
  read_header 4096 n resp (Some c :: rest) =
    if (flag =? 4)%nat then Header (resp ++ [c]) rest
    else read_header 4096 (n + 1) (resp ++ [c]) rest.
Proof.
  intros Hn Hlt Hc Ht. cbn [read_header].
  rewrite (proj2 (Z.ltb_ge 4096 (n + 1))) by lia.
  rewrite bool_decide_eq_false_2 by done. rewrite Ht, length_app. cbn [length].
  by rewrite (proj2 (Z.ltb_ge _ _)) by lia.
Qed.

Lemma text_char_spec c : text_char c = true -> c <> NUL.
Proof. intros Hc ->. done. Qed.

Lemma read_header_line l : forall resp rest,
  forallb text_char l = true -> Z.of_nat (length (resp ++ l)) < 4096 ->
  read_header 4096 (Z.of_nat (length resp)) resp (map Some l ++ rest) =
  read_header 4096 (Z.of_nat (length (resp ++ l))) (resp ++ l) rest.
Proof.
  induction l as [|c l IH]; intros resp rest Hl Hlen.
  - by rewrite app_nil_r.
  - cbn [forallb map app] in *. apply andb_true_iff in Hl as [Hc Hl].
    replace (resp ++ c :: l) with ((resp ++ [c]) ++ l) in * by by rewrite <-app_assoc.
    rewrite (read_header_byte _ _ c 0); [|done| |by apply text_char_spec|by apply trailing_snoc_text].
    + cbn [Nat.eqb]. rewrite <-(IH (resp ++ [c])) by done. f_equal. rewrite length_app. cbn. lia.
    + rewrite !length_app in Hlen. cbn in Hlen. lia.
Qed.

Lemma trailing_text r l : line_ok l -> trailing (r ++ l) = Some 0%nat.
Proof.
  intros [Hn Hl]. destruct (exists_last Hn) as (l' & c & ->).
  rewrite forallb_app in Hl. apply andb_true_iff in Hl as [_ Hc]. cbn in Hc.
  rewrite app_assoc. apply trailing_snoc_text. by destruct (text_char c).
Qed.

(** A line and its line break. *)
Lemma read_header_text l r rest :
  line_ok l -> Z.of_nat (length (r ++ l ++ crlf)) < 4096 ->
  read_header 4096 (Z.of_nat (length r)) r (map Some (l ++ crlf) ++ rest) =
  read_header 4096 (Z.of_nat (length (r ++ l ++ crlf))) (r ++ l ++ crlf) rest /\
  trailing (r ++ l ++ crlf) = Some 2%nat.
Proof.
  intros Hl Hlen. pose proof (trailing_text r l Hl) as H0.
  assert (H1 : trailing ((r ++ l) ++ [CR]) = Some 1%nat) by by apply trailing_snoc_crlf.
  assert (H2 : trailing (((r ++ l) ++ [CR]) ++ [LF]) = Some 2%nat)
    by by apply trailing_snoc_crlf.
  replace (r ++ l ++ crlf) with (((r ++ l) ++ [CR]) ++ [LF]) in * by by rewrite <-!app_assoc.
  split; [|done]. rewrite map_app, <-app_assoc.
  rewrite !length_app in Hlen. cbn [length] in Hlen.
  rewrite read_header_line; [|apply Hl|rewrite length_app; lia]. cbn [map app crlf].
  rewrite (read_header_byte _ (r ++ l) CR 1) by (done || (rewrite length_app; lia)).
  cbn [Nat.eqb].
  rewrite (read_header_byte _ ((r ++ l) ++ [CR]) LF 2)
    by (done || (rewrite ?length_app; cbn [length]; lia)). cbn [Nat.eqb].
  f_equal. rewrite !length_app. cbn [length]. lia.
Qed.

Lemma read_header_lines lines : forall r rest,
  Forall line_ok lines -> lines <> [] \/ trailing r = Some 2%nat ->
  Z.of_nat (length (r ++ header_text lines)) < 4096 ->
  read_header 4096 (Z.of_nat (length r)) r (map Some (header_text lines) ++ rest) =
  Header (r ++ header_text lines) rest.
Proof.
  induction lines as [|l lines IH]; intros r rest Hl Hr Hlen.
  - destruct Hr as [?|Hr]; [done|]. unfold header_text in *. cbn [fmap list_fmap concat app] in *.
    assert (H1 : trailing (r ++ [CR]) = Some 3%nat) by by apply trailing_snoc_crlf.
    assert (H2 : trailing ((r ++ [CR]) ++ [LF]) = Some 4%nat) by by apply trailing_snoc_crlf.
    rewrite length_app in Hlen. cbn [length crlf] in Hlen. cbn [crlf map app].
    rewrite (read_header_byte _ r CR 3) by (done || lia). cbn [Nat.eqb].
    rewrite (read_header_byte _ (r ++ [CR]) LF 4)
      by (done || (rewrite ?length_app; cbn [length]; lia)). cbn [Nat.eqb].
    by rewrite <-app_assoc.
  - apply Forall_cons in Hl as [Hl1 Hl].
    assert (Hh : header_text (l :: lines) = (l ++ crlf) ++ header_text lines).
    { unfold header_text. cbn. by rewrite <-!app_assoc. }
    rewrite Hh in *. rewrite map_app, <-app_assoc.
    rewrite app_assoc, length_app in Hlen.
    destruct (read_header_text l r (map Some (header_text lines) ++ rest) Hl1) as [-> Ht]; [lia|].
    rewrite IH; [by rewrite <-app_assoc|done|by right|by rewrite length_app].
Qed.

(** Text without an empty line runs past the end of the first allocation. *)
Lemma read_header_long l rest :
  forallb text_char l = true -> length l = 4096%nat ->
  read_header 4096 0 [] (map Some l ++ rest) = HeapOverflow.
Proof.
  intros Hl Hlen. destruct (exists_last (l := l)) as (l' & c & ->); [by destruct l|].
  rewrite length_app in Hlen. cbn in Hlen. rewrite forallb_app in Hl.
  apply andb_true_iff in Hl as [Hl Hc]. cbn in Hc. rewrite andb_true_r in Hc.
  rewrite map_app, <-app_assoc.
  rewrite (read_header_line l' []) by (done || (cbn [app]; lia)). cbn [app map read_header].
  replace (length l') with 4095%nat by lia. change (Z.of_nat 4095) with 4095.
  change (4096 <? 4095 + 1) with false. cbn iota.
  rewrite bool_decide_eq_false_2 by by apply text_char_spec.
  rewrite length_app. cbn [length]. by rewrite (proj2 (Z.ltb_lt _ _)) by lia.
Qed.

(** ** Fields *)

Definition word_char (c : ascii) : bool := negb (isspace c).

(** The tag is at its first occurrence in the response; the rest of its word
    is [v], and a blank and [r] follow. *)
Definition tagged (response tag v r : chars) : Prop :=
  exists pre, response = pre ++ tag ++ v ++ lit " " ++ r /\
    first_at pre tag (v ++ lit " " ++ r) /\ forallb word_char v = true.

(** A tag, as the code writes them. *)
Definition is_tag (tag : chars) : Prop := tag <> [] /\ forallb word_char tag = true.

Lemma tagged_scan response tag v r :
  is_tag tag -> tagged response tag v r ->
  exists pos, strstr response tag = Some pos /\ scan_word pos = Some (tag ++ v, lit " " ++ r).
Proof.
  intros [Ht Ha] (pre & -> & Hf & Hv). rewrite strstr_first by done. eexists. split; [done|].
  rewrite app_assoc. apply (scan_word_spec [] (tag ++ v)); [done|by destruct tag| |done].
  change (forallb word_char (tag ++ v) = true). by rewrite forallb_app, Ha, Hv.
Qed.

Lemma int_field_spec w response tag v z r old :
  is_tag tag -> ends_with isdigit r -> in_range w z = true ->
  tagged response tag v (print_int z ++ r) ->
  int_field w response tag old = Some z.
Proof.
  intros Ht Hr Hz Htag. destruct (tagged_scan _ _ _ _ Ht Htag) as (pos & Hp & Hs).
  unfold int_field. rewrite Hp, Hs, scan_int_space by done. by rewrite scan_print_int, Hz.
Qed.

Lemma word_field_spec size response tag v w r old :
  is_tag tag -> w <> [] -> forallb word_char w = true -> ends_with word_char r ->
  tagged response tag v (w ++ r) ->
  word_field size response tag old = store_word size w.
Proof.
  intros Ht Hn Hw Hr Htag. destruct (tagged_scan _ _ _ _ Ht Htag) as (pos & Hp & Hs).
  unfold word_field. rewrite Hp, Hs. by rewrite (scan_word_spec (lit " ") w r).
Qed.

Definition name_char (c : ascii) : bool := word_char c && not_char "=" c.

Lemma name_field_spec pre name c r old :
  name <> [] -> forallb name_char name = true -> isspace c = true ->
  first_at pre (lit "filename=") (name ++ c :: r) ->
  name_field (pre ++ lit "filename=" ++ name ++ c :: r) old = store_word 256 name.
Proof.
  intros Hn Hc Hs Hf. unfold name_field. rewrite strstr_first by done.
  change (span (not_char "=") (lit "filename=" ++ name ++ c :: r))
    with (lit "filename", lit "=" ++ name ++ c :: r). cbn [snd].
  change (drop 1 (lit "=" ++ name ++ c :: r)) with (name ++ c :: r).
  assert (H1 : forallb word_char name = true /\ forallb (not_char "=") name = true).
  { clear - Hc. induction name as [|a l IH]; [done|]. cbn in *. unfold name_char in Hc at 1.
    apply andb_true_iff in Hc as [[H1 H2]%andb_true_iff Hl]. destruct (IH Hl). by rewrite H1, H2. }
  destruct H1 as [Hw Hne].
  assert (Hsk : (span (fun c0 => negb (not_char "=" c0)) (name ++ c :: r)).2 = name ++ c :: r).
  { destruct name as [|a name]; [done|]. cbn in Hne |- *.
    apply andb_true_iff in Hne as [-> _]. done. }
  rewrite Hsk. destruct (span (not_char "=") (c :: r)) as [t u] eqn:Et.
  assert (Hspan : forall l, forallb (not_char "=") l = true ->
    (span (not_char "=") (l ++ c :: r)).1 = l ++ t).
  { clear - Et. induction l as [|a l IH]; intros Hl; [cbn [app]; by rewrite Et|].
    cbn [forallb app] in *. apply andb_true_iff in Hl as [Ha Hl]. cbn [span]. rewrite Ha.
    specialize (IH Hl). revert IH. destruct (span _ (l ++ c :: r)). cbn. by intros ->. }
  rewrite Hspan by done.
  assert (Ht : exists t', t = c :: t').
  { cbn [span] in Et. destruct (not_char "=" c) eqn:Ec.
    - destruct (span _ r). simplify_eq. by eexists.
    - unfold not_char in Ec. apply negb_false_iff, bool_decide_eq_true in Ec. by simplify_eq/=. }
  destruct Ht as [t' ->]. rewrite bool_decide_eq_false_2 by by destruct name.
  assert (Hscan : scan_word (name ++ c :: t') = Some (name, c :: t')).
  { apply (scan_word_spec []); [done|done|done|]. cbn. by rewrite Hs. }
  by rewrite Hscan.
Qed.

(** ** The download *)

(** The chunks up to the one that reaches [n] bytes. *)
Fixpoint until (n : Z) (chunks : list chars) : chars :=
  match chunks with
  | [] => []
  | c :: chunks => if 0 <? n then c ++ until (n - Z.of_nat (length c)) chunks else []
  end.

Lemma download_loop_until n chunks : forall len file,
  0 <= len -> len + Z.of_nat (length (concat chunks)) < 2 ^ 31 ->
  download_loop n len file (Some <$> chunks) =
    (file ++ until (n - len) chunks, len + Z.of_nat (length (until (n - len) chunks))).
Proof.
  induction chunks as [|c chunks IH]; intros len file Hl Hb; cbn in *.
  - by rewrite app_nil_r, Z.add_0_r.
  - rewrite length_app in Hb. destruct (Z.ltb_spec len n), (Z.ltb_spec 0 (n - len)); try lia.
    + rewrite i32_small by lia. rewrite IH by lia. rewrite <-app_assoc, length_app.
      replace (n - (len + Z.of_nat (length c))) with (n - len - Z.of_nat (length c)) by lia.
      f_equal. lia.
    + by rewrite app_nil_r, Z.add_0_r.
Qed.

Lemma until_all chunks : forall n,
  Forall (fun c => c <> []) chunks -> n = Z.of_nat (length (concat chunks)) ->
  until n chunks = concat chunks.
Proof.
  induction chunks as [|c chunks IH]; intros n Hne ->; [done|]. cbn [until concat].
  apply Forall_cons in Hne as [Hc Hne]. rewrite length_app.
  rewrite (proj2 (Z.ltb_lt 0 _)) by (destruct c; [done|cbn; lia]).
  f_equal. apply IH; [done|lia].
Qed.

(** ** Theorems *)

(** [parse_url] splits scheme, host, port and path: the host without the
    port, and the port 80 when there is none; a host and port of 64 characters
    or more overflow the caller's [domain]. *)
Theorem parse_url_spec scheme host port path :
  url_parts scheme host port path ->
  parse_url (scheme ++ host ++ port_text port ++ path) =
    if (DOMAIN_SIZE <=? length (host ++ port_text port))%nat then None
    else Some (host, default 80 port).
Proof. apply parse_url_parts. Qed.

Lemma parse_url_spec_witness :
  parse_url (lit "http://" ++ lit "example.com" ++ port_text (Some 8080) ++ lit "/a.gz") =
    Some (lit "example.com", 8080).
Proof.
  apply (parse_url_spec (lit "http://") (lit "example.com") (Some 8080) (lit "/a.gz")).
  constructor; [by right; left|done| |done]. intros n [= <-]. lia.
Defined.

(** The byte-wise reception stops exactly at the end of the header, leaving
    the body in the socket, whenever the header has fewer than 4096 bytes; the
    buffer starts as an empty string. Text of 4096 characters without a line
    break writes one byte past the allocation: the buffer is enlarged one
    character too late. *)
Theorem read_header_spec lines long rest :
  (Forall line_ok lines -> lines <> [] -> Z.of_nat (length (header_text lines)) < 4096 ->
     read_header 4096 0 [] (map Some (header_text lines) ++ rest) =
       Header (header_text lines) rest) /\
  (forallb text_char long = true -> length long = 4096%nat ->
     read_header 4096 0 [] (map Some long ++ rest) = HeapOverflow).
Proof.
  split; [|by apply read_header_long]. intros Hl Hn Hlen.
  by apply (read_header_lines lines []); [|left|].
Qed.

Definition sample_lines : list chars :=
  [lit "HTTP/1.1 200 OK"; lit "Content-Type: application/gzip"; lit "Content-Length: 1168";
   lit "Content-Disposition: attachment; filename=node.tar.gz"].

Lemma sample_lines_ok : Forall line_ok sample_lines.
Proof. by repeat constructor. Qed.

Lemma read_header_spec_witness :
  read_header 4096 0 [] (map Some (header_text sample_lines) ++ [Some LF; None]) =
    Header (header_text sample_lines) [Some LF; None] /\
  read_header 4096 0 [] (map Some (replicate 4096 "a"%char) ++ []) = HeapOverflow.
Proof.
  split.
  - apply (proj1 (read_header_spec sample_lines [] [Some LF; None])).
    + apply sample_lines_ok.
    + done.
    + done.
  - apply (proj2 (read_header_spec [] (replicate 4096 "a"%char) [])); [done|].
    apply length_replicate.
Defined.

(** A response that carries a status, a type, a length and a file name, each at
    the first occurrence of its tag. *)
Record carries (response : chars) (code : Z) (ty : chars) (len : Z) (name : chars) : Prop :=
  Carries {
    c_code : exists v r, tagged response (lit "HTTP/") v (print_int code ++ r) /\
      ends_with isdigit r /\ in_range 32 code = true;
    c_type : exists v r, tagged response (lit "Content-Type:") v (ty ++ r) /\
      ends_with word_char r /\ ty <> [] /\ forallb word_char ty = true;
    c_length : exists v r, tagged response (lit "Content-Length:") v (print_int len ++ r) /\
      ends_with isdigit r /\ in_range 64 len = true;
    c_name : exists pre c r, response = pre ++ lit "filename=" ++ name ++ c :: r /\
      first_at pre (lit "filename=") (name ++ c :: r) /\ isspace c = true /\
      name <> [] /\ forallb name_char name = true
  }.

(** [get_resp_header] returns the status code, type, length and file name
    that a response carries, whatever the uninitialised structure held; a type
    of 128 or a name of 256 characters overflows its field. *)
Theorem get_resp_header_spec junk response code ty len name :
  carries response code ty len name ->
  get_resp_header junk response =
    if (128 <=? length ty)%nat || (256 <=? length name)%nat then None
    else Some (RespHeader code ty len name).
Proof.
  intros [(v1 & r1 & H1 & H1r & H1z) (v2 & r2 & H2 & H2r & H2n & H2w)
          (v3 & r3 & H3 & H3r & H3z) (pre & c & r4 & H4 & H4f & H4c & H4n & H4w)].
  unfold get_resp_header.
  rewrite (int_field_spec 32 response _ v1 code r1) by done.
  rewrite (word_field_spec 128 response _ v2 ty r2) by done.
  rewrite (int_field_spec 64 response _ v3 len r3) by done.
  rewrite H4, name_field_spec by done. unfold store_word.
  by destruct (128 <=? length ty)%nat, (256 <=? length name)%nat.
Qed.

(** [first_at], decided. *)
Definition first_atb (s p r : chars) : bool :=
  forallb (fun k => negb (starts_with p (drop k (s ++ p ++ r)))) (seq 0 (length s)).

Lemma first_atb_spec s p r : first_atb s p r = true -> first_at s p r.
Proof.
  intros H k Hk. unfold first_atb in H. rewrite forallb_forall in H.
  specialize (H k ltac:(apply in_seq; lia)). by apply negb_true_iff in H.
Qed.

Definition sample_response : chars := header_text sample_lines.

Lemma sample_carries :
  carries sample_response 200 (lit "application/gzip") 1168 (lit "node.tar.gz").
Proof.
  constructor.
  - exists (lit "1.1"), (drop 12 sample_response). split; [|done]. exists [].
    split; [done|]. split; [by apply first_atb_spec|done].
  - exists [], (drop 47 sample_response). split; [|done]. exists (take 17 sample_response).
    split; [done|]. split; [by apply first_atb_spec|done].
  - exists [], (drop 69 sample_response). split; [|done]. exists (take 49 sample_response).
    split; [done|]. split; [by apply first_atb_spec|done].
  - exists (take 104 sample_response), CR, (drop 125 sample_response).
    split; [done|]. split; [by apply first_atb_spec|done].
Qed.

Lemma get_resp_header_spec_witness :
  get_resp_header (RespHeader (-7) [LF] 5 []) sample_response =
    Some (RespHeader 200 (lit "application/gzip") 1168 (lit "node.tar.gz")).
Proof. exact (get_resp_header_spec _ _ _ _ _ _ sample_carries). Defined.

(** C40: however the body is cut into chunks, the loop writes the chunks up to
    the one that reaches the announced length, and success is announced exactly
    when they add up to it; a body of just that length is written whole. The
    file is not truncated first: the end of a longer old file stays. *)
Theorem download_spec n old chunks :
  Z.of_nat (length (concat chunks)) < 2 ^ 31 ->
  download n old (Some <$> chunks) =
    (until n chunks ++ drop (length (until n chunks)) old,
     Z.of_nat (length (until n chunks)) =? n) /\
  (Forall (fun c => c <> []) chunks -> n = Z.of_nat (length (concat chunks)) ->
   download n old (Some <$> chunks) =
     (concat chunks ++ drop (length (concat chunks)) old, true)).
Proof.
  intros Hb.
  assert (Hd : download n old (Some <$> chunks) =
    (until n chunks ++ drop (length (until n chunks)) old,
     Z.of_nat (length (until n chunks)) =? n)).
  { unfold download. rewrite download_loop_until by (done || lia). by rewrite Z.sub_0_r. }
  split; [done|]. intros Hne Hn. etransitivity; [exact Hd|]. rewrite until_all by done.
  f_equal. by apply Z.eqb_eq.
Qed.

Lemma download_spec_witness :
  download 5 (lit "0123456789") (Some <$> [lit "ab"; lit "cde"]) =
    (lit "abcde" ++ lit "56789", true).
Proof.
  apply (proj2 (download_spec 5 (lit "0123456789") [lit "ab"; lit "cde"] ltac:(cbn; lia)));
    [by repeat constructor|done].
Defined.
