(* ===== verification/ChatList.v ===== *)
(** * ChatList: the list of users of the chat server

    [server/list.c] and [copyUser] of [server/config.c], under
    [src/socket_test/ChatRome -- select/]. Names are the strings the fields hold. *)
From S2P Require Import Prelude.
From S2P Require Import Memory.
From S2P Require Import Chain.
From S2P Require Import CString.

Open Scope C.

Record User := MkUser {
  userName : chars; password : chars; userAddr : Z; sockfd : Z; speak : Z;
  registerTime : chars
}.

Record ListNode := MkListNode { user : User; next : addr }.

(** The last statement of [copyUser] copies [registerTime] of [user2] onto
    itself. *)
Definition copyUser (user1 user2 : User) : User :=
  MkUser (userName user2) (password user2) (userAddr user2) (sockfd user2) (speak user2)
    (registerTime user1).

(** What [calloc] gives. *)
Definition no_user : User := MkUser [] [] 0 0 0 [].

Section ChatList.
Context `{Allocator}.

Local Abbreviation run A := (prog (store ListNode) A).

Definition set_next (a v : addr) : run unit :=
  do n <- load a; save a (MkListNode (user n) v).
Definition set_user (a : addr) (u : User) : run unit :=
  do n <- load a; save a (MkListNode (copyUser (user n) u) (next n)).

(** [while (p->next != NULL) p = p->next;] *)
Fixpoint last_from (fuel : nat) (p : addr) : run addr :=
  do n <- load p;
  if next n =? NULL then pret p
  else match fuel with O => pfail | S fuel => last_from fuel (next n) end.

Definition insertNode (list : addr) (u : User) : run addr :=
  do node <- alloc (MkListNode no_user NULL);
  set_user node u ;;;
  set_next node NULL ;;;
  if list =? NULL then pret node
  else (fun s =>
    (do p <- last_from (size (objs s)) list;
     set_next p node ;;;
     pret list) s).

(** [while (p != NULL && strcmp(p->user.userName, name) != 0)]: [pre] and [p]. *)
Fixpoint find_from (fuel : nat) (name : chars) (pre p : addr) : run (addr * addr) :=
  if p =? NULL then pret (pre, p)
  else
    do n <- load p;
    if streq (userName (user n)) name then pret (pre, p)
    else match fuel with O => pfail | S fuel => find_from fuel name p (next n) end.

Definition find_user (list : addr) (name : chars) : run (addr * addr) := fun s =>
  find_from (size (objs s)) name list list s.

Definition isOnLine (list : addr) (u : User) : run Z :=
  do r <- find_user list (userName u);
  pret (if snd r =? NULL then 0 else 1).

(** Assigning to the parameter [list] changes nothing for the caller. *)
Definition deleteNode (list : addr) (u : User) : run unit :=
  if list =? NULL then pret tt
  else
    do r <- find_user list (userName u);
    let pre := fst r in
    let p := snd r in
    if p =? NULL then pret tt
    else
      do n <- load p;
      (if p =? list then pret tt
       else if next n =? NULL then set_next pre NULL
       else set_next pre (next n)) ;;;
      free p.

(** The names in the order they are printed. *)
Fixpoint display_from (fuel : nat) (p : addr) : run (list chars) :=
  do n <- load p;
  if next n =? NULL then pret [userName (user n)]
  else
    match fuel with
    | O => pfail
    | S fuel => do r <- display_from fuel (next n); pret (userName (user n) :: r)
    end.

Definition displayList (head : addr) : run (list chars) := fun s =>
  (if head =? NULL then pret [] else display_from (size (objs s)) head) s.

(** ** The list as a sequence of users *)

Record is_list (s : store ListNode) (p : addr) (xs : list (addr * User)) : Prop := IsList {
  l_chain : chain MkListNode (objs s) p xs;
  l_nodup : NoDup xs.*1;
  l_dom : dom (objs s) = list_to_set xs.*1
}.

Definition online (s : store ListNode) (p : addr) (us : list User) : Prop :=
  exists xs, is_list s p xs /\ xs.*2 = us.

Definition named (name : chars) (u : User) : bool := streq (userName u) name.

Lemma is_list_size s p xs : is_list s p xs -> size (objs s) = length xs.
Proof. intros [_ Hn Hd]. by rewrite <-size_dom, Hd, size_list_to_set, length_fmap. Qed.

Lemma online_null s p us : online s p us -> (p =? NULL) = bool_decide (us = []).
Proof.
  intros (xs & [Hc _ _] & <-). destruct xs as [|[a v] xs]; cbn in Hc.
  - by subst p.
  - destruct Hc as (-> & Hn & _). by apply Z.eqb_neq.
Qed.

Lemma run_set_next {B} a x u n (k : unit -> run B) s :
  objs s !! a = Some (MkListNode u n) ->
  pbind (set_next a x) k s = k tt (Store (<[a := MkListNode u x]> (objs s)) (requests s)).
Proof. intros Ha. unfold pbind, set_next, load, save, pbind. by rewrite Ha, Ha. Qed.

Lemma run_set_user {B} a x u n (k : unit -> run B) s :
  objs s !! a = Some (MkListNode u n) ->
  pbind (set_user a x) k s =
    k tt (Store (<[a := MkListNode (copyUser u x) n]> (objs s)) (requests s)).
Proof. intros Ha. unfold pbind, set_user, load, save, pbind. by rewrite Ha, Ha. Qed.

Lemma last_from_spec s : forall xs p r u fuel,
  chain MkListNode (objs s) p (xs ++ [(r, u)]) -> (length xs <= fuel)%nat ->
  last_from fuel p s = Some (r, s).
Proof.
  induction xs as [|[a v] xs IH]; intros p r u fuel Hc Hf; cbn [app] in Hc.
  - destruct Hc as (-> & _ & n & Ha & ->). destruct fuel; cbn [last_from];
      by erewrite run_load by exact Ha.
  - destruct Hc as (-> & _ & n & Ha & Hc). destruct fuel as [|fuel]; [cbn in Hf; lia|].
    cbn [last_from]. erewrite run_load by exact Ha. cbn [next].
    assert (Hn : n <> NULL).
    { destruct xs as [|[b w] xs]; cbn in Hc; destruct Hc as (-> & Hb & _); done. }
    rewrite (proj2 (Z.eqb_neq _ _) Hn). apply (IH n r u); [done|cbn in Hf; lia].
Qed.

Lemma insertNode_spec s p us u :
  online s p us -> malloc (requests s) (dom (objs s)) <> NULL ->
  exists p' s', insertNode p u s = Some (p', s') /\
    online s' p' (us ++ [copyUser no_user u]) /\ (us <> [] -> p' = p).
Proof.
  intros Hon Hm. pose proof (online_null _ _ _ Hon) as Hnull.
  destruct Hon as (xs & [Hc Hnd Hd] & <-). unfold insertNode.
  destruct (run_alloc (MkListNode no_user NULL) s Hm) as (a & Ha & Hf & Hrun). rewrite Hrun.
  erewrite run_set_user by apply lookup_insert_eq.
  erewrite run_set_next by apply lookup_insert_eq. cbn [objs requests].
  rewrite !insert_insert_eq, Hnull.
  assert (Hin : a ∉ xs.*1).
  { apply not_elem_of_dom in Hf. by rewrite Hd, elem_of_list_to_set in Hf. }
  destruct xs as [|x xs0 _] using rev_ind.
  { rewrite bool_decide_eq_true_2 by done. cbn in Hd. eexists _, _. split; [reflexivity|].
    split; [|done]. exists [(a, copyUser no_user u)]. split; [|done]. constructor; cbn.
    - split; [done|]. split; [done|]. exists NULL. by rewrite lookup_insert_eq.
    - apply NoDup_singleton.
    - rewrite dom_insert_L, Hd. done. }
  destruct x as [r v]. rewrite bool_decide_eq_false_2 by by destruct xs0.
  destruct (chain_in _ _ _ _ r v Hc) as (n & Hr & _); [apply elem_of_app; right; by left|].
  assert (Hra : r <> a).
  { intros ->. apply Hin. rewrite fmap_app. apply elem_of_app. right. by left. }
  erewrite (pbind_run (last_from _ _)).
  2: { apply last_from_spec with (xs := xs0) (u := v).
       - apply (chain_frame _ (objs s)); [|done]. intros b Hb. cbn [objs].
         rewrite lookup_insert_ne; [done|]. by intros ->.
       - cbn [objs]. rewrite map_size_insert_None by done.
         rewrite <-size_dom, Hd, size_list_to_set, length_fmap, length_app by done. lia. }
  erewrite run_set_next by (cbn [objs]; rewrite lookup_insert_ne by done; exact Hr).
  cbn [objs requests]. eexists _, _. split; [reflexivity|]. split; [|done].
  exists (xs0 ++ [(r, v); (a, copyUser no_user u)]). split.
  - constructor; cbn [objs].
    + by apply chain_snoc.
    + rewrite fmap_app in *. cbn in *.
      change ([r; a]) with ([r] ++ [a]). rewrite app_assoc. apply NoDup_app.
      split; [done|]. split; [|apply NoDup_singleton]. intros b Hb ->%list_elem_of_singleton. done.
    + rewrite !dom_insert_L, Hd, !fmap_app, !list_to_set_app_L. cbn. set_solver.
  - rewrite !fmap_app, <-app_assoc. done.
Qed.

(** ** Searching *)

Definition absent (name : chars) (us : list User) : Prop :=
  Forall (fun u => named name u = false) us.

Lemma find_from_hit s name : forall ys p pre a v zs fuel,
  chain MkListNode (objs s) p (ys ++ (a, v) :: zs) ->
  absent name ys.*2 -> named name v = true -> (length ys <= fuel)%nat ->
  find_from fuel name pre p s = Some ((List.last ys.*1 pre, a), s).
Proof.
  induction ys as [|[b w] ys IH]; intros p pre a v zs fuel Hc Hno Hv Hf; cbn [app] in Hc;
    destruct Hc as (-> & Hn & n & Ha & Hc).
  - unfold named in Hv. destruct fuel; cbn [find_from]; rewrite (proj2 (Z.eqb_neq _ _) Hn);
      erewrite run_load by exact Ha; cbn [user]; by rewrite Hv.
  - cbn [fmap list_fmap snd] in Hno. apply Forall_cons in Hno as [Hw Hno]. unfold named in Hw.
    destruct fuel as [|fuel]; [cbn in Hf; lia|]. cbn [find_from].
    rewrite (proj2 (Z.eqb_neq _ _) Hn). erewrite run_load by exact Ha. cbn [user next].
    rewrite Hw. rewrite (IH n b a v zs fuel Hc Hno Hv) by (cbn in Hf; lia).
    cbn [fmap list_fmap fst]. by rewrite last_cons_skip.
Qed.

Lemma find_from_miss s name : forall xs p pre fuel,
  chain MkListNode (objs s) p xs -> absent name xs.*2 -> (length xs <= fuel)%nat ->
  exists q, find_from fuel name pre p s = Some ((q, NULL), s).
Proof.
  induction xs as [|[b w] xs IH]; intros p pre fuel Hc Hno Hf.
  - cbn in Hc. subst p. exists pre. by destruct fuel.
  - destruct Hc as (-> & Hn & n & Ha & Hc).
    cbn [fmap list_fmap snd] in Hno. apply Forall_cons in Hno as [Hw Hno]. unfold named in Hw.
    destruct fuel as [|fuel]; [cbn in Hf; lia|]. cbn [find_from].
    rewrite (proj2 (Z.eqb_neq _ _) Hn). erewrite run_load by exact Ha. cbn [user next].
    rewrite Hw. apply (IH n b); [done..|cbn in Hf; lia].
Qed.

(** A user of the name is on the list or not. *)
Lemma named_cases name us :
  absent name us \/
  exists l1 v l2, us = l1 ++ v :: l2 /\ absent name l1 /\ named name v = true.
Proof.
  induction us as [|u us IH]; [left; by constructor|].
  destruct (named name u) eqn:Eu; [right; exists [], u, us; by repeat constructor|].
  destruct IH as [IH|(l1 & v & l2 & -> & H1 & Hv)]; [left; by constructor|].
  right. exists (u :: l1), v, l2. split; [done|]. split; [by constructor|done].
Qed.

Lemma fmap_snd_split (xs : list (addr * User)) l1 v l2 :
  xs.*2 = l1 ++ v :: l2 ->
  exists ys a zs, xs = ys ++ (a, v) :: zs /\ ys.*2 = l1 /\ zs.*2 = l2.
Proof.
  intros (ys & zs' & -> & H1 & H2)%fmap_app_inv.
  destruct zs' as [|[a w] zs]; [done|]. cbn in H1. simplify_eq. by exists ys, a, zs.
Qed.

Lemma find_user_hit s p l1 v l2 name :
  online s p (l1 ++ v :: l2) -> absent name l1 -> named name v = true ->
  exists ys a zs, is_list s p (ys ++ (a, v) :: zs) /\ ys.*2 = l1 /\ zs.*2 = l2 /\
    find_user p name s = Some ((List.last ys.*1 p, a), s).
Proof.
  intros (xs & Hl & Hxs) H1 Hv. apply fmap_snd_split in Hxs as (ys & a & zs & -> & <- & <-).
  exists ys, a, zs. split; [done|]. split; [done|]. split; [done|]. unfold find_user.
  apply (find_from_hit s name ys p p a v zs); [apply Hl|done|done|].
  rewrite (is_list_size _ _ _ Hl), length_app. lia.
Qed.

Lemma find_user_miss s p us name :
  online s p us -> absent name us -> exists q, find_user p name s = Some ((q, NULL), s).
Proof.
  intros (xs & Hl & <-) Hno. unfold find_user. apply (find_from_miss s name xs); [apply Hl|done|].
  by rewrite (is_list_size _ _ _ Hl).
Qed.

Definition is_online (name : chars) (us : list User) : bool := existsb (named name) us.

Lemma absent_is_online name us : absent name us <-> is_online name us = false.
Proof.
  unfold is_online. induction us as [|u us IH]; cbn; [by split; [|constructor]|].
  unfold absent. rewrite Forall_cons, orb_false_iff. by rewrite <-IH.
Qed.

Lemma isOnLine_spec s p us u :
  online s p us ->
  isOnLine p u s = Some (if is_online (userName u) us then 1 else 0, s).
Proof.
  intros Hon. unfold isOnLine.
  destruct (named_cases (userName u) us) as [Hno|(l1 & v & l2 & -> & H1 & Hv)].
  - destruct (find_user_miss s p us _ Hon Hno) as (q & Hr).
    rewrite (pbind_run _ _ _ _ _ Hr). by rewrite (proj1 (absent_is_online _ _) Hno).
  - destruct (find_user_hit s p l1 v l2 _ Hon H1 Hv) as (ys & a & zs & Hl & _ & _ & Hr).
    rewrite (pbind_run _ _ _ _ _ Hr). cbn [snd].
    destruct (chain_in _ _ _ _ a v (l_chain _ _ _ Hl)) as (_ & _ & Hn).
    { apply elem_of_app. right. by left. }
    rewrite (proj2 (Z.eqb_neq _ _) Hn). unfold is_online. rewrite existsb_app. cbn.
    by rewrite Hv, orb_true_r.
Qed.

Lemma deleteNode_absent s p us u :
  online s p us -> absent (userName u) us -> deleteNode p u s = Some (tt, s).
Proof.
  intros Hon Hno. unfold deleteNode. destruct (p =? NULL); [done|].
  destruct (find_user_miss s p us _ Hon Hno) as (q & Hr).
  by rewrite (pbind_run _ _ _ _ _ Hr).
Qed.

(** Deleting the first user frees the object the caller's variable points to. *)
Lemma deleteNode_first s p v l2 u :
  online s p (v :: l2) -> named (userName u) v = true ->
  exists s', deleteNode p u s = Some (tt, s') /\ p <> NULL /\ objs s' !! p = None.
Proof.
  intros Hon Hv. unfold deleteNode. rewrite (online_null _ _ _ Hon), bool_decide_eq_false_2 by done.
  destruct (find_user_hit s p [] v l2 _ Hon (Forall_nil_2 _) Hv)
    as (ys & a & zs & [Hc Hnd Hd] & Hys & _ & Hr).
  destruct ys; [|done]. rewrite (pbind_run _ _ _ _ _ Hr). cbn [fst snd].
  destruct Hc as (-> & Hn & n & Ha & _). rewrite (proj2 (Z.eqb_neq _ _) Hn).
  erewrite run_load by exact Ha. rewrite Z.eqb_refl.
  eexists. unfold pbind, pret, free. rewrite (proj2 (Z.eqb_neq _ _) Hn), Ha.
  split; [reflexivity|]. split; [done|]. apply lookup_delete_eq.
Qed.

Lemma deleteNode_later s p l1 v l2 u :
  online s p (l1 ++ v :: l2) -> l1 <> [] -> absent (userName u) l1 ->
  named (userName u) v = true ->
  exists s', deleteNode p u s = Some (tt, s') /\ online s' p (l1 ++ l2).
Proof.
  intros Hon Hl1 Hno Hv. unfold deleteNode.
  rewrite (online_null _ _ _ Hon), bool_decide_eq_false_2 by by destruct l1.
  destruct (find_user_hit s p l1 v l2 _ Hon Hno Hv)
    as (ys & a & zs & [Hc Hnd Hd] & Hys & Hzs & Hr).
  rewrite (pbind_run _ _ _ _ _ Hr). cbn [fst snd]. clear Hr.
  destruct ys as [|[b w] ys _] using rev_ind; [by subst l1|].
  rewrite <-app_assoc in *. cbn [app] in *.
  destruct (chain_unlink _ _ _ ys b w a v zs Hc Hnd) as (n & Hb & Ha & Hc').
  destruct (chain_addr _ _ _ _ a Hc) as [Han _].
  { rewrite fmap_app. apply elem_of_app. right. right. by left. }
  rewrite (proj2 (Z.eqb_neq _ _) Han). erewrite run_load by exact Ha. cbn [next].
  rewrite fmap_app in Hnd. apply NoDup_app in Hnd as (Hnd1 & Hdis & Hnd2).
  cbn [fmap list_fmap fst] in Hnd2. apply NoDup_cons in Hnd2 as [Hbz Hnd2].
  assert (Hpa : p <> a).
  { intros ->. destruct ys as [|[c x] ys]; cbn in Hc; destruct Hc as (-> & _).
    - apply Hbz. by left.
    - apply (Hdis c); [by left|]. right. by left. }
  rewrite (proj2 (Z.eqb_neq a p)) by congruence.
  replace (List.last (ys ++ [(b, w)]).*1 p) with b by (rewrite fmap_app; cbn; by rewrite last_last).
  assert (Hif : (if n =? NULL then set_next b NULL else set_next b n) = set_next b n).
  { destruct (Z.eqb_spec n NULL) as [->|]; done. }
  rewrite Hif. erewrite run_set_next by exact Hb.
  assert (Hba : b <> a) by (intros ->; apply Hbz; by left).
  eexists. unfold free. rewrite (proj2 (Z.eqb_neq _ _) Han). cbn [objs].
  rewrite lookup_insert_ne by done. rewrite Ha. split; [reflexivity|].
  exists (ys ++ (b, w) :: zs). split; [constructor; cbn [objs]|].
  - done.
  - rewrite fmap_app. apply NoDup_app. split; [done|]. split.
    + intros c Hc1 Hc2. apply (Hdis c Hc1). cbn in *. rewrite !elem_of_cons in *. tauto.
    + cbn. apply NoDup_cons. cbn in Hnd2. apply NoDup_cons in Hnd2 as [Haz Hnd2].
      split; [|done]. intros Hin. apply Hbz. by right.
  - rewrite dom_delete_L, dom_insert_L, Hd, !fmap_app, !list_to_set_app_L. cbn.
    cbn in Hdis, Hnd2. apply NoDup_cons in Hnd2 as [Haz _].
    assert (a ∉ (list_to_set zs.*1 : gset addr)) by (by rewrite elem_of_list_to_set).
    assert (a ∉ (list_to_set ys.*1 : gset addr)).
    { rewrite elem_of_list_to_set. intros Hin. apply (Hdis a Hin). right. by left. }
    set_solver.
  - rewrite fmap_app in *. cbn in *. subst l1 l2. by rewrite <-app_assoc.
Qed.

(** ** Theorem *)

(** C39: the list of users is a sequence: searching finds a name exactly when a
    user of that name was added and not deleted, a new user goes to the end,
    and deleting takes out the first user of the name and frees its node,
    without changing anything when the name is absent. But the head of the list
    is the caller's: when the first user is deleted the variable still points
    to the freed node, and the next search reads it. *)
Theorem user_list_spec s p us u :
  online s p us ->
  isOnLine p u s = Some (if is_online (userName u) us then 1 else 0, s) /\
  (malloc (requests s) (dom (objs s)) <> NULL ->
   exists p' s', insertNode p u s = Some (p', s') /\
     online s' p' (us ++ [copyUser no_user u])) /\
  (is_online (userName u) us = false -> deleteNode p u s = Some (tt, s)) /\
  (forall l1 v l2, us = l1 ++ v :: l2 -> absent (userName u) l1 ->
     named (userName u) v = true ->
     exists s', deleteNode p u s = Some (tt, s') /\
       (l1 <> [] -> online s' p (l1 ++ l2)) /\
       (l1 = [] -> forall w, isOnLine p w s' = None)).
Proof.
  intros Hon. split; [by apply isOnLine_spec|]. split; [|split].
  - intros Hm. destruct (insertNode_spec s p us u Hon Hm) as (p' & s' & H1 & H2 & _).
    by exists p', s'.
  - intros Ho. by apply (deleteNode_absent s p us), absent_is_online.
  - intros l1 v l2 -> Hno Hv. destruct l1 as [|u0 l1].
    + destruct (deleteNode_first s p v l2 u Hon Hv) as (s' & Hd & Hp & Hf).
      exists s'. split; [done|]. split; [done|]. intros _ w.
      unfold isOnLine, pbind, find_user.
      assert (Hff : find_from (size (objs s')) (userName w) p p s' = None); [|by rewrite Hff].
      destruct (size (objs s')); cbn [find_from]; rewrite (proj2 (Z.eqb_neq _ _) Hp);
        unfold pbind, load; by rewrite Hf.
    + destruct (deleteNode_later s p (u0 :: l1) v l2 u Hon) as (s' & Hd & Hon'); [done..|].
      by exists s'.
Qed.

End ChatList.

Definition one_user : store ListNode :=
  Store (<[1 := MkListNode (MkUser (lit "ann") [] 0 4 0 []) NULL]> ∅) 1.

Lemma one_user_online : online one_user 1 [MkUser (lit "ann") [] 0 4 0 []].
Proof.
  exists [(1, MkUser (lit "ann") [] 0 4 0 [])]. split; [|done]. constructor.
  - split; [done|]. split; [done|]. by exists NULL.
  - by apply (bool_decide_unpack _).
  - by apply (bool_decide_unpack _).
Qed.

Lemma user_list_spec_witness :
  exists s', deleteNode 1 (MkUser (lit "ann") [] 0 0 0 []) one_user = Some (tt, s') /\
    forall w, isOnLine 1 w s' = None.
Proof.
  destruct (@user_list_spec bump_allocator one_user 1 _ (MkUser (lit "ann") [] 0 0 0 [])
              one_user_online) as (_ & _ & _ & Hdel).
  destruct (Hdel [] _ [] eq_refl (Forall_nil_2 _) eq_refl) as (s' & Hd & _ & Hw).
  exists s'. split; [exact Hd|]. exact (Hw eq_refl).
Defined.
