(* ===== verification/Chat.v ===== *)
(** * Chat: the request handlers of the chat server

    [server/login.c], [register.c], [chat.c] and [stateMsg] of [config.c], under
    [src/socket_test/ChatRome -- select/]. The state is the list of users on
    line, the database and the messages sent so far. A received message is its
    arrays as they arrived; a sent one the strings in its fields. The database
    is the library's: an operation of the class [Sqlite] for each call.

    Every received message is copied with the size of the buffer it is in, 8192
    bytes, to a structure that is smaller. What a function does behind this copy
    is a definition of its own, without which nothing could be said of it. *)
From S2P Require Import Prelude.
From S2P Require Import Memory.
From S2P Require Import Chain.
From S2P Require Import CString.
From S2P Require Import ChatList.
From Stdlib Require Import Ascii.

Open Scope C.

(** ** Codes and texts *)

Definition EXCEED : Z := 0.
Definition SUCCESS : Z := 1.
Definition FAILED : Z := 2.
Definition DUPLICATEID : Z := 3.
Definition INVALID : Z := 4.
Definition ID_NOT_EXIST : Z := 5.
Definition WRONGPWD : Z := 6.
Definition ALREADY_ONLINE : Z := 7.
Definition ID_NOT_ONLINE : Z := 8.
Definition ALL_NOT_ONLINE : Z := 9.
Definition MESSAGE_SELF : Z := 10.

Definition EXIT : Z := 4.
Definition VIEW_USER_LIST : Z := 5.
Definition GROUP_CHAT : Z := 6.
Definition PERSONAL_CHAT : Z := 7.
Definition VIEW_RECORDS : Z := 8.
Definition RESULT : Z := 9.

(** [YES] of [enum Flag]. *)
Definition YES : Z := 0.

Definition stateMsg (stateRet : Z) : chars :=
  if stateRet =? EXCEED then lit "已达服务器链接上限！" ++ [LF]
  else if stateRet =? SUCCESS then lit "操作成功！" ++ [LF]
  else if stateRet =? FAILED then lit "操作失败！" ++ [LF]
  else if stateRet =? DUPLICATEID then lit "重复的用户名！" ++ [LF]
  else if stateRet =? INVALID then lit "不合法输入！" ++ [LF]
  else if stateRet =? ID_NOT_EXIST then lit "账号不存在！" ++ [LF]
  else if stateRet =? WRONGPWD then lit "密码错误！" ++ [LF]
  else if stateRet =? ALREADY_ONLINE then lit "该用户已在线！" ++ [LF]
  else if stateRet =? ID_NOT_ONLINE then lit "该用户不在线！" ++ [LF]
  else if stateRet =? ALL_NOT_ONLINE then lit "无人在线！" ++ [LF]
  else if stateRet =? MESSAGE_SELF then lit "不能给自己发送消息" ++ [LF]
  else lit "未知操作结果！" ++ [LF].

Record Message := MkMessage {
  content : chars; msgType : Z; msgRet : Z; sendAddr : Z;
  sendName : chars; recvName : chars; msgTime : chars
}.

Definition TAB : ascii := chr 9.

(** ** The library's database and the system's clock *)

Class Sqlite := {
  db : Type;
  db_opens : db -> bool;
  (** [sqlite3_prepare] accepts the statement. *)
  db_prepares : db -> chars -> bool;
  (** The first [sqlite3_step] of a query answers [SQLITE_ROW]. *)
  db_row : db -> chars -> bool;
  (** The database after a statement that changes it. *)
  db_step : db -> chars -> db;
  (** [sqlite3_get_table]: the rows, the columns, and the table by rows with
      the column names first; [None] when the query fails. *)
  db_table : db -> chars -> option (nat * nat * list (option chars));
  (** [inet_ntoa] and [asctime(gmtime(&timeNow))] *)
  inet_ntoa : Z -> chars;
  time_now : chars
}.

Section Chat.
Context `{Allocator} `{Sqlite}.

Record server := Server {
  mem : store ListNode;
  userList : addr;
  database : db;
  sent : list (Z * Message)
}.

Local Abbreviation run A := (prog server A).

Definition on_mem {A} (m : prog (store ListNode) A) : run A := fun s =>
  match m (mem s) with
  | Some (a, m') => Some (a, Server m' (userList s) (database s) (sent s))
  | None => None
  end.

Definition get {A} (f : server -> A) : run A := fun s => Some (f s, s).
Definition set_userList (p : addr) : run unit := fun s =>
  Some (tt, Server (mem s) p (database s) (sent s)).
Definition set_database (d : db) : run unit := fun s =>
  Some (tt, Server (mem s) (userList s) d (sent s)).
Definition send (fd : Z) (m : Message) : run unit := fun s =>
  Some (tt, Server (mem s) (userList s) (database s) (sent s ++ [(fd, m)])).

(** A string read from a received array. *)
Definition read_text (a : chars) : run chars :=
  match text a with Some s => pret s | None => pfail end.

(** A string written to an array of [size] characters. *)
Definition write_text (size : Z) (s : chars) : run chars :=
  if size <=? Z.of_nat (length s) then pfail else pret s.

Definition MAX_LINE : Z := 8192.
Definition sizeof_User : Z := 84.
Definition sizeof_Message : Z := 2148.

(** [memcpy] of [n] bytes to an object of [size]. *)
Definition memcpy (size n : Z) : run unit := if n <=? size then pret tt else pfail.

(** [char sql[128]] *)
Definition sql_text (s : chars) : run chars := write_text 128 s.

(** Preparing and stepping a statement that changes the database. *)
Definition db_execute (sql : chars) : run Z :=
  do d <- get database;
  if negb (db_prepares d sql) then pret FAILED
  else set_database (db_step d sql) ;;; pret SUCCESS.

(** ** Statements *)

Definition quoted (s : chars) : chars := lit "'" ++ s ++ lit "'".

Definition insert_message (m : Message) : chars :=
  lit "insert into Message(msgType , sendName , recvName , content , msgTime)" ++
  replicate 4 TAB ++ lit "values(" ++ print_int (msgType m) ++ lit "," ++
  quoted (sendName m) ++ lit "," ++ quoted (recvName m) ++ lit "," ++
  quoted (content m) ++ lit ", " ++ quoted (msgTime m) ++ lit ");".

Definition select_login (u : User) : chars :=
  lit "select * from User where userName=" ++ quoted (userName u) ++
  lit " and password=" ++ quoted (password u) ++ lit ";".

Definition select_user (u : User) : chars :=
  lit "select * from User where userName=" ++ quoted (userName u) ++ lit ";".

Definition insert_user (u : User) (now : chars) : chars :=
  lit "insert into User(userName , password , userAddr , sockfd , speak , registerTime)" ++
  replicate 3 TAB ++ lit "values(" ++ quoted (userName u) ++ lit "," ++
  quoted (password u) ++ lit "," ++ quoted (inet_ntoa (userAddr u)) ++ lit "," ++
  print_int (sockfd u) ++ lit ", " ++ print_int YES ++ lit " , " ++ quoted now ++ lit ");".

Definition select_records (send recv : chars) : chars :=
  if streq recv [] then
    lit "select * from Message where recvName=" ++ quoted recv ++ lit " order by msgTime;"
  else
    lit "select * from Message where sendName=" ++ quoted send ++ lit " and recvName=" ++
    quoted recv ++ lit " or sendName=" ++ quoted recv ++ lit " and recvName=" ++
    quoted send ++ lit " order by msgTime;".

(** ** Logging in and registering

    [user] is the structure received from the client; its address and socket
    are then set. *)

Definition with_socket (user : User) (msg : Message) (fd : Z) : User :=
  MkUser (userName user) (password user) (sendAddr msg) fd (speak user) (registerTime user).

(** Behind [memcpy(&user , buf , sizeof(buf))] *)
Definition login_copied (msg : Message) (fd : Z) (user : User) : run Z :=
  let user := with_socket user msg fd in
  do list <- get userList;
  do on <- on_mem (isOnLine list user);
  if on =? 1 then pret ALREADY_ONLINE
  else
    do d <- get database;
    if negb (db_opens d) then pret FAILED
    else
      do sql <- sql_text (select_login user);
      if negb (db_prepares d sql) then pret FAILED
      else if db_row d sql then
        do list <- on_mem (insertNode list user);
        set_userList list ;;;
        pret SUCCESS
      else pret FAILED.

Definition loginUser (msg : Message) (fd : Z) (user : User) : run Z :=
  memcpy sizeof_User MAX_LINE ;;; login_copied msg fd user.

Definition register_copied (msg : Message) (fd : Z) (user : User) : run Z :=
  let user := with_socket user msg fd in
  if (20 <? length (userName user))%nat then pret INVALID
  else
    do d <- get database;
    if negb (db_opens d) then pret FAILED
    else
      do sql <- sql_text (select_user user);
      if negb (db_prepares d sql) then pret FAILED
      else if db_row d sql then pret FAILED
      else
        do sql <- sql_text (insert_user user time_now);
        db_execute sql.

Definition registerUser (msg : Message) (fd : Z) (user : User) : run Z :=
  memcpy sizeof_User MAX_LINE ;;; register_copied msg fd user.

(** ** Chatting *)

(** [message] with the names and type of the request. *)
Definition reply_to (msg : Message) : run Message :=
  do s <- read_text (sendName msg);
  do s <- write_text 20 s;
  do r <- read_text (recvName msg);
  do r <- write_text 20 r;
  pret (MkMessage [] (msgType msg) 0 0 s r []).

Definition result (m : Message) (stateRet : Z) : Message :=
  MkMessage (stateMsg stateRet) RESULT (msgRet m) (sendAddr m) (sendName m) (recvName m)
    (msgTime m).

Definition with_text (m : Message) (recv content time : chars) : Message :=
  MkMessage content (msgType m) (msgRet m) (sendAddr m) (sendName m) recv time.

(** Opening the database, then the insertion of the message. *)
Definition record_message (m : Message) : run Z :=
  do d <- get database;
  if negb (db_opens d) then pret FAILED
  else do sql <- sql_text (insert_message m); db_execute sql.

(** [while (p != NULL)]: to every user not named as the sender. *)
Fixpoint send_all (fuel : nat) (m : Message) (p : addr) : run unit :=
  if p =? NULL then pret tt
  else
    do n <- on_mem (load p);
    (if negb (streq (userName (user n)) (sendName m)) then send (sockfd (user n)) m
     else pret tt) ;;;
    match fuel with O => pfail | S fuel => send_all fuel m (next n) end.

Definition groupChat (msg : Message) (fd : Z) : run Z :=
  do message <- reply_to msg;
  do p <- get userList;
  do n <- on_mem (load p);
  if next n =? NULL then
    send fd (result message ALL_NOT_ONLINE) ;;; pret ALL_NOT_ONLINE
  else
    do c <- read_text (content msg);
    do c <- write_text 2048 c;
    do t <- read_text (msgTime msg);
    do t <- write_text 20 t;
    let message := with_text message [] c t in
    do k <- get (fun s => size (objs (mem s)));
    send_all k message p ;;;
    record_message message.

Definition personalChat (msg : Message) (fd : Z) : run Z :=
  do message <- reply_to msg;
  if streq (sendName message) (recvName message) then
    send fd (result message MESSAGE_SELF) ;;; pret MESSAGE_SELF
  else
    do list <- get userList;
    do r <- on_mem (find_user list (recvName message));
    let p := snd r in
    if p =? NULL then
      send fd (result message ID_NOT_ONLINE) ;;; pret ID_NOT_ONLINE
    else
      do c <- read_text (content msg);
      do c <- write_text 2048 c;
      do t <- read_text (msgTime msg);
      do t <- write_text 20 t;
      let message := with_text message (recvName message) c t in
      do n <- on_mem (load p);
      send (sockfd (user n)) message ;;;
      record_message message.

(** The [strcat]s of a tab and a name each; [acc] is the content so far. *)
Fixpoint list_names (fuel : nat) (acc : chars) (p : addr) : run chars :=
  if p =? NULL then pret acc
  else
    do n <- on_mem (load p);
    do acc <- write_text 2048 (acc ++ [TAB] ++ userName (user n));
    match fuel with O => pfail | S fuel => list_names fuel acc (next n) end.

Definition viewUserList (msg : Message) (fd : Z) : run Z :=
  do message <- reply_to msg;
  do p <- get userList;
  if p =? NULL then
    send fd (result message ALL_NOT_ONLINE) ;;; pret ALL_NOT_ONLINE
  else
    do k <- get (fun s => size (objs (mem s)));
    do c <- list_names k [] p;
    send fd (with_text message (recvName message) c []) ;;;
    pret SUCCESS.

(** One entry of the table of results. *)
Definition table_entry (dbRet : list (option chars)) (i : nat) : run chars :=
  match dbRet !! i with Some (Some s) => pret s | _ => pfail end.

(** [for (i = 0; i < nRow; ++i)], appending a record to the content. *)
Fixpoint list_records (nRow nCol idx : nat) (dbRet : list (option chars)) (acc : chars)
  : run chars :=
  match nRow with
  | O => pret acc
  | S nRow =>
      do a <- table_entry dbRet (idx + 1);
      do b <- table_entry dbRet (idx + 4);
      do c <- table_entry dbRet (idx + 3);
      do record <- write_text 8192 (a ++ [TAB] ++ b ++ [LF; TAB] ++ c ++ [LF; LF]);
      do acc <- write_text 2048 (acc ++ record);
      list_records nRow nCol (idx + nCol) dbRet acc
  end.

(** [message.content[strlen(message.content) - 1] = '\0'] *)
Definition chop (s : chars) : run chars :=
  match s with [] => pfail | _ => pret (removelast s) end.

(** The records asked for: "all" stands for the group's. *)
Definition records_name (recv : chars) : chars := if streq recv (lit "all") then [] else recv.

Definition viewRecords (msg : Message) (fd : Z) : run Z :=
  do message <- reply_to msg;
  let recv := records_name (recvName message) in
  let message := with_text message recv [] [] in
  do d <- get database;
  if negb (db_opens d) then send fd (result message FAILED) ;;; pret FAILED
  else
    do sql <- sql_text (select_records (sendName message) recv);
    match db_table d sql with
    | None => send fd (result message FAILED) ;;; pret FAILED
    | Some (nRow, nCol, dbRet) =>
        do c <- list_records nRow nCol nCol dbRet [];
        do c <- chop c;
        send fd (with_text message recv c []) ;;;
        pret SUCCESS
    end.

(** ** A session *)

(** What [recv] answers: 0, an error, or [n] bytes that begin with a message. *)
Inductive received := Closed | RecvFailed | Received (n : Z) (m : Message).

(** [recv(sockfd , buf , sizeof(buf)+1 , 0)]: the message now in the buffer, if
    the bytes fit. *)
Definition recv_message (old : Message) (r : received) : run Message :=
  match r with
  | Received n m => if MAX_LINE <? n then pfail else pret m
  | _ => pret old
  end.

(** The [switch] of [enterChat]; [true] when the session is over. *)
Definition chat_switch (message : Message) (fd : Z) : run bool :=
  let t := msgType message in
  if t =? GROUP_CHAT then groupChat message fd ;;; pret false
  else if t =? PERSONAL_CHAT then personalChat message fd ;;; pret false
  else if t =? VIEW_USER_LIST then viewUserList message fd ;;; pret false
  else if t =? VIEW_RECORDS then viewRecords message fd ;;; pret false
  else if t =? EXIT then
    do name <- read_text (sendName message);
    do name <- write_text 20 name;
    do list <- get userList;
    on_mem (deleteNode list (MkUser name [] 0 0 0 [])) ;;;
    pret true
  else pret false.

Definition chat_turn (message : Message) (fd : Z) : run bool :=
  memcpy sizeof_Message MAX_LINE ;;; chat_switch message fd.

(** [while (1)]: after an error the buffer holds the previous message, which is
    served again. *)
Fixpoint enterChat (message : Message) (fd : Z) (rs : list received) : run unit :=
  match rs with
  | [] => pret tt
  | Closed :: _ => pret tt
  | r :: rs =>
      do message <- recv_message message r;
      do over <- chat_turn message fd;
      if over : bool then pret tt else enterChat message fd rs
  end.

(** ** Running a handler *)

Lemma on_mem_run {A} (m : prog (store ListNode) A) s a m' :
  m (mem s) = Some (a, m') ->
  on_mem m s = Some (a, Server m' (userList s) (database s) (sent s)).
Proof. intros Hm. unfold on_mem. by rewrite Hm. Qed.

Lemma on_mem_same {A} (m : prog (store ListNode) A) s a :
  m (mem s) = Some (a, mem s) -> on_mem m s = Some (a, s).
Proof. intros Hm. unfold on_mem. rewrite Hm. by destruct s. Qed.

Lemma run_on_mem {A B} (m : prog (store ListNode) A) (k : A -> run B) s a :
  m (mem s) = Some (a, mem s) -> pbind (on_mem m) k s = k a s.
Proof. intros Hm. by rewrite (pbind_run _ _ _ _ _ (on_mem_same _ _ _ Hm)). Qed.

Lemma run_get {A B} (f : server -> A) (k : A -> run B) s : pbind (get f) k s = k (f s) s.
Proof. done. Qed.

Lemma run_send {B} fd m (k : unit -> run B) s :
  pbind (send fd m) k s =
    k tt (Server (mem s) (userList s) (database s) (sent s ++ [(fd, m)])).
Proof. done. Qed.

Lemma run_read_text {B} a t (k : chars -> run B) s :
  text a = Some t -> pbind (read_text a) k s = k t s.
Proof. intros Ht. unfold read_text. by rewrite Ht. Qed.

Lemma run_write_text {B} size t (k : chars -> run B) s :
  pbind (write_text size t) k s =
    if size <=? Z.of_nat (length t) then None else k t s.
Proof. unfold write_text. by destruct (size <=? _). Qed.

Definition with_sent (s : server) (l : list (Z * Message)) : server :=
  Server (mem s) (userList s) (database s) (sent s ++ l).

(** The users on line in a state of the server. *)
Definition users (s : server) (us : list User) : Prop := online (mem s) (userList s) us.

Lemma load_load a s (v : ListNode) : objs s !! a = Some v -> load a s = Some (v, s).
Proof. intros Ha. unfold load. by rewrite Ha. Qed.

(** The users who get a message of [m]'s sender, with the message. *)
Definition deliveries (m : Message) (us : list User) : list (Z * Message) :=
  (fun u => (sockfd u, m)) <$> List.filter (fun u => negb (named (sendName m) u)) us.

Lemma send_all_spec m : forall xs p s fuel,
  chain MkListNode (objs (mem s)) p xs -> (length xs <= fuel)%nat ->
  send_all fuel m p s = Some (tt, with_sent s (deliveries m xs.*2)).
Proof.
  induction xs as [|[a u] xs IH]; intros p s fuel Hc Hf.
  - cbn in Hc. subst p. unfold with_sent. destruct fuel; cbn; by rewrite app_nil_r; destruct s.
  - destruct Hc as (-> & Hn & n & Ha & Hc). destruct fuel as [|fuel]; [cbn in Hf; lia|].
    cbn [send_all]. rewrite (proj2 (Z.eqb_neq _ _) Hn).
    rewrite (run_on_mem _ _ _ _ (load_load _ _ _ Ha)). cbn [user next].
    cbn [fmap list_fmap snd]. unfold deliveries. cbn [List.filter].
    unfold named at 1. destruct (streq (userName u) (sendName m)); cbn [negb].
    + change (pbind (pret tt) ?k s) with (k tt s). apply IH; [done|cbn in Hf; lia].
    + rewrite run_send, (IH n) by (done || (cbn in Hf; lia)).
      unfold with_sent. cbn [mem userList database sent fmap list_fmap].
      by rewrite <-app_assoc.
Qed.

(** A request whose arrays hold the strings given. *)
Record says (msg : Message) (s r c t : chars) : Prop := Says {
  s_send : text (sendName msg) = Some s; s_recv : text (recvName msg) = Some r;
  s_content : text (content msg) = Some c; s_time : text (msgTime msg) = Some t;
  s_sizes : Z.of_nat (length s) < 20 /\ Z.of_nat (length r) < 20 /\
    Z.of_nat (length c) < 2048 /\ Z.of_nat (length t) < 20
}.

Definition header_of (msg : Message) (s r : chars) : Message :=
  MkMessage [] (msgType msg) 0 0 s r [].

Lemma run_reply_to {B} msg s r c t (k : Message -> run B) sv :
  says msg s r c t -> pbind (reply_to msg) k sv = k (header_of msg s r) sv.
Proof.
  intros [Hs Hr _ _ (Hl1 & Hl2 & _)].
  assert (Hrep : reply_to msg sv = Some (header_of msg s r, sv)).
  { unfold reply_to. rewrite (run_read_text _ _ _ _ Hs), run_write_text.
    rewrite (proj2 (Z.leb_gt _ _)) by lia.
    rewrite (run_read_text _ _ _ _ Hr), run_write_text.
    by rewrite (proj2 (Z.leb_gt _ _)) by lia. }
  by rewrite (pbind_run _ _ _ _ _ Hrep).
Qed.

(** What becomes of a message that was delivered. *)
Definition recorded (m : Message) (sv : server) : option (Z * server) :=
  if negb (db_opens (database sv)) then Some (FAILED, sv)
  else if 128 <=? Z.of_nat (length (insert_message m)) then None
  else if negb (db_prepares (database sv) (insert_message m)) then Some (FAILED, sv)
  else Some (SUCCESS, Server (mem sv) (userList sv)
    (db_step (database sv) (insert_message m)) (sent sv)).

Lemma record_message_spec m sv : record_message m sv = recorded m sv.
Proof.
  unfold record_message, recorded, sql_text, db_execute. rewrite run_get.
  destruct (negb (db_opens _)); [done|]. rewrite run_write_text.
  destruct (_ <=? _); [done|]. rewrite run_get. by destruct (negb _).
Qed.

Lemma groupChat_spec sv us msg fd s r c t :
  users sv us -> says msg s r c t ->
  groupChat msg fd sv =
    match us with
    | [] => None
    | [_] => Some (ALL_NOT_ONLINE,
               with_sent sv [(fd, result (header_of msg s r) ALL_NOT_ONLINE)])
    | _ =>
        let m := with_text (header_of msg s r) [] c t in
        recorded m (with_sent sv (deliveries m us))
    end.
Proof.
  intros (xs & Hl & <-) Hsays. unfold groupChat.
  rewrite (run_reply_to _ _ _ _ _ _ _ Hsays), run_get.
  pose proof (is_list_size _ _ _ Hl) as Hsize. destruct Hl as [Hc Hnd Hd].
  destruct xs as [|[a u] xs].
  { cbn in Hc. rewrite Hc. unfold pbind at 1, on_mem, load.
    assert (objs (mem sv) !! NULL = None) as ->; [|done].
    apply not_elem_of_dom. rewrite Hd. set_solver. }
  pose proof Hc as (Hp & Hn & n & Ha & Hc'). rewrite Hp in *.
  rewrite (run_on_mem _ _ _ _ (load_load _ _ _ Ha)). cbn [next fmap list_fmap snd].
  destruct xs as [|[b w] xs]; cbn in Hc'.
  { by rewrite Hc'. }
  destruct Hc' as (-> & Hb & _). rewrite (proj2 (Z.eqb_neq b NULL) Hb).
  destruct Hsays as [_ _ Hct Htm (_ & _ & Hl3 & Hl4)].
  rewrite (run_read_text _ _ _ _ Hct), run_write_text, (proj2 (Z.leb_gt _ _)) by lia.
  rewrite (run_read_text _ _ _ _ Htm), run_write_text, (proj2 (Z.leb_gt _ _)) by lia.
  rewrite run_get. cbv zeta.
  erewrite pbind_run by (apply send_all_spec with (xs := (a, u) :: (b, w) :: xs);
    [exact Hc|rewrite Hsize; done]).
  apply record_message_spec.
Qed.

(** The first user of a name. *)
Definition first_named (name : chars) (us : list User) : option User := List.find (named name) us.

Lemma first_named_hit name l1 v l2 :
  absent name l1 -> named name v = true -> first_named name (l1 ++ v :: l2) = Some v.
Proof.
  intros Hno Hv. induction l1 as [|u l1 IH]; unfold first_named; cbn [app List.find].
  - by rewrite Hv.
  - apply Forall_cons in Hno as [Hu Hno]. rewrite Hu. by apply IH.
Qed.

Lemma first_named_miss name us : absent name us -> first_named name us = None.
Proof.
  intros Hno. induction Hno as [|u us Hu _ IH]; [done|]. unfold first_named. cbn. by rewrite Hu.
Qed.

Lemma find_user_first sv us name :
  users sv us ->
  exists q p, find_user (userList sv) name (mem sv) = Some ((q, p), mem sv) /\
    match first_named name us with
    | None => p = NULL
    | Some v => p <> NULL /\ exists n, load p (mem sv) = Some (MkListNode v n, mem sv)
    end.
Proof.
  intros Hus. destruct (named_cases name us) as [Hno|(l1 & v & l2 & -> & H1 & Hv)].
  - destruct (find_user_miss _ _ _ _ Hus Hno) as (q & Hr). exists q, NULL.
    by rewrite first_named_miss.
  - destruct (find_user_hit _ _ _ _ _ _ Hus H1 Hv) as (ys & a & zs & Hl & _ & _ & Hr).
    exists (List.last ys.*1 (userList sv)), a. split; [done|].
    rewrite first_named_hit by done.
    destruct (chain_in _ _ _ _ a v (l_chain _ _ _ Hl)) as (n & Ha & Hn).
    { apply elem_of_app. right. by left. }
    split; [done|]. exists n. by apply load_load.
Qed.

Lemma personalChat_spec sv us msg fd s r c t :
  users sv us -> says msg s r c t ->
  personalChat msg fd sv =
    if streq s r then
      Some (MESSAGE_SELF, with_sent sv [(fd, result (header_of msg s r) MESSAGE_SELF)])
    else
      match first_named r us with
      | None =>
          Some (ID_NOT_ONLINE, with_sent sv [(fd, result (header_of msg s r) ID_NOT_ONLINE)])
      | Some v =>
          let m := with_text (header_of msg s r) r c t in
          recorded m (with_sent sv [(sockfd v, m)])
      end.
Proof.
  intros Hus Hsays. unfold personalChat. rewrite (run_reply_to _ _ _ _ _ _ _ Hsays).
  cbn [sendName recvName header_of]. destruct (streq s r); [done|]. rewrite run_get.
  destruct (find_user_first sv us r Hus) as (q & p & Hr & Hp).
  rewrite (run_on_mem _ _ _ _ Hr). cbn [snd].
  destruct (first_named r us) as [v|]; [|by subst p].
  destruct Hp as (Hn & n & Hload). rewrite (proj2 (Z.eqb_neq _ _) Hn).
  destruct Hsays as [_ _ Hct Htm (_ & _ & Hl3 & Hl4)].
  rewrite (run_read_text _ _ _ _ Hct), run_write_text, (proj2 (Z.leb_gt _ _)) by lia.
  rewrite (run_read_text _ _ _ _ Htm), run_write_text, (proj2 (Z.leb_gt _ _)) by lia.
  rewrite (run_on_mem _ _ _ _ Hload). cbn [user]. rewrite run_send.
  apply record_message_spec.
Qed.

(** ** The lists *)

(** The names as the client prints them. *)
Definition tabbed (us : list User) : chars := concat ((fun u => TAB :: userName u) <$> us).

Lemma list_names_spec : forall xs acc p s fuel,
  chain MkListNode (objs (mem s)) p xs -> (length xs <= fuel)%nat ->
  Z.of_nat (length acc) < 2048 ->
  list_names fuel acc p s =
    if 2048 <=? Z.of_nat (length (acc ++ tabbed xs.*2)) then None
    else Some (acc ++ tabbed xs.*2, s).
Proof.
  induction xs as [|[a u] xs IH]; intros acc p s fuel Hc Hf Hacc.
  - cbn in Hc. subst p. unfold tabbed. cbn. rewrite app_nil_r.
    rewrite (proj2 (Z.leb_gt _ _)) by lia. by destruct fuel.
  - destruct Hc as (-> & Hn & n & Ha & Hc). destruct fuel as [|fuel]; [cbn in Hf; lia|].
    cbn [list_names]. rewrite (proj2 (Z.eqb_neq _ _) Hn).
    rewrite (run_on_mem _ _ _ _ (load_load _ _ _ Ha)). cbn [user next].
    rewrite run_write_text.
    assert (Happ : acc ++ tabbed ((a, u) :: xs).*2 =
      (acc ++ [TAB] ++ userName u) ++ tabbed xs.*2).
    { unfold tabbed. cbn. by rewrite <-app_assoc. }
    rewrite Happ. destruct (Z.leb_spec 2048 (Z.of_nat (length (acc ++ [TAB] ++ userName u)))).
    + rewrite (proj2 (Z.leb_le _ _)); [done|]. rewrite length_app. lia.
    + apply IH; [done|cbn in Hf; lia|lia].
Qed.

Lemma viewUserList_spec sv us msg fd s r c t :
  users sv us -> says msg s r c t ->
  viewUserList msg fd sv =
    if bool_decide (us = []) then
      Some (ALL_NOT_ONLINE, with_sent sv [(fd, result (header_of msg s r) ALL_NOT_ONLINE)])
    else if 2048 <=? Z.of_nat (length (tabbed us)) then None
    else Some (SUCCESS, with_sent sv [(fd, with_text (header_of msg s r) r (tabbed us) [])]).
Proof.
  intros Hus Hsays. unfold viewUserList. rewrite (run_reply_to _ _ _ _ _ _ _ Hsays), run_get.
  rewrite (online_null _ _ _ Hus). destruct (bool_decide (us = [])); [done|].
  destruct Hus as (xs & Hl & <-). rewrite run_get. cbv zeta.
  assert (Hn : list_names (size (objs (mem sv))) [] (userList sv) sv =
    if 2048 <=? Z.of_nat (length (tabbed xs.*2)) then None else Some (tabbed xs.*2, sv)).
  { rewrite (list_names_spec xs); [done|apply Hl| |cbn; lia].
    by rewrite (is_list_size _ _ _ Hl). }
  unfold pbind at 1. rewrite Hn. by destruct (_ <=? _).
Qed.

(** Viewing records when there are none writes in front of the text. *)
Lemma viewRecords_empty sv msg fd s r c t nCol names :
  says msg s r c t -> db_opens (database sv) = true ->
  db_table (database sv) (select_records s (records_name r)) =
    Some (0%nat, nCol, names) ->
  viewRecords msg fd sv = None.
Proof.
  intros Hsays Ho Ht. unfold viewRecords. rewrite (run_reply_to _ _ _ _ _ _ _ Hsays).
  cbn [recvName sendName header_of with_text]. rewrite run_get, Ho. cbn [negb].
  unfold sql_text. rewrite run_write_text. destruct (_ <=? _); [done|]. by rewrite Ht.
Qed.

(** ** Logging in and registering *)

Lemma length_quoted s : length (quoted s) = (2 + length s)%nat.
Proof. unfold quoted. rewrite !length_app. cbn. lia. Qed.

(** The query of the login always fits its buffer. *)
Lemma select_login_fits u :
  Z.of_nat (length (userName u)) < 20 -> Z.of_nat (length (password u)) < 20 ->
  (128 <=? Z.of_nat (length (select_login u))) = false.
Proof.
  intros Hn Hp. apply Z.leb_gt. unfold select_login.
  rewrite !length_app, !length_quoted. cbn [length lit String.list_ascii_of_string]. lia.
Qed.

Lemma login_copied_spec sv us msg fd u :
  users sv us -> Z.of_nat (length (userName u)) < 20 -> Z.of_nat (length (password u)) < 20 ->
  let sql := select_login u in
  let d := database sv in
  if is_online (userName u) us then login_copied msg fd u sv = Some (ALREADY_ONLINE, sv)
  else if db_opens d && db_prepares d sql && db_row d sql then
    malloc (requests (mem sv)) (dom (objs (mem sv))) <> NULL ->
    exists sv', login_copied msg fd u sv = Some (SUCCESS, sv') /\
      users sv' (us ++ [copyUser no_user (with_socket u msg fd)]) /\
      database sv' = d /\ sent sv' = sent sv
  else login_copied msg fd u sv = Some (FAILED, sv).
Proof.
  intros Hus Hn Hp sql d. unfold login_copied. rewrite run_get.
  rewrite (run_on_mem _ _ _ _ (isOnLine_spec _ _ _ _ Hus)). cbn [userName with_socket].
  destruct (is_online (userName u) us); [done|]. change (0 =? 1) with false. cbn iota.
  rewrite run_get. fold d. destruct (db_opens d); [|done]. cbn [negb andb].
  unfold sql_text. rewrite run_write_text, select_login_fits by done.
  change (select_login (with_socket u msg fd)) with sql.
  destruct (db_prepares d sql); [|done]. cbn [negb andb].
  destruct (db_row d sql); [|done]. intros Hm.
  destruct (insertNode_spec _ _ _ (with_socket u msg fd) Hus Hm) as (p' & m' & Hr & Hon & _).
  eexists. split; [by rewrite (pbind_run _ _ _ _ _ (on_mem_run _ _ _ _ Hr))|].
  by split_and!.
Qed.

Section Clock.
(** What the C library says of the two texts: a dotted address has at least
    seven characters, [asctime] exactly 25. *)
Context (inet_ntoa_long : forall a, (7 <= length (inet_ntoa a))%nat).
Context (asctime_long : length time_now = 25%nat).

Lemma print_nat_nonempty n : 0 <= n -> (1 <= length (print_nat n))%nat.
Proof. intros Hn. destruct (print_nat_spec n Hn) as (_ & _ & ?). destruct (print_nat n); [done|cbn; lia]. Qed.

Lemma print_int_length z : (1 <= length (print_int z))%nat.
Proof.
  unfold print_int. destruct (Z.ltb_spec z 0); [cbn; lia|]. by apply print_nat_nonempty.
Qed.

Lemma insert_user_long u : (128 <=? Z.of_nat (length (insert_user u time_now))) = true.
Proof.
  apply Z.leb_le. unfold insert_user.
  rewrite !length_app, !length_quoted, length_replicate, asctime_long.
  pose proof (inet_ntoa_long (userAddr u)). pose proof (print_int_length (sockfd u)).
  pose proof (print_int_length YES). cbn [length lit String.list_ascii_of_string]. lia.
Qed.

Lemma register_copied_spec sv msg fd u :
  let d := database sv in
  let sql := select_user u in
  register_copied msg fd u sv =
    if (20 <? length (userName u))%nat then Some (INVALID, sv)
    else if negb (db_opens d) then Some (FAILED, sv)
    else if 128 <=? Z.of_nat (length sql) then None
    else if negb (db_prepares d sql) then Some (FAILED, sv)
    else if db_row d sql then Some (FAILED, sv)
    else None.
Proof.
  intros d sql. unfold register_copied. cbn [userName with_socket].
  destruct (20 <? _)%nat; [done|]. rewrite run_get. fold d.
  destruct (negb (db_opens d)); [done|].
  unfold sql_text. rewrite run_write_text. change (select_user (with_socket u msg fd)) with sql.
  destruct (_ <=? _); [done|]. destruct (negb _); [done|]. destruct (db_row d sql); [done|].
  by rewrite run_write_text, insert_user_long.
Qed.

End Clock.

(** ** Theorems *)

(** C21: a group message reaches every user on line except its sender, once
    and in the order of the list, with no recipient name; it is then recorded,
    or refused by the database; a statement of 128 characters or more
    overflows its buffer. Alone, the sender is told that nobody is on line; with
    nobody on the list the server reads through [NULL]. *)
Theorem groupChat_delivers sv us msg fd s r c t :
  users sv us -> says msg s r c t ->
  groupChat msg fd sv =
    match us with
    | [] => None
    | [_] => Some (ALL_NOT_ONLINE,
               with_sent sv [(fd, result (header_of msg s r) ALL_NOT_ONLINE)])
    | _ =>
        let m := with_text (header_of msg s r) [] c t in
        recorded m (with_sent sv (deliveries m us))
    end.
Proof. apply groupChat_spec. Qed.

(** A private message goes to the first user on line of the recipient's
    name, and to nobody else, and is recorded; to oneself or to an absent user
    it is refused, and only the sender is answered. *)
Theorem personalChat_delivers sv us msg fd s r c t :
  users sv us -> says msg s r c t ->
  personalChat msg fd sv =
    if streq s r then
      Some (MESSAGE_SELF, with_sent sv [(fd, result (header_of msg s r) MESSAGE_SELF)])
    else
      match first_named r us with
      | None =>
          Some (ID_NOT_ONLINE, with_sent sv [(fd, result (header_of msg s r) ID_NOT_ONLINE)])
      | Some v =>
          let m := with_text (header_of msg s r) r c t in
          recorded m (with_sent sv [(sockfd v, m)])
      end.
Proof. apply personalChat_spec. Qed.

(** Behind the copy, a login succeeds exactly when the user is not on line yet and the
    database has a row of that name and password; then the user is appended to
    the list with the socket of the connection and no registration time. In
    every other case nothing changes. The query always fits its buffer. *)
Theorem login_copied_outcomes sv us msg fd u :
  users sv us -> Z.of_nat (length (userName u)) < 20 -> Z.of_nat (length (password u)) < 20 ->
  let sql := select_login u in
  let d := database sv in
  if is_online (userName u) us then login_copied msg fd u sv = Some (ALREADY_ONLINE, sv)
  else if db_opens d && db_prepares d sql && db_row d sql then
    malloc (requests (mem sv)) (dom (objs (mem sv))) <> NULL ->
    exists sv', login_copied msg fd u sv = Some (SUCCESS, sv') /\
      users sv' (us ++ [copyUser no_user (with_socket u msg fd)]) /\
      database sv' = d /\ sent sv' = sent sv
  else login_copied msg fd u sv = Some (FAILED, sv).
Proof. apply login_copied_spec. Qed.

(** Behind the copy, no registration ever succeeds: for a new name the statement that
    inserts it, with a dotted address of at least 7 characters and a date of 25,
    has more than the 127 characters its buffer can hold, for every name and
    password. The other outcomes change nothing. *)
Theorem register_copied_overflows sv msg fd u :
  (forall a, (7 <= length (inet_ntoa a))%nat) -> length time_now = 25%nat ->
  let d := database sv in
  let sql := select_user u in
  register_copied msg fd u sv =
    if (20 <? length (userName u))%nat then Some (INVALID, sv)
    else if negb (db_opens d) then Some (FAILED, sv)
    else if 128 <=? Z.of_nat (length sql) then None
    else if negb (db_prepares d sql) then Some (FAILED, sv)
    else if db_row d sql then Some (FAILED, sv)
    else None.
Proof. intros Ha Ht. by apply register_copied_spec. Qed.

(** No request gets that far: the copy of the user, and that of a message in a
    session, leave the structure, and so does an error of [recv], after which the
    old buffer is copied. Only a session that is closed before its first message
    ends. *)
Theorem copies_overflow fd msg u m rs sv :
  loginUser msg fd u sv = None /\ registerUser msg fd u sv = None /\
  enterChat m fd rs sv = match rs with [] | Closed :: _ => Some (tt, sv) | _ => None end.
Proof.
  split; [done|]. split; [done|]. destruct rs as [|[| |n m1] rs]; [done..|].
  cbn [enterChat recv_message]. by destruct (MAX_LINE <? n).
Qed.

(** The list of users is sent to the one who asks, each name after a tab,
    as long as it has fewer than 2048 characters; asking for records when there
    are none writes in front of the message's text. *)
Theorem views_spec sv us msg fd s r c t nCol names :
  users sv us -> says msg s r c t ->
  viewUserList msg fd sv =
    (if bool_decide (us = []) then
       Some (ALL_NOT_ONLINE, with_sent sv [(fd, result (header_of msg s r) ALL_NOT_ONLINE)])
     else if 2048 <=? Z.of_nat (length (tabbed us)) then None
     else Some (SUCCESS, with_sent sv [(fd, with_text (header_of msg s r) r (tabbed us) [])])) /\
  (db_opens (database sv) = true ->
   db_table (database sv) (select_records s (records_name r)) = Some (0%nat, nCol, names) ->
   viewRecords msg fd sv = None).
Proof.
  intros Hus Hsays. split; [by apply (viewUserList_spec sv us msg fd s r c t)|].
  intros Ho Ht. by apply (viewRecords_empty sv msg fd s r c t nCol names).
Qed.

End Chat.

(** ** Two users on line, and a database that records what it is told *)

Definition log_db : Sqlite := {|
  db := list chars;
  db_opens _ := true;
  db_prepares _ _ := true;
  db_row d q := streq q (lit "select * from User where userName='eve' and password='pw';");
  db_step d q := d ++ [q];
  db_table _ _ := Some (0%nat, 5%nat, []);
  inet_ntoa _ := lit "127.0.0.1";
  time_now := lit "Wed Jun 30 21:49:08 1993" ++ [LF]
|}.

#[local] Existing Instances bump_allocator log_db.

Definition ann : User := MkUser (lit "ann") [] 0 4 0 [].
Definition bob : User := MkUser (lit "bob") [] 0 5 0 [].
Definition eve : User := MkUser (lit "eve") (lit "pw") 0 0 0 [].

Definition two_users : server :=
  Server (Store (<[1 := MkListNode ann 2]> (<[2 := MkListNode bob NULL]> ∅)) 2) 1
    ([] : @db log_db) [].

Lemma two_users_online : users two_users [ann; bob].
Proof.
  exists [(1, ann); (2, bob)]. split; [|done]. constructor.
  - split; [done|]. split; [done|]. exists 2. split; [done|]. split; [done|]. split; [done|].
    by exists NULL.
  - by apply (bool_decide_unpack _).
  - by apply (bool_decide_unpack _).
Qed.

(** "hi" from ann to bob, padded with NULs. *)
Definition padded (n : nat) (s : string) : chars := lit s ++ replicate n NUL.
Definition hello : Message :=
  MkMessage (padded 10 "hi") PERSONAL_CHAT 0 0 (padded 17 "ann") (padded 17 "bob")
    (padded 12 "12:00:00").

Lemma hello_says : says hello (lit "ann") (lit "bob") (lit "hi") (lit "12:00:00").
Proof. constructor; done. Qed.

Lemma groupChat_delivers_witness :
  groupChat hello 4 two_users =
    let m := with_text (header_of hello (lit "ann") (lit "bob")) [] (lit "hi") (lit "12:00:00") in
    recorded m (with_sent two_users [(5, m)]).
Proof. exact (groupChat_delivers _ _ hello 4 _ _ _ _ two_users_online hello_says). Defined.

Lemma personalChat_delivers_witness :
  personalChat hello 4 two_users =
    let m := with_text (header_of hello (lit "ann") (lit "bob")) (lit "bob") (lit "hi")
               (lit "12:00:00") in
    recorded m (with_sent two_users [(5, m)]).
Proof. exact (personalChat_delivers _ _ hello 4 _ _ _ _ two_users_online hello_says). Defined.

Lemma login_copied_outcomes_witness :
  exists sv', login_copied hello 6 eve two_users = Some (SUCCESS, sv') /\
    users sv' ([ann; bob] ++ [copyUser no_user (with_socket eve hello 6)]) /\
    database sv' = database two_users /\ sent sv' = sent two_users.
Proof.
  pose proof (login_copied_outcomes two_users [ann; bob] hello 6 eve two_users_online
    eq_refl eq_refl) as Hlogin.
  change (is_online (userName eve) [ann; bob]) with false in Hlogin.
  change (db_opens _ && db_prepares _ _ && db_row _ _) with true in Hlogin.
  exact (Hlogin (bump_unlimited _ _)).
Defined.

Lemma register_copied_overflows_witness : register_copied hello 6 eve two_users = None.
Proof. apply (register_copied_overflows two_users hello 6 eve); [cbn; lia|done]. Defined.

Lemma views_spec_witness :
  viewUserList hello 4 two_users =
    Some (SUCCESS, with_sent two_users
      [(4, with_text (header_of hello (lit "ann") (lit "bob")) (lit "bob")
             ([TAB] ++ lit "ann" ++ [TAB] ++ lit "bob") [])]) /\
  viewRecords hello 4 two_users = None.
Proof.
  destruct (views_spec two_users [ann; bob] hello 4 _ _ _ _ 5 [] two_users_online hello_says)
    as [H1 H2].
  split; [rewrite H1; reflexivity|apply H2; reflexivity].
Defined.
