(* ===== verification/Double.v ===== *)
(** * Double: C's [double] and its conversions

    The binary64 arithmetic of the IEEE standard as the Standard Library's
    [SpecFloat] defines it, with the conversions from and to [int] and the
    formats of [printf] that cJSON.c uses. Integers below 2^53 are exact. *)
From S2P Require Import Prelude.
From S2P Require Import CString.
From Stdlib Require Import SpecFloat Ascii.

Open Scope C.

Definition double := spec_float.

Definition dadd : double -> double -> double := SFadd 53 1024.
Definition dsub : double -> double -> double := SFsub 53 1024.
Definition dmul : double -> double -> double := SFmul 53 1024.
Definition ddiv : double -> double -> double := SFdiv 53 1024.

(** The conversion of an integer, and of a decimal constant [m] times ten to
    the power [-k] for [m] and [10^k] below 2^53. *)
Definition dbl (z : Z) : double := binary_normalize 53 1024 z 0 false.
Definition dconst (m k : Z) : double := ddiv (dbl m) (dbl (10 ^ k)).

Definition DBL_EPSILON : double := S754_finite false (2 ^ 52) (-104).
Definition INT_MAX : Z := 2147483647.
Definition INT_MIN : Z := -2147483648.

(** The integer part of a finite value. *)
Definition trunc (s : bool) (m : positive) (e : Z) : Z :=
  let a := if 0 <=? e then Z.pos m * 2 ^ e else Z.pos m / 2 ^ (- e) in
  if s then - a else a.

(** [(int)d]: out of range, what the x86-64 instruction answers. *)
Definition to_int (d : double) : Z :=
  match d with
  | S754_zero _ => 0
  | S754_finite s m e =>
      let z := trunc s m e in
      if (INT_MIN <=? z) && (z <=? INT_MAX) then z else INT_MIN
  | _ => INT_MIN
  end.

(** [floor(d)] *)
Definition dfloor (d : double) : double :=
  match d with
  | S754_finite s m e =>
      if 0 <=? e then d else dbl ((if (s : bool) then Z.neg m else Z.pos m) / 2 ^ (- e))
  | _ => d
  end.

(** ** [printf] *)

(** [num / den] to the nearest integer, to the even one in the middle. *)
Definition nearest (num den : Z) : Z :=
  let q := num / den in
  let r := num mod den in
  if 2 * r <? den then q
  else if den <? 2 * r then q + 1
  else if Z.even q then q else q + 1.

(** The magnitude as a fraction. *)
Definition numerator (m : positive) (e : Z) : Z := Z.pos m * 2 ^ Z.max e 0.
Definition denominator (e : Z) : Z := 2 ^ Z.max (- e) 0.

(** The magnitude times [10^k], rounded. *)
Definition scaled (m : positive) (e k : Z) : Z :=
  nearest (numerator m e * 10 ^ Z.max k 0) (denominator e * 10 ^ Z.max (- k) 0).

(** [%0wd] for a number that is not negative. *)
Definition zero_padded (w : nat) (z : Z) : chars :=
  let ds := print_nat z in replicate (w - length ds) (chr 48) ++ ds.

Definition minus (s : bool) : chars := if s then [chr 45] else [].

(** [%.0f] and [%f] of a finite value. *)
Definition fixed0 (m : positive) (e : Z) : chars := print_nat (scaled m e 0).
Definition fixed6 (m : positive) (e : Z) : chars :=
  let n := scaled m e 6 in
  print_nat (n / 10 ^ 6) ++ [chr 46] ++ zero_padded 6 (n mod 10 ^ 6).

(** The power of ten of the first digit. *)
Definition exponent10 (m : positive) (e : Z) : Z :=
  let num := numerator m e in
  let den := denominator e in
  if den <=? num then Z.of_nat (length (print_nat (num / den))) - 1
  else - Z.of_nat (length (print_nat ((den - 1) / num))).

(** [%e] *)
Definition scientific (m : positive) (e : Z) : chars :=
  let x := exponent10 m e in
  let n := scaled m e (6 - x) in
  let '(n, x) := if n =? 10 ^ 7 then (10 ^ 6, x + 1) else (n, x) in
  print_nat (n / 10 ^ 6) ++ [chr 46] ++ zero_padded 6 (n mod 10 ^ 6) ++ [chr 101] ++
  [if x <? 0 then chr 45 else chr 43] ++ zero_padded 2 (Z.abs x).

(** A double under one of these conversions. The sign of a NaN is not kept by
    [SpecFloat]; an x86-64 operation that makes one sets it. *)
Definition format (f : positive -> Z -> chars) (zero : chars) (d : double) : chars :=
  match d with
  | S754_zero s => minus s ++ zero
  | S754_finite s m e => minus s ++ f m e
  | S754_infinity s => minus s ++ lit "inf"
  | S754_nan => lit "-nan"
  end.

Definition print_0f : double -> chars := format fixed0 (lit "0").
Definition print_f : double -> chars := format fixed6 (lit "0.000000").
Definition print_e : double -> chars := format scientific (lit "0.000000e+00").

(** ** Exactness on integers below 2^53 *)

Definition ndigits (v : Z) : Z := Zdigits2 v.

Lemma ndigits_bound v : 0 < v -> 1 <= ndigits v /\ 2 ^ (ndigits v - 1) <= v < 2 ^ ndigits v.
Proof.
  destruct v as [|p|p]; [lia| |lia]. intros _. unfold ndigits. cbn [Zdigits2].
  induction p as [p IH|p IH|]; cbn [digits2_pos]; [..|done];
    set (d := Z.pos (digits2_pos p)) in *; rewrite Pos2Z.inj_succ; fold d;
    replace (Z.succ d - 1) with (Z.succ (d - 1)) by lia;
    rewrite !Z.pow_succ_r by lia; [rewrite (Pos2Z.inj_xI p)|rewrite (Pos2Z.inj_xO p)]; lia.
Qed.

Lemma ndigits_unique v d : 0 < v -> 2 ^ (d - 1) <= v < 2 ^ d -> ndigits v = d.
Proof.
  intros Hv Hd. destruct (ndigits_bound v Hv) as [H1 H2].
  assert (Hd1 : 0 <= d) by (destruct (Z.ltb_spec d 0); [rewrite (Z.pow_neg_r 2 d) in Hd by lia|]; lia).
  assert (Hle : forall a b, 2 ^ (a - 1) <= v -> v < 2 ^ b -> a <= b).
  { intros a b Ha Hb. destruct (Z.ltb_spec b a); [|lia]. exfalso.
    destruct (Z.ltb_spec b 0); [rewrite (Z.pow_neg_r 2 b) in Hb by lia; lia|].
    pose proof (Z.pow_le_mono_r 2 b (a - 1) ltac:(lia) ltac:(lia)). lia. }
  pose proof (Hle d (ndigits v) ltac:(lia) ltac:(lia)).
  pose proof (Hle (ndigits v) d ltac:(lia) ltac:(lia)). lia.
Qed.

Lemma ndigits_shift v k : 0 < v -> 0 <= k -> ndigits (v * 2 ^ k) = ndigits v + k.
Proof.
  intros Hv Hk. destruct (ndigits_bound v Hv) as [H1 H2].
  pose proof (Z.pow_pos_nonneg 2 k ltac:(lia) Hk). apply ndigits_unique; [nia|].
  replace (ndigits v + k - 1) with (ndigits v - 1 + k) by lia. rewrite !Z.pow_add_r by lia. nia.
Qed.

Lemma ndigits_le v n : 0 < v < 2 ^ n -> 0 <= n -> ndigits v <= n.
Proof.
  intros Hv Hn. destruct (ndigits_bound v ltac:(lia)) as [H1 H2].
  destruct (Z.ltb_spec n (ndigits v)); [|lia].
  pose proof (Z.pow_le_mono_r 2 n (ndigits v - 1) ltac:(lia) ltac:(lia)). lia.
Qed.

(** The double of sign [s] and magnitude [v]. *)
Definition exact (s : bool) (v : Z) : double :=
  S754_finite s (Z.to_pos (v * 2 ^ (53 - ndigits v))) (ndigits v - 53).

Lemma shift_exact p : forall m, 0 < m ->
  SpecFloat.iter_pos shr_1 p (Build_shr_record (m * 2 ^ Z.pos p) false false) =
  Build_shr_record m false false.
Proof.
  assert (Hone : forall m, 0 < m -> shr_1 (Build_shr_record (m * 2) false false) =
                                     Build_shr_record m false false).
  { intros [|m|m] Hm; try lia. by rewrite Z.mul_comm. }
  induction p as [p IH|p IH|]; intros m Hm; cbn [SpecFloat.iter_pos].
  - pose proof (Z.pow_pos_nonneg 2 (Z.pos p) ltac:(lia) ltac:(lia)).
    replace (m * 2 ^ Z.pos p~1) with (m * 2 ^ Z.pos p * 2 ^ Z.pos p * 2)
      by (rewrite (Pos2Z.inj_xI p), Z.pow_add_r, Z.pow_twice_r by lia; ring).
    rewrite Hone, !IH by nia. done.
  - pose proof (Z.pow_pos_nonneg 2 (Z.pos p) ltac:(lia) ltac:(lia)).
    replace (m * 2 ^ Z.pos p~0) with (m * 2 ^ Z.pos p * 2 ^ Z.pos p)
      by (rewrite (Pos2Z.inj_xO p), Z.pow_twice_r by lia; ring).
    rewrite !IH by nia. done.
  - by apply Hone.
Qed.

Lemma shr_exact m k e : 0 < m -> 0 <= k ->
  shr (Build_shr_record (m * 2 ^ k) false false) e k = (Build_shr_record m false false, e + k).
Proof.
  intros Hm Hk. destruct k as [|p|p]; [|cbn [shr]; by rewrite shift_exact|lia].
  cbn [shr]. rewrite Z.mul_1_r. f_equal. lia.
Qed.

Lemma shr_fexp_exact m k e :
  0 < m -> ndigits m = 53 -> 0 <= k -> -1074 <= e + k ->
  shr_fexp 53 1024 (m * 2 ^ k) e loc_Exact = (Build_shr_record m false false, e + k).
Proof.
  intros Hm Hd Hk He. unfold shr_fexp, fexp, SpecFloat.emin.
  change (Zdigits2 (m * 2 ^ k)) with (ndigits (m * 2 ^ k)). rewrite ndigits_shift, Hd by done.
  replace (Z.max (53 + k + e - 53) (3 - 1024 - 53) - e) with k by lia. by apply shr_exact.
Qed.

Lemma round_aux_exact s m k e :
  0 < m -> ndigits m = 53 -> 0 <= k -> -1074 <= e + k <= 971 ->
  binary_round_aux 53 1024 s (m * 2 ^ k) e loc_Exact = S754_finite s (Z.to_pos m) (e + k).
Proof.
  intros Hm Hd Hk He. unfold binary_round_aux. rewrite shr_fexp_exact by (done || lia).
  cbn [shr_m loc_of_shr_record round_nearest_even].
  replace m with (m * 2 ^ 0) at 1 by lia. rewrite shr_fexp_exact by (done || lia). cbn [shr_m].
  destruct m as [|p|p]; [lia| |lia]. replace (e + k + 0) with (e + k) by lia.
  destruct (Z.leb_spec (e + k) (1024 - 53)); [done|lia].
Qed.

Lemma iter_xO p d : Z.pos (Pos.iter xO p d) = Z.pos p * 2 ^ Z.pos d.
Proof.
  revert p. induction d as [|d IH] using Pos.peano_ind; intros p; [cbn; lia|].
  rewrite Pos.iter_succ, (Pos2Z.inj_xO (Pos.iter xO p d)), IH, Pos2Z.inj_succ, Z.pow_succ_r by lia. ring.
Qed.

(** An integer [v] in units of [2^-j] is rounded to itself. *)
Lemma round_int s v j :
  0 < v < 2 ^ 53 -> 0 <= j <= 1000 ->
  binary_round 53 1024 s (Z.to_pos (v * 2 ^ j)) (- j) = exact s v.
Proof.
  intros Hv Hj. destruct (ndigits_bound v ltac:(lia)) as [Hd1 Hd2].
  pose proof (ndigits_le v 53 Hv ltac:(lia)) as Hd53.
  pose proof (Z.pow_pos_nonneg 2 j ltac:(lia) ltac:(lia)).
  assert (Hm : 0 < v * 2 ^ j) by nia.
  unfold binary_round. set (mx := Z.to_pos (v * 2 ^ j)).
  assert (Hmx : Z.pos mx = v * 2 ^ j) by (apply Z2Pos.id; lia).
  assert (Hdg : Z.pos (digits2_pos mx) = ndigits v + j)
    by (rewrite <- (ndigits_shift v j), <- Hmx by lia; done).
  unfold fexp, SpecFloat.emin. rewrite Hdg.
  replace (Z.max (ndigits v + j + - j - 53) (3 - 1024 - 53)) with (ndigits v - 53) by lia.
  set (w := v * 2 ^ (53 - ndigits v)).
  pose proof (Z.pow_pos_nonneg 2 (53 - ndigits v) ltac:(lia) ltac:(lia)).
  assert (Hw : 0 < w) by (unfold w; nia).
  assert (Hwd : ndigits w = 53) by (unfold w; rewrite ndigits_shift by lia; lia).
  assert (Hround : forall mz ez k, 0 <= k -> Z.pos mz = w * 2 ^ k -> ez + k = ndigits v - 53 ->
    binary_round_aux 53 1024 s (Z.pos mz) ez loc_Exact = exact s v).
  { intros mz ez k Hk -> He. rewrite round_aux_exact by (done || lia). by rewrite He. }
  unfold shl_align. destruct (ndigits v - 53 - - j) as [|p|p] eqn:E.
  - apply (Hround _ _ 0); [lia| |lia]. rewrite Hmx. unfold w.
    replace (53 - ndigits v) with j by lia. lia.
  - apply (Hround _ _ (Z.pos p)); [lia| |lia]. rewrite Hmx. unfold w.
    rewrite <- Z.mul_assoc, <- Z.pow_add_r by lia. f_equal. f_equal. lia.
  - apply (Hround _ _ 0); [lia| |lia]. rewrite iter_xO, Hmx. unfold w.
    rewrite <- Z.mul_assoc, <- Z.pow_add_r by lia. rewrite Z.mul_1_r. f_equal. f_equal. lia.
Qed.

(** Integers whose double is exact. *)
Definition small (z : Z) : Prop := Z.abs z < 2 ^ 53.

Lemma normalize_int z j : small z -> 0 <= j <= 1000 ->
  binary_normalize 53 1024 (z * 2 ^ j) (- j) false = dbl z.
Proof.
  intros Hz Hj. unfold small in Hz.
  pose proof (Z.pow_pos_nonneg 2 j ltac:(lia) ltac:(lia)).
  assert (Hpos : forall s p, Z.pos p < 2 ^ 53 ->
    binary_round 53 1024 s (Z.to_pos (Z.pos p * 2 ^ j)) (- j) = binary_round 53 1024 s p 0).
  { intros s p Hp. rewrite (round_int s (Z.pos p) j) by lia.
    rewrite <- (round_int s (Z.pos p) 0) by lia. by rewrite Z.mul_1_r. }
  destruct z as [|p|p]; [done|..]; unfold dbl; cbn [binary_normalize].
  - rewrite <- (Hpos false p) by lia. destruct (Z.pos p * 2 ^ j) eqn:E; [lia|done|lia].
  - rewrite <- (Hpos true p) by lia. replace (Z.neg p * 2 ^ j) with (- (Z.pos p * 2 ^ j)) by lia.
    destruct (Z.pos p * 2 ^ j) eqn:E; [lia|done|lia].
Qed.

Lemma dbl_exact z : z <> 0 -> small z -> dbl z = exact (z <? 0) (Z.abs z).
Proof.
  intros Hz Hs. unfold small in Hs. destruct z as [|p|p]; [done|..]; unfold dbl; cbn [binary_normalize].
  - pose proof (round_int false (Z.pos p) 0) as R. rewrite Z.mul_1_r in R. apply R; lia.
  - pose proof (round_int true (Z.pos p) 0) as R. rewrite Z.mul_1_r in R. apply R; lia.
Qed.

Lemma dbl_mul a b :
  a <> 0 -> b <> 0 -> small a -> small b -> small (a * b) -> dmul (dbl a) (dbl b) = dbl (a * b).
Proof.
  unfold small. intros Ha Hb Hsa Hsb Hsab. rewrite !dbl_exact by (done || unfold small; lia). unfold dmul, exact.
  cbn [SFmul]. set (x := Z.abs a). set (y := Z.abs b).
  replace (Z.abs (a * b)) with (x * y) by (unfold x, y; by rewrite Z.abs_mul).
  replace (xorb (a <? 0) (b <? 0)) with (a * b <? 0)
    by (destruct (Z.ltb_spec a 0), (Z.ltb_spec b 0), (Z.ltb_spec (a * b) 0); cbn; nia).
  assert (Hx : 0 < x < 2 ^ 53) by lia. assert (Hy : 0 < y < 2 ^ 53) by lia.
  assert (Hxy : 0 < x * y < 2 ^ 53) by (unfold x, y; rewrite <- Z.abs_mul; lia).
  pose proof (ndigits_bound x ltac:(lia)) as [Hx1 Hx2].
  pose proof (ndigits_bound y ltac:(lia)) as [Hy1 Hy2].
  pose proof (ndigits_bound (x * y) ltac:(lia)) as [Hxy1 Hxy2].
  pose proof (ndigits_le x 53 Hx ltac:(lia)). pose proof (ndigits_le y 53 Hy ltac:(lia)).
  pose proof (ndigits_le (x * y) 53 Hxy ltac:(lia)).
  assert (Hge : ndigits x + ndigits y - 1 <= ndigits (x * y)).
  { destruct (Z.ltb_spec (ndigits (x * y)) (ndigits x + ndigits y - 1)); [|lia].
    pose proof (Z.pow_le_mono_r 2 (ndigits (x * y)) (ndigits x - 1 + (ndigits y - 1))
      ltac:(lia) ltac:(lia)) as Hp. rewrite Z.pow_add_r in Hp by lia. nia. }
  pose proof (Z.pow_pos_nonneg 2 (53 - ndigits x) ltac:(lia) ltac:(lia)).
  pose proof (Z.pow_pos_nonneg 2 (53 - ndigits y) ltac:(lia) ltac:(lia)).
  pose proof (Z.pow_pos_nonneg 2 (53 - ndigits (x * y)) ltac:(lia) ltac:(lia)).
  set (k := 53 - ndigits x - ndigits y + ndigits (x * y)).
  rewrite Pos2Z.inj_mul, !Z2Pos.id by nia.
  replace (x * 2 ^ (53 - ndigits x) * (y * 2 ^ (53 - ndigits y))) with
    (x * y * 2 ^ (53 - ndigits (x * y)) * 2 ^ k).
  - rewrite round_aux_exact; [|nia|rewrite ndigits_shift by lia; lia|unfold k; lia..].
    f_equal. unfold k. lia.
  - rewrite <- !Z.mul_assoc, <- Z.pow_add_r by (unfold k; lia). f_equal.
    rewrite (Z.mul_comm (2 ^ (53 - ndigits x))), <- !Z.mul_assoc, <- Z.pow_add_r by lia.
    f_equal. f_equal. unfold k. lia.
Qed.

(** Both arguments of an addition in units of the smaller exponent. *)
Lemma align_exact v s j :
  0 < v < 2 ^ 53 -> ndigits v - 53 >= - j ->
  cond_Zopp s (Z.pos (fst (shl_align (Z.to_pos (v * 2 ^ (53 - ndigits v))) (ndigits v - 53) (- j)))) =
  (if s then - v else v) * 2 ^ j.
Proof.
  intros Hv Hj. pose proof (ndigits_le v 53 Hv ltac:(lia)).
  pose proof (Z.pow_pos_nonneg 2 (53 - ndigits v) ltac:(lia) ltac:(lia)).
  assert (E : Z.pos (fst (shl_align (Z.to_pos (v * 2 ^ (53 - ndigits v))) (ndigits v - 53) (- j))) =
              v * 2 ^ j).
  { unfold shl_align. destruct (- j - (ndigits v - 53)) as [|p|p] eqn:E; cbn [fst].
    - rewrite Z2Pos.id by nia. f_equal. f_equal. lia.
    - lia.
    - rewrite iter_xO, Z2Pos.id by nia. rewrite <- Z.mul_assoc, <- Z.pow_add_r by lia.
      f_equal. f_equal. lia. }
  unfold cond_Zopp. rewrite E. destruct s; lia.
Qed.

Lemma exact_sign z : (if z <? 0 then - Z.abs z else Z.abs z) = z.
Proof. destruct (Z.ltb_spec z 0); lia. Qed.

(** The two mantissas of [dbl a] and [dbl b], in a common unit. *)
Lemma align_pair a b :
  a <> 0 -> b <> 0 -> small a -> small b ->
  exists j, 0 <= j <= 1000 /\
    Z.min (ndigits (Z.abs a) - 53) (ndigits (Z.abs b) - 53) = - j /\
    forall z, z = a \/ z = b -> z <> 0 ->
      cond_Zopp (z <? 0) (Z.pos (fst (shl_align (Z.to_pos (Z.abs z * 2 ^ (53 - ndigits (Z.abs z))))
        (ndigits (Z.abs z) - 53) (- j)))) = z * 2 ^ j.
Proof.
  unfold small. intros Ha Hb Hsa Hsb.
  pose proof (ndigits_bound (Z.abs a) ltac:(lia)) as [? _].
  pose proof (ndigits_bound (Z.abs b) ltac:(lia)) as [? _].
  pose proof (ndigits_le (Z.abs a) 53 ltac:(lia) ltac:(lia)).
  pose proof (ndigits_le (Z.abs b) 53 ltac:(lia) ltac:(lia)).
  exists (- Z.min (ndigits (Z.abs a) - 53) (ndigits (Z.abs b) - 53)).
  split; [lia|]. split; [lia|]. intros z Hz Hz0.
  rewrite align_exact by (destruct Hz as [->| ->]; lia). by rewrite exact_sign.
Qed.

Lemma dbl_add a b : small a -> small b -> small (a + b) -> dadd (dbl a) (dbl b) = dbl (a + b).
Proof.
  intros Ha Hb Hab. destruct (decide (a = 0)) as [->|Ha0].
  { destruct (decide (b = 0)) as [->|Hb0]; [done|].
    change (0 + b) with b. by rewrite (dbl_exact b). }
  destruct (decide (b = 0)) as [->|Hb0]; [rewrite Z.add_0_r; by rewrite (dbl_exact a)|].
  destruct (align_pair a b Ha0 Hb0 Ha Hb) as (j & Hj & Hmin & Hz).
  rewrite (dbl_exact a), (dbl_exact b) by done. unfold dadd, exact. cbn [SFadd].
  rewrite Hmin, !Hz, <- Z.mul_add_distr_r by auto. by apply normalize_int.
Qed.

Lemma dbl_opp z : small z -> z <> 0 -> SFopp (dbl z) = dbl (- z).
Proof.
  unfold small. intros Hs Hz. rewrite !dbl_exact by (unfold small; lia). unfold exact. cbn [SFopp].
  rewrite Z.abs_opp. f_equal. destruct (Z.ltb_spec z 0), (Z.ltb_spec (- z) 0); cbn; lia.
Qed.

Lemma dbl_sub a b : small a -> small b -> small (a - b) -> dsub (dbl a) (dbl b) = dbl (a - b).
Proof.
  intros Ha Hb Hab. destruct (decide (a = 0)) as [->|Ha0].
  { destruct (decide (b = 0)) as [->|Hb0]; [done|].
    change (0 - b) with (- b). rewrite <- dbl_opp by done. by rewrite (dbl_exact b). }
  destruct (decide (b = 0)) as [->|Hb0]; [rewrite Z.sub_0_r; by rewrite (dbl_exact a)|].
  destruct (align_pair a b Ha0 Hb0 Ha Hb) as (j & Hj & Hmin & Hz).
  rewrite (dbl_exact a), (dbl_exact b) by done. unfold dsub, exact. cbn [SFsub].
  rewrite Hmin, !Hz, <- Z.mul_sub_distr_r by auto. by apply normalize_int.
Qed.

Lemma compare_exact s x y :
  0 < x < 2 ^ 53 -> 0 < y < 2 ^ 53 ->
  SFcompare (exact s x) (exact s y) = Some (if s then CompOpp (x ?= y) else x ?= y).
Proof.
  intros Hx Hy. pose proof (ndigits_bound x ltac:(lia)) as [Hx1 Hx2].
  pose proof (ndigits_bound y ltac:(lia)) as [Hy1 Hy2].
  pose proof (ndigits_le x 53 Hx ltac:(lia)). pose proof (ndigits_le y 53 Hy ltac:(lia)).
  pose proof (Z.pow_pos_nonneg 2 (53 - ndigits x) ltac:(lia) ltac:(lia)).
  pose proof (Z.pow_pos_nonneg 2 (53 - ndigits y) ltac:(lia) ltac:(lia)).
  assert (Hlt : forall u v, 0 < u -> ndigits u < ndigits v -> 2 ^ (ndigits v - 1) <= v -> u < v).
  { intros u v Hu Hd Hv. pose proof (ndigits_bound u Hu) as [_ ?].
    pose proof (Z.pow_le_mono_r 2 (ndigits u) (ndigits v - 1) ltac:(lia) ltac:(lia)). lia. }
  assert (E : match (ndigits x - 53 ?= ndigits y - 53) with
    | Lt => Lt | Gt => Gt
    | Eq => Pos.compare (Z.to_pos (x * 2 ^ (53 - ndigits x))) (Z.to_pos (y * 2 ^ (53 - ndigits y)))
    end = (x ?= y)).
  { destruct (Z.compare_spec (ndigits x - 53) (ndigits y - 53)) as [Heq|Hl|Hl].
    - change (Z.compare (Z.pos (Z.to_pos (x * 2 ^ (53 - ndigits x))))
        (Z.pos (Z.to_pos (y * 2 ^ (53 - ndigits y)))) = (x ?= y)).
      rewrite !Z2Pos.id by nia. replace (ndigits y) with (ndigits x) by lia.
      symmetry. apply Zmult_compare_compat_r. lia.
    - symmetry. apply Z.compare_lt_iff, Hlt; lia.
    - symmetry. apply Z.compare_gt_iff, Hlt; lia. }
  unfold exact. cbn [SFcompare]. rewrite <- E.
  destruct s, (ndigits x - 53 ?= ndigits y - 53); done.
Qed.

Lemma dbl_compare a b : small a -> small b -> SFcompare (dbl a) (dbl b) = Some (a ?= b).
Proof.
  unfold small. intros Ha Hb.
  destruct (decide (a = 0)) as [->|Ha0]; destruct (decide (b = 0)) as [->|Hb0]; [done|..];
    rewrite ?(dbl_exact a), ?(dbl_exact b) by done.
  - unfold exact. cbn [SFcompare dbl binary_normalize]. f_equal. by destruct b.
  - unfold exact. cbn [SFcompare dbl binary_normalize]. f_equal. by destruct a.
  - destruct (Z.ltb_spec a 0), (Z.ltb_spec b 0).
    + rewrite compare_exact by lia. f_equal. rewrite !Z.abs_neq, Z.compare_opp by lia.
      symmetry. apply Z.compare_antisym.
    + unfold exact. cbn [SFcompare]. f_equal. symmetry. apply Z.compare_lt_iff. lia.
    + unfold exact. cbn [SFcompare]. f_equal. symmetry. apply Z.compare_gt_iff. lia.
    + rewrite compare_exact by lia. by rewrite !Z.abs_eq by lia.
Qed.

Lemma dbl_leb a b : small a -> small b -> SFleb (dbl a) (dbl b) = (a <=? b).
Proof.
  intros Ha Hb. unfold SFleb. rewrite dbl_compare by done.
  unfold Z.leb. by destruct (a ?= b).
Qed.

Lemma dbl_eqb a b : small a -> small b -> SFeqb (dbl a) (dbl b) = (a =? b).
Proof.
  intros Ha Hb. unfold SFeqb. rewrite dbl_compare by done.
  rewrite Z.eqb_compare. by destruct (a ?= b).
Qed.

(** The conversion back. *)
Lemma to_int_dbl z : INT_MIN <= z <= INT_MAX -> to_int (dbl z) = z.
Proof.
  unfold INT_MIN, INT_MAX. intros Hz. destruct (decide (z = 0)) as [->|Hz0]; [done|].
  rewrite dbl_exact by (done || unfold small; lia). unfold exact. cbn [to_int].
  set (v := Z.abs z). assert (Hv : 0 < v < 2 ^ 53) by (unfold v; lia).
  pose proof (ndigits_le v 53 Hv ltac:(lia)).
  pose proof (Z.pow_pos_nonneg 2 (53 - ndigits v) ltac:(lia) ltac:(lia)).
  assert (E : trunc (z <? 0) (Z.to_pos (v * 2 ^ (53 - ndigits v))) (ndigits v - 53) = z).
  { unfold trunc. rewrite Z2Pos.id by nia. destruct (Z.leb_spec 0 (ndigits v - 53)).
    - replace (53 - ndigits v) with 0 by lia. replace (ndigits v - 53) with 0 by lia.
      rewrite Z.pow_0_r, !Z.mul_1_r. apply exact_sign.
    - replace (- (ndigits v - 53)) with (53 - ndigits v) by lia.
      rewrite Z.div_mul by lia. apply exact_sign. }
  rewrite E. unfold INT_MIN, INT_MAX.
  by rewrite (proj2 (Z.leb_le _ _)), (proj2 (Z.leb_le _ _)) by lia.
Qed.
