(* ===== verification/Json.v ===== *)
(** * Json: data and parser of [src/pipe_ser_clnt/cJSON.c]

    An item is a tree: its chain of children is a list, which is what the
    pointers of a freshly built item make. A pointer into a text is the rest of
    the text's buffer from there; a read behind the buffer, a write behind
    allocated memory and an overflow of [int] are failures of the program
    ([None] of [prog]). NULL is [None] of the value. The state is what [malloc]
    has been asked and [ep]. [pow10] is [pow(10.0, x)] of the C library, and
    [malloc_ok k] says whether the allocation with number [k] succeeds. *)
From S2P Require Import Prelude.
From S2P Require Import CString.
From S2P Require Import Double.
From Stdlib Require Import SpecFloat Ascii.

Open Scope C.

Definition cJSON_False : Z := 0.
Definition cJSON_True : Z := 1.
Definition cJSON_NULL : Z := 2.
Definition cJSON_Number : Z := 3.
Definition cJSON_String : Z := 4.
Definition cJSON_Array : Z := 5.
Definition cJSON_Object : Z := 6.

Inductive cJSON := Item {
  type_ : Z;
  valuestring : option chars;
  valueint : Z;
  valuedouble : double;
  string_ : option chars;
  child : list cJSON
}.

(** [memset(node,0,sizeof(cJSON))] *)
Definition zeroed : cJSON := Item 0 None 0 (S754_zero false) None [].

Record heap := Heap { allocs : nat; ep : option chars }.

Class CLibrary := { pow10 : double -> double; malloc_ok : nat -> bool }.

Definition QUOTE : ascii := chr 34.
Definition BACKSLASH : ascii := chr 92.
Definition isc (c : ascii) (n : Z) : bool := code c =? n.

Section Parser.
Context `{CLibrary}.

(** Does [malloc] give memory? *)
Definition cJSON_malloc : prog heap bool :=
  fun s => Some (malloc_ok (allocs s), Heap (S (allocs s)) (ep s)).

Definition set_ep (p : chars) : prog heap unit := fun s => Some (tt, Heap (allocs s) (Some p)).

(** [p[k]] *)
Definition at_ (p : chars) (k : nat) : prog heap ascii :=
  match p !! k with Some c => pret c | None => pfail end.

Definition cJSON_New_Item : prog heap (option cJSON) :=
  do ok <- cJSON_malloc; pret (if ok then Some zeroed else None).

(** ** Numbers *)

Definition digit_value (c : ascii) : double := dbl (code c - 48).

(** [do n=(n*10.0)+( *num++ - '0'); while ( *num>='0' && *num<='9')], where the
    first character is known to be a digit, and with [scale--]. *)
Fixpoint read_digits (n scale : double) (down : double) (num : chars)
  : option (double * double * chars) :=
  match num with
  | [] => None
  | c :: r =>
      if isdigit c then
        read_digits (dadd (dmul n (dbl 10)) (digit_value c)) (dsub scale down) down r
      else Some (n, scale, num)
  end.

Fixpoint read_exponent (subscale : Z) (num : chars) : option (Z * chars) :=
  match num with
  | [] => None
  | c :: r =>
      if isdigit c then
        let v := subscale * 10 + (code c - 48) in
        if v <=? INT_MAX then read_exponent v r else None
      else Some (subscale, num)
  end.

Definition lift {A} (o : option A) : prog heap A :=
  match o with Some a => pret a | None => pfail end.

Definition with_number (item : cJSON) (n : double) : cJSON :=
  Item cJSON_Number (valuestring item) (to_int n) n (string_ item) (child item).

(** [is zero], and [Number?] *)
Definition integer_part (num : chars) : prog heap (double * chars) :=
  do c <- at_ num 0;
  let num := if isc c 48 then drop 1 num else num in
  do c <- at_ num 0;
  if (49 <=? code c) && (code c <=? 57) then
    do r <- lift (read_digits (dbl 0) (dbl 0) (dbl 0) num);
    let '(n, _, num) := r in pret (n, num)
  else pret (dbl 0, num).

(** [Fractional part?]: [n], [scale] and the rest. *)
Definition fractional_part (n : double) (num : chars) : prog heap (double * double * chars) :=
  do c <- at_ num 0;
  if isc c 46 then
    do c1 <- at_ num 1;
    if isdigit c1 then lift (read_digits n (dbl 0) (dbl 1) (drop 1 num))
    else pret (n, dbl 0, num)
  else pret (n, dbl 0, num).

(** [Exponent?]: [subscale*signsubscale] and the rest. *)
Definition exponent_part (num : chars) : prog heap (Z * chars) :=
  do c <- at_ num 0;
  if isc c 101 || isc c 69 then
    do c <- at_ num 1;
    let '(signsubscale, num) :=
      if isc c 43 then (1, drop 2 num) else if isc c 45 then (-1, drop 2 num)
      else (1, drop 1 num) in
    do e <- lift (read_exponent 0 num);
    let '(subscale, num) := e in pret (subscale * signsubscale, num)
  else pret (0, num).

Definition parse_number (item : cJSON) (num : chars) : prog heap (cJSON * chars) :=
  do c <- at_ num 0;
  let '(sign, num) := if isc c 45 then (dbl (-1), drop 1 num) else (dbl 1, num) in
  do r <- integer_part num;
  let '(n, num) := r in
  do r <- fractional_part n num;
  let '(n, scale, num) := r in
  do r <- exponent_part num;
  let '(e, num) := r in
  let n := dmul (dmul sign n) (pow10 (dadd scale (dbl e))) in
  pret (with_number item n, num).

(** ** Strings *)

(** A hexadecimal digit. *)
Definition hex (c : ascii) : option Z :=
  let c := code c in
  if (48 <=? c) && (c <=? 57) then Some (c - 48)
  else if (65 <=? c) && (c <=? 70) then Some (10 + c - 65)
  else if (97 <=? c) && (c <=? 102) then Some (10 + c - 97)
  else None.

(** The four digits from [str] on: the function stops at the first character
    that is none. *)
Fixpoint hex_digits (n : nat) (h : Z) (str : chars) : prog heap Z :=
  match n with
  | O => pret h
  | S n =>
      do c <- at_ str 0;
      match hex c with
      | Some d => hex_digits n (Z.shiftl h 4 + d) (drop 1 str)
      | None => pret 0
      end
  end.

Definition parse_hex4 (str : chars) : prog heap Z := hex_digits 4 0 str.

Definition firstByteMark : list Z := [0x00; 0x00; 0xC0; 0xE0; 0xF0; 0xF8; 0xFC].

(** The bytes the [switch (len)] writes, the first one last. *)
Fixpoint utf8_tail (n : nat) (uc : Z) (out : list Z) : Z * list Z :=
  match n with
  | O => (uc, out)
  | S n => utf8_tail n (Z.shiftr uc 6) (Z.land (Z.lor uc 0x80) 0xBF :: out)
  end.

Definition utf8 (uc : Z) : chars :=
  let len := if uc <? 0x80 then 1%nat else if uc <? 0x800 then 2%nat
             else if uc <? 0x10000 then 3%nat else 4%nat in
  let '(uc, out) := utf8_tail (len - 1) uc [] in
  (fun b => chr (Z.to_nat (u8 b))) <$> (Z.lor uc (firstByteMark !!! len) :: out).

(** The loop that counts up to the quote, with two characters for an escape. *)
Fixpoint scan (ptr : chars) (len : nat) : option nat :=
  match ptr with
  | [] => None
  | c :: r =>
      if isc c 34 || isc c 0 then Some len
      else if isc c 92 then match r with [] => None | _ :: r => scan r (S len) end
      else scan r (S len)
  end.

(** Bytes written at the end of what is in [out]. *)
Definition emit (size : nat) (out bs : chars) : prog heap chars :=
  if (length out + length bs <=? size)%nat then pret (out ++ bs) else pfail.

(** [case 'u'], with [ptr] at the letter: the bytes, and [ptr] at the break. *)
Definition unicode (ptr : chars) : prog heap (chars * chars) :=
  do uc <- parse_hex4 (drop 1 ptr);
  let ptr := drop 4 ptr in
  if (0xDC00 <=? uc) && (uc <=? 0xDFFF) || (uc =? 0) then pret ([], ptr)
  else if (0xD800 <=? uc) && (uc <=? 0xDBFF) then
    do c1 <- at_ ptr 1;
    if negb (isc c1 92) then pret ([], ptr)
    else
      do c2 <- at_ ptr 2;
      if negb (isc c2 117) then pret ([], ptr)
      else
        do uc2 <- parse_hex4 (drop 3 ptr);
        let ptr := drop 6 ptr in
        if (uc2 <? 0xDC00) || (0xDFFF <? uc2) then pret ([], ptr)
        else
          pret (utf8 (0x10000 + Z.lor (Z.shiftl (Z.land uc 0x3FF) 10) (Z.land uc2 0x3FF)), ptr)
  else pret (utf8 uc, ptr).

(** The character an escape of one letter stands for. *)
Definition unescape (c : ascii) : ascii :=
  if isc c 98 then chr 8 else if isc c 102 then chr 12 else if isc c 110 then chr 10
  else if isc c 114 then chr 13 else if isc c 116 then chr 9 else c.

(** The copying loop, into [size] bytes. *)
Fixpoint decode (fuel size : nat) (ptr out : chars) : prog heap (chars * chars) :=
  match fuel with
  | O => pfail
  | S fuel =>
      do c <- at_ ptr 0;
      if isc c 34 || isc c 0 then pret (out, ptr)
      else if negb (isc c 92) then
        do out <- emit size out [c]; decode fuel size (drop 1 ptr) out
      else
        let ptr := drop 1 ptr in
        do c <- at_ ptr 0;
        if isc c 117 then
          do r <- unicode ptr;
          let '(bs, ptr) := r in
          do out <- emit size out bs; decode fuel size (drop 1 ptr) out
        else
          do out <- emit size out [unescape c]; decode fuel size (drop 1 ptr) out
  end.

Definition with_string (item : cJSON) (out : chars) : cJSON :=
  Item cJSON_String (Some out) (valueint item) (valuedouble item) (string_ item) (child item).

(** The string is what stands before the first NUL of the bytes written. *)
Definition c_string (out : chars) : chars := (span (fun c => negb (isc c 0)) out).1.

Definition parse_string (item : cJSON) (str : chars) : prog heap (option (cJSON * chars)) :=
  do c <- at_ str 0;
  if negb (isc c 34) then set_ep str ;;; pret None
  else
    let ptr := drop 1 str in
    do len <- lift (scan ptr 0);
    do ok <- cJSON_malloc;
    if negb ok then pret None
    else
      do r <- decode (S (length ptr)) (len + 1) ptr [];
      let '(out, ptr) := r in
      do out <- emit (len + 1) out [NUL];
      do c <- at_ ptr 0;
      pret (Some (with_string item (c_string out), if isc c 34 then drop 1 ptr else ptr)).

(** ** Values *)

(** [while (in && *in && (unsigned char)*in<=32) in++;] *)
Fixpoint skip (p : chars) : option chars :=
  match p with
  | [] => None
  | c :: r => if negb (isc c 0) && (code c <=? 32) then skip r else Some p
  end.

(** [skip] of what a parsing function returned. *)
Definition skip_result (r : option (cJSON * chars)) : prog heap (option (cJSON * chars)) :=
  match r with
  | None => pret None
  | Some (item, p) => do p <- lift (skip p); pret (Some (item, p))
  end.

(** [!strncmp(value, w, strlen(w))]; [None] where the comparison runs off the
    buffer. *)
Fixpoint strncmp (w value : chars) : option bool :=
  match w, value with
  | [], _ => Some true
  | _ :: _, [] => None
  | a :: w, b :: value =>
      if negb (bool_decide (a = b)) then Some false
      else strncmp w value
  end.

Definition with_type (t : Z) (item : cJSON) : cJSON :=
  Item t (valuestring item) (valueint item) (valuedouble item) (string_ item) (child item).
Definition with_int (v : Z) (item : cJSON) : cJSON :=
  Item (type_ item) (valuestring item) v (valuedouble item) (string_ item) (child item).
Definition with_child (l : list cJSON) (item : cJSON) : cJSON :=
  Item (type_ item) (valuestring item) (valueint item) (valuedouble item) (string_ item) l.

(** [child->string=child->valuestring;child->valuestring=0;] *)
Definition name_from_value (item : cJSON) : cJSON :=
  Item (type_ item) None (valueint item) (valuedouble item) (valuestring item) (child item).

Section Containers.
Variable parse_value : cJSON -> chars -> prog heap (option (cJSON * chars)).

(** A new item, and its value behind [value]. *)
Definition parse_element (value : chars) : prog heap (option (cJSON * chars)) :=
  do new <- cJSON_New_Item;
  match new with
  | None => pret None
  | Some item =>
      do value <- lift (skip value);
      do r <- parse_value item value;
      skip_result r
  end.

(** A new item with its name and its value. *)
Definition parse_member (value : chars) : prog heap (option (cJSON * chars)) :=
  do new <- cJSON_New_Item;
  match new with
  | None => pret None
  | Some item =>
      do value <- lift (skip value);
      do r <- parse_string item value;
      do r <- skip_result r;
      match r with
      | None => pret None
      | Some (item, value) =>
          let item := name_from_value item in
          do c <- at_ value 0;
          if negb (isc c 58) then set_ep value ;;; pret None
          else
            do value <- lift (skip (drop 1 value));
            do r <- parse_value item value;
            skip_result r
      end
  end.

(** The first element is behind, [while ( *value==',')] runs; [stop] closes. *)
Fixpoint parse_more (fuel : nat) (element : chars -> prog heap (option (cJSON * chars)))
    (stop : Z) (item : cJSON) (children : list cJSON) (value : chars)
  : prog heap (option (cJSON * chars)) :=
  match fuel with
  | O => pfail
  | S fuel =>
      do c <- at_ value 0;
      if isc c 44 then
        do r <- element (drop 1 value);
        match r with
        | None => pret None
        | Some (new_item, value) =>
            parse_more fuel element stop item (children ++ [new_item]) value
        end
      else if isc c stop then pret (Some (with_child children item, drop 1 value))
      else set_ep value ;;; pret None
  end.

(** [parse_array] and [parse_object], which differ in their elements. *)
Definition parse_container (element : chars -> prog heap (option (cJSON * chars)))
    (t start stop : Z) (item : cJSON) (value : chars) : prog heap (option (cJSON * chars)) :=
  do c <- at_ value 0;
  if negb (isc c start) then set_ep value ;;; pret None
  else
    let item := with_type t item in
    do value <- lift (skip (drop 1 value));
    do c <- at_ value 0;
    if isc c stop then pret (Some (item, drop 1 value))
    else
      do r <- element value;
      match r with
      | None => pret None
      | Some (child, value) =>
          parse_more (S (length value)) element stop item [child] value
      end.

Definition parse_array : cJSON -> chars -> prog heap (option (cJSON * chars)) :=
  parse_container parse_element cJSON_Array 91 93.

Definition parse_object : cJSON -> chars -> prog heap (option (cJSON * chars)) :=
  parse_container parse_member cJSON_Object 123 125.

End Containers.

(** [fuel] bounds the depth of the recursion. *)
Fixpoint parse_value (fuel : nat) (item : cJSON) (value : chars)
  : prog heap (option (cJSON * chars)) :=
  match fuel with
  | O => pfail
  | S fuel =>
      do b <- lift (strncmp (lit "null") value);
      if (b : bool) then pret (Some (with_type cJSON_NULL item, drop 4 value))
      else
        do b <- lift (strncmp (lit "false") value);
        if (b : bool) then pret (Some (with_type cJSON_False item, drop 5 value))
        else
          do b <- lift (strncmp (lit "true") value);
          if (b : bool) then
            pret (Some (with_int 1 (with_type cJSON_True item), drop 4 value))
          else
            do c <- at_ value 0;
            if isc c 34 then parse_string item value
            else if isc c 45 || isdigit c then
              do r <- parse_number item value; pret (Some r)
            else if isc c 91 then parse_array (parse_value fuel) item value
            else if isc c 123 then parse_object (parse_value fuel) item value
            else set_ep value ;;; pret None
  end.

(** The item and [*return_parse_end]; a text nests less deep than it is long. *)
Definition cJSON_ParseWithOpts (value : chars) (require_null_terminated : bool)
  : prog heap (option (cJSON * chars)) :=
  do c <- cJSON_New_Item;
  (fun s => Some (tt, Heap (allocs s) None)) ;;;
  match c with
  | None => pret None
  | Some c =>
      do v <- lift (skip value);
      do r <- parse_value (S (length v)) c v;
      match r with
      | None => pret None
      | Some (c, end_) =>
          if require_null_terminated then
            do e <- lift (skip end_);
            do z <- at_ e 0;
            if negb (isc z 0) then set_ep e ;;; pret None else pret (Some (c, e))
          else pret (Some (c, end_))
      end
  end.

Definition cJSON_Parse (value : chars) : prog heap (option cJSON) :=
  do r <- cJSON_ParseWithOpts value false;
  pret (match r with Some (c, _) => Some c | None => None end).

End Parser.
