(* ===== verification/JsonPrint.v ===== *)
(** * JsonPrint: printing and building items, [src/pipe_ser_clnt/cJSON.c]

    Printing without a buffer of the caller's ([p] is 0; [JsonBuffer] has the
    other case), the functions that look items up and build them, and
    [cJSON_Minify]. A text that does not fit
    the memory asked for it is a failure. *)
From S2P Require Import Prelude.
From S2P Require Import CString.
From S2P Require Import Double.
From S2P Require Import Json.
From Stdlib Require Import SpecFloat Ascii.

Open Scope C.

Section Printer.
Context `{CLibrary}.

(** Memory for [size] bytes, and the text with its terminator written to it. *)
Definition write_new (size : nat) (text : chars) : prog heap (option chars) :=
  do ok <- cJSON_malloc;
  if (ok : bool) then emit size [] (text ++ [NUL]) ;;; pret (Some text) else pret None.

Definition cJSON_strdup (str : chars) : prog heap (option chars) :=
  write_new (length str + 1) str.

(** The memory asked for a number, and its text. *)
Definition number_text (item : cJSON) : nat * chars :=
  let d := valuedouble item in
  let small x := SFleb (SFabs x) DBL_EPSILON in
  if SFeqb d (dbl 0) then (2%nat, lit "0")
  else if small (dsub (dbl (valueint item)) d) && SFleb d (dbl INT_MAX) && SFleb (dbl INT_MIN) d
  then (21%nat, print_int (valueint item))
  else
    (64%nat,
     if small (dsub (dfloor d) d) && SFltb (SFabs d) (dbl (10 ^ 60)) then print_0f d
     else if SFltb (SFabs d) (dconst 1 6) || SFltb (dbl (10 ^ 9)) (SFabs d) then print_e d
     else print_f d).

Definition print_number (item : cJSON) : prog heap (option chars) :=
  let '(size, text) := number_text item in write_new size text.

(** Is the character written behind a backslash? *)
Definition escaped (c : ascii) : bool := (code c <? 32) || isc c 34 || isc c 92.

Definition hex_char (d : Z) : ascii := chr (Z.to_nat (if d <? 10 then 48 + d else 87 + d)).

(** [%04x] for a byte. *)
Definition hex4 (c : ascii) : chars :=
  [chr 48; chr 48; hex_char (code c / 16); hex_char (code c mod 16)].

Definition escape (c : ascii) : chars :=
  if negb (escaped c) then [c]
  else
    BACKSLASH ::
    (if isc c 92 then [c] else if isc c 34 then [c] else if isc c 8 then [chr 98]
     else if isc c 12 then [chr 102] else if isc c 10 then [chr 110]
     else if isc c 13 then [chr 114] else if isc c 9 then [chr 116]
     else chr 117 :: hex4 c).

(** What the loop adds to [len] for a character. *)
Definition escape_room (c : ascii) : nat :=
  if isc c 34 || isc c 92 || isc c 8 || isc c 12 || isc c 10 || isc c 13 || isc c 9 then 2
  else if code c <? 32 then 6 else 1.

Definition quoted (str : chars) : chars := [QUOTE] ++ concat (escape <$> str) ++ [QUOTE].

(** The memory asked for a string, and its text. *)
Definition string_text (str : chars) : nat * chars :=
  if negb (existsb escaped str) then ((length str + 3)%nat, [QUOTE] ++ str ++ [QUOTE])
  else ((sum_list (escape_room <$> str) + 3)%nat, quoted str).

(** The first loop reads the string before the test for NULL. *)
Definition print_string_ptr (str : option chars) : prog heap (option chars) :=
  match str with
  | None => pfail
  | Some str => let '(size, text) := string_text str in write_new size text
  end.

Definition print_string (item : cJSON) : prog heap (option chars) :=
  print_string_ptr (valuestring item).

Section Containers.
Variable print_value : cJSON -> nat -> bool -> prog heap (option chars).

(** [while (child && !fail)]: the texts and what they add to [len], or [fail]. *)
Fixpoint print_entries (l : list cJSON) (depth : nat) (fmt : bool)
  : prog heap (option (list chars * nat)) :=
  match l with
  | [] => pret (Some ([], 0%nat))
  | item :: l =>
      do ret <- print_value item depth fmt;
      match ret with
      | None => pret None
      | Some ret =>
          do rest <- print_entries l depth fmt;
          pret (match rest with
                | Some (entries, len) =>
                    Some (ret :: entries, (length ret + 2 + (if fmt then 1 else 0) + len)%nat)
                | None => None
                end)
      end
  end.

Definition separator (fmt : bool) : chars := if fmt then lit ", " else lit ",".

Fixpoint join (sep : chars) (entries : list chars) : chars :=
  match entries with
  | [] => []
  | [e] => e
  | e :: entries => e ++ sep ++ join sep entries
  end.

Definition print_array (item : cJSON) (depth : nat) (fmt : bool) : prog heap (option chars) :=
  match child item with
  | [] => write_new 3 (lit "[]")
  | l =>
      do ok <- cJSON_malloc;
      if negb ok then pret None
      else
        do r <- print_entries l (depth + 1) fmt;
        match r with
        | None => pret None
        | Some (entries, len) =>
            write_new (5 + len) (lit "[" ++ join (separator fmt) entries ++ lit "]")
        end
  end.

(** [while (child)]: all names and values are printed, [fail] or not. *)
Fixpoint print_members (l : list cJSON) (depth : nat) (fmt : bool)
  : prog heap (option (list (chars * chars) * nat)) :=
  match l with
  | [] => pret (Some ([], 0%nat))
  | item :: l =>
      do str <- print_string_ptr (string_ item);
      do ret <- print_value item depth fmt;
      do rest <- print_members l depth fmt;
      pret (match str, ret, rest with
            | Some str, Some ret, Some (entries, len) =>
                Some ((str, ret) :: entries,
                      (length ret + length str + 2 + (if fmt then 2 + depth else 0) + len)%nat)
            | _, _, _ => None
            end)
  end.

Definition tabs (n : nat) : chars := replicate n (chr 9).
Definition when (fmt : bool) (s : chars) : chars := if fmt then s else [].

(** The lines of the members; [depth] is that of the members. *)
Fixpoint compose (depth : nat) (fmt : bool) (entries : list (chars * chars)) : chars :=
  match entries with
  | [] => []
  | (name, entry) :: entries =>
      when fmt (tabs depth) ++ name ++ lit ":" ++ when fmt (tabs 1) ++ entry ++
      (match entries with [] => [] | _ => lit "," end) ++ when fmt [LF] ++
      compose depth fmt entries
  end.

Definition print_object (item : cJSON) (depth : nat) (fmt : bool) : prog heap (option chars) :=
  match child item with
  | [] =>
      write_new (if fmt then depth + 4 else 3)
        (lit "{" ++ when fmt (LF :: tabs (depth - 1)) ++ lit "}")
  | l =>
      do ok <- cJSON_malloc;
      if negb ok then pret None
      else
        do ok <- cJSON_malloc;
        if negb ok then pret None
        else
          let depth := (depth + 1)%nat in
          do r <- print_members l depth fmt;
          match r with
          | None => pret None
          | Some (entries, len) =>
              write_new (7 + (if fmt then depth else 0) + len)
                (lit "{" ++ when fmt [LF] ++ compose depth fmt entries ++
                 when fmt (tabs (depth - 1)) ++ lit "}")
          end
  end.

End Containers.

Fixpoint print_value (item : cJSON) (depth : nat) (fmt : bool) : prog heap (option chars) :=
  let t := Z.land (type_ item) 255 in
  if t =? cJSON_NULL then cJSON_strdup (lit "null")
  else if t =? cJSON_False then cJSON_strdup (lit "false")
  else if t =? cJSON_True then cJSON_strdup (lit "true")
  else if t =? cJSON_Number then print_number item
  else if t =? cJSON_String then print_string item
  else if t =? cJSON_Array then print_array print_value item depth fmt
  else if t =? cJSON_Object then print_object print_value item depth fmt
  else pret None.

Definition cJSON_Print (item : cJSON) : prog heap (option chars) := print_value item 0 true.
Definition cJSON_PrintUnformatted (item : cJSON) : prog heap (option chars) :=
  print_value item 0 false.

(** ** Looking up *)

(** [tolower] in the C locale. *)
Definition tolower (c : ascii) : Z := if (65 <=? code c) && (code c <=? 90) then code c + 32 else code c.

(** 0 when the strings are equal but for the case of letters. *)
Fixpoint casecmp (s1 s2 : chars) : Z :=
  match s1, s2 with
  | [], [] => 0
  | a :: s1, b :: s2 => if tolower a =? tolower b then casecmp s1 s2 else tolower a - tolower b
  | a :: _, [] => tolower a
  | [], b :: _ => - tolower b
  end.

Definition cJSON_strcasecmp (s1 : option chars) (s2 : chars) : Z :=
  match s1 with None => 1 | Some s1 => casecmp s1 s2 end.

Definition cJSON_GetArraySize (array : cJSON) : Z := Z.of_nat (length (child array)).

Definition cJSON_GetArrayItem (array : cJSON) (item : Z) : option cJSON :=
  child array !! Z.to_nat item.

Definition cJSON_GetObjectItem (object : cJSON) (string : chars) : option cJSON :=
  List.find (fun c => cJSON_strcasecmp (string_ c) string =? 0) (child object).

(** ** Building *)

Definition create (f : cJSON -> cJSON) : prog heap (option cJSON) :=
  do item <- cJSON_New_Item; pret (f <$> item).

Definition cJSON_CreateNull : prog heap (option cJSON) := create (with_type cJSON_NULL).
Definition cJSON_CreateTrue : prog heap (option cJSON) := create (with_type cJSON_True).
Definition cJSON_CreateFalse : prog heap (option cJSON) := create (with_type cJSON_False).
Definition cJSON_CreateBool (b : bool) : prog heap (option cJSON) :=
  create (with_type (if b then cJSON_True else cJSON_False)).
Definition cJSON_CreateNumber (num : double) : prog heap (option cJSON) :=
  create (fun item => with_number item num).
Definition cJSON_CreateArray : prog heap (option cJSON) := create (with_type cJSON_Array).
Definition cJSON_CreateObject : prog heap (option cJSON) := create (with_type cJSON_Object).

Definition cJSON_CreateString (string : chars) : prog heap (option cJSON) :=
  do item <- cJSON_New_Item;
  match item with
  | None => pret None
  | Some item =>
      do copy <- cJSON_strdup string;
      pret (Some (Item cJSON_String copy (valueint item) (valuedouble item) (string_ item)
                    (child item)))
  end.

Definition with_name (name : option chars) (item : cJSON) : cJSON :=
  Item (type_ item) (valuestring item) (valueint item) (valuedouble item) name (child item).

Definition cJSON_AddItemToArray (array : cJSON) (item : option cJSON) : cJSON :=
  match item with None => array | Some item => with_child (child array ++ [item]) array end.

Definition cJSON_AddItemToObject (object : cJSON) (string : chars) (item : option cJSON)
  : prog heap cJSON :=
  match item with
  | None => pret object
  | Some item =>
      do name <- cJSON_strdup string;
      pret (cJSON_AddItemToArray object (Some (with_name name item)))
  end.

End Printer.

(** ** [cJSON_Minify]

    [into] never passes [json]: what is read has not been written. The result is
    the text written so far; [None]: a read behind the buffer. *)

(** [while ( *json && *json!='\n') json++;] *)
Fixpoint line_comment (json : chars) : option chars :=
  match json with
  | [] => None
  | c :: r => if isc c 0 || isc c 10 then Some json else line_comment r
  end.

(** [while ( *json && !( *json=='*' && json[1]=='/')) json++;] *)
Fixpoint block_comment (json : chars) : option chars :=
  match json with
  | [] => None
  | c :: r =>
      if isc c 0 then Some json
      else if isc c 42 then
        match r with
        | [] => None
        | d :: _ => if isc d 47 then Some json else block_comment r
        end
      else block_comment r
  end.

(** A string literal behind its first quote, with the last [*into++=*json++]. *)
Fixpoint literal (json : chars) : option (chars * chars) :=
  match json with
  | [] => None
  | c :: r =>
      if isc c 0 || isc c 34 then Some ([c], r)
      else if isc c 92 then
        match r with
        | [] => None
        | d :: r =>
            match literal r with Some (w, r) => Some (c :: d :: w, r) | None => None end
        end
      else match literal r with Some (w, r) => Some (c :: w, r) | None => None end
  end.

Fixpoint minify (fuel : nat) (json : chars) : option chars :=
  match fuel, json with
  | O, _ | _, [] => None
  | S fuel, c :: r =>
      let app w o := match o with Some t => Some (w ++ t) | None => None end in
      if isc c 0 then Some []
      else if isc c 32 || isc c 9 || isc c 13 || isc c 10 then minify fuel r
      else if isc c 34 then
        match literal r with
        | Some (w, r) => app (c :: w) (minify fuel r)
        | None => None
        end
      else if isc c 47 then
        match r with
        | [] => None
        | d :: _ =>
            if isc d 47 then match line_comment json with Some r => minify fuel r | None => None end
            else if isc d 42 then
              match block_comment json with Some r => minify fuel (drop 2 r) | None => None end
            else app [c] (minify fuel r)
        end
      else app [c] (minify fuel r)
  end.

Definition cJSON_Minify (json : chars) : option chars := minify (S (length json)) json.
