(* ===== verification/JsonSpec.v ===== *)
(** * JsonSpec: what cJSON.c prints

    The values a tree of items can stand for, their texts in both forms, the
    items that stand for them, induction over nested values, and the logic
    [gives] of programs that cannot fail. *)
From S2P Require Import Prelude.
From S2P Require Import CString.
From S2P Require Import Double.
From S2P Require Import Json.
From S2P Require Import JsonPrint.
From Stdlib Require Import SpecFloat Ascii.

Open Scope C.

(** JSON with the numbers that are C integers. *)
Inductive json :=
  | JNull
  | JBool (b : bool)
  | JNum (z : Z)
  | JStr (s : chars)
  | JArr (l : list json)
  | JObj (l : list (chars * json)).

(** ** Texts *)

Fixpoint render (fmt : bool) (depth : nat) (j : json) : chars :=
  match j with
  | JNull => lit "null"
  | JBool b => if b then lit "true" else lit "false"
  | JNum z => print_int z
  | JStr s => quoted s
  | JArr l => lit "[" ++ join (separator fmt) (map (render fmt (depth + 1)) l) ++ lit "]"
  | JObj [] => lit "{" ++ when fmt (LF :: tabs (depth - 1)) ++ lit "}"
  | JObj l =>
      lit "{" ++ when fmt [LF] ++
      compose (depth + 1) fmt (map (fun '(n, j) => (quoted n, render fmt (depth + 1) j)) l) ++
      when fmt (tabs depth) ++ lit "}"
  end.

(** ** Items *)

#[global] Instance double_eq_dec : EqDecision double.
Proof. solve_decision. Defined.

Definition no_nul (s : chars) : bool := forallb (fun c => negb (isc c 0)) s.

Definition is_int (z : Z) : bool := (INT_MIN <=? z) && (z <=? INT_MAX).

Fixpoint all_some {A} (l : list (option A)) : option (list A) :=
  match l with
  | [] => Some []
  | None :: _ => None
  | Some a :: l => match all_some l with Some r => Some (a :: r) | None => None end
  end.

(** A string of the C program. *)
Definition string_value (s : option chars) : option chars :=
  match s with Some s => if no_nul s then Some s else None | None => None end.

(** The value an item stands for. *)
Fixpoint value_of_item (item : cJSON) : option json :=
  let t := Z.land (type_ item) 255 in
  if t =? cJSON_NULL then Some JNull
  else if t =? cJSON_False then Some (JBool false)
  else if t =? cJSON_True then Some (JBool true)
  else if t =? cJSON_Number then
    if is_int (valueint item) && bool_decide (valuedouble item = dbl (valueint item))
    then Some (JNum (valueint item)) else None
  else if t =? cJSON_String then JStr <$> string_value (valuestring item)
  else if t =? cJSON_Array then JArr <$> all_some (map value_of_item (child item))
  else if t =? cJSON_Object then
    JObj <$> all_some (map (fun c =>
      match string_value (string_ c), value_of_item c with
      | Some n, Some j => Some (n, j)
      | _, _ => None
      end) (child item))
  else None.

(** The item the parser makes of a value. *)
Fixpoint item_of (name : option chars) (j : json) : cJSON :=
  let zero := S754_zero false in
  match j with
  | JNull => Item cJSON_NULL None 0 zero name []
  | JBool b => Item (if b then cJSON_True else cJSON_False) None (if b then 1 else 0) zero name []
  | JNum z => Item cJSON_Number None z (dbl z) name []
  | JStr s => Item cJSON_String (Some s) 0 zero name []
  | JArr l => Item cJSON_Array None 0 zero name (map (item_of None) l)
  | JObj l => Item cJSON_Object None 0 zero name (map (fun '(n, j) => item_of (Some n) j) l)
  end.

(** Integers in range and strings without NUL. *)
Fixpoint json_ok (j : json) : bool :=
  match j with
  | JNum z => is_int z
  | JStr s => no_nul s
  | JArr l => forallb json_ok l
  | JObj l => forallb (fun '(n, j) => no_nul n && json_ok j) l
  | _ => true
  end.

(** ** Induction *)

Section Induction.
Variable P : json -> Prop.
Hypothesis Hnull : P JNull.
Hypothesis Hbool : forall b, P (JBool b).
Hypothesis Hnum : forall z, P (JNum z).
Hypothesis Hstr : forall s, P (JStr s).
Hypothesis Harr : forall l, Forall P l -> P (JArr l).
Hypothesis Hobj : forall l, Forall (fun '(_, j) => P j) l -> P (JObj l).

Fixpoint json_nested_ind (j : json) : P j :=
  match j with
  | JNull => Hnull
  | JBool b => Hbool b
  | JNum z => Hnum z
  | JStr s => Hstr s
  | JArr l => Harr l ((fix go l : Forall P l :=
      match l with
      | [] => Forall_nil_2 P
      | j :: l => Forall_cons_2 P j l (json_nested_ind j) (go l)
      end) l)
  | JObj l => Hobj l ((fix go (l : list (chars * json)) : Forall (fun '(_, j) => P j) l :=
      match l with
      | [] => Forall_nil_2 (fun '(_, j) => P j)
      | (n, j) :: l => Forall_cons_2 (fun '(_, j) => P j) (n, j) l (json_nested_ind j) (go l)
      end) l)
  end.
End Induction.

Section ItemInduction.
Variable P : cJSON -> Prop.
Hypothesis Hitem : forall t s i d n l, Forall P l -> P (Item t s i d n l).

Fixpoint cJSON_nested_ind (item : cJSON) : P item :=
  match item with
  | Item t s i d n l => Hitem t s i d n l ((fix go l : Forall P l :=
      match l with
      | [] => Forall_nil_2 P
      | c :: l => Forall_cons_2 P c l (cJSON_nested_ind c) (go l)
      end) l)
  end.
End ItemInduction.

(** ** Results in every state of the heap *)

Definition gives {A} (m : prog heap A) (Q : A -> Prop) : Prop :=
  forall s, exists a s', m s = Some (a, s') /\ Q a.

Lemma gives_ret {A} (a : A) (Q : A -> Prop) : Q a -> gives (pret a) Q.
Proof. intros HQ s. by exists a, s. Qed.

Lemma gives_bind {A B} (m : prog heap A) (k : A -> prog heap B) R Q :
  gives m R -> (forall a, R a -> gives (k a) Q) -> gives (pbind m k) Q.
Proof.
  intros Hm Hk s. destruct (Hm s) as (a & s1 & E & HR). destruct (Hk a HR s1) as (b & s2 & E2 & HQ).
  exists b, s2. split; [|done]. unfold pbind. by rewrite E.
Qed.

Lemma gives_conseq {A} (m : prog heap A) (R Q : A -> Prop) :
  gives m R -> (forall a, R a -> Q a) -> gives m Q.
Proof. intros Hm HQ s. destruct (Hm s) as (a & s' & E & HR). exists a, s'. auto. Qed.

(** A step with a known result. *)
Lemma gives_step {A B} (m : prog heap A) (k : A -> prog heap B) a Q :
  gives m (eq a) -> gives (k a) Q -> gives (pbind m k) Q.
Proof. intros Hm Hk. apply (gives_bind m k (eq a)); [done|]. by intros b <-. Qed.
