(* ===== verification/JsonPrintFacts.v ===== *)
(** * JsonPrintFacts: printing gives the text of the value

    For every item that stands for a value the memory asked for is enough, and
    the text written is [render]'s. *)
From S2P Require Import Prelude.
From S2P Require Import CString.
From S2P Require Import Double.
From S2P Require Import Json.
From S2P Require Import JsonPrint.
From S2P Require Import JsonSpec.
From Stdlib Require Import SpecFloat Ascii.

Open Scope C.

Lemma is_int_range z : is_int z = true -> INT_MIN <= z <= INT_MAX.
Proof. unfold is_int. lia. Qed.

Lemma int_small z : INT_MIN <= z <= INT_MAX -> small z.
Proof. unfold INT_MIN, INT_MAX, small. lia. Qed.

Lemma length_print_int z : is_int z = true -> (length (print_int z) <= 11)%nat.
Proof.
  intros Hz%is_int_range. unfold INT_MIN, INT_MAX in Hz. unfold print_int.
  assert (Hl : forall n, 0 <= n <= 2147483648 -> (length (print_nat n) <= 10)%nat).
  { intros n Hn. apply print_nat_length. change (10 ^ Z.of_nat 10) with 10000000000. lia. }
  destruct (Z.ltb_spec z 0); [cbn [length]; specialize (Hl (- z)); lia|].
  specialize (Hl z). lia.
Qed.

(** ** Characters *)

(** A property of all characters, decided. *)
Lemma all_ascii (f : ascii -> bool) :
  forallb (fun n => f (chr n)) (List.seq 0 256) = true -> forall c, f c = true.
Proof.
  intros Hf c. rewrite forallb_forall in Hf. specialize (Hf (nat_of_ascii c)).
  unfold chr in Hf. rewrite ascii_nat_embedding in Hf. apply Hf, in_seq.
  pose proof (nat_ascii_bounded c). lia.
Qed.

Lemma escape_length c : length (escape c) = escape_room c.
Proof.
  apply Nat.eqb_eq. revert c.
  apply (all_ascii (fun c => (length (escape c) =? escape_room c)%nat)). by vm_compute.
Qed.

Lemma escape_plain s : existsb escaped s = false -> concat (escape <$> s) = s.
Proof.
  induction s as [|c s IH]; [done|]. cbn [existsb fmap list_fmap concat].
  intros [Hc Hs]%orb_false_iff. unfold escape at 1. rewrite Hc. cbn [negb app]. by rewrite <- (IH Hs) at 2.
Qed.

Lemma length_escapes s : length (concat (escape <$> s)) = sum_list (escape_room <$> s).
Proof.
  induction s as [|c s IH]; [done|]. rewrite !fmap_cons. cbn [concat sum_list].
  rewrite length_app, escape_length, IH. done.
Qed.

(** A string's text and its size: room for the quotes and the terminator. *)
Lemma string_text_spec s : string_text s = ((length (quoted s) + 1)%nat, quoted s).
Proof.
  unfold string_text, quoted.
  destruct (existsb escaped s) eqn:E; cbn [negb]; [|rewrite (escape_plain s E)];
    apply (f_equal (fun n => (n, _))); rewrite !length_app, ?length_escapes; cbn [length]; lia.
Qed.

(** The text of a number that is an integer. *)
Lemma number_text_spec item :
  is_int (valueint item) = true -> valuedouble item = dbl (valueint item) ->
  exists size, number_text item = (size, print_int (valueint item)) /\
    (length (print_int (valueint item)) + 1 <= size <= 21)%nat.
Proof.
  intros Hz Hd. pose proof (length_print_int _ Hz). apply is_int_range in Hz.
  pose proof (int_small _ Hz). unfold number_text. rewrite Hd.
  assert (S0 : small 0) by (by vm_compute).
  rewrite dbl_eqb by done. destruct (Z.eqb_spec (valueint item) 0) as [->|Hn].
  { exists 2%nat. split; [done|]. change (print_int 0) with (lit "0"). cbn. lia. }
  rewrite dbl_sub, Z.sub_diag, !dbl_leb by
    (done || (rewrite ?Z.sub_diag; done) || (unfold small, INT_MAX, INT_MIN; lia)).
  change (SFleb (SFabs (dbl 0)) DBL_EPSILON) with true.
  rewrite (proj2 (Z.leb_le _ _)), (proj2 (Z.leb_le _ _)) by lia.
  exists 21%nat. split; [done|lia].
Qed.

(** ** Items that stand for a value *)

Definition member_value (c : cJSON) : option (chars * json) :=
  match string_value (string_ c), value_of_item c with
  | Some n, Some j => Some (n, j)
  | _, _ => None
  end.

Lemma string_value_some s t : string_value s = Some t -> s = Some t.
Proof. unfold string_value. destruct s as [s|]; [|done]. destruct (no_nul s); [|done]. by intros [= ->]. Qed.

Lemma all_some_forall {A B} (f : A -> option B) l r (P : B -> Prop) :
  all_some (map f l) = Some r -> Forall (fun a => forall b, f a = Some b -> P b) l -> Forall P r.
Proof.
  intros E Hl. revert r E. induction Hl as [|a l Ha _ IH]; cbn [map all_some]; intros r E.
  - injection E as <-. constructor.
  - destruct (f a) as [b|]; [|done]. destruct (all_some (map f l)) as [r'|]; [|done].
    injection E as <-. constructor; [by apply Ha|by apply IH].
Qed.

Lemma Forall_forallb {A} (f : A -> bool) l : Forall (fun a => f a = true) l -> forallb f l = true.
Proof. intros Hl. apply forallb_forall. by apply List.Forall_forall. Qed.

Lemma string_value_ok s v : string_value s = Some v -> no_nul v = true.
Proof.
  unfold string_value. destruct s as [s|]; [|done]. destruct (no_nul s) eqn:E; [|done].
  by intros [= <-].
Qed.

(** A value an item stands for can be printed and parsed. *)
Lemma value_ok item : forall j, value_of_item item = Some j -> json_ok j = true.
Proof.
  induction item as [t s i d n l IH] using cJSON_nested_ind. intros j E.
  cbn [value_of_item type_ valuestring valueint valuedouble child] in E.
  destruct (_ =? _); [by injection E as <-|]. destruct (_ =? _); [by injection E as <-|].
  destruct (_ =? _); [by injection E as <-|]. destruct (_ =? _).
  { destruct (is_int i) eqn:Hi; [|done]. cbn [andb] in E. case_bool_decide; [|done]. by injection E as <-. }
  destruct (_ =? _).
  { destruct (string_value s) as [v|] eqn:Es; [|done]. injection E as <-. by apply (string_value_ok s). }
  destruct (_ =? _).
  { destruct (all_some (map value_of_item l)) as [js|] eqn:El; [|done]. injection E as <-.
    apply Forall_forallb, (all_some_forall _ _ _ _ El IH). }
  destruct (_ =? _); [|done].
  change (JObj <$> all_some (map member_value l) = Some j) in E.
  destruct (all_some (map member_value l)) as [ms|] eqn:El; [|done]. injection E as <-.
  apply Forall_forallb, (all_some_forall _ _ _ _ El). apply (Forall_impl _ _ _ IH).
  intros c Hc [k v]. unfold member_value. destruct (string_value (string_ c)) as [w|] eqn:Es; [|done].
  destruct (value_of_item c) as [u|]; [|done]. intros [= <- <-]. apply andb_true_iff.
  split; [exact (string_value_ok _ _ Es)|by apply Hc].
Qed.

Section Print.
Context `{Lib : CLibrary}.

(** Memory does not run out. *)
Hypothesis memory : forall k, malloc_ok k = true.

Lemma gives_malloc : gives cJSON_malloc (eq true).
Proof. intros s. unfold cJSON_malloc. rewrite memory. by eexists _, _. Qed.

Lemma gives_write_new size text :
  (length text + 1 <= size)%nat -> gives (write_new size text) (eq (Some text)).
Proof.
  intros Hs. unfold write_new. apply (gives_step _ _ true); [apply gives_malloc|]. cbn iota.
  unfold emit. cbn [length app]. rewrite length_app. cbn [length].
  rewrite (proj2 (Nat.leb_le _ _)) by lia. intros s. by eexists _, _.
Qed.

Lemma gives_strdup str : gives (cJSON_strdup str) (eq (Some str)).
Proof. by apply gives_write_new. Qed.

Lemma print_number_spec item :
  is_int (valueint item) = true -> valuedouble item = dbl (valueint item) ->
  gives (print_number item) (eq (Some (print_int (valueint item)))).
Proof.
  intros Hz Hd. destruct (number_text_spec item Hz Hd) as (size & E & Hs).
  unfold print_number. rewrite E. apply gives_write_new. lia.
Qed.

Lemma print_string_ptr_spec s : gives (print_string_ptr (Some s)) (eq (Some (quoted s))).
Proof. unfold print_string_ptr. rewrite string_text_spec. by apply gives_write_new. Qed.

Definition prints (item : cJSON) : Prop :=
  forall j, value_of_item item = Some j ->
  forall depth fmt, gives (print_value item depth fmt) (eq (Some (render fmt depth j))).

Lemma print_entries_spec l : Forall prints l -> forall js depth fmt,
  all_some (map value_of_item l) = Some js ->
  gives (print_entries print_value l depth fmt) (fun r =>
    exists len, r = Some (map (render fmt depth) js, len) /\
      (length (join (separator fmt) (map (render fmt depth) js)) <= len)%nat).
Proof.
  induction 1 as [|c l Hc _ IH]; intros js depth fmt E; cbn [map all_some print_entries] in *.
  { injection E as <-. apply gives_ret. by exists 0%nat. }
  destruct (value_of_item c) as [j|] eqn:Ej; [|done].
  destruct (all_some (map value_of_item l)) as [js'|] eqn:El; [|done]. injection E as <-.
  apply (gives_step _ _ _ _ (Hc j Ej depth fmt)).
  apply (gives_bind _ _ _ _ (IH js' depth fmt eq_refl)). intros r (len & -> & Hlen).
  apply gives_ret. eexists. split; [done|]. cbn [map join].
  destruct (map (render fmt depth) js') as [|e es] eqn:Em; [cbn [length app]; lia|].
  rewrite !length_app. destruct fmt; cbn [separator lit String.list_ascii_of_string length] in *; lia.
Qed.

Lemma print_members_spec l : Forall prints l -> forall ms depth fmt,
  all_some (map member_value l) = Some ms ->
  gives (print_members print_value l depth fmt) (fun r =>
    exists len, r = Some (map (fun '(n, j) => (quoted n, render fmt depth j)) ms, len) /\
      (length (compose depth fmt (map (fun '(n, j) => (quoted n, render fmt depth j)) ms)) <=
       len)%nat).
Proof.
  induction 1 as [|c l Hc _ IH]; intros ms depth fmt E; cbn [map all_some print_members] in *.
  { injection E as <-. apply gives_ret. by exists 0%nat. }
  unfold member_value at 1 in E. destruct (string_value (string_ c)) as [n|] eqn:En; [|done].
  destruct (value_of_item c) as [j|] eqn:Ej; [|done].
  destruct (all_some (map member_value l)) as [ms'|] eqn:El; [|done]. injection E as <-.
  rewrite (string_value_some _ _ En).
  apply (gives_step _ _ _ _ (print_string_ptr_spec n)).
  apply (gives_step _ _ _ _ (Hc j Ej depth fmt)).
  apply (gives_bind _ _ _ _ (IH ms' depth fmt eq_refl)). intros r (len & -> & Hlen).
  apply gives_ret. eexists. split; [done|]. cbn [map compose].
  set (rest := compose depth fmt _) in *.
  destruct fmt; cbn [when]; unfold tabs; rewrite !length_app, ?length_replicate;
    destruct (map _ ms'); cbn [length lit String.list_ascii_of_string]; lia.
Qed.

Lemma print_array_spec t s i d n l js depth fmt :
  Forall prints l -> all_some (map value_of_item l) = Some js ->
  gives (print_array print_value (Item t s i d n l) depth fmt)
    (eq (Some (render fmt depth (JArr js)))).
Proof.
  intros IH El. unfold print_array. cbn [child].
  pose proof (print_entries_spec l IH js (depth + 1) fmt El) as Hp.
  destruct l as [|c l]; [injection El as <-; by apply gives_write_new|].
  apply (gives_step _ _ true); [apply gives_malloc|]. cbn [negb].
  apply (gives_bind _ _ _ _ Hp). intros r (len & -> & Hlen). cbn [render].
  apply gives_write_new. rewrite !length_app. cbn [length lit String.list_ascii_of_string]. lia.
Qed.

Lemma print_object_spec t s i d n l ms depth fmt :
  Forall prints l -> all_some (map member_value l) = Some ms ->
  gives (print_object print_value (Item t s i d n l) depth fmt)
    (eq (Some (render fmt depth (JObj ms)))).
Proof.
  intros IH El. unfold print_object. cbn [child].
  pose proof (print_members_spec l IH ms (depth + 1) fmt El) as Hp.
  destruct l as [|c l].
  { injection El as <-. apply gives_write_new. destruct fmt; cbn [when render]; [|done].
    rewrite !length_app. cbn [length lit String.list_ascii_of_string].
    unfold tabs. rewrite length_replicate. lia. }
  do 2 (apply (gives_step _ _ true); [apply gives_malloc|]; cbn [negb]).
  apply (gives_bind _ _ _ _ Hp). intros r (len & -> & Hlen).
  destruct ms as [|m ms].
  { exfalso. cbn [map all_some] in El. destruct (member_value c); [|done].
    by destruct (all_some (map member_value l)). }
  cbn [render]. replace (depth + 1 - 1)%nat with depth by lia.
  apply gives_write_new. set (body := compose _ _ _) in *. rewrite !length_app.
  destruct fmt; cbn [when]; unfold tabs; rewrite ?length_replicate;
    cbn [length lit String.list_ascii_of_string]; lia.
Qed.

Lemma print_value_spec item : prints item.
Proof.
  induction item as [t s i d n l IH] using cJSON_nested_ind. intros j E depth fmt.
  cbn [value_of_item print_value type_ valuestring valueint valuedouble child] in *.
  destruct (Z.land t 255 =? cJSON_NULL); [injection E as <-; apply gives_strdup|].
  destruct (Z.land t 255 =? cJSON_False); [injection E as <-; apply gives_strdup|].
  destruct (Z.land t 255 =? cJSON_True); [injection E as <-; apply gives_strdup|].
  destruct (Z.land t 255 =? cJSON_Number).
  { destruct (is_int i) eqn:Hi; [|done]. cbn [andb] in E. case_bool_decide; [|done].
    injection E as <-. by apply print_number_spec. }
  destruct (Z.land t 255 =? cJSON_String).
  { unfold print_string. cbn [valuestring]. destruct (string_value s) as [v|] eqn:Es; [|done].
    injection E as <-. rewrite (string_value_some _ _ Es). apply print_string_ptr_spec. }
  destruct (Z.land t 255 =? cJSON_Array).
  { destruct (all_some (map value_of_item l)) as [js|] eqn:El; [|done]. injection E as <-.
    by apply print_array_spec. }
  destruct (Z.land t 255 =? cJSON_Object); [|done].
  change (JObj <$> all_some (map member_value l) = Some j) in E.
  destruct (all_some (map member_value l)) as [ms|] eqn:El; [|done].
  injection E as <-. by apply print_object_spec.
Qed.

End Print.
