(* ===== verification/JsonParseFacts.v ===== *)
(** * JsonParseFacts: the parser reads every printed text back

    The pieces of a text (numbers, strings, blanks) and then values in any
    context in which the printer writes them. *)
From S2P Require Import Prelude.
From S2P Require Import CString.
From S2P Require Import Double.
From S2P Require Import Json.
From S2P Require Import JsonPrint.
From S2P Require Import JsonSpec.
From S2P Require Import JsonPrintFacts.
From Stdlib Require Import SpecFloat Ascii.

Open Scope C.

(** The characters that are escaped, one by one. *)
Ltac by_escapes c :=
  destruct c as [[] [] [] [] [] [] [] []]; try discriminate.

Section Parse.
Context `{Lib : CLibrary}.

(** Memory does not run out, and [pow(10.0, 0)] is 1, as the C standard says. *)
Hypothesis memory : forall k, malloc_ok k = true.
Hypothesis pow10_zero : pow10 (dbl 0) = dbl 1.

Lemma gives_at p k c : p !! k = Some c -> gives (at_ p k) (eq c).
Proof. intros E. unfold at_. rewrite E. by apply gives_ret. Qed.

Lemma gives_lift {A} (o : option A) a : o = Some a -> gives (lift o) (eq a).
Proof. intros ->. by apply gives_ret. Qed.

(** ** Numbers *)

Definition accumulate (ds : chars) (a : Z) : Z :=
  fold_left (fun v c => 10 * v + (code c - 48)) ds a.

Lemma accumulate_ge ds : forallb isdigit ds = true -> forall a, 0 <= a -> a <= accumulate ds a.
Proof.
  induction ds as [|c ds IH]; intros Hd a Ha; [cbn; lia|].
  cbn [forallb] in Hd. apply andb_true_iff in Hd as [Hc Hd]. unfold isdigit in Hc.
  change (accumulate (c :: ds) a) with (accumulate ds (10 * a + (code c - 48))).
  specialize (IH Hd (10 * a + (code c - 48)) ltac:(lia)). lia.
Qed.

Lemma dbl_times_ten a : 0 <= a -> small (10 * a) -> dmul (dbl a) (dbl 10) = dbl (10 * a).
Proof.
  intros Ha Hs. destruct (decide (a = 0)) as [->|Hn]; [done|].
  rewrite dbl_mul, Z.mul_comm; try done; unfold small in *; lia.
Qed.

Lemma read_digits_spec ds : forall a c r,
  forallb isdigit ds = true -> isdigit c = false -> 0 <= a -> small (accumulate ds a) ->
  read_digits (dbl a) (dbl 0) (dbl 0) (ds ++ c :: r) = Some (dbl (accumulate ds a), dbl 0, c :: r).
Proof.
  induction ds as [|d ds IH]; intros a c r Hd Hc Ha Hs; cbn [app read_digits].
  { by rewrite Hc. }
  cbn [forallb] in Hd. apply andb_true_iff in Hd as [Hd Hds]. rewrite Hd.
  change (accumulate (d :: ds) a) with (accumulate ds (10 * a + (code d - 48))) in *.
  unfold isdigit in Hd. pose proof (accumulate_ge ds Hds (10 * a + (code d - 48)) ltac:(lia)).
  unfold small in Hs. unfold digit_value.
  rewrite dbl_times_ten, dbl_add by (unfold small; lia).
  change (dsub (dbl 0) (dbl 0)) with (dbl 0). apply IH; (done || lia).
Qed.

(** What may not stand behind a number. *)
Definition number_end (c : ascii) : bool :=
  negb (isdigit c || isc c 46 || isc c 101 || isc c 69).

Definition sign_of (z : Z) : double := if z <? 0 then dbl (-1) else dbl 1.

(** The fraction and the exponent are absent. *)
Lemma no_fraction n c r :
  number_end c = true -> gives (fractional_part n (c :: r)) (eq (n, dbl 0, c :: r)).
Proof.
  unfold number_end. intros [[[_ H46]%orb_false_iff _]%orb_false_iff _]%negb_true_iff%orb_false_iff.
  apply (gives_step _ _ c); [by apply gives_at|]. rewrite H46. by apply gives_ret.
Qed.

Lemma no_exponent c r : number_end c = true -> gives (exponent_part (c :: r)) (eq (0, c :: r)).
Proof.
  unfold number_end. intros [[_ H101]%orb_false_iff H69]%negb_true_iff%orb_false_iff.
  apply (gives_step _ _ c); [by apply gives_at|]. rewrite H101, H69. by apply gives_ret.
Qed.

Lemma signed_value z : is_int z = true -> dmul (dmul (sign_of z) (dbl (Z.abs z))) (dbl 1) = dbl z.
Proof.
  intros Hz%is_int_range%int_small. unfold small in Hz. unfold sign_of.
  destruct (decide (z = 0)) as [->|Hn]; [by vm_compute|].
  destruct (Z.ltb_spec z 0); rewrite !dbl_mul by (unfold small; lia); f_equal; lia.
Qed.

Lemma integer_part_spec z c r :
  small z -> 0 <= z -> isdigit c = false ->
  gives (integer_part (print_nat z ++ c :: r)) (eq (dbl z, c :: r)).
Proof.
  intros Hs Hz Hd. unfold integer_part. destruct (Z.eqb_spec z 0) as [->|Hn].
  - apply (gives_step _ _ (chr 48)); [by apply gives_at|].
    apply (gives_step _ _ c); [by apply gives_at|].
    unfold isdigit in Hd. rewrite (proj2 (andb_false_iff _ _)) by lia. by apply gives_ret.
  - destruct (print_nat_head z ltac:(lia)) as (d & ds & Eds & Hd').
    destruct (print_nat_spec z Hz) as (Hv & Hds & _). rewrite Eds in *.
    apply (gives_step _ _ d); [by apply gives_at|].
    assert (Ed : isc d 48 = false) by (unfold isc; lia). rewrite !Ed.
    apply (gives_step _ _ d); [by apply gives_at|].
    rewrite (proj2 (andb_true_iff _ _)) by lia.
    change (accumulate (d :: ds) 0 = z) in Hv.
    apply (gives_step _ _ (dbl z, dbl 0, c :: r)); [|by apply gives_ret].
    apply gives_lift. rewrite <- Hv. apply (read_digits_spec (d :: ds) 0); [done..|]. by rewrite Hv.
Qed.

Lemma parse_number_spec item z c r :
  is_int z = true -> number_end c = true ->
  gives (parse_number item (print_int z ++ c :: r)) (eq (with_number item (dbl z), c :: r)).
Proof.
  intros Hz Hc. rewrite <- (signed_value z Hz).
  assert (Hd : isdigit c = false) by (unfold number_end in Hc; by destruct (isdigit c)).
  assert (Hs : small (Z.abs z)).
  { apply is_int_range, int_small in Hz. unfold small in *. lia. }
  pose proof (integer_part_spec (Z.abs z) c r Hs ltac:(lia) Hd) as Hi.
  assert (Hrest : forall sign, gives (
      do r <- integer_part (print_nat (Z.abs z) ++ c :: r);
      let '(n, num) := r in
      do r <- fractional_part n num;
      let '(n, scale, num) := r in
      do r <- exponent_part num;
      let '(e, num) := r in
      let n := dmul (dmul sign n) (pow10 (dadd scale (dbl e))) in
      pret (with_number item n, num))
    (eq (with_number item (dmul (dmul sign (dbl (Z.abs z))) (dbl 1)), c :: r))).
  { intros sign. apply (gives_step _ _ _ _ Hi). apply (gives_step _ _ _ _ (no_fraction _ c r Hc)).
    apply (gives_step _ _ _ _ (no_exponent c r Hc)).
    change (dadd (dbl 0) (dbl 0)) with (dbl 0). rewrite pow10_zero. by apply gives_ret. }
  unfold sign_of, print_int. unfold parse_number. destruct (Z.ltb_spec z 0).
  - apply (gives_step _ _ (chr 45)); [by apply gives_at|]. rewrite Z.abs_neq in * by lia.
    apply Hrest.
  - rewrite Z.abs_eq in * by lia. destruct (print_nat_spec z ltac:(lia)) as (_ & Hds & Hne).
    destruct (print_nat z) as [|d ds] eqn:E; [done|].
    apply (gives_step _ _ d); [by apply gives_at|]. cbn [forallb] in Hds.
    apply andb_true_iff in Hds as [Hdd _]. unfold isdigit in Hdd.
    replace (isc d 45) with false by (unfold isc; lia). apply Hrest.
Qed.

(** ** Strings *)

Lemma no_nul_cons c s : no_nul (c :: s) = true -> isc c 0 = false /\ no_nul s = true.
Proof. cbn. intros [Hc Hs]%andb_true_iff. split; [by destruct (isc c 0)|done]. Qed.

(** What the counting loop adds for an escape. *)
Definition scan_room (c : ascii) : nat := if (length (escape c) =? 6)%nat then 5 else 1.

Lemma scan_escape c p len :
  isc c 0 = false -> scan (escape c ++ p) len = scan p (scan_room c + len).
Proof.
  intros Hc. destruct (escaped c) eqn:E; [by_escapes c; reflexivity|].
  unfold scan_room, escape. rewrite E. cbn [negb app length Nat.eqb scan].
  unfold escaped in E. apply orb_false_iff in E as [[_ H34]%orb_false_iff H92].
  by rewrite H34, H92, Hc.
Qed.

Lemma scan_quoted s : forall p len, no_nul s = true ->
  exists n, scan (concat (escape <$> s) ++ QUOTE :: p) len = Some n /\ (length s + len <= n)%nat.
Proof.
  induction s as [|c s IH]; intros p len Hs; [by exists len|].
  apply no_nul_cons in Hs as [Hc Hs]. rewrite fmap_cons. cbn [concat].
  rewrite <- app_assoc, scan_escape by done.
  destruct (IH p (scan_room c + len)%nat Hs) as (n & -> & Hn). exists n. split; [done|].
  unfold scan_room in Hn. cbn [length]. destruct (_ =? 6)%nat; lia.
Qed.

Lemma emit_one size out c : (length out < size)%nat -> gives (emit size out [c]) (eq (out ++ [c])).
Proof.
  intros Hl. unfold emit. cbn [length]. rewrite (proj2 (Nat.leb_le _ _)) by lia. by apply gives_ret.
Qed.

Lemma decode_escape fuel size c p out Q :
  isc c 0 = false -> (length out < size)%nat ->
  gives (decode fuel size p (out ++ [c])) Q ->
  gives (decode (S fuel) size (escape c ++ p) out) Q.
Proof.
  intros Hc Hl HQ. destruct (escaped c) eqn:E.
  - assert (Hemit : forall Q', gives (decode fuel size p (out ++ [c])) Q' ->
      gives (pbind (emit size out [c]) (fun o => decode fuel size p o)) Q').
    { intros Q' HQ'. apply (gives_step _ _ _ _ (emit_one size out c Hl) HQ'). }
    specialize (Hemit Q HQ). by_escapes c; exact Hemit.
  - unfold escape. rewrite E. cbn [negb app decode].
    unfold escaped in E. apply orb_false_iff in E as [[_ H34]%orb_false_iff H92].
    apply (gives_step _ _ c); [by apply gives_at|]. rewrite H34, Hc, H92. cbn [orb negb].
    apply (gives_step _ _ _ _ (emit_one size out c Hl)). exact HQ.
Qed.

Lemma decode_quoted s : forall fuel size p out,
  no_nul s = true -> (length s < fuel)%nat -> (length s + length out <= size)%nat ->
  gives (decode fuel size (concat (escape <$> s) ++ QUOTE :: p) out) (eq (out ++ s, QUOTE :: p)).
Proof.
  induction s as [|c s IH]; intros fuel size p out Hs Hf Hl; cbn [length] in *.
  - destruct fuel as [|fuel]; [lia|]. rewrite app_nil_r.
    apply (gives_step _ _ QUOTE); [by apply gives_at|]. by apply gives_ret.
  - destruct fuel as [|fuel]; [lia|]. apply no_nul_cons in Hs as [Hc Hs].
    rewrite fmap_cons. cbn [concat]. rewrite <- app_assoc.
    apply decode_escape; [done|lia|].
    replace (out ++ c :: s) with ((out ++ [c]) ++ s) by (by rewrite <- app_assoc).
    apply IH; [done|lia|]. rewrite length_app. cbn [length]. lia.
Qed.

Lemma c_string_no_nul s : no_nul s = true -> c_string (s ++ [NUL]) = s.
Proof.
  intros Hs. unfold c_string. by rewrite span_all.
Qed.

Lemma escape_nonempty c : (1 <= length (escape c))%nat.
Proof. unfold escape. destruct (negb (escaped c)); cbn; lia. Qed.

Lemma length_escapes_ge s : (length s <= length (concat (escape <$> s)))%nat.
Proof.
  induction s as [|c s IH]; [done|]. rewrite fmap_cons. cbn [concat length].
  rewrite length_app. pose proof (escape_nonempty c). lia.
Qed.

Lemma parse_string_spec item s p :
  no_nul s = true -> gives (parse_string item (quoted s ++ p)) (eq (Some (with_string item s, p))).
Proof.
  intros Hs. unfold quoted. rewrite <- !app_assoc. cbn [app]. unfold parse_string.
  apply (gives_step _ _ QUOTE); [by apply gives_at|]. cbn [drop].
  change (isc QUOTE 34) with true. cbn [negb].
  destruct (scan_quoted s p 0 Hs) as (n & Hn & Hle).
  apply (gives_step _ _ n); [by apply gives_lift|].
  apply (gives_step _ _ true); [by apply gives_malloc|]. cbn [negb].
  apply (gives_step _ _ ([] ++ s, QUOTE :: p)).
  { apply decode_quoted; [done| |cbn [length]; lia]. rewrite drop_0, length_app.
    pose proof (length_escapes_ge s). lia. }
  apply (gives_step _ _ (s ++ [NUL])).
  { apply emit_one. cbn [app]. lia. }
  apply (gives_step _ _ QUOTE); [by apply gives_at|]. apply gives_ret. cbn [app].
  by rewrite c_string_no_nul.
Qed.

(** ** Blanks and first characters *)

Definition blank (c : ascii) : bool := negb (isc c 0) && (code c <=? 32).
Definition solid (p : chars) : bool := match p with c :: _ => 33 <=? code c | [] => false end.

Lemma skip_blanks ws p : forallb blank ws = true -> solid p = true -> skip (ws ++ p) = Some p.
Proof.
  intros Hw Hp. induction ws as [|c ws IH]; cbn [app skip].
  - destruct p as [|c p]; [done|]. cbn in *. rewrite (proj2 (Z.leb_gt _ _)) by lia.
    by rewrite andb_false_r.
  - cbn [forallb] in Hw. apply andb_true_iff in Hw as [Hc Hw]. unfold blank in Hc.
    rewrite Hc. by apply IH.
Qed.

Lemma skip_solid p : solid p = true -> skip p = Some p.
Proof. by apply (skip_blanks []). Qed.

(** The first character of a value. *)
Definition value_head (c : ascii) : bool :=
  isdigit c || isc c 45 || isc c 34 || isc c 91 || isc c 123 || isc c 110 || isc c 116 || isc c 102.

Lemma print_int_head z : exists c r, print_int z = c :: r /\ isdigit c || isc c 45 = true.
Proof.
  unfold print_int. destruct (Z.ltb_spec z 0); [by eexists _, _|].
  destruct (print_nat_spec z ltac:(lia)) as (_ & Hd & Hne).
  destruct (print_nat z) as [|c r]; [done|]. cbn [forallb] in Hd.
  apply andb_true_iff in Hd as [Hd _]. exists c, r. by rewrite Hd.
Qed.

Lemma render_head fmt depth j : exists c r, render fmt depth j = c :: r /\ value_head c = true.
Proof.
  destruct j as [|[]|z|s|l|l]; try by eexists _, _.
  - destruct (print_int_head z) as (c & r & E & Hc). exists c, r. split; [done|].
    unfold value_head. by rewrite Hc.
  - cbn [render]. destruct l; by eexists _, _.
Qed.

Lemma value_head_codes c :
  value_head c = true -> 33 <= code c /\ isc c 93 = false /\ isc c 125 = false.
Proof. unfold value_head, isdigit, isc. intros. lia. Qed.

Lemma render_solid fmt depth j r : solid (render fmt depth j ++ r) = true.
Proof.
  destruct (render_head fmt depth j) as (c & w & -> & Hc). apply value_head_codes in Hc. cbn. lia.
Qed.

Lemma blank_tabs n : forallb blank (tabs n) = true.
Proof. induction n as [|n IH]; [done|]. exact IH. Qed.

Lemma blank_when fmt ws : forallb blank ws = true -> forallb blank (when fmt ws) = true.
Proof. by destruct fmt. Qed.

(** ** Containers *)

Section More.
Context {X : Type} (element : chars -> prog heap (option (cJSON * chars))).
Context (stop : Z) (item_of_x : X -> cJSON) (text_of : list X -> chars) (rest : chars) (P : X -> Prop).
Hypothesis stop_text : exists c, text_of [] = c :: rest /\ isc c stop = true /\ isc c 44 = false.
Hypothesis more_text : forall x xs, P x -> exists c w, text_of (x :: xs) = c :: w /\
  isc c 44 = true /\ (length (text_of xs) < length (text_of (x :: xs)))%nat /\
  gives (element w) (eq (Some (item_of_x x, text_of xs))).

Lemma parse_more_spec xs : Forall P xs -> forall children n item, (length xs < n)%nat ->
  gives (parse_more n element stop item children (text_of xs))
    (eq (Some (with_child (children ++ map item_of_x xs) item, rest))).
Proof.
  induction 1 as [|x xs Hx _ IH]; intros children n item Hn; destruct n as [|n]; try (cbn in Hn; lia).
  - destruct stop_text as (c & -> & Hs & H44). cbn [parse_more].
    apply (gives_step _ _ c); [by apply gives_at|]. rewrite H44, Hs. apply gives_ret.
    by rewrite app_nil_r.
  - destruct (more_text x xs Hx) as (c & w & E & H44 & _ & Hel). rewrite E. cbn [parse_more].
    apply (gives_step _ _ c); [by apply gives_at|]. rewrite H44. cbn [drop].
    apply (gives_step _ _ _ _ Hel). cbn [map].
    replace (children ++ item_of_x x :: map item_of_x xs) with
      ((children ++ [item_of_x x]) ++ map item_of_x xs) by (by rewrite <- app_assoc).
    apply IH. cbn [length] in Hn. lia.
Qed.

Lemma length_text xs : Forall P xs -> (length xs <= length (text_of xs))%nat.
Proof.
  induction 1 as [|x xs Hx _ IH]; [cbn; lia|].
  destruct (more_text x xs Hx) as (_ & _ & _ & _ & Hl & _). cbn [length]. lia.
Qed.

(** A container with its first element [x] behind blanks [ws]. *)
Lemma parse_container_spec t start c0 item ws w x xs :
  isc c0 start = true -> forallb blank ws = true ->
  (exists c w', w = c :: w' /\ 33 <= code c /\ isc c stop = false) ->
  gives (element w) (eq (Some (item_of_x x, text_of xs))) -> Forall P xs ->
  gives (parse_container element t start stop item (c0 :: ws ++ w))
    (eq (Some (with_child (map item_of_x (x :: xs)) (with_type t item), rest))).
Proof.
  intros H0 Hws (c & w' & -> & Hc & Hstop) Hel Hxs. unfold parse_container.
  apply (gives_step _ _ c0); [by apply gives_at|]. rewrite H0. cbn [negb drop]. rewrite drop_0.
  apply (gives_step _ _ (c :: w')).
  { apply gives_lift, skip_blanks; [done|]. cbn. lia. }
  apply (gives_step _ _ c); [by apply gives_at|]. rewrite Hstop.
  apply (gives_step _ _ _ _ Hel).
  apply (parse_more_spec xs Hxs [item_of_x x]). pose proof (length_text xs Hxs). lia.
Qed.

(** An empty one. *)
Lemma parse_container_empty t start c0 c1 item ws r :
  isc c0 start = true -> isc c1 stop = true -> 33 <= code c1 -> forallb blank ws = true ->
  gives (parse_container element t start stop item (c0 :: ws ++ c1 :: r))
    (eq (Some (with_type t item, r))).
Proof.
  intros H0 H1 Hc Hws. unfold parse_container.
  apply (gives_step _ _ c0); [by apply gives_at|]. rewrite H0. cbn [negb drop]. rewrite drop_0.
  apply (gives_step _ _ (c1 :: r)).
  { apply gives_lift, skip_blanks; [done|]. cbn. lia. }
  apply (gives_step _ _ c1); [by apply gives_at|]. rewrite H1. by apply gives_ret.
Qed.

End More.

(** ** Values *)

(** [pv] reads the text of [j], in front of what may follow a value. *)
Definition parses (pv : cJSON -> chars -> prog heap (option (cJSON * chars))) (fmt : bool)
    (depth : nat) (j : json) : Prop :=
  forall t name c r, number_end c = true ->
  gives (pv (Item t None 0 (S754_zero false) name []) (render fmt depth j ++ c :: r))
    (eq (Some (item_of name j, c :: r))).

(** A text that may follow a value, behind which [skip] finds [p]. *)
Definition follows (w p : chars) : Prop :=
  (exists c r, w = c :: r /\ number_end c = true) /\ skip w = Some p.

Lemma follows_solid c r : number_end c = true -> 33 <= code c -> follows (c :: r) (c :: r).
Proof. intros Hn Hc. split; [by eexists _, _|]. apply skip_solid. cbn. lia. Qed.

Section Elements.
Variable pv : cJSON -> chars -> prog heap (option (cJSON * chars)).
Variable fmt : bool.
Variable depth : nat.
Variable rest : chars.

Lemma parse_follows j t name w p :
  parses pv fmt depth j -> follows w p ->
  gives (do r <- pv (Item t None 0 (S754_zero false) name []) (render fmt depth j ++ w); skip_result r)
    (eq (Some (item_of name j, p))).
Proof.
  intros Hj [(c & r & -> & Hc) Hs]. apply (gives_step _ _ _ _ (Hj t name c r Hc)).
  apply (gives_step _ _ p); [by apply gives_lift|]. by apply gives_ret.
Qed.

(** What stands behind an element of an array. *)
Fixpoint more_array (l : list json) : chars :=
  match l with
  | [] => lit "]" ++ rest
  | j :: l => separator fmt ++ render fmt depth j ++ more_array l
  end.

Lemma more_array_follows l : follows (more_array l) (more_array l).
Proof.
  destruct l; [by apply follows_solid|]. cbn [more_array]. unfold separator.
  destruct fmt; by apply follows_solid.
Qed.

Lemma join_more j l :
  join (separator fmt) (map (render fmt depth) (j :: l)) ++ lit "]" ++ rest =
  render fmt depth j ++ more_array l.
Proof.
  revert j. induction l as [|k l IH]; intros j; [done|].
  change (join (separator fmt) (map (render fmt depth) (j :: k :: l))) with
    (render fmt depth j ++ separator fmt ++ join (separator fmt) (map (render fmt depth) (k :: l))).
  by rewrite <- !app_assoc, IH.
Qed.

Lemma parse_element_spec j l ws :
  parses pv fmt depth j -> forallb blank ws = true ->
  gives (parse_element pv (ws ++ render fmt depth j ++ more_array l))
    (eq (Some (item_of None j, more_array l))).
Proof.
  intros Hj Hws. unfold parse_element. apply (gives_step _ _ (Some zeroed)).
  { apply (gives_step _ _ true); [by apply gives_malloc|]. by apply gives_ret. }
  apply (gives_step _ _ (render fmt depth j ++ more_array l)).
  { apply gives_lift, skip_blanks; [done|]. apply render_solid. }
  apply parse_follows; [done|]. apply more_array_follows.
Qed.

Lemma parse_array_spec item l :
  Forall (parses pv fmt depth) l -> child item = [] ->
  gives (parse_array pv item (lit "[" ++ join (separator fmt) (map (render fmt depth) l) ++ lit "]" ++ rest))
    (eq (Some (with_child (map (item_of None) l) (with_type cJSON_Array item), rest))).
Proof.
  intros Hl Hc. destruct Hl as [|j l Hj Hl].
  { destruct item as [t s i d n c]. cbn in Hc. subst.
    exact (parse_container_empty (parse_element pv) 93 cJSON_Array 91 (chr 91) (chr 93)
      (Item t s i d n []) [] rest eq_refl eq_refl ltac:(done) eq_refl). }
  rewrite join_more. unfold parse_array.
  apply (parse_container_spec (parse_element pv) 93 (item_of None) more_array rest
    (parses pv fmt depth)) with (ws := []); try done.
  - by eexists _.
  - intros k ks Hk. exists (chr 44), (when fmt [chr 32] ++ render fmt depth k ++ more_array ks).
    cbn [more_array]. split; [by destruct fmt|]. split; [done|]. split.
    { rewrite !length_app. pose proof (render_solid fmt depth k []).
      destruct (render fmt depth k); [done|]. cbn [length]. lia. }
    apply (parse_element_spec k ks (when fmt [chr 32])); [done|by destruct fmt].
  - destruct (render_head fmt depth j) as (c & w & -> & Hh). apply value_head_codes in Hh.
    exists c, (w ++ more_array l). split; [done|]. tauto.
  - by apply (parse_element_spec j l []).
Qed.

(** What stands behind a member of an object of the outer depth [depth - 1],
    with and without the blanks. *)
Definition member_text (m : chars * json) : chars :=
  quoted m.1 ++ lit ":" ++ when fmt (tabs 1) ++ render fmt depth m.2.

Fixpoint more_object (ms : list (chars * json)) : chars :=
  match ms with
  | [] => lit "}" ++ rest
  | m :: ms =>
      lit "," ++ when fmt (LF :: tabs depth) ++ member_text m ++
      (match ms with [] => when fmt (LF :: tabs (depth - 1)) | _ => [] end) ++ more_object ms
  end.

Definition behind_member (ms : list (chars * json)) : chars :=
  (match ms with [] => when fmt (LF :: tabs (depth - 1)) | _ => [] end) ++ more_object ms.

Lemma behind_follows ms : follows (behind_member ms) (more_object ms).
Proof.
  unfold behind_member. destruct ms as [|m ms]; [|by apply follows_solid].
  destruct fmt; cbn [when]; [|by apply follows_solid].
  split; [by eexists _, _|]. apply (skip_blanks (LF :: tabs (depth - 1))); [|done].
  apply (blank_tabs (depth - 1)).
Qed.

Lemma compose_more m ms :
  compose depth fmt (map (fun '(n, j) => (quoted n, render fmt depth j)) (m :: ms)) ++
    when fmt (tabs (depth - 1)) ++ lit "}" ++ rest =
  when fmt (tabs depth) ++ member_text m ++ behind_member ms.
Proof.
  revert m. induction ms as [|m2 ms IH]; intros [n j].
  - unfold behind_member, member_text. cbn [map compose more_object fst snd].
    destruct fmt; cbn [when]; rewrite <- ?app_assoc; cbn [app]; rewrite <- ?app_assoc; done.
  - change (compose depth fmt (map (fun '(n, j) => (quoted n, render fmt depth j)) ((n, j) :: m2 :: ms)))
      with (when fmt (tabs depth) ++ quoted n ++ lit ":" ++ when fmt (tabs 1) ++ render fmt depth j ++
        lit "," ++ when fmt [LF] ++
        compose depth fmt (map (fun '(n, j) => (quoted n, render fmt depth j)) (m2 :: ms))).
    rewrite <- !app_assoc, IH. unfold behind_member at 2, member_text at 2. cbn [more_object fst snd].
    unfold behind_member. destruct fmt; cbn [when]; rewrite <- ?app_assoc; done.
Qed.

Lemma quoted_solid s r : solid (quoted s ++ r) = true.
Proof. done. Qed.

Lemma parse_member_spec n j ms ws :
  no_nul n = true -> parses pv fmt depth j -> forallb blank ws = true ->
  gives (parse_member pv (ws ++ member_text (n, j) ++ behind_member ms))
    (eq (Some (item_of (Some n) j, more_object ms))).
Proof.
  intros Hn Hj Hws. unfold parse_member. apply (gives_step _ _ (Some zeroed)).
  { apply (gives_step _ _ true); [by apply gives_malloc|]. by apply gives_ret. }
  unfold member_text. cbn [fst snd]. rewrite <- !app_assoc.
  eapply gives_step. { apply gives_lift, skip_blanks; [done|]. apply quoted_solid. }
  eapply gives_step; [by apply parse_string_spec|].
  eapply gives_step.
  { eapply gives_step; [by apply gives_lift, skip_solid|]. by apply gives_ret. }
  cbn iota beta. apply (gives_step _ _ (chr 58)); [by apply gives_at|].
  change (isc (chr 58) 58) with true. cbn [negb].
  eapply gives_step.
  { apply gives_lift. cbn [lit String.list_ascii_of_string app drop]. rewrite drop_0.
    apply skip_blanks; [by destruct fmt|]. apply render_solid. }
  apply parse_follows; [done|]. apply behind_follows.
Qed.

Lemma parse_object_spec item m ms :
  Forall (fun '(n, j) => no_nul n = true /\ parses pv fmt depth j) (m :: ms) ->
  gives (parse_object pv item
    (lit "{" ++ when fmt [LF] ++
     compose depth fmt (map (fun '(n, j) => (quoted n, render fmt depth j)) (m :: ms)) ++
     when fmt (tabs (depth - 1)) ++ lit "}" ++ rest))
    (eq (Some (with_child (map (fun '(n, j) => item_of (Some n) j) (m :: ms))
                 (with_type cJSON_Object item), rest))).
Proof.
  intros Hms. inversion Hms as [|x l Hm Hms']; subst. rewrite compose_more, (app_assoc (when _ _)).
  unfold parse_object. destruct m as [n j], Hm as [Hn Hj].
  apply (parse_container_spec (parse_member pv) 125 (fun '(n, j) => item_of (Some n) j) more_object
    rest (fun '(n, j) => no_nul n = true /\ parses pv fmt depth j)) with
    (ws := when fmt [LF] ++ when fmt (tabs depth)); try done.
  - by eexists _.
  - intros [n' j'] ks [Hn' Hj'].
    exists (chr 44), (when fmt (LF :: tabs depth) ++ member_text (n', j') ++ behind_member ks).
    split; [done|]. split; [done|]. split.
    + cbn [more_object]. rewrite !length_app. cbn [lit String.list_ascii_of_string length]. lia.
    + apply parse_member_spec; [done..|]. apply blank_when, (blank_tabs depth).
  - rewrite forallb_app. apply andb_true_iff. split; [by destruct fmt|].
    apply blank_when, blank_tabs.
  - by eexists _, _.
  - by apply (parse_member_spec n j ms []).
Qed.

End Elements.

(** A part is shorter than the whole. *)
Lemma join_length sep e es : e ∈ es -> (length e <= length (join sep es))%nat.
Proof.
  induction es as [|a [|b es] IH]; intros He; [by apply not_elem_of_nil in He|..].
  - apply list_elem_of_singleton in He as ->. done.
  - change (join sep (a :: b :: es)) with (a ++ sep ++ join sep (b :: es)). rewrite !length_app.
    apply elem_of_cons in He as [->|He]; [lia|]. specialize (IH He). lia.
Qed.

Lemma compose_length depth fmt n e es :
  (n, e) ∈ es -> (length e <= length (compose depth fmt es))%nat.
Proof.
  induction es as [|[a b] es IH]; intros He; [by apply not_elem_of_nil in He|].
  cbn [compose]. rewrite !length_app. apply elem_of_cons in He as [[= <- <-]|He]; [lia|].
  specialize (IH He). lia.
Qed.

Lemma elem_map {A B} (f : A -> B) a l : a ∈ l -> f a ∈ map f l.
Proof. rewrite !list_elem_of_In. apply in_map. Qed.

(** None of the words, and the head of the text decides. *)
Lemma strncmp_other w a c r : w = a :: drop 1 w -> a <> c -> strncmp w (c :: r) = Some false.
Proof. intros -> Ha. cbn [strncmp]. by rewrite bool_decide_eq_false_2. Qed.

Lemma parse_value_words fuel item c r Q :
  isc c 110 = false -> isc c 102 = false -> isc c 116 = false ->
  gives (if isc c 34 then parse_string item (c :: r)
         else if isc c 45 || isdigit c then
           do x <- parse_number item (c :: r); pret (Some x)
         else if isc c 91 then parse_array (parse_value fuel) item (c :: r)
         else if isc c 123 then parse_object (parse_value fuel) item (c :: r)
         else set_ep (c :: r) ;;; pret None) Q ->
  gives (parse_value (S fuel) item (c :: r)) Q.
Proof.
  intros Hn Hf Ht HQ. cbn [parse_value].
  apply (gives_step _ _ false).
  { apply gives_lift, (strncmp_other _ (chr 110)); [done|]. by intros <-. }
  apply (gives_step _ _ false).
  { apply gives_lift, (strncmp_other _ (chr 102)); [done|]. by intros <-. }
  apply (gives_step _ _ false).
  { apply gives_lift, (strncmp_other _ (chr 116)); [done|]. by intros <-. }
  apply (gives_step _ _ c); [by apply gives_at|]. exact HQ.
Qed.

Lemma parses_number fuel fmt depth z :
  is_int z = true -> parses (parse_value (S fuel)) fmt depth (JNum z).
Proof.
  intros Hz t name c r Hc. cbn [render].
  pose proof (parse_number_spec (Item t None 0 (S754_zero false) name []) z c r Hz Hc) as Hp.
  destruct (print_int_head z) as (d & w & E & Hd). rewrite E in *. cbn [app] in *.
  assert (Hcode : isc d 110 = false /\ isc d 102 = false /\ isc d 116 = false /\ isc d 34 = false)
    by (unfold isdigit, isc in *; lia).
  destruct Hcode as (? & ? & ? & H34).
  apply parse_value_words; [done..|]. rewrite H34, orb_comm, Hd.
  apply (gives_step _ _ _ _ Hp). apply gives_ret. unfold with_number, item_of. cbn.
  rewrite to_int_dbl; [done|]. by apply is_int_range.
Qed.

Lemma parse_value_spec j : json_ok j = true -> forall fuel fmt depth,
  (length (render fmt depth j) <= fuel)%nat -> parses (parse_value fuel) fmt depth j.
Proof.
  induction j as [|b|z|s|l IH|ms IH] using json_nested_ind; intros Hok fuel fmt depth Hf;
    (destruct fuel as [|fuel];
     [exfalso; match type of Hf with (length (render _ _ ?j) <= _)%nat =>
        destruct (render_head fmt depth j) as (? & ? & E & _); rewrite E in Hf; cbn in Hf; lia end|]).
  - intros t name c r Hc. by apply gives_ret.
  - intros t name c r Hc. destruct b; by apply gives_ret.
  - by apply parses_number.
  - intros t name c r Hc. apply (parse_value_words fuel _ QUOTE); [done..|].
    change (isc QUOTE 34) with true. cbn iota.
    exact (parse_string_spec (Item t None 0 (S754_zero false) name []) s (c :: r) Hok).
  - intros t name c r Hc. cbn [render]. rewrite <- !app_assoc.
    apply (parse_value_words fuel _ (chr 91)); [done..|].
    change (gives (parse_array (parse_value fuel) (Item t None 0 (S754_zero false) name [])
      (lit "[" ++ join (separator fmt) (map (render fmt (depth + 1)) l) ++ lit "]" ++ c :: r))
      (eq (Some (item_of name (JArr l), c :: r)))).
    apply parse_array_spec; [|done].
    cbn [json_ok] in Hok. rewrite forallb_forall in Hok. cbn [render] in Hf.
    rewrite !length_app in Hf. cbn [lit String.list_ascii_of_string length] in Hf.
    rewrite Forall_forall in *. intros k Hk. apply IH; [done|by apply Hok, list_elem_of_In|].
    pose proof (join_length (separator fmt) _ _ (elem_map (render fmt (depth + 1)) k l Hk)). lia.
  - intros t name c r Hc. destruct ms as [|m ms].
    { cbn [render]. rewrite <- !app_assoc. apply (parse_value_words fuel _ (chr 123)); [done..|].
      exact (parse_container_empty (parse_member (parse_value fuel)) 125 cJSON_Object 123 (chr 123)
        (chr 125) (Item t None 0 (S754_zero false) name []) (when fmt (LF :: tabs (depth - 1)))
        (c :: r) eq_refl eq_refl ltac:(done) (blank_when fmt (LF :: tabs (depth - 1)) (blank_tabs (depth - 1)))). }
    cbn [render] in *. rewrite <- !app_assoc.
    apply (parse_value_words fuel _ (chr 123)); [done..|].
    replace (tabs depth) with (tabs (depth + 1 - 1)) in * by (f_equal; lia).
    apply (parse_object_spec (parse_value fuel) fmt (depth + 1)%nat (c :: r)
      (Item t None 0 (S754_zero false) name []) m ms).
    cbn [json_ok] in Hok. rewrite forallb_forall in Hok.
    rewrite !length_app in Hf. cbn [lit String.list_ascii_of_string length] in Hf.
    rewrite Forall_forall in *. intros [n k] Hk. specialize (IH _ Hk).
    pose proof (Hok _ (proj1 (list_elem_of_In _ _) Hk)) as [Hn Hk2]%andb_true_iff. split; [done|]. apply IH; [done|].
    pose proof (compose_length (depth + 1) fmt _ _ _
      (elem_map (fun '(n, j) => (quoted n, render fmt (depth + 1) j)) (n, k) _ Hk)). lia.
Qed.

End Parse.
