(* ===== verification/JsonMinify.v ===== *)
(** * JsonMinify: minifying a formatted text gives the unformatted one

    [mini] is [minify] with enough turns; its equations say what it does with
    a character, a blank and a string literal. *)
From S2P Require Import Prelude.
From S2P Require Import CString.
From S2P Require Import Double.
From S2P Require Import Json.
From S2P Require Import JsonPrint.
From S2P Require Import JsonSpec.
From S2P Require Import JsonPrintFacts.
From S2P Require Import JsonParseFacts.
From Stdlib Require Import Ascii.

Open Scope C.

Lemma literal_shorter p : forall w r, literal p = Some (w, r) -> (length r < length p)%nat.
Proof.
  induction p as [p IH] using (induction_ltof1 _ length). unfold ltof in IH.
  intros w r. destruct p as [|c p]; [done|]. cbn [literal].
  destruct (isc c 0 || isc c 34); [intros [= <- <-]; cbn; lia|].
  destruct (isc c 92).
  - destruct p as [|d p]; [done|]. destruct (literal p) as [[w' r']|] eqn:E; [|done].
    intros [= <- <-]. apply IH in E; cbn in *; lia.
  - destruct (literal p) as [[w' r']|] eqn:E; [|done].
    intros [= <- <-]. apply IH in E; cbn in *; lia.
Qed.

Lemma line_comment_shorter p r : line_comment p = Some r -> (length r <= length p)%nat.
Proof.
  induction p as [|c p IH]; [done|]. cbn [line_comment]. destruct (_ || _); [intros [= <-]; done|].
  intros E. specialize (IH E). cbn. lia.
Qed.

Lemma block_comment_shorter p r : block_comment p = Some r -> (length r <= length p)%nat.
Proof.
  induction p as [|c p IH]; [done|]. cbn [block_comment]. destruct (isc c 0); [intros [= <-]; done|].
  destruct (isc c 42); [|intros E; specialize (IH E); cbn; lia].
  destruct p as [|d p]; [done|]. destruct (isc d 47); [intros [= <-]; done|].
  intros E; specialize (IH E); cbn in *; lia.
Qed.

Lemma slash_line c p : isc c 47 = true -> line_comment (c :: p) = line_comment p.
Proof.
  intros Hc. cbn [line_comment].
  by replace (isc c 0 || isc c 10) with false by (unfold isc in *; lia).
Qed.

Lemma slash_block c p : isc c 47 = true -> block_comment (c :: p) = block_comment p.
Proof.
  intros Hc. cbn [block_comment]. replace (isc c 0) with false by (unfold isc in *; lia).
  by replace (isc c 42) with false by (unfold isc in *; lia).
Qed.

(** More turns than characters make no difference: the loop ends. *)
Lemma minify_turns p : forall f g,
  (length p < f)%nat -> (length p < g)%nat -> minify f p = minify g p.
Proof.
  induction p as [p IH] using (induction_ltof1 _ length). unfold ltof in IH.
  intros f g Hf Hg. destruct f as [|f]; [lia|]. destruct g as [|g]; [lia|].
  destruct p as [|c r]; [done|]. cbn [minify length] in *.
  assert (Hr : forall q, (length q <= length r)%nat -> minify f q = minify g q)
    by (intros q Hq; apply IH; lia).
  destruct (isc c 0); [done|]. destruct (_ || _ || _ || _); [by apply Hr|].
  destruct (isc c 34).
  { destruct (literal r) as [[w q]|] eqn:E; [|done]. apply literal_shorter in E.
    by rewrite (Hr q) by lia. }
  destruct (isc c 47) eqn:E47; [|by rewrite Hr].
  destruct r as [|d r]; [done|].
  destruct (isc d 47).
  { destruct (line_comment (c :: d :: r)) as [q|] eqn:E; [|done]. apply Hr.
    rewrite slash_line in E by done. by apply line_comment_shorter. }
  destruct (isc d 42); [|by rewrite Hr].
  destruct (block_comment (c :: d :: r)) as [q|] eqn:E; [|done]. apply Hr.
  rewrite slash_block in E by done. apply block_comment_shorter in E. rewrite length_drop. lia.
Qed.

Definition mini (p : chars) : option chars := minify (S (length p)) p.

Definition prepend (w : chars) (o : option chars) : option chars :=
  match o with Some t => Some (w ++ t) | None => None end.

Lemma prepend_app a b o : prepend (a ++ b) o = prepend a (prepend b o).
Proof. destruct o; cbn; [by rewrite <- app_assoc|done]. Qed.

Lemma prepend_nil o : prepend [] o = o.
Proof. by destruct o. Qed.

Definition white (c : ascii) : bool := isc c 32 || isc c 9 || isc c 13 || isc c 10.
Definition plain_char (c : ascii) : bool := negb (isc c 0 || white c || isc c 34 || isc c 47).

Lemma mini_plain w p : forallb plain_char w = true -> mini (w ++ p) = prepend w (mini p).
Proof.
  induction w as [|c w IH]; intros Hw; cbn [app].
  { by rewrite prepend_nil. }
  cbn [forallb] in Hw. apply andb_true_iff in Hw as [Hc Hw].
  change (c :: w) with ([c] ++ w). rewrite prepend_app, <- IH by done.
  unfold plain_char in Hc. apply negb_true_iff in Hc.
  apply orb_false_iff in Hc as [[[H0 Hwh]%orb_false_iff H34]%orb_false_iff H47].
  unfold mini at 1. cbn [minify length]. unfold white in Hwh. by rewrite H0, Hwh, H34, H47.
Qed.

Lemma mini_white w p : forallb white w = true -> mini (w ++ p) = mini p.
Proof.
  induction w as [|c w IH]; intros Hw; [done|].
  cbn [forallb] in Hw. apply andb_true_iff in Hw as [Hc Hw]. rewrite <- IH by done.
  cbn [app]. unfold mini at 1. cbn [minify length].
  assert (H0 : isc c 0 = false) by (unfold white, isc in *; lia).
  rewrite H0. unfold white in Hc. by rewrite Hc.
Qed.

(** The shape of an escape: a backslash, a character, and perhaps digits. *)
Definition inner (c : ascii) : bool := negb (isc c 0 || isc c 34 || isc c 92).

Lemma escape_shape c : escaped c = true -> isc c 0 = false ->
  exists e w, escape c = BACKSLASH :: e :: w /\ forallb inner w = true.
Proof. intros E Hc. by_escapes c; (eexists _, _; split; [reflexivity|reflexivity]). Qed.

Lemma literal_plain w p :
  forallb inner w = true ->
  literal (w ++ p) = match literal p with Some (v, r) => Some (w ++ v, r) | None => None end.
Proof.
  induction w as [|c w IH]; intros Hw; cbn [app literal]; [by destruct (literal p) as [[]|]|].
  cbn [forallb] in Hw. apply andb_true_iff in Hw as [Hc Hw]. unfold inner in Hc.
  apply negb_true_iff, orb_false_iff in Hc as [Hc H92]. rewrite Hc, H92, IH by done.
  by destruct (literal p) as [[]|].
Qed.

Lemma literal_escape c p :
  isc c 0 = false ->
  literal (escape c ++ p) = match literal p with Some (w, r) => Some (escape c ++ w, r) | None => None end.
Proof.
  intros Hc. destruct (escaped c) eqn:E.
  - destruct (escape_shape c E Hc) as (e & w & -> & Hw). cbn [app literal].
    change (isc BACKSLASH 0 || isc BACKSLASH 34) with false. change (isc BACKSLASH 92) with true.
    cbn iota. rewrite literal_plain by done. by destruct (literal p) as [[]|].
  - unfold escape. rewrite E. cbn [negb app literal].
    unfold escaped in E. apply orb_false_iff in E as [[_ H34]%orb_false_iff H92].
    rewrite H34, H92, Hc. by destruct (literal p) as [[]|].
Qed.

Lemma literal_quoted s p :
  no_nul s = true ->
  literal (concat (escape <$> s) ++ QUOTE :: p) = Some (concat (escape <$> s) ++ [QUOTE], p).
Proof.
  induction s as [|c s IH]; intros Hs; [done|]. apply no_nul_cons in Hs as [Hc Hs].
  rewrite fmap_cons. cbn [concat]. rewrite <- app_assoc, literal_escape, IH by done.
  by rewrite <- app_assoc.
Qed.

Lemma mini_quoted s p : no_nul s = true -> mini (quoted s ++ p) = prepend (quoted s) (mini p).
Proof.
  intros Hs. unfold quoted at 1. rewrite <- !app_assoc. cbn [app].
  set (q := concat (escape <$> s) ++ QUOTE :: p). unfold mini at 1. cbn [minify].
  change (isc QUOTE 0) with false. change (isc QUOTE 34) with true.
  change (isc QUOTE 32 || isc QUOTE 9 || isc QUOTE 13 || isc QUOTE 10) with false. cbn iota.
  replace (literal q) with (Some (concat (escape <$> s) ++ [QUOTE], p))
    by (symmetry; by apply literal_quoted).
  rewrite (minify_turns p _ (S (length p))); [done| |lia].
  cbn [length]. unfold q. rewrite length_app. cbn [length]. lia.
Qed.

Lemma plain_print_int z : forallb plain_char (print_int z) = true.
Proof.
  assert (Hd : forall c, isdigit c = true -> plain_char c = true)
    by (intros c; unfold isdigit, plain_char, white, isc; lia).
  assert (Hds : forall ds, forallb isdigit ds = true -> forallb plain_char ds = true).
  { intros ds. rewrite !forallb_forall. auto. }
  unfold print_int. destruct (Z.ltb_spec z 0).
  - cbn [forallb]. apply andb_true_iff. split; [done|]. apply Hds, print_nat_spec. lia.
  - apply Hds, print_nat_spec. lia.
Qed.

Lemma white_when fmt w : forallb white w = true -> forallb white (when fmt w) = true.
Proof. by destruct fmt. Qed.

Lemma white_tabs n : forallb white (tabs n) = true.
Proof. induction n as [|n IH]; [done|]. exact IH. Qed.

(** ** Values *)

Definition minifies (j : json) : Prop :=
  forall d d' p, mini (render true d j ++ p) = prepend (render false d' j) (mini p).

Lemma mini_join l d d' p :
  Forall minifies l ->
  mini (join (separator true) (map (render true d) l) ++ p) =
  prepend (join (separator false) (map (render false d') l)) (mini p).
Proof.
  intros Hl. revert p. induction Hl as [|j [|k l] Hj Hl IH]; intros p.
  - by rewrite prepend_nil.
  - apply Hj.
  - change (join (separator true) (map (render true d) (j :: k :: l))) with
      (render true d j ++ [chr 44] ++ [chr 32] ++ join (separator true) (map (render true d) (k :: l))).
    change (join (separator false) (map (render false d') (j :: k :: l))) with
      (render false d' j ++ [chr 44] ++ join (separator false) (map (render false d') (k :: l))).
    rewrite <- !app_assoc, (Hj d d'), mini_plain, mini_white, IH by done.
    by rewrite !prepend_app.
Qed.

Lemma mini_compose ms d d' p :
  Forall (fun '(n, j) => no_nul n = true /\ minifies j) ms ->
  mini (compose d true (map (fun '(n, j) => (quoted n, render true d j)) ms) ++ p) =
  prepend (compose d' false (map (fun '(n, j) => (quoted n, render false d' j)) ms)) (mini p).
Proof.
  intros Hms. revert p. induction Hms as [|[n j] ms [Hn Hj] _ IH]; intros p.
  - by rewrite prepend_nil.
  - set (comma := match ms with [] => [] | _ => lit "," end : chars).
    assert (Hcomma : forallb plain_char comma = true) by (by destruct ms).
    assert (E : forall fmt d, compose d fmt (map (fun '(n, j) => (quoted n, render fmt d j)) ((n, j) :: ms)) =
      when fmt (tabs d) ++ quoted n ++ lit ":" ++ when fmt (tabs 1) ++ render fmt d j ++ comma ++
      when fmt [LF] ++ compose d fmt (map (fun '(n, j) => (quoted n, render fmt d j)) ms))
      by (intros fmt d0; by destruct ms).
    rewrite !E. cbn [when]. rewrite <- !app_assoc.
    rewrite (mini_white (tabs d)), mini_quoted, (mini_plain (lit ":")), (mini_white (tabs 1)),
      (Hj d d'), (mini_plain comma), (mini_white [LF]), IH by (done || apply white_tabs).
    change (when false (tabs d')) with (@nil ascii). change (when false (tabs 1)) with (@nil ascii).
    change (when false [LF]) with (@nil ascii). cbn [app].
    by rewrite !prepend_app.
Qed.

Lemma render_minifies j : json_ok j = true -> minifies j.
Proof.
  induction j as [|b|z|s|l IH|ms IH] using json_nested_ind; intros Hok d d' p.
  - by apply mini_plain.
  - destruct b; by apply mini_plain.
  - apply mini_plain, plain_print_int.
  - by apply mini_quoted.
  - cbn [render json_ok] in *. rewrite forallb_forall in Hok.
    rewrite <- !app_assoc, (mini_plain (lit "[")), (mini_join l _ (d' + 1)), (mini_plain (lit "]")) by
      (done || (rewrite Forall_forall in *; intros k Hk; apply IH; [done|by apply Hok, list_elem_of_In])).
    by rewrite !prepend_app.
  - destruct ms as [|m ms].
    { cbn [render when]. rewrite <- !app_assoc, (mini_plain (lit "{")),
        (mini_white (LF :: tabs (d - 1))), (mini_plain (lit "}")) by
        (done || apply (white_tabs (d - 1))). by rewrite <- prepend_app. }
    cbn [json_ok] in Hok. rewrite forallb_forall in Hok.
    cbn [render when]. rewrite <- !app_assoc.
    rewrite (mini_plain (lit "{")), (mini_white [LF]), (mini_compose (m :: ms) _ (d' + 1)),
      (mini_white (tabs d)), (mini_plain (lit "}")) by
      (done || apply (white_tabs d) ||
       (rewrite Forall_forall in *; intros [n k] Hk; specialize (IH _ Hk);
        pose proof (Hok _ (proj1 (list_elem_of_In _ _) Hk)) as [? ?]%andb_true_iff; auto)).
    by rewrite !prepend_app, !prepend_nil.
Qed.

Lemma minify_render d d' j rest :
  json_ok j = true -> cJSON_Minify (render true d j ++ NUL :: rest) = Some (render false d' j).
Proof.
  intros Hj. change (mini (render true d j ++ NUL :: rest) = Some (render false d' j)).
  rewrite (render_minifies j Hj d d'). change (mini (NUL :: rest)) with (Some (@nil ascii)).
  cbn [prepend]. by rewrite app_nil_r.
Qed.
