(* ===== verification/JsonSafe.v ===== *)
(** * JsonSafe: texts on which the parser cannot fail

    On a text in which every escape is complete and no exponent has more than
    nine digits the parser ends without a bad access, whatever else is wrong
    with the text and however many allocations succeed. The text is [s] in a
    buffer that goes on behind its terminator. *)
From S2P Require Import Prelude.
From S2P Require Import CString.
From S2P Require Import Double.
From S2P Require Import Json.
From S2P Require Import JsonSpec.
From S2P Require Import JsonParseFacts.
From Stdlib Require Import Ascii.

Open Scope C.

(** ** Texts *)

Definition is_hex (c : ascii) : bool := bool_decide (is_Some (hex c)).

(** Behind a backslash: a character, and four digits behind a [u]. *)
Definition escape_complete (r : chars) : bool :=
  match r with
  | [] => false
  | d :: r => negb (isc d 117) || (4 <=? length r)%nat && forallb is_hex (take 4 r)
  end.

Fixpoint escapes_ok (s : chars) : bool :=
  match s with
  | [] => true
  | c :: r => (negb (isc c 92) || escape_complete r) && escapes_ok r
  end.

Definition unsigned (r : chars) : chars :=
  match r with c :: r' => if isc c 43 || isc c 45 then r' else r | [] => [] end.

Fixpoint exponents_ok (s : chars) : bool :=
  match s with
  | [] => true
  | c :: r =>
      (negb (isc c 101 || isc c 69) || (length (span isdigit (unsigned r)).1 <=? 9)%nat) &&
      exponents_ok r
  end.

Definition text_ok (s : chars) : bool := no_nul s && escapes_ok s && exponents_ok s.

Lemma text_ok_cons c s : text_ok (c :: s) = true ->
  isc c 0 = false /\ text_ok s = true /\ (isc c 92 = true -> escape_complete s = true) /\
  (isc c 101 || isc c 69 = true -> (length (span isdigit (unsigned s)).1 <= 9)%nat).
Proof.
  unfold text_ok. cbn [no_nul forallb escapes_ok exponents_ok].
  intros [[[H0 Hn]%andb_true_iff [He Hes]%andb_true_iff]%andb_true_iff [Hx Hxs]%andb_true_iff]%andb_true_iff.
  split; [by destruct (isc c 0)|]. split.
  { apply andb_true_iff. split; [apply andb_true_iff; by split|done]. }
  split; intros E; rewrite E in *; [done|]. cbn [negb orb] in Hx. by apply Nat.leb_le.
Qed.

Lemma text_ok_suffix s' s : s' `suffix_of` s -> text_ok s = true -> text_ok s' = true.
Proof.
  intros [w ->]. induction w as [|c w IH]; [done|]. intros (_ & Ht & _)%text_ok_cons. by apply IH.
Qed.

Section Safe.
Context `{Lib : CLibrary}.
Variable rest : chars.

Abbreviation buf s := (s ++ NUL :: rest).

(** A pointer into the text, at [s] or behind; strictly behind. *)
Definition after (s q : chars) : Prop := exists s', q = buf s' /\ s' `suffix_of` s.
Definition behind (s q : chars) : Prop :=
  exists s', q = buf s' /\ s' `suffix_of` s /\ (length s' < length s)%nat.

Lemma after_refl s : after s (buf s).
Proof. by exists s. Qed.

Lemma behind_after s q : behind s q -> after s q.
Proof. intros (s' & ? & ? & _). by exists s'. Qed.

Lemma after_trans s s1 q : s1 `suffix_of` s -> after s1 q -> after s q.
Proof. intros Hs (s' & ? & ?). exists s'. split; [done|]. by trans s1. Qed.

Lemma behind_trans s s1 q : s1 `suffix_of` s -> behind s1 q -> behind s q.
Proof.
  intros Hs (s' & ? & ? & ?). exists s'. split; [done|]. split; [by trans s1|].
  apply suffix_length in Hs. lia.
Qed.

Lemma after_cons c s q : after s q -> behind (c :: s) q.
Proof.
  intros (s' & ? & Hs). exists s'. split; [done|]. split; [by apply suffix_cons_r|].
  apply suffix_length in Hs. cbn. lia.
Qed.

(** What a parsing function may return from [s]. *)
Definition post (s : chars) (r : option (cJSON * chars)) : Prop :=
  match r with None => True | Some (_, q) => behind s q end.

Lemma gives_any_at p k : (k < length p)%nat -> gives (at_ p k) (fun c => p !! k = Some c).
Proof.
  intros Hk. destruct (lookup_lt_is_Some_2 p k Hk) as [c Hc]. 
  apply (gives_conseq _ (eq c)); [by apply gives_at|by intros ? <-].
Qed.

Lemma gives_second c s : gives (at_ (c :: buf s) 1) (fun c1 => (c :: buf s) !! 1%nat = Some c1).
Proof. apply gives_any_at. cbn [length]. rewrite length_app. cbn [length]. lia. Qed.

Lemma gives_none_ep p : gives (set_ep p ;;; pret (@None (cJSON * chars))) (fun r => r = None).
Proof. intros s. by eexists _, _. Qed.

Lemma gives_some_malloc : gives cJSON_malloc (fun _ => True).
Proof. intros s. by eexists _, _. Qed.

(** ** Blanks and numbers *)

Lemma skip_safe s : no_nul s = true -> exists s', skip (buf s) = Some (buf s') /\ s' `suffix_of` s.
Proof.
  induction s as [|c s IH]; intros Hs; [by exists []|].
  apply no_nul_cons in Hs as [Hc Hs]. cbn [app skip]. destruct (_ && _).
  - destruct (IH Hs) as (s' & -> & ?). exists s'. split; [done|]. by apply suffix_cons_r.
  - by exists (c :: s).
Qed.

Lemma text_no_nul s : text_ok s = true -> no_nul s = true.
Proof. unfold text_ok. by intros [[? _]%andb_true_iff _]%andb_true_iff. Qed.

Lemma read_digits_safe s : forall n scale down, exists n' scale' s',
  read_digits n scale down (buf s) = Some (n', scale', buf s') /\ s' `suffix_of` s.
Proof.
  induction s as [|c s IH]; intros n scale down; [by eexists _, _, []|].
  cbn [app read_digits]. destruct (isdigit c).
  - edestruct IH as (n' & sc' & s' & -> & Hs). eexists _, _, s'. split; [done|]. by apply suffix_cons_r.
  - by eexists _, _, (c :: s).
Qed.

Lemma read_exponent_safe s : forall v k,
  0 <= v < 10 ^ Z.of_nat k -> (k + length (span isdigit s).1 <= 9)%nat ->
  exists e s', read_exponent v (buf s) = Some (e, buf s') /\ s' `suffix_of` s.
Proof.
  induction s as [|c s IH]; intros v k Hv Hk; [by eexists _, []|].
  cbn [app read_exponent span] in *. destruct (isdigit c) eqn:Hc; [|by eexists _, (c :: s)].
  destruct (span isdigit s) as [ds r]. cbn [fst length] in *. unfold isdigit in Hc.
  assert (Hv' : 0 <= v * 10 + (code c - 48) < 10 ^ Z.of_nat (S k)).
  { rewrite Nat2Z.inj_succ, Z.pow_succ_r by lia. lia. }
  assert (Hmax : v * 10 + (code c - 48) <= INT_MAX).
  { unfold INT_MAX. pose proof (Z.pow_le_mono_r 10 (Z.of_nat (S k)) 9 ltac:(lia) ltac:(lia)). lia. }
  rewrite (proj2 (Z.leb_le _ _) Hmax).
  destruct (IH _ _ Hv' ltac:(lia)) as (e & s' & -> & ?). eexists _, s'. split; [done|].
  by apply suffix_cons_r.
Qed.

Lemma integer_part_safe s :
  gives (integer_part (buf s)) (fun r => after s r.2 /\
    (forall c s1, s = c :: s1 -> isdigit c = true -> behind s r.2)).
Proof.
  unfold integer_part.
  assert (Hcore : forall s, gives (
    do c <- at_ (buf s) 0;
    if (49 <=? code c) && (code c <=? 57) then
      do r <- lift (read_digits (dbl 0) (dbl 0) (dbl 0) (buf s));
      let '(n, _, num) := r in pret (n, num)
    else pret (dbl 0, buf s)) (fun r => after s r.2 /\
      (forall c s1, s = c :: s1 -> isdigit c = true -> isc c 48 = false -> behind s r.2))).
  { intros [|c s1]; cbn [app].
    - apply (gives_step _ _ NUL); [by apply gives_at|]. apply gives_ret. split; [by apply (after_refl [])|done].
    - apply (gives_step _ _ c); [by apply gives_at|]. destruct (_ && _) eqn:E.
      + cbn [read_digits]. replace (isdigit c) with true by (symmetry; unfold isdigit; lia).
        destruct (read_digits_safe s1 (dadd (dmul (dbl 0) (dbl 10)) (digit_value c))
          (dsub (dbl 0) (dbl 0)) (dbl 0)) as (n' & sc' & s' & Hr & Hs). rewrite Hr.
        apply (gives_step _ _ (n', sc', buf s')); [by apply gives_lift|]. apply gives_ret.
        assert (Hb : behind (c :: s1) (buf s')) by (apply after_cons; by exists s').
        split; [by apply behind_after|done].
      + apply gives_ret. split; [by apply (after_refl (c :: s1))|].
        intros d s2 [= <- <-] Hd H48. unfold isdigit in Hd. unfold isc in H48. lia. }
  destruct s as [|c s].
  - apply (gives_step _ _ NUL); [by apply gives_at|].
    apply (gives_conseq _ _ _ (Hcore [])). intros r [Hr _]. by split.
  - cbn [app]. apply (gives_step _ _ c); [by apply gives_at|]. destruct (isc c 48) eqn:H48.
    + cbn [drop]. rewrite ?drop_0. apply (gives_conseq _ _ _ (Hcore s)). intros r [Hr _].
      apply (after_cons c) in Hr. split; [by apply behind_after|done].
    + apply (gives_conseq _ _ _ (Hcore (c :: s))). intros r [Hr Hb]. split; [done|].
      intros d s1 [= <- <-] Hd. by apply (Hb c s).
Qed.

Lemma fractional_part_safe n s : gives (fractional_part n (buf s)) (fun r => after s r.2).
Proof.
  unfold fractional_part. destruct s as [|c s]; cbn [app].
  { apply (gives_step _ _ NUL); [by apply gives_at|]. apply gives_ret. by apply (after_refl []). }
  apply (gives_step _ _ c); [by apply gives_at|].
  destruct (isc c 46); [|apply gives_ret; by apply (after_refl (c :: s))].
  apply (gives_bind _ _ _ _ (gives_second c s)). intros c1 _. destruct (isdigit c1); [|apply gives_ret; by apply (after_refl (c :: s))].
  cbn [drop]. rewrite ?drop_0. destruct (read_digits_safe s n (dbl 0) (dbl 1)) as (n' & sc & s' & E & Hs).
  rewrite E. apply gives_ret. apply behind_after, after_cons. by exists s'.
Qed.

Lemma exponent_part_safe s :
  text_ok s = true -> gives (exponent_part (buf s)) (fun r => after s r.2).
Proof.
  intros Ht. unfold exponent_part. destruct s as [|c s]; cbn [app].
  { apply (gives_step _ _ NUL); [by apply gives_at|]. apply gives_ret. by apply (after_refl []). }
  apply (gives_step _ _ c); [by apply gives_at|].
  destruct (isc c 101 || isc c 69) eqn:E; [|apply gives_ret; by apply (after_refl (c :: s))].
  apply text_ok_cons in Ht as (_ & Ht & _ & Hx). specialize (Hx E).
  apply (gives_bind _ _ _ _ (gives_second c s)). intros c1 Hc1.
  assert (Hread : forall sg s1, s1 `suffix_of` s -> (length (span isdigit s1).1 <= 9)%nat ->
    gives (do e <- lift (read_exponent 0 (buf s1));
           let '(subscale, num) := e in pret (subscale * sg, num)) (fun r => after (c :: s) r.2)).
  { intros sg s1 Hs1 Hl. destruct (read_exponent_safe s1 0 0) as (e & s' & Er & Hs'); [done|lia|].
    rewrite Er. apply (gives_step _ _ (e, buf s')); [by apply gives_lift|]. apply gives_ret.
    apply behind_after, after_cons. apply (after_trans s s1); [done|]. by exists s'. }
  destruct s as [|d s]; cbn [app] in Hc1; injection Hc1 as <-.
  - apply (Hread 1 []); [done|cbn; lia].
  - unfold unsigned in Hx. destruct (isc d 43) eqn:E43; cbn [orb] in Hx.
    + apply (Hread 1 s); [by apply suffix_cons_r|done].
    + destruct (isc d 45) eqn:E45.
      * apply (Hread (-1) s); [by apply suffix_cons_r|done].
      * by apply (Hread 1 (d :: s)).
Qed.

Lemma parse_number_safe item c s :
  text_ok (c :: s) = true -> isc c 45 || isdigit c = true ->
  gives (parse_number item (c :: buf s)) (fun r => behind (c :: s) r.2).
Proof.
  intros Ht Hc. unfold parse_number.
  assert (Htail : forall sign s0 num, s0 `suffix_of` c :: s -> 
    gives (integer_part num) (fun r => after s0 r.2 /\ behind (c :: s) r.2) ->
    gives (
      do r <- integer_part num;
      let '(n, num) := r in
      do r <- fractional_part n num;
      let '(n, scale, num) := r in
      do r <- exponent_part num;
      let '(e, num) := r in
      let n := dmul (dmul sign n) (pow10 (dadd scale (dbl e))) in
      pret (with_number item n, num)) (fun r => behind (c :: s) r.2)).
  { intros sign s0 num Hs0 Hi. apply (gives_bind _ _ _ _ Hi).
    intros [n q] [_ Hq]. cbn [snd] in Hq. destruct Hq as (s1 & -> & Hs1 & Hl1).
    apply (gives_bind _ _ _ _ (fractional_part_safe n s1)). intros [[n2 sc] q2] Hq.
    cbn [snd] in Hq. destruct Hq as (s2 & -> & Hs2).
    apply (gives_bind _ _ (fun r => after s2 r.2)).
    { apply exponent_part_safe, (text_ok_suffix s2 (c :: s)); [by trans s1|done]. }
    intros [e q3] Hq. cbn [snd] in Hq. destruct Hq as (s3 & -> & Hs3). apply gives_ret. exists s3. split; [done|]. split.
    - trans s2; [done|]. by trans s1.
    - apply suffix_length in Hs2, Hs3. lia. }
  apply (gives_step _ _ c); [by apply gives_at|]. destruct (isc c 45) eqn:E45.
  - cbn [drop]. rewrite ?drop_0. apply (Htail _ s); [by apply suffix_cons_r|].
    apply (gives_conseq _ _ _ (integer_part_safe s)). intros r [Hr _].
    split; [done|]. by apply after_cons.
  - apply (Htail _ (c :: s)); [done|].
    apply (gives_conseq _ _ _ (integer_part_safe (c :: s))). intros r [Hr Hb].
    split; [done|]. by apply (Hb c s).
Qed.

(** ** Strings *)

Lemma scan_le p : forall k n, scan p k = Some n -> (k <= n)%nat.
Proof.
  induction p as [p IH] using (induction_ltof1 _ length). unfold ltof in IH.
  intros k n. destruct p as [|c p]; [done|]. cbn [scan].
  destruct (_ || _); [by intros [= ->]|].
  destruct (isc c 92); [destruct p as [|d p]; [done|]|]; intros E; apply IH in E; cbn in *; lia.
Qed.

(** A complete escape, taken apart. *)
Lemma escape_cases s :
  escape_complete s = true ->
  exists d r, s = d :: r /\ (isc d 117 = true ->
    exists h1 h2 h3 h4 r', r = h1 :: h2 :: h3 :: h4 :: r' /\
      is_hex h1 = true /\ is_hex h2 = true /\ is_hex h3 = true /\ is_hex h4 = true).
Proof.
  destruct s as [|d r]; [done|]. intros He. exists d, r. split; [done|]. intros Hd.
  cbn [escape_complete] in He. rewrite Hd in He. cbn [negb orb] in He.
  apply andb_true_iff in He as [Hl Hh]. apply Nat.leb_le in Hl.
  destruct r as [|h1 [|h2 [|h3 [|h4 r']]]]; try (cbn in Hl; lia).
  cbn [take forallb] in Hh. rewrite !andb_true_iff in Hh. exists h1, h2, h3, h4, r'. tauto.
Qed.

Lemma hex_plain h : is_hex h = true -> isc h 34 = false /\ isc h 0 = false /\ isc h 92 = false.
Proof.
  unfold is_hex, hex, isc. intros Hh%bool_decide_eq_true.
  destruct ((48 <=? code h) && (code h <=? 57)) eqn:E1; [lia|].
  destruct ((65 <=? code h) && (code h <=? 70)) eqn:E2; [lia|].
  destruct ((97 <=? code h) && (code h <=? 102)) eqn:E3; [lia|].
  destruct Hh as [? Hh]. congruence.
Qed.

Lemma scan_hex h p k : is_hex h = true -> scan (h :: p) k = scan p (S k).
Proof. intros (H1 & H2 & H3)%hex_plain. cbn [scan]. by rewrite H1, H2, H3. Qed.

Lemma scan_backslash c d p k : isc c 92 = true -> scan (c :: d :: p) k = scan p (S k).
Proof.
  intros Hc. cbn [scan]. replace (isc c 34 || isc c 0) with false by (unfold isc in *; lia).
  by rewrite Hc.
Qed.

Lemma scan_safe s : text_ok s = true -> forall k, exists n, scan (buf s) k = Some n.
Proof.
  induction s as [s IH] using (induction_ltof1 _ length). unfold ltof in IH.
  intros Ht k. destruct s as [|c s]; [by exists k|].
  apply text_ok_cons in Ht as (_ & Ht & He & _). cbn [app scan].
  destruct (_ || _); [by exists k|].
  destruct (isc c 92).
  - destruct (escape_cases s (He eq_refl)) as (d & r & -> & _). apply IH; [cbn; lia|].
    by apply text_ok_cons in Ht as (_ & ? & _).
  - apply IH; [cbn; lia|done].
Qed.

Lemma gives_hex4 h1 h2 h3 h4 p : gives (parse_hex4 (h1 :: h2 :: h3 :: h4 :: p)) (fun _ => True).
Proof.
  assert (H : forall n l h, (n <= length l)%nat -> gives (hex_digits n h l) (fun _ => True)).
  { induction n as [|n IH]; intros l h Hl; [by apply gives_ret|]. destruct l as [|c l]; [cbn in Hl; lia|].
    cbn [hex_digits]. apply (gives_step _ _ c); [by apply gives_at|].
    destruct (hex c); [|by apply gives_ret]. cbn [drop]. rewrite ?drop_0. apply IH. cbn in Hl. lia. }
  apply H. cbn. lia.
Qed.

Lemma utf8_length uc : (length (utf8 uc) <= 4)%nat.
Proof.
  unfold utf8. destruct (uc <? 0x80); [cbn; lia|]. destruct (uc <? 0x800); [cbn; lia|].
  destruct (uc <? 0x10000); cbn; lia.
Qed.

(** Where the escape ends the counting loop has counted at least as much as
    was written. *)
Definition counted (s q : chars) (k : nat) (n : nat) : Prop :=
  exists s' k', q = buf s' /\ s' `suffix_of` s /\ (k <= k')%nat /\ scan (buf s') k' = Some n.

Lemma unicode_safe h1 h2 h3 h4 s d k n :
  text_ok s = true -> scan (buf s) k = Some n ->
  gives (unicode (d :: h1 :: h2 :: h3 :: h4 :: buf s)) (fun '(bs, q) =>
    (length bs <= 4)%nat /\ counted s (drop 1 q) k n).
Proof.
  intros Ht Hn. unfold unicode. cbn [drop].
  assert (Hend : counted s (buf s) k n) by (by exists s, k).
  assert (Hnone : gives (pret ([], h4 :: buf s) : prog heap (chars * chars)) (fun '(bs, q) =>
    (length bs <= 4)%nat /\ counted s (drop 1 q) k n)).
  { apply gives_ret. split; [cbn; lia|exact Hend]. }
  apply (gives_bind _ _ _ _ (gives_hex4 _ _ _ _ _)). intros uc _.
  destruct (_ || _); [done|]. destruct (_ && _).
  2: { apply gives_ret. split; [apply utf8_length|exact Hend]. }
  destruct s as [|c s]; cbn [app] in *.
  { apply (gives_step _ _ NUL); [by apply gives_at|]. exact Hnone. }
  apply (gives_step _ _ c); [by apply gives_at|].
  destruct (isc c 92) eqn:E92; cbn [negb]; [|done].
  apply text_ok_cons in Ht as (_ & Ht & He & _).
  destruct (escape_cases s (He E92)) as (e & r & -> & Hu). cbn [app] in *.
  apply (gives_step _ _ e); [by apply gives_at|]. destruct (isc e 117) eqn:E117; cbn [negb]; [|done].
  destruct (Hu eq_refl) as (g1 & g2 & g3 & g4 & r' & -> & G1 & G2 & G3 & G4). cbn [app drop] in *.
  apply (gives_bind _ _ _ _ (gives_hex4 _ _ _ _ _)). intros uc2 _.
  assert (Hend2 : counted (c :: e :: g1 :: g2 :: g3 :: g4 :: r') (buf r') k n).
  { exists r', (5 + k)%nat. split; [done|]. split; [by exists [c; e; g1; g2; g3; g4]|].
    split; [lia|]. by rewrite scan_backslash, !scan_hex in Hn. }
  destruct (_ || _); apply gives_ret; (split; [|exact Hend2]); [cbn; lia|apply utf8_length].
Qed.

Lemma emit_safe size out bs n :
  (length out + length bs <= n)%nat -> (n <= size)%nat ->
  gives (emit size out bs) (eq (out ++ bs)).
Proof. intros Hl Hs. unfold emit. rewrite (proj2 (Nat.leb_le _ _)) by lia. by apply gives_ret. Qed.

Lemma decode_safe fuel : forall s size out k n,
  text_ok s = true -> (length s < fuel)%nat -> scan (buf s) k = Some n ->
  (length out <= k)%nat -> (n <= size)%nat ->
  gives (decode fuel size (buf s) out) (fun '(o, q) => (length o <= n)%nat /\ after s q).
Proof.
  induction fuel as [|fuel IH]; intros s size out k n Ht Hf Hn Hk Hs; [lia|].
  assert (Hstop : forall q, after s q -> gives (pret (out, q) : prog heap (chars * chars))
    (fun '(o, q) => (length o <= n)%nat /\ after s q)).
  { intros q Hq. apply gives_ret. apply scan_le in Hn. split; [lia|done]. }
  destruct s as [|c s]; cbn [app decode].
  { apply (gives_step _ _ NUL); [by apply gives_at|]. apply Hstop. by apply (after_refl []). }
  apply (gives_step _ _ c); [by apply gives_at|]. cbn [app scan] in Hn.
  destruct (isc c 34 || isc c 0); [apply Hstop; by apply (after_refl (c :: s))|].
  apply text_ok_cons in Ht as (_ & Ht & He & _). cbn [length] in Hf.
  (* Going on from a suffix [s'], with [bs] written. *)
  assert (Hgo : forall s' k' bs, s' `suffix_of` s -> scan (buf s') k' = Some n ->
    (length out + length bs <= k')%nat ->
    gives (do o <- emit size out bs; decode fuel size (buf s') o)
      (fun '(o, q) => (length o <= n)%nat /\ after (c :: s) q)).
  { intros s' k' bs Hs' Hn' Hl. pose proof (scan_le _ _ _ Hn').
    apply (gives_step _ _ (out ++ bs)); [apply (emit_safe _ _ _ n); lia|].
    apply suffix_length in Hs' as Hlen.
    apply (gives_conseq _ _ _ (IH s' size (out ++ bs) k' n (text_ok_suffix _ _ Hs' Ht) ltac:(lia) Hn'
      ltac:(rewrite length_app; lia) Hs)).
    intros [o q] [Ho Hq]. split; [done|]. apply (after_trans _ s'); [|done].
    by apply suffix_cons_r. }
  destruct (isc c 92); cbn [negb].
  2: { cbn [drop]. rewrite ?drop_0. apply (Hgo s (S k)); [done..|cbn; lia]. }
  destruct (escape_cases s (He eq_refl)) as (d & r & -> & Hu). cbn [app drop] in *. rewrite ?drop_0.
  apply (gives_step _ _ d); [by apply gives_at|].
  apply text_ok_cons in Ht as (_ & Ht & _).
  destruct (isc d 117).
  - destruct (Hu eq_refl) as (h1 & h2 & h3 & h4 & r' & -> & H1 & H2 & H3 & H4). cbn [app] in *.
    rewrite !scan_hex in Hn by done.
    assert (Ht' : text_ok r' = true) by (apply (text_ok_suffix r' (h1 :: h2 :: h3 :: h4 :: r'));
      [by exists [h1; h2; h3; h4]|done]).
    apply (gives_bind _ _ _ _ (unicode_safe h1 h2 h3 h4 r' d _ n Ht' Hn)).
    intros [bs q] [Hbs (s' & k' & Hq & Hs' & Hk' & Hn')]. rewrite Hq. apply (Hgo s' k'); [|done|lia].
    trans r'; [done|]. by exists [d; h1; h2; h3; h4].
  - cbn [drop]. rewrite ?drop_0. apply (Hgo r (S k)); [by apply suffix_cons_r|done|cbn; lia].
Qed.

Lemma parse_string_safe item s : text_ok s = true -> gives (parse_string item (buf s)) (post s).
Proof.
  intros Ht. unfold parse_string.
  assert (Hnone : gives (set_ep (buf s) ;;; pret None) (post s)).
  { apply (gives_conseq _ _ _ (gives_none_ep _)). by intros ? ->. }
  destruct s as [|c s]; cbn [app] in *.
  { apply (gives_step _ _ NUL); [by apply gives_at|]. exact Hnone. }
  apply (gives_step _ _ c); [by apply gives_at|]. destruct (isc c 34); cbn [negb]; [|done].
  cbn [drop]. rewrite ?drop_0. apply text_ok_cons in Ht as (_ & Ht & _).
  destruct (scan_safe s Ht 0) as [n Hn].
  apply (gives_step _ _ n); [by apply gives_lift|].
  apply (gives_bind _ _ _ _ gives_some_malloc). intros ok _. destruct ok; cbn [negb]; [|by apply gives_ret].
  assert (Hd : gives (decode (S (length (buf s))) (n + 1) (buf s) [])
    (fun '(o, q) => (length o <= n)%nat /\ after s q)).
  { apply (decode_safe _ s (n + 1) [] 0 n); [done| |done|cbn; lia..]. rewrite length_app. lia. }
  apply (gives_bind _ _ _ _ Hd). intros [o q] [Ho (s' & -> & Hs')].
  apply (gives_step _ _ (o ++ [NUL])); [apply (emit_safe _ _ _ (n + 1)); cbn; lia|].
  destruct s' as [|d s']; cbn [app].
  - apply (gives_step _ _ NUL); [by apply gives_at|]. apply gives_ret. cbn.
    apply after_cons. by exists [].
  - apply (gives_step _ _ d); [by apply gives_at|]. apply gives_ret. unfold post.
    destruct (isc d 34); apply after_cons; [|by exists (d :: s')].
    cbn [drop]. rewrite ?drop_0. exists s'. split; [done|]. trans (d :: s'); [by apply suffix_cons_r|done].
Qed.

(** ** Values *)

Lemma skip_result_safe s r : text_ok s = true -> post s r -> gives (skip_result r) (post s).
Proof.
  intros Ht Hr. destruct r as [[item q]|]; [|by apply gives_ret].
  destruct Hr as (s' & -> & Hs & Hl).
  destruct (skip_safe s' (text_no_nul _ (text_ok_suffix _ _ Hs Ht))) as (s2 & E & Hs2).
  apply (gives_step _ _ (buf s2)); [by apply gives_lift|]. apply gives_ret.
  apply suffix_length in Hs2 as Hl2. exists s2. split; [done|]. split; [by trans s'|lia].
Qed.

Lemma post_suffix s s1 r : s1 `suffix_of` s -> post s1 r -> post s r.
Proof. intros Hs. destruct r as [[item q]|]; [|done]. by apply behind_trans. Qed.

Lemma gives_fail s p : gives (set_ep p ;;; pret None) (post s).
Proof. apply (gives_conseq _ _ _ (gives_none_ep p)). by intros ? ->. Qed.

Section Elements.
Variable pv : cJSON -> chars -> prog heap (option (cJSON * chars)).
Variable bound : nat.
Hypothesis pv_safe : forall item s, text_ok s = true -> (length s < bound)%nat ->
  gives (pv item (buf s)) (post s).

(** A value behind blanks. *)
Lemma value_safe item s : text_ok s = true -> (length s < bound)%nat ->
  gives (do value <- lift (skip (buf s)); do r <- pv item value; skip_result r) (post s).
Proof.
  intros Ht Hl. destruct (skip_safe s (text_no_nul _ Ht)) as (s1 & E & Hs1).
  apply (gives_step _ _ (buf s1)); [by apply gives_lift|].
  apply suffix_length in Hs1 as Hl1. pose proof (text_ok_suffix _ _ Hs1 Ht) as Ht1.
  apply (gives_bind _ _ _ _ (pv_safe item s1 Ht1 ltac:(lia))). intros r Hr.
  apply (gives_conseq _ _ _ (skip_result_safe s1 r Ht1 Hr)). intros r'. by apply post_suffix.
Qed.

Lemma parse_element_safe s : text_ok s = true -> (length s < bound)%nat ->
  gives (parse_element pv (buf s)) (post s).
Proof.
  intros Ht Hl. unfold parse_element.
  apply (gives_bind _ _ (fun _ => True)).
  { apply (gives_bind _ _ _ _ gives_some_malloc). intros ok _. by apply gives_ret. }
  intros [item|] _; [by apply value_safe|by apply gives_ret].
Qed.

Lemma parse_member_safe s : text_ok s = true -> (length s < bound)%nat ->
  gives (parse_member pv (buf s)) (post s).
Proof.
  intros Ht Hl. unfold parse_member.
  apply (gives_bind _ _ (fun _ => True)).
  { apply (gives_bind _ _ _ _ gives_some_malloc). intros ok _. by apply gives_ret. }
  intros [item|] _; [|by apply gives_ret].
  destruct (skip_safe s (text_no_nul _ Ht)) as (s1 & E & Hs1). pose proof (text_ok_suffix _ _ Hs1 Ht) as Ht1.
  apply (gives_step _ _ (buf s1)); [by apply gives_lift|].
  apply (gives_bind _ _ _ _ (parse_string_safe item s1 Ht1)). intros r Hr.
  apply (gives_bind _ _ _ _ (skip_result_safe s1 r Ht1 Hr)). intros [[item2 q]|] Hq; [|by apply gives_ret].
  destruct Hq as (s2 & -> & Hs2 & Hl2). apply suffix_length in Hs1 as Hl1.
  destruct s2 as [|c s2]; cbn [app].
  { apply (gives_step _ _ NUL); [by apply gives_at|]. apply gives_fail. }
  apply (gives_step _ _ c); [by apply gives_at|]. destruct (isc c 58); cbn [negb]; [|apply gives_fail].
  cbn [drop]. rewrite ?drop_0.
  assert (Hs3 : s2 `suffix_of` s) by (trans s1; [trans (c :: s2); [by apply suffix_cons_r|done]|done]).
  cbn [length] in Hl2.
  apply (gives_conseq _ _ _ (value_safe (name_from_value item2) s2 (text_ok_suffix _ _ Hs3 Ht) ltac:(lia))).
  intros r'. by apply post_suffix.
Qed.

Section More.
Variable element : chars -> prog heap (option (cJSON * chars)).
Hypothesis element_safe : forall s, text_ok s = true -> (length s < bound)%nat ->
  gives (element (buf s)) (post s).

Lemma parse_more_safe stop item n : stop <> 0 -> forall children s,
  text_ok s = true -> (length s < bound)%nat -> (length s < n)%nat ->
  gives (parse_more n element stop item children (buf s)) (post s).
Proof.
  intros Hstop. assert (Hnul : isc NUL stop = false) by (unfold isc; change (code NUL) with 0; lia).
  induction n as [|n IH]; intros children s Ht Hb Hn; [lia|]. cbn [parse_more].
  destruct s as [|c s]; cbn [app].
  { apply (gives_step _ _ NUL); [by apply gives_at|]. change (isc NUL 44) with false.
    rewrite Hnul. apply gives_fail. }
  apply (gives_step _ _ c); [by apply gives_at|]. cbn [length] in *.
  apply text_ok_cons in Ht as (_ & Ht & _). destruct (isc c 44).
  - cbn [drop]. rewrite ?drop_0. apply (gives_bind _ _ _ _ (element_safe s Ht ltac:(lia))).
    intros [[item2 q]|] Hq; [|by apply gives_ret]. destruct Hq as (s2 & -> & Hs2 & Hl2).
    apply (gives_conseq _ _ _ (IH (children ++ [item2]) s2 (text_ok_suffix _ _ Hs2 Ht) ltac:(lia)
      ltac:(lia))). intros r. apply post_suffix. by apply suffix_cons_r.
  - destruct (isc c stop); [|apply gives_fail]. apply gives_ret. unfold post. cbn [drop].
    rewrite ?drop_0. apply after_cons, after_refl.
Qed.

Lemma parse_container_safe t start stop item s :
  start <> 0 -> stop <> 0 -> text_ok s = true -> (length s <= bound)%nat ->
  gives (parse_container element t start stop item (buf s)) (post s).
Proof.
  intros Hstart Hstop Ht Hb. unfold parse_container.
  assert (Hnul : forall n, n <> 0 -> isc NUL n = false)
    by (intros n Hn; unfold isc; change (code NUL) with 0; lia).
  destruct s as [|c s]; cbn [app].
  { apply (gives_step _ _ NUL); [by apply gives_at|]. rewrite Hnul by done. apply gives_fail. }
  apply (gives_step _ _ c); [by apply gives_at|].
  apply text_ok_cons in Ht as (_ & Ht & _). cbn [length] in Hb.
  destruct (isc c start); cbn [negb]; [|apply gives_fail]. cbn [drop]. rewrite ?drop_0.
  destruct (skip_safe s (text_no_nul _ Ht)) as (s1 & E & Hs1).
  apply (gives_step _ _ (buf s1)); [by apply gives_lift|].
  apply suffix_length in Hs1 as Hl1. pose proof (text_ok_suffix _ _ Hs1 Ht) as Ht1.
  assert (Hs1c : s1 `suffix_of` c :: s) by (by apply suffix_cons_r).
  assert (Hgo : gives (do r <- element (buf s1);
    match r with
    | None => pret None
    | Some (child, value) =>
        parse_more (S (length value)) element stop (with_type t item) [child] value
    end) (post (c :: s))).
  { apply (gives_bind _ _ _ _ (element_safe s1 Ht1 ltac:(lia))).
    intros [[item2 q]|] Hq; [|by apply gives_ret]. destruct Hq as (s2 & -> & Hs2 & Hl2).
    apply (gives_conseq _ (post s2)).
    - apply parse_more_safe; [done|by apply (text_ok_suffix s2 s1)|lia|]. rewrite length_app. lia.
    - intros r. apply post_suffix. by trans s1. }
  destruct s1 as [|d s1]; cbn [app] in *.
  { apply (gives_step _ _ NUL); [by apply gives_at|]. rewrite Hnul by done. exact Hgo. }
  apply (gives_step _ _ d); [by apply gives_at|]. destruct (isc d stop); [|exact Hgo].
  apply gives_ret. unfold post. cbn [drop]. rewrite ?drop_0. apply after_cons.
  exists s1. split; [done|]. trans (d :: s1); [by apply suffix_cons_r|done].
Qed.

End More.
End Elements.

Lemma strncmp_safe w : no_nul w = true -> forall s,
  exists b, strncmp w (buf s) = Some b /\ (b = true -> exists s', s = w ++ s').
Proof.
  induction w as [|a w IH]; intros Hw s; [exists true; split; [done|]; by exists s|].
  apply no_nul_cons in Hw as [Ha Hw]. destruct s as [|c s]; cbn [app strncmp].
  - rewrite bool_decide_eq_false_2; [by exists false|]. intros ->. done.
  - case_bool_decide as E; cbn [negb]; [|by exists false]. subst c.
    destruct (IH Hw s) as (b & -> & Hb). exists b. split; [done|].
    intros [s' ->]%Hb. by exists s'.
Qed.

Lemma word_safe w item s (k : prog heap (option (cJSON * chars))) :
  no_nul w = true -> w <> [] -> gives k (post s) ->
  gives (do b <- lift (strncmp w (buf s));
         if (b : bool) then pret (Some (item, drop (length w) (buf s))) else k) (post s).
Proof.
  intros Hw Hne Hk. destruct (strncmp_safe w Hw s) as (b & -> & Hb).
  apply (gives_step _ _ b); [by apply gives_ret|]. destruct b; [|done].
  destruct (Hb eq_refl) as [s' ->]. apply gives_ret. exists s'.
  rewrite <- app_assoc, drop_app_length. split; [done|]. split; [by exists w|].
  rewrite length_app. destruct w; [done|]. cbn. lia.
Qed.

Lemma parse_value_safe fuel : forall item s,
  text_ok s = true -> (length s < fuel)%nat -> gives (parse_value fuel item (buf s)) (post s).
Proof.
  induction fuel as [|fuel IH]; intros item s Ht Hf; [lia|]. cbn [parse_value].
  apply (word_safe (lit "null")); [done..|]. apply (word_safe (lit "false")); [done..|].
  apply (word_safe (lit "true")); [done..|].
  destruct s as [|c s]; cbn [app].
  { apply (gives_step _ _ NUL); [by apply gives_at|]. apply gives_fail. }
  apply (gives_step _ _ c); [by apply gives_at|].
  destruct (isc c 34); [by apply (parse_string_safe item (c :: s))|].
  destruct (isc c 45 || isdigit c) eqn:E.
  { apply (gives_bind _ _ _ _ (parse_number_safe item c s Ht E)). intros [it q] Hq.
    by apply gives_ret. }
  destruct (isc c 91).
  { apply (parse_container_safe fuel) with (s := c :: s); [|done|done|done|cbn in *; lia].
    by apply parse_element_safe. }
  destruct (isc c 123); [|apply gives_fail].
  apply (parse_container_safe fuel) with (s := c :: s); [|done|done|done|cbn in *; lia].
  by apply parse_member_safe.
Qed.

Lemma parse_with_opts_safe s require : text_ok s = true ->
  gives (cJSON_ParseWithOpts (buf s) require) (fun r =>
    match r with None => True | Some (_, q) => after s q end).
Proof.
  intros Ht. unfold cJSON_ParseWithOpts.
  apply (gives_bind _ _ (fun _ => True)).
  { apply (gives_bind _ _ _ _ gives_some_malloc). intros ok _. by apply gives_ret. }
  intros item _. apply (gives_bind _ _ (fun _ => True)); [by intros h; eexists _, _|]. intros _ _.
  destruct item as [item|]; [|by apply gives_ret].
  destruct (skip_safe s (text_no_nul _ Ht)) as (s1 & E & Hs1).
  apply (gives_step _ _ (buf s1)); [by apply gives_lift|].
  apply (gives_bind _ _ (post s1)).
  { apply parse_value_safe; [by apply (text_ok_suffix s1 s)|]. rewrite length_app. lia. }
  intros [[item2 q]|] Hq; [|by apply gives_ret]. destruct Hq as (s2 & -> & Hs2 & _).
  assert (Hs : s2 `suffix_of` s) by (by trans s1). destruct require.
  2: { apply gives_ret. by exists s2. }
  destruct (skip_safe s2 (text_no_nul _ (text_ok_suffix _ _ Hs Ht))) as (s3 & E3 & Hs3).
  apply (gives_step _ _ (buf s3)); [by apply gives_lift|].
  assert (Hend : after s (buf s3)) by (exists s3; split; [done|by trans s2]).
  destruct s3 as [|c s3]; cbn [app].
  - apply (gives_step _ _ NUL); [by apply gives_at|]. by apply gives_ret.
  - apply (gives_step _ _ c); [by apply gives_at|]. destruct (isc c 0); cbn [negb].
    + by apply gives_ret.
    + apply (gives_conseq _ _ _ (gives_none_ep _)). by intros ? ->.
Qed.

End Safe.
