(* ===== verification/JsonTop.v ===== *)
(** * JsonTop: the exported functions of cJSON.c

    Printing, parsing and minifying together; texts on which the parser is
    safe, and the two accesses behind memory that it makes on others. *)
From S2P Require Import Prelude.
From S2P Require Import CString.
From S2P Require Import Double.
From S2P Require Import Json.
From S2P Require Import JsonPrint.
From S2P Require Import JsonSpec.
From S2P Require Import JsonPrintFacts.
From S2P Require Import JsonParseFacts.
From S2P Require Import JsonMinify.
From S2P Require Import JsonSafe.
From Stdlib Require Import SpecFloat Ascii.

Open Scope C.

Definition cJSON_print `{CLibrary} (fmt : bool) : cJSON -> prog heap (option chars) :=
  if fmt then cJSON_Print else cJSON_PrintUnformatted.

(** The parser's item stands for the value. *)
Lemma value_of_item_of j : json_ok j = true -> forall name, value_of_item (item_of name j) = Some j.
Proof.
  induction j as [|b|z|s|l IH|ms IH] using json_nested_ind; intros Hok name.
  - done.
  - by destruct b.
  - cbn in *. rewrite Hok. by rewrite bool_decide_eq_true_2.
  - cbn in *. by rewrite Hok.
  - cbn [json_ok] in Hok. rewrite forallb_forall in Hok.
    change (JArr <$> all_some (map value_of_item (map (item_of None) l)) = Some (JArr l)).
    assert (E : all_some (map value_of_item (map (item_of None) l)) = Some l); [|by rewrite E].
    induction IH as [|j l Hj _ IH']; [done|]. cbn [map all_some].
    by rewrite (Hj (Hok j (or_introl eq_refl)) None), (IH' (fun x Hx => Hok x (or_intror Hx))).
  - cbn [json_ok] in Hok. rewrite forallb_forall in Hok.
    change (JObj <$> all_some (map member_value (map (fun '(n, j) => item_of (Some n) j) ms)) =
      Some (JObj ms)).
    assert (E : all_some (map member_value (map (fun '(n, j) => item_of (Some n) j) ms)) = Some ms);
      [|by rewrite E].
    induction IH as [|[n j] ms Hj _ IH']; [done|]. cbn [map all_some].
    pose proof (Hok (n, j) ltac:(by left)) as [Hn Hjok]%andb_true_iff.
    assert (Es : string_ (item_of (Some n) j) = Some n) by (destruct j; done).
    unfold member_value at 1. rewrite Es, (Hj Hjok), (IH' (fun x Hx => Hok x (or_intror Hx))).
    cbn [string_value]. by rewrite Hn.
Qed.

Section Library.
Context `{Lib : CLibrary}.

Section Memory.
(** Memory does not run out, and [pow(10.0, 0)] is 1. *)
Hypothesis memory : forall k, malloc_ok k = true.
Hypothesis pow10_zero : pow10 (dbl 0) = dbl 1.

Lemma print_gives item j fmt : value_of_item item = Some j ->
  gives (cJSON_print fmt item) (eq (Some (render fmt 0 j))).
Proof. intros Hj. unfold cJSON_print. destruct fmt; by apply print_value_spec. Qed.

Lemma parse_gives j fmt rest : json_ok j = true ->
  gives (cJSON_Parse (render fmt 0 j ++ NUL :: rest)) (eq (Some (item_of None j))).
Proof.
  intros Hj. apply (gives_step _ _ (Some (item_of None j, NUL :: rest))); [|by apply gives_ret].
  unfold cJSON_ParseWithOpts. apply (gives_step _ _ (Some zeroed)).
  { apply (gives_step _ _ true); [by apply gives_malloc|]. by apply gives_ret. }
  apply (gives_step _ _ tt); [by intros h; eexists _, _|].
  apply (gives_step _ _ (render fmt 0 j ++ NUL :: rest)).
  { apply gives_lift, skip_solid, render_solid. }
  pose proof (parse_value_spec memory pow10_zero j Hj (S (length (render fmt 0 j ++ NUL :: rest)))
    fmt 0%nat) as Hp.
  apply (gives_step _ _ (Some (item_of None j, NUL :: rest))); [|by apply gives_ret].
  apply Hp; [rewrite length_app; lia|done].
Qed.

End Memory.

(** C6: what is printed for an item is parsed back to the same value, members
    in their order, whatever stands behind the text in its buffer; formatted or
    not. The memory the printer asks for is enough for the text, and the
    parser's item stands for the value again. Numbers are those of a C [int], and
    memory does not run out. *)
Theorem cjson_roundtrip item j fmt s :
  (forall k, malloc_ok k = true) -> pow10 (dbl 0) = dbl 1 ->
  value_of_item item = Some j ->
  exists text s1, cJSON_print fmt item s = Some (Some text, s1) /\
  forall rest s2, exists item' s3,
    cJSON_Parse (text ++ NUL :: rest) s2 = Some (Some item', s3) /\
    value_of_item item' = Some j.
Proof.
  intros Hm Hp Hj. destruct (print_gives Hm item j fmt Hj s) as (t & s1 & E & <-).
  exists (render fmt 0 j), s1. split; [exact E|]. intros rest s2.
  pose proof (value_ok item j Hj) as Hok.
  destruct (parse_gives Hm Hp j fmt rest Hok s2) as (r & s3 & E3 & <-).
  exists (item_of None j), s3. split; [exact E3|]. by apply value_of_item_of.
Qed.

(** C29: minifying what [cJSON_Print] makes of an item, whose numbers are those
    of a C [int], gives what [cJSON_PrintUnformatted] makes of it, strings
    untouched, when memory does not run out. *)
Theorem cjson_minify_print item j s :
  (forall k, malloc_ok k = true) -> value_of_item item = Some j ->
  exists text short s1 s2,
    cJSON_Print item s = Some (Some text, s1) /\
    cJSON_PrintUnformatted item s = Some (Some short, s2) /\
    forall rest, cJSON_Minify (text ++ NUL :: rest) = Some short.
Proof.
  intros Hm Hj. destruct (print_gives Hm item j true Hj s) as (t & s1 & E1 & <-).
  destruct (print_gives Hm item j false Hj s) as (t & s2 & E2 & <-).
  exists (render true 0 j), (render false 0 j), s1, s2. split; [exact E1|]. split; [exact E2|].
  intros rest. apply minify_render. by apply (value_ok item).
Qed.

(** C16: on every text whose escapes are complete and whose exponents have at
    most nine digits the parser ends without a bad access, at NULL or with an
    item and a pointer into the text, whatever allocations succeed. *)
Theorem cjson_parse_safe text rest require s :
  text_ok text = true ->
  exists r s', cJSON_ParseWithOpts (text ++ NUL :: rest) require s = Some (r, s') /\
  match r with None => True | Some (_, q) => after rest text q end.
Proof. intros Ht. exact (parse_with_opts_safe rest text require Ht s). Qed.

(** A value behind the two allocations of the item and of the string. *)
Lemma parse_string_fails text s :
  malloc_ok (allocs s) = true -> isc QUOTE 34 = true ->
  (forall s', allocs s' = S (allocs s) -> parse_string zeroed (QUOTE :: text) s' = None) ->
  cJSON_Parse (QUOTE :: text) s = None.
Proof.
  intros Hm _ Hf. unfold cJSON_Parse, cJSON_ParseWithOpts, cJSON_New_Item, cJSON_malloc, pbind, pret.
  rewrite Hm. cbn [skip lift]. change (negb (isc QUOTE 0) && (code QUOTE <=? 32)) with false. cbn iota.
  unfold lift, pret. cbn [parse_value]. unfold pbind at 1.
  change (strncmp (lit "null") (QUOTE :: text)) with (Some false).
  change (strncmp (lit "false") (QUOTE :: text)) with (Some false).
  change (strncmp (lit "true") (QUOTE :: text)) with (Some false).
  unfold lift, pbind, pret, at_. cbn [lookup list_lookup].
  unfold pret at 1. change (isc QUOTE 34) with true. cbn iota. by rewrite Hf.
Qed.

(** Characters that are copied. *)
Definition copied (c : ascii) : bool := negb (escaped c).

Lemma decode_copied fuel size c p out :
  copied c = true -> isc c 0 = false ->
  decode (S fuel) size (c :: p) out =
  (do out <- emit size out [c]; decode fuel size p out).
Proof.
  unfold copied, escaped.
  intros [[_ H34]%orb_false_iff H92]%negb_true_iff%orb_false_iff H0.
  cbn [decode at_ lookup list_lookup]. unfold pbind at 1, pret at 1.
  rewrite H34, H0, H92. done.
Qed.
Lemma decode_overrun fuel a b c d e f p :
  forallb copied [d; e; f] = true -> no_nul [d; e; f] = true ->
  forall s, decode (S (S (S (S fuel)))) 2
    (BACKSLASH :: chr 117 :: QUOTE :: a :: b :: c :: d :: e :: f :: p) [] s = None.
Proof.
  cbn [forallb no_nul]. rewrite !andb_true_r, !andb_true_iff, !negb_true_iff.
  intros (Hd & He & Hf) (Hd0 & He0 & Hf0) s.
  change (decode (S (S (S (S fuel)))) 2
    (BACKSLASH :: chr 117 :: QUOTE :: a :: b :: c :: d :: e :: f :: p) [] s) with
    (decode (S (S (S fuel))) 2 (d :: e :: f :: p) [] s).
  rewrite decode_copied by done. cbn [emit length plus Nat.leb app]. unfold pbind at 1, pret.
  rewrite decode_copied by done. cbn [emit length plus Nat.leb app]. unfold pbind at 1, pret.
  by rewrite decode_copied by done.
Qed.

(** C37: on other texts it does not. Behind an escape [u] the four characters
    are skipped unseen, the closing quote among them, and the copying loop runs
    past it and past the memory that was counted up to it; and a backslash at
    the end makes the loops skip the terminator. *)
Theorem cjson_parse_overflows w s :
  malloc_ok (allocs s) = true -> malloc_ok (S (allocs s)) = true ->
  no_nul w = true -> forallb copied w = true -> (6 <= length w)%nat ->
  cJSON_Parse ([QUOTE; BACKSLASH] ++ lit "u" ++ [QUOTE] ++ w ++ [NUL]) s = None /\
  cJSON_Parse ([QUOTE; BACKSLASH] ++ [NUL]) s = None.
Proof.
  intros Hm1 Hm2 Hn Hw Hl.
  destruct w as [|a [|b [|c [|d [|e [|f w]]]]]]; try (cbn in Hl; lia).
  assert (Hc : forallb copied [d; e; f] = true /\ no_nul [d; e; f] = true).
  { cbn [forallb no_nul] in *. rewrite !andb_true_iff in *. tauto. }
  split; apply parse_string_fails; try done; intros s' Hs'.
  unfold parse_string. cbn [at_ lookup list_lookup]. unfold pbind at 1, pret at 1.
  change (isc QUOTE 34) with true. cbn [negb]. unfold pbind at 1.
  change (scan _ 0) with (Some 1%nat). unfold lift, pret at 1, pbind at 1, cJSON_malloc.
  rewrite Hs', Hm2. cbn [negb]. unfold pbind at 1.
  match goal with |- context [decode ?n ?size ?p [] ?st] =>
    replace (decode n size p [] st) with (@None (chars * chars * heap)); [done|]
  end. symmetry. exact (decode_overrun (6 + length (w ++ [NUL])) a b c d e f (w ++ [NUL])
    (proj1 Hc) (proj2 Hc) _).
Qed.

End Library.

(** ** A library and an item *)

(** [pow] correctly rounded on integers, and memory without end. *)
Definition libc : CLibrary := {|
  pow10 d := let k := to_int d in if 0 <=? k then dbl (10 ^ k) else ddiv (dbl 1) (dbl (10 ^ (- k)));
  malloc_ok _ := true
|}.

(** An item as [cJSON_CreateObject] and its like build it: a name with a quote,
    an array, a negative number and an empty object. *)
Definition settings : cJSON :=
  Item cJSON_Object None 0 (S754_zero false) None
    [Item cJSON_Array None 0 (S754_zero false) (Some [QUOTE; LF])
       [Item cJSON_Number None (-20) (dbl (-20)) None []; Item cJSON_True None 0 (S754_zero false) None []];
     Item cJSON_Object None 0 (S754_zero false) (Some (lit "empty")) []].

Definition settings_value : json :=
  JObj [([QUOTE; LF], JArr [JNum (-20); JBool true]); (lit "empty", JObj [])].

Lemma cjson_roundtrip_witness :
  exists text s1, @cJSON_print libc true settings (Heap 0 None) = Some (Some text, s1) /\
  exists item' s3, @cJSON_Parse libc (text ++ [NUL]) (Heap 0 None) = Some (Some item', s3) /\
    value_of_item item' = Some settings_value.
Proof.
  destruct (@cjson_roundtrip libc settings settings_value true (Heap 0 None) (fun _ => eq_refl)
    ltac:(vm_compute; reflexivity) ltac:(vm_compute; reflexivity)) as (text & s1 & E & H).
  exists text, s1. split; [exact E|]. exact (H [] (Heap 0 None)).
Defined.

Lemma cjson_minify_print_witness :
  exists text short s1 s2,
    @cJSON_Print libc settings (Heap 0 None) = Some (Some text, s1) /\
    @cJSON_PrintUnformatted libc settings (Heap 0 None) = Some (Some short, s2) /\
    cJSON_Minify (text ++ [NUL]) = Some short.
Proof.
  destruct (@cjson_minify_print libc settings settings_value (Heap 0 None) (fun _ => eq_refl)
    ltac:(vm_compute; reflexivity)) as (text & short & s1 & s2 & E1 & E2 & H).
  exists text, short, s1, s2. split; [exact E1|]. split; [exact E2|exact (H [])].
Defined.

(** A text that is not JSON, with a complete escape and an exponent. *)
Definition odd_text : chars := lit "[1e5,}" ++ [QUOTE; BACKSLASH] ++ lit "u00e9".

Lemma cjson_parse_safe_witness :
  exists r s', @cJSON_ParseWithOpts libc (odd_text ++ NUL :: []) true (Heap 0 None) = Some (r, s') /\
  match r with None => True | Some (_, q) => after [] odd_text q end.
Proof. exact (@cjson_parse_safe libc odd_text [] true (Heap 0 None) ltac:(vm_compute; reflexivity)). Defined.

Lemma cjson_parse_overflows_witness :
  @cJSON_Parse libc ([QUOTE; BACKSLASH] ++ lit "u" ++ [QUOTE] ++ lit "abcdef" ++ [NUL]) (Heap 0 None) = None /\
  @cJSON_Parse libc ([QUOTE; BACKSLASH] ++ [NUL]) (Heap 0 None) = None.
Proof.
  exact (@cjson_parse_overflows libc (lit "abcdef") (Heap 0 None) eq_refl eq_refl
    ltac:(vm_compute; reflexivity) ltac:(vm_compute; reflexivity) ltac:(cbn; lia)).
Defined.
