(* ===== verification/JsonBuffer.v ===== *)
(** * JsonBuffer: [cJSON_PrintBuffered] of [src/pipe_ser_clnt/cJSON.c]

    Printing into one buffer that grows ([p] is not 0). The buffer's bytes are
    kept with those that nobody has written yet, [None]; reading one of those, or
    an access outside the buffer or through a freed one, is a failure. A pointer
    into the buffer is an index. [live] counts the buffers allocated and not
    freed. *)
From S2P Require Import Prelude.
From S2P Require Import CString.
From S2P Require Import Double.
From S2P Require Import Json.
From S2P Require Import JsonPrint.
From S2P Require Import JsonSpec.
From S2P Require Import JsonPrintFacts.
From S2P Require Import JsonTop.
From Stdlib Require Import SpecFloat Ascii.

Open Scope C.

(** The smallest power of two that is not below [x]; [None]: [int] overflows. *)
Definition pow2gt (x : Z) : option Z :=
  let x := x - 1 in
  let x := Z.lor x (Z.shiftr x 1) in
  let x := Z.lor x (Z.shiftr x 2) in
  let x := Z.lor x (Z.shiftr x 4) in
  let x := Z.lor x (Z.shiftr x 8) in
  let x := Z.lor x (Z.shiftr x 16) in
  if x =? INT_MAX then None else Some (x + 1).

Definition bytes := list (option ascii).

Record printbuffer := Buffer { buffer : option bytes; length_ : nat; offset : nat }.

(** The printing functions' state. *)
Record state := State { memory : heap; p : printbuffer; live : Z }.

Definition set_p (q : printbuffer) : prog state unit := fun s => Some (tt, State (memory s) q (live s)).
Definition set_offset (i : nat) : prog state unit :=
  fun s => set_p (Buffer (buffer (p s)) (length_ (p s)) i) s.
Definition get_p : prog state printbuffer := fun s => Some (p s, s).
Definition count (d : Z) : prog state unit := fun s => Some (tt, State (memory s) (p s) (live s + d)).

Section Printer.
Context `{CLibrary}.

(** Memory for [size] bytes that nobody has written; a request for less than no
    bytes is one for almost all of the address space. *)
Definition new_bytes (size : Z) : prog state (option bytes) := fun s =>
  match cJSON_malloc (memory s) with
  | Some (ok, m) =>
      if ok && (0 <=? size)
      then Some (Some (replicate (Z.to_nat size) None), State m (p s) (live s + 1))
      else Some (None, State m (p s) (live s))
  | None => None
  end.

Definition ensure (needed : nat) : prog state (option nat) :=
  do q <- get_p;
  match buffer q with
  | None => pret None
  | Some old =>
      let needed := (needed + offset q)%nat in
      if (needed <=? length_ q)%nat then pret (Some (offset q))
      else
        match pow2gt (Z.of_nat needed) with
        | None => pfail
        | Some newsize =>
            do new <- new_bytes newsize;
            match new with
            | None => count (-1) ;;; set_p (Buffer None 0 (offset q)) ;;; pret None
            | Some new =>
                let new := take (length_ q) old ++ drop (length_ q) new in
                count (-1) ;;;
                set_p (Buffer (Some new) (Z.to_nat newsize) (offset q)) ;;;
                pret (Some (offset q))
            end
        end
  end.

(** [strlen]; it may not reach an unwritten byte or the buffer's end. *)
Fixpoint strlen (b : bytes) : option nat :=
  match b with
  | Some c :: b => if isc c 0 then Some 0%nat else S <$> strlen b
  | _ => None
  end.

Definition update : prog state nat :=
  do q <- get_p;
  match buffer q with
  | None => pret 0%nat
  | Some b =>
      match strlen (drop (offset q) b) with
      | Some n => pret (offset q + n)%nat
      | None => pfail
      end
  end.

(** Characters written from the index [i] on. *)
Definition put (i : nat) (text : chars) : prog state unit :=
  do q <- get_p;
  match buffer q with
  | Some b =>
      if (i + length text <=? length b)%nat
      then set_p (Buffer (Some (take i b ++ map Some text ++ drop (i + length text) b))
                    (length_ q) (offset q))
      else pfail
  | None => pfail
  end.

(** A value's text and its terminator, where there is room for it. *)
Definition write (needed : nat) (text : chars) : prog state (option nat) :=
  do out <- ensure needed;
  match out with
  | Some i => put i (text ++ [NUL]) ;;; pret (Some i)
  | None => pret None
  end.

Definition buffer_number (item : cJSON) : prog state (option nat) :=
  let '(size, text) := number_text item in write size text.

Definition buffer_string_ptr (str : option chars) : prog state (option nat) :=
  match str with
  | None => pfail
  | Some str => let '(size, text) := string_text str in write size text
  end.

Definition buffer_string (item : cJSON) : prog state (option nat) :=
  buffer_string_ptr (valuestring item).

(** [needed] bytes asked for, [text] written there and [offset] moved by
    [len]; false: there was no memory. *)
Definition append (needed : nat) (text : chars) (len : nat) : prog state bool :=
  do ptr <- ensure needed;
  match ptr with
  | None => pret false
  | Some i =>
      put i text ;;;
      do q <- get_p;
      set_offset (offset q + len)%nat ;;; pret true
  end.

Section Containers.
Variable buffer_value : cJSON -> nat -> bool -> prog state (option nat).

(** [p->offset=update(p)] after something has been printed. *)
Definition updated (m : prog state (option nat)) : prog state unit :=
  m ;;; do i <- update; set_offset i.

(** [while (child && !fail)]; false: the function returns 0. *)
Fixpoint buffer_entries (l : list cJSON) (depth : nat) (fmt : bool) : prog state bool :=
  match l with
  | [] => pret true
  | item :: l =>
      updated (buffer_value item depth fmt) ;;;
      match l with
      | [] => pret true
      | _ =>
          let len := if fmt then 2%nat else 1%nat in
          do ok <- append (len + 1) (separator fmt ++ [NUL]) len;
          if negb ok then pret false else buffer_entries l depth fmt
      end
  end.

Definition buffer_array (item : cJSON) (depth : nat) (fmt : bool) : prog state (option nat) :=
  match child item with
  | [] => write 3 (lit "[]")
  | l =>
      do q <- get_p;
      let i := offset q in
      do ok <- append 1 (lit "[") 1;
      if negb ok then pret None
      else
        do ok <- buffer_entries l (depth + 1) fmt;
        if negb ok then pret None
        else
          do ok <- append 2 (lit "]" ++ [NUL]) 0;
          pret (if ok : bool then Some i else None)
  end.

(** One turn of [while (child)]; [comma] stands before the end of the line. *)
Definition buffer_member (item : cJSON) (comma : chars) (depth : nat) (fmt : bool)
  : prog state bool :=
  do ok <- (if fmt then append depth (tabs depth) depth else pret true);
  if negb ok then pret false
  else
    updated (buffer_string_ptr (string_ item)) ;;;
    let len := if fmt then 2%nat else 1%nat in
    do ok <- append len (lit ":" ++ when fmt (tabs 1)) len;
    if negb ok then pret false
    else
      updated (buffer_value item depth fmt) ;;;
      let len := length (comma ++ when fmt [LF]) in
      append (len + 1) (comma ++ when fmt [LF] ++ [NUL]) len.

Fixpoint buffer_members (l : list cJSON) (depth : nat) (fmt : bool) : prog state bool :=
  match l with
  | [] => pret true
  | item :: l =>
      do ok <- buffer_member item (match l with [] => [] | _ => lit "," end) depth fmt;
      if negb ok then pret false else buffer_members l depth fmt
  end.

Definition buffer_object (item : cJSON) (depth : nat) (fmt : bool) : prog state (option nat) :=
  match child item with
  | [] =>
      write (if fmt then depth + 4 else 3)
        (lit "{" ++ when fmt (LF :: tabs (depth - 1)) ++ lit "}")
  | l =>
      do q <- get_p;
      let i := offset q in
      let len := if fmt then 2%nat else 1%nat in
      do ok <- append (len + 1) (lit "{" ++ when fmt [LF] ++ [NUL]) len;
      if negb ok then pret None
      else
        let depth := (depth + 1)%nat in
        do ok <- buffer_members l depth fmt;
        if negb ok then pret None
        else
          do ok <- append (if fmt then depth + 1 else 2)
                     (when fmt (tabs (depth - 1)) ++ lit "}" ++ [NUL]) 0;
          pret (if ok : bool then Some i else None)
  end.

End Containers.

Fixpoint buffer_value (item : cJSON) (depth : nat) (fmt : bool) : prog state (option nat) :=
  let t := Z.land (type_ item) 255 in
  if t =? cJSON_NULL then write 5 (lit "null")
  else if t =? cJSON_False then write 6 (lit "false")
  else if t =? cJSON_True then write 5 (lit "true")
  else if t =? cJSON_Number then buffer_number item
  else if t =? cJSON_String then buffer_string item
  else if t =? cJSON_Array then buffer_array buffer_value item depth fmt
  else if t =? cJSON_Object then buffer_object buffer_value item depth fmt
  else pret None.

(** The string at [i] of the buffer. *)
Definition text_at (b : bytes) (i : nat) : option chars :=
  match strlen (drop i b) with
  | Some n => all_some (take n (drop i b))
  | None => None
  end.

(** The text at the pointer returned, the memory, and the buffers left. *)
Definition cJSON_PrintBuffered (item : cJSON) (prebuffer : Z) (fmt : bool) (m : heap)
  : option (option chars * Z * heap) :=
  let run :=
    do b <- new_bytes prebuffer;
    set_p (Buffer b (Z.to_nat prebuffer) 0) ;;; buffer_value item 0 fmt in
  match run (State m (Buffer None 0 0) 0) with
  | Some (Some i, s) =>
      match buffer (p s) with
      | Some b => match text_at b i with Some t => Some (Some t, live s, memory s) | None => None end
      | None => None
      end
  | Some (None, s) => Some (None, live s, memory s)
  | None => None
  end.

End Printer.

(** ** [pow2gt] *)

(** [y] has the bits of [x] and of the [k - 1] places below each of them. *)
Definition smeared (k x y : Z) : Prop :=
  0 <= y /\ forall i, 0 <= i -> Z.testbit y i = true <-> exists j, i <= j < i + k /\ Z.testbit x j = true.

Lemma smear_step k x y : 0 < k -> smeared k x y -> smeared (2 * k) x (Z.lor y (Z.shiftr y k)).
Proof.
  intros Hk [Hy Hb]. split; [apply Z.lor_nonneg; split; [done|by apply Z.shiftr_nonneg]|].
  intros i Hi. rewrite Z.lor_spec, Z.shiftr_spec, orb_true_iff, !Hb by lia. split.
  - intros [(j & ? & ?)|(j & ? & ?)]; exists j; (split; [lia|done]).
  - intros (j & Hj & E). destruct (Z.lt_ge_cases j (i + k)); [left|right]; exists j; (split; [lia|done]).
Qed.

Lemma smeared_ones x y : 0 < x -> Z.log2 x < 32 -> smeared 32 x y -> y = Z.ones (Z.log2 x + 1).
Proof.
  intros Hx Hl [Hy Hb]. pose proof (Z.log2_nonneg x).
  apply Z.bits_inj'. intros i Hi. rewrite Z.testbit_ones by lia.
  apply eq_true_iff_eq. rewrite Hb by lia. split.
  - intros (j & Hj & E). destruct (Z.lt_ge_cases (Z.log2 x) j); [|lia].
    by rewrite Z.bits_above_log2 in E by lia.
  - intros Hi2. exists (Z.log2 x). split; [lia|]. by apply Z.bit_log2.
Qed.

Lemma pow2gt_least x : 1 <= x <= 2 ^ 30 -> pow2gt x = Some (2 ^ Z.log2_up x).
Proof.
  intros Hx. assert (H1 : smeared 1 (x - 1) (x - 1)).
  { split; [lia|]. intros i Hi. split; [intros E; exists i; split; [lia|done]|].
    intros (j & Hj & E). by replace i with j by lia. }
  apply smear_step in H1; [|lia]. do 4 (apply smear_step in H1; [|lia]).
  change (2 * (2 * (2 * (2 * (2 * 1))))) with 32 in H1.
  change (2 * (2 * (2 * (2 * 1)))) with 16 in H1. change (2 * (2 * (2 * 1))) with 8 in H1.
  change (2 * (2 * 1)) with 4 in H1. change (2 * 1) with 2 in H1.
  unfold pow2gt. cbv zeta. set (y := Z.lor _ (Z.shiftr _ 16)) in *.
  destruct (Z.eq_dec x 1) as [->|Hn]; [by vm_compute in y; subst y|].
  assert (Hl : Z.log2 (x - 1) < 30).
  { apply Z.log2_lt_pow2; [lia|]. lia. }
  apply smeared_ones in H1; [|lia..]. rewrite H1, Z.ones_equiv.
  rewrite Z.log2_up_eqn by lia. replace (Z.pred x) with (x - 1) by lia.
  pose proof (Z.log2_nonneg (x - 1)).
  assert (2 ^ (Z.log2 (x - 1) + 1) <= 2 ^ 30) by (apply Z.pow_le_mono_r; lia).
  change (2 ^ 30) with 1073741824 in *.
  destruct (Z.eqb_spec (Z.pred (2 ^ (Z.log2 (x - 1) + 1))) INT_MAX) as [E|_].
  - unfold INT_MAX in E. lia.
  - f_equal. replace (Z.succ (Z.log2 (x - 1))) with (Z.log2 (x - 1) + 1) by lia. lia.
Qed.

Lemma pow2gt_enough (x : nat) : (1 <= x)%nat -> Z.of_nat x <= 2 ^ 30 ->
  exists n : Z, pow2gt (Z.of_nat x) = Some n /\ 0 <= n /\ (x <= Z.to_nat n)%nat.
Proof.
  intros H1 H2. rewrite pow2gt_least by lia. eexists. split; [done|].
  pose proof (Z.log2_up_nonneg (Z.of_nat x)). pose proof (Z.log2_up_spec (Z.of_nat x)).
  pose proof (Z.pow_nonneg 2 (Z.log2_up (Z.of_nat x))).
  destruct (Nat.eq_dec x 1) as [->|]; [cbn; lia|]. lia.
Qed.

(** ** The buffer while it is written *)

Section Facts.
Context `{Lib : CLibrary}.

Definition LIMIT : Z := 2 ^ 30.

(** The buffer holds [pre] and, from [offset] on, [old]; [n] buffers live. *)
Definition at_ (n : Z) (pre old : chars) (s : state) : Prop :=
  exists rest,
    p s = Buffer (Some (map Some (pre ++ old) ++ rest)) (length (pre ++ old) + length rest) (length pre) /\
    live s = n.

(** Memory ran out, and the buffer has been freed. *)
Definition lost (n : Z) (s : state) : Prop :=
  buffer (p s) = None /\ live s = n - 1 /\ exists k, malloc_ok k = false.

Definition fits (pre : chars) (needed : nat) : Prop := Z.of_nat (length pre + needed) <= LIMIT.

Lemma at_shift n pre text k s :
  (k <= length text)%nat -> at_ n pre text s ->
  at_ n (pre ++ take k text) (drop k text)
    (State (memory s) (Buffer (buffer (p s)) (length_ (p s)) (offset (p s) + k)) (live s)).
Proof.
  intros Hk (rest & E & Hl). exists rest. cbn [memory p live]. rewrite E.
  cbn [buffer length_ offset]. rewrite <- app_assoc, take_drop. split; [|done]. f_equal.
  rewrite length_app, length_take_le; lia.
Qed.

(** What [ensure] gives: the bytes kept, and room for what is needed. *)
Lemma ensure_spec n pre old needed : (1 <= needed)%nat -> fits pre needed ->
  triple (at_ n pre old) (ensure needed) (fun r s =>
    r = Some (length pre) /\
      (exists rest, p s = Buffer (Some (map Some pre ++ rest)) (length pre + length rest) (length pre) /\
                    (needed <= length rest)%nat /\ live s = n) \/
    r = None /\ lost n s).
Proof.
  intros Hn Hf s (rest & E & Hl). unfold ensure, pbind, get_p. rewrite E. cbn [buffer length_ offset].
  destruct (Nat.leb_spec (needed + length pre) (length (pre ++ old) + length rest)) as [Hle|Hgt].
  { eexists _, _. split; [done|]. left. split; [done|]. exists (map Some old ++ rest).
    rewrite E, map_app, <- app_assoc, !length_app, length_map. rewrite length_app in Hle.
    split; [f_equal; lia|]. split; [lia|done]. }
  unfold fits, LIMIT in Hf.
  destruct (pow2gt_enough (needed + length pre) ltac:(lia) ltac:(lia)) as (new & En & H0 & Hnew).
  rewrite En. unfold new_bytes, cJSON_malloc. cbv zeta.
  rewrite (proj2 (Z.leb_le 0 new)), andb_true_r by done.
  destruct (malloc_ok (allocs (memory s))) eqn:Em.
  - eexists _, _. split; [reflexivity|]. left. split; [done|].
    exists (map Some old ++ rest ++ replicate (Z.to_nat new - (length (pre ++ old) + length rest)) None).
    cbn [p live set_p]. split; [|split; [|lia]].
    + f_equal.
      * f_equal. rewrite take_ge by (rewrite length_app, length_map; lia).
        rewrite drop_replicate, map_app, <- !app_assoc. done.
      * rewrite !length_app, length_map, length_replicate in *. lia.
    + rewrite !length_app, length_map, length_replicate in *. lia.
  - eexists _, _. split; [reflexivity|]. right. split; [done|]. split; [done|].
    cbn [live set_p]. split; [lia|by eexists].
Qed.

(** A text written at [offset]. *)
Lemma put_spec n pre text s rest :
  p s = Buffer (Some (map Some pre ++ rest)) (length pre + length rest) (length pre) ->
  live s = n -> (length text <= length rest)%nat ->
  exists s', put (length pre) text s = Some (tt, s') /\ at_ n pre text s'.
Proof.
  intros E Hl Hr. unfold put, pbind, get_p. rewrite E. cbn [buffer length_ offset].
  rewrite length_app, length_map, (proj2 (Nat.leb_le _ _)) by lia.
  eexists. split; [reflexivity|]. exists (drop (length text) rest). cbn [p live set_p]. split; [|done].
  f_equal; [f_equal|rewrite length_app, length_drop; lia].
  rewrite take_app_le, take_ge by (rewrite length_map; lia).
  rewrite drop_app_ge by (rewrite length_map; lia). rewrite length_map, map_app, <- app_assoc.
  do 3 f_equal. lia.
Qed.

(** A value is printed: the text follows [pre], and its terminator the text;
    [offset] is somewhere before the terminator. *)
Definition printed (n : Z) (pre text : chars) (r : option nat) (s : state) : Prop :=
  r = Some (length pre) /\ (exists a b, a ++ b = pre ++ text /\ at_ n a (b ++ [NUL]) s) \/
  r = None /\ lost n s.

Lemma write_spec n pre old needed text :
  (length text + 1 <= needed)%nat -> fits pre needed ->
  triple (at_ n pre old) (write needed text) (printed n pre text).
Proof.
  intros Ht Hf s Hs. unfold write.
  destruct (ensure_spec n pre old needed ltac:(lia) Hf s Hs) as (r & s1 & E1 & H1).
  rewrite (pbind_run _ _ _ _ _ E1).
  destruct H1 as [(-> & rest & E & Hr & Hl)|[-> Hlost]].
  - destruct (put_spec n pre (text ++ [NUL]) s1 rest E Hl) as (s2 & E2 & H2).
    { rewrite length_app. cbn [length]. lia. }
    rewrite (pbind_run _ _ _ _ _ E2). eexists _, _. split; [done|]. left. split; [done|].
    by exists pre, text.
  - eexists _, _. split; [done|]. by right.
Qed.

Lemma append_spec n pre old needed text len :
  (1 <= needed)%nat -> (length text <= needed)%nat -> (len <= length text)%nat -> fits pre needed ->
  triple (at_ n pre old) (append needed text len) (fun r s =>
    r = true /\ at_ n (pre ++ take len text) (drop len text) s \/ r = false /\ lost n s).
Proof.
  intros H1 Ht Hlen Hf s Hs. unfold append.
  destruct (ensure_spec n pre old needed H1 Hf s Hs) as (r & s1 & E1 & H2).
  rewrite (pbind_run _ _ _ _ _ E1).
  destruct H2 as [(-> & rest & E & Hr & Hl)|[-> Hlost]].
  - destruct (put_spec n pre text s1 rest E Hl ltac:(lia)) as (s2 & E2 & H2).
    rewrite (pbind_run _ _ _ _ _ E2). eexists _, _. split; [reflexivity|]. left. split; [done|].
    by apply at_shift.
  - eexists _, _. split; [done|]. by right.
Qed.

(** Nothing is written once memory has run out. *)
Lemma ensure_lost n needed : triple (lost n) (ensure needed) (fun r s => r = None /\ lost n s).
Proof.
  intros s (Hb & Hl). unfold ensure, pbind, get_p. rewrite Hb. eexists _, _.
  split; [done|]. by split.
Qed.

Lemma append_lost n needed text len :
  triple (lost n) (append needed text len) (fun r s => r = false /\ lost n s).
Proof.
  intros s Hs. unfold append. destruct (ensure_lost n needed s Hs) as (r & s1 & E & -> & H1).
  rewrite (pbind_run _ _ _ _ _ E). by eexists _, _.
Qed.

Lemma strlen_text (b : chars) rest :
  no_nul b = true -> strlen (map Some (b ++ [NUL]) ++ rest) = Some (length b).
Proof.
  induction b as [|c b IH]; [done|]. intros [Hc Hb]%andb_true_iff. cbn [app map strlen].
  apply negb_true_iff in Hc. by rewrite Hc, (IH Hb).
Qed.

(** A text printed, and [offset] moved behind it. *)
Lemma updated_spec n pre old m text :
  no_nul (pre ++ text) = true ->
  triple (at_ n pre old) m (printed n pre text) ->
  triple (at_ n pre old) (updated m) (fun _ s => at_ n (pre ++ text) [NUL] s \/ lost n s).
Proof.
  intros Hno Hm s Hs. destruct (Hm s Hs) as (r & s1 & E1 & H1).
  unfold updated. rewrite (pbind_run _ _ _ _ _ E1). unfold pbind at 1, update, pbind at 1, get_p.
  destruct H1 as [(-> & a & b & Eab & rest & E & Hl)|[-> (Hb & Hl & Hk)]].
  - rewrite E. cbn [buffer length_ offset].
    rewrite map_app, <- app_assoc, drop_app_length' by (by rewrite length_map).
    assert (Hb : no_nul b = true).
    { rewrite <- Eab in Hno. unfold no_nul in Hno. rewrite forallb_app in Hno.
      by apply andb_true_iff in Hno as [_ Hno]. }
    rewrite (strlen_text b rest Hb). eexists _, _. split; [reflexivity|]. left.
    unfold set_p. cbn. exists rest. rewrite E. cbn [buffer length_ offset p live].
    rewrite <- Eab, app_assoc, !length_app. split; [|done]. done.
  - rewrite Hb. eexists _, _. split; [reflexivity|]. right. by split.
Qed.

(** ** Sequences of writes *)

(** All is well so far, or memory has run out. *)
Definition ready (n : Z) (pre old : chars) (s : state) : Prop := at_ n pre old s \/ lost n s.

(** A write behind [pre], of which [len] characters count. *)
Definition appended (n : Z) (pre text : chars) (len : nat) (ok : bool) (s : state) : Prop :=
  ok = true /\ at_ n (pre ++ take len text) (drop len text) s \/ ok = false /\ lost n s.

Lemma append_ready n pre old needed text len :
  (1 <= needed)%nat -> (length text <= needed)%nat -> (len <= length text)%nat -> fits pre needed ->
  triple (ready n pre old) (append needed text len) (appended n pre text len).
Proof.
  intros H1 Ht Hlen Hf s [Hs|Hs]; [by apply (append_spec n pre old)|].
  destruct (append_lost n needed text len s Hs) as (r & s1 & E & H2).
  exists r, s1. split; [done|]. by right.
Qed.

Lemma then_append {B} n pre old needed text len (k : bool -> prog state B) Q :
  (1 <= needed)%nat -> (length text <= needed)%nat -> (len <= length text)%nat -> fits pre needed ->
  triple (at_ n (pre ++ take len text) (drop len text)) (k true) Q ->
  triple (lost n) (k false) Q ->
  triple (ready n pre old) (do ok <- append needed text len; k ok) Q.
Proof.
  intros H1 Ht Hlen Hf Htrue Hfalse. apply (triple_bind _ _ _ _ _ (append_ready n pre old _ _ _ H1 Ht Hlen Hf)).
  intros ok s [[-> Hs]|[-> Hs]]; [by apply Htrue|by apply Hfalse].
Qed.

Lemma then_updated {B} n pre old m text (k : unit -> prog state B) Q :
  no_nul (pre ++ text) = true -> triple (at_ n pre old) m (printed n pre text) ->
  triple (ready n (pre ++ text) [NUL]) (k tt) Q ->
  triple (at_ n pre old) (do u <- updated m; k u) Q.
Proof.
  intros Hno Hm Hk s Hs. destruct (updated_spec n pre old m text Hno Hm s Hs) as ([] & s1 & E & H1).
  rewrite (pbind_run _ _ _ _ _ E). by apply Hk.
Qed.

Lemma lost_ret {B} n (b : B) (Q : B -> state -> Prop) :
  (forall s, lost n s -> Q b s) -> triple (lost n) (pret b) Q.
Proof. intros HQ s Hs. exists b, s. auto. Qed.

Lemma ready_at {A} n pre old (m : prog state A) Q :
  triple (ready n pre old) m Q -> triple (at_ n pre old) m Q.
Proof. intros Hm s Hs. apply Hm. by left. Qed.

Lemma no_nul_app a b : no_nul (a ++ b) = no_nul a && no_nul b.
Proof. apply forallb_app. Qed.

(** ** Texts without NUL *)

Lemma no_nul_concat l : Forall (fun a => no_nul a = true) l -> no_nul (concat l) = true.
Proof. induction 1 as [|a l Ha _ IH]; [done|]. cbn [concat]. by rewrite no_nul_app, Ha, IH. Qed.

Lemma no_nul_quoted s : no_nul s = true -> no_nul (quoted s) = true.
Proof.
  intros Hs. unfold quoted. rewrite !no_nul_app. cbn [andb]. rewrite andb_true_r.
  apply no_nul_concat. induction s as [|c s IH]; [constructor|].
  apply andb_true_iff in Hs as [Hc Hs]. constructor; [|by apply IH].
  revert Hc. pose proof (all_ascii (fun c => implb (negb (isc c 0)) (no_nul (escape c))) ltac:(by vm_compute) c)
    as Hall. cbn beta in Hall. by destruct (negb (isc c 0)).
Qed.

Lemma no_nul_tabs k : no_nul (tabs k) = true.
Proof. unfold tabs. induction k; [done|]. cbn. done. Qed.

Lemma no_nul_when fmt s : no_nul s = true -> no_nul (when fmt s) = true.
Proof. by destruct fmt. Qed.

Lemma isdigit_no_nul s : forallb isdigit s = true -> no_nul s = true.
Proof.
  unfold no_nul. rewrite !forallb_forall. intros Hs c Hc. specialize (Hs c Hc).
  unfold isdigit, isc in *. lia.
Qed.

Lemma no_nul_int z : is_int z = true -> no_nul (print_int z) = true.
Proof.
  intros Hz%is_int_range. unfold INT_MIN, INT_MAX in Hz.
  assert (Hn : forall n, 0 <= n -> no_nul (print_nat n) = true).
  { intros n Hn. apply isdigit_no_nul, print_nat_spec, Hn. }
  unfold print_int. destruct (Z.ltb_spec z 0); [|by apply Hn].
  cbn. apply Hn. lia.
Qed.

Lemma no_nul_join sep l :
  no_nul sep = true -> Forall (fun a => no_nul a = true) l -> no_nul (join sep l) = true.
Proof.
  intros Hsep. induction 1 as [|a l Ha Hl IH]; [done|]. cbn [join].
  destruct l as [|b l]; [done|]. by rewrite !no_nul_app, Ha, Hsep, IH.
Qed.

Lemma no_nul_compose depth fmt l :
  Forall (fun '(a, b) => no_nul a = true /\ no_nul b = true) l -> no_nul (compose depth fmt l) = true.
Proof.
  induction 1 as [|[a b] l [Ha Hb] Hl IH]; [done|]. cbn [compose].
  rewrite !no_nul_app, Ha, Hb, IH, !no_nul_when by (done || apply no_nul_tabs). by destruct l.
Qed.

Lemma no_nul_render j : json_ok j = true -> forall fmt depth, no_nul (render fmt depth j) = true.
Proof.
  induction j as [|b|z|s|l IH|ms IH] using json_nested_ind; intros Hok fmt depth.
  - done.
  - by destruct b.
  - by apply no_nul_int.
  - by apply no_nul_quoted.
  - cbn [json_ok render] in *. rewrite !no_nul_app, no_nul_join; [done|by destruct fmt|].
    apply List.Forall_map. rewrite forallb_forall in Hok. rewrite List.Forall_forall in *.
    intros j Hj. by apply IH; [|apply Hok].
  - assert (Hms : forall depth, Forall (fun '(a, b) => no_nul a = true /\ no_nul b = true)
      (map (fun '(n, j) => (quoted n, render fmt depth j)) ms)).
    { intros d. apply List.Forall_map. cbn [json_ok] in Hok. rewrite forallb_forall in Hok.
      rewrite List.Forall_forall in *. intros [n j] Hj. pose proof (Hok _ Hj) as [Hn Hj2]%andb_true_iff.
      split; [by apply no_nul_quoted|]. by apply (IH _ Hj). }
    cbn [render]. destruct ms as [|m ms].
    + rewrite !no_nul_app, no_nul_when; [done|]. apply no_nul_tabs.
    + rewrite !no_nul_app, !no_nul_when, no_nul_compose by (done || apply no_nul_tabs). done.
Qed.

(** ** Values *)

(** An item that stands for a value is printed behind [pre]. *)
Definition buffered (item : cJSON) : Prop :=
  forall j, value_of_item item = Some j ->
  forall depth fmt n pre old,
  no_nul pre = true -> fits pre (length (render fmt depth j) + 22) ->
  triple (at_ n pre old) (buffer_value item depth fmt) (printed n pre (render fmt depth j)).

Ltac fits_lia :=
  unfold fits, tabs in *;
  do 2 (rewrite ?length_app, ?length_take, ?length_replicate in *;
        cbn [length lit String.list_ascii_of_string] in * ); lia.

Lemma buffer_string_spec str n pre old :
  fits pre (length (quoted str) + 22) ->
  triple (at_ n pre old) (buffer_string_ptr (Some str)) (printed n pre (quoted str)).
Proof.
  intros Hf. unfold buffer_string_ptr. rewrite string_text_spec. apply write_spec; [lia|]. fits_lia.
Qed.

(** The end of a loop: the text is there, or memory has run out. *)
Definition looped (n : Z) (text : chars) (ok : bool) (s : state) : Prop :=
  ok = true /\ ready n text [NUL] s \/ ok = false /\ lost n s.

Lemma entries_spec l : Forall buffered l -> forall js depth fmt n pre old,
  l <> [] -> all_some (map value_of_item l) = Some js -> no_nul pre = true ->
  fits pre (length (join (separator fmt) (map (render fmt depth) js)) + 22) ->
  triple (at_ n pre old) (buffer_entries buffer_value l depth fmt)
    (looped n (pre ++ join (separator fmt) (map (render fmt depth) js))).
Proof.
  induction 1 as [|c l Hc Hl IH]; intros js depth fmt n pre old Hnil E Hpre Hf; [done|].
  cbn [map all_some buffer_entries] in *. destruct (value_of_item c) as [j|] eqn:Ej; [|done].
  destruct (all_some (map value_of_item l)) as [js'|] eqn:El; [|done]. injection E as <-.
  assert (Hj : no_nul (pre ++ render fmt depth j) = true).
  { rewrite no_nul_app, Hpre. apply no_nul_render, (value_ok c _ Ej). }
  cbn [map join] in *. apply then_updated with (text := render fmt depth j); [done|..].
  { apply Hc; [done..|]. destruct (map (render fmt depth) js'); fits_lia. }
  destruct l as [|c2 l].
  { injection El as <-. cbn [map join]. intros s Hs. eexists _, _. split; [reflexivity|]. by left. }
  assert (Hjs : exists e es, map (render fmt depth) js' = e :: es).
  { cbn [map all_some] in El. destruct (value_of_item c2); [|done].
    destruct (all_some (map value_of_item l)); [|done]. injection El as <-. by eexists _, _. }
  destruct Hjs as (e & es & Ees). rewrite Ees in *.
  specialize (IH js' depth fmt n (pre ++ render fmt depth j ++ separator fmt) [NUL] ltac:(done) eq_refl).
  rewrite Ees, <- !app_assoc in IH.
  apply then_append; [destruct fmt; cbn; lia..| | |].
  - unfold fits in *. rewrite !length_app in *. destruct fmt; cbn in *; lia.
  - cbn [negb]. intros s Hs. apply IH.
    + rewrite app_assoc, no_nul_app, Hj. by destruct fmt.
    + unfold fits in *. rewrite !length_app in *. destruct fmt; cbn in *; lia.
    + destruct fmt; cbn in Hs |- *; by rewrite <- app_assoc in Hs.
  - cbn [negb]. apply lost_ret. intros s Hs. by right.
Qed.

(** The tabs before a member's name. *)
Lemma then_tabs {B} n pre old depth fmt (k : bool -> prog state B) Q :
  (1 <= depth)%nat -> (fmt = true -> fits pre depth) ->
  (forall old, triple (at_ n (pre ++ when fmt (tabs depth)) old) (k true) Q) ->
  triple (lost n) (k false) Q ->
  triple (at_ n pre old) (do ok <- (if fmt then append depth (tabs depth) depth else pret true); k ok) Q.
Proof.
  intros Hd Hf Htrue Hfalse. destruct fmt; cbn [when] in *.
  - apply ready_at, then_append; [done|unfold tabs; rewrite length_replicate; lia..|by apply Hf| |done].
    rewrite take_ge by (unfold tabs; rewrite length_replicate; lia). apply Htrue.
  - specialize (Htrue old). rewrite app_nil_r in Htrue. exact Htrue.
Qed.

Definition member_text (fmt : bool) (depth : nat) (name comma : chars) (j : json) : chars :=
  when fmt (tabs depth) ++ quoted name ++ lit ":" ++ when fmt (tabs 1) ++ render fmt depth j ++
  comma ++ when fmt [LF].

Lemma member_spec c name comma j depth fmt n pre old :
  buffered c -> string_value (string_ c) = Some name -> value_of_item c = Some j ->
  (1 <= depth)%nat -> no_nul pre = true ->
  fits pre (length (member_text fmt depth name comma j) + 22) ->
  triple (at_ n pre old) (buffer_member buffer_value c comma depth fmt) (fun ok s =>
    ok = true /\ at_ n (pre ++ member_text fmt depth name comma j) [NUL] s \/ ok = false /\ lost n s).
Proof.
  intros Hc En Ej Hd Hpre Hf. unfold buffer_member, member_text in *.
  assert (Hq : no_nul (quoted name) = true) by apply no_nul_quoted, (string_value_ok _ _ En).
  assert (Hr : no_nul (render fmt depth j) = true) by apply no_nul_render, (value_ok c _ Ej).
  set (t := when fmt (tabs depth)) in *. assert (Ht : no_nul t = true) by apply no_nul_when, no_nul_tabs.
  assert (Htl : (if fmt then depth else 0)%nat = length t).
  { unfold t, tabs. destruct fmt; cbn [when]; [by rewrite length_replicate|done]. }
  unfold fits in Hf. rewrite !length_app in Hf.
  apply then_tabs; [done|intros ->; unfold fits; lia| |]; cbn [negb]; fold t;
    [intros old1|apply lost_ret; intros s Hs; by right].
  rewrite (string_value_some _ _ En).
  apply then_updated with (text := quoted name); [by rewrite !no_nul_app, Hpre, Ht|..].
  { apply buffer_string_spec. unfold fits. rewrite length_app. lia. }
  apply then_append; [destruct fmt; cbn; lia..| | |apply lost_ret; intros s Hs; by right].
  { unfold fits. rewrite !length_app. destruct fmt; cbn in Hf |- *; lia. }
  cbn [negb]. rewrite take_ge by (destruct fmt; cbn; lia).
  assert (Hp : no_nul (((pre ++ t) ++ quoted name) ++ lit ":" ++ when fmt (tabs 1)) = true).
  { rewrite !no_nul_app, Hpre, Ht, Hq. by destruct fmt. }
  apply then_updated with (text := render fmt depth j); [by rewrite no_nul_app, Hp|..].
  { apply Hc; [done..|]. unfold fits. rewrite !length_app. lia. }
  rewrite (app_assoc comma).
  eapply triple_conseq; [apply append_ready|exact (fun s Hs => Hs)|].
  - lia.
  - rewrite !length_app. cbn [length]. lia.
  - rewrite !length_app. lia.
  - unfold fits. rewrite !length_app in *. lia.
  - intros ok s [[-> Hs]|Hs]; [left|by right]. split; [done|].
    rewrite take_app_length, drop_app_length, <- !app_assoc in Hs. exact Hs.
Qed.

Definition entry (fmt : bool) (depth : nat) : chars * json -> chars * chars :=
  fun '(n, j) => (quoted n, render fmt depth j).

Lemma compose_cons fmt depth name j ms :
  compose depth fmt (map (entry fmt depth) ((name, j) :: ms)) =
  member_text fmt depth name (match ms with [] => [] | _ => lit "," end) j ++
  compose depth fmt (map (entry fmt depth) ms).
Proof. unfold member_text. cbn [map entry compose]. rewrite <- !app_assoc. by destruct ms. Qed.

Lemma members_spec l : Forall buffered l -> forall ms depth fmt n pre old,
  (1 <= depth)%nat -> all_some (map member_value l) = Some ms -> no_nul pre = true ->
  fits pre (length (compose depth fmt (map (entry fmt depth) ms)) + 22) ->
  triple (at_ n pre old) (buffer_members buffer_value l depth fmt) (fun ok s =>
    ok = true /\ (exists old, at_ n (pre ++ compose depth fmt (map (entry fmt depth) ms)) old s) \/
    ok = false /\ lost n s).
Proof.
  induction 1 as [|c l Hc Hl IH]; intros ms depth fmt n pre old Hd E Hpre Hf.
  { injection E as <-. intros s Hs. eexists _, _. split; [reflexivity|]. left.
    split; [done|]. exists old. by rewrite app_nil_r. }
  cbn [map all_some buffer_members] in *. unfold member_value at 1 in E.
  destruct (string_value (string_ c)) as [name|] eqn:En; [|done].
  destruct (value_of_item c) as [j|] eqn:Ej; [|done].
  destruct (all_some (map member_value l)) as [ms'|] eqn:El; [|done]. injection E as <-.
  rewrite compose_cons in *. set (comma := match l with [] => [] | _ => lit "," end).
  assert (Hcomma : @eq chars (match ms' with [] => [] | _ => lit "," end) comma).
  { unfold comma. destruct l; [by injection El as <-|]. cbn [map all_some] in El.
    destruct (member_value c0); [|done]. destruct (all_some (map member_value l)); [|done].
    by injection El as <-. }
  rewrite Hcomma in *. unfold fits in Hf. rewrite length_app in Hf.
  eapply triple_bind; [apply (member_spec c name comma j); try done; unfold fits; lia|].
  intros ok s [[-> Hs]|[-> Hs]]; cbn [negb].
  - rewrite app_assoc. apply (IH ms' depth fmt n _ [NUL]); [done..| | |exact Hs].
    + rewrite no_nul_app, Hpre. unfold member_text.
      rewrite !no_nul_app, no_nul_quoted, no_nul_render, !no_nul_when by
        (done || apply no_nul_tabs || exact (value_ok c _ Ej) || exact (string_value_ok _ _ En)).
      unfold comma. by destruct l.
    + unfold fits. rewrite length_app. lia.
  - eexists _, _. split; [done|]. by right.
Qed.

(** The closing bracket: the text from [pre] on is complete. *)
Lemma then_close n pre body old needed close tail text :
  tail = close ++ [NUL] -> text = body ++ close ->
  (length tail <= needed)%nat -> fits (pre ++ body) needed ->
  triple (ready n (pre ++ body) old)
    (do ok <- append needed tail 0; pret (if ok : bool then Some (length pre) else None))
    (printed n pre text).
Proof.
  intros -> -> Hc Hf. rewrite length_app in Hc. cbn [length] in Hc.
  apply then_append; [lia|rewrite length_app; cbn [length]; lia|lia|done| |].
  - intros s Hs. eexists _, _. split; [reflexivity|]. left. split; [done|].
    exists (pre ++ body), close. split; [by rewrite app_assoc|].
    cbn [take drop] in Hs. by rewrite app_nil_r in Hs.
  - apply lost_ret. intros s Hs. by right.
Qed.

(** The buffer's [offset] is known at the start. *)
Lemma then_offset {B} n pre old (k : printbuffer -> prog state B) Q :
  (forall q, offset q = length pre -> triple (at_ n pre old) (k q) Q) ->
  triple (at_ n pre old) (do q <- get_p; k q) Q.
Proof.
  intros Hk s Hs. unfold pbind, get_p. apply Hk; [|done].
  destruct Hs as (rest & E & _). by rewrite E.
Qed.

Lemma array_spec t s i d n l js depth fmt k pre old :
  Forall buffered l -> all_some (map value_of_item l) = Some js -> no_nul pre = true ->
  fits pre (length (render fmt depth (JArr js)) + 22) ->
  triple (at_ k pre old) (buffer_array buffer_value (Item t s i d n l) depth fmt)
    (printed k pre (render fmt depth (JArr js))).
Proof.
  intros IH El Hpre Hf. unfold buffer_array. cbn [child].
  pose proof (entries_spec l IH js (depth + 1) fmt k (pre ++ lit "[") []) as He.
  destruct l as [|c l]; [injection El as <-; apply write_spec; [cbn; lia|fits_lia]|].
  cbn [render] in *. set (body := join _ _) in *. unfold fits in Hf. rewrite !length_app in Hf.
  cbn [length lit String.list_ascii_of_string] in Hf.
  apply then_offset. intros q Hq. rewrite Hq.
  apply ready_at, then_append; [cbn; lia..|fits_lia| |apply lost_ret; intros st Hs; by right].
  cbn [negb take drop]. rewrite app_assoc.
  eapply triple_bind; [apply He; [done|done|by rewrite no_nul_app, Hpre|fits_lia]|].
  intros ok st [[-> Hs]|[-> Hs]]; cbn [negb]; [|eexists _, _; split; [done|]; by right].
  revert st Hs. rewrite <- app_assoc. apply then_close with (close := lit "]"); [done|done|cbn; lia|fits_lia].
Qed.

Lemma object_spec t s i d n l ms depth fmt k pre old :
  Forall buffered l -> all_some (map member_value l) = Some ms -> no_nul pre = true ->
  fits pre (length (render fmt depth (JObj ms)) + 22) ->
  triple (at_ k pre old) (buffer_object buffer_value (Item t s i d n l) depth fmt)
    (printed k pre (render fmt depth (JObj ms))).
Proof.
  intros IH El Hpre Hf. unfold buffer_object. cbn [child].
  pose proof (members_spec l IH ms (depth + 1) fmt k (pre ++ lit "{" ++ when fmt [LF])) as Hm.
  destruct l as [|c l].
  { injection El as <-. cbn [render] in *. apply write_spec; destruct fmt; cbn [when] in *; fits_lia. }
  destruct ms as [|m ms].
  { cbn [map all_some] in El. destruct (member_value c); [|done].
    by destruct (all_some (map member_value l)). }
  cbn [render] in *. change (map _ (m :: ms)) with (map (entry fmt (depth + 1)) (m :: ms)) in *.
  set (body := compose _ _ _) in *. unfold fits in Hf. rewrite !length_app in Hf.
  assert (Hw : (length (when fmt (tabs depth)) = if fmt then depth else 0)%nat).
  { unfold tabs. destruct fmt; [apply length_replicate|done]. }
  rewrite Hw in Hf. cbn [length lit String.list_ascii_of_string] in Hf.
  apply then_offset. intros q Hq. rewrite Hq.
  apply ready_at, then_append; [destruct fmt; cbn; lia..| | |apply lost_ret; intros st Hs; by right].
  { unfold fits. destruct fmt; cbn in Hf; lia. }
  replace (take _ _) with (lit "{" ++ when fmt [LF]) by by destruct fmt.
  cbn [negb]. replace (depth + 1 - 1)%nat with depth by lia.
  eapply triple_bind.
  { apply Hm; [lia|done|rewrite !no_nul_app, Hpre; by destruct fmt|].
    unfold fits. rewrite !length_app. cbn [length lit String.list_ascii_of_string]. lia. }
  intros ok st [[-> [old2 Hs]]|[-> Hs]]; cbn [negb]; [|eexists _, _; split; [done|]; by right].
  apply (or_introl (B := lost k st)) in Hs.
  change (ready k ((pre ++ lit "{" ++ when fmt [LF]) ++ body) old2 st) in Hs. rewrite <- app_assoc in Hs.
  revert st Hs. apply then_close with (close := when fmt (tabs depth) ++ lit "}").
  - by rewrite <- app_assoc.
  - by rewrite <- !app_assoc.
  - rewrite !length_app, Hw. destruct fmt; cbn; lia.
  - unfold fits. rewrite !length_app. destruct fmt; cbn in Hf |- *; lia.
Qed.

Lemma buffer_value_spec item : buffered item.
Proof.
  induction item as [t s i d n l IH] using cJSON_nested_ind. intros j E depth fmt k pre old Hpre Hf.
  cbn [value_of_item buffer_value type_ valuestring valueint valuedouble child] in *.
  destruct (_ =? _); [injection E as <-; apply write_spec; [cbn; lia|cbn [render] in Hf; fits_lia]|].
  destruct (_ =? _); [injection E as <-; apply write_spec; [cbn; lia|cbn [render] in Hf; fits_lia]|].
  destruct (_ =? _); [injection E as <-; apply write_spec; [cbn; lia|cbn [render] in Hf; fits_lia]|].
  destruct (_ =? _).
  { destruct (is_int i) eqn:Hi; [|done]. cbn [andb] in E. case_bool_decide as Hd; [|done].
    injection E as <-. cbn [render] in *. unfold buffer_number.
    destruct (number_text_spec (Item t s i d n l) Hi Hd) as (size & En & Hs). cbn [valueint] in *.
    rewrite En. apply write_spec; [lia|fits_lia]. }
  destruct (_ =? _).
  { unfold buffer_string. cbn [valuestring]. destruct (string_value s) as [v|] eqn:Es; [|done].
    injection E as <-. rewrite (string_value_some _ _ Es). by apply buffer_string_spec. }
  destruct (_ =? _).
  { destruct (all_some (map value_of_item l)) as [js|] eqn:El; [|done]. injection E as <-.
    by apply array_spec. }
  destruct (_ =? _); [|done].
  change (JObj <$> all_some (map member_value l) = Some j) in E.
  destruct (all_some (map member_value l)) as [ms|] eqn:El; [|done].
  injection E as <-. by apply object_spec.
Qed.

Lemma text_at_spec (b : chars) rest :
  no_nul b = true -> text_at (map Some (b ++ [NUL]) ++ rest) 0 = Some b.
Proof.
  intros Hb. unfold text_at. rewrite drop_0, (strlen_text b rest Hb), map_app, <- app_assoc.
  rewrite take_app_length' by (by rewrite length_map). clear Hb. induction b as [|c b IH]; [done|].
  cbn [map all_some]. by rewrite IH.
Qed.

(** Without a buffer every function returns 0 at its first write. *)
Lemma lost_value item j depth fmt n : value_of_item item = Some j ->
  triple (lost n) (buffer_value item depth fmt) (fun r s => r = None /\ lost n s).
Proof.
  intros E. destruct item as [t s i d name l].
  assert (Hw : forall needed text, triple (lost n) (write needed text) (fun r s => r = None /\ lost n s)).
  { intros needed text st Hst. unfold write. destruct (ensure_lost n needed st Hst) as (r & s1 & E1 & -> & H1).
    rewrite (pbind_run _ _ _ _ _ E1). by eexists _, _. }
  assert (Ha : forall needed text len (k : prog state (option nat)),
    triple (lost n) (do ok <- append needed text len; if negb ok then pret None else k)
      (fun r s => r = None /\ lost n s)).
  { intros needed text len k st Hst. destruct (append_lost n needed text len st Hst) as (r & s1 & E1 & -> & H1).
    rewrite (pbind_run _ _ _ _ _ E1). by eexists _, _. }
  cbn [value_of_item buffer_value type_] in *. do 3 (destruct (_ =? _); [apply Hw|]).
  destruct (_ =? _). { unfold buffer_number. destruct (number_text _). apply Hw. }
  destruct (_ =? _).
  { unfold buffer_string. cbn [valuestring] in *. destruct s as [v|]; [|done].
    unfold buffer_string_ptr. rewrite string_text_spec. apply Hw. }
  destruct (_ =? _).
  { unfold buffer_array. destruct (child _); [apply Hw|]. intros st Hst. unfold pbind at 1, get_p.
    exact (Ha _ _ _ _ st Hst). }
  destruct (_ =? _); [|done].
  unfold buffer_object. destruct (child _); [apply Hw|]. intros st Hst. unfold pbind at 1, get_p.
  exact (Ha _ _ _ _ st Hst).
Qed.

(** From the first buffer on. *)
Lemma buffered_run item j prebuffer fmt m :
  value_of_item item = Some j -> 0 <= prebuffer ->
  Z.of_nat (length (render fmt 0 j)) + 22 <= 2 ^ 30 ->
  exists r left m', cJSON_PrintBuffered item prebuffer fmt m = Some (r, left, m') /\
    (r = Some (render fmt 0 j) /\ left = 1 \/
     r = None /\ left = 0 /\ exists k, malloc_ok k = false).
Proof.
  intros Hj Hb Hlen. unfold cJSON_PrintBuffered, new_bytes, cJSON_malloc.
  unfold pbind at 1. cbn [memory p live]. rewrite (proj2 (Z.leb_le 0 prebuffer)), andb_true_r by done.
  pose proof (buffer_value_spec item j Hj 0%nat fmt 1 [] [] eq_refl) as Hv.
  destruct (malloc_ok (allocs m)) eqn:Em.
  - unfold pbind, set_p. cbn [memory p live]. set (s0 := State _ _ _).
    destruct (fun Hf => Hv Hf s0) as (r & s & E & Hr).
    { unfold fits, LIMIT. cbn [length]. lia. }
    { exists (replicate (Z.to_nat prebuffer) None). cbn. by rewrite length_replicate. }
    rewrite E. destruct Hr as [(-> & a & b & Eab & rest & Es & Hl)|(-> & Hn & Hl & Hk)].
    + rewrite Es. cbn [buffer]. cbn [app] in Eab.
      assert (Hno : no_nul (a ++ b) = true) by (rewrite Eab; apply no_nul_render, (value_ok item _ Hj)).
      rewrite (app_assoc a b). cbn [length]. rewrite (text_at_spec _ rest Hno), Eab, Hl. eexists _, _, _. split; [done|]. by left.
    + rewrite Hl. eexists _, _, _. split; [done|]. right. by split; [|split].
  - unfold pbind, set_p. cbn [memory p live]. set (s0 := State _ _ _).
    destruct (lost_value item j 0 fmt 1 Hj s0) as (r & s & E & -> & _ & Hl & Hk).
    { split; [done|]. split; [done|by eexists]. }
    rewrite E, Hl. eexists _, _, _. split; [done|]. right. by split; [|split].
Qed.

(** C28: Printing an item that stands for a value into a buffer of any initial
    size never leaves the buffer and never reads an unwritten byte. Either it
    gives exactly the value's text, as [cJSON_Print] or [cJSON_PrintUnformatted]
    do when memory suffices, and one buffer is left, or NULL, and none is left;
    the latter only when an allocation fails. The initial size is not negative,
    and the text stays below 2^30 bytes, where the buffer still doubles. *)
Theorem buffered_print item j prebuffer fmt m :
  value_of_item item = Some j -> 0 <= prebuffer ->
  Z.of_nat (length (render fmt 0 j)) + 22 <= 2 ^ 30 ->
  exists r left m', cJSON_PrintBuffered item prebuffer fmt m = Some (r, left, m') /\
    (left = 1 /\ r = Some (render fmt 0 j) \/ left = 0 /\ r = None /\ exists k, malloc_ok k = false) /\
    ((forall k, malloc_ok k = true) ->
     exists m'', cJSON_print fmt item m = Some (r, m'')).
Proof.
  intros Hj Hb Hlen. destruct (buffered_run item j prebuffer fmt m Hj Hb Hlen) as (r & left & m' & E & Hr).
  exists r, left, m'. split; [done|]. split.
  - destruct Hr as [[-> ->]|(-> & -> & Hk)]; [left|right]; by split; [|eauto].
  - intros Hmem. destruct (print_gives Hmem item j fmt Hj m) as (r2 & m2 & E2 & <-). exists m2.
    destruct Hr as [[-> _]|(_ & _ & k & Hk)]; [done|]. by rewrite Hmem in Hk.
Qed.

End Facts.

(** The buffer of one byte grows to 2, 8, 16 and 32 bytes. *)
Lemma buffered_print_witness :
  exists r left m',
    @cJSON_PrintBuffered libc (item_of None (JArr [JStr (lit "a"); JNum 12])) 1 true (Heap 0 None) =
      Some (r, left, m') /\
    (left = 1 /\ r = Some (render true 0 (JArr [JStr (lit "a"); JNum 12])) \/
     left = 0 /\ r = None /\ exists k, @malloc_ok libc k = false) /\
    ((forall k, @malloc_ok libc k = true) ->
     exists m'', @cJSON_print libc true (item_of None (JArr [JStr (lit "a"); JNum 12])) (Heap 0 None) =
       Some (r, m'')).
Proof.
  apply (@buffered_print libc _ (JArr [JStr (lit "a"); JNum 12])).
  - by vm_compute.
  - lia.
  - vm_compute. congruence.
Defined.

(** An item of no known type prints nothing: [update] then reads a byte that
    nobody has written, where the other form returns NULL. *)
Lemma buffered_unknown :
  @cJSON_PrintBuffered libc (with_child [with_type 7 zeroed] (with_type cJSON_Array zeroed)) 64 true
    (Heap 0 None) = None /\
  exists m, @cJSON_Print libc (with_child [with_type 7 zeroed] (with_type cJSON_Array zeroed))
    (Heap 0 None) = Some (None, m).
Proof. split; [by vm_compute|]. eexists. by vm_compute. Qed.
