(* ===== verification/JsonHeap.v ===== *)
(** * JsonHeap: building and changing trees, [src/pipe_ser_clnt/cJSON.c]

    The functions of [cJSON.c] that work on the pointers of a tree: a store holds
    the items, with their fields as in [struct cJSON], and the strings. A string
    that did not come from [malloc] may be pointed to but not freed. A NULL or
    dangling pointer that is followed, and a [free] of what is not allocated, are
    failures. Loops along a chain take fuel; [fuelled] gives them more than the
    store has objects. *)
From S2P Require Import Prelude.
From S2P Require Import Memory.
From S2P Require Import CString.
From S2P Require Import Double.
From S2P Require Import Json.
From S2P Require Import JsonPrint.
From Stdlib Require Import SpecFloat Ascii.

Open Scope C.

Definition cJSON_IsReference : Z := 256.
Definition cJSON_StringIsConst : Z := 512.

Record node := MkNode {
  next : addr; prev : addr; child_ : addr;
  type : Z; valuestring_ : addr; valueint_ : Z; valuedouble_ : double;
  name : addr
}.

Inductive object :=
  | Node (n : node)
  | Text (allocated : bool) (s : chars).

Definition zero_node : node := MkNode NULL NULL NULL 0 NULL 0 (S754_zero false) NULL.

Definition set_next (v : addr) (n : node) : node :=
  MkNode v (prev n) (child_ n) (type n) (valuestring_ n) (valueint_ n) (valuedouble_ n) (name n).
Definition set_prev (v : addr) (n : node) : node :=
  MkNode (next n) v (child_ n) (type n) (valuestring_ n) (valueint_ n) (valuedouble_ n) (name n).
Definition set_child (v : addr) (n : node) : node :=
  MkNode (next n) (prev n) v (type n) (valuestring_ n) (valueint_ n) (valuedouble_ n) (name n).
Definition set_type (v : Z) (n : node) : node :=
  MkNode (next n) (prev n) (child_ n) v (valuestring_ n) (valueint_ n) (valuedouble_ n) (name n).
Definition set_valuestring (v : addr) (n : node) : node :=
  MkNode (next n) (prev n) (child_ n) (type n) v (valueint_ n) (valuedouble_ n) (name n).
Definition set_number (i : Z) (d : double) (n : node) : node :=
  MkNode (next n) (prev n) (child_ n) (type n) (valuestring_ n) i d (name n).
Definition set_name (v : addr) (n : node) : node :=
  MkNode (next n) (prev n) (child_ n) (type n) (valuestring_ n) (valueint_ n) (valuedouble_ n) v.

Definition has (flag : Z) (n : node) : bool := negb (Z.land (type n) flag =? 0).

Section Operations.
Context `{Allocator}.

#[local] Abbreviation prog := (prog (store object)).

Definition get (c : addr) : prog node :=
  do o <- load c; match o with Node n => pret n | Text _ _ => pfail end.

Definition modify (c : addr) (f : node -> node) : prog unit := do n <- get c; save c (Node (f n)).

Definition get_text (c : addr) : prog chars :=
  do o <- load c; match o with Text _ s => pret s | Node _ => pfail end.

(** [cJSON_free]: only of what was allocated. *)
Definition cJSON_free (c : addr) : prog unit :=
  do o <- load c; match o with Text false _ => pfail | _ => free c end.

Definition fuelled {A} (f : nat -> prog A) : prog A := fun s => f (S (size (objs s))) s.

Definition new_item : prog addr := alloc (Node zero_node).
Definition strdup (s : chars) : prog addr := alloc (Text true s).

(** ** [cJSON_Delete] *)

Fixpoint delete_from (fuel : nat) (c : addr) : prog unit :=
  match fuel with
  | O => pfail
  | S fuel =>
      if c =? NULL then pret tt
      else
        do n <- get c;
        (if negb (has cJSON_IsReference n) && negb (child_ n =? NULL)
         then delete_from fuel (child_ n) else pret tt) ;;;
        (if negb (has cJSON_IsReference n) && negb (valuestring_ n =? NULL)
         then cJSON_free (valuestring_ n) else pret tt) ;;;
        (if negb (has cJSON_StringIsConst n) && negb (name n =? NULL)
         then cJSON_free (name n) else pret tt) ;;;
        cJSON_free c ;;;
        delete_from fuel (next n)
  end.

Definition cJSON_Delete (c : addr) : prog unit := fuelled (fun fuel => delete_from fuel c).

(** ** Walking a chain *)

(** [while (c && which>0) c=c->next,which--;] *)
Fixpoint walk (fuel : nat) (c : addr) (which : Z) : prog addr :=
  match fuel with
  | O => pfail
  | S fuel =>
      if negb (c =? NULL) && (0 <? which)
      then do n <- get c; walk fuel (next n) (which - 1)
      else pret c
  end.

(** [while (c && c->next) c=c->next;] *)
Fixpoint last_item (fuel : nat) (c : addr) : prog addr :=
  match fuel with
  | O => pfail
  | S fuel => do n <- get c; if next n =? NULL then pret c else last_item fuel (next n)
  end.

(** The text a pointer points to; none for NULL. *)
Definition text_of (p : addr) : prog (option chars) :=
  if p =? NULL then pret None else do s <- get_text p; pret (Some s).

(** [while (c && cJSON_strcasecmp(c->string,string)) i++,c=c->next;] *)
Fixpoint find_name (fuel : nat) (c : addr) (string : chars) (i : Z) : prog (addr * Z) :=
  match fuel with
  | O => pfail
  | S fuel =>
      if c =? NULL then pret (c, i)
      else
        do n <- get c;
        do t <- text_of (name n);
        if cJSON_strcasecmp t string =? 0 then pret (c, i)
        else find_name fuel (next n) string (i + 1)
  end.

(** [cJSON_GetArraySize] *)
Fixpoint count_from (fuel : nat) (c : addr) (i : Z) : prog Z :=
  match fuel with
  | O => pfail
  | S fuel => if c =? NULL then pret i else do n <- get c; count_from fuel (next n) (i + 1)
  end.

Definition GetArraySize (array : addr) : prog Z :=
  do a <- get array; fuelled (fun fuel => count_from fuel (child_ a) 0).

Definition GetArrayItem (array : addr) (item : Z) : prog addr :=
  do a <- get array; fuelled (fun fuel => walk fuel (child_ a) item).

Definition GetObjectItem (object : addr) (string : chars) : prog addr :=
  do o <- get object;
  do r <- fuelled (fun fuel => find_name fuel (child_ o) string 0);
  pret (fst r).

(** ** Adding *)

Definition suffix_object (prev item : addr) : prog unit :=
  modify prev (set_next item) ;;; modify item (set_prev prev).

Definition create_reference (item : addr) : prog addr :=
  do ref <- new_item;
  if ref =? NULL then pret NULL
  else
    do n <- get item;
    modify ref (fun _ =>
      set_prev NULL (set_next NULL
        (set_type (Z.lor (type n) cJSON_IsReference) (set_name NULL n)))) ;;;
    pret ref.

Definition AddItemToArray (array item : addr) : prog unit :=
  do a <- get array;
  if item =? NULL then pret tt
  else if child_ a =? NULL then modify array (set_child item)
  else do c <- fuelled (fun fuel => last_item fuel (child_ a)); suffix_object c item.

Definition AddItemToObject (object : addr) (string : chars) (item : addr) : prog unit :=
  if item =? NULL then pret tt
  else
    do n <- get item;
    (if negb (name n =? NULL) then cJSON_free (name n) else pret tt) ;;;
    do copy <- strdup string;
    modify item (set_name copy) ;;;
    AddItemToArray object item.

(** [string] is a pointer here. *)
Definition AddItemToObjectCS (object string item : addr) : prog unit :=
  if item =? NULL then pret tt
  else
    do n <- get item;
    (if negb (has cJSON_StringIsConst n) && negb (name n =? NULL)
     then cJSON_free (name n) else pret tt) ;;;
    modify item (set_name string) ;;;
    modify item (fun n => set_type (Z.lor (type n) cJSON_StringIsConst) n) ;;;
    AddItemToArray object item.

Definition AddItemReferenceToArray (array item : addr) : prog unit :=
  do ref <- create_reference item; AddItemToArray array ref.

Definition AddItemReferenceToObject (object : addr) (string : chars) (item : addr) : prog unit :=
  do ref <- create_reference item; AddItemToObject object string ref.

(** ** Removing *)

Definition DetachItemFromArray (array : addr) (which : Z) : prog addr :=
  do a <- get array;
  do c <- fuelled (fun fuel => walk fuel (child_ a) which);
  if c =? NULL then pret NULL
  else
    do n <- get c;
    (if negb (prev n =? NULL) then modify (prev n) (set_next (next n)) else pret tt) ;;;
    do n <- get c;
    (if negb (next n =? NULL) then modify (next n) (set_prev (prev n)) else pret tt) ;;;
    do a <- get array;
    do n <- get c;
    (if c =? child_ a then modify array (set_child (next n)) else pret tt) ;;;
    modify c (fun n => set_prev NULL (set_next NULL n)) ;;;
    pret c.

Definition DeleteItemFromArray (array : addr) (which : Z) : prog unit :=
  do c <- DetachItemFromArray array which; cJSON_Delete c.

Definition DetachItemFromObject (object : addr) (string : chars) : prog addr :=
  do o <- get object;
  do r <- fuelled (fun fuel => find_name fuel (child_ o) string 0);
  let '(c, i) := r in
  if c =? NULL then pret NULL else DetachItemFromArray object i.

Definition DeleteItemFromObject (object : addr) (string : chars) : prog unit :=
  do c <- DetachItemFromObject object string; cJSON_Delete c.

(** ** Inserting and replacing *)

Definition InsertItemInArray (array : addr) (which : Z) (newitem : addr) : prog unit :=
  do a <- get array;
  do c <- fuelled (fun fuel => walk fuel (child_ a) which);
  if c =? NULL then AddItemToArray array newitem
  else
    modify newitem (set_next c) ;;;
    do n <- get c;
    modify newitem (set_prev (prev n)) ;;;
    modify c (set_prev newitem) ;;;
    do a <- get array;
    if c =? child_ a then modify array (set_child newitem)
    else do new <- get newitem; modify (prev new) (set_next newitem).

Definition ReplaceItemInArray (array : addr) (which : Z) (newitem : addr) : prog unit :=
  do a <- get array;
  do c <- fuelled (fun fuel => walk fuel (child_ a) which);
  if c =? NULL then pret tt
  else
    do n <- get c;
    modify newitem (set_next (next n)) ;;;
    do n <- get c;
    modify newitem (set_prev (prev n)) ;;;
    do new <- get newitem;
    (if negb (next new =? NULL) then modify (next new) (set_prev newitem) else pret tt) ;;;
    do a <- get array;
    (if c =? child_ a then modify array (set_child newitem)
     else do new <- get newitem; modify (prev new) (set_next newitem)) ;;;
    modify c (fun n => set_next NULL (set_prev NULL n)) ;;;
    cJSON_Delete c.

Definition ReplaceItemInObject (object : addr) (string : chars) (newitem : addr) : prog unit :=
  do o <- get object;
  do r <- fuelled (fun fuel => find_name fuel (child_ o) string 0);
  let '(c, i) := r in
  if c =? NULL then pret tt
  else
    do copy <- strdup string;
    modify newitem (set_name copy) ;;;
    ReplaceItemInArray object i newitem.

(** ** Arrays of numbers and of strings *)

Definition create_number (num : double) : prog addr :=
  do item <- new_item;
  if item =? NULL then pret NULL
  else
    modify item (fun n => set_number (to_int num) num (set_type cJSON_Number n)) ;;; pret item.

Definition create_string (string : chars) : prog addr :=
  do item <- new_item;
  if item =? NULL then pret NULL
  else
    modify item (set_type cJSON_String) ;;;
    do copy <- strdup string;
    modify item (set_valuestring copy) ;;; pret item.

Definition create_array : prog addr :=
  do item <- new_item;
  if item =? NULL then pret NULL else modify item (set_type cJSON_Array) ;;; pret item.

(** [for(i=0;a && i<count;i++)] from [i] on, behind the item [p]. *)
Fixpoint create_items (i : nat) (a p : addr) (makes : list (prog addr)) : prog unit :=
  match makes with
  | [] => pret tt
  | make :: makes =>
      do n <- make;
      (if (i =? 0)%nat then modify a (set_child n) else suffix_object p n) ;;;
      create_items (S i) a n makes
  end.

Definition create_from (makes : list (prog addr)) : prog addr :=
  do a <- create_array;
  if a =? NULL then pret NULL else create_items 0 a NULL makes ;;; pret a.

Definition CreateIntArray (numbers : list Z) : prog addr :=
  create_from ((fun z => create_number (dbl z)) <$> numbers).
(** A [float] is converted to [double], which is exact. *)
Definition CreateFloatArray (numbers : list double) : prog addr :=
  create_from (create_number <$> numbers).
Definition CreateDoubleArray (numbers : list double) : prog addr :=
  create_from (create_number <$> numbers).
Definition CreateStringArray (strings : list chars) : prog addr :=
  create_from (create_string <$> strings).

(** ** Duplication *)

(** The copy of a string; [None]: no memory. *)
Definition copy_text (p : addr) : prog (option addr) :=
  if p =? NULL then pret (Some NULL)
  else do s <- get_text p; do copy <- strdup s; pret (if copy =? NULL then None else Some copy).

(** The loop over the children, with [dup] for the recursive call. *)
Fixpoint duplicate_children (dup : addr -> prog addr) (fuel : nat) (newitem nptr cptr : addr)
  : prog addr :=
  match fuel with
  | O => pfail
  | S fuel =>
      if cptr =? NULL then pret newitem
      else
        do newchild <- dup cptr;
        if newchild =? NULL then cJSON_Delete newitem ;;; pret NULL
        else
          (if negb (nptr =? NULL) then suffix_object nptr newchild
           else modify newitem (set_child newchild)) ;;;
          do c <- get cptr;
          duplicate_children dup fuel newitem newchild (next c)
  end.

Fixpoint duplicate (fuel : nat) (item : addr) (recurse : bool) : prog addr :=
  match fuel with
  | O => pfail
  | S depth =>
      if item =? NULL then pret NULL
      else
        do newitem <- new_item;
        if newitem =? NULL then pret NULL
        else
          do n <- get item;
          modify newitem (fun new =>
            set_number (valueint_ n) (valuedouble_ n)
              (set_type (Z.ldiff (type n) cJSON_IsReference) new)) ;;;
          do v <- copy_text (valuestring_ n);
          match v with
          | None => cJSON_Delete newitem ;;; pret NULL
          | Some v =>
              modify newitem (set_valuestring v) ;;;
              do s <- copy_text (name n);
              match s with
              | None => cJSON_Delete newitem ;;; pret NULL
              | Some s =>
                  modify newitem (set_name s) ;;;
                  if negb recurse then pret newitem
                  else
                    duplicate_children (fun c => duplicate depth c true) fuel newitem NULL (child_ n)
              end
          end
  end.

Definition cJSON_Duplicate (item : addr) (recurse : bool) : prog addr :=
  fuelled (fun fuel => duplicate fuel item recurse).

End Operations.
