(* ===== verification/JsonHeapFacts.v ===== *)
(** * JsonHeapFacts: the cells of a tree

    A store is the list of its cells, in any order. A tree with the addresses of
    its items and strings ([atree]) determines its cells and the item of
    [Json] it stands for; references and constant strings point to what the tree
    does not own. *)
From S2P Require Import Prelude.
From S2P Require Import Memory.
From S2P Require Import CString.
From S2P Require Import Double.
From S2P Require Import Json.
From S2P Require Import JsonPrint.
From S2P Require Import JsonHeap.
From Stdlib Require Import SpecFloat Ascii.

Open Scope C.

Definition cells := list (addr * object).

(** The store has these cells and no others. *)
Definition holds (L : cells) (s : store object) : Prop :=
  objs s = list_to_map L /\ NoDup L.*1 /\ NULL ∉ L.*1.

Lemma holds_perm L L' s : L ≡ₚ L' -> holds L s -> holds L' s.
Proof.
  intros HL (Ho & Hd & Hn). split; [|split].
  - rewrite Ho. by apply list_to_map_proper.
  - by rewrite <- HL.
  - by rewrite <- HL.
Qed.

Lemma holds_lookup L s a o : holds L s -> (a, o) ∈ L -> objs s !! a = Some o.
Proof. intros (Ho & Hd & _) Ha. rewrite Ho. by apply elem_of_list_to_map. Qed.

Lemma holds_size L s : holds L s -> size (objs s) = length L.
Proof. intros (Ho & Hd & _). rewrite Ho. by apply map_size_list_to_map. Qed.

Lemma holds_nonnull L s a o : holds L s -> (a, o) ∈ L -> (a =? NULL) = false.
Proof.
  intros (_ & _ & Hn) Ha. apply Z.eqb_neq. intros ->. apply Hn.
  by apply (list_elem_of_fmap_2 fst _ _ Ha).
Qed.

Section Rules.
Context `{Allocator}.

Lemma triple_perm {A} L L' (m : prog (store object) A) Q :
  L ≡ₚ L' -> triple (holds L') m Q -> triple (holds L) m Q.
Proof. intros HL Hm s Hs. apply Hm. by apply (holds_perm L). Qed.

Lemma triple_post {A} L (m : prog (store object) A) (Q Q' : A -> store object -> Prop) :
  triple (holds L) m Q' -> (forall r s, Q' r s -> Q r s) -> triple (holds L) m Q.
Proof. intros Hm HQ s Hs. destruct (Hm s Hs) as (r & s' & E & Hr). exists r, s'. auto. Qed.

Lemma holds_ret {A} L (r : A) (Q : A -> store object -> Prop) :
  (forall s, holds L s -> Q r s) -> triple (holds L) (pret r) Q.
Proof. intros HQ s Hs. exists r, s. auto. Qed.

Lemma then_get {B} c n L (k : node -> prog (store object) B) Q :
  (c, Node n) ∈ L -> triple (holds L) (k n) Q -> triple (holds L) (do n <- get c; k n) Q.
Proof.
  intros Hc Hk s Hs. unfold get, pbind, load. rewrite (holds_lookup _ _ _ _ Hs Hc).
  by apply Hk.
Qed.

Lemma then_text {B} c b t L (k : chars -> prog (store object) B) Q :
  (c, Text b t) ∈ L -> triple (holds L) (k t) Q -> triple (holds L) (do t <- get_text c; k t) Q.
Proof.
  intros Hc Hk s Hs. unfold get_text, pbind, load. rewrite (holds_lookup _ _ _ _ Hs Hc).
  by apply Hk.
Qed.

(** A store into a cell. *)
Lemma holds_save c o o' L s :
  holds ((c, o) :: L) s -> holds ((c, o') :: L) (Store (<[c := o']> (objs s)) (requests s)).
Proof.
  intros (Ho & Hd & Hn). split; [|by split]. cbn [objs] in *. rewrite Ho. cbn [list_to_map foldr].
  by rewrite insert_insert_eq.
Qed.

Lemma modify_spec c f n L : triple (holds ((c, Node n) :: L)) (modify c f) (fun _ => holds ((c, Node (f n)) :: L)).
Proof.
  intros s Hs. pose proof (holds_lookup _ _ c (Node n) Hs ltac:(by left)) as Hc.
  unfold modify, get, pbind, load, save. rewrite Hc. cbn [pret]. rewrite Hc.
  eexists _, _. split; [done|]. by apply (holds_save c (Node n)).
Qed.

Lemma then_modify {B} c f n L L' (k : unit -> prog (store object) B) Q :
  L ≡ₚ (c, Node n) :: L' -> triple (holds ((c, Node (f n)) :: L')) (k tt) Q ->
  triple (holds L) (do u <- modify c f; k u) Q.
Proof.
  intros HL Hk. apply (triple_perm _ _ _ _ HL).
  apply (triple_bind _ _ _ _ _ (modify_spec c f n L')). by intros [].
Qed.

Lemma free_spec c o L :
  (match o with Text false _ => false | _ => true end) = true ->
  triple (holds ((c, o) :: L)) (cJSON_free c) (fun _ => holds L).
Proof.
  intros Ho s Hs. pose proof (holds_lookup _ _ c o Hs ltac:(by left)) as Hc.
  pose proof (holds_nonnull _ _ c o Hs ltac:(by left)) as Hn.
  assert (E : free c s = Some (tt, Store (delete c (objs s)) (requests s))).
  { unfold free. by rewrite Hn, Hc. }
  exists tt, (Store (delete c (objs s)) (requests s)). split.
  - unfold cJSON_free, pbind, load. rewrite Hc. by destruct o as [|[] ?].
  - destruct Hs as (Hm & Hd & Hnull). apply NoDup_cons in Hd as [Hni Hd].
    split; [|split; [done|]]; cbn [objs].
    + rewrite Hm. cbn [list_to_map foldr]. rewrite delete_insert_id; [done|].
      by apply not_elem_of_list_to_map.
    + intros Hin. apply Hnull. by right.
Qed.

(** [malloc] gave a new cell, or nothing. *)
Definition exhausted : Prop := exists k live, malloc k live = NULL.

Lemma then_alloc {B} o L (k : addr -> prog (store object) B) Q :
  (forall a, a <> NULL -> triple (holds ((a, o) :: L)) (k a) Q) ->
  (exhausted -> triple (holds L) (k NULL) Q) ->
  triple (holds L) (do a <- alloc o; k a) Q.
Proof.
  intros Hk Hnull s Hs. destruct (Z.eq_dec (malloc (requests s) (dom (objs s))) NULL) as [E|E].
  - rewrite (run_alloc_null _ _ _ E). apply Hnull; [by eexists _, _|]. exact Hs.
  - destruct (run_alloc o s E) as (a & Ha & Hf & Hr). rewrite Hr. apply Hk; [done|].
    destruct Hs as (Hm & Hd & Hn). split; [|split]; cbn [objs].
    + rewrite Hm. done.
    + rewrite fmap_cons. apply NoDup_cons. split; [|done]. cbn [fst].
      rewrite Hm in Hf. by apply not_elem_of_list_to_map.
    + rewrite fmap_cons, not_elem_of_cons. cbn [fst]. by split.
Qed.

Lemma fuelled_spec {A} (f : nat -> prog (store object) A) L Q :
  triple (holds L) (f (S (length L))) Q -> triple (holds L) (fuelled f) Q.
Proof. intros Hf s Hs. unfold fuelled. rewrite (holds_size L s Hs). by apply Hf. Qed.

End Rules.

(** ** Trees *)

Inductive ptr := Null | Owned (a : addr) (s : chars) | Borrowed (a : addr).

Definition ptr_addr (p : ptr) : addr :=
  match p with Null => NULL | Owned a _ => a | Borrowed a => a end.
Definition ptr_cells (p : ptr) : cells :=
  match p with Owned a s => [(a, Text true s)] | _ => [] end.
Definition ptr_text (p : ptr) : option chars := match p with Owned _ s => Some s | _ => None end.

Record info := Info {
  itype : Z; istring : ptr; inum : Z; idbl : double; iname : ptr;
  iborrowed : addr  (* the child of a reference *)
}.

Inductive atree := T (a : addr) (i : info) (kids : list atree).

Definition root (t : atree) : addr := match t with T a _ _ => a end.
Definition head_addr (nx : addr) (l : list atree) : addr :=
  match l with [] => nx | t :: _ => root t end.
Definition last_addr (pv : addr) (l : list atree) : addr :=
  match last l with None => pv | Some t => root t end.

(** The item's fields when it stands between two others. *)
Definition mk (nx pv : addr) (t : atree) : node :=
  match t with
  | T _ i kids =>
      MkNode nx pv (head_addr (iborrowed i) kids) (itype i) (ptr_addr (istring i)) (inum i) (idbl i)
        (ptr_addr (iname i))
  end.

(** The cells of a tree but for its root. *)
Fixpoint body (t : atree) : cells :=
  match t with
  | T _ i kids =>
      ptr_cells (istring i) ++ ptr_cells (iname i) ++
      (fix go (pv : addr) (l : list atree) : cells :=
         match l with
         | [] => []
         | t :: r => (root t, Node (mk (head_addr NULL r) pv t)) :: body t ++ go (root t) r
         end) NULL kids
  end.

(** The cells of trees that stand behind [pv] and before [nx]. *)
Fixpoint chain (pv nx : addr) (l : list atree) : cells :=
  match l with
  | [] => []
  | t :: r => (root t, Node (mk (head_addr nx r) pv t)) :: body t ++ chain (root t) nx r
  end.

Lemma body_eq a i kids :
  body (T a i kids) = ptr_cells (istring i) ++ ptr_cells (iname i) ++ chain NULL NULL kids.
Proof.
  cbn [body]. do 2 f_equal.
  match goal with |- ?go NULL kids = _ => enough (Hgo : forall pv, go pv kids = chain pv NULL kids) by apply Hgo end.
  induction kids as [|t r IH]; intros pv; [done|]. cbn [chain]. by rewrite IH.
Qed.

Lemma head_addr_app nx l1 l2 : head_addr nx (l1 ++ l2) = head_addr (head_addr nx l2) l1.
Proof. by destruct l1. Qed.

Lemma last_addr_cons pv t l : last_addr pv (t :: l) = last_addr (root t) l.
Proof. unfold last_addr. rewrite last_cons. by destruct (last l). Qed.

Lemma last_addr_snoc pv l t : last_addr pv (l ++ [t]) = root t.
Proof. unfold last_addr. by rewrite last_snoc. Qed.

Lemma siblings_app pv nx l1 l2 :
  chain pv nx (l1 ++ l2) = chain pv (head_addr nx l2) l1 ++ chain (last_addr pv l1) nx l2.
Proof.
  revert pv. induction l1 as [|t l1 IH]; intros pv; [done|].
  cbn [app chain]. rewrite IH, head_addr_app, last_addr_cons. by rewrite <- app_assoc.
Qed.

(** References do not own their string and children, constant names are not
    owned either, and all the rest is. *)
Fixpoint wf (t : atree) : bool :=
  match t with
  | T _ i kids =>
      (if negb (Z.land (itype i) cJSON_IsReference =? 0)
       then match istring i, kids with Owned _ _, _ => false | _, [] => true | _, _ => false end
       else match istring i with Borrowed _ => false | _ => iborrowed i =? NULL end) &&
      (if negb (Z.land (itype i) cJSON_StringIsConst =? 0)
       then match iname i with Owned _ _ => false | _ => true end
       else match iname i with Borrowed _ => false | _ => true end) &&
      forallb wf kids
  end.

Fixpoint count_items (t : atree) : nat :=
  match t with T _ _ kids => S (foldr (fun t n => (count_items t + n)%nat) O kids) end.

Definition counts (l : list atree) : nat := foldr (fun t n => (count_items t + n)%nat) O l.

Section TreeInduction.
Variable P : atree -> Prop.
Hypothesis Htree : forall a i kids, Forall P kids -> P (T a i kids).

Fixpoint atree_nested_ind (t : atree) : P t :=
  match t with
  | T a i kids => Htree a i kids ((fix go l : Forall P l :=
      match l with
      | [] => Forall_nil_2 P
      | k :: l => Forall_cons_2 P k l (atree_nested_ind k) (go l)
      end) kids)
  end.
End TreeInduction.

Lemma body_counts t : (count_items t <= S (length (body t)))%nat.
Proof.
  induction t as [a i kids IH] using atree_nested_ind. rewrite body_eq, !length_app.
  cbn [count_items]. fold (counts kids).
  enough (Hk : forall pv nx, (counts kids <= length (chain pv nx kids))%nat) by (specialize (Hk NULL NULL); lia).
  induction IH as [|t l Ht _ IHl]; intros pv nx; [done|].
  cbn [counts chain foldr length]. rewrite length_app. specialize (IHl (root t) nx).
  fold (counts l). lia.
Qed.

Lemma chain_counts pv nx l : (counts l <= length (chain pv nx l))%nat.
Proof.
  revert pv. induction l as [|t l IH]; intros pv; [done|].
  cbn [counts chain foldr length]. rewrite length_app. specialize (IH (root t)).
  pose proof (body_counts t). fold (counts l). lia.
Qed.

Lemma chain_length pv nx l : (length l <= length (chain pv nx l))%nat.
Proof.
  revert pv. induction l as [|t l IH]; intros pv; [done|]. cbn [chain length]. rewrite length_app.
  specialize (IH (root t)). lia.
Qed.

Lemma length_counts l : (length l <= counts l)%nat.
Proof.
  induction l as [|t l IH]; [done|]. cbn [counts foldr length]. fold (counts l).
  assert (1 <= count_items t)%nat by (destruct t; cbn; lia). lia.
Qed.
