(* ===== verification/JsonEdit.v ===== *)
(** * JsonEdit: what the functions of [JsonHeap] do to trees

    Deleting gives back exactly the cells of the trees; adding, inserting,
    removing and replacing act on an array's children as on a list; duplicating
    gives a tree of new cells or leaves everything as it was. *)
From S2P Require Import Prelude.
From S2P Require Import Memory.
From S2P Require Import CString.
From S2P Require Import Double.
From S2P Require Import Json.
From S2P Require Import JsonPrint.
From S2P Require Import JsonHeap.
From S2P Require Import JsonHeapFacts.
From Stdlib Require Import SpecFloat Ascii.

Open Scope C.

Section Edit.
Context `{Allocator}.

Lemma triple_nonnull {A} a o L (m : prog (store object) A) Q :
  (a, o) ∈ L -> ((a =? NULL) = false -> triple (holds L) m Q) -> triple (holds L) m Q.
Proof. intros Ha Hm s Hs. apply Hm; [|done]. by apply (holds_nonnull L s a o). Qed.

(** ** [cJSON_Delete] *)

(** A pointer's string is freed unless it belongs to somebody else. *)
Definition may_free (foreign : bool) (p : ptr) : bool :=
  match p with Null => true | Owned _ _ => negb foreign | Borrowed _ => foreign end.

Lemma free_ptr foreign p L : may_free foreign p = true ->
  triple (holds (ptr_cells p ++ L))
    (if negb foreign && negb (ptr_addr p =? NULL) then cJSON_free (ptr_addr p) else pret tt)
    (fun _ => holds L).
Proof.
  intros Hp. destruct p as [|a t|a]; cbn [may_free ptr_cells ptr_addr app] in *.
  - rewrite andb_false_r. by apply holds_ret.
  - apply negb_true_iff in Hp as ->. cbn [negb andb].
    apply (triple_nonnull a (Text true t)); [by left|]. intros ->. by apply free_spec.
  - rewrite Hp. by apply holds_ret.
Qed.

(** What [wf] says of an item's own fields. *)
Lemma wf_fields a i kids : wf (T a i kids) = true ->
  let ref := negb (Z.land (itype i) cJSON_IsReference =? 0) in
  may_free ref (istring i) = true /\
  may_free (negb (Z.land (itype i) cJSON_StringIsConst =? 0)) (iname i) = true /\
  (if ref then kids = [] else iborrowed i = NULL) /\ forallb wf kids = true.
Proof.
  cbn [wf]. intros [[Hs Hn]%andb_true_iff Hk]%andb_true_iff. cbv zeta.
  destruct (negb (Z.land (itype i) cJSON_IsReference =? 0)), (istring i), kids;
    destruct (negb (Z.land (itype i) cJSON_StringIsConst =? 0)), (iname i); try done;
    try apply Z.eqb_eq in Hs; done.
Qed.

Lemma delete_from_spec fuel : forall l pv L,
  (counts l < fuel)%nat -> forallb wf l = true ->
  triple (holds (chain pv NULL l ++ L)) (delete_from fuel (head_addr NULL l)) (fun _ => holds L).
Proof.
  induction fuel as [|fuel IH]; intros l pv L Hf Hwf; [lia|].
  destruct l as [|[a i kids] l]; [by apply holds_ret|].
  cbn [forallb counts foldr count_items] in *. fold (counts kids) (counts l) in Hf.
  apply andb_true_iff in Hwf as [Ht Hl]. destruct (wf_fields a i kids Ht) as (Hs & Hn & Hb & Hk).
  cbn [head_addr root delete_from chain]. rewrite body_eq, <- !app_comm_cons, <- !app_assoc.
  set (n := mk _ _ _). apply (triple_nonnull a (Node n)); [by left|]. intros ->.
  apply then_get with (n := n); [by left|]. unfold has, n at 1 2 3 4 5 6 7 8 9. cbn [mk type child_ valuestring_ name next].
  set (ref := negb (Z.land _ cJSON_IsReference =? 0)) in *.
  set (R := ptr_cells (istring i) ++ ptr_cells (iname i) ++ (a, Node n) :: chain a NULL l ++ L).
  apply triple_bind with (R := fun _ => holds R).
  { apply triple_perm with (L' := chain NULL NULL kids ++ R); [unfold R; solve_Permutation|].
    destruct kids as [|k kids].
    - cbn [head_addr chain app]. destruct ref; cbn [negb andb]; [by apply holds_ret|].
      rewrite Hb. by apply holds_ret.
    - destruct ref; [done|]. cbn [negb andb]. cbn [head_addr].
      apply (triple_nonnull (root k) (Node (mk (head_addr NULL kids) NULL k))); [by left|]. intros ->.
      cbn [negb]. apply (IH (k :: kids)); [lia|done]. }
  intros []. apply triple_bind with (R := fun _ => holds (ptr_cells (iname i) ++ (a, Node n) :: chain a NULL l ++ L)).
  { by apply free_ptr. }
  intros []. apply triple_bind with (R := fun _ => holds ((a, Node n) :: chain a NULL l ++ L)).
  { by apply free_ptr. }
  intros []. apply triple_bind with (R := fun _ => holds (chain a NULL l ++ L)); [by apply free_spec|].
  intros []. apply IH; [lia|done].
Qed.

Lemma delete_spec l pv L : forallb wf l = true ->
  triple (holds (chain pv NULL l ++ L)) (cJSON_Delete (head_addr NULL l)) (fun _ => holds L).
Proof.
  intros Hl. apply fuelled_spec, delete_from_spec; [|done].
  rewrite length_app. pose proof (chain_counts pv NULL l). lia.
Qed.

(** ** Links *)

Lemma set_next_mk v nx pv t : set_next v (mk nx pv t) = mk v pv t.
Proof. by destruct t. Qed.
Lemma set_prev_mk v nx pv t : set_prev v (mk nx pv t) = mk nx v t.
Proof. by destruct t. Qed.
Lemma next_mk nx pv t : next (mk nx pv t) = nx.
Proof. by destruct t. Qed.
Lemma prev_mk nx pv t : prev (mk nx pv t) = pv.
Proof. by destruct t. Qed.

Lemma siblings_snoc pv nx l t :
  chain pv nx (l ++ [t]) =
  chain pv (root t) l ++ (root t, Node (mk nx (last_addr pv l) t)) :: body t.
Proof. rewrite siblings_app. cbn [chain head_addr]. by rewrite app_nil_r. Qed.

(** The cell of a tree in the middle of a chain. *)
Lemma chain_middle pv nx l1 t l2 :
  chain pv nx (l1 ++ t :: l2) =
  chain pv (root t) l1 ++
  (root t, Node (mk (head_addr nx l2) (last_addr pv l1) t)) :: body t ++ chain (root t) nx l2.
Proof. by rewrite siblings_app. Qed.

(** [c->prev->next=...] *)
Lemma relink_last l pv v w L : l <> [] ->
  triple (holds (chain pv v l ++ L)) (modify (last_addr pv l) (set_next w))
    (fun _ => holds (chain pv w l ++ L)).
Proof.
  intros Hl. destruct l as [|t l _] using rev_ind; [done|].
  rewrite !siblings_snoc, last_addr_snoc.
  set (n := mk v _ t). apply triple_perm with (L' := (root t, Node n) :: chain pv (root t) l ++ body t ++ L).
  { solve_Permutation. }
  eapply triple_post; [apply modify_spec|]. intros ? s Hs. subst n. rewrite set_next_mk in Hs.
  revert Hs. apply holds_perm. solve_Permutation.
Qed.

(** [if (c->prev) c->prev->next=...;] *)
Lemma relink_prev l v w L :
  triple (holds (chain NULL v l ++ L))
    (if negb (last_addr NULL l =? NULL) then modify (last_addr NULL l) (set_next w) else pret tt)
    (fun _ => holds (chain NULL w l ++ L)).
Proof.
  destruct l as [|t l _] using rev_ind; [by apply holds_ret|].
  apply triple_nonnull with (a := last_addr NULL (l ++ [t])) (o := Node (mk v (last_addr NULL l) t)).
  { rewrite siblings_snoc, last_addr_snoc. set_solver. }
  intros ->. apply relink_last. by destruct l.
Qed.

(** [if (c->next) c->next->prev=...;] *)
Lemma relink_next l v w L :
  triple (holds (chain v NULL l ++ L))
    (if negb (head_addr NULL l =? NULL) then modify (head_addr NULL l) (set_prev w) else pret tt)
    (fun _ => holds (chain w NULL l ++ L)).
Proof.
  destruct l as [|t l]; [by apply holds_ret|]. cbn [chain head_addr app].
  apply triple_nonnull with (a := root t) (o := Node (mk (head_addr NULL l) v t)); [by left|].
  intros ->. cbn [negb]. eapply triple_post; [apply modify_spec|]. intros ? s Hs.
  by rewrite set_prev_mk in Hs.
Qed.

(** ** Walks *)

Lemma walk_spec fuel : forall l pv L which, (length l < fuel)%nat ->
  triple (holds (chain pv NULL l ++ L)) (walk fuel (head_addr NULL l) which) (fun r s =>
    r = head_addr NULL (drop (Z.to_nat which) l) /\ holds (chain pv NULL l ++ L) s).
Proof.
  induction fuel as [|fuel IH]; intros l pv L which Hf; [lia|].
  destruct l as [|t l]; cbn [walk head_addr length] in *.
  { apply holds_ret. intros s Hs. by rewrite drop_nil. }
  cbn [chain]. set (n := mk _ _ _). apply triple_nonnull with (a := root t) (o := Node n); [by left|]. intros ->.
  cbn [negb andb]. destruct (Z.ltb_spec 0 which) as [Hw|Hw].
  - apply then_get with (n := n); [by left|]. rewrite (next_mk _ _ _ : next n = _).
    set (R := (root t, Node n) :: body t ++ L).
    apply triple_perm with (L' := chain (root t) NULL l ++ R); [unfold R; solve_Permutation|].
    eapply triple_post; [apply IH; lia|]. intros r s [-> Hs]. split.
    + replace (Z.to_nat which) with (S (Z.to_nat (which - 1))) by lia. done.
    + revert Hs. apply holds_perm. unfold R. solve_Permutation.
  - apply holds_ret. intros s Hs. by replace (Z.to_nat which) with 0%nat by lia.
Qed.

Lemma last_item_spec fuel : forall l pv L t, (length l < fuel)%nat ->
  triple (holds (chain pv NULL (t :: l) ++ L)) (last_item fuel (root t)) (fun r s =>
    r = last_addr (root t) l /\ holds (chain pv NULL (t :: l) ++ L) s).
Proof.
  induction fuel as [|fuel IH]; intros l pv L t Hf; [lia|]. cbn [last_item chain].
  set (n := mk _ _ _). apply then_get with (n := n); [by left|]. rewrite (next_mk _ _ _ : next n = _).
  destruct l as [|u l]; cbn [head_addr length] in *; [by apply holds_ret|].
  set (R := (root t, Node n) :: body t ++ L).
  apply triple_perm with (L' := chain (root t) NULL (u :: l) ++ R); [unfold R; solve_Permutation|].
  apply triple_nonnull with (a := root u) (o := Node (mk (head_addr NULL l) (root t) u)); [by left|]. intros ->.
  eapply triple_post; [apply IH; lia|]. intros r s [-> Hs]. split; [by rewrite last_addr_cons|].
  revert Hs. apply holds_perm. unfold R. solve_Permutation.
Qed.

(** ** An array and its children *)

Lemma forallb_lookup {A} (f : A -> bool) l k a : forallb f l = true -> l !! k = Some a -> f a = true.
Proof. rewrite forallb_forall. intros Hl E. apply Hl, list_elem_of_In. by apply list_elem_of_lookup_2 in E. Qed.

(** The array's own item [n] at [arr], and its children [l]. *)
Definition array_cells (arr : addr) (n : node) (l : list atree) : cells :=
  (arr, Node (set_child (head_addr NULL l) n)) :: chain NULL NULL l.

(** A tree that stands alone, its links 0. *)
Definition alone (t : atree) : cells := chain NULL NULL [t].

Lemma alone_eq t : alone t = (root t, Node (mk NULL NULL t)) :: body t.
Proof. unfold alone. cbn [chain head_addr]. by rewrite app_nil_r. Qed.

Lemma set_child_twice v w n : set_child v (set_child w n) = set_child v n.
Proof. done. Qed.

Lemma holds_distinct L s a o b o' L' :
  L ≡ₚ (a, o) :: (b, o') :: L' -> holds L s -> (a =? b) = false.
Proof.
  intros HL (_ & Hd & _). rewrite HL in Hd. rewrite !fmap_cons in Hd. apply Z.eqb_neq. intros ->.
  apply NoDup_cons in Hd as [Hd _]. apply Hd. by left.
Qed.

Lemma triple_distinct {A} a o b o' L L' (m : prog (store object) A) Q :
  L ≡ₚ (a, o) :: (b, o') :: L' -> ((a =? b) = false -> triple (holds L) m Q) -> triple (holds L) m Q.
Proof. intros HL Hm s Hs. apply Hm; [|done]. by apply (holds_distinct L s a o b o' L'). Qed.

Lemma AddItemToArray_spec arr n l t L :
  triple (holds (array_cells arr n l ++ alone t ++ L)) (AddItemToArray arr (root t))
    (fun _ => holds (array_cells arr n (l ++ [t]) ++ L)).
Proof.
  unfold AddItemToArray, array_cells. rewrite alone_eq.
  apply then_get with (n := set_child (head_addr NULL l) n); [by left|].
  apply triple_nonnull with (a := root t) (o := Node (mk NULL NULL t)); [set_solver|]. intros ->.
  cbn [set_child child_]. destruct l as [|u l].
  - cbn [head_addr chain app]. change (NULL =? NULL) with true. cbn iota.
    eapply triple_post; [apply modify_spec|]. intros ? s Hs. revert Hs. apply holds_perm.
    rewrite set_child_twice, app_nil_r. solve_Permutation.
  - cbn [head_addr]. set (R := (arr, Node (set_child (root u) n)) :: (root t, Node (mk NULL NULL t)) :: body t ++ L).
    apply triple_perm with (L' := chain NULL NULL (u :: l) ++ R); [unfold R; solve_Permutation|].
    apply triple_nonnull with (a := root u) (o := Node (mk (head_addr NULL l) NULL u)); [set_solver|]. intros ->.
    eapply triple_bind.
    { apply fuelled_spec, last_item_spec. rewrite length_app.
      pose proof (chain_length NULL NULL (u :: l)). cbn [length] in *. lia. }
    intros c s [-> Hs]. revert s Hs. unfold suffix_object. rewrite <- (last_addr_cons NULL).
    eapply triple_bind; [apply (relink_last (u :: l) NULL NULL (root t)); done|].
    intros []. unfold R. apply triple_perm with (L' := (root t, Node (mk NULL NULL t)) ::
      chain NULL (root t) (u :: l) ++ (arr, Node (set_child (root u) n)) :: body t ++ L); [solve_Permutation|].
    eapply triple_post; [apply modify_spec|]. intros ? s Hs. revert Hs. apply holds_perm.
    change ((u :: l) ++ [t]) with (u :: (l ++ [t])). cbn [head_addr].
    change (u :: (l ++ [t])) with ((u :: l) ++ [t]). rewrite siblings_snoc, set_prev_mk, last_addr_cons.
    solve_Permutation.
Qed.

(** The item with number [which], or none. *)
Lemma array_walk arr n l which L :
  triple (holds (array_cells arr n l ++ L)) (fuelled (fun fuel => walk fuel (head_addr NULL l) which))
    (fun r s => r = head_addr NULL (drop (Z.to_nat which) l) /\ holds (array_cells arr n l ++ L) s).
Proof.
  apply fuelled_spec. unfold array_cells.
  apply triple_perm with (L' := chain NULL NULL l ++ (arr, Node (set_child (head_addr NULL l) n)) :: L);
    [solve_Permutation|].
  eapply triple_post; [apply walk_spec|].
  - cbn [app length]. rewrite length_app. pose proof (chain_length NULL NULL l). lia.
  - intros r s [-> Hs]. split; [done|]. revert Hs. apply holds_perm. solve_Permutation.
Qed.

(** An array's children around the one of interest. *)
Lemma split_at (l : list atree) k :
  match l !! k with
  | None => drop k l = []
  | Some t => l = take k l ++ t :: drop (S k) l /\ drop k l = t :: drop (S k) l
  end.
Proof.
  destruct (l !! k) as [t|] eqn:E; [|by apply drop_ge, lookup_ge_None].
  split; [by rewrite take_drop_middle|by apply drop_S].
Qed.

(** The array's cells with the one item in front. *)
Lemma array_middle arr n l1 t l2 L :
  array_cells arr n (l1 ++ t :: l2) ++ L ≡ₚ
  (root t, Node (mk (head_addr NULL l2) (last_addr NULL l1) t)) ::
  (arr, Node (set_child (head_addr (root t) l1) n)) ::
  chain NULL (root t) l1 ++ body t ++ chain (root t) NULL l2 ++ L.
Proof. unfold array_cells. rewrite chain_middle, head_addr_app. cbn [head_addr]. solve_Permutation. Qed.

(** [if (c==array->child)] holds for the first item only. *)
Lemma head_is_root {A} n l1 t L L' (m : bool -> prog (store object) A) Q o :
  L ≡ₚ (root t, o) :: chain NULL (root t) l1 ++ L' ->
  (l1 = [] -> triple (holds L) (m true) Q) -> (l1 <> [] -> triple (holds L) (m false) Q) ->
  triple (holds L) (m (root t =? child_ (set_child (head_addr (root t) l1) n))) Q.
Proof.
  intros HL H1 H2. cbn [set_child child_]. destruct l1 as [|u l1].
  - cbn [head_addr]. rewrite Z.eqb_refl. by apply H1.
  - cbn [head_addr]. cbn [chain] in HL. set (n' := mk _ _ u) in HL.
    apply triple_distinct with (a := root t) (o := o) (b := root u) (o' := Node n')
      (L' := body u ++ chain (root u) (root t) l1 ++ L').
    { rewrite HL. solve_Permutation. }
    intros ->. by apply H2.
Qed.

Lemma detach_links {B} arr n l1 t l2 L (k : prog (store object) B) Q :
  triple (holds ((root t, Node (mk (head_addr NULL l2) (last_addr NULL l1) t)) ::
      (arr, Node (set_child (head_addr (root t) l1) n)) ::
      chain NULL (head_addr NULL l2) l1 ++ chain (last_addr NULL l1) NULL l2 ++ body t ++ L)) k Q ->
  triple (holds (array_cells arr n (l1 ++ t :: l2) ++ L))
    (do n <- get (root t);
     (if negb (prev n =? NULL) then modify (prev n) (set_next (next n)) else pret tt) ;;;
     do n <- get (root t);
     (if negb (next n =? NULL) then modify (next n) (set_prev (prev n)) else pret tt) ;;;
     k) Q.
Proof.
  intros Hk. eapply triple_perm; [apply array_middle|]. set (c := mk _ _ t). set (a := set_child _ n).
  assert (Hp : prev c = last_addr NULL l1) by apply prev_mk.
  assert (Hn : next c = head_addr NULL l2) by apply next_mk.
  apply then_get with (n := c); [by left|]. rewrite Hp, Hn.
  eapply triple_bind.
  { apply triple_perm with (L' := chain NULL (root t) l1 ++
      (root t, Node c) :: (arr, Node a) :: body t ++ chain (root t) NULL l2 ++ L); [solve_Permutation|].
    apply relink_prev. }
  intros []. apply then_get with (n := c); [set_solver|]. rewrite Hp, Hn.
  apply triple_perm with (L' := chain (root t) NULL l2 ++ chain NULL (head_addr NULL l2) l1 ++
      (root t, Node c) :: (arr, Node a) :: body t ++ L); [solve_Permutation|].
  eapply triple_bind; [apply relink_next|]. intros []. eapply triple_perm; [|exact Hk]. solve_Permutation.
Qed.

(** The array's child, once the item [t] behind [l1] is out of the chain. *)
Lemma detach_rest {B} arr n l1 t l2 L (k : addr -> prog (store object) B) Q :
  triple (holds (array_cells arr n (l1 ++ l2) ++ alone t ++ L)) (k (root t)) Q ->
  triple (holds ((root t, Node (mk (head_addr NULL l2) (last_addr NULL l1) t)) ::
      (arr, Node (set_child (head_addr (root t) l1) n)) ::
      chain NULL (head_addr NULL l2) l1 ++ chain (last_addr NULL l1) NULL l2 ++ body t ++ L))
    (do a <- get arr;
     do n <- get (root t);
     (if root t =? child_ a then modify arr (set_child (next n)) else pret tt) ;;;
     modify (root t) (fun n => set_prev NULL (set_next NULL n)) ;;;
     k (root t)) Q.
Proof.
  intros Hk. set (c := mk _ _ t). apply then_get with (n := set_child (head_addr (root t) l1) n); [set_solver|].
  apply then_get with (n := c); [by left|]. rewrite (next_mk _ _ _ : next c = _).
  apply triple_bind with (R := fun _ => holds ((root t, Node c) ::
    (arr, Node (set_child (head_addr NULL (l1 ++ l2)) n)) ::
    chain NULL (head_addr NULL l2) l1 ++ chain (last_addr NULL l1) NULL l2 ++ body t ++ L)).
  - destruct l1 as [|u l1].
    + cbn [head_addr set_child child_ app chain]. rewrite Z.eqb_refl.
      eapply triple_perm; [apply perm_swap|]. eapply triple_post; [apply modify_spec|].
      intros ? s Hs. revert Hs. apply holds_perm. rewrite set_child_twice. apply perm_swap.
    + cbn [head_addr set_child child_ app chain]. set (n' := mk _ _ u).
      apply triple_distinct with (a := root t) (o := Node c) (b := root u) (o' := Node n')
        (L' := (arr, Node (set_child (root u) n)) :: body u ++ chain (root u) (head_addr NULL l2) l1 ++
               chain (last_addr NULL (u :: l1)) NULL l2 ++ body t ++ L).
      { solve_Permutation. }
      intros ->. by apply holds_ret.
  - intros []. eapply then_modify; [reflexivity|]. unfold c. rewrite set_next_mk, set_prev_mk.
    eapply triple_perm; [|exact Hk]. unfold array_cells. rewrite alone_eq, siblings_app. solve_Permutation.
Qed.

(** The item with number [which] goes out of the array; NULL if there is none. *)
Lemma detach_spec arr n l which L :
  triple (holds (array_cells arr n l ++ L)) (DetachItemFromArray arr which) (fun r s =>
    match l !! Z.to_nat which with
    | None => r = NULL /\ holds (array_cells arr n l ++ L) s
    | Some t => r = root t /\
        holds (array_cells arr n (delete (Z.to_nat which) l) ++ alone t ++ L) s
    end).
Proof.
  unfold DetachItemFromArray. apply then_get with (n := set_child (head_addr NULL l) n); [by left|].
  cbn [set_child child_]. eapply triple_bind; [apply array_walk|].
  intros c s [-> Hs]. revert s Hs. pose proof (split_at l (Z.to_nat which)) as Hl.
  destruct (l !! Z.to_nat which) as [t|] eqn:E.
  - destruct Hl as [El ->]. rewrite delete_take_drop. cbn [head_addr].
    set (l1 := take _ l) in *. set (l2 := drop _ l) in *. rewrite El.
    apply triple_nonnull with (a := root t) (o := Node (mk (head_addr NULL l2) (last_addr NULL l1) t)).
    { rewrite array_middle. by left. }
    intros ->. apply detach_links, detach_rest, holds_ret. done.
  - rewrite Hl. cbn [head_addr]. by apply holds_ret.
Qed.

(** [if (c==array->child) array->child=newitem; else newitem->prev->next=newitem;]
    where [newitem] has its links already. *)
Lemma link_first arr n l1 c oc t nt L :
  prev nt = last_addr NULL l1 ->
  triple (holds ((arr, Node (set_child (head_addr c l1) n)) :: (c, oc) :: (root t, Node nt) ::
    chain NULL c l1 ++ L))
    (if c =? head_addr c l1 then modify arr (set_child (root t))
     else do new <- get (root t); modify (prev new) (set_next (root t)))
    (fun _ => holds ((arr, Node (set_child (head_addr (root t) l1) n)) :: (c, oc) :: (root t, Node nt) ::
    chain NULL (root t) l1 ++ L)).
Proof.
  intros Hp. destruct l1 as [|u l1].
  - cbn [head_addr]. rewrite Z.eqb_refl. eapply triple_post; [apply modify_spec|]. done.
  - cbn [head_addr].
    apply triple_distinct with (a := c) (o := oc) (b := root u) (o' := Node (mk (head_addr c l1) NULL u))
      (L' := (arr, Node (set_child (root u) n)) :: (root t, Node nt) :: body u ++ chain (root u) c l1 ++ L).
    { cbn [chain app]. solve_Permutation. }
    intros ->. apply then_get with (n := nt); [set_solver|]. rewrite Hp.
    apply triple_perm with (L' := chain NULL c (u :: l1) ++
      (arr, Node (set_child (root u) n)) :: (c, oc) :: (root t, Node nt) :: L); [solve_Permutation|].
    eapply triple_post; [by apply relink_last|]. intros ? s Hs. revert Hs. apply holds_perm. solve_Permutation.
Qed.

(** A tree is put before the item with number [which], or at the end. *)
Lemma insert_spec arr n l which t L :
  triple (holds (array_cells arr n l ++ alone t ++ L)) (InsertItemInArray arr which (root t))
    (fun _ => holds (array_cells arr n (take (Z.to_nat which) l ++ t :: drop (Z.to_nat which) l) ++ L)).
Proof.
  unfold InsertItemInArray. apply then_get with (n := set_child (head_addr NULL l) n); [by left|].
  cbn [set_child child_]. eapply triple_bind; [apply array_walk|].
  intros c s [-> Hs]. revert s Hs. pose proof (split_at l (Z.to_nat which)) as Hl.
  destruct (l !! Z.to_nat which) as [u|] eqn:E.
  - destruct Hl as [El ->]. cbn [head_addr]. set (l1 := take _ l) in *. set (l2 := drop _ l) in *. rewrite El.
    eapply triple_perm; [apply array_middle|].
    set (nu := mk _ _ u). apply triple_nonnull with (a := root u) (o := Node nu); [by left|]. intros ->.
    rewrite alone_eq.
    set (A := (arr, Node (set_child (head_addr (root u) l1) n))).
    set (R := A :: chain NULL (root u) l1 ++ body u ++ chain (root u) NULL l2 ++ body t ++ L).
    eapply then_modify with (L' := (root u, Node nu) :: R); [unfold R; solve_Permutation|].
    rewrite set_next_mk. apply then_get with (n := nu); [set_solver|]. unfold nu at 2. rewrite prev_mk.
    eapply then_modify; [reflexivity|]. rewrite set_prev_mk.
    eapply then_modify; [apply perm_swap|]. unfold nu. rewrite set_prev_mk.
    apply then_get with (n := set_child (head_addr (root u) l1) n); [unfold R, A; set_solver|]. cbn [set_child child_].
    set (nt := mk (root u) _ t).
    apply triple_perm with (L' := A :: (root u, Node (mk (head_addr NULL l2) (root t) u)) :: (root t, Node nt) ::
      chain NULL (root u) l1 ++ body u ++ chain (root u) NULL l2 ++ body t ++ L);
      [unfold R; solve_Permutation|].
    eapply triple_post; [apply link_first, prev_mk|]. intros ? s Hs. revert Hs. apply holds_perm.
    rewrite array_middle. cbn [chain head_addr]. unfold nt. solve_Permutation.
  - rewrite Hl. cbn [head_addr].
    rewrite take_ge by (by apply lookup_ge_None). apply AddItemToArray_spec.
Qed.

(** A tree takes the place of the item with number [which], which is deleted;
    nothing happens if there is none. *)
Lemma replace_spec arr n l which t L : forallb wf l = true ->
  triple (holds (array_cells arr n l ++ alone t ++ L)) (ReplaceItemInArray arr which (root t))
    (fun _ => holds (match l !! Z.to_nat which with
      | None => array_cells arr n l ++ alone t ++ L
      | Some _ => array_cells arr n (<[Z.to_nat which := t]> l) ++ L
      end)).
Proof.
  intros Hwf. unfold ReplaceItemInArray.
  apply then_get with (n := set_child (head_addr NULL l) n); [by left|].
  cbn [set_child child_]. eapply triple_bind; [apply array_walk|].
  intros c s [-> Hs]. revert s Hs. pose proof (split_at l (Z.to_nat which)) as Hl.
  destruct (l !! Z.to_nat which) as [u|] eqn:E; [|rewrite Hl; by apply holds_ret].
  destruct Hl as [El ->]. rewrite insert_take_drop by (by apply lookup_lt_Some in E).
  assert (Hu : wf u = true) by by apply (forallb_lookup _ _ _ _ Hwf E).
  cbn [head_addr]. set (l1 := take _ l) in *. set (l2 := drop _ l) in *. rewrite El.
  eapply triple_perm; [apply array_middle|].
  set (nu := mk _ _ u). apply triple_nonnull with (a := root u) (o := Node nu); [by left|]. intros ->.
  assert (Hn : next nu = head_addr NULL l2) by apply next_mk.
  assert (Hp : prev nu = last_addr NULL l1) by apply prev_mk. rewrite alone_eq.
  set (A := (arr, Node (set_child (head_addr (root u) l1) n))).
  set (R := A :: chain NULL (root u) l1 ++ body u ++ chain (root u) NULL l2 ++ body t ++ L).
  apply then_get with (n := nu); [by left|]. rewrite Hn.
  eapply then_modify with (L' := (root u, Node nu) :: R); [unfold R; solve_Permutation|].
  rewrite set_next_mk. apply then_get with (n := nu); [set_solver|]. rewrite Hp.
  eapply then_modify; [reflexivity|]. rewrite set_prev_mk. set (nt := mk _ _ t).
  apply then_get with (n := nt); [by left|]. rewrite (next_mk _ _ _ : next nt = _).
  eapply triple_bind.
  { apply triple_perm with (L' := chain (root u) NULL l2 ++ (root t, Node nt) :: (root u, Node nu) :: A ::
      chain NULL (root u) l1 ++ body u ++ body t ++ L); [unfold R; solve_Permutation|].
    apply relink_next. }
  intros []. apply then_get with (n := set_child (head_addr (root u) l1) n); [unfold A; set_solver|].
  cbn [set_child child_]. eapply triple_bind.
  { apply triple_perm with (L' := A :: (root u, Node nu) :: (root t, Node nt) :: chain NULL (root u) l1 ++
      chain (root t) NULL l2 ++ body u ++ body t ++ L); [solve_Permutation|].
    apply link_first, prev_mk. }
  intros []. eapply then_modify; [apply perm_swap|]. unfold nu. rewrite set_prev_mk, set_next_mk.
  apply triple_perm with (L' := chain NULL NULL [u] ++ array_cells arr n (l1 ++ t :: l2) ++ L).
  { rewrite array_middle. cbn [chain head_addr]. unfold nt. solve_Permutation. }
  eapply triple_post; [apply (delete_spec [u]); cbn; by rewrite Hu|]. done.
Qed.

(** The item with number [which] is deleted, if there is one. *)
Lemma delete_item_spec arr n l which L : forallb wf l = true ->
  triple (holds (array_cells arr n l ++ L)) (DeleteItemFromArray arr which)
    (fun _ => holds (array_cells arr n (delete (Z.to_nat which) l) ++ L)).
Proof.
  intros Hwf. unfold DeleteItemFromArray. eapply triple_bind; [apply detach_spec|].
  intros c s Hs. destruct (l !! Z.to_nat which) as [t|] eqn:E.
  - destruct Hs as [-> Hs]. revert s Hs.
    assert (Ht : wf t = true) by by apply (forallb_lookup _ _ _ _ Hwf E).
    apply triple_perm with (L' := chain NULL NULL [t] ++ array_cells arr n (delete (Z.to_nat which) l) ++ L);
      [fold (alone t); solve_Permutation|].
    apply (delete_spec [t]). cbn. by rewrite Ht.
  - destruct Hs as [-> Hs]. revert s Hs. rewrite delete_take_drop. apply lookup_ge_None in E.
    rewrite take_ge, (drop_ge l), app_nil_r by lia.
    apply (delete_spec [] NULL). done.
Qed.

End Edit.
