(* ===== verification/JsonTree.v ===== *)
(** * JsonTree: sequences of changes to a tree of cJSON.c

    The functions that look for a name, and any sequence of changes to an array
    or object: the store follows the changes of the plain lists of items, and no
    cell is lost but the names that [cJSON_ReplaceItemInObject] forgets. *)
From S2P Require Import Prelude.
From S2P Require Import Memory.
From S2P Require Import CString.
From S2P Require Import Double.
From S2P Require Import Json.
From S2P Require Import JsonPrint.
From S2P Require Import JsonHeap.
From S2P Require Import JsonHeapFacts.
From S2P Require Import JsonEdit.
From Stdlib Require Import SpecFloat Ascii.

Open Scope C.

(** The item a tree stands for; what it does not own is left out. *)
Fixpoint erase (t : atree) : cJSON :=
  match t with
  | T _ i kids =>
      Item (itype i) (ptr_text (istring i)) (inum i) (idbl i) (ptr_text (iname i)) (map erase kids)
  end.

(** An item that owns its name. *)
Definition tame (t : atree) : bool :=
  match t with T _ i _ => wf t && (Z.land (itype i) cJSON_StringIsConst =? 0) end.

Definition rename (p : ptr) (t : atree) : atree :=
  match t with
  | T a i kids =>
      T a (Info (itype i) (istring i) (inum i) (idbl i) p (iborrowed i)) kids
  end.

Lemma tame_wf t : tame t = true -> wf t = true.
Proof. destruct t as [a i kids]. cbn [tame]. by intros [Ht _]%andb_true_iff. Qed.

Lemma tame_name a i kids : tame (T a i kids) = true ->
  iname i = Null \/ exists b s, iname i = Owned b s.
Proof.
  intros [Ht Hc]%andb_true_iff. apply wf_fields in Ht as (_ & Hn & _).
  apply Z.eqb_eq in Hc. rewrite Hc in Hn. cbn in Hn. destruct (iname i); [by left|right; eauto|done].
Qed.

Lemma tame_rename b s t : tame t = true -> tame (rename (Owned b s) t) = true.
Proof.
  destruct t as [a i kids]. cbn [tame rename itype]. intros [Ht Hc]%andb_true_iff.
  rewrite Hc, andb_true_r. cbn [wf itype istring iname iborrowed] in *. rewrite Hc in *. cbn [negb] in *.
  apply andb_true_iff in Ht as [[Ht _]%andb_true_iff ->]. by rewrite Ht.
Qed.

Lemma erase_rename b s t : erase (rename (Owned b s) t) = with_name (Some s) (erase t).
Proof. by destruct t. Qed.

Lemma root_rename p t : root (rename p t) = root t.
Proof. by destruct t. Qed.

(** The number of the first item with the name, or the number of items. *)
Fixpoint index_of (string : chars) (l : list cJSON) : nat :=
  match l with
  | [] => 0
  | c :: l => if cJSON_strcasecmp (string_ c) string =? 0 then 0 else S (index_of string l)
  end.

(** ** Sequences of changes

    A program that has an array (or object) and the pointers of trees of its own;
    [k] numbers the latter. *)
Inductive edit :=
  | Add (k : nat) | AddNamed (string : chars) (k : nat)
  | Insert (which : Z) (k : nat)
  | Replace (which : Z) (k : nat) | ReplaceNamed (string : chars) (k : nat)
  | Detach (which : Z) | DetachNamed (string : chars)
  | Delete (which : Z) | DeleteNamed (string : chars).

(** What it means: the items in the array, those outside, and the names that
    nobody can reach any more. *)
Record world := World { inside : list cJSON; outside : list cJSON; forgotten : list chars }.

Definition put_in (w : world) (k : nat) (f : cJSON -> list cJSON) (lost : cJSON -> list chars) : world :=
  match outside w !! k with
  | None => w
  | Some c => World (f c) (delete k (outside w)) (lost c ++ forgotten w)
  end.

Definition take_out (w : world) (k : nat) (keep : bool) : world :=
  match inside w !! k with
  | None => w
  | Some c => World (delete k (inside w)) (if keep then c :: outside w else outside w) (forgotten w)
  end.

Definition spec_edit (e : edit) (w : world) : world :=
  let l := inside w in
  let at_ which := Z.to_nat which in
  let named string := index_of string l in
  match e with
  | Add k => put_in w k (fun c => l ++ [c]) (fun _ => [])
  | AddNamed string k => put_in w k (fun c => l ++ [with_name (Some string) c]) (fun _ => [])
  | Insert which k => put_in w k (fun c => take (at_ which) l ++ c :: drop (at_ which) l) (fun _ => [])
  | Replace which k =>
      match l !! at_ which with
      | None => w
      | Some _ => put_in w k (fun c => <[at_ which := c]> l) (fun _ => [])
      end
  | ReplaceNamed string k =>
      match l !! named string with
      | None => w
      | Some _ => put_in w k (fun c => <[named string := with_name (Some string) c]> l)
                    (fun c => match string_ c with Some s => [s] | None => [] end)
      end
  | Detach which => take_out w (at_ which) true
  | DetachNamed string => take_out w (named string) true
  | Delete which => take_out w (at_ which) false
  | DeleteNamed string => take_out w (named string) false
  end.

Definition spec_edits (es : list edit) (w : world) : world := fold_left (fun w e => spec_edit e w) es w.

Section Program.
Context `{Allocator}.

(** A call with the tree [k] of the program's own, which it then gives up. *)
Definition give (handles : list addr) (k : nat) (f : addr -> prog (store object) unit)
  : prog (store object) (list addr) :=
  match handles !! k with
  | None => pret handles
  | Some c => f c ;;; pret (delete k handles)
  end.

(** The program keeps a new tree if it is not used. *)
Definition give_if (found : prog (store object) addr) (handles : list addr) (k : nat)
    (f : addr -> prog (store object) unit) : prog (store object) (list addr) :=
  do c <- found; if c =? NULL then pret handles else give handles k f.

Definition keep (detach : prog (store object) addr) (handles : list addr)
  : prog (store object) (list addr) :=
  do c <- detach; pret (if c =? NULL then handles else c :: handles).

Definition run_edit (arr : addr) (e : edit) (handles : list addr) : prog (store object) (list addr) :=
  match e with
  | Add k => give handles k (AddItemToArray arr)
  | AddNamed string k => give handles k (AddItemToObject arr string)
  | Insert which k => give handles k (InsertItemInArray arr which)
  | Replace which k => give_if (GetArrayItem arr which) handles k (ReplaceItemInArray arr which)
  | ReplaceNamed string k => give_if (GetObjectItem arr string) handles k (ReplaceItemInObject arr string)
  | Detach which => keep (DetachItemFromArray arr which) handles
  | DetachNamed string => keep (DetachItemFromObject arr string) handles
  | Delete which => DeleteItemFromArray arr which ;;; pret handles
  | DeleteNamed string => DeleteItemFromObject arr string ;;; pret handles
  end.

Fixpoint run_edits (arr : addr) (es : list edit) (handles : list addr)
  : prog (store object) (list addr) :=
  match es with
  | [] => pret handles
  | e :: es => do handles <- run_edit arr e handles; run_edits arr es handles
  end.

End Program.

(** The store holds the array [arr], the program's own trees, the forgotten
    names and [L], and nothing else. *)
Definition name_cells (names : list (addr * chars)) : cells :=
  (fun '(a, s) => (a, Text true s)) <$> names.

Definition represents (arr : addr) (n : node) (L : cells) (w : world) (handles : list addr)
    (s : store object) : Prop :=
  exists l ts names,
    w = World (map erase l) (map erase ts) names.*2 /\ handles = map root ts /\
    forallb tame l = true /\ forallb tame ts = true /\
    holds (array_cells arr n l ++ concat (map alone ts) ++ name_cells names ++ L) s.

Section Tree.
Context `{Allocator}.

(** ** Names *)

Lemma then_name {B} t nx pv L (k : option chars -> prog (store object) B) Q : tame t = true ->
  (root t, Node (mk nx pv t)) ∈ L -> body t ⊆ L ->
  triple (holds L) (k (string_ (erase t))) Q ->
  triple (holds L) (do o <- text_of (name (mk nx pv t)); k o) Q.
Proof.
  destruct t as [a i kids]. intros Ht Ha Hb Hk. cbn [mk name erase string_] in *.
  destruct (tame_name a i kids Ht) as [E|(b & s & E)]; rewrite E in *; cbn [ptr_addr ptr_text].
  - unfold text_of. change (NULL =? NULL) with true. exact Hk.
  - assert (Hin : (b, Text true s) ∈ L).
    { apply Hb. rewrite body_eq, E. cbn [ptr_cells]. set_solver. }
    apply (triple_nonnull b (Text true s)); [done|]. intros Hn. unfold text_of. rewrite Hn.
    intros st Hst. destruct (then_text b true s L (fun s => pret (Some s)) (fun r s1 => r = Some s /\ holds L s1) Hin)
      with (s := st) as (r & s1 & E1 & -> & H1); [by apply holds_ret|done|].
    rewrite (pbind_run _ _ _ _ _ E1). by apply Hk.
Qed.

Lemma find_name_spec string fuel : forall l pv L i,
  (length l < fuel)%nat -> forallb tame l = true ->
  triple (holds (chain pv NULL l ++ L)) (find_name fuel (head_addr NULL l) string i) (fun r s =>
    let k := index_of string (map erase l) in
    r = (head_addr NULL (drop k l), i + Z.of_nat k) /\ holds (chain pv NULL l ++ L) s).
Proof.
  induction fuel as [|fuel IH]; intros l pv L i Hf Hl; [lia|].
  destruct l as [|t l]; cbn [find_name head_addr length map index_of forallb] in *.
  { apply holds_ret. intros s Hs. split; [|done]. cbn. f_equal. lia. }
  apply andb_true_iff in Hl as [Ht Hl]. cbn [chain].
  set (n := mk _ _ t). apply (triple_nonnull (root t) (Node n)); [by left|]. intros ->.
  apply then_get with (n := n); [by left|]. apply then_name; [done|by left|set_solver|].
  cbv zeta. destruct (cJSON_strcasecmp (string_ (erase t)) string =? 0).
  { apply holds_ret. intros s Hs. split; [|done]. cbn [drop head_addr]. f_equal. lia. }
  rewrite (next_mk _ _ _ : next n = _).
  apply triple_perm with (L' := chain (root t) NULL l ++ (root t, Node n) :: body t ++ L); [solve_Permutation|].
  eapply triple_post; [apply IH; [lia|done]|]. intros r s [-> Hs]. split.
  - cbn [drop]. f_equal. lia.
  - revert Hs. apply holds_perm. solve_Permutation.
Qed.

Lemma array_nonnull {A} arr n l k t L (m : prog (store object) A) Q :
  l !! k = Some t -> ((root t =? NULL) = false -> triple (holds (array_cells arr n l ++ L)) m Q) ->
  triple (holds (array_cells arr n l ++ L)) m Q.
Proof.
  intros E. apply triple_nonnull with
    (o := Node (mk (head_addr NULL (drop (S k) l)) (last_addr NULL (take k l)) t)).
  pose proof (array_middle arr n (take k l) t (drop (S k) l) L) as Hp.
  rewrite take_drop_middle in Hp by done. rewrite Hp. by left.
Qed.

(** The item with the name, or none. *)
Lemma array_find arr n l string L : forallb tame l = true ->
  triple (holds (array_cells arr n l ++ L)) (fuelled (fun fuel => find_name fuel (head_addr NULL l) string 0))
    (fun r s => let k := index_of string (map erase l) in
       r = (head_addr NULL (drop k l), Z.of_nat k) /\ holds (array_cells arr n l ++ L) s).
Proof.
  intros Hl. apply fuelled_spec. unfold array_cells.
  apply triple_perm with (L' := chain NULL NULL l ++ (arr, Node (set_child (head_addr NULL l) n)) :: L);
    [solve_Permutation|].
  eapply triple_post; [apply find_name_spec; [|done]|].
  - cbn [app length]. rewrite length_app. pose proof (chain_length NULL NULL l). lia.
  - intros r s [-> Hs]. split; [done|]. revert Hs. apply holds_perm. solve_Permutation.
Qed.

(** Looking for a name gives the item where the search ends. *)
Lemma index_lookup string (l : list atree) :
  match l !! index_of string (map erase l) with
  | None => drop (index_of string (map erase l)) l = []
  | Some t => head_addr NULL (drop (index_of string (map erase l)) l) = root t
  end.
Proof.
  destruct (l !! index_of string (map erase l)) as [t|] eqn:E; [by rewrite (drop_S _ _ _ E)|].
  by apply drop_ge, lookup_ge_None.
Qed.

(** ** The functions that take a name *)

Context `{!Unlimited}.

Lemma not_exhausted : ~ exhausted.
Proof. intros (k & live & E). by apply (malloc_some k live). Qed.

(** A tree alone, its root's cell with another name. *)
Lemma alone_rename b s a i kids :
  alone (rename (Owned b s) (T a i kids)) =
  (a, Node (set_name b (mk NULL NULL (T a i kids)))) ::
  ptr_cells (istring i) ++ (b, Text true s) :: chain NULL NULL kids.
Proof. rewrite alone_eq. cbn [root rename]. by rewrite body_eq. Qed.

Lemma add_named_spec arr n l string t L : tame t = true ->
  triple (holds (array_cells arr n l ++ alone t ++ L)) (AddItemToObject arr string (root t))
    (fun _ s => exists b, holds (array_cells arr n (l ++ [rename (Owned b string) t]) ++ L) s).
Proof.
  destruct t as [a i kids]. intros Ht. unfold AddItemToObject. cbn [root].
  rewrite alone_eq, body_eq. set (c := mk _ _ _).
  apply (triple_nonnull a (Node c)); [set_solver|]. intros ->. apply then_get with (n := c); [set_solver|].
  unfold c at 2 3. cbn [mk name].
  set (R := array_cells arr n l ++ (a, Node c) :: ptr_cells (istring i) ++ chain NULL NULL kids ++ L).
  eapply triple_bind.
  { apply triple_perm with (L' := ptr_cells (iname i) ++ R); [unfold R; solve_Permutation|].
    apply (free_ptr false). destruct (tame_name a i kids Ht) as [->|(b & s & ->)]; done. }
  intros []. apply then_alloc; [|by intros ?%not_exhausted]. intros b Hb.
  eapply then_modify with (L' := (b, Text true string) :: array_cells arr n l ++ ptr_cells (istring i) ++
    chain NULL NULL kids ++ L); [unfold R; solve_Permutation|].
  set (t := T a i kids).
  apply triple_perm with (L' := array_cells arr n l ++ alone (rename (Owned b string) t) ++ L).
  { unfold t. rewrite alone_rename. unfold c. solve_Permutation. }
  change a with (root (rename (Owned b string) t)).
  eapply triple_post; [apply AddItemToArray_spec|]. intros ? s Hs. by exists b.
Qed.

Lemma detach_named_spec arr n l string L : forallb tame l = true ->
  triple (holds (array_cells arr n l ++ L)) (DetachItemFromObject arr string) (fun r s =>
    let k := index_of string (map erase l) in
    match l !! k with
    | None => r = NULL /\ holds (array_cells arr n l ++ L) s
    | Some t => r = root t /\ holds (array_cells arr n (delete k l) ++ alone t ++ L) s
    end).
Proof.
  intros Hl. unfold DetachItemFromObject.
  apply then_get with (n := set_child (head_addr NULL l) n); [by left|]. cbn [set_child child_].
  eapply triple_bind; [by apply array_find|]. cbv zeta. pose proof (index_lookup string l) as Hk.
  set (k := index_of string (map erase l)) in *. intros r s [-> Hs]. revert s Hs.
  destruct (l !! k) as [t|] eqn:E.
  - rewrite Hk. apply (array_nonnull _ _ _ _ _ _ _ _ E). intros ->. eapply triple_post; [apply detach_spec|]. intros r s. by rewrite Nat2Z.id, E.
  - rewrite Hk. by apply holds_ret.
Qed.

Lemma delete_named_spec arr n l string L : forallb tame l = true ->
  triple (holds (array_cells arr n l ++ L)) (DeleteItemFromObject arr string)
    (fun _ => holds (array_cells arr n (delete (index_of string (map erase l)) l) ++ L)).
Proof.
  intros Hl. unfold DeleteItemFromObject. eapply triple_bind; [by apply detach_named_spec|].
  cbv zeta. set (k := index_of string (map erase l)). intros c s. destruct (l !! k) as [t|] eqn:E.
  - intros [-> Hs]. revert s Hs.
    assert (Ht : wf t = true) by by apply tame_wf, (forallb_lookup _ _ _ _ Hl E).
    apply triple_perm with (L' := chain NULL NULL [t] ++ array_cells arr n (delete k l) ++ L);
      [fold (alone t); solve_Permutation|].
    apply (delete_spec [t]). cbn. by rewrite Ht.
  - intros [-> Hs]. revert s Hs. rewrite delete_take_drop. apply lookup_ge_None in E.
    rewrite take_ge, (drop_ge l), app_nil_r by lia. by apply (delete_spec [] NULL).
Qed.

Lemma forallb_tame_wf l : forallb tame l = true -> forallb wf l = true.
Proof. rewrite !forallb_forall. intros Hl t Ht. by apply tame_wf, Hl. Qed.

(** The name the new item had is lost. *)
Lemma replace_named_spec arr n l string t L : forallb tame l = true ->
  triple (holds (array_cells arr n l ++ alone t ++ L)) (ReplaceItemInObject arr string (root t))
    (fun _ s => let k := index_of string (map erase l) in
      match l !! k, t with
      | None, _ => holds (array_cells arr n l ++ alone t ++ L) s
      | Some _, T _ i _ => exists b,
          holds (array_cells arr n (<[k := rename (Owned b string) t]> l) ++ ptr_cells (iname i) ++ L) s
      end).
Proof.
  intros Hl. unfold ReplaceItemInObject.
  apply then_get with (n := set_child (head_addr NULL l) n); [by left|]. cbn [set_child child_].
  eapply triple_bind; [by apply array_find|]. cbv zeta. pose proof (index_lookup string l) as Hk.
  set (k := index_of string (map erase l)) in *. intros r s [-> Hs]. revert s Hs.
  destruct (l !! k) as [u|] eqn:E; rewrite Hk; [|by apply holds_ret].
  apply (array_nonnull _ _ _ _ _ _ _ _ E). intros ->. apply then_alloc; [|by intros ?%not_exhausted]. intros b Hb.
  destruct t as [a i kids]. rewrite alone_eq, body_eq. cbn [root].
  eapply then_modify with (L' := (b, Text true string) :: array_cells arr n l ++ ptr_cells (istring i) ++
    ptr_cells (iname i) ++ chain NULL NULL kids ++ L); [solve_Permutation|].
  set (t := T a i kids).
  apply triple_perm with (L' := array_cells arr n l ++ alone (rename (Owned b string) t) ++ ptr_cells (iname i) ++ L).
  { unfold t. rewrite alone_rename. solve_Permutation. }
  change a with (root (rename (Owned b string) t)).
  eapply triple_post; [apply replace_spec, forallb_tame_wf, Hl|]. rewrite Nat2Z.id, E.
  intros ? s Hs. by exists b.
Qed.

(** ** The program's own trees *)

Lemma alone_out ts k t : ts !! k = Some t ->
  concat (map alone ts) ≡ₚ alone t ++ concat (map alone (delete k ts)).
Proof.
  intros E. rewrite <- (take_drop_middle ts k t E) at 1. rewrite delete_take_drop, !map_app, !concat_app.
  cbn [map concat]. solve_Permutation.
Qed.

Lemma tame_delete l k : forallb tame l = true -> forallb tame (delete k l) = true.
Proof.
  rewrite delete_take_drop, forallb_app. intros Hl. rewrite <- (take_drop k l), forallb_app in Hl.
  apply andb_true_iff in Hl as [-> Hl]. destruct (drop k l) as [|t r] eqn:E.
  - apply (f_equal length) in E. rewrite length_drop in E. cbn in E. by rewrite drop_ge by lia.
  - rewrite <- (Nat.add_1_r k), <- drop_drop, E. by apply andb_true_iff in Hl as [_ Hl].
Qed.

Lemma map_delete {A B} (f : A -> B) k l : map f (delete k l) = delete k (map f l).
Proof. by rewrite !delete_take_drop, map_app, firstn_map, skipn_map. Qed.

Lemma map_lookup {A B} (f : A -> B) k l : map f l !! k = f <$> l !! k.
Proof. apply list_lookup_fmap. Qed.

(** A tree of the program's own goes into the array, changed by [g]. *)
Lemma give_spec arr n L l ts names k (f : addr -> prog (store object) unit)
    (into' : cJSON -> list cJSON) (lost : cJSON -> list chars) :
  forallb tame l = true -> forallb tame ts = true ->
  (forall t L, tame t = true ->
    triple (holds (array_cells arr n l ++ alone t ++ L)) (f (root t)) (fun _ s => exists l' names',
      forallb tame l' = true /\ map erase l' = into' (erase t) /\ names'.*2 = lost (erase t) /\
      holds (array_cells arr n l' ++ name_cells names' ++ L) s)) ->
  triple (holds (array_cells arr n l ++ concat (map alone ts) ++ name_cells names ++ L))
    (give (map root ts) k f)
    (represents arr n L (put_in (World (map erase l) (map erase ts) names.*2) k into' lost)).
Proof.
  intros Hl Hts Hf. unfold give, put_in. cbn [inside outside forgotten]. rewrite !map_lookup.
  destruct (ts !! k) as [t|] eqn:E; cbn [fmap option_fmap option_map].
  - eapply triple_bind.
    { eapply triple_perm; [|apply (Hf t (concat (map alone (delete k ts)) ++ name_cells names ++ L))].
      - rewrite (alone_out ts k t E). solve_Permutation.
      - by apply (forallb_lookup _ _ _ _ Hts E). }
    intros [] s (l' & names' & Hl' & He & Hlost & Hs). eexists _, _. split; [done|].
    exists l', (delete k ts), (names' ++ names). rewrite He, <- Hlost, !map_delete, fmap_app.
    split; [done|]. split; [done|]. split; [done|]. split; [by apply tame_delete|].
    revert Hs. apply holds_perm. unfold name_cells. rewrite fmap_app, map_delete. solve_Permutation.
  - apply holds_ret. intros s Hs. by exists l, ts, names.
Qed.

(** An item comes out of the array, to be kept. *)
Lemma keep_spec arr n L l ts names k (m : prog (store object) addr) :
  forallb tame l = true -> forallb tame ts = true ->
  (forall L, triple (holds (array_cells arr n l ++ L)) m (fun r s =>
    match l !! k with
    | None => r = NULL /\ holds (array_cells arr n l ++ L) s
    | Some t => r = root t /\ holds (array_cells arr n (delete k l) ++ alone t ++ L) s
    end)) ->
  triple (holds (array_cells arr n l ++ concat (map alone ts) ++ name_cells names ++ L))
    (keep m (map root ts))
    (represents arr n L (take_out (World (map erase l) (map erase ts) names.*2) k true)).
Proof.
  intros Hl Hts Hm. unfold keep, take_out. cbn [inside outside forgotten].
  rewrite map_lookup. eapply triple_bind; [apply Hm|].
  intros r s Hs. destruct (l !! k) as [t|] eqn:E; cbn [fmap option_fmap option_map].
  - destruct Hs as [-> Hs]. eexists _, _. split; [done|].
    assert (Hn : (root t =? NULL) = false).
    { apply (holds_nonnull _ _ _ (Node (mk NULL NULL t)) Hs). rewrite alone_eq. set_solver. }
    rewrite Hn. exists (delete k l), (t :: ts), names. cbn [map forallb]. rewrite map_delete.
    split; [done|]. split; [done|]. split; [by apply tame_delete|].
    split; [by rewrite (forallb_lookup _ _ _ _ Hl E)|].
    revert Hs. apply holds_perm. cbn [concat]. solve_Permutation.
  - destruct Hs as [-> Hs]. eexists _, _. split; [done|]. change (NULL =? NULL) with true.
    by exists l, ts, names.
Qed.

(** An item of the array is deleted. *)
Lemma drop_spec arr n L l ts names k (m : prog (store object) unit) :
  forallb tame l = true -> forallb tame ts = true ->
  (forall L, triple (holds (array_cells arr n l ++ L)) m
    (fun _ => holds (array_cells arr n (delete k l) ++ L))) ->
  triple (holds (array_cells arr n l ++ concat (map alone ts) ++ name_cells names ++ L))
    (m ;;; pret (map root ts))
    (represents arr n L (take_out (World (map erase l) (map erase ts) names.*2) k false)).
Proof.
  intros Hl Hts Hm. unfold take_out. cbn [inside outside forgotten]. rewrite map_lookup.
  eapply triple_bind; [apply Hm|]. intros [] s Hs. eexists _, _. split; [done|].
  exists (delete k l), ts, names. rewrite map_delete.
  split; [|split; [done|split; [by apply tame_delete|done]]].
  destruct (l !! k) as [t|] eqn:E; cbn [fmap option_fmap option_map]; [done|]. f_equal.
  rewrite delete_take_drop. apply lookup_ge_None in E.
  rewrite take_ge, drop_ge, app_nil_r by (rewrite length_map; lia). done.
Qed.

(** A search in the array that finds the item with number [k]. *)
Lemma give_if_spec arr n L l ts names k (m : prog (store object) addr) j f w :
  forallb tame l = true -> forallb tame ts = true ->
  (forall L, triple (holds (array_cells arr n l ++ L)) m (fun r s =>
    r = head_addr NULL (drop k l) /\ holds (array_cells arr n l ++ L) s)) ->
  (is_Some (l !! k) ->
   triple (holds (array_cells arr n l ++ concat (map alone ts) ++ name_cells names ++ L))
     (give (map root ts) j f) (represents arr n L w)) ->
  triple (holds (array_cells arr n l ++ concat (map alone ts) ++ name_cells names ++ L))
    (give_if m (map root ts) j f)
    (represents arr n L (match map erase l !! k with
      | None => World (map erase l) (map erase ts) names.*2
      | Some _ => w
      end)).
Proof.
  intros Hl Hts Hm Hg. unfold give_if. rewrite map_lookup. eapply triple_bind; [apply Hm|].
  intros r s [-> Hs]. revert s Hs. destruct (l !! k) as [t|] eqn:E; cbn [fmap option_fmap option_map].
  - rewrite (drop_S _ _ _ E). cbn [head_addr]. apply (array_nonnull _ _ _ _ _ _ _ _ E). intros ->.
    apply Hg. by eexists.
  - rewrite drop_ge by (by apply lookup_ge_None). apply holds_ret. intros s Hs. by exists l, ts, names.
Qed.

Lemma get_item_spec arr n l which L :
  triple (holds (array_cells arr n l ++ L)) (GetArrayItem arr which) (fun r s =>
    r = head_addr NULL (drop (Z.to_nat which) l) /\ holds (array_cells arr n l ++ L) s).
Proof.
  unfold GetArrayItem. apply then_get with (n := set_child (head_addr NULL l) n); [by left|].
  apply array_walk.
Qed.

Lemma get_named_spec arr n l string L : forallb tame l = true ->
  triple (holds (array_cells arr n l ++ L)) (GetObjectItem arr string) (fun r s =>
    r = head_addr NULL (drop (index_of string (map erase l)) l) /\ holds (array_cells arr n l ++ L) s).
Proof.
  intros Hl. unfold GetObjectItem. apply then_get with (n := set_child (head_addr NULL l) n); [by left|].
  eapply triple_bind; [by apply array_find|]. intros r s [-> Hs]. eexists _, _. split; [done|]. by split.
Qed.

Lemma size_spec arr n l L :
  triple (holds (array_cells arr n l ++ L)) (GetArraySize arr) (fun r s =>
    r = Z.of_nat (length l) /\ holds (array_cells arr n l ++ L) s).
Proof.
  unfold GetArraySize. apply then_get with (n := set_child (head_addr NULL l) n); [by left|].
  apply fuelled_spec. cbn [set_child child_]. unfold array_cells.
  set (A := (arr, _)). apply triple_perm with (L' := chain NULL NULL l ++ A :: L); [solve_Permutation|].
  enough (Hc : forall fuel l pv L i, (length l < fuel)%nat ->
    triple (holds (chain pv NULL l ++ L)) (count_from fuel (head_addr NULL l) i) (fun r s =>
      r = i + Z.of_nat (length l) /\ holds (chain pv NULL l ++ L) s)).
  { eapply triple_post; [apply Hc|].
    - cbn [app length]. rewrite length_app. pose proof (chain_length NULL NULL l). lia.
    - intros r s [-> Hs]. split; [lia|]. revert Hs. apply holds_perm. solve_Permutation. }
  clear. intros fuel. induction fuel as [|fuel IH]; intros l pv L i Hf; [lia|].
  destruct l as [|t l]; cbn [count_from head_addr length] in *.
  { apply holds_ret. intros s Hs. split; [lia|done]. }
  cbn [chain]. set (n := mk _ _ t). apply (triple_nonnull (root t) (Node n)); [by left|]. intros ->.
  apply then_get with (n := n); [by left|]. rewrite (next_mk _ _ _ : next n = _).
  apply triple_perm with (L' := chain (root t) NULL l ++ (root t, Node n) :: body t ++ L); [solve_Permutation|].
  eapply triple_post; [apply IH; lia|]. intros r s [-> Hs]. split; [lia|].
  revert Hs. apply holds_perm. solve_Permutation.
Qed.

Lemma tame_app l1 l2 : forallb tame (l1 ++ l2) = forallb tame l1 && forallb tame l2.
Proof. apply forallb_app. Qed.

Lemma tame_parts l k : forallb tame l = true ->
  forallb tame (take k l) = true /\ forallb tame (drop k l) = true.
Proof. intros Hl. rewrite <- (take_drop k l), tame_app in Hl. by apply andb_true_iff in Hl. Qed.

Lemma tame_insert l k t : forallb tame l = true -> tame t = true -> forallb tame (<[k := t]> l) = true.
Proof.
  intros Hl Ht. destruct (decide (k < length l)%nat) as [Hk|Hk]; [|by rewrite list_insert_ge by lia].
  rewrite insert_take_drop by done. destruct (tame_parts l k Hl) as [H1 _], (tame_parts l (S k) Hl) as [_ H2].
  rewrite tame_app. cbn [forallb]. by rewrite H1, Ht, H2.
Qed.

Lemma map_insert {A B} (f : A -> B) k a l : map f (<[k := a]> l) = <[k := f a]> (map f l).
Proof. apply list_fmap_insert. Qed.

(** One change. *)
Lemma run_edit_spec e arr n L w handles :
  triple (represents arr n L w handles) (run_edit arr e handles) (represents arr n L (spec_edit e w)).
Proof.
  intros s (l & ts & names & -> & -> & Hl & Hts & Hs). revert s Hs.
  destruct e as [k|string k|which k|which k|string k|which|string|which|string];
    cbn [run_edit spec_edit inside].
  - apply give_spec; [done..|]. intros t L' Ht. eapply triple_post; [apply AddItemToArray_spec|].
    intros ? s Hs. exists (l ++ [t]), []. rewrite tame_app, map_app, Hl. cbn [forallb].
    by rewrite Ht.
  - apply give_spec; [done..|]. intros t L' Ht. eapply triple_post; [by apply add_named_spec|].
    intros ? s (b & Hs). exists (l ++ [rename (Owned b string) t]), []. rewrite tame_app, map_app, Hl.
    cbn [forallb map]. by rewrite (tame_rename _ _ _ Ht), erase_rename.
  - apply give_spec; [done..|]. intros t L' Ht. eapply triple_post; [apply insert_spec|].
    intros ? s Hs. eexists _, []. split; [|split; [|split; [done|exact Hs]]].
    + destruct (tame_parts l (Z.to_nat which) Hl) as [H1 H2]. rewrite tame_app. cbn [forallb]. by rewrite H1, Ht, H2.
    + by rewrite map_app, firstn_map, skipn_map.
  - apply give_if_spec; [done..|intros L'; apply get_item_spec|]. intros [u E].
    apply give_spec; [done..|]. intros t L' Ht.
    eapply triple_post; [by apply replace_spec, forallb_tame_wf|]. rewrite E.
    intros ? s Hs. exists (<[Z.to_nat which := t]> l), []. split; [by apply tame_insert|].
    split; [apply map_insert|]. by split.
  - apply give_if_spec; [done..|intros L'; by apply get_named_spec|]. intros [u E].
    apply give_spec; [done..|]. intros t L' Ht.
    eapply triple_post; [by apply replace_named_spec|]. cbv zeta. rewrite E. destruct t as [a i kids].
    intros ? s (b & Hs).
    exists (<[index_of string (map erase l) := rename (Owned b string) (T a i kids)]> l),
      (match iname i with Owned a s => [(a, s)] | _ => [] end).
    split; [by apply tame_insert; [|by apply tame_rename]|].
    split; [by rewrite map_insert, erase_rename|].
    destruct (tame_name a i kids Ht) as [En|(a' & s' & En)]; cbn [erase string_]; by rewrite En in *.
  - by apply keep_spec; [..|intros L'; apply detach_spec].
  - by apply keep_spec; [..|intros L'; apply detach_named_spec].
  - apply drop_spec; [done..|]. intros L'. by apply delete_item_spec, forallb_tame_wf.
  - apply drop_spec; [done..|]. intros L'. by apply delete_named_spec.
Qed.

(** C8: Any sequence of additions, insertions, replacements, removals and
    deletions in an array or object, by number or by name, acts on the items as
    on plain lists. No pointer that is followed is NULL or dangling, nothing is
    freed twice, every deleted tree's memory is freed, and all that is lost is
    the former name of an item given to [cJSON_ReplaceItemInObject]. This holds
    while no allocation fails ([Unlimited]) and for items without constant names
    ([tame]): adding one of those by name frees the constant. *)
Theorem cjson_edits_refine es arr n L w handles s :
  represents arr n L w handles s ->
  exists handles' s', run_edits arr es handles s = Some (handles', s') /\
    represents arr n L (spec_edits es w) handles' s'.
Proof.
  revert w handles s. induction es as [|e es IH]; intros w handles s Hs.
  { by exists handles, s. }
  destruct (run_edit_spec e arr n L w handles s Hs) as (h1 & s1 & E & H1).
  destruct (IH _ _ _ H1) as (h2 & s2 & E2 & H2). exists h2, s2.
  cbn [run_edits]. by rewrite (pbind_run _ _ _ _ _ E).
Qed.

End Tree.

(** ** A concrete run *)

(** [holds] for a store given by its cells. *)
Lemma holds_cells L k :
  bool_decide (NoDup L.*1 /\ NULL ∉ L.*1) = true -> holds L (Store (list_to_map L) k).
Proof. intros [Hd Hn]%bool_decide_eq_true. by split. Qed.

Definition number_tree (a : addr) (z : Z) (name : ptr) : atree :=
  T a (Info cJSON_Number Null z (dbl z) name NULL) [].

Definition object_node : node := set_type cJSON_Object zero_node.

(** The object {a: 5} at 1, and the number 6 at 3. *)
Definition start_cells : cells :=
  array_cells 1 object_node [number_tree 2 5 (Owned 10 (lit "a"))] ++
  concat (map alone [number_tree 3 6 Null]) ++ name_cells [] ++ [].

Definition some_edits : list edit :=
  [DetachNamed (lit "A"); AddNamed (lit "b") 1; Add 0; Insert 1 5; DetachNamed (lit "b");
   ReplaceNamed (lit "a") 0; Delete 7].

Lemma cjson_edits_refine_witness :
  exists handles' s',
    @run_edits bump_allocator 1 some_edits [3] (Store (list_to_map start_cells) 0) = Some (handles', s') /\
    represents 1 object_node [] (World [erase (number_tree 0 6 (Owned 0 (lit "a")))] [] [lit "b"]) handles' s'.
Proof.
  apply (@cjson_edits_refine bump_allocator bump_unlimited some_edits 1 object_node []
    (World [erase (number_tree 2 5 (Owned 10 (lit "a")))] [erase (number_tree 3 6 Null)] [])).
  exists [number_tree 2 5 (Owned 10 (lit "a"))], [number_tree 3 6 Null], [].
  split; [done|]. split; [done|]. split; [done|]. split; [done|].
  apply holds_cells. vm_compute. reflexivity.
Defined.
