(* ===== verification/JsonCopy.v ===== *)
(** * JsonCopy: duplicates and references of cJSON.c

    A duplicate is made of new cells, or nothing is left of it; a reference does
    not own what it refers to; constant names and NULL items are where the
    functions go wrong. *)
From S2P Require Import Prelude.
From S2P Require Import Memory.
From S2P Require Import CString.
From S2P Require Import Double.
From S2P Require Import Json.
From S2P Require Import JsonPrint.
From S2P Require Import JsonHeap.
From S2P Require Import JsonHeapFacts.
From S2P Require Import JsonEdit.
From S2P Require Import JsonTree.
From Stdlib Require Import SpecFloat Ascii.

Open Scope C.

(** No references and no constant names in the tree. *)
Fixpoint plain (t : atree) : bool :=
  match t with
  | T _ i kids =>
      (Z.land (itype i) cJSON_IsReference =? 0) && (Z.land (itype i) cJSON_StringIsConst =? 0) &&
      may_free false (istring i) && may_free false (iname i) && (iborrowed i =? NULL) &&
      forallb plain kids
  end.

Lemma plain_fields a i kids : plain (T a i kids) = true ->
  Z.land (itype i) cJSON_IsReference = 0 /\ Z.land (itype i) cJSON_StringIsConst = 0 /\
  may_free false (istring i) = true /\ may_free false (iname i) = true /\ iborrowed i = NULL /\
  forallb plain kids = true.
Proof. cbn [plain]. rewrite !andb_true_iff, !Z.eqb_eq. tauto. Qed.

Lemma plain_wf t : plain t = true -> wf t = true.
Proof.
  induction t as [a i kids IH] using atree_nested_ind. intros Hp.
  destruct (plain_fields a i kids Hp) as (Hr & Hc & Hs & Hn & Hb & Hk). cbn [wf].
  rewrite Hr, Hc, Hb. change (NULL =? NULL) with true. cbn [negb Z.eqb].
  change (0 =? 0) with true. cbn [negb].
  assert (Hw : forallb wf kids = true).
  { rewrite forallb_forall in Hk |- *. rewrite List.Forall_forall in IH. auto. }
  rewrite Hw. by destruct (istring i), (iname i).
Qed.

Lemma ldiff_none a b : Z.land a b = 0 -> Z.ldiff a b = a.
Proof.
  intros Hab. apply Z.bits_inj'. intros i Hi. rewrite Z.ldiff_spec.
  assert (Hb : Z.testbit (Z.land a b) i = false) by (rewrite Hab; apply Z.bits_0).
  rewrite Z.land_spec in Hb. by destruct (Z.testbit a i), (Z.testbit b i).
Qed.

Section Copy.
Context `{Allocator}.

(** The copy of a string, or no memory. *)
Lemma copy_text_spec p L : may_free false p = true -> ptr_cells p ⊆ L ->
  triple (holds L) (copy_text (ptr_addr p)) (fun r s =>
    (exists q, r = Some (ptr_addr q) /\ ptr_text q = ptr_text p /\ may_free false q = true /\
               holds (ptr_cells q ++ L) s) \/
    (r = None /\ exhausted /\ holds L s)).
Proof.
  intros Hp Hin. unfold copy_text. destruct p as [|a t|a]; cbn [ptr_addr may_free ptr_cells] in *; [| |done].
  - apply holds_ret. intros s Hs. left. by exists Null.
  - assert (Ha : (a, Text true t) ∈ L) by (apply Hin; by left).
    apply (triple_nonnull a (Text true t)); [done|]. intros ->.
    apply then_text with (b := true) (t := t); [done|].
    apply then_alloc.
    + intros c Hc. apply holds_ret. intros s Hs. left. exists (Owned c t).
      cbn [ptr_addr ptr_text ptr_cells may_free app]. apply Z.eqb_neq in Hc as ->. by split.
    + intros He. apply holds_ret. intros s Hs. right. by split.
Qed.

(** The duplicate of a tree while it grows. *)
Definition copied (L : cells) (a : addr) (i : info) (kids : list atree) (r : addr) (s : store object) : Prop :=
  (exists l, r = a /\ map erase l = map erase kids /\ forallb plain l = true /\
             holds (alone (T a i l) ++ L) s) \/
  (r = NULL /\ exhausted /\ holds L s).

Lemma alone_tree a i kids : iborrowed i = NULL ->
  alone (T a i kids) ≡ₚ
  array_cells a (mk NULL NULL (T a i [])) kids ++ ptr_cells (istring i) ++ ptr_cells (iname i).
Proof.
  intros Hb. rewrite alone_eq, body_eq. unfold array_cells. cbn [root mk head_addr]. rewrite Hb.
  unfold set_child. cbn [next prev type valuestring_ valueint_ valuedouble_ name]. solve_Permutation.
Qed.

(** A new child behind the last one. *)
Lemma link_child {B} a i kids t L (k : unit -> prog (store object) B) Q : iborrowed i = NULL ->
  triple (holds (alone (T a i (kids ++ [t])) ++ L)) (k tt) Q ->
  triple (holds (alone (T a i kids) ++ alone t ++ L))
    (do u <- (if negb (last_addr NULL kids =? NULL) then suffix_object (last_addr NULL kids) (root t)
              else modify a (set_child (root t))); k u) Q.
Proof.
  intros Hb Hk. set (n := mk NULL NULL (T a i [])). set (P := ptr_cells (istring i) ++ ptr_cells (iname i)).
  apply triple_bind with (R := fun _ => holds (array_cells a n (kids ++ [t]) ++ P ++ L)); cycle 1.
  { intros []. eapply triple_perm; [|exact Hk]. rewrite (alone_tree a i (kids ++ [t]) Hb).
    unfold P, n. solve_Permutation. }
  apply triple_perm with (L' := array_cells a n kids ++ alone t ++ P ++ L).
  { rewrite (alone_tree a i kids Hb). unfold P, n. solve_Permutation. }
  rewrite alone_eq. unfold array_cells. destruct kids as [|u kids _] using rev_ind.
  - change (last_addr NULL []) with NULL. change (NULL =? NULL) with true. cbn [negb chain head_addr app].
    eapply triple_post; [apply modify_spec|]. intros ? s Hs. revert Hs. apply holds_perm.
    rewrite set_child_twice, app_nil_r. solve_Permutation.
  - rewrite last_addr_snoc. apply triple_nonnull with (a := root u) (o := Node (mk NULL (last_addr NULL kids) u)).
    { rewrite siblings_snoc. set_solver. }
    intros ->. cbn [negb]. unfold suffix_object.
    set (A := (a, Node (set_child (head_addr NULL (kids ++ [u])) n))).
    apply triple_perm with (L' := chain NULL NULL (kids ++ [u]) ++ A :: (root t, Node (mk NULL NULL t)) ::
      body t ++ P ++ L); [unfold A; solve_Permutation|].
    eapply triple_bind.
    { replace (root u) with (last_addr NULL (kids ++ [u])) by apply last_addr_snoc.
      apply relink_last. by destruct kids. }
    intros []. apply triple_perm with (L' := (root t, Node (mk NULL NULL t)) ::
      chain NULL (root t) (kids ++ [u]) ++ A :: body t ++ P ++ L); [solve_Permutation|].
    eapply triple_post; [apply modify_spec|]. intros ? s Hs. revert Hs. apply holds_perm.
    rewrite set_prev_mk, (siblings_snoc _ _ (kids ++ [u]) t), last_addr_snoc. unfold A.
    replace (head_addr NULL ((kids ++ [u]) ++ [t])) with (head_addr NULL (kids ++ [u])) by by destruct kids.
    solve_Permutation.
Qed.

(** ** [cJSON_Duplicate] *)

(** What a duplicate is to be: all of the tree, or its root only. *)
Definition as_copied (recurse : bool) (c : cJSON) : cJSON :=
  if recurse then c else with_child [] c.

Definition duplicated (L : cells) (recurse : bool) (t : atree) (r : addr) (s : store object) : Prop :=
  (exists t', r = root t' /\ plain t' = true /\ erase t' = as_copied recurse (erase t) /\
              holds (alone t' ++ L) s) \/
  (r = NULL /\ exhausted /\ holds L s).

(** The half-made duplicate is deleted. *)
Lemma all_freed t L (Q : addr -> store object -> Prop) : plain t = true ->
  (forall s, holds L s -> Q NULL s) ->
  triple (holds (alone t ++ L)) (cJSON_Delete (root t) ;;; pret NULL) Q.
Proof.
  intros Ht HQ. eapply triple_bind.
  { apply (delete_spec [t]). cbn. by rewrite plain_wf. }
  intros []. by apply holds_ret.
Qed.

Definition dup_ok (fuel : nat) : Prop := forall t nx pv L recurse, plain t = true ->
  (count_items t <= fuel)%nat -> (root t, Node (mk nx pv t)) ∈ L -> body t ⊆ L ->
  triple (holds L) (duplicate fuel (root t) recurse) (duplicated L recurse t).

Lemma plain_snoc a i kids t : plain (T a i kids) = true -> plain t = true ->
  plain (T a i (kids ++ [t])) = true.
Proof.
  cbn [plain]. intros [-> Hk]%andb_true_iff Ht. rewrite forallb_app. cbn [forallb]. by rewrite Hk, Ht.
Qed.

Lemma dup_children_ok depth : dup_ok depth -> forall fuel l pv L a i kids,
  plain (T a i kids) = true -> forallb plain l = true ->
  (counts l <= depth)%nat -> (length l < fuel)%nat -> chain pv NULL l ⊆ L ->
  triple (holds (alone (T a i kids) ++ L))
    (duplicate_children (fun c => duplicate depth c true) fuel a (last_addr NULL kids) (head_addr NULL l))
    (copied L a i (kids ++ l)).
Proof.
  intros Hd fuel. induction fuel as [|fuel Hc]; intros l pv L a i kids Ht Hl Hf Hlen HL; [lia|].
  cbn [duplicate_children].
  destruct l as [|t l]; cbn [head_addr chain counts foldr length] in *.
  { apply holds_ret. intros s Hs. left. exists kids. rewrite app_nil_r.
    destruct (plain_fields a i kids Ht) as (_ & _ & _ & _ & _ & Hk). by split. }
  fold (counts l) in Hf.
  apply andb_true_iff in Hl as [Hpt Hl]. set (n := mk _ _ t) in HL.
  assert (Hin : (root t, Node n) ∈ alone (T a i kids) ++ L) by set_solver.
  apply (triple_nonnull _ _ _ _ _ Hin). intros ->.
  eapply triple_bind; [apply (Hd t (head_addr NULL l) pv); [done|lia|exact Hin|set_solver]|].
  intros r s [(t' & -> & Hp' & He & Hs)|(-> & Hex & Hs)]; revert s Hs; cycle 1.
  { change (NULL =? NULL) with true. cbn iota. apply (all_freed (T a i kids)); [done|].
    intros s Hs. right. by split. }
  apply triple_nonnull with (a := root t') (o := Node (mk NULL NULL t')); [rewrite (alone_eq t'); set_solver|].
  intros ->. eapply triple_perm with (L' := alone (T a i kids) ++ alone t' ++ L); [solve_Permutation|].
  destruct (plain_fields a i kids Ht) as (_ & _ & _ & _ & Hb & Hk).
  apply link_child; [done|]. apply then_get with (n := n); [set_solver|].
  rewrite (next_mk _ _ _ : next n = _).
  replace (root t') with (last_addr NULL (kids ++ [t'])) by apply last_addr_snoc.
  eapply triple_post; [apply (Hc l (root t)); [by apply plain_snoc|done|lia|lia|set_solver]|].
  intros r s [(l' & -> & El & Hpl & Hs)|Hs]; [left|by right]. exists l'. split; [done|].
  split; [|by split]. rewrite El, !map_app. cbn [map]. cbn [as_copied] in He. rewrite He.
  by rewrite <- app_assoc.
Qed.

(** A string of the duplicate is copied, or the duplicate is given up. *)
Lemma then_copy_text t p L (k : addr -> prog (store object) addr) Q :
  plain t = true -> may_free false p = true -> ptr_cells p ⊆ L ->
  (forall q, ptr_text q = ptr_text p -> may_free false q = true ->
   triple (holds (alone t ++ ptr_cells q ++ L)) (k (ptr_addr q)) Q) ->
  (forall s, exhausted -> holds L s -> Q NULL s) ->
  triple (holds (alone t ++ L))
    (do v <- copy_text (ptr_addr p);
     match v with None => cJSON_Delete (root t) ;;; pret NULL | Some v => k v end) Q.
Proof.
  intros Ht Hp Hin Hk Hnull. eapply triple_bind; [apply copy_text_spec; [done|set_solver]|].
  intros v s [(q & -> & Eq & Hq & Hs)|(-> & Hex & Hs)]; revert s Hs.
  - eapply triple_perm; [|by apply (Hk q)]. solve_Permutation.
  - apply all_freed; auto.
Qed.

(** The duplicate's root, with its strings. *)
Definition copy_of (i : info) (p q : ptr) : info := Info (itype i) p (inum i) (idbl i) q NULL.

Lemma copy_plain a i kids c p q : plain (T a i kids) = true ->
  may_free false p = true -> may_free false q = true -> plain (T c (copy_of i p q) []) = true.
Proof.
  intros (Hr & Hk & _)%plain_fields Hp Hq. cbn [plain itype istring iname iborrowed copy_of forallb].
  by rewrite Hr, Hk, Hp, Hq.
Qed.

Lemma alone_copy c i p q :
  alone (T c (copy_of i p q) []) =
  (c, Node (mk NULL NULL (T c (copy_of i p q) []))) :: ptr_cells p ++ ptr_cells q.
Proof. rewrite alone_eq, body_eq. cbn [root copy_of istring iname chain]. by rewrite app_nil_r. Qed.

Lemma dup_step fuel : dup_ok fuel -> dup_ok (S fuel).
Proof.
  intros Hd t nx pv L recurse Ht Hf Hin Hb. destruct t as [a i kids]. cbn [duplicate root] in *.
  apply (triple_nonnull _ _ _ _ _ Hin). intros ->.
  destruct (plain_fields a i kids Ht) as (Hr & Hk0 & Hs & Hn & Hbor & Hk).
  rewrite body_eq in Hb. set (n := mk nx pv _) in Hin.
  assert (Hnull : forall s, exhausted -> holds L s -> duplicated L recurse (T a i kids) NULL s).
  { intros s Hex Hst. right. by split. }
  apply then_alloc; [intros c Ecn%Z.eqb_neq|intros Hex; apply holds_ret; auto]. rewrite Ecn.
  apply then_get with (n := n); [set_solver|]. eapply then_modify; [reflexivity|].
  unfold n at 1 2 3. cbn [mk type valueint_ valuedouble_]. rewrite (ldiff_none _ _ Hr).
  apply triple_perm with (L' := alone (T c (copy_of i Null Null) []) ++ L); [by rewrite alone_copy|].
  apply (then_copy_text (T c _ []) (istring i)); [by apply (copy_plain a i kids)|done|set_solver| |done].
  intros p Ep Hp. rewrite alone_copy.
  eapply then_modify with (L' := ptr_cells p ++ L); [cbn [ptr_cells app]; solve_Permutation|].
  apply triple_perm with (L' := alone (T c (copy_of i p Null) []) ++ L).
  { rewrite alone_copy. cbn [ptr_cells]. by rewrite app_nil_r. }
  apply (then_copy_text (T c _ []) (iname i)); [by apply (copy_plain a i kids)|done|set_solver| |done].
  intros q Eq Hq. rewrite alone_copy.
  eapply then_modify with (L' := ptr_cells p ++ ptr_cells q ++ L); [cbn [ptr_cells app]; solve_Permutation|].
  apply triple_perm with (L' := alone (T c (copy_of i p q) []) ++ L).
  { rewrite alone_copy. by rewrite <- app_comm_cons, <- app_assoc. }
  destruct recurse; cbn [negb].
  - unfold n. cbn [mk child_]. rewrite Hbor.
    cbn [count_items] in Hf. fold (counts kids) in Hf. pose proof (length_counts kids).
    eapply triple_post; [apply (dup_children_ok fuel Hd (S fuel) kids NULL L c (copy_of i p q) []);
      [by apply (copy_plain a i kids)|done|lia|lia|]|].
    + set_solver.
    + intros r s [(l & -> & El & Hpl & Hst)|Hst]; [left|by right]. exists (T c (copy_of i p q) l).
      split; [done|]. split.
      * pose proof (copy_plain a i kids c p q Ht Hp Hq) as Hcp. cbn [plain forallb] in Hcp |- *.
        rewrite andb_true_r in Hcp. by rewrite Hcp, Hpl.
      * split; [|done]. cbn [erase as_copied copy_of itype istring inum idbl iname]. by rewrite El, Ep, Eq.
  - apply holds_ret. intros s Hst. left. exists (T c (copy_of i p q) []). split; [done|].
    split; [by apply (copy_plain a i kids)|]. split; [|done].
    cbn [erase as_copied copy_of itype istring inum idbl iname map]. by rewrite Ep, Eq.
Qed.

Lemma dup_all fuel : dup_ok fuel.
Proof.
  induction fuel as [|fuel IH]; [|by apply dup_step].
  intros t nx pv L recurse _ Hf. assert (1 <= count_items t)%nat by (destruct t; cbn; lia). lia.
Qed.

(** C17: A duplicate of a tree without references and constant names is made
    of new cells only, a tree that stands for the same item (or for its root
    alone, if [recurse] is 0); or it is NULL, and then an allocation has failed
    and the store is as it was: the half-made duplicate has been freed. *)
Theorem cjson_duplicate t L recurse s :
  plain t = true -> holds (alone t ++ L) s ->
  exists r s', cJSON_Duplicate (root t) recurse s = Some (r, s') /\
    duplicated (alone t ++ L) recurse t r s'.
Proof.
  intros Ht Hs. unfold cJSON_Duplicate, fuelled. rewrite (holds_size _ _ Hs).
  apply (dup_all (S (length (alone t ++ L))) t NULL NULL (alone t ++ L) recurse Ht); [|rewrite alone_eq; set_solver..|done].
  rewrite length_app, alone_eq. cbn [length]. pose proof (body_counts t). lia.
Qed.

(** ** References *)

(** What a reference to a node points to. *)
Definition reference_to (r : addr) (n : node) : atree :=
  let borrow a := if a =? NULL then Null else Borrowed a in
  T r (Info (Z.lor (type n) cJSON_IsReference) (borrow (valuestring_ n)) (valueint_ n)
         (valuedouble_ n) Null (child_ n)) [].

Lemma land_lor_ref t : Z.land (Z.lor t cJSON_IsReference) cJSON_IsReference <> 0.
Proof.
  intros E. assert (Hb : Z.testbit (Z.land (Z.lor t cJSON_IsReference) cJSON_IsReference) 8 = false)
    by (rewrite E; apply Z.bits_0).
  rewrite Z.land_spec, Z.lor_spec in Hb. change (Z.testbit cJSON_IsReference 8) with true in Hb.
  by rewrite orb_true_r in Hb.
Qed.

Lemma reference_wf r n : wf (reference_to r n) = true.
Proof.
  cbn [reference_to wf itype istring iname iborrowed forallb]. pose proof (land_lor_ref (type n)) as Hr.
  apply Z.eqb_neq in Hr. rewrite Hr. cbn [negb].
  destruct (valuestring_ n =? NULL), (negb (Z.land _ cJSON_StringIsConst =? 0)); done.
Qed.

Lemma reference_alone r n :
  alone (reference_to r n) =
  [(r, Node (set_prev NULL (set_next NULL (set_type (Z.lor (type n) cJSON_IsReference) (set_name NULL n)))))].
Proof.
  rewrite alone_eq. cbn [reference_to root body istring iname mk itype inum idbl iborrowed head_addr].
  replace (ptr_addr _) with (valuestring_ n); [by destruct (valuestring_ n =? NULL)|].
  by destruct (Z.eqb_spec (valuestring_ n) NULL) as [->|].
Qed.

Lemma create_reference_spec a n L : (a, Node n) ∈ L ->
  triple (holds L) (create_reference a) (fun r s =>
    holds (alone (reference_to r n) ++ L) s \/ (r = NULL /\ exhausted /\ holds L s)).
Proof.
  intros Ha. unfold create_reference. apply then_alloc.
  - intros r Er%Z.eqb_neq. rewrite Er. apply then_get with (n := n); [set_solver|].
    eapply then_modify; [reflexivity|]. apply holds_ret. intros s Hs. left. by rewrite reference_alone.
  - intros Hex. apply holds_ret. intros s Hs. right. by split.
Qed.

(** A reference to an item can be put into an array and the array deleted:
    the item referred to, and everything else that is not the array's, is left as
    it was. *)
Theorem references_do_not_own arr i l a n L s :
  wf (T arr i l) = true -> Z.land (itype i) cJSON_IsReference = 0 -> (a, Node n) ∈ L ->
  holds (alone (T arr i l) ++ L) s ->
  exists s', (AddItemReferenceToArray arr a ;;; cJSON_Delete arr) s = Some (tt, s') /\ holds L s'.
Proof.
  intros Hwf Hi Ha. destruct (wf_fields arr i l Hwf) as (_ & _ & Hb & Hl). rewrite Hi in Hb. cbn in Hb.
  set (na := mk NULL NULL (T arr i [])).
  set (P := ptr_cells (istring i) ++ ptr_cells (iname i)).
  enough (Ht : triple (holds (alone (T arr i l) ++ L)) (AddItemReferenceToArray arr a ;;; cJSON_Delete arr)
    (fun _ => holds L)) by (intros Hs; destruct (Ht s Hs) as ([] & s' & E & Hs'); eauto).
  assert (Hcells : forall l', alone (T arr i l') ++ L ≡ₚ array_cells arr na l' ++ P ++ L).
  { intros l'. rewrite (alone_tree arr i l' Hb). unfold na, P. solve_Permutation. }
  assert (Hdel : forall l', forallb wf l' = true ->
    triple (holds (array_cells arr na l' ++ P ++ L)) (cJSON_Delete arr) (fun _ => holds L)).
  { intros l' Hl'. eapply triple_perm; [symmetry; apply Hcells|].
    apply (delete_spec [T arr i l']). cbn [forallb]. rewrite andb_true_r.
    cbn [wf] in Hwf |- *. rewrite Hl', andb_true_r. apply andb_true_iff in Hwf as [Hwf _].
    rewrite Hi in *. exact Hwf. }
  apply (triple_perm _ _ _ _ (Hcells l)).
  apply triple_bind with (R := fun _ s => exists l', forallb wf l' = true /\ holds (array_cells arr na l' ++ P ++ L) s);
    [|intros [] s1 (l' & Hl' & Hs1); by apply (Hdel l')].
  unfold AddItemReferenceToArray. eapply triple_bind; [apply (create_reference_spec a n); set_solver|].
  intros r s1 [Hs1|(-> & Hex & Hs1)]; revert s1 Hs1.
  - apply triple_perm with (L' := array_cells arr na l ++ alone (reference_to r n) ++ P ++ L); [solve_Permutation|].
    eapply triple_post; [apply (AddItemToArray_spec arr na l (reference_to r n))|].
    intros ? s1 Hs1. eexists. split; [|exact Hs1]. rewrite forallb_app, Hl. cbn [forallb].
    by rewrite reference_wf.
  - unfold AddItemToArray. apply then_get with (n := set_child (head_addr NULL l) na); [by left|].
    change (NULL =? NULL) with true. apply holds_ret. intros s1 Hs1. by exists l.
Qed.

(** ** Where it goes wrong *)

(** Memory runs out at the request with number [K]. *)
Definition runs_out (K : nat) : Prop := forall k live, malloc k live = NULL <-> (K <= k)%nat.

(** The constructors: a new item, filled in by [f]. *)
Definition made (f : node -> node) : prog (store object) addr :=
  do item <- new_item; if item =? NULL then pret NULL else modify item f ;;; pret item.

Lemma item_made K f L s : runs_out K -> holds L s -> (requests s < K)%nat ->
  exists n o s', made f s = Some (n, s') /\ (n =? NULL) = false /\
    holds ((n, Node o) :: L) s' /\ requests s' = S (requests s).
Proof.
  intros HK Hs Hlt. unfold made, new_item.
  destruct (run_alloc (Node zero_node) s) as (n & Hn & Hf & Hr).
  { intros E%HK. lia. }
  rewrite Hr. clear Hr. apply Z.eqb_neq in Hn. rewrite Hn. set (s1 := Store _ _).
  assert (H1 : holds ((n, Node zero_node) :: L) s1).
  { destruct Hs as (Ho & Hd & Hnull). unfold s1. split; [by cbn [objs]; rewrite Ho|]. rewrite fmap_cons. cbn [fst].
    split; [|rewrite not_elem_of_cons; apply Z.eqb_neq in Hn; by split].
    apply NoDup_cons. split; [|done]. rewrite Ho in Hf. by apply not_elem_of_list_to_map. }
  unfold modify, get, pbind, load, save. rewrite (holds_lookup _ _ n (Node zero_node) H1) by by left.
  cbn [pret]. rewrite (holds_lookup _ _ n (Node zero_node) H1) by by left.
  eexists _, _, _. split; [done|]. split; [done|]. split; [by apply (holds_save n (Node zero_node))|done].
Qed.

Lemma item_none K f s : runs_out K -> (K <= requests s)%nat ->
  made f s = Some (NULL, Store (objs s) (S (requests s))).
Proof.
  intros HK Hle. unfold made, new_item. rewrite run_alloc_null; [done|]. by apply HK.
Qed.

Lemma modify_missing c f s : objs s !! c = None -> modify c f s = None.
Proof. intros E. unfold modify, get, pbind, load. by rewrite E. Qed.

Lemma modify_requests c f s s' : modify c f s = Some (tt, s') -> requests s' = requests s.
Proof.
  unfold modify, get, pbind, load, save. destruct (objs s !! c) as [[m|]|] eqn:Ec; try done.
  cbn [pret]. rewrite Ec. by intros [= <-].
Qed.

Lemma holds_null L s : holds L s -> objs s !! NULL = None.
Proof. intros (Ho & _ & Hn). rewrite Ho. by apply not_elem_of_list_to_map. Qed.

(** Behind the first item: the chain is continued with NULL. *)
Lemma create_items_fails K a zs : forall i p np L s, runs_out K ->
  holds ((p, Node np) :: L) s -> (requests s <= K < requests s + length zs)%nat ->
  create_items (S i) a p ((fun z => create_number (dbl z)) <$> zs) s = None.
Proof.
  induction zs as [|z zs IH]; intros i p np L s HK Hs Hk; cbn [length] in Hk; [lia|].
  rewrite fmap_cons. cbn [create_items].
  destruct (Nat.eq_dec (requests s) K) as [E|E].
  - unfold pbind at 1. rewrite (item_none K _ s : _ -> _ -> create_number _ s = _) by (done || lia). cbn [Nat.eqb].
    set (s1 := Store _ _). assert (H1 : holds ((p, Node np) :: L) s1) by exact Hs.
    destruct (modify_spec p (set_next NULL) np L s1 H1) as ([] & s2 & E2 & H2).
    unfold pbind at 1, suffix_object, pbind at 1. rewrite E2.
    by rewrite (modify_missing NULL _ s2 (holds_null _ _ H2)).
  - destruct (item_made K (fun n => set_number (to_int (dbl z)) (dbl z) (set_type cJSON_Number n)) _ s HK Hs
      ltac:(lia)) as (n & o & s1 & E1 & Hn & H1 & Hr).
    rewrite (pbind_run _ _ _ _ _ (E1 : create_number _ _ = _)). cbn [Nat.eqb].
    apply (holds_perm _ ((p, Node np) :: (n, Node o) :: L)) in H1; [|apply perm_swap].
    destruct (modify_spec p (set_next n) np _ s1 H1) as ([] & s2 & E2 & H2).
    apply (holds_perm _ ((n, Node o) :: (p, Node (set_next n np)) :: L)) in H2; [|apply perm_swap].
    destruct (modify_spec n (set_prev p) o _ s2 H2) as ([] & s3 & E3 & H3).
    unfold pbind at 1, suffix_object, pbind at 1. rewrite E2, E3.
    assert (Hreq : requests s3 = requests s1).
    { by rewrite (modify_requests _ _ _ _ E3), (modify_requests _ _ _ _ E2). }
    apply (IH (S i) n (set_prev p o) ((p, Node (set_next n np)) :: L)); [done|done|lia].
Qed.

Lemma create_array_fails K zs L s : runs_out K -> holds L s -> (2 <= length zs)%nat ->
  (requests s < K <= requests s + length zs)%nat -> CreateIntArray zs s = None.
Proof.
  intros HK Hs Hz Hk. unfold CreateIntArray, create_from.
  destruct (item_made K (set_type cJSON_Array) L s HK Hs ltac:(lia)) as (a & oa & s1 & E1 & Ha & H1 & Hr1).
  rewrite (pbind_run _ _ _ _ _ (E1 : create_array s = _)), Ha.
  destruct zs as [|z [|z2 zs]]; cbn [length] in *; [lia..|]. rewrite !fmap_cons. unfold pbind at 1.
  match goal with |- match ?m with _ => _ end = None => enough (E : m = None) by by rewrite E end.
  cbn [create_items Nat.eqb].
  set (fz := fun z n => set_number (to_int (dbl z)) (dbl z) (set_type cJSON_Number n)).
  destruct (Nat.eq_dec (S (requests s)) K) as [Ek|Ek].
  - unfold pbind at 1. rewrite (item_none K (fz z) s1 : _ -> _ -> create_number _ s1 = _) by (done || lia).
    set (s2 := Store _ _). assert (H2 : holds ((a, Node oa) :: L) s2) by exact H1.
    destruct (modify_spec a (set_child NULL) oa L s2 H2) as ([] & s3 & E3 & H3).
    unfold pbind at 1. rewrite E3. unfold pbind at 1.
    rewrite (item_none K (fz z2) s3 : _ -> _ -> create_number _ s3 = _).
    + cbn [Nat.eqb]. unfold pbind at 1, suffix_object, pbind at 1.
      by rewrite (modify_missing NULL _ _ (holds_null _ s3 H3 : objs (Store (objs s3) _) !! NULL = None)).
    + done.
    + rewrite (modify_requests _ _ _ _ E3). cbn [requests s2]. lia.
  - destruct (item_made K (fz z) _ s1 HK H1 ltac:(lia)) as (n & o & s2 & E2 & Hn & H2 & Hr2).
    rewrite (pbind_run _ _ _ _ _ (E2 : create_number _ _ = _)).
    apply (holds_perm _ ((a, Node oa) :: (n, Node o) :: L)) in H2; [|apply perm_swap].
    destruct (modify_spec a (set_child n) oa _ s2 H2) as ([] & s3 & E3 & H3).
    unfold pbind at 1. rewrite E3.
    apply (holds_perm _ ((n, Node o) :: (a, Node (set_child n oa)) :: L)) in H3; [|apply perm_swap].
    change (create_items 1 a n ((fun z => create_number (dbl z)) <$> (z2 :: zs)) s3 = None).
    apply (create_items_fails K a (z2 :: zs) 0 n o ((a, Node (set_child n oa)) :: L)); [done|done|].
    rewrite (modify_requests _ _ _ _ E3). cbn [length]. lia.
Qed.

(** An item that stands alone but for a constant name is duplicated. *)
Lemma copied_name_lost a t p d c string nx pv L s : ~ exhausted ->
  Z.land t cJSON_IsReference = 0 -> Z.land t cJSON_StringIsConst <> 0 ->
  (a, Node (MkNode nx pv NULL t NULL p d c)) ∈ L -> (c, Text false string) ∈ L -> holds L s ->
  exists s' b, (do r <- cJSON_Duplicate a true; cJSON_Delete r) s = Some (tt, s') /\
    holds ((b, Text true string) :: L) s'.
Proof.
  intros Hex Hr Hc Ha Hs. set (n := MkNode _ _ _ _ _ _ _ _) in Ha.
  enough (Ht : triple (holds L) (do r <- cJSON_Duplicate a true; cJSON_Delete r)
    (fun _ s' => exists b, holds ((b, Text true string) :: L) s')).
  { intros Hst. destruct (Ht s Hst) as ([] & s' & E & b & Hb). eauto. }
  eapply triple_bind with (R := fun r s' => exists b, (r =? NULL) = false /\
    holds ((r, Node (MkNode NULL NULL NULL t NULL p d b)) :: (b, Text true string) :: L) s').
  - unfold cJSON_Duplicate. apply fuelled_spec.
    cbn [duplicate].
    apply (triple_nonnull _ _ _ _ _ Ha). intros ->. apply then_alloc; [|done].
    intros r Hrn%Z.eqb_neq. rewrite Hrn. apply then_get with (n := n); [set_solver|].
    eapply then_modify; [reflexivity|]. cbn [n type valueint_ valuedouble_ valuestring_ name child_].
    rewrite (ldiff_none _ _ Hr). unfold copy_text at 1. change (NULL =? NULL) with true.
    eapply then_modify; [reflexivity|].
    eapply triple_bind with (R := fun v s' => exists b, v = Some b /\ (b =? NULL) = false /\
      holds ((b, Text true string) :: (r, Node (MkNode NULL NULL NULL t NULL p d NULL)) :: L) s').
    { unfold copy_text. apply (triple_nonnull c (Text false string)); [set_solver|]. intros ->.
      apply then_text with (b := false) (t := string); [set_solver|]. apply then_alloc; [|done].
      intros b Hb%Z.eqb_neq. rewrite Hb. apply holds_ret. intros s' Hs'. by exists b. }
    intros v s' (b & -> & Hb & Hs'). revert s' Hs'. cbn [negb].
    eapply then_modify; [apply perm_swap|].
    cbn [duplicate_children]. change (NULL =? NULL) with true. apply holds_ret. intros s' Hs'.
    exists b. by split.
  - intros r s1 (b & Hrn & Hs1). revert s1 Hs1. unfold cJSON_Delete. apply fuelled_spec.
    set (R := (b, Text true string) :: L). cbn [length delete_from]. rewrite Hrn.
    eapply then_get; [by left|]. unfold has. cbn [type child_ valuestring_ name next].
    apply Z.eqb_eq in Hr. apply Z.eqb_neq in Hc. rewrite Hr, Hc. cbn [negb andb].
    change (NULL =? NULL) with true. cbn [negb andb].
    do 3 (eapply triple_bind with (R := fun _ => _); [apply holds_ret; intros ? Hst; exact Hst|]; intros []).
    eapply triple_bind; [by apply free_spec|]. intros []. apply holds_ret. intros s' Hs'. by exists b.
Qed.

(** C38: An item whose name is a constant cannot be added under another name:
    the constant is given to [free]. Its duplicate, deleted, leaves a copy of the
    name that nobody can reach. And when memory runs out for the numbers of an
    array, of which there are two or more, a NULL pointer is followed. *)
Theorem cjson_tree_errors :
  (forall object string new item n L s, holds L s ->
     (item, Node n) ∈ L -> (name n, Text false string) ∈ L ->
     AddItemToObject object new item s = None) /\
  (forall a t p d c string nx pv L s, holds L s -> ~ exhausted ->
     Z.land t cJSON_IsReference = 0 -> Z.land t cJSON_StringIsConst <> 0 ->
     (a, Node (MkNode nx pv NULL t NULL p d c)) ∈ L -> (c, Text false string) ∈ L ->
     exists s' b, (do r <- cJSON_Duplicate a true; cJSON_Delete r) s = Some (tt, s') /\
       holds ((b, Text true string) :: L) s') /\
  (forall K zs L s, holds L s -> runs_out K -> (2 <= length zs)%nat ->
     (requests s < K <= requests s + length zs)%nat -> CreateIntArray zs s = None).
Proof.
  split; [|split].
  - intros object string new item n L s Hs Hi Hc. unfold AddItemToObject.
    rewrite (holds_nonnull _ _ _ _ Hs Hi). unfold get, pbind at 1 2, load at 1.
    rewrite (holds_lookup _ _ _ _ Hs Hi). cbn [pret]. rewrite (holds_nonnull _ _ _ _ Hs Hc).
    cbn [negb]. unfold pbind at 1, cJSON_free, pbind at 1, load. by rewrite (holds_lookup _ _ _ _ Hs Hc).
  - intros. by apply (copied_name_lost a t p d c string nx pv L s).
  - intros. by apply (create_array_fails K zs L s).
Qed.

End Copy.

(** ** Concrete runs *)

(** An allocator that fails from the request with number [K] on. *)
Program Definition failing (K : nat) : Allocator :=
  {| malloc k live := if (k <? K)%nat then bump k live else NULL |}.
Next Obligation.
  intros K k live. cbv beta. destruct (k <? K)%nat; [apply (@malloc_fresh bump_allocator)|].
  intros Hn. by destruct Hn.
Qed.

Lemma failing_runs_out K : @runs_out (failing K) K.
Proof.
  intros k live. change (@malloc (failing K) k live) with (if (k <? K)%nat then bump k live else NULL).
  destruct (Nat.ltb_spec k K); [|by split].
  split; [|lia]. intros E. by apply (bump_unlimited k live) in E.
Qed.

Definition list_tree : atree :=
  T 1 (Info cJSON_Array Null 0 (S754_zero false) (Owned 9 (lit "list")) NULL)
    [number_tree 2 5 Null; T 3 (Info cJSON_String (Owned 4 (lit "x")) 0 (S754_zero false) Null NULL) []].

(** The sixth request fails: the duplicate made so far is freed. *)
Lemma cjson_duplicate_witness :
  exists r s', @cJSON_Duplicate (failing 5) 1 true (Store (list_to_map (alone list_tree ++ [])) 0) = Some (r, s') /\
    @duplicated (failing 5) (alone list_tree ++ []) true list_tree r s'.
Proof.
  apply (@cjson_duplicate (failing 5) list_tree [] true).
  - reflexivity.
  - apply holds_cells. vm_compute. reflexivity.
Defined.

Lemma references_do_not_own_witness :
  exists s', (@AddItemReferenceToArray bump_allocator 1 20 ;;; @cJSON_Delete 1)
      (Store (list_to_map (alone list_tree ++ alone (number_tree 20 7 Null))) 0) = Some (tt, s') /\
    holds (alone (number_tree 20 7 Null)) s'.
Proof.
  apply (@references_do_not_own bump_allocator 1 (Info cJSON_Array Null 0 (S754_zero false) (Owned 9 (lit "list")) NULL)
    [number_tree 2 5 Null; T 3 (Info cJSON_String (Owned 4 (lit "x")) 0 (S754_zero false) Null NULL) []]
    20 (mk NULL NULL (number_tree 20 7 Null))).
  - reflexivity.
  - reflexivity.
  - by left.
  - apply holds_cells. vm_compute. reflexivity.
Defined.

Definition const_cells : cells :=
  [(1, Node (MkNode NULL NULL NULL (cJSON_True + cJSON_StringIsConst) NULL 1 (S754_zero false) 8));
   (8, Text false (lit "k"))].

Lemma cjson_tree_errors_witness :
  @AddItemToObject bump_allocator 5 (lit "new") 1 (Store (list_to_map const_cells) 0) = None /\
  (exists s' b, (do r <- @cJSON_Duplicate bump_allocator 1 true; cJSON_Delete r)
     (Store (list_to_map const_cells) 0) = Some (tt, s') /\ holds ((b, Text true (lit "k")) :: const_cells) s') /\
  @CreateIntArray (failing 2) [1; 2; 3] (Store (list_to_map []) 0) = None.
Proof.
  assert (Hc : holds const_cells (Store (list_to_map const_cells) 0)) by (apply holds_cells; vm_compute; reflexivity).
  split; [|split].
  - refine (proj1 (@cjson_tree_errors bump_allocator) 5 (lit "k") (lit "new") 1 _ const_cells _ Hc _ _);
      [by left|right; by left].
  - refine (proj1 (proj2 (@cjson_tree_errors bump_allocator)) 1 (cJSON_True + cJSON_StringIsConst) 1
      (S754_zero false) 8 (lit "k") NULL NULL const_cells _ Hc _ _ _ _ _).
    + intros (k & live & E). by apply (bump_unlimited k live).
    + reflexivity.
    + discriminate.
    + by left.
    + right. by left.
  - refine (proj2 (proj2 (@cjson_tree_errors (failing 2))) 2%nat [1; 2; 3] [] _ _ (failing_runs_out 2) _ _).
    + apply holds_cells. vm_compute. reflexivity.
    + cbn. lia.
    + cbn. lia.
Defined.
