(* ===== verification/Gree.v ===== *)
(** * Gree: the air conditioner's command handler of
    [src/pipe_ser_clnt/gree_fifo_client.c]

    [redF0] is the infrared frame, an array of 34 [char]s, signed; the
    commands change its fields and the two check nibbles. The turn of the
    pipe around it, with its JSON texts, is in [GreeFifo]. *)
From S2P Require Import Prelude.
From S2P Require Import CString.
From Stdlib Require Import Ascii.

Open Scope C.

Definition CNTL_WORD_NUMS : nat := 7.
Definition BUFFER_SIZE_PIPE : nat := 20.

Definition ctrl_word : list chars :=
  [lit "pow"; lit "mode"; lit "windsped"; lit "temp"; lit "left_right"; lit "up_down";
   lit "sleep"].

(** The first index from [i] on whose word is the one in [buffer]. *)
Fixpoint find_word (n i : nat) (buffer : chars) : option nat :=
  match n with
  | O => None
  | S n =>
      if streq buffer (nth i ctrl_word []) then Some i else find_word n (S i) buffer
  end.

(** The check nibble of the bytes [js]. *)
Definition check_nibble (l : list Z) (js : list Z) : Z :=
  Z.land (fold_left (fun sum i => sum + l.[i]) js 0 + 0x08) 0x0f.

Definition even_bytes : list Z := [0; 2; 4; 6; 8; 10; 12; 14].
Definition odd_bytes : list Z := [17; 19; 21; 23; 25; 27; 29; 31].

(** An assignment to a [char]. *)
Definition put (l : list Z) (i v : Z) : list Z := l.[i := i8 v].

Definition set_check16 (l : list Z) : list Z := put l 16 (check_nibble l even_bytes).
Definition set_check33 (l : list Z) : list Z := put l 33 (check_nibble l odd_bytes).

Definition incr (l : list Z) (i : Z) : list Z := put l i (l.[i] + 1).
Definition decr (l : list Z) (i : Z) : list Z := put l i (l.[i] - 1).

(** [case 2] *)
Definition wind_speed (status : Z) (l : list Z) : list Z :=
  let wind := Z.land (l.[31]) 0x07 in
  if (wind <? 4) && (status =? 1) then incr (incr l 1) 31
  else if (4 <=? wind) && (wind <? 8) && (status =? 1) then incr l 31
  else if (wind <=? 4) && (status =? 0) then decr (decr l 1) 31
  else if (4 <? wind) && (wind <? 8) && (status =? 1) then decr l 31
  else l.

(** The [switch]. *)
Definition command (handleIndex : nat) (status : Z) (l : list Z) : list Z :=
  match handleIndex with
  | 0%nat => set_check16 (put l 0 (Z.shiftl status 3))
  | 1%nat => set_check16 (put l 0 (Z.lor (Z.land (l.[0]) 0x08) (Z.land status 0x07)))
  | 2%nat => set_check33 (set_check16 (wind_speed status l))
  | 3%nat =>
      set_check16 (if status =? 1 then incr l 2 else if status =? 0 then decr l 2 else l)
  | 4%nat => put l 9 (Z.land status 0x01)
  | 5%nat => set_check16 (put l 10 (Z.land status 0x01))
  | 6%nat =>
      put l 1 (Z.lor (Z.shiftl (Z.land status 0x01) 3) (Z.land (l.[1]) 0x07))
  | _ => l
  end.

(** The return code, the frame and the word and status answered to the server.
    [word] is the caller's array of which 20 bytes are copied; without a
    terminator among them no word compares equal and the error message is
    printed from past the array. *)
Definition ctl_word_handle (word : chars) (status : Z) (redF0 : list Z)
  : option (Z * list Z * option (chars * Z)) :=
  match text (firstn BUFFER_SIZE_PIPE word) with
  | None => None
  | Some buffer =>
      match find_word CNTL_WORD_NUMS 0 buffer with
      | None => Some (-1, redF0, None)
      | Some i => Some (0, command i status redF0, Some (nth i ctrl_word [], status))
      end
  end.

(** ** The frame's invariant *)

Definition is_char (z : Z) : Prop := -128 <= z < 128.

Record frame_ok (l : list Z) : Prop := FrameOk {
  f_length : length l = 34%nat;
  f_chars : Forall is_char l;
  f_check16 : l.[16] = check_nibble l even_bytes;
  f_check33 : l.[33] = check_nibble l odd_bytes
}.

Lemma i8_char z : is_char (i8 z).
Proof.
  unfold is_char, swrap. change (2 ^ 8) with 256. change (2 ^ (8 - 1)) with 128.
  destruct (Z.ltb_spec (z mod 256) 128); Z.to_euclidean_division_equations; lia.
Qed.

Lemma nibble_char l js : i8 (check_nibble l js) = check_nibble l js.
Proof.
  unfold check_nibble. set (s := _ + 0x08). change 0x0f with (Z.ones 4).
  rewrite Z.land_ones by lia. change (2 ^ 4) with 16. unfold swrap.
  change (2 ^ 8) with 256. change (2 ^ (8 - 1)) with 128.
  pose proof (Z.mod_pos_bound s 16 ltac:(lia)).
  rewrite (Z.mod_small (s mod 16)) by lia. by rewrite (proj2 (Z.ltb_lt _ _)) by lia.
Qed.

Lemma length_put l i v : length (put l i v) = length l.
Proof. apply length_insert. Qed.

Lemma put_chars l i v : Forall is_char l -> Forall is_char (put l i v).
Proof. intros Hl. apply Forall_insert; [done|apply i8_char]. Qed.

Lemma put_other l i v j :
  length l = 34%nat -> 0 <= i < 34 -> 0 <= j -> i <> j -> (put l i v).[j] = l.[j].
Proof.
  intros Hl Hi Hj Hn. unfold put. rewrite byte_insert by lia.
  by rewrite (proj2 (Z.eqb_neq _ _) Hn).
Qed.

Lemma put_same l i v : length l = 34%nat -> 0 <= i < 34 -> (put l i v).[i] = i8 v.
Proof. intros Hl Hi. unfold put. rewrite byte_insert by lia. by rewrite Z.eqb_refl. Qed.

(** A byte outside the sum does not change the nibble. *)
Lemma nibble_put l i v js :
  length l = 34%nat -> 0 <= i < 34 -> Forall (fun j => 0 <= j /\ i <> j) js ->
  check_nibble (put l i v) js = check_nibble l js.
Proof.
  intros Hl Hi Hjs. unfold check_nibble.
  assert (Hsum : forall acc, fold_left (fun sum j => sum + (put l i v).[j]) js acc =
                             fold_left (fun sum j => sum + l.[j]) js acc); [|by rewrite Hsum].
  induction Hjs as [|j js [Hj Hn] _ IH]; intros acc; [done|]. cbn [fold_left].
  by rewrite put_other, IH by done.
Qed.

Ltac outside := repeat constructor; lia.

(** Changing a byte of neither sum. *)
Lemma frame_put l i v :
  frame_ok l -> 0 <= i < 34 -> i <> 16 -> i <> 33 ->
  Forall (fun j => 0 <= j /\ i <> j) (even_bytes ++ odd_bytes) -> frame_ok (put l i v).
Proof.
  intros [Hl Hc H16 H33] Hi H1 H2 [He Ho]%Forall_app.
  constructor; [by rewrite length_put|by apply put_chars|..];
    rewrite put_other, nibble_put by (done || lia); done.
Qed.

(** The frame up to its first check nibble. *)
Record rest_ok (l : list Z) : Prop := RestOk {
  r_length : length l = 34%nat;
  r_chars : Forall is_char l;
  r_check33 : l.[33] = check_nibble l odd_bytes
}.

Lemma frame_rest l : frame_ok l -> rest_ok l.
Proof. intros []. by constructor. Qed.

Lemma set_check16_ok l : rest_ok l -> frame_ok (set_check16 l).
Proof.
  intros [Hl Hc H33]. unfold set_check16. constructor.
  - by rewrite length_put.
  - by apply put_chars.
  - rewrite put_same, nibble_char, nibble_put by (done || outside). done.
  - rewrite put_other, nibble_put by (done || lia || outside). done.
Qed.

Lemma rest_put l i v :
  rest_ok l -> 0 <= i < 33 -> Forall (fun j => 0 <= j /\ i <> j) odd_bytes ->
  rest_ok (put l i v).
Proof.
  intros [Hl Hc H33] Hi Ho. constructor; [by rewrite length_put|by apply put_chars|].
  rewrite put_other, nibble_put by (done || lia). done.
Qed.

Lemma set_checks_ok l :
  length l = 34%nat -> Forall is_char l -> frame_ok (set_check33 (set_check16 l)).
Proof.
  intros Hl Hc. unfold set_check33. set (m := set_check16 l).
  assert (Hm : length m = 34%nat) by (unfold m, set_check16; by rewrite length_put).
  constructor.
  - by rewrite length_put.
  - apply put_chars. by apply put_chars.
  - rewrite put_other, nibble_put by (done || lia || outside). unfold m, set_check16.
    rewrite put_same, nibble_char, nibble_put by (done || outside). done.
  - rewrite put_same, nibble_char, nibble_put by (done || outside). done.
Qed.

Lemma wind_speed_shape status l :
  length l = 34%nat -> Forall is_char l ->
  length (wind_speed status l) = 34%nat /\ Forall is_char (wind_speed status l).
Proof.
  intros Hl Hc. unfold wind_speed, incr, decr.
  repeat (destruct (_ && _); [split; [by rewrite !length_put|by repeat apply put_chars]|]).
  done.
Qed.

Lemma command_ok i status l : frame_ok l -> frame_ok (command i status l).
Proof.
  intros Hl. pose proof (frame_rest l Hl) as Hr. unfold command, incr, decr.
  destruct i as [|[|[|[|[|[|[|i]]]]]]]; [..|done].
  - apply set_check16_ok, rest_put; done || lia || outside.
  - apply set_check16_ok, rest_put; done || lia || outside.
  - destruct Hl as [Hl Hc _ _]. destruct (wind_speed_shape status l Hl Hc).
    by apply set_checks_ok.
  - apply set_check16_ok. destruct (status =? 1); [|destruct (status =? 0); [|done]];
      apply rest_put; done || lia || outside.
  - apply frame_put; done || lia || outside.
  - apply set_check16_ok, rest_put; done || lia || outside.
  - apply frame_put; done || lia || outside.
Qed.

Lemma find_word_found n i buffer :
  match find_word n i buffer with
  | Some j => nth j ctrl_word [] = buffer /\ (i <= j < i + n)%nat
  | None => forall j, (i <= j < i + n)%nat -> nth j ctrl_word [] <> buffer
  end.
Proof.
  revert i. induction n as [|n IH]; intros i; cbn [find_word]; [lia|].
  destruct (streq buffer (nth i ctrl_word [])) eqn:E.
  - apply streq_spec in E. split; [done|lia].
  - specialize (IH (S i)). destruct (find_word n (S i) buffer) as [j|].
    + destruct IH. split; [done|lia].
    + intros j Hj. destruct (decide (j = i)) as [-> | Hne]; [|apply IH; lia].
      intros Heq. by rewrite (proj2 (streq_spec _ _) (eq_sym Heq)) in E.
Qed.

Lemma find_word_spec buffer :
  match find_word CNTL_WORD_NUMS 0 buffer with
  | Some i => nth i ctrl_word [] = buffer /\ In buffer ctrl_word
  | None => ~ In buffer ctrl_word
  end.
Proof.
  pose proof (find_word_found CNTL_WORD_NUMS 0 buffer) as Hf.
  destruct (find_word CNTL_WORD_NUMS 0 buffer) as [i|].
  - destruct Hf as [Hn Hi]. split; [done|]. rewrite <- Hn. apply nth_In, Hi.
  - intros (j & Hj & Heq)%(In_nth _ _ []). apply (Hf j); [split; [lia|exact Hj]|exact Heq].
Qed.

(** A speed above step 4 stays under status 0. *)
Lemma wind_speed_high l : 4 < Z.land (l.[31]) 7 -> wind_speed 0 l = l.
Proof.
  intros Hw. unfold wind_speed. rewrite !andb_false_r.
  by rewrite (proj2 (Z.leb_gt _ _)) by lia.
Qed.

(** ** Theorem *)

(** Every command, with any status, keeps the frame well formed: 34 bytes
    with both check nibbles right. An unknown word is refused with the frame
    as it was, and a known one is answered with its name and status. The wind
    goes one step up on 1 below step 4 and one down on 0 up to step 4; above
    it, 0 leaves the speed as it is (the branch meant for it tests for 1
    again). *)
Theorem ctl_word_handle_spec word buffer status l :
  text (firstn BUFFER_SIZE_PIPE word) = Some buffer -> frame_ok l ->
  exists ret l' reply, ctl_word_handle word status l = Some (ret, l', reply) /\
  frame_ok l' /\
  (ret = 0 \/ ret = -1) /\
  (ret = -1 <-> ~ In buffer ctrl_word) /\
  (ret = -1 -> l' = l /\ reply = None) /\
  (ret = 0 -> reply = Some (buffer, status)) /\
  (buffer = lit "windsped" -> status = 0 -> 4 < Z.land (l.[31]) 7 ->
     l'.[31] = l.[31] /\ l'.[1] = l.[1]).
Proof.
  intros Ht Hl. unfold ctl_word_handle. rewrite Ht. pose proof (find_word_spec buffer) as Hf.
  destruct (find_word CNTL_WORD_NUMS 0 buffer) as [i|] eqn:E;
    do 3 eexists; (split; [reflexivity|]).
  - destruct Hf as [Hn Hin]. split; [by apply command_ok|]. split; [by left|].
    split; [split; done|]. split; [done|]. split; [by rewrite Hn|].
    intros -> -> Hw. change (find_word CNTL_WORD_NUMS 0 (lit "windsped")) with (Some 2%nat) in E.
    injection E as <-. cbn [command]. rewrite wind_speed_high by done.
    destruct Hl as [Hlen _ _ _]. unfold set_check33, set_check16.
    by rewrite !put_other by (rewrite ?length_put; done || lia).
  - split; [done|]. split; [by right|]. split; [done|]. split; [done|]. split; [done|].
    intros -> _ _. by destruct Hf; right; right; left.
Qed.

(** A frame of zeros with its check nibbles. *)
Definition frame0 : list Z := set_check33 (set_check16 (replicate 34 0)).

Lemma frame0_ok : frame_ok frame0.
Proof.
  apply set_checks_ok; [done|]. apply Forall_replicate. unfold is_char. lia.
Qed.

Definition word_pow : chars := lit "pow" ++ replicate 17 NUL.

Lemma ctl_word_handle_spec_witness :
  exists ret l' reply, ctl_word_handle word_pow 1 frame0 = Some (ret, l', reply) /\
    frame_ok l' /\ (ret = 0 -> reply = Some (lit "pow", 1)).
Proof.
  destruct (ctl_word_handle_spec word_pow (lit "pow") 1 frame0 ltac:(vm_compute; reflexivity)
    frame0_ok) as (ret & l' & reply & E & H1 & _ & _ & _ & H2 & _).
  exists ret, l', reply. split; [exact E|]. split; [exact H1|exact H2].
Defined.
