(* ===== verification/GreeFifo.v ===== *)
(** * GreeFifo: a turn of the air conditioner's pipe,
    [src/pipe_ser_clnt/gree_fifo_client.c]

    The request read from the server's pipe is parsed by cJSON, its word and
    status go to [ctl_word_handle], and the answer is printed by cJSON and
    written to the client's pipe. A NULL that is read through, or a text that
    does not fit its array, has no result. *)
From S2P Require Import Prelude.
From S2P Require Import CString.
From S2P Require Import Double.
From S2P Require Import Json.
From S2P Require Import JsonPrint.
From S2P Require Import JsonSpec.
From S2P Require Import JsonPrintFacts.
From S2P Require Import JsonParseFacts.
From S2P Require Import JsonTop.
From S2P Require Import Gree.
From Stdlib Require Import SpecFloat Ascii.

Open Scope C.






Section Client.
Context `{Lib : CLibrary}.

(** What stands in memory behind the words of [ctrl_word]: [client_send_ok] is
    given 20 as the length of each. *)
Variable behind_words : chars.



(** ** Requests and answers *)










Section Turn.
(** Memory does not run out, and [pow(10.0, 0)] is 1. *)
Hypothesis memory : forall k, malloc_ok k = true.
Hypothesis pow10_zero : pow10 (dbl 0) = dbl 1.







End Turn.


End Client.

(** ** A request *)



