(* ===== verification/Ini.v ===== *)
(** * Ini: the configuration files of [src/config_item/src/config_file.c]

    Reading and writing one value of a section in place. A file is the bytes
    before and after its position with the end-of-file flag; [val] is the
    caller's array. *)
From S2P Require Import Prelude.
From S2P Require Import CString.
From Stdlib Require Import Ascii.

Open Scope C.

Definition SECTION_MAX_LEN : nat := 256.
Definition STRVALUE_MAX_LEN : nat := 256.
Definition LINE_CONTENT_MAX_LEN : nat := 256.
Definition READ_STR_OK : Z := 0.
Definition READ_STR_ERR : Z := -1.

(** ** Streams *)

Record stream := Stream { passed : chars; ahead : chars; eof : bool }.

(** What [fgets] stores of [s] when it may store [n] bytes, and whether it
    meets the end of the file. *)
Fixpoint line_of (n : nat) (s : chars) : chars :=
  match n, s with
  | S n, c :: s => if bool_decide (c = LF) then [c] else c :: line_of n s
  | _, _ => []
  end.

Fixpoint meets_end (n : nat) (s : chars) : bool :=
  match n, s with
  | O, _ => false
  | S _, [] => true
  | S n, c :: s => if bool_decide (c = LF) then false else meets_end n s
  end.

(** [memset(lineContent, 0, ...); fgets(lineContent, ..., fp)]: the bytes in
    front of the zeros. *)
Definition next_line (fp : stream) : chars * stream :=
  let n := (LINE_CONTENT_MAX_LEN - 1)%nat in
  let l := line_of n (ahead fp) in
  (l, Stream (passed fp ++ l) (drop (length l) (ahead fp)) (eof fp || meets_end n (ahead fp))).

(** [lineContent[i]] *)
Definition at_ (line : chars) (i : nat) : ascii := nth i line NUL.

(** The string in [line]: what is before the first zero. *)
Definition str (line : chars) : chars := (span (fun c => negb (bool_decide (c = NUL))) line).1.

Definition is_end (c : ascii) : bool :=
  bool_decide (c = NUL) || bool_decide (c = CR) || bool_decide (c = LF).

(** Comments and empty lines. *)
Definition skipped (line : chars) : bool :=
  bool_decide ([at_ line 0] = lit ";") || is_end (at_ line 0).

Definition opens_section (line : chars) : bool := bool_decide ([at_ line 0] = lit "[").

(** ** Reading *)

(** [for (i = strlen(key); i < lineContentLen; i++)]: where the value starts. *)
Fixpoint find_eq (n i : nat) (line : chars) : option nat :=
  match n with
  | O => None
  | S n => if bool_decide ([at_ line i] = lit "=") then Some (S i) else find_eq n (S i) line
  end.

(** [for (i = 0; i < lineContentLen; i++)]: the character of [lineContent] is
    tested and the one of [val] is set. *)
Fixpoint cut_value (n i : nat) (line val : chars) : option chars :=
  match n with
  | O => Some val
  | S n =>
      if (LINE_CONTENT_MAX_LEN <=? i)%nat then None
      else if is_end (at_ line i) then Some (<[i := NUL]> (val : list ascii))
      else cut_value n (S i) line val
  end.

(** The [strncpy] without a terminator and what follows. [None]: the value
    does not fit [val], or no terminator is left in it. *)
Definition store_value (line : chars) (position : nat) (val : chars) : option chars :=
  let v := drop position (str line) in
  if (length val <? length v)%nat then None
  else
    let val := v ++ drop (length v) val in
    match text val with
    | None => None
    | Some s => cut_value (length s) 0 line val
    end.

(** The inner loop: [val] and [bFoundKey]. *)
Fixpoint read_keys (fuel : nat) (key val : chars) (bFoundKey : bool) (fp : stream)
  : option (chars * bool) :=
  if eof fp then Some (val, bFoundKey)
  else
    match fuel with
    | O => None
    | S fuel =>
        let '(line, fp) := next_line fp in
        if starts_with key (str line) then
          match find_eq (length (str line) - length key) (length key) line with
          | None => Some (val, true)
          | Some position =>
              match store_value line position val with
              | None => None
              | Some val => read_keys fuel key val true fp
              end
          end
        else if opens_section line then Some (val, bFoundKey)
        else read_keys fuel key val bFoundKey fp
    end.

(** The outer loop: [bFoundSection], and the stream behind the section's line. *)
Fixpoint find_section (fuel : nat) (section : chars) (fp : stream) : option (option stream) :=
  if eof fp then Some None
  else
    match fuel with
    | O => None
    | S fuel =>
        let '(line, fp) := next_line fp in
        if skipped line then find_section fuel section fp
        else if starts_with section (str line) then Some (Some fp)
        else find_section fuel section fp
    end.

(** A turn of a loop reads a byte or meets the end. *)
Definition turns (fp : stream) : nat := S (S (length (ahead fp))).

(** What is printed at the end. *)
Inductive report := NoFile | NoSection | NoKey | Done.

Definition open (bytes : chars) : stream := Stream [] bytes false.

(** [file] is the contents of the file, if it can be opened. *)
Definition IniReadValue (section key val : chars) (file : option chars)
  : option (chars * report) :=
  match file with
  | None => Some (val, NoFile)
  | Some bytes =>
      match find_section (turns (open bytes)) section (open bytes) with
      | None => None
      | Some None => Some (val, NoSection)
      | Some (Some fp) =>
          match read_keys (turns fp) key val false fp with
          | None => None
          | Some (val, found) => Some (val, if found : bool then Done else NoKey)
          end
      end
  end.

(** [sprintf(sect, "[%s]", section)] *)
Definition section_name (section : chars) : option chars :=
  let s := lit "[" ++ section ++ lit "]" in
  if (SECTION_MAX_LEN <=? length s)%nat then None else Some s.

(** The outer [None] of an argument is [NULL]. *)
Definition readStringValue (section key val : option chars) (file : option (option chars))
  : option (Z * option chars) :=
  match section, key, val, file with
  | Some section, Some key, Some v, Some file =>
      match section_name section with
      | None => None
      | Some sect =>
          match IniReadValue sect key v file with
          | None => None
          | Some (v, _) => Some (READ_STR_OK, Some v)
          end
      end
  | _, _, _, _ => Some (READ_STR_ERR, val)
  end.

(** [atoi], which promises nothing for a number out of range. *)
Definition atoi (s : chars) : option Z :=
  match scan_int s with
  | None => Some 0
  | Some (v, _) => if bool_decide (- 2 ^ 31 <= v < 2 ^ 31) then Some v else None
  end.

Definition readIntValue (section key : option chars) (file : option (option chars)) : option Z :=
  match readStringValue section key (Some (replicate STRVALUE_MAX_LEN NUL)) file with
  | None => None
  | Some (ret, strValue) =>
      if negb (ret =? READ_STR_OK) then Some 0
      else
        match strValue with
        | None => None
        | Some v => match text v with None => None | Some s => atoi s end
        end
  end.

(** ** Writing *)

(** [fseek(fp, -k, SEEK_CUR)] *)
Definition seek_back (k : nat) (fp : stream) : stream :=
  let p := (length (passed fp) - k)%nat in
  Stream (take p (passed fp)) (drop p (passed fp) ++ ahead fp) false.

(** [fputs]: over what is there. *)
Definition fputs (s : chars) (fp : stream) : stream :=
  Stream (passed fp ++ s) (drop (length s) (ahead fp)) (eof fp).

(** The inner loop: the stream and [bFoundKey]. *)
Fixpoint write_key (fuel : nat) (key strWrite : chars) (fp : stream) : option (stream * bool) :=
  if eof fp then Some (fp, false)
  else
    match fuel with
    | O => None
    | S fuel =>
        let '(line, fp) := next_line fp in
        if starts_with key (str line) then
          Some (fputs strWrite (seek_back (length (str line)) fp), true)
        else if opens_section line then Some (fp, false)
        else write_key fuel key strWrite fp
    end.

Definition contents (fp : stream) : chars := passed fp ++ ahead fp.

(** The file afterwards. *)
Definition IniWriteValue (section key val : chars) (file : option chars)
  : option (option chars * report) :=
  let strWrite := key ++ lit "=" ++ val ++ [LF] in
  if (LINE_CONTENT_MAX_LEN <=? length strWrite)%nat then None
  else
    match file with
    | None => Some (None, NoFile)
    | Some bytes =>
        match find_section (turns (open bytes)) section (open bytes) with
        | None => None
        | Some None => Some (Some bytes, NoSection)
        | Some (Some fp) =>
            match write_key (turns fp) key strWrite fp with
            | None => None
            | Some (fp, found) => Some (Some (contents fp), if found : bool then Done else NoKey)
            end
        end
    end.

(** The result on a complete write is whatever the function leaves behind: it
    ends without a [return]. *)
Definition writeStringVlaue (section key val : option chars) (file : option (option chars))
  : option (option (option chars)) :=
  match section, key, val, file with
  | Some section, Some key, Some v, Some f =>
      match section_name section with
      | None => None
      | Some sect =>
          match IniWriteValue sect key v f with
          | None => None
          | Some (f, _) => Some (Some f)
          end
      end
  | _, _, _, _ => Some file
  end.

(** [%-4d] *)
Definition print_left4 (z : Z) : chars :=
  let s := print_int z in s ++ replicate (4 - length s) (chr 32).

Definition writeIntValue (section key : option chars) (val : Z) (file : option (option chars))
  : option (option (option chars)) :=
  writeStringVlaue section key (Some (print_left4 val)) file.

(** ** Lines *)

Definition plain (c : ascii) : bool := negb (bool_decide (c = LF)) && negb (bool_decide (c = NUL)).

(** A line with its terminator, short enough for the buffer. *)
Definition full_line (l : chars) : Prop :=
  exists w, l = w ++ [LF] /\ forallb plain w = true /\ (length l < LINE_CONTENT_MAX_LEN)%nat.

Lemma line_of_full n w r :
  forallb plain w = true -> (length w < n)%nat ->
  line_of n ((w ++ [LF]) ++ r) = w ++ [LF] /\ meets_end n ((w ++ [LF]) ++ r) = false.
Proof.
  revert n. induction w as [|c w IH]; intros n Hw Hn; (destruct n as [|n]; [cbn in Hn; lia|]); cbn.
  - done.
  - cbn in Hw, Hn. apply andb_true_iff in Hw as [Hc Hw]. unfold plain in Hc.
    apply andb_true_iff in Hc as [Hc _]. destruct (bool_decide (c = LF)); [done|].
    destruct (IH n Hw ltac:(lia)) as [-> ->]. done.
Qed.

Lemma next_line_full p l r :
  full_line l -> next_line (Stream p (l ++ r) false) = (l, Stream (p ++ l) r false).
Proof.
  intros (w & -> & Hw & Hs). unfold next_line. cbn [ahead passed eof].
  rewrite length_app in Hs. cbn [length] in Hs.
  destruct (line_of_full (LINE_CONTENT_MAX_LEN - 1) w r Hw ltac:(lia)) as [-> ->].
  by rewrite drop_app_length.
Qed.

Lemma str_full l : full_line l -> str l = l.
Proof.
  intros (w & -> & Hw & _). unfold str. set (f := fun c => negb (bool_decide (c = NUL))).
  assert (Hf : forallb f (w ++ [LF]) = true).
  { rewrite forallb_app. apply andb_true_iff. split; [|done]. apply forallb_forall.
    intros c Hc. apply (proj1 (forallb_forall _ _) Hw), andb_true_iff in Hc as [_ Hc]. exact Hc. }
  pose proof (span_all f (w ++ [LF]) [] Hf I) as H. rewrite app_nil_r in H. by rewrite H.
Qed.

Lemma full_line_pos l : full_line l -> (0 < length l)%nat.
Proof. intros (w & -> & _). rewrite length_app. cbn. lia. Qed.

Lemma next_line_end p : next_line (Stream p [] false) = ([], Stream (p ++ []) [] true).
Proof. done. Qed.

Lemma line_of_split n s :
  (length (line_of n s) <= n)%nat /\ s = line_of n s ++ drop (length (line_of n s)) s.
Proof.
  revert s. induction n as [|n IH]; intros s; [by split; [cbn; lia|]|].
  destruct s as [|c s]; [split; [cbn; lia|done]|].
  cbn. destruct (bool_decide (c = LF)); cbn; [split; [lia|done]|].
  destruct (IH s) as [Hn Hs]. split; [lia|]. by rewrite <- Hs.
Qed.

Lemma line_of_pos n c s : (0 < length (line_of (S n) (c :: s)))%nat.
Proof. cbn. destruct (bool_decide (c = LF)); cbn; lia. Qed.

(** A turn makes progress. *)
Lemma next_line_progress fp :
  eof fp = false ->
  let '(l, fp') := next_line fp in
  (length l < LINE_CONTENT_MAX_LEN)%nat /\ contents fp' = contents fp /\
  passed fp' = passed fp ++ l /\
  (eof fp' = true \/ (length (ahead fp') < length (ahead fp))%nat).
Proof.
  intros He. unfold next_line, contents. destruct fp as [p a e]. cbn [eof passed ahead] in *.
  subst e. destruct (line_of_split (LINE_CONTENT_MAX_LEN - 1) a) as [Hn Ha].
  split; [unfold LINE_CONTENT_MAX_LEN in *; lia|].
  split; [by rewrite <- app_assoc, <- Ha|]. split; [done|].
  destruct a as [|c a]; [by left|]. right. rewrite length_drop.
  pose proof (line_of_pos (LINE_CONTENT_MAX_LEN - 2) c a) as Hp.
  change (S (LINE_CONTENT_MAX_LEN - 2)) with (LINE_CONTENT_MAX_LEN - 1)%nat in Hp.
  cbn [length] in *. lia.
Qed.

(** ** Safety on every file *)

(** Turns enough to reach the end. *)
Definition enough (fuel : nat) (fp : stream) : Prop :=
  eof fp = true \/ (length (ahead fp) < fuel)%nat.

Lemma enough_turns fp : enough (turns fp) fp.
Proof. right. unfold turns. lia. Qed.

Lemma enough_next fuel fp :
  eof fp = false -> enough (S fuel) fp -> enough fuel (next_line fp).2.
Proof.
  intros He [H|H]; [congruence|]. pose proof (next_line_progress fp He) as Hp.
  destruct (next_line fp) as [l fp']. destruct Hp as (_ & _ & _ & [H'|H']); [by left|].
  right. cbn. lia.
Qed.

Ltac turn fp He :=
  let Hp := fresh "Hp" in let Hn := fresh "Hn" in
  pose proof (next_line_progress fp He) as Hp; pose proof (fun fuel => enough_next fuel fp He) as Hn;
  destruct (next_line fp) as [line fp'] eqn:?; destruct Hp as (Hshort & Hsame & Hpassed & _);
  cbn [snd] in Hn.

Lemma find_section_total fuel section fp :
  enough fuel fp ->
  exists r, find_section fuel section fp = Some r /\
    match r with Some fp' => contents fp' = contents fp | None => True end.
Proof.
  revert fp. induction fuel as [|fuel IH]; intros fp Hf; cbn [find_section];
    (destruct (eof fp) eqn:He; [by eexists|]).
  - destruct Hf as [Hf|Hf]; [congruence|lia].
  - turn fp He. specialize (Hn _ Hf). destruct (IH fp' Hn) as (r & Hr & Hc).
    rewrite Hr. destruct (skipped line); [eexists; split; [done|]; by destruct r; [rewrite Hc|]|].
    destruct (starts_with section (str line)); [by exists (Some fp')|].
    eexists; split; [done|]. by destruct r; [rewrite Hc|].
Qed.

(** The caller's array of 256 bytes with a zero at its end. *)
Record buffer_ok (val : chars) : Prop := BufferOk {
  b_length : length val = STRVALUE_MAX_LEN;
  b_last : (val : list ascii) !! 255%nat = Some NUL
}.

Lemma text_of_zero val i :
  (val : list ascii) !! i = Some NUL -> exists s, text val = Some s /\ (length s <= i)%nat.
Proof.
  unfold text. revert i. induction val as [|c val IH]; intros i Hi; [done|].
  cbn [span]. destruct (decide (c = NUL)) as [-> | Hc].
  - exists []. split; [done|cbn; lia].
  - rewrite bool_decide_eq_false_2 by done. cbn [negb]. destruct i as [|i]; [by injection Hi|].
    destruct (IH i Hi) as (s & Hs & Hl).
    destruct (span _ val) as [a [|b r]]; [done|]. injection Hs as ->.
    exists (c :: s). split; [done|cbn; lia].
Qed.

Lemma cut_value_ok n i line val :
  buffer_ok val -> (i + n < 256)%nat ->
  exists val', cut_value n i line val = Some val' /\ buffer_ok val'.
Proof.
  intros Hv. revert i. induction n as [|n IH]; intros i Hi; cbn [cut_value]; [by exists val|].
  rewrite (proj2 (Nat.leb_gt _ _)) by (unfold LINE_CONTENT_MAX_LEN; lia).
  destruct (is_end (at_ line i)); [|apply IH; lia].
  eexists. split; [done|]. destruct Hv as [Hl Hz].
  split; [by rewrite length_insert|]. by rewrite list_lookup_insert_ne by lia.
Qed.

Lemma length_str line : (length (str line) <= length line)%nat.
Proof.
  unfold str. destruct (span _ line) as [a b] eqn:E. apply span_eq in E as [-> _].
  rewrite length_app. cbn. lia.
Qed.

Lemma store_value_ok line position val :
  buffer_ok val -> (length line < 256)%nat -> (0 < position)%nat ->
  exists val', store_value line position val = Some val' /\ buffer_ok val'.
Proof.
  intros [Hl Hz] Hline Hp. unfold store_value. pose proof (length_str line) as Hs.
  set (v := drop position (str line)).
  assert (Hv : (length v <= 254)%nat) by (unfold v; rewrite length_drop; lia).
  unfold STRVALUE_MAX_LEN in Hl. rewrite (proj2 (Nat.ltb_ge _ _)) by lia.
  assert (Hb : buffer_ok (v ++ drop (length v) val)).
  { split; [rewrite length_app, length_drop; unfold STRVALUE_MAX_LEN; lia|].
    rewrite lookup_app_r, lookup_drop by lia.
    by replace (length v + (255 - length v))%nat with 255%nat by lia. }
  destruct (text_of_zero _ _ (b_last _ Hb)) as (s & -> & Hlen).
  apply cut_value_ok; [done|lia].
Qed.

Lemma find_eq_pos n i line p : find_eq n i line = Some p -> (0 < p)%nat.
Proof.
  revert i. induction n as [|n IH]; intros i; cbn; [done|].
  destruct (bool_decide _); [intros [= <-]; lia|apply IH].
Qed.

Lemma read_keys_total fuel key val found fp :
  enough fuel fp -> buffer_ok val ->
  exists val' found', read_keys fuel key val found fp = Some (val', found') /\ buffer_ok val'.
Proof.
  revert val found fp. induction fuel as [|fuel IH]; intros val found fp Hf Hv; cbn [read_keys];
    (destruct (eof fp) eqn:He; [by eexists _, _|]).
  - destruct Hf as [Hf|Hf]; [congruence|lia].
  - turn fp He. specialize (Hn _ Hf).
    destruct (starts_with key (str line)).
    + destruct (find_eq _ _ line) as [p|] eqn:Ep; [|by eexists _, _].
      destruct (store_value_ok line p val Hv Hshort (find_eq_pos _ _ _ _ Ep)) as (v' & -> & Hv').
      by apply IH.
    + destruct (opens_section line); [by eexists _, _|]. by apply IH.
Qed.

(** The file with [new] written over what is at [p]. *)
Definition overwrite (p : nat) (new bytes : chars) : chars :=
  take p bytes ++ new ++ drop (p + length new) bytes.

Lemma overwrite_app p new r : overwrite (length p) new (p ++ r) = p ++ overwrite 0 new r.
Proof.
  unfold overwrite. by rewrite take_app_length, <- drop_drop, drop_app_length.
Qed.

Lemma fputs_back k new fp :
  (k <= length (passed fp))%nat ->
  contents (fputs new (seek_back k fp)) =
    overwrite (length (passed fp) - k) new (contents fp).
Proof.
  intros Hk. unfold contents, overwrite, fputs, seek_back. cbn [passed ahead].
  set (p := (length (passed fp) - k)%nat). rewrite <- app_assoc.
  rewrite (take_app_le (passed fp)) by lia. do 2 f_equal.
  rewrite <- drop_drop. rewrite (drop_app_le (passed fp) (ahead fp)) by lia. done.
Qed.

Lemma write_key_total fuel key new fp :
  enough fuel fp ->
  exists fp' found, write_key fuel key new fp = Some (fp', found) /\
    (found = false -> contents fp' = contents fp) /\
    (found = true -> exists p, (p <= length (contents fp))%nat /\
       contents fp' = overwrite p new (contents fp)).
Proof.
  revert fp. induction fuel as [|fuel IH]; intros fp Hf; cbn [write_key];
    (destruct (eof fp) eqn:He; [by eexists _, _|]).
  - destruct Hf as [Hf|Hf]; [congruence|lia].
  - turn fp He. specialize (Hn _ Hf).
    destruct (starts_with key (str line)).
    + eexists _, _. split; [done|]. split; [done|]. intros _.
      pose proof (length_str line) as Hs.
      exists (length (passed fp') - length (str line))%nat. split.
      * rewrite <- Hsame. unfold contents. rewrite length_app. lia.
      * rewrite fputs_back, Hsame; [done|]. rewrite Hpassed, length_app. lia.
    + destruct (opens_section line); [by eexists _, _|].
      destruct (IH fp' Hn) as (f & b & E & H1 & H2). rewrite Hsame in H1, H2. by exists f, b.
Qed.

(** ** A section and its key *)

Definition value_char (c : ascii) : bool := negb (is_end c).

(** What a key is: not empty, no line end, no opening bracket first. *)
Definition is_key (key : chars) : Prop :=
  key <> [] /\ forallb value_char key = true /\ opens_section key = false.

Definition is_eol (eol : chars) : Prop := eol = [LF] \/ eol = [CR; LF].

(** [section]'s line is [s], behind [before]; [body] are the lines between it
    and the line that begins with [key]. *)
Record entry (section key : chars) (before : list chars) (s : chars) (body : list chars) : Prop :=
  Entry {
  e_before : Forall full_line before;
  e_not_before : Forall (fun l => starts_with (lit "[" ++ section ++ lit "]") l = false) before;
  e_section : full_line s;
  e_opens : starts_with (lit "[" ++ section ++ lit "]") s = true;
  e_name : (length section < 254)%nat;
  e_body : Forall full_line body;
  e_no_key : Forall (fun l => starts_with key l = false /\ opens_section l = false) body
}.

(** No further line of the section follows. *)
Definition section_ends (after : chars) : Prop :=
  after = [] \/ exists r, after = lit "[" ++ r.

Lemma length_concat_lines ls : Forall full_line ls -> (length ls <= length (concat ls))%nat.
Proof.
  induction 1 as [|l ls Hl _ IH]; [done|]. cbn. rewrite length_app.
  pose proof (full_line_pos l Hl). lia.
Qed.

Lemma bracket_not_skipped section l :
  starts_with (lit "[" ++ section) l = true -> skipped l = false /\ opens_section l = true.
Proof. intros (r & ->)%starts_with_spec. done. Qed.

(** A loop over lines it only passes. *)
Lemma find_section_skip fuel section p ls r :
  Forall full_line ls -> Forall (fun l => starts_with section l = false) ls ->
  find_section (length ls + fuel) section (Stream p (concat ls ++ r) false) =
  find_section fuel section (Stream (p ++ concat ls) r false).
Proof.
  intros Hls. revert p. induction Hls as [|l ls Hl Hls IH]; intros p Hn;
    [cbn; by rewrite app_nil_r|].
  inversion_clear Hn as [|? ? Hl' Hn']. cbn [length concat plus find_section eof].
  rewrite <- app_assoc, next_line_full by done. rewrite str_full, Hl' by done.
  rewrite IH, app_assoc by done. by destruct (skipped l).
Qed.

Lemma read_keys_skip fuel key val found p ls r :
  Forall full_line ls ->
  Forall (fun l => starts_with key l = false /\ opens_section l = false) ls ->
  read_keys (length ls + fuel) key val found (Stream p (concat ls ++ r) false) =
  read_keys fuel key val found (Stream (p ++ concat ls) r false).
Proof.
  intros Hls. revert p. induction Hls as [|l ls Hl Hls IH]; intros p Hn;
    [cbn; by rewrite app_nil_r|].
  inversion_clear Hn as [|? ? [Hk Ho] Hn']. cbn [length concat plus read_keys eof].
  rewrite <- app_assoc, next_line_full by done. rewrite str_full, Hk, Ho by done.
  by rewrite IH, app_assoc by done.
Qed.

Lemma write_key_skip fuel key new p ls r :
  Forall full_line ls ->
  Forall (fun l => starts_with key l = false /\ opens_section l = false) ls ->
  write_key (length ls + fuel) key new (Stream p (concat ls ++ r) false) =
  write_key fuel key new (Stream (p ++ concat ls) r false).
Proof.
  intros Hls. revert p. induction Hls as [|l ls Hl Hls IH]; intros p Hn;
    [cbn; by rewrite app_nil_r|].
  inversion_clear Hn as [|? ? [Hk Ho] Hn']. cbn [length concat plus write_key eof].
  rewrite <- app_assoc, next_line_full by done. rewrite str_full, Hk, Ho by done.
  by rewrite IH, app_assoc by done.
Qed.

Section Entry.
Context (section key : chars) (before : list chars) (s : chars) (body : list chars).
Context (He : entry section key before s body).

Let sect := lit "[" ++ section ++ lit "]".

Lemma entry_name : section_name section = Some sect.
Proof.
  unfold section_name. fold sect. rewrite (proj2 (Nat.leb_gt _ _)); [done|].
  unfold sect. rewrite !length_app. pose proof (e_name _ _ _ _ _ He).
  unfold SECTION_MAX_LEN. cbn. lia.
Qed.

Lemma entry_found r :
  find_section (turns (open (concat before ++ s ++ r))) sect (open (concat before ++ s ++ r)) =
    Some (Some (Stream (concat before ++ s) r false)).
Proof.
  destruct He as [Hb Hnb Hs Ho _ _ _]. fold sect in Hnb, Ho.
  unfold turns, open. cbn [ahead]. pose proof (length_concat_lines before Hb) as Hl.
  replace (S (S (length (concat before ++ s ++ r)))) with
    (length before + S (S (length (concat before ++ s ++ r) - length before)))%nat
    by (rewrite length_app in *; lia).
  rewrite find_section_skip by done. cbn [app find_section eof].
  rewrite next_line_full, str_full, Ho by done.
  by rewrite (proj1 (bracket_not_skipped (section ++ lit "]") s Ho)).
Qed.

(** The turns left when the key's line comes. *)
Lemma body_turns r : exists fuel,
  turns (Stream (concat before ++ s) (concat body ++ r) false) = (length body + S (S fuel))%nat /\
  (length r <= fuel)%nat.
Proof.
  unfold turns. cbn [ahead]. pose proof (length_concat_lines body (e_body _ _ _ _ _ He)).
  exists (length (concat body ++ r) - length body)%nat. rewrite length_app. lia.
Qed.

Lemma entry_write line after val :
  full_line line -> starts_with key line = true ->
  (length (key ++ lit "=" ++ val ++ [LF]) < LINE_CONTENT_MAX_LEN)%nat ->
  writeStringVlaue (Some section) (Some key) (Some val)
      (Some (Some (concat before ++ s ++ concat body ++ line ++ after))) =
    Some (Some (Some (concat before ++ s ++ concat body ++
      overwrite 0 (key ++ lit "=" ++ val ++ [LF]) (line ++ after)))).
Proof.
  intros Hl Hk Hlen. unfold writeStringVlaue. rewrite entry_name. unfold IniWriteValue.
  set (new := key ++ _ ++ _ ++ _) in *. rewrite (proj2 (Nat.leb_gt _ _)) by done.
  rewrite entry_found. destruct (body_turns (line ++ after)) as (fuel & -> & _).
  destruct He as [_ _ _ _ _ Hb Hn]. rewrite write_key_skip by done.
  cbn [write_key eof]. rewrite next_line_full, str_full, Hk by done.
  rewrite fputs_back by (cbn [passed]; rewrite length_app; lia).
  do 3 f_equal. unfold contents. cbn [passed ahead].
  set (q := (concat before ++ s) ++ concat body).
  replace (length (q ++ line) - length line)%nat with (length q) by (rewrite length_app; lia).
  rewrite <- (app_assoc q), overwrite_app. unfold q. by rewrite <- !app_assoc.
Qed.

End Entry.

(** ** The value of a line *)

Definition value_line (key v eol : chars) : chars := key ++ lit "=" ++ v ++ eol.

(** A zeroed array with [w] copied to its start. *)
Definition filled (w : chars) : chars := w ++ replicate (STRVALUE_MAX_LEN - length w) NUL.

Lemma cut_value_none n i line val :
  (forall j, (i <= j < i + n)%nat -> is_end (at_ line j) = false) -> (i + n <= 256)%nat ->
  cut_value n i line val = Some val.
Proof.
  revert i. induction n as [|n IH]; intros i Hj Hi; cbn [cut_value]; [done|].
  rewrite (proj2 (Nat.leb_gt _ _)) by (unfold LINE_CONTENT_MAX_LEN; lia).
  rewrite Hj by lia. apply IH; [|lia]. intros j ?. apply Hj. lia.
Qed.

Lemma at_value u r j :
  forallb value_char u = true -> (j < length u)%nat -> is_end (at_ (u ++ r) j) = false.
Proof.
  intros Hu Hj. unfold at_. rewrite app_nth1 by done.
  pose proof (proj1 (forallb_forall _ _) Hu _ (nth_In u NUL Hj)) as H.
  unfold value_char in H. by destruct (is_end _).
Qed.

Lemma text_filled w :
  forallb (fun c => negb (bool_decide (c = NUL))) w = true -> (length w < STRVALUE_MAX_LEN)%nat ->
  text (filled w) = Some w.
Proof.
  intros Hw Hl. unfold text, filled. 
  destruct (STRVALUE_MAX_LEN - length w)%nat as [|n] eqn:E; [lia|].
  rewrite span_all; [done|done|]. done.
Qed.

Lemma not_end_not_nul c : value_char c = true -> negb (bool_decide (c = NUL)) = true.
Proof. unfold value_char, is_end. by destruct (bool_decide (c = NUL)). Qed.

Lemma forallb_impl {A} (f g : A -> bool) l :
  (forall a, f a = true -> g a = true) -> forallb f l = true -> forallb g l = true.
Proof. intros Hfg Hf. apply forallb_forall. intros a Ha. by apply Hfg, (proj1 (forallb_forall _ _) Hf). Qed.

Lemma value_no_nul v eol :
  forallb value_char v = true -> is_eol eol ->
  forallb (fun c => negb (bool_decide (c = NUL))) (v ++ eol) = true.
Proof.
  intros Hv He. rewrite forallb_app. apply andb_true_iff. split.
  - by apply (forallb_impl value_char); [apply not_end_not_nul|].
  - by destruct He as [-> | ->].
Qed.

Lemma store_value_line key v eol :
  is_key key -> forallb value_char v = true -> is_eol eol ->
  full_line (value_line key v eol) ->
  store_value (value_line key v eol) (S (length key)) (replicate STRVALUE_MAX_LEN NUL) =
    Some (filled (v ++ eol)).
Proof.
  intros (Hk & Hkv & _) Hv Heol Hl. unfold store_value. rewrite str_full by done.
  replace (drop (S (length key)) (value_line key v eol)) with (v ++ eol).
  2:{ unfold value_line. replace (S (length key)) with (length (key ++ lit "="))
        by (rewrite length_app; cbn; lia).
      by rewrite (app_assoc key), drop_app_length. }
  assert (Hlen : (length (v ++ eol) < 255)%nat /\ (length (v ++ eol) <= 1 + length key + length v)%nat).
  { destruct Hl as (_ & _ & _ & Hl). unfold value_line, LINE_CONTENT_MAX_LEN in Hl.
    destruct key; [done|]. destruct Heol as [-> | ->]; rewrite !length_app in *; cbn in *; lia. }
  destruct Hlen as [H1 H2]. rewrite length_replicate, (proj2 (Nat.ltb_ge _ _))
    by (unfold STRVALUE_MAX_LEN; lia).
  rewrite drop_replicate. fold (filled (v ++ eol)).
  rewrite text_filled by (done || apply value_no_nul || unfold STRVALUE_MAX_LEN; done || lia).
  apply cut_value_none; [|lia]. intros j Hj.
  unfold value_line. replace (key ++ lit "=" ++ v ++ eol) with ((key ++ lit "=" ++ v) ++ eol)
    by by rewrite <- !app_assoc.
  apply at_value; [by rewrite !forallb_app, Hkv, Hv|]. rewrite !length_app. cbn. lia.
Qed.

Lemma str_cons c l : c <> NUL -> str (c :: l) = c :: str l.
Proof.
  intros Hc. unfold str. cbn [span]. rewrite bool_decide_eq_false_2 by done. cbn [negb].
  by destruct (span _ l).
Qed.

Lemma key_first_differs key l :
  is_key key -> opens_section l = true -> starts_with key (str l) = false.
Proof.
  intros (Hne & _ & Ho) Hl. destruct key as [|k key]; [done|]. destruct l as [|c l]; [done|].
  unfold opens_section, at_ in *. cbn [nth] in *. apply bool_decide_eq_true in Hl as [= ->].
  rewrite str_cons by done.
  cbn [starts_with]. apply bool_decide_eq_false in Ho.
  rewrite bool_decide_eq_false_2; [done|]. by intros ->.
Qed.

Lemma read_keys_end fuel key val found p after :
  is_key key -> section_ends after ->
  read_keys (S (S fuel)) key val found (Stream p after false) = Some (val, found).
Proof.
  intros Hk [-> | [r ->]]; cbn [read_keys eof].
  - rewrite next_line_end. destruct Hk as (Hne & _). by destruct key.
  - destruct (next_line (Stream p (lit "[" ++ r) false)) as [l fp'] eqn:E.
    assert (Ho : opens_section l = true) by (by injection E as <- _).
    by rewrite key_first_differs, Ho by done.
Qed.

Lemma find_eq_value key v eol :
  find_eq (length (value_line key v eol) - length key) (length key) (value_line key v eol) =
    Some (S (length key)).
Proof.
  replace (length (value_line key v eol) - length key)%nat with (S (length (v ++ eol)))
    by (unfold value_line; rewrite !length_app; cbn; lia).
  cbn [find_eq]. rewrite bool_decide_eq_true_2; [done|]. unfold at_, value_line.
  by rewrite app_nth2, Nat.sub_diag by lia.
Qed.

(** One turn on the key's line. *)
Lemma read_keys_value fuel key v eol found p r :
  is_key key -> forallb value_char v = true -> is_eol eol -> full_line (value_line key v eol) ->
  read_keys (S fuel) key (replicate STRVALUE_MAX_LEN NUL) found
      (Stream p (value_line key v eol ++ r) false) =
    read_keys fuel key (filled (v ++ eol)) true (Stream (p ++ value_line key v eol) r false).
Proof.
  intros Hkey Hv Heol Hl. cbn [read_keys eof]. rewrite next_line_full, str_full by done.
  unfold value_line at 1. rewrite starts_with_app, find_eq_value.
  by rewrite store_value_line.
Qed.

Lemma entry_read section key before s body v eol others after :
  entry section key before s body -> is_key key ->
  forallb value_char v = true -> is_eol eol -> full_line (value_line key v eol) ->
  Forall full_line others ->
  Forall (fun l => starts_with key l = false /\ opens_section l = false) others ->
  section_ends after ->
  readStringValue (Some section) (Some key) (Some (replicate STRVALUE_MAX_LEN NUL))
      (Some (Some (concat before ++ s ++ concat body ++ value_line key v eol ++
                   concat others ++ after))) =
    Some (READ_STR_OK, Some (filled (v ++ eol))).
Proof.
  intros He Hkey Hv Heol Hl Ho Hno Hend. unfold readStringValue.
  rewrite (entry_name _ _ _ _ _ He). unfold IniReadValue.
  rewrite (entry_found _ _ _ _ _ He).
  set (line := value_line key v eol) in *.
  destruct (body_turns _ _ _ _ _ He (line ++ concat others ++ after)) as (fuel & -> & Hfuel).
  pose proof He as [_ _ _ _ _ Hb Hn]. rewrite read_keys_skip by done. unfold line.
  rewrite read_keys_value by done. fold line.
  replace (S fuel) with (length others + S (S (fuel - length others - 1)))%nat.
  2:{ pose proof (length_concat_lines others Ho). pose proof (full_line_pos _ Hl).
      rewrite !length_app in Hfuel. lia. }
  rewrite read_keys_skip by done. by rewrite read_keys_end by done.
Qed.

(** ** Integers of four characters *)

Lemma length_print_left4 z : -999 <= z <= 9999 -> length (print_left4 z) = 4%nat.
Proof.
  intros Hz. unfold print_left4. rewrite length_app, length_replicate.
  assert ((length (print_int z) <= 4)%nat); [|lia].
  unfold print_int, print_nat. destruct (Z.ltb_spec z 0).
  - pose proof (digits_length (S (Z.to_nat (Z.log2 (- z)))) 2 (- z)) as H1.
    cbn [length]. change (10 ^ Z.of_nat 3) with 1000 in H1. lia.
  - pose proof (digits_length (S (Z.to_nat (Z.log2 z))) 3 z) as H1.
    change (10 ^ Z.of_nat 4) with 10000 in H1. lia.
Qed.

Lemma digit_value_char c : isdigit c = true -> value_char c = true.
Proof.
  unfold value_char, is_end. intros Hd.
  assert (H : forall d, isdigit d = false -> bool_decide (c = d) = false).
  { intros d Hd'. apply bool_decide_eq_false_2. intros ->. congruence. }
  by rewrite !H by done.
Qed.

Lemma print_left4_value z : forallb value_char (print_left4 z) = true.
Proof.
  unfold print_left4. rewrite forallb_app. apply andb_true_iff. split.
  - destruct (print_nat_spec (Z.abs z) ltac:(lia)) as (_ & Hd & _).
    pose proof (forallb_impl _ _ _ digit_value_char Hd) as Hv.
    unfold print_int. destruct (Z.ltb_spec z 0).
    + rewrite Z.abs_neq in Hv by lia. cbn [forallb]. by rewrite Hv.
    + by rewrite Z.abs_eq in Hv by lia.
  - by induction (4 - length (print_int z))%nat.
Qed.

Lemma atoi_print_left4 z r :
  - 2 ^ 31 <= z < 2 ^ 31 -> ends_with isdigit r -> atoi (print_left4 z ++ r) = Some z.
Proof.
  intros Hz Hr. unfold atoi, print_left4. rewrite <- app_assoc, scan_print_int.
  - by rewrite bool_decide_eq_true_2.
  - by destruct (4 - length (print_int z))%nat.
Qed.

(** The line of an integer has the same length for every value. *)
Lemma full_int_line key old new :
  -999 <= old <= 9999 -> -999 <= new <= 9999 ->
  full_line (value_line key (print_left4 old) [LF]) ->
  full_line (value_line key (print_left4 new) [LF]).
Proof.
  intros Ho Hn (w & Hw & Hp & Hs). exists (key ++ lit "=" ++ print_left4 new).
  split; [unfold value_line; by rewrite <- !app_assoc|].
  unfold value_line in Hw. rewrite !app_assoc in Hw. apply app_inj_tail in Hw as [<- _].
  split.
  - rewrite !forallb_app in *. repeat (apply andb_true_iff in Hp as [Hp ?]).
    rewrite Hp. cbn. apply (forallb_impl value_char); [|apply print_left4_value].
    intros c. unfold value_char, is_end, plain. destruct (bool_decide (c = NUL)); [done|].
    destruct (bool_decide (c = CR)); [done|]. by destruct (bool_decide (c = LF)).
  - unfold value_line in *. rewrite !length_app in *. rewrite length_print_left4 in * by done.
    done.
Qed.

(** ** Theorems *)

(** C35: reading into a buffer of 256 zero-terminated bytes and writing a line
    that fits end without a bad access on every file, whatever its bytes: the
    buffer keeps its terminator, and the file is as it was or has the new line
    written over the bytes at one position, nothing moved. *)
Theorem ini_total section key val v bytes :
  buffer_ok v -> (length section < 254)%nat ->
  (exists v', readStringValue (Some section) (Some key) (Some v) (Some (Some bytes)) =
     Some (READ_STR_OK, Some v') /\ buffer_ok v') /\
  let new := key ++ lit "=" ++ val ++ [LF] in
  ((length new < 256)%nat ->
   exists bytes', writeStringVlaue (Some section) (Some key) (Some val) (Some (Some bytes)) =
     Some (Some (Some bytes')) /\
     (bytes' = bytes \/ exists p, (p <= length bytes)%nat /\ bytes' = overwrite p new bytes)).
Proof.
  intros Hv Hs.
  assert (Hn : section_name section = Some (lit "[" ++ section ++ lit "]")).
  { unfold section_name. rewrite (proj2 (Nat.leb_gt _ _)); [done|].
    rewrite !length_app. unfold SECTION_MAX_LEN. cbn. lia. }
  destruct (find_section_total (turns (open bytes)) (lit "[" ++ section ++ lit "]") (open bytes)
    (enough_turns _)) as (r & Hr & Hc).
  unfold readStringValue, writeStringVlaue, IniReadValue, IniWriteValue. rewrite Hn, Hr. split.
  - destruct r as [fp|]; [|by eexists].
    destruct (read_keys_total (turns fp) key v false fp (enough_turns fp) Hv)
      as (v' & b & -> & Hv'). by exists v'.
  - set (new := key ++ lit "=" ++ val ++ [LF]). intros Hl.
    rewrite (proj2 (Nat.leb_gt _ _)) by done. destruct r as [fp|]; [|exists bytes; split; [done|by left]].
    destruct (write_key_total (turns fp) key new fp (enough_turns fp)) as (fp' & b & E & H1 & H2).
    rewrite E, Hc in *. change (contents (open bytes)) with bytes in *.
    exists (contents fp'). split; [done|]. destruct b; [right|left]; auto.
Qed.

(** Reading finds the key's line in its section, and in no other one,
    and stores what follows the equals sign together with the line's end: the
    loop that should cut it off tests the characters of the line, not those of
    the value. *)
Theorem ini_read_spec section key before s body v eol others after :
  entry section key before s body -> is_key key ->
  forallb value_char v = true -> is_eol eol -> full_line (value_line key v eol) ->
  Forall full_line others ->
  Forall (fun l => starts_with key l = false /\ opens_section l = false) others ->
  section_ends after ->
  exists val,
    readStringValue (Some section) (Some key) (Some (replicate STRVALUE_MAX_LEN NUL))
      (Some (Some (concat before ++ s ++ concat body ++ value_line key v eol ++
                   concat others ++ after))) = Some (READ_STR_OK, Some val) /\
    text val = Some (v ++ eol).
Proof.
  intros He Hkey Hv Heol Hl Ho Hno Hend. exists (filled (v ++ eol)).
  split; [by apply entry_read|]. apply text_filled; [by apply value_no_nul|].
  destruct Hl as (_ & _ & _ & Hl). unfold value_line in Hl. rewrite !length_app in *.
  unfold STRVALUE_MAX_LEN, LINE_CONTENT_MAX_LEN in *. cbn in Hl. lia.
Qed.

(** Writing replaces the first line of the section that begins with the
    key by writing the new line over it and over what follows, as far as it is
    longer; where it is shorter the end of the old line stays. *)
Theorem ini_write_spec section key before s body line after val :
  entry section key before s body -> full_line line -> starts_with key line = true ->
  let new := key ++ lit "=" ++ val ++ [LF] in
  (length new < 256)%nat ->
  writeStringVlaue (Some section) (Some key) (Some val)
      (Some (Some (concat before ++ s ++ concat body ++ line ++ after))) =
    Some (Some (Some (concat before ++ s ++ concat body ++
      new ++ drop (length new) (line ++ after)))).
Proof. intros He Hl Hk new Hn. by apply (entry_write _ _ _ _ _ He). Qed.

(** C34: an integer of at most four characters written over another one is
    read back, and the rest of the file is as it was. *)
Theorem ini_int_roundtrip section key before s body others after old new :
  entry section key before s body -> is_key key ->
  -999 <= old <= 9999 -> -999 <= new <= 9999 ->
  full_line (value_line key (print_left4 old) [LF]) ->
  Forall full_line others ->
  Forall (fun l => starts_with key l = false /\ opens_section l = false) others ->
  section_ends after ->
  let file z := concat before ++ s ++ concat body ++
    value_line key (print_left4 z) [LF] ++ concat others ++ after in
  writeIntValue (Some section) (Some key) new (Some (Some (file old))) =
    Some (Some (Some (file new))) /\
  readIntValue (Some section) (Some key) (Some (Some (file new))) = Some new.
Proof.
  intros He Hkey Ho Hn Hl Hot Hno Hend file. pose proof (full_int_line key old new Ho Hn Hl) as Hl'.
  assert (Hlen : length (value_line key (print_left4 old) [LF]) =
                 length (value_line key (print_left4 new) [LF])).
  { unfold value_line. by rewrite !length_app, !length_print_left4. }
  split.
  - unfold writeIntValue, file. rewrite (entry_write _ _ _ _ _ He); [|done|..].
    + fold (value_line key (print_left4 new) [LF]). unfold overwrite. cbn [take plus app].
      by rewrite <- Hlen, drop_app_length.
    + apply starts_with_app.
    + fold (value_line key (print_left4 new) [LF]). destruct Hl' as (_ & _ & _ & Hl'). exact Hl'.
  - unfold readIntValue, file. rewrite entry_read by (done || apply print_left4_value || by left).
    cbn [negb Z.eqb READ_STR_OK]. rewrite text_filled.
    + apply atoi_print_left4; [lia|done].
    + apply value_no_nul; [apply print_left4_value|by left].
    + rewrite length_app, length_print_left4 by done. unfold STRVALUE_MAX_LEN. cbn. lia.
Qed.

(** ** A file *)

Definition is_full (w : chars) : bool :=
  forallb plain w && (length (w ++ [LF]) <? LINE_CONTENT_MAX_LEN)%nat.

Lemma is_full_line w : is_full w = true -> full_line (w ++ [LF]).
Proof. intros [Hw Hl%Nat.ltb_lt]%andb_true_iff. by exists w. Qed.

Definition comment_line : chars := lit "; ports of [net]" ++ [LF].
Definition net_line : chars := lit "[net]" ++ [LF].
Definition host_line : chars := lit "host=a" ++ [LF].
Definition log_part : chars := lit "[log]" ++ [LF] ++ lit "port=1".

Lemma net_entry : entry (lit "net") (lit "port") [comment_line] net_line [host_line].
Proof.
  split; try done; repeat constructor; try done; try (by apply is_full_line); cbn; lia.
Qed.

Lemma port_key : is_key (lit "port").
Proof. by split. Qed.

Lemma log_part_ends : section_ends log_part.
Proof. right. by eexists. Qed.

Lemma zeroed_ok : buffer_ok (replicate STRVALUE_MAX_LEN NUL).
Proof. done. Qed.

Definition port_line (v : string) : chars := value_line (lit "port") (lit v) [LF].

Lemma ini_total_witness :
  (exists v', readStringValue (Some (lit "net")) (Some (lit "port"))
     (Some (replicate STRVALUE_MAX_LEN NUL)) (Some (Some log_part)) =
     Some (READ_STR_OK, Some v') /\ buffer_ok v') /\
  exists bytes', writeStringVlaue (Some (lit "log")) (Some (lit "port")) (Some (lit "80"))
    (Some (Some log_part)) = Some (Some (Some bytes')).
Proof.
  split.
  - exact (proj1 (ini_total (lit "net") (lit "port") (lit "80") _ log_part zeroed_ok
      ltac:(by apply Nat.ltb_lt))).
  - destruct (proj2 (ini_total (lit "log") (lit "port") (lit "80") _ log_part zeroed_ok
      ltac:(by apply Nat.ltb_lt)) ltac:(by apply Nat.ltb_lt)) as (b & E & _). by exists b.
Defined.

Lemma ini_read_spec_witness :
  exists val,
    readStringValue (Some (lit "net")) (Some (lit "port")) (Some (replicate STRVALUE_MAX_LEN NUL))
      (Some (Some (concat [comment_line] ++ net_line ++ concat [host_line] ++
        port_line "8080" ++ concat [] ++ log_part))) = Some (READ_STR_OK, Some val) /\
    text val = Some (lit "8080" ++ [LF]).
Proof.
  apply ini_read_spec; [exact net_entry|exact port_key|reflexivity|by left| | | |
    exact log_part_ends]; try constructor.
  exists (lit "port=8080"). split; [reflexivity|]. split; [reflexivity|by apply Nat.ltb_lt].
Defined.

Lemma ini_write_spec_witness :
  writeStringVlaue (Some (lit "net")) (Some (lit "port")) (Some (lit "65535"))
      (Some (Some (concat [comment_line] ++ net_line ++ concat [host_line] ++
        port_line "80" ++ log_part))) =
    Some (Some (Some (concat [comment_line] ++ net_line ++ concat [host_line] ++
      lit "port=65535" ++ [LF] ++ lit "g]" ++ [LF] ++ lit "port=1"))).
Proof.
  apply (ini_write_spec _ _ _ _ _ (port_line "80") log_part (lit "65535") net_entry);
    [|reflexivity|by apply Nat.ltb_lt].
  exists (lit "port=80"). split; [reflexivity|]. split; [reflexivity|by apply Nat.ltb_lt].
Defined.

Lemma ini_int_roundtrip_witness :
  let file z := concat [comment_line] ++ net_line ++ concat [host_line] ++
    value_line (lit "port") (print_left4 z) [LF] ++ concat [] ++ log_part in
  writeIntValue (Some (lit "net")) (Some (lit "port")) 8080 (Some (Some (file 80))) =
    Some (Some (Some (file 8080))) /\
  readIntValue (Some (lit "net")) (Some (lit "port")) (Some (Some (file 8080))) = Some 8080.
Proof.
  apply (ini_int_roundtrip _ _ _ _ _ [] log_part 80 8080 net_entry port_key);
    [lia|lia| | | |exact log_part_ends]; try constructor.
  exists (lit "port=80  "). split; [reflexivity|]. split; [reflexivity|by apply Nat.ltb_lt].
Defined.
