(* ===== verification/Steps.v ===== *)
(** * Steps: runs of programs with several threads

    Invariants by induction on a run, and bounds on its length by a measure. *)
From stdpp Require Import relations.
From S2P Require Import Prelude.

Section Steps.
Context {C : Type} (step : C -> C -> Prop).

(** An invariant holds throughout. *)
Lemma rtc_invariant (P : C -> Prop) c c' :
  (forall a b, P a -> step a b -> P b) -> P c -> rtc step c c' -> P c'.
Proof. intros Hstep Hc Hr. induction Hr as [|a b d Hab _ IH]; eauto. Qed.

(** A measure that every step of the states in [P] lowers bounds a run. *)
Lemma run_bound (P : C -> Prop) (m : C -> Z) :
  (forall a b, P a -> step a b -> P b /\ m b < m a) -> (forall a, P a -> 0 <= m a) ->
  forall n c c', P c -> nsteps step n c c' -> Z.of_nat n <= m c.
Proof.
  intros Hstep Hpos n c c' Hc Hr. cut (Z.of_nat n + m c' <= m c /\ P c').
  { intros [H HP]. specialize (Hpos c' HP). lia. }
  induction Hr as [c|n a b d Hab _ IH]; [split; [lia|done]|].
  destruct (Hstep a b Hc Hab) as [Hb Hlt]. destruct (IH Hb). split; [lia|done].
Qed.

(** States that can always go on until [Q] get there. *)
Lemma run_reaches (P Q : C -> Prop) (m : C -> Z) c :
  (forall a, P a -> 0 <= m a /\ (Q a \/ exists b, step a b /\ P b /\ m b < m a)) ->
  P c -> exists c', rtc step c c' /\ P c' /\ Q c'.
Proof.
  intros Hgo. remember (Z.to_nat (m c)) as n eqn:Hn. revert c Hn.
  induction (lt_wf n) as [n _ IH]. intros c -> Hc.
  destruct (Hgo c Hc) as [H0 [HQ|(b & Hs & Hb & Hlt)]]; [by exists c|].
  destruct (Hgo b Hb) as [Hb0 _].
  destruct (IH (Z.to_nat (m b)) ltac:(lia) b eq_refl Hb) as (d & Hr & Hd).
  exists d. split; [|done]. by apply rtc_l with b.
Qed.

End Steps.

(** Sums over the threads. *)
Fixpoint total {T} (w : T -> Z) (ts : list T) : Z :=
  match ts with [] => 0 | t :: ts => w t + total w ts end.

Lemma total_insert {T} (w : T -> Z) ts i t t' :
  ts !! i = Some t -> total w (<[i := t']> ts) = total w ts - w t + w t'.
Proof.
  revert i. induction ts as [|a ts IH]; intros [|i] Hi; try done.
  - injection Hi as ->. cbn. lia.
  - change (w a + total w (<[i := t']> ts) = w a + total w ts - w t + w t').
    rewrite (IH i Hi). lia.
Qed.

Lemma total_nonneg {T} (w : T -> Z) ts : (forall t, 0 <= w t) -> 0 <= total w ts.
Proof. intros Hw. induction ts as [|t ts IH]; cbn; [lia|]. specialize (Hw t). lia. Qed.

(** The values handed over so far, and the next one. *)
Lemma seqZ_snoc m n : 0 <= n -> seqZ m n ++ [m + n] = seqZ m (n + 1).
Proof. intros Hn. rewrite seqZ_app by lia. by f_equal. Qed.
