(* ===== verification/Tickets.v ===== *)
(** * Tickets: the four ticket windows of [src/mutex_test/mutex_test.c]

    Four threads sell ten tickets under one mutex. A thread is its program
    counter and its variable [a]; a step is a statement, and [tickets--] is a
    read and a write. As in the C library, unlocking the mutex frees it,
    whoever holds it: the program unlocks it once more before a thread ends. *)
From stdpp Require Import relations.
From S2P Require Import Prelude.
From S2P Require Import Steps.

Open Scope C.

(** Where a thread is. *)
Inductive pc :=
  | Lock                 (** [pthread_mutex_lock] *)
  | Test                 (** [if(tickets>0)] *)
  | Load                 (** [tickets--]: the read *)
  | Store (v : Z)        (** and the write *)
  | Show                 (** [printf] *)
  | Unlock               (** [pthread_mutex_unlock] *)
  | Again                (** [if(a == 1) break;] *)
  | Last                 (** the [pthread_mutex_unlock] behind the loop *)
  | Ended.

Record thread := Thread { at_pc : pc; a : bool }.

(** [log] is what was printed: the window and the tickets left. *)
Record config := Config {
  tickets : Z;
  mut : option nat;
  threads : list thread;
  log : list (nat * Z)
}.

(** One statement of window [i]; [None] when the thread waits or has ended. *)
Definition tprocess (i : nat) (c : config) : option config :=
  match threads c !! i with
  | None => None
  | Some t =>
      let goto p := <[i := Thread p (a t)]> (threads c) in
      match at_pc t with
      | Lock =>
          match mut c with
          | Some _ => None
          | None => Some (Config (tickets c) (Some i) (goto Test) (log c))
          end
      | Test =>
          if 0 <? tickets c then Some (Config (tickets c) (mut c) (goto Load) (log c))
          else Some (Config (tickets c) (mut c) (<[i := Thread Unlock true]> (threads c)) (log c))
      | Load => Some (Config (tickets c) (mut c) (goto (Store (tickets c))) (log c))
      | Store v => Some (Config (i32 (v - 1)) (mut c) (goto Show) (log c))
      | Show => Some (Config (tickets c) (mut c) (goto Unlock) (log c ++ [(S i, tickets c)]))
      | Unlock => Some (Config (tickets c) None (goto Again) (log c))
      | Again =>
          Some (Config (tickets c) (mut c) (goto (if a t then Last else Lock)) (log c))
      | Last => Some (Config (tickets c) None (goto Ended) (log c))
      | Ended => None
      end
  end.

(** The four services differ in the number they print. *)
Definition tprocess1 : config -> option config := tprocess 0.
Definition tprocess2 : config -> option config := tprocess 1.
Definition tprocess3 : config -> option config := tprocess 2.
Definition tprocess4 : config -> option config := tprocess 3.

Inductive step : config -> config -> Prop :=
  | step1 c c' : tprocess1 c = Some c' -> step c c'
  | step2 c c' : tprocess2 c = Some c' -> step c c'
  | step3 c c' : tprocess3 c = Some c' -> step c c'
  | step4 c c' : tprocess4 c = Some c' -> step c c'.

(** [main] once the four threads are created. *)
Definition main : config := Config 10 None (replicate 4 (Thread Lock false)) [].

Definition reachable (c : config) : Prop := rtc step main c.

(** [pthread_join] returns for all of them. *)
Definition finished (c : config) : Prop := threads c = replicate 4 (Thread Ended true).

Lemma step_window c c' : step c c' <-> exists i, (i < 4)%nat /\ tprocess i c = Some c'.
Proof.
  split.
  - intros H. destruct H as [c c' H|c c' H|c c' H|c c' H]; [exists 0%nat|exists 1%nat|exists 2%nat|exists 3%nat];
      (split; [lia|exact H]).
  - intros (i & Hi & H). destruct i as [|[|[|[|i]]]]; [by apply step1|by apply step2|
      by apply step3|by apply step4|lia].
Qed.

(** ** The invariant *)

(** What has been printed when [t] tickets are left: 9, 8, ..., [t]. *)
Definition countdown (t : Z) : list Z := (fun k => 9 - k) <$> seqZ 0 (10 - t).

Lemma countdown_next t : t <= 10 -> countdown (t - 1) = countdown t ++ [t - 1].
Proof.
  intros Ht. unfold countdown. replace (10 - (t - 1)) with ((10 - t) + 1) by lia.
  rewrite seqZ_app, fmap_app by lia. f_equal.
  rewrite seqZ_cons, seqZ_nil by lia. cbn. f_equal. lia.
Qed.

(** Nobody has seen that the tickets are sold out: the holder of the mutex, and
    nobody else, is between its lock and its unlock. *)
Definition selling_at (tk : Z) (p : pc) : Prop :=
  match p with
  | Test | Unlock => True
  | Show => tk < 10
  | Load => 0 < tk
  | Store v => v = tk /\ 0 < tk
  | _ => False
  end.

Definition thread_selling (m : option nat) (tk : Z) (i : nat) (t : thread) : Prop :=
  a t = false /\
  if decide (m = Some i) then selling_at tk (at_pc t) else at_pc t = Lock \/ at_pc t = Again.

(** A ticket sold whose line is still to come. *)
Definition pending (c : config) : Z :=
  match mut c ≫= fun i => threads c !! i with
  | Some (Thread Show _) => 1
  | _ => 0
  end.

Record selling (c : config) : Prop := Selling {
  s_four : length (threads c) = 4%nat;
  s_left : 0 <= tickets c <= 10;
  s_threads : forall i t, threads c !! i = Some t -> thread_selling (mut c) (tickets c) i t;
  s_holder : forall i, mut c = Some i -> is_Some (threads c !! i);
  s_log : snd <$> log c = countdown (tickets c + pending c)
}.

(** From then on: exclusion may be lost, but there is nothing left to sell. *)
Definition leaving (t : thread) : Prop :=
  match at_pc t with
  | Lock | Test => a t = false
  | Again => True
  | Unlock | Last | Ended => a t = true
  | _ => False
  end.

Definition inside (p : pc) : bool := match p with Test | Unlock => true | _ => false end.

Record sold_out (c : config) : Prop := SoldOut {
  o_four : length (threads c) = 4%nat;
  o_left : tickets c = 0;
  o_threads : forall i t, threads c !! i = Some t -> leaving t;
  o_holder : forall i, mut c = Some i ->
    exists t, threads c !! i = Some t /\ inside (at_pc t) = true;
  o_log : snd <$> log c = countdown 0
}.

Definition tickets_ok (c : config) : Prop := selling c \/ sold_out c.

(** ** A measure *)

Definition weight (t : thread) : Z :=
  match at_pc t with
  | Lock => 10
  | Test => 9
  | Load => 8
  | Store _ => 7
  | Show => 14
  | Unlock => if a t then 4 else 13
  | Again => if a t then 3 else 12
  | Last => 2
  | Ended => 0
  end.

Definition remaining (c : config) : Z := 8 * tickets c + total weight (threads c).

Lemma weight_nonneg t : 0 <= weight t.
Proof. unfold weight. destruct (at_pc t); try destruct (a t); lia. Qed.

Lemma pending_other c i t t' :
  threads c !! i = Some t -> mut c <> Some i ->
  pending (Config (tickets c) (mut c) (<[i := t']> (threads c)) (log c)) = pending c.
Proof.
  intros Hi Hm. unfold pending. cbn [mut threads].
  destruct (mut c) as [j|]; [|done]. cbn. by rewrite list_lookup_insert_ne by congruence.
Qed.

(** The lines of the holder. *)
Lemma pending_holder tk i ts l t :
  ts !! i = Some t -> pending (Config tk (Some i) ts l) = match at_pc t with Show => 1 | _ => 0 end.
Proof. intros Hi. unfold pending. cbn. rewrite Hi. by destruct t as [[] ?]. Qed.

Lemma pending_set tk i ts l t t' :
  ts !! i = Some t ->
  pending (Config tk (Some i) (<[i := t']> ts) l) = match at_pc t' with Show => 1 | _ => 0 end.
Proof.
  intros Hi. apply pending_holder, list_lookup_insert_eq. by apply lookup_lt_Some in Hi.
Qed.

(** ** Steps while there are tickets *)

Lemma others_wait c i j u m tk :
  selling c -> mut c = None \/ mut c = Some i -> m = None \/ m = Some i ->
  j <> i -> threads c !! j = Some u -> thread_selling m tk j u.
Proof.
  intros Hc Hm Hm' Hj Hu. destruct (s_threads c Hc j u Hu) as [Ha Ht]. split; [done|].
  rewrite decide_False in Ht by (destruct Hm; congruence).
  by rewrite decide_False by (destruct Hm'; congruence).
Qed.

(** The state after a step of a window that holds, takes or frees the mutex. *)
Lemma selling_set c i t t' m tk l :
  selling c -> threads c !! i = Some t -> mut c = None \/ mut c = Some i ->
  m = None \/ m = Some i -> 0 <= tk <= 10 -> thread_selling m tk i t' ->
  snd <$> l =
    countdown (tk + (if decide (m = Some i) then match at_pc t' with Show => 1 | _ => 0 end else 0)) ->
  selling (Config tk m (<[i := t']> (threads c)) l).
Proof.
  intros Hc Hi Hm Hm' Htk Ht Hl. pose proof (lookup_lt_Some _ _ _ Hi) as Hlt.
  constructor; cbn [mut threads tickets log].
  - rewrite length_insert. apply (s_four c Hc).
  - done.
  - intros j u Hu. apply list_lookup_insert_Some in Hu as [(-> & -> & _)|[Hj Hu]]; [done|].
    by apply (others_wait c i j u m tk).
  - intros j Hj. destruct Hm' as [-> | ->]; [done|]. injection Hj as <-.
    rewrite list_lookup_insert_eq by done. by eexists.
  - rewrite Hl. do 2 f_equal. destruct Hm' as [-> | ->]; [done|].
    by rewrite (pending_set tk i _ l t t' Hi), decide_True.
Qed.

Lemma remaining_set c i t t' m tk l :
  threads c !! i = Some t ->
  remaining (Config tk m (<[i := t']> (threads c)) l) =
    remaining c + 8 * (tk - tickets c) - weight t + weight t'.
Proof. intros Hi. unfold remaining. cbn [tickets threads]. rewrite (total_insert _ _ _ _ _ Hi). lia. Qed.

Lemma sell_to_sold_out c i :
  selling c -> mut c = Some i -> threads c !! i = Some (Thread Test false) -> tickets c = 0 ->
  sold_out (Config (tickets c) (mut c) (<[i := Thread Unlock true]> (threads c)) (log c)).
Proof.
  intros Hc Hm Hi Ht. pose proof (lookup_lt_Some _ _ _ Hi) as Hlt.
  constructor; cbn [mut threads tickets log].
  - rewrite length_insert. apply (s_four c Hc).
  - done.
  - intros j u Hu. apply list_lookup_insert_Some in Hu as [(-> & <- & _)|[Hj Hu]]; [done|].
    destruct (s_threads c Hc j u Hu) as [Ha Hp]. rewrite Hm, decide_False in Hp by congruence.
    unfold leaving. by destruct Hp as [-> | ->].
  - intros j Hj. rewrite Hm in Hj. injection Hj as <-.
    exists (Thread Unlock true). split; [by apply list_lookup_insert_eq|done].
  - rewrite (s_log c Hc), Ht. unfold pending. rewrite Hm. cbn. by rewrite Hi.
Qed.

(** The holder's thread. *)
Lemma holder_step c i t c' :
  selling c -> mut c = Some i -> threads c !! i = Some t -> tprocess i c = Some c' ->
  tickets_ok c' /\ remaining c' < remaining c.
Proof.
  intros Hc Hm Hi Hs. unfold tprocess in Hs. rewrite Hi in Hs.
  destruct (s_threads c Hc i t Hi) as [Ha Hp]. rewrite Hm, decide_True in Hp by done.
  pose proof (s_left c Hc) as Htk. pose proof (s_log c Hc) as Hlog.
  destruct c as [tk m ts l]. cbn [mut threads tickets log] in *. subst m.
  rewrite (pending_holder tk i ts l t Hi) in Hlog.
  destruct t as [p b]. cbn in Ha. subst b. cbn [at_pc a] in *.
  set (c := Config tk (Some i) ts l) in *.
  assert (Hset : forall t' m tk' l',
    m = None \/ m = Some i -> 0 <= tk' <= 10 -> thread_selling m tk' i t' ->
    snd <$> l' = countdown (tk' + (if decide (m = Some i)
                                   then match at_pc t' with Show => 1 | _ => 0 end else 0)) ->
    selling (Config tk' m (<[i := t']> ts) l')).
  { intros. eapply (selling_set c); eauto. }
  pose proof (fun t' m tk' l' => remaining_set c i _ t' m tk' l' Hi) as Hrem.
  cbn [tickets threads] in Hrem. change (threads c) with ts in *.
  destruct p; try done; cbn [selling_at] in Hp.
  - destruct (Z.ltb_spec 0 tk); injection Hs as <-; rewrite Hrem; (split; [|cbn; lia]).
    + left. apply Hset; [by right|done| |by rewrite decide_True].
      split; [done|]. by rewrite decide_True.
    + right. apply (sell_to_sold_out c); [done..|]. cbn. lia.
  - injection Hs as <-. rewrite Hrem. split; [|cbn; lia]. left.
    apply Hset; [by right|done| |by rewrite decide_True]. split; [done|]. by rewrite decide_True.
  - injection Hs as <-. rewrite Hrem. destruct Hp as [-> Hp].
    rewrite i32_small by lia. split; [|cbn; lia]. left.
    apply Hset; [by right|lia| |].
    + split; [done|]. rewrite decide_True by done. cbn. lia.
    + rewrite decide_True by done. cbn. rewrite Hlog. f_equal. lia.
  - injection Hs as <-. rewrite Hrem. split; [|cbn; lia]. left.
    apply Hset; [by right|done| |].
    + split; [done|]. by rewrite decide_True.
    + rewrite decide_True, fmap_app, Hlog by done. cbn. rewrite Z.add_0_r.
      rewrite <- (Z.add_simpl_r tk 1) at 2 3. symmetry. apply countdown_next. lia.
  - injection Hs as <-. rewrite Hrem. split; [|cbn; lia]. left.
    apply Hset; [by left|done| |].
    + split; [done|]. rewrite decide_False by done. by right.
    + by rewrite decide_False, Z.add_0_r in * by done.
Qed.

(** A thread that does not hold the mutex takes it, or goes on to its lock. *)
Lemma waiting_step c i t c' :
  selling c -> mut c <> Some i -> threads c !! i = Some t -> tprocess i c = Some c' ->
  tickets_ok c' /\ remaining c' < remaining c.
Proof.
  intros Hc Hm Hi Hs. unfold tprocess in Hs. rewrite Hi in Hs.
  destruct (s_threads c Hc i t Hi) as [Ha Hp]. rewrite decide_False in Hp by done.
  destruct t as [p b]. cbn [at_pc a] in *. subst b.
  destruct Hp as [-> | ->].
  - destruct (mut c) eqn:Em; [done|]. injection Hs as <-.
    rewrite (remaining_set c i _ _ _ _ _ Hi). split; [|cbn; lia]. left.
    eapply (selling_set c); eauto using s_left.
    + split; [done|]. by rewrite decide_True.
    + rewrite decide_True by done. cbn [at_pc]. rewrite (s_log c Hc). unfold pending. by rewrite Em.
  - injection Hs as <-. rewrite (remaining_set c i _ _ _ _ _ Hi). split; [|cbn; lia]. left.
    constructor; cbn [mut threads tickets log].
    + rewrite length_insert. apply (s_four c Hc).
    + apply (s_left c Hc).
    + intros j u Hu. apply list_lookup_insert_Some in Hu as [(-> & <- & _)|[Hj Hu]].
      * split; [done|]. rewrite decide_False by done. by left.
      * by apply (s_threads c Hc).
    + intros j Hj. rewrite list_lookup_insert_ne by congruence. by apply (s_holder c Hc).
    + rewrite (s_log c Hc). by rewrite (pending_other c i _ (Thread Lock false) Hi).
Qed.

(** ** Steps afterwards *)

Lemma sold_out_set c i t t' m :
  sold_out c -> threads c !! i = Some t -> leaving t' ->
  (m = None \/ (m = Some i /\ inside (at_pc t') = true) \/
   (m = mut c /\ (mut c = Some i -> inside (at_pc t') = true))) ->
  sold_out (Config (tickets c) m (<[i := t']> (threads c)) (log c)).
Proof.
  intros Hc Hi Ht Hm. pose proof (lookup_lt_Some _ _ _ Hi) as Hlt.
  constructor; cbn [mut threads tickets log]; [|apply (o_left c Hc)| | |apply (o_log c Hc)].
  - rewrite length_insert. apply (o_four c Hc).
  - intros j u Hu. apply list_lookup_insert_Some in Hu as [(-> & <- & _)|[Hj Hu]]; [done|].
    by apply (o_threads c Hc j).
  - intros j Hj. destruct (decide (j = i)) as [-> | Hne].
    + exists t'. rewrite list_lookup_insert_eq by done. split; [done|].
      destruct Hm as [Hm|[[_ Hm]|[Hm Hin]]]; [congruence|done|]. apply Hin. congruence.
    + rewrite list_lookup_insert_ne by done.
      destruct Hm as [Hm|[[Hm _]|[Hm _]]]; [congruence|congruence|].
      apply (o_holder c Hc). congruence.
Qed.

Lemma sold_out_step c i c' :
  sold_out c -> tprocess i c = Some c' -> sold_out c' /\ remaining c' < remaining c.
Proof.
  intros Hc Hs. unfold tprocess in Hs. destruct (threads c !! i) as [[p b]|] eqn:Hi; [|done].
  pose proof (o_threads c Hc i _ Hi) as Ht. unfold leaving in Ht. cbn [at_pc a] in *.
  assert (Hfree : inside p = false -> mut c <> Some i).
  { intros Hp Hm. destruct (o_holder c Hc i Hm) as (t & Ht' & Hin).
    rewrite Hi in Ht'. injection Ht' as <-. cbn in Hin. congruence. }
  destruct p; try done.
  - destruct (mut c) eqn:Em; [done|]. injection Hs as <-. subst b.
    rewrite (remaining_set c i _ _ _ _ _ Hi). split; [|cbn; lia].
    apply (sold_out_set c i _ _ _ Hc Hi); [done|]. right. by left.
  - rewrite (o_left c Hc) in Hs. cbn in Hs. injection Hs as <-. subst b.
    rewrite <- (o_left c Hc). rewrite (remaining_set c i _ _ _ _ _ Hi). split; [|cbn; lia].
    apply (sold_out_set c i _ _ _ Hc Hi); [done|]. by right; right.
  - injection Hs as <-. subst b. rewrite (remaining_set c i _ _ _ _ _ Hi). split; [|cbn; lia].
    apply (sold_out_set c i _ _ _ Hc Hi); [done|]. by left.
  - injection Hs as <-. rewrite (remaining_set c i _ _ _ _ _ Hi).
    split; [|destruct b; cbn; lia]. apply (sold_out_set c i _ _ _ Hc Hi); [by destruct b|].
    right; right. split; [done|]. intros Hm. by destruct (Hfree eq_refl).
  - injection Hs as <-. subst b. rewrite (remaining_set c i _ _ _ _ _ Hi). split; [|cbn; lia].
    apply (sold_out_set c i _ _ _ Hc Hi); [done|]. by left.
Qed.

Lemma tickets_step c c' : tickets_ok c -> step c c' -> tickets_ok c' /\ remaining c' < remaining c.
Proof.
  intros Hc (i & _ & Hs)%step_window. destruct Hc as [Hc|Hc].
  - destruct (threads c !! i) as [t|] eqn:Hi; [|by unfold tprocess in Hs; rewrite Hi in Hs].
    destruct (decide (mut c = Some i)); [by apply (holder_step c i t)|by apply (waiting_step c i t)].
  - destruct (sold_out_step c i c' Hc Hs). split; [by right|done].
Qed.

Lemma main_selling : selling main.
Proof.
  constructor; try done; cbn.
  intros i t Ht. apply (list_elem_of_lookup_2 (replicate 4 (Thread Lock false)) i),
    elem_of_replicate in Ht as [-> _]. split; [done|]. by left.
Qed.

Lemma tickets_invariant c : reachable c -> tickets_ok c.
Proof.
  apply rtc_invariant; [|by left; apply main_selling].
  intros a b Ha Hs. by apply (tickets_step a b).
Qed.

(** ** No deadlock *)

(** A thread that is not at its lock goes on. *)
Lemma thread_moves i c t :
  threads c !! i = Some t -> at_pc t <> Lock -> at_pc t <> Ended ->
  exists c', tprocess i c = Some c'.
Proof.
  intros Hi Hl He. unfold tprocess. rewrite Hi. destruct t as [p b]. cbn [at_pc] in *.
  destruct p; try done; try by eexists. destruct (0 <? tickets c); by eexists.
Qed.

Lemma lock_moves i c t :
  threads c !! i = Some t -> at_pc t = Lock -> mut c = None -> exists c', tprocess i c = Some c'.
Proof. intros Hi Hl Hm. unfold tprocess. rewrite Hi, Hl, Hm. by eexists. Qed.

Lemma holder_moves i c :
  tickets_ok c -> mut c = Some i -> exists c', tprocess i c = Some c'.
Proof.
  intros [Hc|Hc] Hm.
  - destruct (s_holder c Hc i Hm) as [t Hi]. destruct (s_threads c Hc i t Hi) as [_ Hp].
    rewrite decide_True in Hp by done.
    apply (thread_moves i c t Hi); intros E; by rewrite E in Hp.
  - destruct (o_holder c Hc i Hm) as (t & Hi & Hin).
    apply (thread_moves i c t Hi); intros E; by rewrite E in Hin.
Qed.

Lemma index_step c i c' : tickets_ok c -> tprocess i c = Some c' -> step c c'.
Proof.
  intros Hc Hs. apply step_window. exists i. split; [|done].
  assert (Hl : length (threads c) = 4%nat) by (destruct Hc as [Hc|Hc]; [apply (s_four c Hc)|apply (o_four c Hc)]).
  destruct (threads c !! i) eqn:Hi; [|by unfold tprocess in Hs; rewrite Hi in Hs].
  apply lookup_lt_Some in Hi. lia.
Qed.

Lemma stuck_ended c :
  tickets_ok c -> (forall c', ~ step c c') -> forall i t, threads c !! i = Some t -> at_pc t = Ended.
Proof.
  intros Hc Hst i t Hi.
  assert (Hno : forall j, ~ exists c', tprocess j c = Some c').
  { intros j [c' Hs]. apply (Hst c'). by apply (index_step c j). }
  assert (Hm : mut c = None).
  { destruct (mut c) as [j|] eqn:Hm; [|done]. destruct (Hno j). by apply holder_moves. }
  destruct t as [p b]. destruct p; try done; exfalso; apply (Hno i);
    (by apply (lock_moves i c _ Hi)) || (apply (thread_moves i c _ Hi); discriminate).
Qed.

(** ** Theorems *)

(** The windows whose turns [sched] lists. *)
Fixpoint run (sched : list nat) (c : config) : option config :=
  match sched with
  | [] => Some c
  | i :: sched => match tprocess i c with Some c' => run sched c' | None => None end
  end.

Lemma run_reachable sched c c' : run sched c = Some c' -> tickets_ok c -> rtc step c c'.
Proof.
  revert c. induction sched as [|i sched IH]; intros c; cbn; [by intros [= ->]|].
  destruct (tprocess i c) as [c1|] eqn:E; [|done]. intros Hr Hc.
  pose proof (index_step c i c1 Hc E) as Hs. apply rtc_l with c1; [done|].
  apply IH; [done|]. by apply (tickets_step c c1).
Qed.

(** However the four windows interleave, the tickets sold are announced in
    order, 9 left, 8 left, ..., and never fewer than 0; while a ticket is being
    sold its window alone holds the mutex, although a window that ends unlocks
    a mutex that another one may hold. *)
Theorem tickets_sold_once c :
  reachable c ->
  (exists n, 0 <= n <= tickets c + 1 /\ tickets c <= n /\ snd <$> log c = countdown n) /\
  0 <= tickets c <= 10 /\
  (forall i t, threads c !! i = Some t ->
     (at_pc t = Load \/ (exists v, at_pc t = Store v) \/ at_pc t = Show) -> mut c = Some i) /\
  exists c', reachable c' /\ threads c' !! 0%nat = Some (Thread Last true) /\ mut c' = Some 1%nat.
Proof.
  intros Hr. split; [|split; [|split]].
  - destruct (tickets_invariant c Hr) as [Hc|Hc].
    + exists (tickets c + pending c). pose proof (s_left c Hc). split; [|split; [|apply (s_log c Hc)]];
        unfold pending; destruct (_ ≫= _) as [[[] ?]|]; lia.
    + exists 0. rewrite (o_left c Hc). split; [lia|]. split; [lia|]. apply (o_log c Hc).
  - destruct (tickets_invariant c Hr) as [Hc|Hc]; [apply (s_left c Hc)|rewrite (o_left c Hc); lia].
  - intros i t Hi Hp. destruct (tickets_invariant c Hr) as [Hc|Hc].
    + destruct (s_threads c Hc i t Hi) as [_ Ht]. destruct (decide (mut c = Some i)); [done|].
      destruct Hp as [Hp|[[v Hp]|Hp]]; rewrite Hp in Ht; by destruct Ht.
    + pose proof (o_threads c Hc i t Hi) as Ht. unfold leaving in Ht.
      destruct Hp as [Hp|[[v Hp]|Hp]]; by rewrite Hp in Ht.
  - set (sched := replicate 74 0%nat ++ [1%nat]).
    destruct (run sched main) as [c'|] eqn:E; [|by vm_compute in E].
    exists c'. split; [apply (run_reachable sched); [done|left; apply main_selling]|].
    vm_compute in E. injection E as <-. done.
Qed.

(** C27: every run ends, after at most 120 statements, and only when all four
    windows have left with the ten tickets sold: there is no deadlock. *)
Theorem tickets_all_sold n c :
  nsteps step n main c ->
  Z.of_nat n <= 120 /\
  ((forall c', ~ step c c') ->
   finished c /\ tickets c = 0 /\ snd <$> log c = [9; 8; 7; 6; 5; 4; 3; 2; 1; 0]).
Proof.
  intros Hn. split.
  - apply (run_bound step tickets_ok remaining tickets_step) in Hn;
      [exact Hn| |by left; apply main_selling].
    intros a Ha. unfold remaining. pose proof (total_nonneg weight (threads a) weight_nonneg).
    destruct Ha as [Ha|Ha]; [pose proof (s_left a Ha)|rewrite (o_left a Ha)]; lia.
  - intros Hst. assert (Hc : tickets_ok c) by (apply tickets_invariant, rtc_nsteps; by exists n).
    pose proof (stuck_ended c Hc Hst) as He.
    destruct Hc as [Hc|Hc].
    + exfalso. destruct (lookup_lt_is_Some_2 (threads c) 0) as [t Ht];
        [rewrite (s_four c Hc); lia|].
      destruct (s_threads c Hc 0%nat t Ht) as [_ Hp]. rewrite (He _ _ Ht) in Hp.
      destruct (decide _); [done|by destruct Hp].
    + split; [|split; [apply (o_left c Hc)|rewrite (o_log c Hc); done]].
      unfold finished. pose proof (o_four c Hc) as H4.
      symmetry. apply replicate_as_Forall. split; [done|]. apply Forall_lookup. intros i t Ht.
      pose proof (o_threads c Hc i t Ht) as Hl. unfold leaving in Hl.
      rewrite (He i t Ht) in Hl. pose proof (He i t Ht). destruct t; cbn in *; congruence.
Qed.

(** The first window sells all tickets, then the others find none. *)
Definition one_seller : list nat := replicate 75 0%nat ++ replicate 5 1%nat ++ replicate 5 2%nat ++ replicate 5 3%nat.

Definition after (sched : list nat) : config := default main (run sched main).

Lemma after_reachable sched : run sched main <> None -> reachable (after sched).
Proof.
  unfold after. destruct (run sched main) as [c|] eqn:E; [|done]. intros _.
  apply (run_reachable sched _ _ E). left. apply main_selling.
Qed.

Lemma nothing_left c' : ~ step (after one_seller) c'.
Proof.
  rewrite step_window. intros (i & Hi & H).
  do 4 (destruct i as [|i]; [by vm_compute in H|]). lia.
Qed.

(** Three tickets sold by three windows. *)
Lemma tickets_sold_once_witness :
  let c := after (replicate 7 0%nat ++ replicate 7 3%nat ++ replicate 5 1%nat) in
  log c = [(1%nat, 9); (4%nat, 8); (2%nat, 7)] /\ mut c = Some 1%nat /\ 0 <= tickets c <= 10.
Proof.
  intros c. assert (Hr : reachable c) by (apply after_reachable; by vm_compute).
  split; [by vm_compute|]. split; [by vm_compute|]. exact (proj1 (proj2 (tickets_sold_once c Hr))).
Defined.

Lemma tickets_all_sold_witness :
  exists n c, nsteps step n main c /\ finished c /\ tickets c = 0.
Proof.
  assert (Hr : reachable (after one_seller)) by (apply after_reachable; by vm_compute).
  apply rtc_nsteps in Hr as [n Hn]. exists n, (after one_seller). split; [exact Hn|].
  destruct (tickets_all_sold n _ Hn) as [_ H]. destruct (H nothing_left) as (H1 & H2 & _). by split.
Defined.
