(* ===== verification/Semaphore.v ===== *)
(** * Semaphore: producer and customer of [src/semaphore_test/sem_test.c]

    Two threads hand ten values over through one place under the semaphores
    [put] and [get]. The place is [buff[1]] of an array [buff[1]]: past its
    end, so the program's first access to it is undefined. What the threads'
    protocol is worth shows over an array with the second element. *)
From stdpp Require Import relations.
From S2P Require Import Prelude.
From S2P Require Import Steps.

Open Scope C.

(** [static int buff[1]={0};] *)
Definition buff : list Z := [0].

Inductive producer_pc :=
  | SemWaitPut   (** [sem_wait(&put)] *)
  | Put          (** [buff[1]=i] and the [printf] *)
  | SemPostGet   (** [sem_post(&get)] *)
  | PExit.

Inductive customer_pc :=
  | SemWaitGet
  | Get          (** [value=buff[1]] and the [printf] *)
  | SemPostPut
  | CExit.

(** [printed] are the values the customer got. *)
Record config := Config {
  put : Z; get : Z; array : list Z;
  producer : producer_pc; i_p : Z;
  customer : customer_pc; i_c : Z;
  printed : list Z
}.

(** What a thread's statement does: it waits (or the thread has ended), it
    accesses the array past its end, or it goes on. *)
Inductive outcome := Blocked | OutOfBounds | Goes (c : config).

(** The loops end with [i] above 10. *)
Definition producer_signal (c : config) : outcome :=
  match producer c with
  | SemWaitPut =>
      if 10 <? i_p c then
        Goes (Config (put c) (get c) (array c) PExit (i_p c) (customer c) (i_c c) (printed c))
      else if put c =? 0 then Blocked
      else Goes (Config (put c - 1) (get c) (array c) Put (i_p c) (customer c) (i_c c) (printed c))
  | Put =>
      if (1 <? length (array c))%nat then
        Goes (Config (put c) (get c) (<[1%nat := i_p c]> (array c)) SemPostGet (i_p c)
                (customer c) (i_c c) (printed c))
      else OutOfBounds
  | SemPostGet =>
      Goes (Config (put c) (get c + 1) (array c) SemWaitPut (i_p c + 1) (customer c) (i_c c)
              (printed c))
  | PExit => Blocked
  end.

Definition customer_signal (c : config) : outcome :=
  match customer c with
  | SemWaitGet =>
      if 10 <? i_c c then
        Goes (Config (put c) (get c) (array c) (producer c) (i_p c) CExit (i_c c) (printed c))
      else if get c =? 0 then Blocked
      else Goes (Config (put c) (get c - 1) (array c) (producer c) (i_p c) Get (i_c c) (printed c))
  | Get =>
      match array c !! 1%nat with
      | Some value =>
          Goes (Config (put c) (get c) (array c) (producer c) (i_p c) SemPostPut (i_c c)
                  (printed c ++ [value]))
      | None => OutOfBounds
      end
  | SemPostPut =>
      Goes (Config (put c + 1) (get c) (array c) (producer c) (i_p c) SemWaitGet (i_c c + 1)
              (printed c))
  | CExit => Blocked
  end.

Inductive step : config -> config -> Prop :=
  | step_producer c c' : producer_signal c = Goes c' -> step c c'
  | step_customer c c' : customer_signal c = Goes c' -> step c c'.

(** [signal_init] and the creation of the threads, over the array [b]. *)
Definition with_array (b : list Z) : config := Config 1 0 b SemWaitPut 1 SemWaitGet 1 [].

Definition signal_init : config := with_array buff.

(** Both [pthread_join]s return. *)
Definition joined (c : config) : Prop := producer c = PExit /\ customer c = CExit.

(** ** The invariant

    [n] values have been printed; the place is free, taken, or between. *)

Inductive phase :=
  | Free        (** the producer may take [put] *)
  | Writing | Written
  | Full        (** the customer may take [get] *)
  | Reading | ReadDone.

(** Where the threads are in a phase, and the counters. *)
Definition phase_ok (n : Z) (ph : phase) (c : config) : Prop :=
  match ph with
  | Free => put c = 1 /\ get c = 0 /\ i_p c = n + 1 /\ i_c c = n + 1 /\
      (producer c = SemWaitPut \/ producer c = PExit /\ n = 10) /\
      (customer c = SemWaitGet \/ customer c = CExit /\ n = 10)
  | Writing => put c = 0 /\ get c = 0 /\ i_p c = n + 1 /\ i_c c = n + 1 /\ n < 10 /\
      producer c = Put /\ customer c = SemWaitGet
  | Written => put c = 0 /\ get c = 0 /\ i_p c = n + 1 /\ i_c c = n + 1 /\ n < 10 /\
      producer c = SemPostGet /\ customer c = SemWaitGet /\ array c !! 1%nat = Some (n + 1)
  | Full => put c = 0 /\ get c = 1 /\ i_p c = n + 2 /\ i_c c = n + 1 /\ n < 10 /\
      (producer c = SemWaitPut \/ producer c = PExit /\ n = 9) /\ customer c = SemWaitGet /\
      array c !! 1%nat = Some (n + 1)
  | Reading => put c = 0 /\ get c = 0 /\ i_p c = n + 2 /\ i_c c = n + 1 /\ n < 10 /\
      (producer c = SemWaitPut \/ producer c = PExit /\ n = 9) /\ customer c = Get /\
      array c !! 1%nat = Some (n + 1)
  | ReadDone => put c = 0 /\ get c = 0 /\ i_p c = n + 1 /\ i_c c = n /\ 0 < n /\
      (producer c = SemWaitPut \/ producer c = PExit /\ n = 10) /\ customer c = SemPostPut
  end.

Record handing (c : config) : Prop := Handing {
  h_room : (1 < length (array c))%nat;
  h_state : exists n ph, 0 <= n <= 10 /\ phase_ok n ph c /\ printed c = seqZ 1 n
}.

(** The statements still to come. *)
Definition remaining (c : config) : Z :=
  3 * (11 - i_p c) + 3 * (11 - i_c c) +
  match producer c with SemWaitPut => 1 | Put => 0 | SemPostGet => -1 | PExit => 0 end +
  match customer c with SemWaitGet => 1 | Get => 0 | SemPostPut => -1 | CExit => 0 end.

Ltac facts := repeat match goal with
  | H : _ /\ _ |- _ => destruct H
  | H : _ \/ _ |- _ => destruct H
  end.

Ltac fields :=
  cbn [phase_ok put get array producer i_p customer i_c printed].

Ltac phase_facts := split_and!;
  first [lia|reflexivity|assumption|by left|right; split; [reflexivity|lia]|
         by apply list_lookup_insert_eq].

(** The state after a statement is in phase [ph], with [n] values printed. *)
Ltac enter n ph :=
  split; [split; [cbn [array]; rewrite ?length_insert; done|
    exists n, ph; split; [lia|split; [fields; phase_facts|fields; done]]]|unfold remaining; fields; lia].

(** One phase follows another. *)
Lemma producer_step c c' :
  handing c -> producer_signal c = Goes c' -> handing c' /\ remaining c' < remaining c.
Proof.
  intros [Hr (n & ph & Hn & Hph & Hl)] Hs. unfold producer_signal in Hs.
  destruct c as [pu ge ar pr ip cu ic out].
  cbn [put get array producer i_p customer i_c printed] in *.
  destruct ph; cbn in Hph; facts; subst pu ge ip ic pr cu; try done; cbv beta iota in Hs.
  all: repeat match type of Hs with context [10 <? ?x] => destruct (Z.ltb_spec 10 x)
              | context [?x =? 0] => destruct (Z.eqb_spec x 0) end;
    try (rewrite (proj2 (Nat.ltb_lt _ _) Hr) in Hs); try done; injection Hs as <-.
  all: first [enter n Free|enter n Writing|enter n Written|enter n Full|enter n Reading|
              enter n ReadDone].
Qed.

Lemma printed_next n : 0 <= n -> seqZ 1 n ++ [n + 1] = seqZ 1 (n + 1).
Proof. intros Hn. rewrite <- seqZ_snoc by done. do 2 f_equal. lia. Qed.

Lemma customer_step c c' :
  handing c -> customer_signal c = Goes c' -> handing c' /\ remaining c' < remaining c.
Proof.
  intros [Hr (n & ph & Hn & Hph & Hl)] Hs. unfold customer_signal in Hs.
  destruct c as [pu ge ar pr ip cu ic out].
  cbn [put get array producer i_p customer i_c printed] in *.
  destruct ph; cbn in Hph; facts; subst pu ge ip ic pr cu; try done; cbv beta iota in Hs.
  all: repeat match type of Hs with context [10 <? ?x] => destruct (Z.ltb_spec 10 x)
              | context [?x =? 0] => destruct (Z.eqb_spec x 0)
              | context [?l !! 1%nat] => destruct (l !! 1%nat) eqn:? end;
    try done; injection Hs as <-.
  all: first [enter n Free|enter n Full|enter n Reading|idtac].
  all: match goal with H : Some _ = Some _ |- _ => injection H as -> end;
    subst out; pose proof (printed_next n ltac:(lia)) as Hp; enter (n + 1) ReadDone.
Qed.

Lemma handing_step c c' : handing c -> step c c' -> handing c' /\ remaining c' < remaining c.
Proof.
  intros Hc Hs. destruct Hs as [c c' Hs|c c' Hs]; [by apply producer_step|by apply customer_step].
Qed.

Lemma sem_remaining_nonneg c : handing c -> 0 <= remaining c.
Proof.
  intros [_ (n & ph & Hn & Hph & _)]. destruct c as [pu ge ar pr ip cu ic out].
  destruct ph; unfold remaining; cbn in Hph; facts; subst pu ge ip ic pr cu; fields; lia.
Qed.

Lemma init_handing b : (1 < length b)%nat -> handing (with_array b).
Proof. intros Hb. split; [done|]. exists 0, Free. split; [lia|]. split; [fields; phase_facts|done]. Qed.

(** Nothing is out of bounds, and a state where both threads wait is the end. *)
Lemma handing_goes c :
  handing c ->
  producer_signal c <> OutOfBounds /\ customer_signal c <> OutOfBounds /\
  ((forall c', ~ step c c') -> joined c /\ printed c = seqZ 1 10).
Proof.
  intros [Hr (n & ph & Hn & Hph & Hl)].
  assert (Hst : (forall c', ~ step c c') ->
    (forall c', producer_signal c <> Goes c') /\ (forall c', customer_signal c <> Goes c')).
  { intros H. split; intros c' E; apply (H c'); [by apply step_producer|by apply step_customer]. }
  destruct c as [pu ge ar pr ip cu ic out].
  cbn [put get array producer i_p customer i_c printed] in *.
  unfold producer_signal, customer_signal, joined in *.
  cbn [put get array producer i_p customer i_c printed] in *.
  rewrite (proj2 (Nat.ltb_lt _ _) Hr) in *.
  destruct ph; cbn in Hph; facts; subst pu ge ip ic pr cu; cbv beta iota in *.
  all: repeat match goal with |- context [10 <? ?x] => destruct (Z.ltb_spec 10 x)
              | |- context [?x =? 0] => destruct (Z.eqb_spec x 0)
              | |- context [?l !! 1%nat] => destruct (l !! 1%nat) eqn:? end;
    try done; try lia; (split; [done|split; [done|]]); intros Hno.
  all: try (destruct (Hst Hno) as [H1 H2]; first [by destruct (H1 _ eq_refl)|by destruct (H2 _ eq_refl)]).
  all: try (replace n with 10 in * by lia; done).
Qed.

(** ** Theorems *)

(** The protocol over an array with the second element: the customer gets 1,
    2, ... in order without loss or repetition whatever the interleaving, every
    run ends after at most 62 statements, and only with all ten values handed
    over and both threads ended. *)
Theorem semaphores_hand_over b n c :
  (1 < length b)%nat -> nsteps step n (with_array b) c ->
  Z.of_nat n <= 62 /\
  (exists k, 0 <= k <= 10 /\ printed c = seqZ 1 k) /\
  producer_signal c <> OutOfBounds /\ customer_signal c <> OutOfBounds /\
  ((forall c', ~ step c c') -> joined c /\ printed c = seqZ 1 10).
Proof.
  intros Hb Hn. pose proof (init_handing b Hb) as Hi.
  assert (Hc : handing c).
  { apply (rtc_invariant step handing (with_array b)); [|done|apply rtc_nsteps; by exists n].
    intros x y Hx Hs. by apply (handing_step x y). }
  split; [exact (run_bound step handing remaining handing_step sem_remaining_nonneg n _ c Hi Hn)|].
  split; [|by apply handing_goes].
  destruct Hc as [_ (k & ph & Hk & _ & Hl)]. by exists k.
Qed.

(** The state behind the producer's [sem_wait]. *)
Definition about_to_put : config := Config 0 0 buff Put 1 SemWaitGet 1 [].

Lemma first_step c : step signal_init c <-> c = about_to_put.
Proof.
  split; [|intros ->; by apply step_producer]. intros Hs. inversion Hs as [x y E|x y E]; subst; [by injection E|done].
Qed.

Lemma no_second_step c : ~ step about_to_put c.
Proof. intros Hs. inversion Hs as [x y E|x y E]; subst; done. Qed.

(** C36: The program's array has one element, and no run of the program hands a
    value over: exactly one statement can be made, the producer's [sem_wait]; its
    next statement writes behind the array's end, while the customer waits for
    [get] from the beginning and nothing is ever printed. *)
Theorem semaphore_out_of_bounds n c :
  nsteps step n signal_init c ->
  (n = 0%nat /\ producer_signal c = Goes about_to_put \/ n = 1%nat /\ producer_signal c = OutOfBounds) /\
  customer_signal c = Blocked /\ printed c = [] /\ ~ joined c.
Proof.
  assert (Hj : forall d, customer d = SemWaitGet -> ~ joined d) by (intros d Hd [_ H]; congruence).
  intros Hn. inversion Hn as [|n1 a b d Hs Hr]; subst; [split_and!; [by left|done|done|by apply Hj]|].
  apply first_step in Hs as ->. inversion Hr as [|n2 a b d Hs Hr2]; subst.
  - split_and!; [by right|done|done|by apply Hj].
  - by apply no_second_step in Hs.
Qed.

Lemma semaphore_out_of_bounds_witness :
  nsteps step 1 signal_init about_to_put /\ producer_signal about_to_put = OutOfBounds.
Proof.
  assert (Hn : nsteps step 1 signal_init about_to_put) by (apply nsteps_once, first_step; reflexivity).
  split; [exact Hn|]. destruct (semaphore_out_of_bounds 1 _ Hn) as [[[H _]|[_ H]] _]; [discriminate H|exact H].
Defined.
