(* ===== verification/Condition.v ===== *)
(** * Condition: producer and consumers of [src/pthread_cond_test/cond_test.c]

    A producer hands 99 numbers over to two consumers through one buffer, with
    a mutex and two condition variables. A thread is its program counter and
    its loop variable; waiting on a condition gives up the mutex and queues
    the thread in one step, and a woken thread takes the mutex again before it
    repeats the test of its [while]. *)
From stdpp Require Import relations.
From S2P Require Import Prelude.
From S2P Require Import Steps.

Open Scope C.

Definition MAX : Z := 100.

Inductive pc :=
  | Lock      (** the test of the [for], [pthread_mutex_lock] *)
  | While     (** the test of the [while] and [pthread_cond_wait] *)
  | Waiting   (** in [pthread_cond_wait], not woken *)
  | Woken     (** in [pthread_cond_wait], about to take the mutex *)
  | Work      (** the buffer is filled or emptied, and the [printf] *)
  | Notify    (** [pthread_cond_broadcast] or [pthread_cond_signal] *)
  | Unlock    (** [pthread_mutex_unlock] *)
  | End.

#[global] Instance pc_eq_dec : EqDecision pc.
Proof. solve_decision. Defined.

Record thread := Thread { at_pc : pc; i : Z }.

(** The mutex is held by the producer, 0, or by a consumer, 1 or 2; [eaten] is
    what the consumers printed. *)
Record config := Config {
  the_mutex : option nat;
  buffer : Z;
  pro : thread;
  con : list thread;
  eaten : list (nat * Z)
}.

Definition wake (t : thread) : thread :=
  match at_pc t with Waiting => Thread Woken (i t) | _ => t end.

Definition producer (c : config) : option config :=
  let t := pro c in
  let m := the_mutex c in
  let goto p := Thread p (i t) in
  match at_pc t with
  | Lock =>
      if i t <? MAX then
        match m with
        | None => Some (Config (Some 0%nat) (buffer c) (goto While) (con c) (eaten c))
        | Some _ => None
        end
      else Some (Config m (buffer c) (goto End) (con c) (eaten c))
  | While =>
      if negb (buffer c =? 0) then Some (Config None (buffer c) (goto Waiting) (con c) (eaten c))
      else Some (Config m (buffer c) (goto Work) (con c) (eaten c))
  | Waiting => None
  | Woken =>
      match m with
      | None => Some (Config (Some 0%nat) (buffer c) (goto While) (con c) (eaten c))
      | Some _ => None
      end
  | Work => Some (Config m (u32 (i t)) (goto Notify) (con c) (eaten c))
  | Notify => Some (Config m (buffer c) (goto Unlock) (wake <$> con c) (eaten c))
  | Unlock => Some (Config None (buffer c) (Thread Lock (i t + 1)) (con c) (eaten c))
  | End => None
  end.

(** The function of both consumers; [k] is 0 for the first one. *)
Definition consumer (k : nat) (c : config) : option config :=
  match con c !! k with
  | None => None
  | Some t =>
      let m := the_mutex c in
      let goto p := <[k := Thread p (i t)]> (con c) in
      match at_pc t with
      | Lock =>
          if i t <? MAX then
            match m with
            | None => Some (Config (Some (S k)) (buffer c) (pro c) (goto While) (eaten c))
            | Some _ => None
            end
          else Some (Config m (buffer c) (pro c) (goto End) (eaten c))
      | While =>
          if buffer c =? 0 then Some (Config None (buffer c) (pro c) (goto Waiting) (eaten c))
          else Some (Config m (buffer c) (pro c) (goto Work) (eaten c))
      | Waiting => None
      | Woken =>
          match m with
          | None => Some (Config (Some (S k)) (buffer c) (pro c) (goto While) (eaten c))
          | Some _ => None
          end
      | Work =>
          Some (Config m 0 (pro c) (goto Notify) (eaten c ++ [(S k, buffer c)]))
      | Notify => Some (Config m (buffer c) (wake (pro c)) (goto Unlock) (eaten c))
      | Unlock =>
          Some (Config None (buffer c) (pro c) (<[k := Thread Lock (i t + 1)]> (con c)) (eaten c))
      | End => None
      end
  end.

Definition consumer1 : config -> option config := consumer 0.
Definition consumer2 : config -> option config := consumer 1.

Inductive step : config -> config -> Prop :=
  | step_producer c c' : producer c = Some c' -> step c c'
  | step_consumer1 c c' : consumer1 c = Some c' -> step c c'
  | step_consumer2 c c' : consumer2 c = Some c' -> step c c'.

(** [pthread_cond_wait] may return without a signal. *)
Inductive spurious : config -> config -> Prop :=
  | spurious_producer c :
      spurious c (Config (the_mutex c) (buffer c) (wake (pro c)) (con c) (eaten c))
  | spurious_consumer c k t :
      con c !! k = Some t ->
      spurious c (Config (the_mutex c) (buffer c) (pro c) (<[k := wake t]> (con c)) (eaten c)).

Definition main : config :=
  Config None 0 (Thread Lock 1) [Thread Lock 1; Thread Lock 1] [].

Definition reachable (c : config) : Prop := rtc (fun a b => step a b \/ spurious a b) main c.

(** ** The invariant *)

Definition in_section (p : pc) : bool :=
  match p with While | Work | Notify | Unlock => true | _ => false end.

(** The turns of its loop whose work a thread has done. *)
Definition turns_done (t : thread) : Z :=
  match at_pc t with Notify | Unlock => i t | _ => i t - 1 end.

Definition produced (c : config) : Z := turns_done (pro c).
Definition consumed (c : config) : Z := total turns_done (con c).

Record thread_ok (m : option nat) (j : nat) (t : thread) : Prop := ThreadOk {
  t_turns : 1 <= i t <= MAX;
  t_end : at_pc t = End -> i t = MAX;
  t_inside : at_pc t <> End -> at_pc t <> Lock -> i t < MAX;
  t_mutex : in_section (at_pc t) = true <-> m = Some j
}.

Record shared_ok (c : config) : Prop := SharedOk {
  k_two : length (con c) = 2%nat;
  k_pro : thread_ok (the_mutex c) 0 (pro c);
  k_con : forall k t, con c !! k = Some t -> thread_ok (the_mutex c) (S k) t;
  k_holder : forall k, the_mutex c = Some (S k) -> is_Some (con c !! k);
  k_buffer : buffer c = 0 /\ consumed c = produced c \/
             buffer c = produced c /\ 1 <= produced c /\ consumed c = produced c - 1;
  k_filling : at_pc (pro c) = Work -> buffer c = 0;
  k_emptying : forall k t, con c !! k = Some t -> at_pc t = Work -> buffer c <> 0;
  k_pro_waits : at_pc (pro c) = Waiting -> buffer c = 0 ->
    exists k t, con c !! k = Some t /\ at_pc t = Notify;
  k_con_waits : forall k t, con c !! k = Some t -> at_pc t = Waiting -> buffer c <> 0 ->
    at_pc (pro c) = Notify;
  k_eaten : snd <$> eaten c = seqZ 1 (consumed c)
}.

(** ** A measure *)

Definition pro_weight (t : thread) : Z :=
  match at_pc t with
  | Lock | Woken => 3 | While => 2 | Work => 1 | Notify => 11 | Unlock => 4 | Waiting | End => 0
  end.
Definition con_weight (t : thread) : Z :=
  match at_pc t with
  | Lock | Woken => 3 | While => 2 | Work => 1 | Notify => 8 | Unlock => 4 | Waiting | End => 0
  end.

Definition remaining (c : config) : Z :=
  11 * (99 - produced c) + 8 * (99 - consumed c) + pro_weight (pro c) + total con_weight (con c).

Lemma thread_ok_mutex m m' j t :
  thread_ok m j t -> (m' = Some j <-> m = Some j) -> thread_ok m' j t.
Proof. intros [H1 H2 H3 H4] Hm. split; [done..|]. by rewrite Hm. Qed.

Lemma holds m j t : thread_ok m j t -> in_section (at_pc t) = true -> m = Some j.
Proof. intros Ht. apply (t_mutex m j t Ht). Qed.

(** Two threads are not in their sections together. *)
Lemma excluded c k t :
  shared_ok c -> con c !! k = Some t -> in_section (at_pc t) = true -> the_mutex c = Some (S k).
Proof. intros Hc Hk. apply (holds _ _ t), (k_con c Hc k t Hk). Qed.

(** ** Steps of the producer *)

Lemma producer_set c t' m b :
  shared_ok c -> thread_ok m 0 t' ->
  (forall k, m = Some (S k) <-> the_mutex c = Some (S k)) ->
  (b = 0 /\ consumed c = turns_done t' \/
   b = turns_done t' /\ 1 <= turns_done t' /\ consumed c = turns_done t' - 1) ->
  (at_pc t' = Work -> b = 0) ->
  (forall k t, con c !! k = Some t -> at_pc t = Work -> b <> 0) ->
  (at_pc t' = Waiting -> b = 0 -> exists k t, con c !! k = Some t /\ at_pc t = Notify) ->
  (forall k t, con c !! k = Some t -> at_pc t = Waiting -> b <> 0 -> at_pc t' = Notify) ->
  shared_ok (Config m b t' (con c) (eaten c)).
Proof.
  intros Hc Ht Hm Hb Hw Hcw Hpw Hcn. split; cbn [the_mutex buffer pro con eaten]; try done.
  - apply (k_two c Hc).
  - intros k t Hk. apply (thread_ok_mutex (the_mutex c)); [by apply (k_con c Hc)|apply Hm].
  - intros k Hk. apply (k_holder c Hc). by apply Hm.
  - apply (k_eaten c Hc).
Qed.

(** The producer moves within its turn and leaves the buffer as it is. *)
Lemma producer_goto c p m :
  shared_ok c -> at_pc (pro c) <> Notify -> at_pc (pro c) <> Unlock ->
  turns_done (Thread p (i (pro c))) = turns_done (pro c) ->
  thread_ok m 0 (Thread p (i (pro c))) ->
  (forall k, m = Some (S k) <-> the_mutex c = Some (S k)) ->
  (p = Work -> buffer c = 0) -> (p = Waiting -> buffer c <> 0) ->
  shared_ok (Config m (buffer c) (Thread p (i (pro c))) (con c) (eaten c)).
Proof.
  intros Hc Hn Hu Ht Hok Hm Hw Hwait. apply producer_set; try done.
  - rewrite Ht. apply (k_buffer c Hc).
  - apply (k_emptying c Hc).
  - intros E H0. by apply Hwait in E.
  - intros k t Hk Hp H0. by apply (k_con_waits c Hc k t) in Hp.
Qed.

Lemma con_wake (k : nat) (ts : list thread) t : (wake <$> ts) !! k = Some t ->
  exists t0, ts !! k = Some t0 /\ t = wake t0.
Proof. rewrite list_lookup_fmap. destruct (ts !! k); [|done]. intros [= <-]. by eexists. Qed.

Lemma wake_turns t : turns_done (wake t) = turns_done t.
Proof. by destruct t as [[] ?]. Qed.

Lemma wake_not_waiting t : at_pc (wake t) <> Waiting.
Proof. by destruct t as [[] ?]. Qed.

Lemma wake_pc t p : at_pc (wake t) = p -> p <> Woken -> at_pc t = p.
Proof. destruct t as [[] ?]; cbn; congruence. Qed.

Lemma wake_ok m j t : thread_ok m j t -> thread_ok m j (wake t).
Proof. destruct t as [[] n]; try done. intros [H1 H2 H3 H4]. by split; cbn in *; auto. Qed.

Lemma total_wake ts : total turns_done (wake <$> ts) = total turns_done ts.
Proof. induction ts as [|t ts IH]; [done|]. cbn. by rewrite wake_turns, IH. Qed.

Lemma wake_weights ts : total con_weight (wake <$> ts) <= total con_weight ts + 3 * Z.of_nat (length ts).
Proof.
  induction ts as [|t ts IH]; [cbn; lia|].
  change (con_weight (wake t) + total con_weight (wake <$> ts) <=
          con_weight t + total con_weight ts + 3 * Z.of_nat (S (length ts))).
  assert (con_weight (wake t) <= con_weight t + 3) by (destruct t as [[] ?]; cbn; lia). lia.
Qed.

Lemma broadcast_ok c :
  shared_ok c -> at_pc (pro c) = Notify ->
  shared_ok (Config (the_mutex c) (buffer c) (Thread Unlock (i (pro c))) (wake <$> con c) (eaten c)).
Proof.
  intros Hc Hp. pose proof (k_pro c Hc) as [H1 H2 H3 H4]. rewrite Hp in *.
  split; cbn [the_mutex buffer pro con eaten].
  - rewrite length_fmap. apply (k_two c Hc).
  - split; cbn; try done. intros _ _. by apply H3.
  - intros k t (t0 & Hk & ->)%con_wake. by apply wake_ok, (k_con c Hc).
  - intros k Hk. rewrite list_lookup_fmap. by destruct (k_holder c Hc k Hk) as [t ->].
  - unfold consumed, produced. cbn [con pro]. rewrite total_wake.
    pose proof (k_buffer c Hc) as Hb. unfold consumed, produced, turns_done in *.
    rewrite Hp in Hb. exact Hb.
  - done.
  - intros k t (t0 & Hk & ->)%con_wake Hw. apply wake_pc in Hw; [|done].
    by apply (k_emptying c Hc k t0).
  - done.
  - intros k t (t0 & Hk & ->)%con_wake Hw. by destruct (wake_not_waiting t0).
  - unfold consumed. cbn [con]. rewrite total_wake. apply (k_eaten c Hc).
Qed.

Lemma producer_remaining c m b t' :
  remaining (Config m b t' (con c) (eaten c)) =
    remaining c + 11 * (turns_done (pro c) - turns_done t') + pro_weight t' - pro_weight (pro c).
Proof. unfold remaining, produced, consumed. cbn [con pro]. lia. Qed.

Lemma none_other c j :
  the_mutex c = Some j -> forall k, k <> j -> None = Some k <-> the_mutex c = Some k.
Proof. intros -> k Hk. split; congruence. Qed.

Lemma producer_ok c c' :
  shared_ok c -> producer c = Some c' -> shared_ok c' /\ remaining c' < remaining c.
Proof.
  intros Hc Hs. unfold producer in Hs. pose proof (k_pro c Hc) as [H1 H2 H3 H4].
  pose proof (fun p m => producer_goto c p m Hc) as Hgo.
  destruct (pro c) as [p n] eqn:Epro. cbn [at_pc i] in *.
  pose proof (k_buffer c Hc) as Hb. unfold produced in Hb. rewrite Epro in Hb.
  unfold MAX in *. destruct p; try done.
  - destruct (Z.ltb_spec n 100).
    + destruct (the_mutex c) eqn:Em; [done|]. injection Hs as <-.
      rewrite producer_remaining, Epro. split; [|cbn; lia]. apply Hgo; try done; try (by split; cbn; unfold MAX; auto with lia).
    + injection Hs as <-. rewrite producer_remaining, Epro. split; [|cbn; lia]. apply Hgo; try done;
      try (by split; cbn; unfold MAX; auto with lia).
  - pose proof (proj1 H4 eq_refl) as Hm. destruct (Z.eqb_spec (buffer c) 0); injection Hs as <-;
      rewrite producer_remaining, Epro; (split; [|cbn; lia]); apply Hgo; try done;
      try (by split; cbn; unfold MAX; auto with lia).
    intros k. by apply (none_other c 0).
  - destruct (the_mutex c) eqn:Em; [done|]. injection Hs as <-.
    rewrite producer_remaining, Epro. split; [|cbn; lia]. apply Hgo; try done;
      try (by split; cbn; unfold MAX; auto with lia).
  - injection Hs as <-. rewrite producer_remaining, Epro. split; [|cbn; lia].
    pose proof (proj1 H4 eq_refl) as Hm. pose proof (k_filling c Hc) as Hf. rewrite Epro in Hf.
    specialize (Hf eq_refl). unfold wrap. rewrite Z.mod_small by (change (2 ^ 32) with 4294967296; lia).
    apply producer_set; try done; cbn [turns_done at_pc i] in *.
    + by split; cbn; unfold MAX; auto.
    + right. lia.
    + intros k t Hk Hw. pose proof (excluded c k t Hc Hk) as Hx. rewrite Hw in Hx.
      specialize (Hx eq_refl). congruence.
  - injection Hs as <-. split.
    + pose proof (broadcast_ok c Hc) as Hbr. rewrite Epro in Hbr. by apply Hbr.
    + unfold remaining, produced, consumed. cbn [con pro]. rewrite total_wake, Epro.
      pose proof (wake_weights (con c)) as Hw. rewrite (k_two c Hc) in Hw.
      cbn [turns_done at_pc i pro_weight]. lia.
  - injection Hs as <-. rewrite producer_remaining, Epro. split; [|cbn; lia].
    pose proof (proj1 H4 eq_refl) as Hm. assert (Hn : n < 100) by by apply H3.
    apply producer_set; try done; cbn [turns_done at_pc i] in *.
    + split; cbn; unfold MAX; try done; lia.
    + intros k. by apply (none_other c 0).
    + lia.
    + apply (k_emptying c Hc).
    + intros k t Hk Hw H0. pose proof (k_con_waits c Hc k t Hk Hw H0) as E. by rewrite Epro in E.
Qed.

(** ** Steps of a consumer *)

Lemma consumer_set c k t t' m b e :
  shared_ok c -> con c !! k = Some t -> thread_ok m (S k) t' ->
  (forall j, j <> S k -> m = Some j <-> the_mutex c = Some j) ->
  let d := consumed c - turns_done t + turns_done t' in
  (b = 0 /\ d = produced c \/ b = produced c /\ 1 <= produced c /\ d = produced c - 1) ->
  (at_pc (pro c) = Work -> b = 0) ->
  (at_pc t' = Work -> b <> 0) ->
  (forall j u, j <> k -> con c !! j = Some u -> at_pc u = Work -> b <> 0) ->
  (at_pc (pro c) = Waiting -> b = 0 -> at_pc t' = Notify \/
     exists j u, j <> k /\ con c !! j = Some u /\ at_pc u = Notify) ->
  (at_pc t' = Waiting -> b = 0) ->
  (b <> 0 -> b = buffer c) ->
  snd <$> e = seqZ 1 d ->
  shared_ok (Config m b (pro c) (<[k := t']> (con c)) e).
Proof.
  intros Hc Hk Ht Hm d Hb Hf Hw Hws Hpw Hwait Hsame He. pose proof (lookup_lt_Some _ _ _ Hk) as Hlt.
  assert (Hd : consumed (Config m b (pro c) (<[k := t']> (con c)) e) = d).
  { unfold consumed. cbn [con]. rewrite (total_insert _ _ _ _ _ Hk). done. }
  split; rewrite ?Hd; cbn [the_mutex buffer pro con eaten]; try done.
  - rewrite length_insert. apply (k_two c Hc).
  - apply (thread_ok_mutex (the_mutex c)); [apply (k_pro c Hc)|by apply Hm].
  - intros j u Hu. apply list_lookup_insert_Some in Hu as [(-> & <- & _)|[Hj Hu]]; [done|].
    apply (thread_ok_mutex (the_mutex c)); [by apply (k_con c Hc)|apply Hm; congruence].
  - intros j Hj. destruct (decide (j = k)) as [-> | Hn].
    + rewrite list_lookup_insert_eq by done. by eexists.
    + rewrite list_lookup_insert_ne by done. apply (k_holder c Hc), Hm; congruence.
  - intros j u Hu. apply list_lookup_insert_Some in Hu as [(-> & <- & _)|[Hj Hu]]; [done|].
    by apply (Hws j).
  - intros Hp H0. destruct (Hpw Hp H0) as [Hn|(j & u & Hj & Hu & Hn)].
    + exists k, t'. by rewrite list_lookup_insert_eq.
    + exists j, u. by rewrite list_lookup_insert_ne.
  - intros j u Hu Hp H0. apply list_lookup_insert_Some in Hu as [(-> & <- & _)|[Hj Hu]];
      [by apply Hwait in Hp|]. apply (k_con_waits c Hc j u Hu Hp). by rewrite <- Hsame.
Qed.

(** A consumer moves within its turn and leaves the buffer as it is. *)
Lemma consumer_goto c k t p m :
  shared_ok c -> con c !! k = Some t -> at_pc t <> Notify ->
  turns_done (Thread p (i t)) = turns_done t ->
  thread_ok m (S k) (Thread p (i t)) ->
  (forall j, j <> S k -> m = Some j <-> the_mutex c = Some j) ->
  (p = Work -> buffer c <> 0) -> (p = Waiting -> buffer c = 0) ->
  shared_ok (Config m (buffer c) (pro c) (<[k := Thread p (i t)]> (con c)) (eaten c)).
Proof.
  intros Hc Hk Hn Ht Hok Hm Hw Hwait. apply (consumer_set c k t); try done; rewrite ?Ht.
  - replace (consumed c - turns_done t + turns_done t) with (consumed c) by lia.
    apply (k_buffer c Hc).
  - apply (k_filling c Hc).
  - intros j u _. apply (k_emptying c Hc).
  - intros Hp H0. right. destruct (k_pro_waits c Hc Hp H0) as (j & u & Hu & Hj).
    exists j, u. split; [|done]. intros ->. congruence.
  - replace (consumed c - turns_done t + turns_done t) with (consumed c) by lia.
    apply (k_eaten c Hc).
Qed.

Lemma signal_ok c k t :
  shared_ok c -> con c !! k = Some t -> at_pc t = Notify ->
  shared_ok (Config (the_mutex c) (buffer c) (wake (pro c)) (<[k := Thread Unlock (i t)]> (con c))
    (eaten c)).
Proof.
  intros Hc Hk Hp. pose proof (k_con c Hc k t Hk) as [H1 H2 H3 H4]. rewrite Hp in *.
  pose proof (lookup_lt_Some _ _ _ Hk) as Hlt. pose proof (proj1 H4 eq_refl) as Hm.
  assert (Hd : total turns_done (<[k := Thread Unlock (i t)]> (con c)) = consumed c).
  { rewrite (total_insert _ _ _ _ _ Hk). unfold consumed. unfold turns_done at 2 3. rewrite Hp.
    cbn [at_pc i]. lia. }
  assert (Hnot : in_section (at_pc (pro c)) = false).
  { destruct (in_section (at_pc (pro c))) eqn:E; [|done].
    apply (holds _ _ _ (k_pro c Hc)) in E. congruence. }
  split; unfold consumed, produced; cbn [the_mutex buffer pro con eaten]; rewrite ?Hd, ?wake_turns.
  - rewrite length_insert. apply (k_two c Hc).
  - apply wake_ok, (k_pro c Hc).
  - intros j u Hu. apply list_lookup_insert_Some in Hu as [(-> & <- & _)|[Hj Hu]];
      [|by apply (k_con c Hc)]. split; cbn; try done. intros _ _. by apply H3.
  - intros j Hj. destruct (decide (j = k)) as [-> | Hn].
    + rewrite list_lookup_insert_eq by done. by eexists.
    + rewrite list_lookup_insert_ne by done. by apply (k_holder c Hc).
  - apply (k_buffer c Hc).
  - intros Hw. apply wake_pc in Hw; [|done]. by rewrite Hw in Hnot.
  - intros j u Hu Hw. apply list_lookup_insert_Some in Hu as [(-> & <- & _)|[Hj Hu]]; [done|].
    by apply (k_emptying c Hc j u).
  - intros Hw. by destruct (wake_not_waiting (pro c)).
  - intros j u Hu Hw H0. apply list_lookup_insert_Some in Hu as [(-> & <- & _)|[Hj Hu]]; [done|].
    pose proof (k_con_waits c Hc j u Hu Hw H0) as E. by rewrite E in Hnot.
  - apply (k_eaten c Hc).
Qed.

Lemma consumer_remaining c k t m b t' e :
  con c !! k = Some t ->
  remaining (Config m b (pro c) (<[k := t']> (con c)) e) =
    remaining c + 8 * (turns_done t - turns_done t') + con_weight t' - con_weight t.
Proof.
  intros Hk. unfold remaining, produced, consumed. cbn [con pro].
  rewrite !(total_insert _ _ _ _ _ Hk). lia.
Qed.

Lemma consumer_ok k c c' :
  shared_ok c -> consumer k c = Some c' -> shared_ok c' /\ remaining c' < remaining c.
Proof.
  intros Hc Hs. unfold consumer in Hs. destruct (con c !! k) as [t|] eqn:Hk; [|done].
  pose proof (k_con c Hc k t Hk) as [H1 H2 H3 H4].
  pose proof (fun p m => consumer_goto c k t p m Hc Hk) as Hgo.
  pose proof (fun m b t' e => consumer_remaining c k t m b t' e Hk) as Hrem.
  destruct t as [p n]. cbn [at_pc i] in *. unfold MAX in *. destruct p; try done.
  - destruct (Z.ltb_spec n 100).
    + destruct (the_mutex c) eqn:Em; [done|]. injection Hs as <-. rewrite Hrem.
      split; [|cbn; lia]. apply Hgo; try done; try (by split; cbn; unfold MAX; auto with lia).
      intros j Hj. split; congruence.
    + injection Hs as <-. rewrite Hrem. split; [|cbn; lia].
      apply Hgo; try done; try (by split; cbn; unfold MAX; auto with lia).
  - pose proof (proj1 H4 eq_refl) as Hm.
    destruct (Z.eqb_spec (buffer c) 0); injection Hs as <-; rewrite Hrem; (split; [|cbn; lia]);
      apply Hgo; try done; try (by split; cbn; unfold MAX; auto with lia).
    intros j Hj. by apply (none_other c (S k)).
  - destruct (the_mutex c) eqn:Em; [done|]. injection Hs as <-. rewrite Hrem. split; [|cbn; lia].
    apply Hgo; try done; try (by split; cbn; unfold MAX; auto with lia).
    intros j Hj. split; congruence.
  - injection Hs as <-. rewrite Hrem. split; [|cbn; lia].
    pose proof (proj1 H4 eq_refl) as Hm. pose proof (k_emptying c Hc k _ Hk eq_refl) as Hb0.
    destruct (k_buffer c Hc) as [[? _]|(Hb & Hp1 & Hd)]; [done|].
    apply (consumer_set c k _ _ _ _ _ Hc Hk); try done; cbn [turns_done at_pc i].
    + by split; cbn; unfold MAX; auto with lia.
    + left. lia.
    + intros j u Hj Hu Hw. pose proof (excluded c j u Hc Hu) as Hx. rewrite Hw in Hx.
      specialize (Hx eq_refl). congruence.
    + intros _ _. by left.
    + rewrite fmap_app, (k_eaten c Hc), Hb. cbn [fmap list_fmap snd].
      replace (produced c) with (1 + consumed c) by lia.
      replace (consumed c - (n - 1) + n) with (consumed c + 1) by lia. apply seqZ_snoc.
      pose proof (k_buffer c Hc). lia.
  - injection Hs as <-. split; [by apply (signal_ok c k (Thread Notify n))|].
    unfold remaining, produced, consumed. cbn [con pro].
    rewrite !(total_insert _ _ _ _ _ Hk), wake_turns.
    assert (pro_weight (wake (pro c)) <= pro_weight (pro c) + 3) by (destruct (pro c) as [[] ?]; cbn; lia).
    cbn [turns_done at_pc i con_weight]. lia.
  - injection Hs as <-. rewrite Hrem. split; [|cbn; lia].
    pose proof (proj1 H4 eq_refl) as Hm. assert (Hn : n < 100) by by apply H3.
    apply (consumer_set c k _ _ _ _ _ Hc Hk); try done; cbn [turns_done at_pc i].
    + split; cbn; unfold MAX; try done; lia.
    + intros j Hj. by apply (none_other c (S k)).
    + replace (consumed c - n + (n + 1 - 1)) with (consumed c) by lia. apply (k_buffer c Hc).
    + apply (k_filling c Hc).
    + intros j u _. apply (k_emptying c Hc).
    + intros Hp H0. right. destruct (k_pro_waits c Hc Hp H0) as (j & u & Hu & Hj).
      exists j, u. split; [|done]. intros ->. rewrite Hk in Hu. by injection Hu as <-.
    + replace (consumed c - n + (n + 1 - 1)) with (consumed c) by lia. apply (k_eaten c Hc).
Qed.

(** ** Runs *)

Lemma shared_step c c' : shared_ok c -> step c c' -> shared_ok c' /\ remaining c' < remaining c.
Proof.
  intros Hc Hs. destruct Hs as [c c' Hs|c c' Hs|c c' Hs];
    [by apply producer_ok|by apply (consumer_ok 0)|by apply (consumer_ok 1)].
Qed.

Lemma spurious_ok c c' : shared_ok c -> spurious c c' -> shared_ok c'.
Proof.
  intros Hc Hs. destruct Hs as [c|c k t Hk].
  - destruct (pro c) as [p n] eqn:Ep. destruct (decide (p = Waiting)) as [-> | Hp].
    + pose proof (k_pro c Hc) as Ht. rewrite Ep in Ht. destruct (k_buffer c Hc) as [Hb|Hb];
        (apply producer_set; try done; [by apply (wake_ok _ _ (Thread Waiting n))| | |]);
        unfold produced in Hb; rewrite ?Ep in Hb; auto; try apply (k_emptying c Hc);
        intros j u Hu Hw H0; pose proof (k_con_waits c Hc j u Hu Hw H0) as E; by rewrite Ep in E.
    + replace (wake (Thread p n)) with (pro c) by (rewrite Ep; by destruct p). by destruct c.
  - destruct t as [p n]. destruct (decide (p = Waiting)) as [-> | Hp].
    + apply (consumer_goto c k (Thread Waiting n) Woken); try done.
      apply (wake_ok _ _ (Thread Waiting n)), (k_con c Hc k _ Hk).
    + replace (wake (Thread p n)) with (Thread p n) by by destruct p.
      rewrite list_insert_id by done. by destruct c.
Qed.

Lemma main_ok : shared_ok main.
Proof.
  assert (Hi : forall j, thread_ok None j (Thread Lock 1)).
  { intros j. split; cbn; unfold MAX; try done; lia. }
  split; cbn; try done; try by left.
  - intros [|[|k]] t [= <-]; apply Hi.
  - by intros [|[|k]] t [= <-].
Qed.

Lemma condition_invariant c : reachable c -> shared_ok c.
Proof.
  apply rtc_invariant; [|apply main_ok].
  intros x y Hx [Hs|Hs]; [by apply (shared_step x y)|by apply (spurious_ok x y)].
Qed.

Lemma turns_range m j t : thread_ok m j t -> 0 <= turns_done t <= 99.
Proof.
  intros [H1 H2 H3 H4]. unfold MAX in *. unfold turns_done.
  destruct t as [p n]. cbn [at_pc i] in *. destruct p; try lia; specialize (H3 ltac:(done) ltac:(done)); lia.
Qed.

Lemma consumed_range c : shared_ok c -> 0 <= consumed c <= 99 /\ 0 <= produced c <= 99.
Proof.
  intros Hc. pose proof (turns_range _ _ _ (k_pro c Hc)) as Hp. fold (produced c) in Hp.
  split; [|done]. destruct (k_buffer c Hc) as [[_ H]|(_ & H1 & H)]; lia.
Qed.

Lemma remaining_nonneg c : shared_ok c -> 0 <= remaining c.
Proof.
  intros Hc. destruct (consumed_range c Hc). unfold remaining.
  assert (0 <= pro_weight (pro c)) by (destruct (pro c) as [[] ?]; cbn; lia).
  assert (0 <= total con_weight (con c)).
  { apply total_nonneg. intros t. destruct t as [[] ?]; cbn; lia. }
  lia.
Qed.

(** A thread that neither waits nor has ended goes on once the mutex is free,
    and the holder of the mutex goes on. *)
Lemma producer_moves c :
  (forall c', producer c <> Some c') ->
  at_pc (pro c) = Waiting \/ at_pc (pro c) = End \/
  the_mutex c <> None /\ in_section (at_pc (pro c)) = false.
Proof.
  intros Hst. unfold producer in Hst. destruct (pro c) as [p n]. cbn [at_pc i] in *.
  destruct p; auto; cbn in *;
    repeat match type of Hst with
    | context [if ?b then _ else _] => destruct b
    | context [match the_mutex c with _ => _ end] => destruct (the_mutex c) eqn:Em
    end; try (by destruct (Hst _ eq_refl)); right; right; done.
Qed.

Lemma consumer_moves k c t :
  con c !! k = Some t -> (forall c', consumer k c <> Some c') ->
  at_pc t = Waiting \/ at_pc t = End \/
  the_mutex c <> None /\ in_section (at_pc t) = false.
Proof.
  intros Hk Hst. unfold consumer in Hst. rewrite Hk in Hst. destruct t as [p n]. cbn [at_pc i] in *.
  destruct p; auto; cbn in *;
    repeat match type of Hst with
    | context [if ?b then _ else _] => destruct b
    | context [match the_mutex c with _ => _ end] => destruct (the_mutex c) eqn:Em
    end; try (by destruct (Hst _ eq_refl)); right; right; done.
Qed.

Lemma stuck_threads c :
  shared_ok c -> (forall c', ~ step c c') ->
  (at_pc (pro c) = Waiting \/ at_pc (pro c) = End) /\
  forall k t, con c !! k = Some t -> at_pc t = Waiting \/ at_pc t = End.
Proof.
  intros Hc Hst.
  assert (Hp := producer_moves c (fun c' E => Hst c' (step_producer c c' E))).
  assert (Hk : forall k t, con c !! k = Some t -> at_pc t = Waiting \/ at_pc t = End \/
    the_mutex c <> None /\ in_section (at_pc t) = false).
  { intros k t Hk. apply (consumer_moves k c t Hk). intros c' E. apply (Hst c').
    pose proof (lookup_lt_Some _ _ _ Hk) as Hlt. rewrite (k_two c Hc) in Hlt.
    destruct k as [|[|k]]; [by apply step_consumer1|by apply step_consumer2|lia]. }
  assert (Hm : the_mutex c = None).
  { destruct (the_mutex c) as [[|k]|] eqn:Em; [| |done]; exfalso.
    - pose proof (proj2 (t_mutex _ _ _ (k_pro c Hc)) Em) as Hin.
      destruct Hp as [E|[E|[_ E]]]; rewrite ?E in Hin; discriminate.
    - destruct (k_holder c Hc k Em) as [t Ht].
      pose proof (proj2 (t_mutex _ _ _ (k_con c Hc k t Ht)) Em) as Hin.
      destruct (Hk k t Ht) as [E|[E|[_ E]]]; rewrite ?E in Hin; discriminate. }
  split; [destruct Hp as [?|[?|[? _]]]; auto; congruence|].
  intros k t Ht. destruct (Hk k t Ht) as [?|[?|[? _]]]; auto; congruence.
Qed.

Lemma ended_turns c k t :
  shared_ok c -> con c !! k = Some t -> at_pc t = End -> turns_done t = 99.
Proof.
  intros Hc Hk He. pose proof (t_end _ _ _ (k_con c Hc k t Hk) He) as Hi. unfold MAX in Hi.
  unfold turns_done. rewrite He. lia.
Qed.

(** The consumers together would take 198 numbers. *)
Lemma one_waits c :
  shared_ok c -> (forall k t, con c !! k = Some t -> at_pc t = Waiting \/ at_pc t = End) ->
  exists k t, con c !! k = Some t /\ at_pc t = Waiting.
Proof.
  intros Hc Hk. destruct (consumed_range c Hc) as [Hr _].
  destruct (con c) as [|t1 [|t2 [|]]] eqn:Ec; try (pose proof (k_two c Hc) as H2; by rewrite Ec in H2).
  destruct (Hk 0%nat t1 eq_refl) as [H1|H1]; [by exists 0%nat, t1|].
  destruct (Hk 1%nat t2 eq_refl) as [H2|H2]; [by exists 1%nat, t2|].
  unfold consumed in Hr. rewrite Ec in Hr. cbn [total] in Hr.
  rewrite (ended_turns c 0 t1), (ended_turns c 1 t2) in Hr; rewrite ?Ec; done || lia.
Qed.

Lemma stuck_state c :
  shared_ok c -> (forall c', ~ step c c') ->
  at_pc (pro c) = End /\ buffer c = 0 /\ consumed c = 99 /\
  exists k t, con c !! k = Some t /\ at_pc t = Waiting.
Proof.
  intros Hc Hst. destruct (stuck_threads c Hc Hst) as [Hp Hk].
  destruct (one_waits c Hc Hk) as (k & t & Ht & Hw).
  assert (Hb : buffer c = 0).
  { destruct (Z.eq_dec (buffer c) 0) as [|H0]; [done|].
    pose proof (k_con_waits c Hc k t Ht Hw H0) as E. destruct Hp; congruence. }
  assert (He : at_pc (pro c) = End).
  { destruct Hp as [Hp|Hp]; [|done]. destruct (k_pro_waits c Hc Hp Hb) as (j & u & Hu & Hn).
    destruct (Hk j u Hu); congruence. }
  split; [done|]. split; [done|]. split; [|by exists k, t].
  pose proof (t_end _ _ _ (k_pro c Hc) He) as Hi. unfold MAX in Hi.
  assert (Hpr : produced c = 99) by (unfold produced, turns_done; rewrite He; lia).
  destruct (k_buffer c Hc) as [[_ H]|(H & H1 & _)]; lia.
Qed.

(** ** Theorems *)

(** However the threads interleave and whatever spurious wakeups occur, the
    consumers together take 1, 2, ... in order, each number once, and the
    buffer is empty or holds the next one. *)
Theorem condition_hand_over c :
  reachable c ->
  exists n, 0 <= n <= 99 /\ snd <$> eaten c = seqZ 1 n /\ (buffer c = 0 \/ buffer c = n + 1).
Proof.
  intros Hr. pose proof (condition_invariant c Hr) as Hc. exists (consumed c).
  destruct (consumed_range c Hc). split; [lia|]. split; [apply (k_eaten c Hc)|].
  destruct (k_buffer c Hc) as [[? _]|(? & ? & ?)]; lia.
Qed.

(** C20: no wakeup is lost: without spurious wakeups every run stops after at
    most 1890 statements, and wherever no thread can go on all 99 numbers have
    been taken and the producer has ended. But then a consumer still waits for
    more, for each of the two wants 99: [main] never returns from joining them. *)
Theorem condition_stops :
  (forall n c, nsteps step n main c -> Z.of_nat n <= 1890) /\
  (forall c, reachable c -> (forall c', ~ step c c') ->
     at_pc (pro c) = End /\ buffer c = 0 /\ snd <$> eaten c = seqZ 1 99 /\
     exists k t, con c !! k = Some t /\ at_pc t = Waiting).
Proof.
  split.
  - intros n c Hn. exact (run_bound step shared_ok remaining shared_step remaining_nonneg n _ c
      main_ok Hn).
  - intros c Hr Hst. pose proof (condition_invariant c Hr) as Hc.
    destruct (stuck_state c Hc Hst) as (H1 & H2 & H3 & H4).
    split; [done|]. split; [done|]. split; [|done]. by rewrite (k_eaten c Hc), H3.
Qed.

(** A run by turns: 0 is the producer, 1 and 2 the consumers. *)
Fixpoint run (sched : list nat) (c : config) : option config :=
  match sched with
  | [] => Some c
  | who :: sched =>
      match (match who with O => producer c | S k => consumer k c end) with
      | Some c' => run sched c'
      | None => None
      end
  end.

Lemma run_turns sched c :
  Forall (fun who => (who < 3)%nat) sched -> run sched main = Some c -> reachable c.
Proof.
  unfold reachable. generalize main as b. induction sched as [|who sched IH]; cbn; intros b Hw E.
  - injection E as <-. apply rtc_refl.
  - inversion Hw as [|x l Hwho Hsched]; subst.
    destruct (match who with O => producer b | S k => consumer k b end) as [b'|] eqn:Es; [|done].
    apply rtc_l with b'; [left|by apply IH].
    destruct who as [|[|[|who]]]; [by apply step_producer|by apply step_consumer1|
      by apply step_consumer2|lia].
Qed.

(** The second consumer waits, is woken, and takes the first number. *)
Definition first_taken : list nat :=
  replicate 2 2%nat ++ replicate 5 0%nat ++ replicate 3 2%nat.

Lemma condition_hand_over_witness :
  exists c, eaten c = [(2%nat, 1)] /\ buffer c = 0 /\
    exists n, 0 <= n <= 99 /\ snd <$> eaten c = seqZ 1 n /\ (buffer c = 0 \/ buffer c = n + 1).
Proof.
  exists (default main (run first_taken main)). split; [by vm_compute|]. split; [by vm_compute|].
  apply condition_hand_over, (run_turns first_taken); [|by vm_compute].
  by apply (bool_decide_unpack _).
Defined.
