(* ===== verification/Select.v ===== *)
(** * Select: the echo server of [src/socket_test/select_socket/server.c]

    One process serves its clients from a table of sockets, one turn of its
    [while] for every return of [select]. What the system calls answer during
    a turn is given to the turn. *)
From stdpp Require Import gmap sets fin_sets.
From S2P Require Import Prelude.
From S2P Require Import CString.

Open Scope C.

Definition FD_SETSIZE : nat := 1024.
Definition MAX_LINE : nat := 2048.

Record server := Server {
  client : list Z;
  maxi : Z;
  maxfd : Z;
  allset : gset Z
}.

(** Step (4): the table before the first turn. *)
Definition start (listenfd : Z) : server :=
  Server (replicate FD_SETSIZE (-1)) (-1) listenfd {[listenfd]}.

(** What a turn is told: [rset] and [nready] of [select]; what [accept] would
    answer; and for each socket what [read] would answer ([None] for 0 or less)
    and [write] for these bytes. *)
Record answers := Answers {
  rset : gset Z;
  nready : Z;
  accepted : Z;
  read : Z -> option chars;
  written : Z -> chars -> Z
}.

(** What a turn does. *)
Inductive event :=
  | Accepted (fd : Z)
  | Closed (fd : Z)
  | Echoed (fd : Z) (data : chars)
  | WriteFailed (fd : Z).

(** What comes of a call: it returns, the process exits, or the call leaves an
    array. *)
Inductive outcome (A : Type) := Next (a : A) | Exit | Undefined.
Arguments Next {A} a.
Arguments Exit {A}.
Arguments Undefined {A}.

(** [for(i=0 ; i<FD_SETSIZE ; ++i)]: the first free place from [i] on. *)
Fixpoint free_place (i : nat) (client : list Z) : option nat :=
  match client with
  | [] => None
  | fd :: client => if fd <? 0 then Some i else free_place (S i) client
  end.

(** The branch for a new connection; [FD_SET] of a descriptor above the set's
    size writes outside the set. *)
Definition add_client (connfd : Z) (s : server) : outcome server :=
  if connfd <? 0 then Exit
  else
    match free_place 0 (client s) with
    | None => Exit
    | Some i =>
        if Z.of_nat FD_SETSIZE <=? connfd then Undefined
        else Next (Server (<[i := connfd]> (client s)) (Z.max (maxi s) (Z.of_nat i))
                (if maxfd s <? connfd then connfd else maxfd s) ({[connfd]} ∪ allset s))
    end.

(** [printf] of what was read into the cleared [buf]: a terminator is in it. *)
Definition terminated (buf : chars) : bool := (length buf <? MAX_LINE)%nat || existsb (fun c => bool_decide (c = NUL)) buf.

Definition preceded {S} (e : event) (o : option (S * list event)) : option (S * list event) :=
  match o with Some (s, es) => Some (s, e :: es) | None => None end.

(** [for(i=0; i<=maxi ; ++i)]: [n] places from [i] on, [nready] sockets left to
    serve; [None]: an array was left. *)
Fixpoint serve (n i : nat) (a : answers) (nready : Z) (s : server) : option (server * list event) :=
  match n with
  | O => Some (s, [])
  | S n =>
      match client s !! i with
      | None => None
      | Some sockfd =>
          if sockfd <? 0 then serve n (S i) a nready s
          else if decide (sockfd ∈ rset a) then
            match read a sockfd with
            | None =>
                let s := Server (<[i := -1]> (client s)) (maxi s) (maxfd s)
                           (allset s ∖ {[sockfd]}) in
                if nready - 1 <=? 0 then Some (s, [Closed sockfd])
                else preceded (Closed sockfd) (serve n (S i) a (nready - 1) s)
            | Some buf =>
                if negb (terminated buf) then None
                else if negb (written a sockfd buf =? Z.of_nat (length buf)) then
                  Some (s, [WriteFailed sockfd])
                else if nready - 1 <=? 0 then Some (s, [Echoed sockfd buf])
                else preceded (Echoed sockfd buf) (serve n (S i) a (nready - 1) s)
            end
          else serve n (S i) a nready s
      end
  end.

(** [es], and what the loop does. *)
Definition after {S} (es : list event) (o : option (S * list event)) : outcome (S * list event) :=
  match o with Some (s, es') => Next (s, es ++ es') | None => Undefined end.

Definition turn (listenfd : Z) (a : answers) (s : server) : outcome (server * list event) :=
  if decide (listenfd ∈ rset a) then
    match add_client (accepted a) s with
    | Next s =>
        let es := [Accepted (accepted a)] in
        if nready a - 1 <? 0 then Next (s, es)
        else after es (serve (Z.to_nat (maxi s + 1)) 0 a (nready a - 1) s)
    | Exit => Exit
    | Undefined => Undefined
    end
  else after [] (serve (Z.to_nat (maxi s + 1)) 0 a (nready a) s).

(** ** The table *)

(** The sockets in the table, in the order of their places. *)
Definition clients (l : list Z) : list Z := filter (fun fd => 0 <= fd) l.

Record table_ok (listenfd : Z) (s : server) : Prop := TableOk {
  t_size : length (client s) = FD_SETSIZE;
  t_maxi : -1 <= maxi s < Z.of_nat FD_SETSIZE;
  t_beyond : forall i fd, client s !! i = Some fd -> maxi s < Z.of_nat i -> fd < 0;
  t_nodup : NoDup (clients (client s));
  t_listen : 0 <= listenfd /\ listenfd ∉ clients (client s);
  t_allset : allset s = {[listenfd]} ∪ list_to_set (clients (client s));
  t_maxfd : forall fd, fd ∈ allset s -> fd <= maxfd s;
  t_below : forall fd, fd ∈ allset s -> fd < Z.of_nat FD_SETSIZE
}.

(** What the calls answer to a server in state [s]: [select] reports sockets it
    was asked for and their number, and a new connection has a number of its
    own. *)
Record answers_ok (s : server) (a : answers) : Prop := AnswersOk {
  a_rset : rset a ⊆ allset s;
  a_count : nready a = Z.of_nat (size (rset a));
  a_fresh : accepted a ∉ allset s
}.

(** The sockets to serve, and those whose end or failure is read. *)
Definition due (a : answers) (fd : Z) : bool := (0 <=? fd) && bool_decide (fd ∈ rset a).
Definition gone (a : answers) (fd : Z) : bool := due a fd && bool_decide (read a fd = None).

(** What a due socket gets. *)
Definition reaction (a : answers) (fd : Z) : event :=
  match read a fd with
  | Some buf => if written a fd buf =? Z.of_nat (length buf) then Echoed fd buf else WriteFailed fd
  | None => Closed fd
  end.

(** Its write is not complete, which ends the loop; its text is not terminated. *)
Definition stops (a : answers) (fd : Z) : bool :=
  match read a fd with Some buf => negb (written a fd buf =? Z.of_nat (length buf)) | None => false end.
Definition unterminated (a : answers) (fd : Z) : bool :=
  match read a fd with Some buf => negb (terminated buf) | None => false end.

Definition dues (a : answers) (l : list Z) : list Z := filter (fun fd => due a fd = true) l.
Definition closed (a : answers) (l : list Z) : list Z := filter (fun fd => gone a fd = true) l.

(** The due sockets up to the first one that stops the loop. *)
Fixpoint until_stop (a : answers) (l : list Z) : list Z :=
  match l with
  | [] => []
  | fd :: l => fd :: (if stops a fd then [] else until_stop a l)
  end.

Definition served (a : answers) (l : list Z) : list Z := until_stop a (dues a l).

(** The places of the sockets in [l] freed. *)
Definition cleared (l : list Z) (fd : Z) : Z := if bool_decide (fd ∈ l) then -1 else fd.

(** A turn's loop over the places [l] *)
Definition lost (a : answers) (l : list Z) : list Z := closed a (served a l).
Definition reactions (a : answers) (l : list Z) : list event := reaction a <$> served a l.
Definition bad_text (a : answers) (l : list Z) : bool := existsb (unterminated a) (served a l).

Lemma dues_cons a fd l : dues a (fd :: l) = (if due a fd then [fd] else []) ++ dues a l.
Proof. unfold dues. rewrite filter_cons. by destruct (due a fd). Qed.

Lemma until_stop_sub a l fd : fd ∈ until_stop a l -> fd ∈ l.
Proof.
  induction l as [|x l IH]; [done|]. cbn [until_stop]. rewrite !elem_of_cons. intros [->|Hin]; [by left|].
  destruct (stops a x); [by apply not_elem_of_nil in Hin|right; auto].
Qed.

Lemma until_stop_all a l : (forall fd, fd ∈ l -> stops a fd = false) -> until_stop a l = l.
Proof.
  induction l as [|x l IH]; [done|]. intros Hl. cbn [until_stop]. rewrite (Hl x) by (by left).
  f_equal. apply IH. intros fd Hfd. apply Hl. by right.
Qed.

Lemma due_elem a l fd : fd ∈ dues a l <-> fd ∈ l /\ due a fd = true.
Proof. unfold dues. rewrite list_elem_of_filter. tauto. Qed.

Lemma served_sub a l fd : fd ∈ served a l -> fd ∈ l /\ due a fd = true.
Proof. intros Hin%until_stop_sub. by apply due_elem. Qed.

Lemma lost_sub a l fd : fd ∈ lost a l -> fd ∈ l /\ 0 <= fd.
Proof.
  unfold lost, closed. intros [_ Hin%served_sub]%list_elem_of_filter. destruct Hin as [Hin Hd].
  split; [done|]. unfold due in Hd. apply andb_true_iff in Hd as [Hd _]. lia.
Qed.

Lemma cleared_none (L l : list Z) : (forall fd, fd ∈ l -> fd ∉ L) -> cleared L <$> l = l.
Proof.
  intros Hl. rewrite <- (list_fmap_id l) at 2. apply list_fmap_ext. intros i fd Hi.
  unfold cleared. by rewrite bool_decide_eq_false_2 by (apply Hl; by apply list_elem_of_lookup_2 in Hi).
Qed.

(** The loop from place [i] on: the count runs out exactly behind the last due
    socket. *)
Definition looped (a : answers) (i : nat) (s : server) : option (server * list event) :=
  let rest := drop i (client s) in
  if bad_text a rest then None
  else Some (Server (take i (client s) ++ (cleared (lost a rest) <$> rest)) (maxi s) (maxfd s)
               (allset s ∖ list_to_set (lost a rest)), reactions a rest).

Lemma looped_idle a i s : dues a (drop i (client s)) = [] -> looped a i s = Some (s, []).
Proof.
  intros E. unfold looped, bad_text, lost, reactions, served. rewrite E. cbn.
  rewrite cleared_none by (intros ? _; apply not_elem_of_nil). rewrite take_drop, difference_empty_L. by destruct s.
Qed.

Lemma clients_app l1 l2 : clients (l1 ++ l2) = clients l1 ++ clients l2.
Proof. apply filter_app. Qed.

Lemma clients_cons fd l : clients (fd :: l) = (if 0 <=? fd then [fd] else []) ++ clients l.
Proof.
  unfold clients. rewrite filter_cons. destruct (Z.leb_spec 0 fd);
    [by rewrite decide_True|by rewrite decide_False by lia].
Qed.

Lemma clients_elem l fd : fd ∈ clients l <-> fd ∈ l /\ 0 <= fd.
Proof. unfold clients. rewrite list_elem_of_filter. tauto. Qed.

(** A socket stands in one place. *)
Lemma place_once l i fd : NoDup (clients l) -> l !! i = Some fd -> 0 <= fd -> fd ∉ drop (S i) l.
Proof.
  intros Hnd Hi Hp Hin. rewrite <- (take_drop i l), (drop_S _ _ _ Hi), clients_app, clients_cons in Hnd.
  apply NoDup_app in Hnd as (_ & _ & Hnd). rewrite (proj2 (Z.leb_le 0 fd)) in Hnd by done.
  apply NoDup_cons in Hnd as [Hno _]. apply Hno, clients_elem. by split.
Qed.

Lemma served_cons a fd l : served a (fd :: l) =
  if due a fd then fd :: (if stops a fd then [] else served a l) else served a l.
Proof. unfold served. rewrite dues_cons. by destruct (due a fd). Qed.

Lemma looped_skip a i s fd : client s !! i = Some fd -> due a fd = false -> looped a i s = looped a (S i) s.
Proof.
  intros Hi Hd. unfold looped, bad_text, lost, reactions. rewrite (drop_S _ _ _ Hi), served_cons, Hd.
  rewrite (take_S_r _ _ _ Hi), <- app_assoc. cbn [fmap list_fmap app]. set (L := closed a _).
  assert (E : cleared L fd = fd); [|by rewrite E].
  unfold cleared. rewrite bool_decide_eq_false_2; [done|]. unfold L, closed.
  intros [_ [_ H]%served_sub]%list_elem_of_filter. congruence.
Qed.

Lemma looped_closed a i s fd : NoDup (clients (client s)) -> client s !! i = Some fd -> due a fd = true -> read a fd = None ->
  looped a i s = preceded (Closed fd)
    (looped a (S i) (Server (<[i := -1]> (client s)) (maxi s) (maxfd s) (allset s ∖ {[fd]}))).
Proof.
  intros Hnd Hi Hd Hr. assert (H0 : 0 <= fd) by (unfold due in Hd; apply andb_true_iff in Hd as [Hd _]; lia).
  pose proof (place_once _ _ _ Hnd Hi H0) as Hno. pose proof (lookup_lt_Some _ _ _ Hi) as Hlt.
  assert (Hs : stops a fd = false) by (unfold stops; by rewrite Hr).
  unfold looped, bad_text, lost, reactions. cbn [client maxi maxfd allset].
  rewrite drop_insert_lt, (drop_S _ _ _ Hi), served_cons, Hd, Hs by lia. cbn [existsb fmap list_fmap].
  unfold unterminated at 1, reaction at 1. rewrite Hr. cbn [orb].
  destruct (existsb _ _); [done|]. cbn [preceded]. unfold closed at 1 2 3. rewrite filter_cons.
  assert (Hg : gone a fd = true) by (unfold gone; by rewrite Hd, bool_decide_eq_true_2).
  rewrite decide_True by done. fold (closed a (served a (drop (S i) (client s)))). set (L := closed a _).
  assert (HL : forall x, x ∈ L -> x ∈ drop (S i) (client s)).
  { intros x Hx. unfold L, closed in Hx. apply list_elem_of_filter in Hx as [_ Hx]. by apply served_sub in Hx as [? _]. }
  rewrite (take_S_r _ _ (-1)) by by apply list_lookup_insert_eq. rewrite take_insert_ge, <- app_assoc by lia.
  cbn [app list_to_set]. rewrite difference_difference_l_L. do 4 f_equal.
  f_equal; [unfold cleared; by rewrite bool_decide_eq_true_2 by (by left)|].
  apply list_fmap_ext. intros k x Hx. apply list_elem_of_lookup_2 in Hx. unfold cleared.
  rewrite (bool_decide_ext (x ∈ fd :: L) (x ∈ L)); [done|]. rewrite elem_of_cons.
  split; [intros [->|?]; [by destruct Hno|done]|by right].
Qed.

Lemma looped_echoed a i s fd buf : NoDup (clients (client s)) -> client s !! i = Some fd -> due a fd = true ->
  read a fd = Some buf -> terminated buf = true -> written a fd buf = Z.of_nat (length buf) ->
  looped a i s = preceded (Echoed fd buf) (looped a (S i) s).
Proof.
  intros Hnd Hi Hd Hr Ht Hw. assert (H0 : 0 <= fd) by (unfold due in Hd; apply andb_true_iff in Hd as [Hd _]; lia).
  pose proof (place_once _ _ _ Hnd Hi H0) as Hno.
  assert (Hs : stops a fd = false) by (unfold stops; by rewrite Hr, Hw, Z.eqb_refl).
  unfold looped, bad_text, lost, reactions. rewrite (drop_S _ _ _ Hi), served_cons, Hd, Hs. cbn [existsb fmap list_fmap].
  unfold unterminated at 1, reaction at 1. rewrite Hr, Ht, Hw, Z.eqb_refl. cbn [negb orb].
  destruct (existsb _ _); [done|]. cbn [preceded]. unfold closed at 1 2 3. rewrite filter_cons.
  assert (Hg : gone a fd = false) by (unfold gone; by rewrite Hr, bool_decide_eq_false_2, andb_false_r).
  rewrite decide_False by congruence. fold (closed a (served a (drop (S i) (client s)))). set (L := closed a _).
  assert (HL : forall x, x ∈ L -> x ∈ drop (S i) (client s)).
  { intros x Hx. unfold L, closed in Hx. apply list_elem_of_filter in Hx as [_ Hx]. by apply served_sub in Hx as [? _]. }
  rewrite (take_S_r _ _ _ Hi), <- app_assoc. cbn [app]. unfold cleared at 1.
  by rewrite bool_decide_eq_false_2 by (intros Hin%HL; done).
Qed.

(** At the last due socket the loop ends. *)
Lemma looped_last a i s fd e : client s !! i = Some fd -> dues a (drop (S i) (client s)) = [] ->
  looped a i s = preceded e (looped a (S i) s) -> looped a i s = Some (s, [e]).
Proof. intros Hi E ->. by rewrite looped_idle. Qed.

Lemma serve_spec n a : forall i k s, NoDup (clients (client s)) -> (i + n <= length (client s))%nat ->
  k = Z.of_nat (length (dues a (drop i (client s)))) -> dues a (drop (i + n) (client s)) = [] ->
  serve n i a k s = looped a i s.
Proof.
  induction n as [|n IH]; intros i k s Hnd Hlen Hk Hend; cbn [serve].
  { rewrite Nat.add_0_r in Hend. by rewrite looped_idle. }
  destruct (lookup_lt_is_Some_2 (client s) i ltac:(lia)) as [fd Hi]. rewrite Hi.
  pose proof (drop_S _ _ _ Hi) as Hdrop. rewrite Hdrop, dues_cons in Hk.
  replace (i + S n)%nat with (S i + n)%nat in * by lia.
  destruct (Z.ltb_spec fd 0) as [Hneg|Hpos].
  { assert (Hd : due a fd = false) by (unfold due; by rewrite (proj2 (Z.leb_gt _ _))).
    rewrite Hd in Hk. rewrite (looped_skip a i s fd) by done. by apply IH. }
  destruct (decide (fd ∈ rset a)) as [Hin|Hin].
  2:{ assert (Hd : due a fd = false) by (unfold due; by rewrite bool_decide_eq_false_2, andb_false_r).
      rewrite Hd in Hk. rewrite (looped_skip a i s fd) by done. by apply IH. }
  assert (Hd : due a fd = true) by (unfold due; by rewrite (proj2 (Z.leb_le _ _)), bool_decide_eq_true_2).
  rewrite Hd in Hk. cbn [app length] in Hk.
  assert (Hk1 : k - 1 = Z.of_nat (length (dues a (drop (S i) (client s))))) by lia.
  assert (Hlast : (k - 1 <=? 0) = true -> dues a (drop (S i) (client s)) = []).
  { intros Hk2%Z.leb_le. apply length_zero_iff_nil. lia. }
  destruct (read a fd) as [buf|] eqn:Hr.
  - destruct (terminated buf) eqn:Ht; cbn [negb].
    2:{ unfold looped, bad_text. rewrite Hdrop, served_cons, Hd. cbn [existsb]. unfold unterminated at 1. by rewrite Hr, Ht. }
    destruct (Z.eqb_spec (written a fd buf) (Z.of_nat (length buf))) as [Hw|Hw]; cbn [negb].
    + pose proof (looped_echoed a i s fd buf Hnd Hi Hd Hr Ht Hw) as El. rewrite El.
      destruct (k - 1 <=? 0) eqn:Ek; [by rewrite looped_idle by auto|]. f_equal. by apply IH.
    + assert (Hs : stops a fd = true) by (unfold stops; by rewrite Hr, (proj2 (Z.eqb_neq _ _))).
      assert (Es : served a (drop i (client s)) = [fd]) by by rewrite Hdrop, served_cons, Hd, Hs.
      assert (Hg : gone a fd = false) by (unfold gone; by rewrite Hr, bool_decide_eq_false_2, andb_false_r).
      unfold looped, bad_text, lost, reactions. rewrite Es. cbn [existsb fmap list_fmap].
      unfold unterminated, reaction. rewrite Hr, Ht, (proj2 (Z.eqb_neq _ _)) by done. cbn [negb orb].
      unfold closed. rewrite filter_cons, decide_False by congruence. rewrite filter_nil.
      change (list_fmap Z Z) with (@fmap list _ Z Z). rewrite cleared_none by (intros ? _; apply not_elem_of_nil).
      rewrite take_drop. cbn [list_to_set]. rewrite difference_empty_L. by destruct s.
  - rewrite (looped_closed a i s fd Hnd Hi Hd Hr). set (s1 := Server (<[i:=-1]> (client s)) _ _ _).
    assert (Hrest : forall m, (i < m)%nat -> drop m (client s1) = drop m (client s)).
    { intros m Hm. cbn [client s1]. by apply drop_insert_lt. }
    destruct (k - 1 <=? 0) eqn:Ek; [rewrite looped_idle by (rewrite Hrest by lia; auto); done|].
    f_equal. apply IH; [|cbn [client s1]; by rewrite length_insert|by rewrite Hrest by lia|by rewrite Hrest by lia].
    cbn [client s1]. rewrite insert_take_drop by lia. rewrite <- (take_drop i (client s)), Hdrop, clients_app, clients_cons in Hnd.
    rewrite clients_app, clients_cons. rewrite (proj2 (Z.leb_le 0 fd)) in Hnd by done. cbn [app] in *.
    apply NoDup_app in Hnd as (H1 & H2 & H3). apply NoDup_cons in H3 as [_ H3]. apply NoDup_app. split_and!; [done| |done].
    intros x Hx Hx2. apply (H2 x Hx). by right.
Qed.

(** ** A new client *)

Lemma free_place_spec l : forall k,
  match free_place k l with
  | Some i => exists j fd, i = (k + j)%nat /\ l !! j = Some fd /\ fd < 0
  | None => clients l = l
  end.
Proof.
  induction l as [|fd l IH]; intros k; [done|]. cbn [free_place].
  destruct (Z.ltb_spec fd 0); [exists 0%nat, fd; by rewrite Nat.add_0_r|].
  specialize (IH (S k)). destruct (free_place (S k) l) as [i|].
  - destruct IH as (j & fd' & -> & Hj & Hn). exists (S j), fd'. split; [lia|done].
  - rewrite clients_cons, IH. by destruct (Z.leb_spec 0 fd); [|lia].
Qed.

(** A list around one of its places. *)
Lemma place_split {A} (l : list A) i x :
  l !! i = Some x -> l = take i l ++ [x] ++ drop (S i) l.
Proof.
  intros Hi. change ([x] ++ drop (S i) l) with (x :: drop (S i) l).
  by rewrite <- (drop_S _ _ _ Hi), take_drop.
Qed.

Lemma clients_insert l i fd fd' :
  l !! i = Some fd -> fd < 0 -> 0 <= fd' -> clients (<[i := fd']> l) ≡ₚ fd' :: clients l.
Proof.
  intros Hi Hn Hp. pose proof (lookup_lt_Some _ _ _ Hi). rewrite insert_take_drop by done.
  rewrite (place_split l i fd Hi) at 3. rewrite !clients_app, clients_cons.
  rewrite (clients_cons fd []). destruct (Z.leb_spec 0 fd'); [|lia]. destruct (Z.leb_spec 0 fd); [lia|].
  cbn. symmetry. apply Permutation_middle.
Qed.

Lemma add_client_spec listenfd s fd :
  table_ok listenfd s -> fd ∉ allset s ->
  match add_client fd s with
  | Exit => fd < 0 \/ length (clients (client s)) = FD_SETSIZE
  | Undefined => Z.of_nat FD_SETSIZE <= fd
  | Next s' => 0 <= fd < Z.of_nat FD_SETSIZE /\ table_ok listenfd s' /\ clients (client s') ≡ₚ fd :: clients (client s) /\
      exists i, client s' = <[i := fd]> (client s) /\ exists old, client s !! i = Some old /\ old < 0
  end.
Proof.
  intros [Hs Hm Hb Hnd Hl Ha Hmax Hbel] Hf. unfold add_client. destruct (Z.ltb_spec fd 0); [by left|].
  pose proof (free_place_spec (client s) 0) as Hp. destruct (free_place 0 (client s)) as [i|].
  2:{ right. by rewrite Hp. }
  destruct Hp as (j & old & -> & Hj & Hn). cbn [plus]. destruct (Z.leb_spec (Z.of_nat FD_SETSIZE) fd); [done|].
  pose proof (clients_insert (client s) j old fd Hj Hn ltac:(lia)) as Hperm.
  pose proof (lookup_lt_Some _ _ _ Hj) as Hlt.
  split; [lia|]. split; [|split; [done|by exists j; eauto]].
  rewrite Ha in Hf. constructor; cbn [client maxi maxfd allset].
  - by rewrite length_insert.
  - lia.
  - intros k fd' Hk Hbig. rewrite list_lookup_insert_ne in Hk by lia. apply (Hb k); [done|lia].
  - rewrite Hperm. constructor; [set_solver|done].
  - rewrite Hperm. set_solver.
  - rewrite Ha, (list_to_set_perm_L _ _ Hperm). cbn. set_solver.
  - intros f Hin. assert (f = fd \/ f ∈ allset s) as [-> | Hin'] by set_solver;
      [|specialize (Hmax f Hin')]; destruct (Z.ltb_spec (maxfd s) fd); lia.
  - intros f [->%elem_of_singleton|Hin]%elem_of_union; [done|auto].
Qed.

(** ** The turn *)

Lemma dues_insert a l i old fd :
  l !! i = Some old -> due a old = false -> due a fd = false -> dues a (<[i := fd]> l) = dues a l.
Proof.
  intros Hi Ho Hf. pose proof (lookup_lt_Some _ _ _ Hi). rewrite insert_take_drop by done.
  rewrite (place_split l i old Hi) at 3. unfold dues. rewrite !filter_app.
  f_equal. cbn [app]. fold (dues a (fd :: drop (S i) l)) (dues a (old :: [])).
  rewrite !dues_cons, Ho, Hf. done.
Qed.

Lemma due_clients a l fd : fd ∈ dues a l <-> fd ∈ clients l /\ fd ∈ rset a.
Proof.
  unfold dues, clients. rewrite !list_elem_of_filter. unfold due.
  rewrite andb_true_iff, Z.leb_le, bool_decide_eq_true. tauto.
Qed.

Lemma dues_sublist a l : dues a l = filter (fun fd => fd ∈ rset a) (clients l).
Proof.
  unfold dues, clients. rewrite list_filter_filter. apply list_filter_iff. intros fd.
  unfold due. rewrite andb_true_iff, Z.leb_le, bool_decide_eq_true. tauto.
Qed.

(** [select]'s count is that of the sockets to serve, and one for a connection. *)
Lemma count_dues listenfd a s :
  table_ok listenfd s -> answers_ok s a ->
  nready a = Z.of_nat (length (dues a (client s))) +
             (if decide (listenfd ∈ rset a) then 1 else 0).
Proof.
  intros [_ _ _ Hnd Hl Ha _ _] [Hr Hc _]. rewrite Hc. clear Hc. rewrite Ha in Hr.
  assert (Hn : NoDup (dues a (client s))) by (rewrite dues_sublist; by apply NoDup_filter).
  assert (He : rset a = list_to_set (dues a (client s)) ∪
                        (if decide (listenfd ∈ rset a) then {[listenfd]} else ∅)).
  { apply set_eq. intros fd. rewrite elem_of_union, elem_of_list_to_set, due_clients.
    specialize (Hr fd). destruct (decide (listenfd ∈ rset a)); set_solver. }
  rewrite He at 1. rewrite size_union.
  - rewrite size_list_to_set by done. destruct (decide (listenfd ∈ rset a));
      rewrite ?size_singleton, ?size_empty; lia.
  - intros fd Hfd. rewrite elem_of_list_to_set, due_clients in Hfd.
    destruct (decide (listenfd ∈ rset a)); set_solver.
Qed.

Lemma clients_cleared L l : clients (cleared L <$> l) = filter (fun fd => fd ∉ L) (clients l).
Proof.
  induction l as [|fd l IH]; [done|]. cbn [fmap list_fmap]. rewrite !clients_cons, filter_app, IH.
  f_equal. unfold cleared. case_bool_decide.
  - cbn. destruct (0 <=? fd); [|done]. by rewrite filter_cons, decide_False by tauto.
  - destruct (0 <=? fd); [|done]. by rewrite filter_cons, decide_True by tauto.
Qed.

Lemma served_ok listenfd L s : table_ok listenfd s -> (forall fd, fd ∈ L -> fd ∈ clients (client s)) ->
  table_ok listenfd (Server (cleared L <$> client s) (maxi s) (maxfd s) (allset s ∖ list_to_set L)).
Proof.
  intros [Hs Hm Hb Hnd [Hl0 Hl] Ha Hmax Hbel] HL. constructor; cbn [client maxi maxfd allset]; try done.
  - by rewrite length_fmap.
  - intros i fd Hi Hbig. rewrite list_lookup_fmap in Hi. destruct (client s !! i) eqn:E; [|done].
    injection Hi as <-. pose proof (Hb i _ E Hbig). unfold cleared. case_bool_decide; lia.
  - rewrite clients_cleared. by apply NoDup_filter.
  - rewrite clients_cleared, list_elem_of_filter. tauto.
  - rewrite Ha, clients_cleared. apply set_eq. intros fd.
    rewrite elem_of_difference, !elem_of_union, !elem_of_list_to_set, elem_of_singleton, list_elem_of_filter.
    specialize (HL fd). destruct (decide (fd = listenfd)) as [->|]; naive_solver.
  - intros fd Hin. apply Hmax. set_solver.
  - intros fd Hin. apply Hbel. set_solver.
Qed.

Lemma dues_none a l : Forall (fun fd => due a fd = false) l -> dues a l = [].
Proof. induction 1 as [|fd l Hd _ IH]; [done|]. by rewrite dues_cons, Hd, IH. Qed.

Lemma lost_clients a l fd : fd ∈ lost a l -> fd ∈ clients l.
Proof. intros Hin%lost_sub. by apply clients_elem. Qed.

(** The loop on a well-formed table. *)
Lemma serve_all listenfd a s k : table_ok listenfd s -> k = Z.of_nat (length (dues a (client s))) ->
  serve (Z.to_nat (maxi s + 1)) 0 a k s = looped a 0 s.
Proof.
  intros Hs Hk. pose proof (t_maxi _ _ Hs). pose proof (t_size _ _ Hs). apply serve_spec; [apply Hs|lia|done|].
  cbn [plus]. apply dues_none, Forall_lookup. intros i fd Hi.
  rewrite lookup_drop in Hi. apply (t_beyond _ _ Hs) in Hi; [|lia]. unfold due. by destruct (Z.leb_spec 0 fd); [lia|].
Qed.

Lemma looped_turn listenfd a s : table_ok listenfd s ->
  match looped a 0 s with
  | None => bad_text a (client s) = true
  | Some (s', es) => bad_text a (client s) = false /\ table_ok listenfd s' /\ es = reactions a (client s) /\
      (forall fd, fd ∈ clients (client s') <-> fd ∈ clients (client s) /\ fd ∉ lost a (client s))
  end.
Proof.
  intros Hs. unfold looped. rewrite drop_0. destruct (bad_text a (client s)); [done|]. split; [done|]. rewrite take_0, app_nil_l.
  split; [apply served_ok; [done|apply lost_clients]|]. split; [done|].
  intros fd. cbn [client]. rewrite clients_cleared, list_elem_of_filter. tauto.
Qed.

(** A turn as a whole. *)
Lemma turn_spec listenfd a s :
  table_ok listenfd s -> answers_ok s a ->
  match turn listenfd a s with
  | Exit => listenfd ∈ rset a /\ (accepted a < 0 \/ length (clients (client s)) = FD_SETSIZE)
  | Undefined => listenfd ∈ rset a /\ Z.of_nat FD_SETSIZE <= accepted a \/ bad_text a (client s) = true
  | Next (s', es) =>
      bad_text a (client s) = false /\ table_ok listenfd s' /\
      es = (if decide (listenfd ∈ rset a) then [Accepted (accepted a)] else []) ++ reactions a (client s) /\
      (forall fd, fd ∈ clients (client s') <->
         fd ∈ clients (client s) /\ fd ∉ lost a (client s) \/
         listenfd ∈ rset a /\ fd = accepted a)
  end.
Proof.
  intros Hs Ha. pose proof (count_dues listenfd a s Hs Ha) as Hc. pose proof Ha as [Hr _ Hf].
  unfold turn. destruct (decide (listenfd ∈ rset a)) as [Hin|Hin].
  - pose proof (add_client_spec listenfd s (accepted a) Hs Hf) as Hadd.
    destruct (add_client (accepted a) s) as [s1| |] eqn:E; [|done|by left].
    destruct Hadd as (Hpos & Hs1 & Hperm & i & Hi & old & Hold & Hneg).
    assert (Hnew : due a (accepted a) = false).
    { unfold due. rewrite (bool_decide_eq_false_2 (accepted a ∈ rset a)) by set_solver.
      apply andb_false_r. }
    assert (Ho : due a old = false) by (unfold due; by destruct (Z.leb_spec 0 old); [lia|]).
    assert (Hd : dues a (client s1) = dues a (client s)) by by rewrite Hi, (dues_insert a _ i old).
    destruct (Z.ltb_spec (nready a - 1) 0); [lia|].
    rewrite (serve_all listenfd a s1) by (done || rewrite Hd; lia).
    pose proof (looped_turn listenfd a s1 Hs1) as Hl. unfold bad_text, reactions, lost, served in *. rewrite Hd in Hl.
    destruct (looped a 0 s1) as [[s' es]|]; cbn [after]; [|by right].
    destruct Hl as (Hb & H1 & -> & H2). split; [done|]. split; [done|]. split; [done|]. intros fd. rewrite H2, Hperm, elem_of_cons.
    assert (Hnl : fd = accepted a -> fd ∉ closed a (until_stop a (dues a (client s)))).
    { intros -> [_ Hx%until_stop_sub]%list_elem_of_filter. apply due_elem in Hx as [_ Hx]. congruence. }
    naive_solver.
  - rewrite (serve_all listenfd a s) by (done || lia).
    pose proof (looped_turn listenfd a s Hs) as Hl. destruct (looped a 0 s) as [[s' es]|]; cbn [after]; [|by right].
    destruct Hl as (Hb & H1 & -> & H2). split; [done|]. split; [done|]. split; [done|]. intros fd. rewrite H2. naive_solver.
Qed.

(** ** Theorems *)

(** C24: A turn answers every client that [select] reports exactly once, in the
    order of the places, with its own data, closes those that have ended, and
    keeps all others and the table consistent; only a write that is not complete
    ends the loop early, and then the clients behind it stay in the table and in
    the set, to be reported again. The process ends only when a connection fails
    or the table is full. The turn leaves an array only where a descriptor is too
    large for the set or 2048 bytes without a NUL are read before the loop ends. *)
Theorem echo_turn listenfd a s :
  table_ok listenfd s -> answers_ok s a ->
  let reported := dues a (client s) in
  match turn listenfd a s with
  | Exit => listenfd ∈ rset a /\ (accepted a < 0 \/ length (clients (client s)) = FD_SETSIZE)
  | Undefined => listenfd ∈ rset a /\ Z.of_nat FD_SETSIZE <= accepted a \/
      exists fd, fd ∈ until_stop a reported /\ unterminated a fd = true
  | Next (s', es) =>
      table_ok listenfd s' /\
      es = (if decide (listenfd ∈ rset a) then [Accepted (accepted a)] else []) ++ (reaction a <$> until_stop a reported) /\
      (forall fd, fd ∈ clients (client s') <->
         fd ∈ clients (client s) /\ ~ (fd ∈ until_stop a reported /\ read a fd = None) \/
         listenfd ∈ rset a /\ fd = accepted a) /\
      (forall fd, fd ∈ until_stop a reported -> unterminated a fd = false) /\
      ((forall fd, fd ∈ reported -> stops a fd = false) -> until_stop a reported = reported)
  end.
Proof.
  intros Hs Ha reported. pose proof (turn_spec listenfd a s Hs Ha) as Ht.
  destruct (turn listenfd a s) as [[s' es]| |]; [|done|].
  - destruct Ht as (Hb & H1 & H2 & H3). split; [done|]. split; [done|]. split; [|split; [|by apply until_stop_all]].
    2:{ intros fd Hin. apply not_true_iff_false. intros Hu. apply not_true_iff_false in Hb. apply Hb, existsb_exists.
      exists fd. split; [by apply list_elem_of_In|done]. }
    intros fd. rewrite H3. unfold lost, closed, served. rewrite list_elem_of_filter. fold reported.
    assert (Hg : fd ∈ until_stop a reported -> gone a fd = true <-> read a fd = None).
    { intros Hx%until_stop_sub. apply due_elem in Hx as [_ Hd]. unfold gone. rewrite Hd. apply bool_decide_eq_true. }
    tauto.
  - destruct Ht as [Ht|Ht]; [by left|right]. unfold bad_text in Ht. apply existsb_exists in Ht as (fd & Hin & Hu).
    exists fd. split; [by apply list_elem_of_In|done].
Qed.

Lemma start_ok listenfd : 0 <= listenfd < Z.of_nat FD_SETSIZE -> table_ok listenfd (start listenfd).
Proof.
  intros Hl.
  assert (Hc : clients (replicate FD_SETSIZE (-1)) = []) by (vm_compute; done).
  constructor; unfold start; cbn [client maxi maxfd allset]; rewrite ?Hc.
  - apply length_replicate.
  - unfold FD_SETSIZE. lia.
  - intros i fd Hi _. apply lookup_replicate in Hi as [-> _]. lia.
  - constructor.
  - split; [lia|]. apply not_elem_of_nil.
  - set_solver.
  - set_solver by lia.
  - set_solver by lia.
Qed.

(** Two clients, one of which says something. *)
Definition two_clients : server := Server (<[1%nat := 5]> (<[0%nat := 4]> (replicate FD_SETSIZE (-1)))) 1 5 {[3; 4; 5]}.

Definition hello_from_5 : answers :=
  Answers {[5]} 1 6 (fun fd => if fd =? 5 then Some (lit "hello") else None)
    (fun _ buf => Z.of_nat (length buf)).

Lemma two_clients_ok : table_ok 3 two_clients.
Proof.
  assert (Hc : clients (client two_clients) = [4; 5]) by (vm_compute; done).
  constructor; rewrite ?Hc; cbn [maxi maxfd allset two_clients].
  - done.
  - unfold FD_SETSIZE. lia.
  - intros i fd Hi Hbig. cbn [client two_clients] in Hi.
    rewrite !list_lookup_insert_ne in Hi by lia. apply lookup_replicate in Hi as [-> _]. lia.
  - by apply (bool_decide_unpack _).
  - split; [lia|]. by apply (bool_decide_unpack _).
  - by apply (bool_decide_unpack _).
  - set_solver by lia.
  - intros fd Hfd. enough (fd <= 5) by (unfold FD_SETSIZE; lia). set_solver by lia.
Qed.

Lemma hello_ok : answers_ok two_clients hello_from_5.
Proof. constructor; try done; set_solver. Qed.

Lemma echo_turn_witness :
  exists s', turn 3 hello_from_5 two_clients = Next (s', [Echoed 5 (lit "hello")]) /\ table_ok 3 s'.
Proof.
  pose proof (echo_turn 3 hello_from_5 two_clients two_clients_ok hello_ok) as H. cbv zeta in H.
  assert (Hd : until_stop hello_from_5 (dues hello_from_5 (client two_clients)) = [5]) by (vm_compute; reflexivity).
  assert (Hl : 3 ∉ rset hello_from_5) by by apply (bool_decide_unpack _). rewrite Hd in H.
  destruct (turn 3 hello_from_5 two_clients) as [[s' es]| |] eqn:E.
  - destruct H as (H1 & H2 & _). exists s'. split; [|exact H1]. rewrite decide_False in H2 by done. by rewrite H2.
  - by destruct H as [H _].
  - destruct H as [[H _]|(fd & ->%list_elem_of_singleton & Hu)]; [done|]. vm_compute in Hu. discriminate.
Defined.

(** An answer that is not complete keeps the client behind it waiting. *)
Example cut_short : let a := Answers {[4; 5]} 2 6 (fun _ => Some (lit "hello")) (fun fd _ => if fd =? 4 then 3 else 5) in
  match turn 3 a two_clients with
  | Next (s', es) => es = [WriteFailed 4] /\ clients (client s') = [4; 5]
  | _ => False
  end.
Proof. vm_compute. by split. Qed.

(** A full buffer *)
Example full_buffer : let a := Answers {[5]} 1 6 (fun _ => Some (replicate MAX_LINE (chr 97))) (fun _ buf => Z.of_nat (length buf)) in
  turn 3 a two_clients = Undefined.
Proof. vm_compute. reflexivity. Qed.
