(* ===== verification/Poll.v ===== *)
(** * Poll: the echo server of [src/socket_test/poll_socket/server.c]

    The server of [Select] once more, with [poll] and its table of [struct
    pollfd]. Place 0 is the listening socket's. [poll] sets [revents] for the
    places up to [maxi] only; the other places still hold what the stack held
    before, which is part of the state. *)
From stdpp Require Import gmap sets fin_sets.
From S2P Require Import Prelude.
From S2P Require Import CString.
From S2P Require Import Select.

Open Scope C.

Definition OPEN_MAX : nat := 1024.
Definition POLLRDNORM : Z := 0x40.
Definition POLLERR : Z := 0x8.

Record pollfd := Pollfd { fd : Z; events : Z; revents : Z }.

Record server := Server { client : list pollfd; maxi : Z }.

Definition set_fd (v : Z) (c : pollfd) : pollfd := Pollfd v (events c) (revents c).
Definition set_events (v : Z) (c : pollfd) : pollfd := Pollfd (fd c) v (revents c).
Definition set_revents (v : Z) (c : pollfd) : pollfd := Pollfd (fd c) (events c) v.

(** Step (4), from the array as it is found. *)
Definition start (listenfd : Z) (stack : list pollfd) : server :=
  match stack with
  | [] => Server [] 0
  | c :: stack => Server (Pollfd listenfd POLLRDNORM (revents c) :: (set_fd (-1) <$> stack)) 0
  end.

(** What a turn is told: the events [poll] reports for a socket and the number of
    sockets with events; the other calls as for [Select]. *)
Record answers := Answers {
  reported : Z -> Z;
  nready : Z;
  accepted : Z;
  read : Z -> option chars;
  written : Z -> chars -> Z
}.

(** [poll(client , maxi+1 , INFTIM)] *)
Definition asked (a : answers) (c : pollfd) : pollfd :=
  set_revents (if fd c <? 0 then 0 else reported a (fd c)) c.

Definition polled (a : answers) (s : server) : server :=
  let n := Z.to_nat (maxi s + 1) in
  Server ((asked a <$> take n (client s)) ++ drop n (client s)) (maxi s).

Definition flagged (mask : Z) (c : pollfd) : bool := negb (Z.land (revents c) mask =? 0).

(** The branch for a new connection *)
Definition add_client (connfd : Z) (s : server) : outcome server :=
  if connfd <? 0 then Exit
  else
    match free_place 1 (fd <$> drop 1 (client s)) with
    | None => Exit
    | Some i =>
        Next (Server (alter (set_events POLLRDNORM) i (alter (set_fd connfd) i (client s)))
                (Z.max (maxi s) (Z.of_nat i)))
    end.

(** [for(i=1; i<=maxi ; ++i)]: [n] places from [i] on. *)
Fixpoint serve (n i : nat) (a : answers) (nready : Z) (s : server) : option (server * list event) :=
  match n with
  | O => Some (s, [])
  | S n =>
      match client s !! i with
      | None => None
      | Some c =>
          let sockfd := fd c in
          if sockfd <? 0 then serve n (S i) a nready s
          else if flagged (Z.lor POLLRDNORM POLLERR) c then
            match read a sockfd with
            | None =>
                let s := Server (alter (set_fd (-1)) i (client s)) (maxi s) in
                if nready - 1 <=? 0 then Some (s, [Closed sockfd])
                else preceded (Closed sockfd) (serve n (S i) a (nready - 1) s)
            | Some buf =>
                if negb (terminated buf) then None
                else if negb (written a sockfd buf =? Z.of_nat (length buf)) then
                  Some (s, [WriteFailed sockfd])
                else if nready - 1 <=? 0 then Some (s, [Echoed sockfd buf])
                else preceded (Echoed sockfd buf) (serve n (S i) a (nready - 1) s)
            end
          else serve n (S i) a nready s
      end
  end.

Definition turn (listenfd : Z) (a : answers) (s : server) : outcome (server * list event) :=
  let s := polled a s in
  match client s with
  | [] => Undefined
  | c :: _ =>
      if flagged POLLRDNORM c then
        match add_client (accepted a) s with
        | Next s =>
            let es := [Accepted (accepted a)] in
            if nready a - 1 <? 0 then Next (s, es)
            else after es (serve (Z.to_nat (maxi s)) 1 a (nready a - 1) s)
        | Exit => Exit
        | Undefined => Undefined
        end
      else after [] (serve (Z.to_nat (maxi s)) 1 a (nready a) s)
  end.

(** ** The same server as [Select]'s *)

(** The sockets [select] would report. *)
Definition rset_of (listenfd : Z) (a : answers) (q : Select.server) : gset Z :=
  filter (fun f =>
    negb (Z.land (reported a f)
            (if f =? listenfd then POLLRDNORM else Z.lor POLLRDNORM POLLERR) =? 0) = true)
    (allset q).

Definition select_answers (listenfd : Z) (a : answers) (q : Select.server) : Select.answers :=
  Select.Answers (rset_of listenfd a q) (nready a) (accepted a) (read a) (written a).

(** Place [i+1] here is place [i] there, of which there is one more; [clean]
    says that no place behind [maxi] holds one of the flags by chance. *)
Record same_table (listenfd : Z) (s : server) (q : Select.server) : Prop := SameTable {
  st_first : exists l, fd <$> client s = listenfd :: l /\ Select.client q = l ++ [-1];
  st_size : length (client s) = OPEN_MAX;
  st_maxi : maxi s = Select.maxi q + 1 /\ 0 <= maxi s < Z.of_nat OPEN_MAX;
  st_clean : forall i c, client s !! i = Some c -> maxi s < Z.of_nat i ->
               flagged (Z.lor POLLRDNORM POLLERR) c = false
}.

Lemma same_lookup listenfd s q i : same_table listenfd s q -> (S i < OPEN_MAX)%nat ->
  exists c, client s !! S i = Some c /\ Select.client q !! i = Some (fd c).
Proof.
  intros [(l & E & Eq) Hs _ _] Hi. destruct (lookup_lt_is_Some_2 (client s) (S i)) as [c Hc]; [lia|].
  exists c. split; [done|]. assert (El : l !! i = Some (fd c)).
  { change (l !! i) with ((listenfd :: l) !! S i). by rewrite <- E, list_lookup_fmap, Hc. }
  rewrite Eq, lookup_app_l; [done|]. by apply lookup_lt_Some in El.
Qed.

(** A change at the same place. *)
Lemma same_alter listenfd s q i f v m m' mf as' : same_table listenfd s q -> (S i < OPEN_MAX)%nat ->
  (forall c, fd (f c) = v) -> (forall c, revents (f c) = revents c) ->
  m = m' + 1 -> maxi s <= m < Z.of_nat OPEN_MAX ->
  same_table listenfd (Server (alter f (S i) (client s)) m)
    (Select.Server (<[i := v]> (Select.client q)) m' mf as').
Proof.
  intros [(l & E & Eq) Hs Hm Hc] Hi Hf Hr -> Hmax. constructor; cbn [client maxi Select.client Select.maxi].
  - exists (<[i := v]> l). pose proof (f_equal length E) as Hlen. rewrite length_fmap in Hlen. cbn [length] in Hlen.
    split; [|rewrite Eq; apply insert_app_l; lia].
    change (listenfd :: <[i := v]> l) with (<[S i := v]> (listenfd :: l)). rewrite <- E.
    apply list_eq. intros j. rewrite list_lookup_fmap. destruct (decide (S i = j)) as [<-|Hj].
    + rewrite list_lookup_alter_eq, list_lookup_insert_eq by (rewrite length_fmap; lia).
      destruct (lookup_lt_is_Some_2 (client s) (S i)) as [c ->]; [lia|]. cbn. by rewrite Hf.
    + by rewrite list_lookup_alter_ne, list_lookup_insert_ne, list_lookup_fmap by done.
  - by rewrite length_alter.
  - lia.
  - intros j c Hj Hbig. destruct (decide (S i = j)) as [<-|Hne].
    + rewrite list_lookup_alter_eq in Hj. destruct (client s !! S i) as [c1|] eqn:E1; [|done].
      injection Hj as <-. unfold flagged. rewrite Hr. by apply (Hc (S i)); [|lia].
    + rewrite list_lookup_alter_ne in Hj by done. by apply (Hc j); [|lia].
Qed.

(** Both loops are defined, or neither. *)
Definition same_loops (listenfd : Z) (o : option (server * list event)) (o' : option (Select.server * list event)) : Prop :=
  match o, o' with
  | Some (s, es), Some (q, es') => es = es' /\ same_table listenfd s q
  | None, None => True
  | _, _ => False
  end.

Lemma same_preceded listenfd e o o' : same_loops listenfd o o' -> same_loops listenfd (preceded e o) (preceded e o').
Proof. destruct o as [[s es]|], o' as [[q es']|]; try done. intros [-> H]. by split. Qed.

Lemma serve_same listenfd a sa n : forall i k s q,
  same_table listenfd s q -> (i + n < OPEN_MAX)%nat ->
  Select.read sa = read a -> Select.written sa = written a ->
  (forall j c, (0 < j)%nat -> client s !! j = Some c -> 0 <= fd c ->
     flagged (Z.lor POLLRDNORM POLLERR) c = bool_decide (fd c ∈ rset sa)) ->
  same_loops listenfd (serve n (S i) a k s) (Select.serve n i sa k q).
Proof.
  induction n as [|n IH]; intros i k s q Hq Hn Er Ew Hfl; [by split|].
  cbn [serve Select.serve]. destruct (same_lookup listenfd s q i Hq ltac:(lia)) as (c & Ec & Eq).
  rewrite Ec, Eq. destruct (Z.ltb_spec (fd c) 0); [apply IH; done || lia|].
  rewrite (Hfl (S i) c ltac:(lia) Ec ltac:(lia)).
  destruct (decide (fd c ∈ rset sa)) as [Hin|Hin];
    [rewrite bool_decide_eq_true_2 by done|rewrite bool_decide_eq_false_2 by done; apply IH; done || lia].
  rewrite Er, Ew. destruct (read a (fd c)) as [buf|].
  - destruct (terminated buf); cbn [negb]; [|done].
    destruct (written a (fd c) buf =? Z.of_nat (length buf)); cbn [negb]; [|by split].
    destruct (k - 1 <=? 0); [by split|]. apply same_preceded, IH; done || lia.
  - set (s1 := Server _ _). set (q1 := Select.Server _ _ _ _).
    assert (H1 : same_table listenfd s1 q1).
    { pose proof (st_maxi _ _ _ Hq) as [Hm1 Hm2]. apply same_alter; try done; lia. }
    destruct (k - 1 <=? 0); [by split|]. apply same_preceded, IH; try done; [lia|].
    intros j c1 Hj Hc1 Hpos. cbn [client s1] in Hc1. destruct (decide (S i = j)) as [<-|Hne].
    + rewrite list_lookup_alter_eq, Ec in Hc1. injection Hc1 as <-. cbn in Hpos. lia.
    + rewrite list_lookup_alter_ne in Hc1 by done. by apply (Hfl j).
Qed.

(** ** A turn *)

Lemma free_place_S k l : free_place (S k) l = S <$> free_place k l.
Proof. revert k. induction l as [|f l IH]; intros k; [done|]. cbn. by destruct (f <? 0). Qed.

Lemma free_place_app k l l' i : free_place k l = Some i -> free_place k (l ++ l') = Some i.
Proof. revert k. induction l as [|f l IH]; intros k; [done|]. cbn. by destruct (f <? 0); [|apply IH]. Qed.

Lemma free_place_lt k l i : free_place k l = Some i -> (k <= i < k + length l)%nat.
Proof.
  revert k. induction l as [|f l IH]; intros k; [done|]. cbn [free_place length].
  destruct (f <? 0); [intros [= <-]; lia|]. intros Hi%IH. lia.
Qed.

Lemma free_place_full k l : free_place k l = None -> clients l = l.
Proof. intros E. pose proof (free_place_spec l k) as Hp. by rewrite E in Hp. Qed.

(** [poll] fills in [revents] only. *)
Lemma polled_lookup a s j :
  client (polled a s) !! j =
  (if decide (j < Z.to_nat (maxi s + 1))%nat then asked a <$> client s !! j else client s !! j).
Proof.
  unfold polled. cbn [client]. set (n := Z.to_nat _). case_decide as Hj.
  - destruct (decide (j < length (client s))%nat) as [Hl|Hl].
    + rewrite lookup_app_l by (rewrite length_fmap, length_take; lia).
      by rewrite list_lookup_fmap, lookup_take_lt.
    + rewrite (lookup_ge_None_2 (client s)) by lia. apply lookup_ge_None_2.
      rewrite length_app, length_fmap, length_take, length_drop. lia.
  - destruct (decide (n <= length (client s))%nat) as [Hl|Hl].
    + rewrite lookup_app_r by (rewrite length_fmap, length_take; lia).
      rewrite lookup_drop, length_fmap, length_take. f_equal. lia.
    + rewrite !(lookup_ge_None_2 _ j); [done|lia|].
      rewrite length_app, length_fmap, length_take, length_drop. lia.
Qed.

Lemma polled_fds a s : fd <$> client (polled a s) = fd <$> client s.
Proof.
  apply list_eq. intros j. rewrite !list_lookup_fmap, polled_lookup. case_decide; [|done].
  by destruct (client s !! j).
Qed.

Lemma polled_same listenfd a s q : same_table listenfd s q -> same_table listenfd (polled a s) q.
Proof.
  intros [Hf Hs Hm Hc]. constructor.
  - by rewrite polled_fds.
  - by rewrite <- (length_fmap fd), polled_fds, length_fmap.
  - done.
  - intros j c Hj Hbig. rewrite polled_lookup in Hj. cbn [polled maxi] in Hbig.
    rewrite decide_False in Hj by lia. by apply (Hc j).
Qed.

(** A place is flagged when its socket is one that [select] would report. *)
Lemma polled_flags listenfd a s q j c : same_table listenfd s q -> table_ok listenfd q ->
  (0 < j)%nat -> client (polled a s) !! j = Some c ->
  flagged (Z.lor POLLRDNORM POLLERR) c = bool_decide (fd c ∈ rset_of listenfd a q).
Proof.
  intros Hq Hok Hj Hc. pose proof (polled_same listenfd a s q Hq) as Hp.
  destruct j as [|i]; [lia|]. assert (Hi : (S i < OPEN_MAX)%nat).
  { apply lookup_lt_Some in Hc. by rewrite (st_size _ _ _ Hp) in Hc. }
  destruct (same_lookup listenfd _ q i Hp Hi) as (c' & Hc' & Eq). rewrite Hc in Hc'. injection Hc' as <-.
  assert (Hneg : fd c < 0 -> fd c ∉ rset_of listenfd a q).
  { intros Hn. unfold rset_of. rewrite elem_of_filter, (t_allset _ _ Hok).
    pose proof (t_listen _ _ Hok) as [Hl _]. intros [_ [E%elem_of_singleton|Hin]%elem_of_union]; [lia|].
    apply elem_of_list_to_set in Hin. unfold clients in Hin. apply list_elem_of_filter in Hin. lia. }
  assert (Hno : fd c ∉ rset_of listenfd a q ->
    flagged (Z.lor POLLRDNORM POLLERR) c = false ->
    flagged (Z.lor POLLRDNORM POLLERR) c = bool_decide (fd c ∈ rset_of listenfd a q)).
  { intros H1 H2. by rewrite bool_decide_eq_false_2. }
  pose proof Hc as Hc1. rewrite polled_lookup in Hc1. case_decide as Hle.
  - destruct (client s !! S i) as [c0|] eqn:E0; [|done]. injection Hc1 as <-.
    destruct (Z.ltb_spec (fd c0) 0) as [Hn|Hn].
    + apply Hno; [by apply Hneg|]. unfold flagged, asked. by rewrite (proj2 (Z.ltb_lt _ _)).
    + assert (Hin : fd c0 ∈ clients (Select.client q)).
      { unfold clients. apply list_elem_of_filter. split; [done|]. by apply (list_elem_of_lookup_2 _ i). }
      pose proof (t_listen _ _ Hok) as [_ Hl]. assert (Hne : fd c0 <> listenfd) by congruence.
      unfold flagged, asked. rewrite (proj2 (Z.ltb_ge _ _)) by done. cbn [revents fd set_revents].
      apply eq_true_iff_eq. rewrite bool_decide_eq_true. unfold rset_of. rewrite elem_of_filter.
      apply Z.eqb_neq in Hne. rewrite Hne, (t_allset _ _ Hok). set_solver.
  - apply Hno; [|apply (st_clean _ _ _ Hp (S i) c Hc); cbn [polled maxi]; lia].
    apply Hneg, (t_beyond _ _ Hok i (fd c) Eq). pose proof (st_maxi _ _ _ Hq). lia.
Qed.

Lemma alter_alter {A} (f g : A -> A) (i : nat) (l : list A) : alter g i (alter f i l) = alter (fun c => g (f c)) i l.
Proof.
  apply list_eq. intros j. destruct (decide (i = j)) as [<-|Hne].
  - rewrite !list_lookup_alter_eq. by destruct (l !! i).
  - by rewrite !list_lookup_alter_ne.
Qed.

(** Both servers take the new client in, if there is a place for both. *)
Lemma add_same listenfd connfd s q : same_table listenfd s q -> table_ok listenfd q ->
  (length (clients (Select.client q)) < OPEN_MAX - 1)%nat -> connfd < Z.of_nat FD_SETSIZE ->
  match add_client connfd s, Select.add_client connfd q with
  | Next s', Next q' => same_table listenfd s' q' /\
      exists i, client s' = alter (fun c => set_events POLLRDNORM (set_fd connfd c)) i (client s) /\
        (0 < i)%nat /\ exists c, client s !! i = Some c /\ fd c < 0
  | Exit, Exit => connfd < 0
  | _, _ => False
  end.
Proof.
  intros Hq Hok Hroom Hsmall. unfold add_client, Select.add_client. destruct (Z.ltb_spec connfd 0); [done|].
  pose proof (st_first _ _ _ Hq) as (l & El & Eq).
  assert (Efd : fd <$> drop 1 (client s) = l).
  { rewrite fmap_drop, El. done. }
  rewrite Efd. assert (Hlen : (length l = OPEN_MAX - 1)%nat).
  { pose proof (f_equal length El) as E. rewrite length_fmap, (st_size _ _ _ Hq) in E. cbn [length] in E. lia. }
  destruct (free_place 0 l) as [i|] eqn:Ei.
  - rewrite free_place_S, Ei. cbn [fmap option_fmap option_map].
    assert (Es : free_place 0 (Select.client q) = Some i) by (rewrite Eq; by apply free_place_app).
    rewrite Es, (proj2 (Z.leb_gt _ _)) by done.
    pose proof (free_place_lt 0 l i Ei). pose proof (st_maxi _ _ _ Hq) as [Hm1 Hm2].
    split.
    + rewrite alter_alter. apply same_alter; [done|unfold OPEN_MAX in *; lia|done|done|lia|unfold OPEN_MAX in *; lia].
    + exists (S i). cbn [client]. rewrite alter_alter. split; [done|]. split; [lia|].
      destruct (same_lookup listenfd s q i Hq) as (c & Hc & Hqc); [unfold OPEN_MAX in *; lia|].
      exists c. split; [done|]. pose proof (free_place_spec l 0) as Hp. rewrite Ei in Hp.
      destruct Hp as (j & f & -> & Hj & Hn). rewrite Eq, lookup_app_l in Hqc by lia. cbn in *. congruence.
  - exfalso. apply free_place_full in Ei. rewrite Eq, clients_app, Ei, length_app in Hroom. lia.
Qed.

(** What the loops come to is what the turns come to. *)
Lemma same_after listenfd es o o' (A B : Prop) :
  same_loops listenfd o o' ->
  match after es o' with Next (q', _) => table_ok listenfd q' | Exit => False | Undefined => B end ->
  match after es o, after es o' with
  | Next (s', es), Next (q', es') => es = es' /\ same_table listenfd s' q' /\ table_ok listenfd q'
  | Exit, Exit => A
  | Undefined, Undefined => B
  | _, _ => False
  end.
Proof. destruct o as [[s e]|], o' as [[q' e']|]; try done. intros [-> H] Hq. by split_and!. Qed.

(** C25: While every place's [revents] behind [maxi] is clean, there is room and
    a new descriptor is one that [FD_SET] can take, a turn of this server does
    what a turn of [Select]'s does when [select] reports the sockets that [poll]
    reports, whatever the calls answer: the same clients are accepted, served and
    closed in the same order, the same incomplete write ends the loop, the tables
    stay the same, and the one reads behind a full buffer when the other does. *)
Theorem poll_is_select listenfd a s q :
  same_table listenfd s q -> table_ok listenfd q ->
  answers_ok q (select_answers listenfd a q) ->
  (length (clients (Select.client q)) < OPEN_MAX - 1)%nat -> accepted a < Z.of_nat FD_SETSIZE ->
  match turn listenfd a s, Select.turn listenfd (select_answers listenfd a q) q with
  | Next (s', es), Next (q', es') => es = es' /\ same_table listenfd s' q' /\ table_ok listenfd q'
  | Exit, Exit => accepted a < 0
  | Undefined, Undefined => bad_text (select_answers listenfd a q) (Select.client q) = true
  | _, _ => False
  end.
Proof.
  intros Hq Hok Ha Hroom Hsmall. pose proof (turn_spec listenfd _ q Hok Ha) as Hturn.
  pose proof (polled_same listenfd a s q Hq) as Hp.
  pose proof (st_maxi _ _ _ Hq) as [Hm1 Hm2].
  assert (Hfl : forall j c, (0 < j)%nat -> client (polled a s) !! j = Some c ->
    flagged (Z.lor POLLRDNORM POLLERR) c = bool_decide (fd c ∈ rset_of listenfd a q)).
  { intros j c Hj Hc. by apply (polled_flags listenfd a s q j c). }
  assert (Hfirst : exists c0 rest, client (polled a s) = c0 :: rest /\
    flagged POLLRDNORM c0 = bool_decide (listenfd ∈ rset_of listenfd a q)).
  { pose proof (st_first _ _ _ Hp) as (l & El & _).
    destruct (client (polled a s)) as [|c0 rest] eqn:Ec; [done|]. injection El as Hfd _.
    exists c0, rest. split; [done|].
    assert (Hc0 : client (polled a s) !! 0%nat = Some c0) by by rewrite Ec.
    rewrite polled_lookup, decide_True in Hc0 by lia. destruct (client s !! 0%nat) as [c|]; [|done].
    injection Hc0 as <-. cbn [asked set_revents fd] in Hfd. pose proof (t_listen _ _ Hok) as [Hl _].
    unfold flagged, asked. rewrite Hfd, (proj2 (Z.ltb_ge _ _)) by done. cbn [revents set_revents].
    apply eq_true_iff_eq. rewrite bool_decide_eq_true. unfold rset_of.
    rewrite elem_of_filter, Z.eqb_refl, (t_allset _ _ Hok). set_solver. }
  destruct Hfirst as (c0 & rest & Ec & Hc0). unfold turn, Select.turn in *. rewrite Ec, Hc0.
  cbn [select_answers Select.rset Select.accepted Select.nready] in *.
  case_bool_decide as Hin.
  - rewrite decide_True in * by done.
    pose proof (add_same listenfd (accepted a) (polled a s) q Hp Hok Hroom Hsmall) as Hadd.
    destruct (add_client (accepted a) (polled a s)) as [s1| |], (Select.add_client (accepted a) q) as [q1| |]; try done.
    destruct Hadd as (H1 & i & Hi & Hpos & c & Hc & Hneg). pose proof (st_maxi _ _ _ H1) as [Hm3 Hm4].
    destruct (nready a - 1 <? 0); [by destruct Hturn as (_ & ? & _)|].
    replace (Z.to_nat (maxi s1)) with (Z.to_nat (Select.maxi q1 + 1)) by lia.
    assert (Hsame : same_loops listenfd (serve (Z.to_nat (Select.maxi q1 + 1)) 1 a (nready a - 1) s1)
      (Select.serve (Z.to_nat (Select.maxi q1 + 1)) 0 (select_answers listenfd a q) (nready a - 1) q1)).
    { apply serve_same; [done|lia|done|done|]. intros j c1 Hj Hc1 _. rewrite Hi in Hc1. destruct (decide (i = j)) as [<-|Hne].
      - rewrite list_lookup_alter_eq, Hc in Hc1. injection Hc1 as <-.
        cbn [fd set_events set_fd]. change (flagged (Z.lor POLLRDNORM POLLERR) (set_events POLLRDNORM (set_fd (accepted a) c)))
          with (flagged (Z.lor POLLRDNORM POLLERR) c). rewrite (Hfl i c Hpos Hc).
        pose proof (a_fresh _ _ Ha) as Hf. cbn [select_answers Select.accepted] in Hf.
        pose proof (t_allset _ _ Hok) as Hal. pose proof (t_listen _ _ Hok) as [Hl _].
        cbn [select_answers Select.rset]. rewrite !bool_decide_eq_false_2; [done|..].
        + unfold rset_of. rewrite elem_of_filter. tauto.
        + unfold rset_of. rewrite elem_of_filter.
           intros [_ Hbad]. rewrite Hal in Hbad. apply elem_of_union in Hbad as [E%elem_of_singleton|Hbad]; [lia|].
           apply elem_of_list_to_set in Hbad. unfold clients in Hbad. apply list_elem_of_filter in Hbad. lia.
      - rewrite list_lookup_alter_ne in Hc1 by done. by apply (Hfl j). }
    apply same_after; [done|].
    revert Hturn. destruct (Select.serve _ _ _ _ _) as [[q' es']|]; cbn [after]; [by intros (_ & H & _)|].
    intros [[_ Hbig]|Hbad]; [lia|done].
  - rewrite decide_False in * by done.
    replace (Z.to_nat (maxi (polled a s))) with (Z.to_nat (Select.maxi q + 1)) by (cbn [polled maxi]; lia).
    assert (Hsame : same_loops listenfd (serve (Z.to_nat (Select.maxi q + 1)) 1 a (nready a) (polled a s))
      (Select.serve (Z.to_nat (Select.maxi q + 1)) 0 (select_answers listenfd a q) (nready a) q)).
    { apply serve_same; [done|lia|done|done|]. intros j c1 Hj Hc1 _. by apply (Hfl j). }
    apply same_after; [done|].
    revert Hturn. destruct (Select.serve _ _ _ _ _) as [[q' es']|]; cbn [after]; [by intros (_ & H & _)|].
    intros [[_ Hbig]|Hbad]; [lia|done].
Qed.

(** The first turn is like [Select]'s when the stack was clean. *)
Lemma start_same listenfd stack :
  length stack = OPEN_MAX -> Forall (fun c => flagged (Z.lor POLLRDNORM POLLERR) c = false) stack ->
  same_table listenfd (start listenfd stack) (Select.start listenfd).
Proof.
  intros Hl Hc. destruct stack as [|c stack]; [done|]. cbn [length] in Hl.
  apply Forall_cons in Hc as [_ Hc]. constructor; cbn [start client maxi Select.start Select.client Select.maxi].
  - exists (replicate (length stack) (-1)). rewrite fmap_cons. cbn [fd]. split.
    + f_equal. clear. induction stack as [|c stack IH]; [done|]. cbn. by rewrite <- IH.
    + change [-1] with (replicate 1 (-1)). rewrite <- replicate_add. f_equal. unfold FD_SETSIZE, OPEN_MAX in *. lia.
  - cbn [length]. by rewrite length_fmap.
  - unfold OPEN_MAX. lia.
  - intros [|i] c1 Hi Hbig; [lia|]. change ((set_fd (-1) <$> stack) !! i = Some c1) in Hi.
    rewrite list_lookup_fmap in Hi.
    destruct (stack !! i) as [c2|] eqn:E; [|done]. injection Hi as <-.
    rewrite Forall_lookup in Hc. exact (Hc i c2 E).
Qed.

(** When it was not: a client that has just connected, and that [poll] has not
    been asked about, is read at once. *)
Lemma stack_is_read listenfd a c0 c1 stack data :
  0 <= listenfd -> flagged (Z.lor POLLRDNORM POLLERR) c1 = true ->
  Z.land (reported a listenfd) POLLRDNORM <> 0 -> 0 <= accepted a -> nready a = 1 ->
  read a (accepted a) = Some data -> terminated data = true -> written a (accepted a) data = Z.of_nat (length data) ->
  exists s', turn listenfd a (start listenfd (c0 :: c1 :: stack)) =
    Next (s', [Accepted (accepted a); Echoed (accepted a) data]).
Proof.
  intros Hl Hc1 Hrep Hacc Hn Hr Ht Hw. unfold turn, start, polled. cbn [client maxi].
  change (Z.to_nat (0 + 1)) with 1%nat. cbn [take drop fmap list_fmap app].
  unfold asked at 1. cbn [fd set_revents]. rewrite (proj2 (Z.ltb_ge listenfd 0)) by done.
  unfold flagged at 1. cbn [revents set_revents]. apply Z.eqb_neq in Hrep. rewrite Hrep. cbn [negb].
  unfold add_client. rewrite (proj2 (Z.ltb_ge (accepted a) 0)) by done.
  cbn [client drop fmap list_fmap free_place fd set_fd].
  change (-1 <? 0) with true. cbn iota beta. rewrite Hn. change (1 - 1 <? 0) with false. cbn iota.
  cbn [maxi]. change (Z.to_nat (Z.max 0 (Z.of_nat 1))) with 1%nat.
  cbn [serve client alter list_alter lookup list_lookup fd set_fd set_events].
  rewrite (proj2 (Z.ltb_ge (accepted a) 0)) by done.
  match goal with |- context [flagged ?m ?c] => change (flagged m c) with (flagged m c1) end.
  rewrite Hc1, Hr, Ht, Hw, Z.eqb_refl. cbn [negb]. by eexists.
Qed.

Definition two_clients : server :=
  Server (Pollfd 3 POLLRDNORM 0 :: Pollfd 4 POLLRDNORM 0 :: Pollfd 5 POLLRDNORM 0 ::
          replicate (OPEN_MAX - 3) (Pollfd (-1) 0 0)) 2.

Definition hello_from_5 : answers :=
  Answers (fun f => if f =? 5 then POLLRDNORM else 0) 1 6
    (fun f => if f =? 5 then Some (lit "hello") else None) (fun _ buf => Z.of_nat (length buf)).

Lemma two_clients_same : same_table 3 two_clients Select.two_clients.
Proof.
  constructor.
  - exists (4 :: 5 :: replicate (OPEN_MAX - 3) (-1)). split; by vm_compute.
  - by vm_compute.
  - cbn. unfold OPEN_MAX. lia.
  - intros i c Hi Hbig. cbn [client two_clients maxi] in *. destruct i as [|[|[|i]]]; [lia..|].
    cbn in Hi. change (list_lookup i (replicate (OPEN_MAX - 3) (Pollfd (-1) 0 0)) = Some c) in Hi.
    apply (lookup_replicate _ _ _ i) in Hi as [-> _]. by vm_compute.
Qed.

Lemma poll_is_select_witness :
  match turn 3 hello_from_5 two_clients,
        Select.turn 3 (select_answers 3 hello_from_5 Select.two_clients) Select.two_clients with
  | Next (s', es), Next (q', es') => es = es' /\ same_table 3 s' q' /\ table_ok 3 q'
  | Exit, Exit => accepted hello_from_5 < 0
  | Undefined, Undefined =>
      bad_text (select_answers 3 hello_from_5 Select.two_clients) (Select.client Select.two_clients) = true
  | _, _ => False
  end.
Proof.
  apply (poll_is_select 3 hello_from_5 two_clients Select.two_clients).
  - exact two_clients_same.
  - exact two_clients_ok.
  - constructor.
    + unfold select_answers, rset_of. cbn [Select.rset]. set_solver.
    + vm_compute. reflexivity.
    + apply (bool_decide_unpack _). vm_compute. exact I.
  - vm_compute. lia.
  - unfold FD_SETSIZE. cbn. lia.
Defined.
