(* ===== verification/Epoll.v ===== *)
(** * Epoll: the echo server of [src/socket_test/epoll_socket/server.c]

    The server with [epoll]: a client that has been read waits until it can be
    written, but [buf] and [n] are the same for all clients. What the calls
    answer comes with each event; [None] of [count] is a variable nobody has
    set, and [Undefined] an access outside an array. *)
From stdpp Require Import gmap sets fin_sets.
From S2P Require Import Prelude.
From S2P Require Import CString.

Open Scope C.

Definition CONNECT_SIZE : nat := 256.
Definition MAX_LINE : nat := 2048.
(** The length of [events]. *)
Definition EVENTS : nat := 20.
Definition EPOLLIN : Z := 0x1.
Definition EPOLLOUT : Z := 0x4.
Definition EPOLLET : Z := 0x80000000.

(** The registered descriptors, the buffer's text and [n]. *)
Record server := Server { interest : gmap Z Z; buf : chars; count : option Z }.

(** An event, with what [accept], [read] (count and bytes) and [write] answer if
    they are called for it. *)
Record ready := Ready {
  fd : Z; events : Z;
  accepted : Z; got : Z * chars; wrote : Z -> Z
}.

Inductive event :=
  | Accepted (fd : Z)
  | Closed (fd : Z)
  | Got (fd : Z) (data : chars)
  | Sent (fd : Z) (data : chars)
  | WriteFailed (fd : Z).

Inductive outcome :=
  | Next (s : server) (es : list event)
  | Break (s : server) (es : list event)
  | Exit (es : list event)
  | Undefined.

Definition after (es : list event) (o : outcome) : outcome :=
  match o with
  | Next s es' => Next s (es ++ es')
  | Break s es' => Break s (es ++ es')
  | Exit es' => Exit (es ++ es')
  | Undefined => Undefined
  end.

(** [epoll_ctl] with [EPOLL_CTL_ADD] or [EPOLL_CTL_MOD] *)
Definition epoll_ctl (f ev : Z) (m : gmap Z Z) : gmap Z Z := <[f := ev]> m.

Definition any (ev mask : Z) : bool := negb (Z.land ev mask =? 0).

(** The body of [for(i=0 ; i<nfds ; ++i)]. *)
Definition serve_event (listenfd : Z) (r : ready) (s : server) : outcome :=
  if fd r =? listenfd then
    if accepted r <? 0 then Exit []
    else
      Next (Server (epoll_ctl (accepted r) (Z.lor EPOLLIN EPOLLET) (interest s)) (buf s) (count s))
        [Accepted (accepted r)]
  else if any (events r) EPOLLIN then
    if fd r <? 0 then Next s []
    else
      let '(n, data) := got r in
      if n <=? 0 then
        Next (Server (base.delete (fd r) (interest s)) [] (Some n)) [Closed (fd r)]
      else if Z.of_nat MAX_LINE <=? n then Undefined
      else
        Next (Server (epoll_ctl (fd r) (Z.lor EPOLLOUT EPOLLET) (interest s)) data (Some n))
          [Got (fd r) data]
  else if any (events r) EPOLLOUT then
    if fd r <? 0 then Next s []
    else
      match count s with
      | None => Undefined
      | Some n =>
          if negb (wrote r n =? n) then Break s [WriteFailed (fd r)]
          else
            Next (Server (epoll_ctl (fd r) (Z.lor EPOLLIN EPOLLET) (interest s)) (buf s) (count s))
              [Sent (fd r) (take (Z.to_nat n) (buf s))]
      end
  else Next s [].

Fixpoint serve_events (listenfd : Z) (rs : list ready) (s : server) : outcome :=
  match rs with
  | [] => Next s []
  | r :: rs =>
      match serve_event listenfd r s with
      | Next s es => after es (serve_events listenfd rs s)
      | o => o
      end
  end.

(** A turn of [while(1)]: up to [CONNECT_SIZE] events are written to [events]. *)
Definition turn (listenfd : Z) (rs : list ready) (s : server) : outcome :=
  if (EVENTS <? length rs)%nat then Undefined else serve_events listenfd rs s.

Fixpoint run (listenfd : Z) (turns : list (list ready)) (s : server) : outcome :=
  match turns with
  | [] => Next s []
  | rs :: turns =>
      match turn listenfd rs s with
      | Next s es | Break s es => after es (run listenfd turns s)
      | o => o
      end
  end.

(** Steps before the loop. *)
Definition start (listenfd : Z) : server :=
  Server (epoll_ctl listenfd (Z.lor EPOLLIN EPOLLET) ∅) [] None.

(** ** When each client gets its own data *)

(** The clients that have been read and not answered. *)
Definition waiting (s : server) : gmap Z Z := filter (fun '(_, ev) => any ev EPOLLOUT = true) (interest s).

(** An event of the kernel: for a descriptor registered for it, with as many
    bytes as [read] says; the new connection has a descriptor of its own. *)
Record event_ok (listenfd : Z) (r : ready) (s : server) : Prop := EventOk {
  e_in : fd r <> listenfd -> any (events r) EPOLLIN = true ->
    exists ev, interest s !! fd r = Some ev /\ any ev EPOLLIN = true;
  e_out : fd r <> listenfd -> any (events r) EPOLLOUT = true ->
    exists ev, interest s !! fd r = Some ev /\ any ev EPOLLOUT = true;
  e_got : 0 < fst (got r) -> fst (got r) = Z.of_nat (length (snd (got r)));
  e_new : fd r = listenfd -> interest s !! accepted r = None
}.

(** Nobody is read while somebody waits, and no line fills the buffer. *)
Definition calm (listenfd : Z) (r : ready) (s : server) : Prop :=
  fd r <> listenfd -> any (events r) EPOLLIN = true ->
  waiting s = ∅ /\ fst (got r) < Z.of_nat MAX_LINE.

Fixpoint calm_events (listenfd : Z) (rs : list ready) (s : server) : Prop :=
  match rs with
  | [] => True
  | r :: rs =>
      event_ok listenfd r s /\ calm listenfd r s /\
      match serve_event listenfd r s with
      | Next s _ => calm_events listenfd rs s
      | _ => True
      end
  end.

Fixpoint calm_run (listenfd : Z) (turns : list (list ready)) (s : server) : Prop :=
  match turns with
  | [] => True
  | rs :: turns =>
      calm_events listenfd rs s /\
      match turn listenfd rs s with
      | Next s _ | Break s _ => calm_run listenfd turns s
      | _ => True
      end
  end.

(** What is sent is what the same client has just said; [pending] is the client
    that waits, with its data. *)
Fixpoint echoes (pending : option (Z * chars)) (es : list event) : Prop :=
  match es with
  | [] => True
  | Accepted _ :: es => echoes pending es
  | Closed _ :: es => pending = None /\ echoes None es
  | Got f data :: es => pending = None /\ echoes (Some (f, data)) es
  | Sent f data :: es => pending = Some (f, data) /\ echoes None es
  | WriteFailed f :: es => (exists data, pending = Some (f, data)) /\ echoes pending es
  end.

(** The one that waits is the one whose data is in the buffer. *)
Definition owns (pending : option (Z * chars)) (s : server) : Prop :=
  match pending with
  | None => waiting s = ∅
  | Some (f, data) =>
      dom (waiting s) = {[f]} /\ buf s = data /\ count s = Some (Z.of_nat (length data))
  end.

Definition result_ok (pending : option (Z * chars)) (o : outcome) : Prop :=
  match o with
  | Next s es | Break s es =>
      exists p, owns p s /\ forall es', echoes p es' -> echoes pending (es ++ es')
  | Exit es => echoes pending es
  | Undefined => False
  end.

Lemma waiting_out f ev s : interest s !! f = Some ev -> any ev EPOLLOUT = true -> f ∈ dom (waiting s).
Proof. intros E Ho. apply elem_of_dom. exists ev. unfold waiting. by apply map_lookup_filter_Some. Qed.

Lemma waiting_in f m b n :
  waiting (Server (epoll_ctl f (Z.lor EPOLLIN EPOLLET) m) b n) = base.delete f (waiting (Server m b n)).
Proof.
  unfold waiting, epoll_ctl. cbn [interest]. rewrite map_filter_insert.
  rewrite decide_False by (by vm_compute). by rewrite map_filter_delete.
Qed.

Lemma next_ok pending p s es :
  owns p s -> (forall es', echoes p es' -> echoes pending (es ++ es')) -> result_ok pending (Next s es).
Proof. intros Hp He. by exists p. Qed.

Lemma serve_event_ok listenfd r s pending :
  owns pending s -> event_ok listenfd r s -> calm listenfd r s ->
  result_ok pending (serve_event listenfd r s).
Proof.
  intros Hp [Hin Hout Hgot Hnew] Hcalm. unfold serve_event, calm in *.
  destruct (Z.eqb_spec (fd r) listenfd) as [El|Hl].
  { destruct (accepted r <? 0); [done|]. apply (next_ok _ pending); [|done].
    assert (Hw : waiting (Server (epoll_ctl (accepted r) (Z.lor EPOLLIN EPOLLET) (interest s)) (buf s) (count s)) =
      waiting s).
    { rewrite waiting_in. apply delete_id. unfold waiting. cbn [interest].
      apply map_lookup_filter_None. left. by apply Hnew. }
    destruct pending as [[f data]|]; cbn [owns buf count] in *; by rewrite Hw. }
  destruct (any (events r) EPOLLIN) eqn:Ein.
  - destruct (Hcalm Hl eq_refl) as [Hw Hlen].
    assert (Hpend : pending = None).
    { destruct pending as [[f data]|]; [|done]. destruct Hp as [Hd _]. rewrite Hw in Hd. set_solver. }
    subst pending. destruct (fd r <? 0); [by apply (next_ok _ None)|].
    destruct (got r) as [n data]. cbn [fst snd] in *. destruct (Z.leb_spec n 0).
    + apply (next_ok _ None); [|done]. cbn [owns]. unfold waiting in *. cbn [interest] in *.
      by rewrite map_filter_delete, Hw, delete_empty.
    + rewrite (proj2 (Z.leb_gt _ _)) by done. apply (next_ok _ (Some (fd r, data))); [|done].
      cbn [owns buf count]. rewrite (Hgot ltac:(lia)). split; [|done].
      unfold waiting, epoll_ctl in *. cbn [interest] in *. rewrite map_filter_insert.
      rewrite decide_True by (by vm_compute). rewrite Hw. set_solver.
  - destruct (any (events r) EPOLLOUT) eqn:Eout; [|by apply (next_ok _ pending)].
    destruct (fd r <? 0); [by apply (next_ok _ pending)|].
    destruct (Hout Hl eq_refl) as (ev & Hev & Hbit). pose proof (waiting_out _ _ _ Hev Hbit) as Hdom.
    destruct pending as [[f data]|]; cbn [owns] in Hp; [|rewrite Hp in Hdom; set_solver].
    destruct Hp as (Hd & Hb & Hc). rewrite Hd in Hdom. apply elem_of_singleton in Hdom as <-. rewrite Hc.
    destruct (wrote r (Z.of_nat (length data)) =? Z.of_nat (length data)); cbn [negb].
    + apply (next_ok _ None).
      * cbn [owns]. rewrite waiting_in. apply dom_empty_inv_L. rewrite dom_delete_L.
        unfold waiting in *. cbn [interest]. rewrite Hd. set_solver.
      * intros es' He. cbn [app echoes]. rewrite Hb, Nat2Z.id, firstn_all. by split.
    + exists (Some (fd r, data)). split; [by split|]. intros es' He. cbn [app echoes]. split; [by exists data|done].
Qed.

Lemma after_ok p pending es o :
  (forall es', echoes p es' -> echoes pending (es ++ es')) -> result_ok p o -> result_ok pending (after es o).
Proof.
  intros He. destruct o as [s es'|s es'|es'|]; cbn [result_ok after]; [| |apply He|done];
    intros (q & Hq & Hs); exists q; (split; [done|]); intros es2 H2; rewrite <- app_assoc; by apply He, Hs.
Qed.

Lemma serve_events_ok listenfd rs : forall s pending,
  owns pending s -> calm_events listenfd rs s -> result_ok pending (serve_events listenfd rs s).
Proof.
  induction rs as [|r rs IH]; intros s pending Hp Hc; [by apply (next_ok _ pending)|].
  cbn [serve_events calm_events] in *. destruct Hc as (Hok & Hcalm & Hrest).
  pose proof (serve_event_ok listenfd r s pending Hp Hok Hcalm) as Hr.
  destruct (serve_event listenfd r s) as [s1 es| | |]; [|done..].
  destruct Hr as (p & Hp1 & He). apply (after_ok p); [done|]. by apply IH.
Qed.

(** Some turn has more events than [events] has places. *)
Definition crowded (turns : list (list ready)) : Prop := Exists (fun rs => (EVENTS < length rs)%nat) turns.

(** Runs of calm turns *)
Lemma run_ok listenfd turns : forall s pending, owns pending s -> calm_run listenfd turns s ->
  result_ok pending (run listenfd turns s) \/ run listenfd turns s = Undefined /\ crowded turns.
Proof.
  induction turns as [|rs turns IH]; intros s pending Hp Hc; [left; by apply (next_ok _ pending)|].
  cbn [run calm_run] in *. destruct Hc as (Hev & Hrest). unfold turn in *.
  destruct (Nat.ltb_spec EVENTS (length rs)) as [Hmany|Hfew]; [right; split; [done|by apply Exists_cons_hd]|].
  pose proof (serve_events_ok listenfd rs s pending Hp Hev) as Hr.
  destruct (serve_events listenfd rs s) as [s1 es|s1 es|es|]; [| |by left|done];
    destruct Hr as (p & Hp1 & He); (destruct (IH s1 p Hp1 Hrest) as [Hok|[-> Hcr]];
      [left; by apply (after_ok p)|right; split; [done|by apply Exists_cons_tl]]).
Qed.

(** C26: As long as no client is read while another waits for its answer, and
    lines are shorter than the buffer, the server never uses [n] before it is
    set, never writes behind [buf], and sends every client what this client, and
    no other, has said last; the only array it can leave is [events], and only in
    a turn for which [epoll_wait], which may report 256, reports more than the 20
    events that [events] can hold. *)
Theorem epoll_echoes listenfd turns s :
  waiting s = ∅ -> calm_run listenfd turns s ->
  match run listenfd turns s with
  | Undefined => crowded turns
  | o => result_ok None o
  end.
Proof.
  intros Hw Hc. destruct (run_ok listenfd turns s None Hw Hc) as [Hok|[-> Hcr]]; [|done].
  by destruct (run listenfd turns s).
Qed.

(** When two clients are read before the first is answered, both are sent
    what the second has said; when the second has ended instead, the first is
    sent nothing. A line that fills the buffer is terminated behind it, and more
    than 20 events at once are stored behind [events]. *)
Theorem epoll_mixes listenfd f g a b s :
  f <> listenfd -> g <> listenfd -> 0 <= f -> 0 <= g ->
  (0 < length a < MAX_LINE)%nat -> (0 < length b < MAX_LINE)%nat ->
  let reads h data := Ready h EPOLLIN 0 (Z.of_nat (length data), data) (fun n => n) in
  let writable h := Ready h EPOLLOUT 0 (0, []) (fun n => n) in
  (exists s', run listenfd [[reads f a; reads g b]; [writable f; writable g]] s =
     Next s' [Got f a; Got g b; Sent f b; Sent g b]) /\
  (exists s', run listenfd [[reads f a; reads g []]; [writable f]] s =
     Next s' [Got f a; Closed g; Sent f []]) /\
  (forall line, length line = MAX_LINE -> run listenfd [[reads f line]] s = Undefined) /\
  (forall rs, (EVENTS < length rs)%nat -> run listenfd [rs] s = Undefined).
Proof.
  intros Hf Hg Hf0 Hg0 Ha Hb reads writable.
  assert (Hread : forall h line s, h <> listenfd -> 0 <= h -> (0 < length line < MAX_LINE)%nat ->
    serve_event listenfd (reads h line) s =
      Next (Server (epoll_ctl h (Z.lor EPOLLOUT EPOLLET) (interest s)) line (Some (Z.of_nat (length line))))
        [Got h line]).
  { intros h line st Hh Hh0 Hline. unfold serve_event, reads. cbn [fd events got].
    rewrite (proj2 (Z.eqb_neq _ _)) by done. change (any EPOLLIN EPOLLIN) with true. cbn iota.
    rewrite (proj2 (Z.ltb_ge _ _)), (proj2 (Z.leb_gt _ _)), (proj2 (Z.leb_gt _ _)) by lia. done. }
  assert (Hwrite : forall h line n s, h <> listenfd -> 0 <= h -> buf s = line -> count s = Some n ->
    serve_event listenfd (writable h) s =
      Next (Server (epoll_ctl h (Z.lor EPOLLIN EPOLLET) (interest s)) line (Some n))
        [Sent h (take (Z.to_nat n) line)]).
  { intros h line n st Hh Hh0 Hbuf Hn. unfold serve_event, writable. cbn [fd events wrote].
    rewrite (proj2 (Z.eqb_neq _ _)) by done. change (any EPOLLOUT EPOLLIN) with false.
    change (any EPOLLOUT EPOLLOUT) with true. cbn iota. rewrite (proj2 (Z.ltb_ge _ _)) by done.
    by rewrite Hn, Z.eqb_refl, Hbuf. }
  assert (Hclose : forall h s, h <> listenfd -> 0 <= h ->
    serve_event listenfd (reads h []) s = Next (Server (base.delete h (interest s)) [] (Some 0)) [Closed h]).
  { intros h st Hh Hh0. unfold serve_event, reads. cbn [fd events got].
    rewrite (proj2 (Z.eqb_neq _ _)), (proj2 (Z.ltb_ge _ _)) by done. done. }
  split; [|split; [|split]].
  - cbn [run turn serve_events length]. unfold turn. cbn [length]. change (EVENTS <? 2)%nat with false. cbn iota.
    cbn [serve_events]. rewrite !Hread by done. cbn [after app].
    rewrite (Hwrite f b (Z.of_nat (length b))), (Hwrite g b (Z.of_nat (length b))) by done.
    cbn [after app]. rewrite Nat2Z.id, firstn_all. by eexists.
  - cbn [run]. unfold turn. cbn [length]. change (EVENTS <? 2)%nat with false. change (EVENTS <? 1)%nat with false.
    cbn iota. cbn [serve_events]. rewrite Hread by done. cbn [after app].
    rewrite Hclose by done. cbn [after app].
    rewrite (Hwrite f [] 0) by done. by eexists.
  - intros line Hline. cbn [run]. unfold turn. cbn [length]. change (EVENTS <? 1)%nat with false. cbn iota.
    cbn [serve_events]. unfold serve_event, reads. cbn [fd events got].
    rewrite (proj2 (Z.eqb_neq _ _)) by done. change (any EPOLLIN EPOLLIN) with true. cbn iota.
    rewrite (proj2 (Z.ltb_ge _ _)) by done. unfold MAX_LINE in *.
    by rewrite (proj2 (Z.leb_gt _ _)), (proj2 (Z.leb_le _ _)) by lia.
  - intros rs Hrs. cbn [run]. unfold turn. by rewrite (proj2 (Nat.ltb_lt _ _)).
Qed.

(** Descriptor 3 listens; 5 and 6 have connected. *)
Definition two_clients : server :=
  Server (epoll_ctl 6 (Z.lor EPOLLIN EPOLLET) (epoll_ctl 5 (Z.lor EPOLLIN EPOLLET) (interest (start 3)))) [] None.

Definition line_from (f : Z) (data : chars) : ready :=
  Ready f EPOLLIN 0 (Z.of_nat (length data), data) (fun n => n).
Definition room_for (f : Z) : ready := Ready f EPOLLOUT 0 (0, []) (fun n => n).

Definition in_turn : list (list ready) :=
  [[line_from 5 (lit "hello")]; [room_for 5; line_from 6 (lit "hi")]; [room_for 6]].

Lemma epoll_echoes_witness :
  calm_run 3 in_turn two_clients /\ result_ok None (run 3 in_turn two_clients).
Proof.
  assert (Hc : calm_run 3 in_turn two_clients).
  { vm_compute. repeat split; intros; try (eexists; split; reflexivity); try discriminate; try lia. }
  split; [exact Hc|]. pose proof (epoll_echoes 3 in_turn two_clients ltac:(by vm_compute) Hc) as H.
  destruct (run 3 in_turn two_clients) eqn:E; [exact H..|]. vm_compute in E. discriminate E.
Defined.

Lemma epoll_mixes_witness :
  exists s', run 3 [[line_from 5 (lit "hello"); line_from 6 (lit "hi")]; [room_for 5; room_for 6]] two_clients =
    Next s' [Got 5 (lit "hello"); Got 6 (lit "hi"); Sent 5 (lit "hi"); Sent 6 (lit "hi")].
Proof.
  apply (epoll_mixes 3 5 6 (lit "hello") (lit "hi") two_clients); try lia; vm_compute; lia.
Defined.
