(* ===== verification/ChatLoop.v ===== *)
(** * ChatLoop: the accept and select loop of the chat server

    [main] of [src/socket_test/ChatRome -- select/server/server.c] and the
    threads it starts. The table of sockets and the branch for a connection are
    written as in the echo server's [main] and share its definitions. [main]
    gives every thread the address of its own variable [sockfd], which the
    thread reads when it begins and sets to -1 when it ends: a step is one
    statement of [main] or one of these accesses. *)
From stdpp Require Import gmap sets fin_sets relations.
From S2P Require Import Prelude.
From S2P Require Import CString.
From S2P Require Import Steps.
From S2P Require Import Select.

Open Scope C.

(** Where [main] is. A negative socket given to [FD_ISSET] or [FD_CLR], or one
    too large given to [FD_SET], is outside the set's array: [Broken]. *)
Inductive main_pc :=
  | Selecting         (** [select] *)
  | At (i : nat)      (** the head of the loop over the places *)
  | Chosen (i : nat)  (** [if(FD_ISSET(sockfd , &rset))] *)
  | Clearing (i : nat) (** [FD_CLR(sockfd , &allset); client_sockfd[i] = -1;] *)
  | Exited
  | Broken.

#[global] Instance main_pc_eq_dec : EqDecision main_pc.
Proof. solve_decision. Defined.

(** A thread before [sockfd = *fd], while it serves its client, and behind
    [*fd = -1]. *)
Inductive thread := Fresh | Serving (fd : Z) | Done (fd : Z).

#[global] Instance thread_eq_dec : EqDecision thread.
Proof. solve_decision. Defined.

Record config := Config {
  table : server;
  sockfd : Z;
  ready : gset Z;
  left_ : Z;          (** [nready] *)
  pc : main_pc;
  threads : list thread
}.

(** [select] answers [a]. *)
Definition after_select (listenfd : Z) (a : answers) (c : config) : config :=
  if decide (listenfd ∈ rset a) then
    match add_client (accepted a) (table c) with
    | Exit => Config (table c) (sockfd c) (rset a) (nready a) Exited (threads c)
    | Undefined => Config (table c) (sockfd c) (rset a) (nready a) Broken (threads c)
    | Next t =>
        if nready a - 1 <=? 0 then
          Config t (sockfd c) (rset a) (nready a - 1) Selecting (threads c)
        else Config t (sockfd c) (rset a) (nready a - 1) (At 0) (threads c)
    end
  else Config (table c) (sockfd c) (rset a) (nready a) (At 0) (threads c).

(** The statements of the loop over the places. *)
Definition main_step (c : config) : option config :=
  let goto p := Config (table c) (sockfd c) (ready c) (left_ c) p (threads c) in
  match pc c with
  | At i =>
      if maxi (table c) <? Z.of_nat i then Some (goto Selecting)
      else
        match client (table c) !! i with
        | None => Some (goto Broken)
        | Some fd =>
            Some (Config (table c) fd (ready c) (left_ c)
                    (if fd <? 0 then At (S i) else Chosen i) (threads c))
        end
  | Chosen i =>
      if sockfd c <? 0 then Some (goto Broken)
      else if decide (sockfd c ∈ ready c) then
        let n := left_ c - 1 in
        if n <? 0 then Some (Config (table c) (sockfd c) (ready c) n Selecting (threads c))
        else Some (Config (table c) (sockfd c) (ready c) n (Clearing i) (threads c ++ [Fresh]))
      else Some (goto (Clearing i))
  | Clearing i =>
      if sockfd c <? 0 then Some (goto Broken)
      else
        let t := table c in
        Some (Config (Server (<[i := -1]> (client t)) (maxi t) (maxfd t) (allset t ∖ {[sockfd c]}))
                (sockfd c) (ready c) (left_ c) (At (S i)) (threads c))
  | _ => None
  end.

(** [sockfd = *fd;] of thread [k]. *)
Definition handle_start (k : nat) (c : config) : option config :=
  match threads c !! k with
  | Some Fresh =>
      Some (Config (table c) (sockfd c) (ready c) (left_ c) (pc c)
              (<[k := Serving (sockfd c)]> (threads c)))
  | _ => None
  end.

(** [*fd = -1;] *)
Definition handle_end (k : nat) (c : config) : option config :=
  match threads c !! k with
  | Some (Serving fd) =>
      Some (Config (table c) (-1) (ready c) (left_ c) (pc c) (<[k := Done fd]> (threads c)))
  | _ => None
  end.

(** A statement of [main] in the loop, or the beginning of a thread. *)
Inductive loop_step : config -> config -> Prop :=
  | step_main c c' : main_step c = Some c' -> loop_step c c'
  | step_start k c c' : handle_start k c = Some c' -> loop_step c c'.

(** All steps. *)
Inductive step (listenfd : Z) : config -> config -> Prop :=
  | step_loop c c' : loop_step c c' -> step listenfd c c'
  | step_select a c : pc c = Selecting -> answers_ok (table c) a ->
      step listenfd c (after_select listenfd a c)
  | step_end k c c' : handle_end k c = Some c' -> step listenfd c c'.

(** Before the first [select]. *)
Definition listening (listenfd : Z) : config :=
  Config (start listenfd) 0 ∅ 0 Selecting [].

(** ** Clearing a place *)

Lemma clients_clear l i fd :
  l !! i = Some fd -> 0 <= fd -> clients l ≡ₚ fd :: clients (<[i := -1]> l).
Proof.
  intros Hi Hp. pose proof (lookup_lt_Some _ _ _ Hi) as Hlt.
  pose proof (clients_insert (<[i := -1]> l) i (-1) fd) as H.
  rewrite list_insert_insert_eq, (list_insert_id _ _ _ Hi) in H.
  apply H; [by apply list_lookup_insert_eq|lia|done].
Qed.

Lemma cleared_ok listenfd t i fd :
  table_ok listenfd t -> client t !! i = Some fd -> 0 <= fd ->
  table_ok listenfd (Server (<[i := -1]> (client t)) (maxi t) (maxfd t) (allset t ∖ {[fd]})).
Proof.
  intros [Hs Hm Hb Hnd [Hl0 Hl] Ha Hmax Hbel] Hi Hp.
  pose proof (clients_clear (client t) i fd Hi Hp) as Hperm.
  rewrite Hperm in Hnd, Hl. apply NoDup_cons in Hnd as [Hnot Hnd].
  constructor; cbn [client maxi maxfd allset]; try done.
  - by rewrite length_insert.
  - intros j g Hj Hbig. apply list_lookup_insert_Some in Hj as [(_ & <- & _)|[_ Hj]]; [lia|].
    by apply (Hb j).
  - split; [done|]. set_solver.
  - rewrite Ha, (list_to_set_perm_L _ _ Hperm). cbn. set_solver.
  - set_solver.
  - set_solver.
Qed.

(** ** The loop over the places *)

(** The sockets of [l] that [select] reported. *)
Definition waiters (r : gset Z) (l : list Z) : list Z := filter (fun fd => 0 <= fd /\ fd ∈ r) l.
Definition waiting (r : gset Z) (l : list Z) : Z := Z.of_nat (length (waiters r l)).

Lemma waiters_cons r fd l :
  waiters r (fd :: l) = (if decide (0 <= fd /\ fd ∈ r) then [fd] else []) ++ waiters r l.
Proof. unfold waiters. rewrite filter_cons. by destruct (decide _). Qed.

Lemma waiters_dues a l : waiters (rset a) l = dues a l.
Proof.
  apply list_filter_iff. intros fd. unfold due.
  rewrite andb_true_iff, Z.leb_le, bool_decide_eq_true. tauto.
Qed.

Lemma nobody_waits listenfd r t i : table_ok listenfd t -> maxi t < Z.of_nat i -> waiters r (drop i (client t)) = [].
Proof.
  intros Ht Hi. unfold waiters. destruct (filter _ _) as [|g l] eqn:E; [done|]. exfalso.
  assert (Hg : g ∈ g :: l) by (by left). rewrite <- E in Hg.
  apply list_elem_of_filter in Hg as [[Hg _] Hin]. apply list_elem_of_lookup in Hin as [j Hj].
  rewrite lookup_drop in Hj. apply (t_beyond _ _ Ht) in Hj; lia.
Qed.

Lemma waiting_cons r fd l :
  waiting r (fd :: l) = (if decide (0 <= fd /\ fd ∈ r) then 1 else 0) + waiting r l.
Proof. unfold waiting. rewrite waiters_cons, length_app. destruct (decide _); cbn [length]; lia. Qed.

Lemma waiting_nonneg r l : 0 <= waiting r l.
Proof. unfold waiting. lia. Qed.

Lemma waiting_dues a l : waiting (rset a) l = Z.of_nat (length (dues a l)).
Proof. unfold waiting. by rewrite waiters_dues. Qed.

(** The places in front of [i] are free; [n] threads when the loop is over. *)
Record cleared_to (listenfd : Z) (i : nat) (t : server) : Prop := ClearedTo {
  c_table : table_ok listenfd t;
  c_free : forall j fd, (j < i)%nat -> client t !! j = Some fd -> fd < 0
}.

Definition thread_count (c : config) : Z := Z.of_nat (length (threads c)).

Definition in_loop (listenfd n : Z) (c : config) : Prop :=
  let rest i := waiting (ready c) (drop i (client (table c))) in
  match pc c with
  | At i =>
      cleared_to listenfd i (table c) /\ Z.of_nat i <= maxi (table c) + 1 /\
      rest i <= left_ c /\ thread_count c + rest i = n
  | Chosen i =>
      cleared_to listenfd i (table c) /\ Z.of_nat i <= maxi (table c) /\
      client (table c) !! i = Some (sockfd c) /\ 0 <= sockfd c /\
      rest i <= left_ c /\ thread_count c + rest i = n
  | Clearing i =>
      cleared_to listenfd i (table c) /\ Z.of_nat i <= maxi (table c) /\
      client (table c) !! i = Some (sockfd c) /\ 0 <= sockfd c /\
      rest (S i) <= left_ c /\ thread_count c + rest (S i) = n
  | Selecting =>
      table_ok listenfd (table c) /\ clients (client (table c)) = [] /\ thread_count c = n
  | Exited | Broken => False
  end.

(** Statements still to come. *)
Definition position (p : main_pc) : Z :=
  match p with
  | At i => 3 * (1026 - Z.of_nat i)
  | Chosen i => 3 * (1026 - Z.of_nat i) - 1
  | Clearing i => 3 * (1026 - Z.of_nat i) - 2
  | _ => 0
  end.

Lemma all_free listenfd t i :
  cleared_to listenfd i t -> maxi t < Z.of_nat i -> clients (client t) = [].
Proof.
  intros [Ht Hf] Hi. destruct (clients (client t)) as [|fd l] eqn:E; [done|]. exfalso.
  assert (Hin : fd ∈ clients (client t)) by (rewrite E; by left).
  unfold clients in Hin. apply list_elem_of_filter in Hin as [Hp Hin].
  apply list_elem_of_lookup in Hin as [j Hj].
  destruct (decide (j < i)%nat) as [Hlt|]; [specialize (Hf j fd Hlt Hj); lia|].
  pose proof (t_beyond _ _ Ht j fd Hj). lia.
Qed.

(** A statement of [main] keeps the invariant and brings the loop on. *)
Lemma main_step_ok listenfd n c :
  in_loop listenfd n c -> pc c <> Selecting ->
  exists c', main_step c = Some c' /\ in_loop listenfd n c' /\ position (pc c') < position (pc c).
Proof.
  intros Hc Hsel. destruct c as [t fd r k p ts]. unfold in_loop, main_step in *.
  cbn [pc table sockfd ready left_ threads] in *. unfold thread_count in *. cbn [threads] in *.
  destruct p as [|i|i|i| |]; try done.
  - destruct Hc as (Ht & Hi & Hk & Hn). pose proof (t_maxi _ _ (c_table _ _ _ Ht)) as Hm.
    unfold FD_SETSIZE in Hm.
    destruct (Z.ltb_spec (maxi t) (Z.of_nat i)).
    + eexists. split; [done|]. cbn [pc table threads sockfd]. split; [|cbn; lia].
      split; [apply Ht|]. split; [by apply (all_free listenfd t i)|].
      rewrite <- Hn. unfold waiting. rewrite (nobody_waits listenfd) by (apply Ht || done). cbn. lia.
    + destruct (client t !! i) as [g|] eqn:Hg.
      2:{ apply lookup_ge_None in Hg. rewrite (t_size _ _ (c_table _ _ _ Ht)) in Hg.
          unfold FD_SETSIZE in Hg. lia. }
      rewrite (drop_S _ _ _ Hg), waiting_cons in *.
      destruct (Z.ltb_spec g 0); (eexists; split; [done|]);
        cbn [pc table threads sockfd ready left_]; (split; [|cbn; lia]).
      * rewrite decide_False in * by lia. split; [|lia]. split; [apply Ht|].
        intros j f Hj Hf. destruct (decide (j = i)) as [-> | Hne]; [congruence|].
        apply (c_free _ _ _ Ht j f); [lia|done].
      * rewrite (drop_S _ _ _ Hg), waiting_cons. split_and!; try done; lia.
  - destruct Hc as (Ht & Hi & Hg & Hpos & Hk & Hn). rewrite (proj2 (Z.ltb_ge _ _) Hpos).
    rewrite (drop_S _ _ _ Hg), waiting_cons in *. pose proof (waiting_nonneg r (drop (S i) (client t))).
    destruct (decide (fd ∈ r)).
    + rewrite decide_True in * by done. destruct (Z.ltb_spec (k - 1) 0); [lia|].
      eexists. split; [done|]. cbn [pc table threads sockfd ready left_]. split; [|cbn; lia].
      rewrite length_app. cbn [length]. split_and!; try done; lia.
    + rewrite decide_False in * by tauto. eexists. split; [done|].
      cbn [pc table threads sockfd ready left_]. split; [|cbn; lia]. split_and!; try done; lia.
  - destruct Hc as (Ht & Hi & Hg & Hpos & Hk & Hn). rewrite (proj2 (Z.ltb_ge _ _) Hpos).
    eexists. split; [done|]. cbn [pc table threads sockfd ready left_ client maxi].
    split; [|cbn; lia]. rewrite drop_insert_lt by lia. split; [|lia]. split.
    + by apply cleared_ok; [apply Ht| |].
    + intros j f Hj Hf. cbn [client] in Hf.
      apply list_lookup_insert_Some in Hf as [(_ & <- & _)|[Hne Hf]]; [lia|].
      apply (c_free _ _ _ Ht j f); [lia|done].
Qed.

Lemma start_step_ok listenfd n k c c' :
  in_loop listenfd n c -> handle_start k c = Some c' -> in_loop listenfd n c' /\ pc c' = pc c.
Proof.
  intros Hc Hs. unfold handle_start in Hs. destruct (threads c !! k) as [[| |]|]; try done.
  injection Hs as <-. unfold in_loop, thread_count in *.
  cbn [pc table sockfd ready left_ threads]. by rewrite length_insert.
Qed.

Lemma loop_ok listenfd n c c' :
  in_loop listenfd n c -> loop_step c c' -> in_loop listenfd n c'.
Proof.
  intros Hc Hs. destruct Hs as [c c' Hs|k c c' Hs]; [|by apply (start_step_ok _ _ k c)].
  destruct (main_step_ok listenfd n c Hc) as (c1 & E & H1 & _).
  - intros E. unfold main_step in Hs. by rewrite E in Hs.
  - congruence.
Qed.

Lemma position_nonneg listenfd n c : in_loop listenfd n c -> 0 <= position (pc c).
Proof.
  unfold in_loop. destruct (pc c); cbn; try lia; intros (Ht & Hi & _);
    pose proof (t_maxi _ _ (c_table _ _ _ Ht)) as Hm; unfold FD_SETSIZE in Hm; lia.
Qed.

Lemma loop_ends listenfd n c :
  in_loop listenfd n c ->
  exists c', rtc loop_step c c' /\ in_loop listenfd n c' /\ pc c' = Selecting.
Proof.
  apply (run_reaches loop_step (in_loop listenfd n) (fun c => pc c = Selecting)
    (fun c => position (pc c))). intros d Hd. split; [by apply (position_nonneg listenfd n)|].
  destruct (pc d) eqn:E; [by left|..]; right;
    (destruct (main_step_ok listenfd n d Hd) as (d' & Hs & Hd' & Hlt);
      [by rewrite E|exists d'; rewrite <- E; split_and!; [by apply step_main|done|done]]).
Qed.

(** Threads that have not begun *)
Definition fresh (ts : list thread) : Z := total (fun t => match t with Fresh => 1 | _ => 0 end) ts.

Lemma fresh_nonneg ts : 0 <= fresh ts.
Proof. apply total_nonneg. by intros []. Qed.

Lemma fresh_app ts ts' : fresh (ts ++ ts') = fresh ts + fresh ts'.
Proof. unfold fresh. induction ts as [|t ts IH]; cbn [app total]; lia. Qed.

(** [main] starts at most one thread with a statement, and a thread begins once. *)
Definition to_do (c : config) : Z := 2 * position (pc c) + fresh (threads c).

Lemma main_step_fresh c c' : main_step c = Some c' -> fresh (threads c') <= fresh (threads c) + 1.
Proof.
  destruct c as [t fd r k p ts]. unfold main_step. cbn [pc table sockfd ready left_ threads].
  repeat (case_match; try done); intros [= <-]; cbn [threads]; rewrite ?fresh_app; cbn; lia.
Qed.

Lemma loop_goes_down listenfd n c c' : in_loop listenfd n c -> loop_step c c' ->
  in_loop listenfd n c' /\ to_do c' < to_do c.
Proof.
  intros Hc Hs. split; [by apply (loop_ok listenfd n c)|]. unfold to_do. destruct Hs as [c c' Hs|k c c' Hs].
  - destruct (main_step_ok listenfd n c Hc) as (c1 & E & _ & Hlt).
    + intros E. unfold main_step in Hs. by rewrite E in Hs.
    + pose proof (main_step_fresh _ _ Hs). assert (c1 = c') as -> by congruence. lia.
  - destruct (start_step_ok _ _ _ _ _ Hc Hs) as [_ ->]. unfold handle_start in Hs.
    destruct (threads c !! k) as [[| |]|] eqn:E; try done. injection Hs as <-. cbn [threads]. unfold fresh.
    rewrite (total_insert _ _ _ Fresh) by done. lia.
Qed.

(** *** Threads that begin at once *)

(** A run in which [main] goes on only when all threads have begun. *)
Inductive prompt_step : config -> config -> Prop :=
  | prompt_main c c' : Fresh ∉ threads c -> main_step c = Some c' -> prompt_step c c'
  | prompt_start k c c' : handle_start k c = Some c' -> prompt_step c c'.

(** Those still to be looked at *)
Definition ahead (c : config) : list Z :=
  match pc c with
  | At i | Chosen i => waiters (ready c) (drop i (client (table c)))
  | Clearing i => waiters (ready c) (drop (S i) (client (table c)))
  | _ => []
  end.

(** Of [fds], the first have their threads, and one may be about to begin. *)
Definition in_order (ts : list thread) (fds : list Z) (c : config) : Prop :=
  exists seen, seen ++ ahead c = fds /\
    (threads c = ts ++ (Serving <$> seen) \/
     exists seen', seen = seen' ++ [sockfd c] /\ threads c = ts ++ (Serving <$> seen') ++ [Fresh]).

Lemma begun_in (ts : list thread) seen : Fresh ∉ ts -> Fresh ∉ ts ++ (Serving <$> seen).
Proof. intros Hts [?|Hin]%elem_of_app; [done|]. by apply list_elem_of_fmap in Hin as (? & ? & _). Qed.

Lemma last_fresh (ts : list thread) k : Fresh ∉ ts -> (ts ++ [Fresh]) !! k = Some Fresh -> k = length ts.
Proof.
  intros Hts Hk. destruct (decide (k < length ts)%nat) as [Hl|Hl].
  - rewrite lookup_app_l in Hk by done. by apply list_elem_of_lookup_2 in Hk.
  - apply lookup_lt_Some in Hk. rewrite length_app in Hk. cbn in Hk. lia.
Qed.

Lemma prompt_ok listenfd n ts fds c c' : Fresh ∉ ts ->
  in_loop listenfd n c /\ in_order ts fds c -> prompt_step c c' ->
  in_loop listenfd n c' /\ in_order ts fds c'.
Proof.
  intros Hts [Hc (seen & Eahead & Hth)] Hs. assert (Hloop : in_loop listenfd n c').
  { apply (loop_ok listenfd n c); [done|]. destruct Hs; by econstructor. }
  split; [done|]. destruct Hs as [c c' Hno Hs|k c c' Hs].
  - destruct Hth as [Hth|(seen' & _ & Hth)].
    2:{ destruct Hno. rewrite Hth, !elem_of_app. right. right. by left. }
    destruct c as [t fd r k p l]. unfold in_loop, main_step, in_order, ahead in *.
    cbn [pc table sockfd ready left_ threads] in *.
    destruct p as [|i|i|i| |]; try done.
    + destruct Hc as (Ht & _). destruct (Z.ltb_spec (maxi t) (Z.of_nat i)).
      * injection Hs as <-. cbn [pc threads]. exists seen. split; [|by left].
        rewrite (nobody_waits listenfd) in Eahead by (apply Ht || done). done.
      * destruct (client t !! i) as [g|] eqn:Hg; injection Hs as <-; [|done].
        destruct (Z.ltb_spec g 0); cbn [pc threads table ready]; exists seen; (split; [|by left]); [|done].
        rewrite (drop_S _ _ _ Hg), waiters_cons, decide_False in Eahead by lia. done.
    + destruct Hc as (_ & _ & Hg & Hpos & Hk & _). rewrite (proj2 (Z.ltb_ge _ _) Hpos) in Hs.
      rewrite (drop_S _ _ _ Hg) in Eahead, Hk. rewrite waiters_cons in Eahead. rewrite waiting_cons in Hk.
      pose proof (waiting_nonneg r (drop (S i) (client t))). destruct (decide (fd ∈ r)).
      * rewrite decide_True in Eahead by done. rewrite decide_True in Hk by done. destruct (Z.ltb_spec (k - 1) 0); [lia|]. injection Hs as <-.
        cbn [pc threads table ready sockfd]. exists (seen ++ [fd]). rewrite <- app_assoc. split; [done|].
        right. exists seen. by rewrite Hth, <- app_assoc.
      * rewrite decide_False in Eahead by tauto. injection Hs as <-. cbn [pc threads table ready]. exists seen. by split; [|left].
    + destruct Hc as (_ & _ & Hg & Hpos & _). rewrite (proj2 (Z.ltb_ge _ _) Hpos) in Hs. injection Hs as <-.
      cbn [pc threads table ready client]. rewrite drop_insert_lt by lia. exists seen. by split; [|left].
  - unfold handle_start in Hs. destruct (threads c !! k) as [[| |]|] eqn:Ek; try done. injection Hs as <-.
    destruct Hth as [Hth|(seen' & -> & Hth)].
    { rewrite Hth in Ek. apply list_elem_of_lookup_2 in Ek. by apply begun_in in Ek. }
    exists (seen' ++ [sockfd c]). split; [done|]. left. cbn [threads]. rewrite Hth, app_assoc in *.
    apply last_fresh in Ek as ->; [|by apply begun_in]. rewrite insert_app_r_alt, Nat.sub_diag by lia.
    by rewrite fmap_app, <- app_assoc.
Qed.

(** A turn in which the loop runs begins with all places to do. *)
Lemma after_select_in_loop listenfd a c :
  table_ok listenfd (table c) -> answers_ok (table c) a ->
  pc (after_select listenfd a c) = At 0 ->
  in_loop listenfd (thread_count c + Z.of_nat (length (dues a (client (table c)))))
    (after_select listenfd a c) /\
  ahead (after_select listenfd a c) = dues a (client (table c)) /\ threads (after_select listenfd a c) = threads c.
Proof.
  intros Ht Ha Hpc. pose proof (count_dues listenfd (a) (table c) Ht Ha) as Hcount.
  pose proof Ha as [Hr _ Hf]. unfold in_loop, ahead. rewrite Hpc. unfold after_select in *.
  destruct (decide (listenfd ∈ rset a)) as [Hin|Hin].
  - pose proof (add_client_spec listenfd (table c) (accepted a) Ht Hf) as Hadd.
    destruct (add_client (accepted a) (table c)) as [t| |]; [|done..].
    destruct Hadd as (Hpos & Ht1 & _ & i & Hi & old & Hold & Hneg).
    destruct (nready a - 1 <=? 0); [done|]. unfold thread_count.
    cbn [table ready left_ threads]. rewrite drop_0, waiting_dues, waiters_dues, Hi, (dues_insert a _ i old).
    + split; [|done]. split; [split; [done|]; lia|]. pose proof (t_maxi _ _ Ht1). lia.
    + done.
    + unfold due. by destruct (Z.leb_spec 0 old); [lia|].
    + unfold due. rewrite (bool_decide_eq_false_2 (accepted a ∈ rset a)) by set_solver.
      apply andb_false_r.
  - unfold thread_count. cbn [table ready left_ threads]. rewrite drop_0, waiting_dues, waiters_dues.
    split; [|done]. split; [split; [done|]; lia|]. pose proof (t_maxi _ _ Ht). lia.
Qed.

(** ** Theorems *)

(** C19: When the loop over the places runs, whatever threads begin meanwhile (and
    while none ends), no run of [main] and the threads is longer than a bound,
    [main] always has a next statement until it is back at [select], and it never
    tests or clears a socket outside the set. Back at [select] every place is free
    and only the listening socket is selected, whoever was in the table: a client
    that had nothing to say in that turn is forgotten, its connection open and
    never read again. There are as many new threads as clients were reported; and
    if every thread begins before [main] goes on, they serve exactly these clients,
    in the order of the places. (If not, they may not: [chat_threads_race].) *)
Theorem chat_loop_drops listenfd a c :
  table_ok listenfd (table c) -> answers_ok (table c) a ->
  pc (after_select listenfd a c) = At 0 ->
  let c0 := after_select listenfd a c in
  let reported := dues a (client (table c)) in
  (forall n c', nsteps loop_step n c0 c' -> Z.of_nat n <= 6156 + fresh (threads c)) /\
  (forall c', rtc loop_step c0 c' ->
    pc c' <> Broken /\ pc c' <> Exited /\ (pc c' = Selecting \/ exists c'', main_step c' = Some c'') /\
    (pc c' = Selecting ->
       clients (client (table c')) = [] /\ allset (table c') = {[listenfd]} /\
       length (threads c') = (length (threads c) + length reported)%nat)) /\
  (forall c', Fresh ∉ threads c -> rtc prompt_step c0 c' -> pc c' = Selecting -> Fresh ∉ threads c' ->
    threads c' = threads c ++ (Serving <$> reported)).
Proof.
  intros Ht Ha Hpc c0 reported. pose proof (after_select_in_loop listenfd a c Ht Ha Hpc) as (Hin & Hahead & Hsame).
  split; [|split].
  - intros n c' Hr. eapply (run_bound loop_step _ to_do) in Hr; [|by apply loop_goes_down| |exact Hin].
    + unfold to_do, c0 in Hr. rewrite Hpc, Hsame in Hr. cbn [position] in Hr. lia.
    + intros d Hd. unfold to_do. pose proof (position_nonneg _ _ _ Hd). pose proof (fresh_nonneg (threads d)). lia.
  - intros c' Hr. apply (rtc_invariant loop_step _ _ c' (fun x y => loop_ok listenfd _ x y) Hin) in Hr.
    assert (Hgo : pc c' = Selecting \/ exists c'', main_step c' = Some c'').
    { destruct (decide (pc c' = Selecting)) as [|Hne]; [by left|right].
      destruct (main_step_ok _ _ _ Hr Hne) as (c'' & ? & _). by exists c''. }
    unfold in_loop in Hr. split_and!; [intros E; by rewrite E in Hr..|done|]. intros E. rewrite E in Hr.
    destruct Hr as (Htab & Hnil & Hn). split; [done|]. split.
    + rewrite (t_allset _ _ Htab), Hnil. set_solver.
    + unfold thread_count in Hn. unfold reported. lia.
  - intros c' Hno Hr Hsel Hall.
    assert (H0 : in_loop listenfd (thread_count c + Z.of_nat (length reported)) c0 /\ in_order (threads c) reported c0).
    { split; [done|]. exists []. split; [done|left]. cbn. by rewrite app_nil_r. }
    apply (rtc_invariant prompt_step _ _ c' (fun x y => prompt_ok listenfd _ _ _ x y Hno) H0) in Hr as [_ Hr].
    destruct Hr as (seen & Es & Hth). unfold ahead in Es. rewrite Hsel, app_nil_r in Es. subst seen.
    destruct Hth as [Hth|(seen' & _ & Hth)]; [done|]. destruct Hall. rewrite Hth, !elem_of_app. right. right. by left.
Qed.

(** What a scheduler lets happen. *)
Inductive move := Select (a : answers) | Main | Start (k : nat) | Finish (k : nat).

Definition exec (listenfd : Z) (m : move) (c : config) : option config :=
  match m with
  | Select a => match pc c with Selecting => Some (after_select listenfd a c) | _ => None end
  | Main => main_step c
  | Start k => handle_start k c
  | Finish k => handle_end k c
  end.

Fixpoint exec_all (listenfd : Z) (ms : list move) (c : config) : option config :=
  match ms with
  | [] => Some c
  | m :: ms => match exec listenfd m c with Some c' => exec_all listenfd ms c' | None => None end
  end.

(** [n] prompt steps *)
Fixpoint prompt_run (n : nat) (c : config) : option config :=
  match n with
  | O => Some c
  | S n =>
      match list_find (fun t => t = Fresh) (threads c) with
      | Some (k, _) => match handle_start k c with Some c => prompt_run n c | None => None end
      | None => match main_step c with Some c => prompt_run n c | None => None end
      end
  end.

Lemma prompt_run_ok n c c' : prompt_run n c = Some c' -> rtc prompt_step c c'.
Proof.
  revert c. induction n as [|n IH]; intros c; cbn; [by intros [= ->]|].
  destruct (list_find _ _) as [[k t]|] eqn:E.
  - destruct (handle_start k c) eqn:Hs; [|done]. intros Hr. eapply rtc_l; [by eapply prompt_start|auto].
  - destruct (main_step c) eqn:Hs; [|done]. intros Hr. eapply rtc_l; [|by apply IH]. apply prompt_main; [|done].
    apply list_find_None in E. intros Hin. rewrite Forall_forall in E. by apply (E Fresh).
Qed.

(** The moves that need nothing of the calls. *)
Definition quiet (m : move) : bool := match m with Select _ => false | _ => true end.

Lemma exec_quiet listenfd ms c c' :
  forallb quiet ms = true -> exec_all listenfd ms c = Some c' -> rtc (step listenfd) c c'.
Proof.
  revert c. induction ms as [|m ms IH]; intros c; cbn; [by intros _ [= ->]|].
  intros [Hm Hms]%andb_true_iff Hr. destruct (exec listenfd m c) as [c1|] eqn:E; [|done].
  apply rtc_l with c1; [|by apply IH]. destruct m; [done|..]; cbn in E.
  - by apply step_loop, step_main.
  - by apply step_loop, (step_start k).
  - by apply (step_end _ k).
Qed.

(** Clients 4 and 5 connect, then both have something to say. *)
Definition nobody_reads (r : gset Z) (n fd : Z) : answers :=
  Answers r n fd (fun _ => None) (fun _ buf => Z.of_nat (length buf)).

Definition both_connected : config :=
  after_select 3 (nobody_reads {[3]} 1 5) (after_select 3 (nobody_reads {[3]} 1 4) (listening 3)).

Definition both_ready : config := after_select 3 (nobody_reads {[4; 5]} 2 6) both_connected.

Lemma both_ready_reached : rtc (step 3) (listening 3) both_ready.
Proof.
  apply rtc_l with (after_select 3 (nobody_reads {[3]} 1 4) (listening 3)).
  { apply step_select; [done|]. constructor; try done; by apply (bool_decide_unpack _). }
  apply rtc_l with both_connected.
  { apply step_select; [done|]. constructor; try done; by apply (bool_decide_unpack _). }
  apply rtc_once, step_select; [done|]. constructor; try done;
    by apply (bool_decide_unpack _).
Qed.

(** The threads share [main]'s variable. From the start of the server runs
    are possible in which two threads serve the same one of two clients and no
    thread the other, and in which a thread that ends early makes [main] remove
    socket -1 from its set, outside the set's array. *)
Theorem chat_threads_race :
  (exists c, rtc (step 3) (listening 3) c /\ pc c = Selecting /\
     threads c = [Serving 5; Serving 5]) /\
  (exists c, rtc (step 3) (listening 3) c /\ pc c = Broken).
Proof.
  split.
  - destruct (exec_all 3 (replicate 7 Main ++ [Start 0; Start 1]) both_ready) as [c|] eqn:E;
      [|by vm_compute in E].
    exists c. split.
    + etrans; [apply both_ready_reached|].
      by apply (exec_quiet 3 (replicate 7 Main ++ [Start 0; Start 1])).
    + vm_compute in E. injection E as <-. done.
  - destruct (exec_all 3 [Main; Main; Start 0; Finish 0; Main] both_ready) as [c|] eqn:E;
      [|by vm_compute in E].
    exists c. split.
    + etrans; [apply both_ready_reached|].
      by apply (exec_quiet 3 [Main; Main; Start 0; Finish 0; Main]).
    + vm_compute in E. injection E as <-. done.
Qed.

(** Only client 4 has something to say: client 5 is forgotten. *)
Lemma both_connected_ok : table_ok 3 (table both_connected).
Proof.
  assert (Hc : clients (client (table both_connected)) = [4; 5]) by (vm_compute; done).
  constructor; rewrite ?Hc.
  - by vm_compute.
  - change (maxi (table both_connected)) with 1. unfold FD_SETSIZE. lia.
  - intros i fd Hi Hbig. change (maxi (table both_connected)) with 1 in Hbig.
    change (client (table both_connected)) with
      (<[1%nat := 5]> (<[0%nat := 4]> (replicate FD_SETSIZE (-1)))) in Hi.
    rewrite !list_lookup_insert_ne in Hi by lia. apply lookup_replicate in Hi as [-> _]. lia.
  - by apply (bool_decide_unpack _).
  - split; [lia|]. by apply (bool_decide_unpack _).
  - by apply (bool_decide_unpack _).
  - intros fd Hfd. assert (Ha : allset (table both_connected) = {[3; 4; 5]}) by
      (by apply (bool_decide_unpack _)).
    change (maxfd (table both_connected)) with 5. rewrite Ha in Hfd. set_solver by lia.
  - intros fd Hfd. assert (Ha : allset (table both_connected) = {[3; 4; 5]}) by
      (by apply (bool_decide_unpack _)).
    rewrite Ha in Hfd. enough (fd <= 5) by (unfold FD_SETSIZE; lia). set_solver by lia.
Qed.

Lemma chat_loop_drops_witness :
  let c0 := after_select 3 (nobody_reads {[4]} 1 6) both_connected in
  (forall n c', nsteps loop_step n c0 c' -> Z.of_nat n <= 6156) /\
  (forall c', rtc loop_step c0 c' -> pc c' = Selecting ->
     clients (client (table c')) = [] /\ length (threads c') = 1%nat) /\
  exists c', rtc prompt_step c0 c' /\ pc c' = Selecting /\ threads c' = [Serving 4].
Proof.
  assert (Ha : answers_ok (table both_connected) (nobody_reads {[4]} 1 6)).
  { constructor; try done; by apply (bool_decide_unpack _). }
  destruct (chat_loop_drops 3 (nobody_reads {[4]} 1 6) both_connected both_connected_ok Ha
    ltac:(vm_compute; reflexivity)) as (Hbound & Hall & Hprompt).
  split; [|split].
  - intros n c' Hr. apply Hbound in Hr. exact Hr.
  - intros c' Hr Hsel. destruct (Hall c' Hr) as (_ & _ & _ & H). destruct (H Hsel) as (H1 & _ & H2).
    split; [exact H1|]. rewrite H2. vm_compute. reflexivity.
  - destruct (prompt_run 8 (after_select 3 (nobody_reads {[4]} 1 6) both_connected)) as [c'|] eqn:E; [|by vm_compute in E].
    exists c'. pose proof (prompt_run_ok _ _ _ E) as Hr. vm_compute in E. injection E as E.
    assert (Hsel : pc c' = Selecting) by (rewrite <- E; reflexivity). split; [exact Hr|]. split; [exact Hsel|].
    rewrite (Hprompt c'); [vm_compute; reflexivity| |exact Hr|exact Hsel|]; apply (bool_decide_unpack _).
    + vm_compute. exact I.
    + rewrite <- E. vm_compute. exact I.
Defined.
