(* ===== verification/ChatServer.v ===== *)
(** * ChatServer: the request threads of the chat server

    [handleRequest] of [src/socket_test/ChatRome -- select/server/server.c]: one
    request of a connection, and behind a login the session of [enterChat]. *)
From S2P Require Import Prelude.
From S2P Require Import Memory.
From S2P Require Import CString.
From S2P Require Import ChatList.
From S2P Require Import Chat.

Open Scope C.

Definition REGISTER : Z := 1.
Definition LOGIN : Z := 2.

Section Requests.
Context `{Allocator} `{Sqlite}.

Local Abbreviation run A := (prog server A).

(** [memset(&message , 0 , sizeof(message))] *)
Definition no_message : Message := MkMessage [] 0 0 0 [] [] [].

(** The message with the outcome of the request. *)
Definition outcome (ret : Z) : Message := MkMessage (stateMsg ret) RESULT ret 0 [] [] [].

(** The [switch]: [user] is what the handler of the request receives next, [rs]
    what the session receives. *)
Definition request_switch (fd : Z) (message : Message) (user : User) (rs : list received) : run unit :=
  if msgType message =? REGISTER then
    do ret <- registerUser message fd user;
    send fd (outcome ret)
  else if msgType message =? LOGIN then
    do ret <- loginUser message fd user;
    send fd (outcome ret) ;;;
    enterChat no_message fd rs
  else pret tt.

(** [first] is what the first [recv] gives. *)
Definition handleRequest (fd : Z) (first : received) (user : User) (rs : list received) : run unit :=
  match first with
  | Received _ _ =>
      do message <- recv_message no_message first;
      memcpy sizeof_Message MAX_LINE ;;;
      request_switch fd message user rs
  | Closed | RecvFailed => pret tt
  end.

(** The thread of a request is defined exactly when nothing is received: whatever
    the message is, its copy leaves [message], and one of 8193 bytes, which the
    [recv] allows, the buffer. Behind this copy a request for a registration or a
    login leaves [user], and any other is ignored. *)
Theorem handleRequest_overflows fd first message user rs sv :
  handleRequest fd first user rs sv = match first with Received _ _ => None | _ => Some (tt, sv) end /\
  request_switch fd message user rs sv =
    (if (msgType message =? REGISTER) || (msgType message =? LOGIN) then None else Some (tt, sv)).
Proof.
  split.
  - destruct first as [| |n m]; [done..|]. unfold handleRequest, recv_message. by destruct (MAX_LINE <? n).
  - unfold request_switch. destruct (msgType message =? REGISTER); [done|]. by destruct (msgType message =? LOGIN).
Qed.

End Requests.
