(* ===== verification/Limbs.v ===== *)
(** * Limbs: the arithmetic of [src/aes_test/library/bignum.c] on arrays of limbs

    The static helpers of the multiprecision integers: addition, subtraction and
    multiplication with carries over [uint64_t] limbs, low limb first, and the
    number an array stands for. A pointer into an array is the rest of the
    array; [None] is an access behind its end. *)
From S2P Require Import Prelude.

Open Scope C.

Definition ciL : Z := 8.
Definition biL : Z := 64.
Definition base : Z := 2 ^ 64.

(** ** The helpers *)

(** [MULADDC_CORE]: [*d = *d + *s * b + c], the new value and the carry *)
Definition muladdc_core (b c s d : Z) : Z * Z :=
  let r := s * b in
  let r0 := u64 r in
  let r1 := u64 (Z.shiftr r biL) in
  let r0 := u64 (r0 + c) in
  let r1 := u64 (r1 + Z.b2z (r0 <? c)) in
  let r0 := u64 (r0 + d) in
  let r1 := u64 (r1 + Z.b2z (r0 <? d)) in
  (r0, r1).

(** The loops over [i] limbs: the limbs written, the rest of [d], the carry. *)
Fixpoint muladdc (i : nat) (s d : list Z) (b c : Z) : option (list Z * list Z * Z) :=
  match i with
  | O => Some ([], d, c)
  | S i =>
      match s, d with
      | x :: s, y :: d =>
          let '(r0, c) := muladdc_core b c x y in
          match muladdc i s d b c with
          | Some (ds, d, c) => Some (r0 :: ds, d, c)
          | None => None
          end
      | _, _ => None
      end
  end.

(** [do { *d += c; c = ( *d < c ); d++; } while( c != 0 )] *)
Fixpoint propagate (d : list Z) (c : Z) : option (list Z) :=
  match d with
  | [] => None
  | y :: d =>
      let y := u64 (y + c) in
      if y <? c then (fun d => y :: d) <$> propagate d 1 else Some (y :: d)
  end.

Definition mpi_mul_hlp (i : nat) (s d : list Z) (b : Z) : option (list Z) :=
  match muladdc i s d b 0 with
  | Some (ds, d, c) => app ds <$> propagate d c
  | None => None
  end.

(** [while( c != 0 ) { z = ( *d < c ); *d -= c; c = z; d++; }] *)
Fixpoint borrow (d : list Z) (c : Z) : option (list Z) :=
  if c =? 0 then Some d
  else
    match d with
    | [] => None
    | y :: d => (fun d => u64 (y - c) :: d) <$> borrow d (Z.b2z (y <? c))
    end.

Fixpoint sub_limbs (n : nat) (s d : list Z) (c : Z) : option (list Z) :=
  match n with
  | O => borrow d c
  | S n =>
      match s, d with
      | x :: s, y :: d =>
          let z := Z.b2z (y <? c) in
          let y := u64 (y - c) in
          let c := Z.b2z (y <? x) + z in
          (fun d => u64 (y - x) :: d) <$> sub_limbs n s d c
      | _, _ => None
      end
  end.

Definition mpi_sub_hlp (n : nat) (s d : list Z) : option (list Z) := sub_limbs n s d 0.

(** The first loop of [mbedtls_mpi_add_abs]: [j] limbs of [o] are added to [p]. *)
Fixpoint add_limbs (j : nat) (o p : list Z) (c : Z) : option (list Z * list Z * Z) :=
  match j with
  | O => Some ([], p, c)
  | S j =>
      match o, p with
      | tmp :: o, y :: p =>
          let y := u64 (y + c) in
          let c := Z.b2z (y <? c) in
          let y := u64 (y + tmp) in
          let c := c + Z.b2z (y <? tmp) in
          match add_limbs j o p c with
          | Some (ps, p, c) => Some (y :: ps, p, c)
          | None => None
          end
      | _, _ => None
      end
  end.

(** [while( c != 0 )] of [mbedtls_mpi_add_abs] as far as [p] goes; with the carry
    that is left at the end of the array *)
Fixpoint carry_limbs (p : list Z) (c : Z) : list Z * Z :=
  if c =? 0 then (p, 0)
  else
    match p with
    | [] => ([], c)
    | y :: p =>
        let y := u64 (y + c) in
        let '(p, c) := carry_limbs p (Z.b2z (y <? c)) in
        (y :: p, c)
    end.

(** The loops [for( j = X->n; j > 0; j-- ) if( X->p[j - 1] != 0 ) break]: the
    number of limbs up to the highest one that is not zero *)
Fixpoint used (p : list Z) : nat :=
  match p with
  | [] => 0
  | x :: p => match used p with O => if x =? 0 then 0 else 1 | S k => S (S k) end
  end.

(** ** What an array stands for *)

Fixpoint val (p : list Z) : Z :=
  match p with
  | [] => 0
  | x :: p => x + base * val p
  end.

Definition limbs (p : list Z) : Prop := Forall (fits 64) p.

Definition pow (k : nat) : Z := base ^ Z.of_nat k.

Lemma base_pos : 0 < base. Proof. done. Qed.

Lemma pow_0 : pow 0 = 1. Proof. done. Qed.
Lemma pow_S k : pow (S k) = base * pow k.
Proof. unfold pow. rewrite Nat2Z.inj_succ, Z.pow_succ_r; lia. Qed.
Lemma pow_add i j : pow (i + j) = pow i * pow j.
Proof. unfold pow. rewrite Nat2Z.inj_add, Z.pow_add_r; lia. Qed.
Lemma pow_pos k : 0 < pow k.
Proof. unfold pow. apply Z.pow_pos_nonneg; [done|lia]. Qed.
Lemma pow_mono i j : (i <= j)%nat -> pow i <= pow j.
Proof. intros. apply Z.pow_le_mono_r; [done|lia]. Qed.
Lemma pow_lt_inv i j : pow i < pow j -> (i < j)%nat.
Proof. intros H. destruct (decide (i < j)%nat); [done|]. pose proof (pow_mono j i ltac:(lia)). lia. Qed.
Lemma pow_bits k : pow k = 2 ^ (64 * Z.of_nat k).
Proof. unfold pow, base. rewrite <- Z.pow_mul_r; lia. Qed.

Lemma limbs_nil : limbs []. Proof. apply Forall_nil. done. Qed.
Lemma limbs_cons x p : limbs (x :: p) <-> fits 64 x /\ limbs p.
Proof. apply Forall_cons. Qed.
Lemma limbs_app p q : limbs (p ++ q) <-> limbs p /\ limbs q.
Proof. apply Forall_app. Qed.
Lemma limbs_take i p : limbs p -> limbs (take i p). Proof. apply Forall_take. Qed.
Lemma limbs_drop i p : limbs p -> limbs (drop i p). Proof. apply Forall_drop. Qed.
Lemma limbs_zero k : limbs (replicate k 0).
Proof. apply Forall_replicate. unfold fits. lia. Qed.

#[export] Hint Resolve limbs_take limbs_drop limbs_zero : cmodel.

Lemma val_app p q : val (p ++ q) = val p + pow (length p) * val q.
Proof. induction p as [|x p IH]; cbn [app val length]; [rewrite pow_0; lia|]. rewrite IH, pow_S. lia. Qed.

Lemma val_bound p : limbs p -> 0 <= val p < pow (length p).
Proof.
  induction p as [|x p IH]; intros H; cbn [val length]; [by rewrite pow_0|].
  apply limbs_cons in H as [[Hx1 Hx2] Hp]. specialize (IH Hp). rewrite pow_S. unfold base in *. nia.
Qed.

Lemma val_nonneg p : limbs p -> 0 <= val p.
Proof. intros H. apply (val_bound p H). Qed.

Lemma val_zeros k : val (replicate k 0) = 0.
Proof. induction k as [|k IH]; cbn [replicate val]; lia. Qed.

Lemma val_take_drop i p : val p = val (take i p) + pow (min i (length p)) * val (drop i p).
Proof. rewrite <- (take_drop i p) at 1. by rewrite val_app, length_take. Qed.

Lemma val_inj p q : limbs p -> limbs q -> length p = length q -> val p = val q -> p = q.
Proof.
  revert q. induction p as [|x p IH]; intros [|y q]; try done.
  cbn [val length]. intros [Hx Hp]%limbs_cons [Hy Hq]%limbs_cons Hl Hv.
  unfold fits, base in *. assert (x = y) as -> by lia. f_equal. apply IH; [done|done|lia|lia].
Qed.

(** ** The helpers compute *)

Ltac open_takes := rewrite ?firstn_cons, ?skipn_cons, ?take_0, ?drop_0 in *.

Lemma wrap64_add y c : fits 64 y -> fits 64 c ->
  u64 (y + c) + base * Z.b2z (u64 (y + c) <? c) = y + c.
Proof.
  unfold fits, wrap, base. intros Hy Hc. change (2 ^ 64) with 18446744073709551616 in *.
  destruct (Z.ltb_spec ((y + c) mod 18446744073709551616) c); cbn [Z.b2z];
    Z.to_euclidean_division_equations; lia.
Qed.

Lemma wrap64_sub y c : fits 64 y -> fits 64 c ->
  u64 (y - c) = y - c + base * Z.b2z (y <? c).
Proof.
  unfold fits, wrap, base. intros Hy Hc. change (2 ^ 64) with 18446744073709551616 in *.
  destruct (Z.ltb_spec y c); cbn [Z.b2z]; Z.to_euclidean_division_equations; lia.
Qed.

Lemma fits_u64 z : fits 64 (u64 z). Proof. by apply wrap_fits. Qed.
Lemma fits_b2z b : fits 64 (Z.b2z b). Proof. destruct b; done. Qed.
Lemma b2z_range b : 0 <= Z.b2z b <= 1. Proof. destruct b; cbn; lia. Qed.

#[export] Hint Resolve fits_u64 fits_b2z : cmodel.

Lemma muladdc_core_spec b c s d : fits 64 b -> fits 64 c -> fits 64 s -> fits 64 d ->
  let '(r0, r1) := muladdc_core b c s d in
  fits 64 r0 /\ fits 64 r1 /\ r0 + base * r1 = d + s * b + c.
Proof.
  intros Hb Hc Hs Hd. unfold muladdc_core.
  set (q := Z.shiftr (s * b) biL). assert (Hq : u64 (s * b) + base * q = s * b /\ 0 <= q <= base - 2).
  { unfold q, biL, wrap, base, fits in *. rewrite Z.shiftr_div_pow2 by lia.
    pose proof (Z.div_mod (s * b) (2 ^ 64) ltac:(done)). change (2 ^ 64) with 18446744073709551616 in *.
    assert (0 <= s * b <= 18446744073709551615 * 18446744073709551615)
      by (split; [nia|apply Z.mul_le_mono_nonneg; lia]).
    split; [lia|]. split; [apply Z.div_pos; lia|]. apply Z.lt_succ_r, Z.div_lt_upper_bound; lia. }
  destruct Hq as [Hq1 Hq2]. rewrite (wrap_id 64 q) by (unfold fits, base in *; lia).
  pose proof (wrap64_add (u64 (s * b)) c (fits_u64 _) Hc) as E1.
  set (r0 := u64 (u64 (s * b) + c)) in *. pose proof (b2z_range (r0 <? c)).
  rewrite (wrap_id 64 (q + _)) by (unfold fits, base in *; lia).
  pose proof (wrap64_add r0 d (fits_u64 _) Hd) as E2. set (r1 := u64 (r0 + d)) in *.
  pose proof (b2z_range (r1 <? d)). pose proof (fits_u64 (r0 + d)) as F. fold r1 in F.
  pose proof (fits_u64 (s * b)) as F0.
  assert (Hsum : 0 <= q + Z.b2z (r0 <? c) + Z.b2z (r1 <? d) < base).
  { unfold fits, base in *. change (2 ^ 64) with 18446744073709551616 in *. nia. }
  rewrite (wrap_id 64 (q + _ + _)) by exact Hsum. split; [done|]. split; [exact Hsum|lia].
Qed.

Lemma muladdc_spec b i : forall s d c, fits 64 b -> fits 64 c -> limbs s -> limbs d ->
  (i <= length s)%nat -> (i <= length d)%nat ->
  exists ds c', muladdc i s d b c = Some (ds, drop i d, c') /\ limbs ds /\ length ds = i /\ fits 64 c' /\
    val ds + pow i * c' = val (take i d) + b * val (take i s) + c.
Proof.
  induction i as [|i IH]; intros s d c Hb Hc Hs Hd His Hid.
  { exists [], c. rewrite drop_0, pow_0. split_and!; try done; [apply limbs_nil|open_takes; cbn [val]; lia]. }
  destruct s as [|x s], d as [|y d]; cbn [length] in *; [lia..|].
  apply limbs_cons in Hs as [Hx Hs]. apply limbs_cons in Hd as [Hy Hd]. open_takes; cbn [muladdc val].
  pose proof (muladdc_core_spec b c x y Hb Hc Hx Hy) as Hcore.
  destruct (muladdc_core b c x y) as [r0 c1]. destruct Hcore as (H0 & H1 & E).
  destruct (IH s d c1 Hb H1 Hs Hd ltac:(lia) ltac:(lia)) as (ds & c' & -> & Hds & Hl & Hc' & Ev).
  exists (r0 :: ds), c'. split; [done|]. split; [by apply limbs_cons|]. split; [cbn; lia|]. split; [done|].
  cbn [val]. rewrite pow_S. lia.
Qed.

Lemma propagate_spec d : forall c, limbs d -> fits 64 c -> d <> [] -> val d + c < pow (length d) ->
  exists d', propagate d c = Some d' /\ limbs d' /\ length d' = length d /\ val d' = val d + c.
Proof.
  induction d as [|y d IH]; intros c Hd Hc Hne Hlt; [done|].
  apply limbs_cons in Hd as [Hy Hd]. cbn [propagate val length] in *. rewrite pow_S in Hlt.
  pose proof (wrap64_add y c Hy Hc) as E. pose proof (fits_u64 (y + c)) as F.
  destruct (Z.ltb_spec (u64 (y + c)) c); cbn [Z.b2z] in E.
  - destruct d as [|z d].
    { cbn [val length] in Hlt. rewrite pow_0 in Hlt. unfold fits, base in *. lia. }
    destruct (IH 1 Hd ltac:(done) ltac:(done)) as (d' & -> & Hd' & Hl & Ev).
    { unfold fits, base in *. lia. }
    exists (u64 (y + c) :: d'). split; [done|]. split; [by apply limbs_cons|]. split; [cbn in *; lia|].
    cbn [val] in *. lia.
  - exists (u64 (y + c) :: d). split; [done|]. split; [by apply limbs_cons|]. split; [done|]. cbn [val]. lia.
Qed.

Lemma mpi_mul_hlp_spec i s d b : limbs s -> limbs d -> fits 64 b -> (i <= length s)%nat -> (i < length d)%nat ->
  val d + b * val (take i s) < pow (length d) ->
  exists d', mpi_mul_hlp i s d b = Some d' /\ limbs d' /\ length d' = length d /\
    val d' = val d + b * val (take i s).
Proof.
  intros Hs Hd Hb His Hid Hlt. unfold mpi_mul_hlp.
  destruct (muladdc_spec b i s d 0 Hb ltac:(done) Hs Hd His ltac:(lia)) as (ds & c & -> & Hds & Hl & Hc & Ev).
  pose proof (val_take_drop i d) as Ed. rewrite Nat.min_l in Ed by lia.
  assert (Hpow : pow (length d) = pow i * pow (length (drop i d))).
  { rewrite <- pow_add. f_equal. rewrite length_drop. lia. }
  pose proof (val_nonneg _ Hds). pose proof (pow_pos i).
  destruct (propagate_spec (drop i d) c) as (d' & -> & Hd' & Hl' & Ev'); [by apply limbs_drop|done| | |].
  { intros E%(f_equal length). rewrite length_drop in E. cbn in E. lia. }
  { rewrite Hpow in Hlt. nia. }
  exists (ds ++ d'). split; [done|]. split; [by apply limbs_app|]. split.
  { rewrite length_app, Hl, Hl', length_drop. lia. }
  rewrite val_app, Hl, Ev'. lia.
Qed.

Lemma borrow_spec d : forall c, limbs d -> 0 <= c <= 1 -> c <= val d ->
  exists d', borrow d c = Some d' /\ limbs d' /\ length d' = length d /\ val d' = val d - c.
Proof.
  induction d as [|y d IH]; intros c Hd Hc Hle; cbn [borrow val] in *.
  { destruct (Z.eqb_spec c 0); [|lia]. exists []. cbn. repeat split; try done. lia. }
  destruct (Z.eqb_spec c 0) as [->|Hn]; [exists (y :: d); cbn [val]; repeat split; try done; lia|].
  apply limbs_cons in Hd as [Hy Hd].
  assert (Hfc : fits 64 c) by (unfold fits; change (2 ^ 64) with 18446744073709551616; lia).
  pose proof (wrap64_sub y c Hy Hfc) as E.
  pose proof (val_nonneg _ Hd). unfold fits, base in *.
  destruct (IH (Z.b2z (y <? c)) Hd (b2z_range _)) as (d' & -> & Hd' & Hl & Ev).
  { destruct (Z.ltb_spec y c); cbn [Z.b2z]; lia. }
  exists (u64 (y - c) :: d'). split; [done|]. split; [apply limbs_cons; split; [apply fits_u64|done]|].
  split; [cbn; lia|]. cbn [val]. unfold base. lia.
Qed.

Lemma sub_limbs_spec n : forall s d c, limbs s -> limbs d -> 0 <= c <= 1 ->
  (n <= length s)%nat -> (n <= length d)%nat -> val (take n s) + c <= val d ->
  exists d', sub_limbs n s d c = Some d' /\ limbs d' /\ length d' = length d /\
    val d' = val d - val (take n s) - c.
Proof.
  induction n as [|n IH]; intros s d c Hs Hd Hc Hns Hnd Hle.
  { open_takes; cbn [sub_limbs val] in *. destruct (borrow_spec d c Hd Hc) as (d' & -> & H); [lia|].
    exists d'. split; [done|]. intuition lia. }
  destruct s as [|x s], d as [|y d]; cbn [length] in *; [lia..|].
  apply limbs_cons in Hs as [Hx Hs]. apply limbs_cons in Hd as [Hy Hd]. open_takes; cbn [sub_limbs val] in *.
  assert (Hfc : fits 64 c) by (unfold fits; change (2 ^ 64) with 18446744073709551616; lia).
  pose proof (wrap64_sub y c Hy Hfc) as E1. set (y1 := u64 (y - c)) in *.
  assert (Hy1 : fits 64 y1) by apply fits_u64.
  pose proof (wrap64_sub y1 x Hy1 Hx) as E2. pose proof (fits_u64 (y1 - x)) as F2.
  assert (Hc' : 0 <= Z.b2z (y1 <? x) + Z.b2z (y <? c) <= 1).
  { unfold fits, base in *. destruct (Z.ltb_spec y1 x), (Z.ltb_spec y c); cbn [Z.b2z] in *; lia. }
  destruct (IH s d _ Hs Hd Hc' ltac:(lia) ltac:(lia)) as (d' & -> & Hd' & Hl & Ev).
  { unfold fits, base in *. lia. }
  exists (u64 (y1 - x) :: d'). split; [done|]. split; [by apply limbs_cons|]. split; [cbn; lia|]. cbn [val]. lia.
Qed.

Lemma mpi_sub_hlp_spec n s d : limbs s -> limbs d -> (n <= length s)%nat -> (n <= length d)%nat ->
  val (take n s) <= val d ->
  exists d', mpi_sub_hlp n s d = Some d' /\ limbs d' /\ length d' = length d /\ val d' = val d - val (take n s).
Proof.
  intros Hs Hd Hns Hnd Hle. destruct (sub_limbs_spec n s d 0) as (d' & E & H); try done; try lia.
  exists d'. split; [done|]. intuition lia.
Qed.

Lemma add_limbs_spec j : forall o p c, limbs o -> limbs p -> 0 <= c <= 1 ->
  (j <= length o)%nat -> (j <= length p)%nat ->
  exists ps c', add_limbs j o p c = Some (ps, drop j p, c') /\ limbs ps /\ length ps = j /\ 0 <= c' <= 1 /\
    val ps + pow j * c' = val (take j p) + val (take j o) + c.
Proof.
  induction j as [|j IH]; intros o p c Ho Hp Hc Hjo Hjp.
  { exists [], c. rewrite drop_0, pow_0. split_and!; try done; try lia; [apply limbs_nil|open_takes; cbn [val]; lia]. }
  destruct o as [|tmp o], p as [|y p]; cbn [length] in *; [lia..|].
  apply limbs_cons in Ho as [Ht Ho]. apply limbs_cons in Hp as [Hy Hp]. open_takes; cbn [add_limbs val].
  assert (Hfc : fits 64 c) by (unfold fits; change (2 ^ 64) with 18446744073709551616; lia).
  pose proof (wrap64_add y c Hy Hfc) as E1. set (y1 := u64 (y + c)) in *.
  assert (Hy1 : fits 64 y1) by apply fits_u64.
  pose proof (wrap64_add y1 tmp Hy1 Ht) as E2. pose proof (fits_u64 (y1 + tmp)) as F2.
  assert (Hc' : 0 <= Z.b2z (y1 <? c) + Z.b2z (u64 (y1 + tmp) <? tmp) <= 1).
  { unfold fits, base in *. destruct (y1 <? c), (_ <? tmp); cbn [Z.b2z] in *; lia. }
  destruct (IH o p _ Ho Hp Hc' ltac:(lia) ltac:(lia)) as (ps & c' & -> & Hps & Hl & Hr & Ev).
  exists (u64 (y1 + tmp) :: ps), c'. split; [done|]. split; [by apply limbs_cons|]. split; [cbn; lia|].
  split; [done|]. cbn [val]. rewrite pow_S. lia.
Qed.

Lemma carry_limbs_spec p : forall c, limbs p -> 0 <= c <= 1 ->
  let '(p', c') := carry_limbs p c in
  limbs p' /\ length p' = length p /\ 0 <= c' <= 1 /\ val p' + pow (length p) * c' = val p + c.
Proof.
  induction p as [|y p IH]; intros c Hp Hc; cbn [carry_limbs].
  { destruct (Z.eqb_spec c 0); cbn [length val]; rewrite pow_0; repeat split; try done; lia. }
  destruct (Z.eqb_spec c 0) as [->|Hn]; [repeat split; try done; lia|].
  apply limbs_cons in Hp as [Hy Hp].
  assert (Hfc : fits 64 c) by (unfold fits; change (2 ^ 64) with 18446744073709551616; lia).
  pose proof (wrap64_add y c Hy Hfc) as E. specialize (IH _ Hp (b2z_range (u64 (y + c) <? c))).
  destruct (carry_limbs p _) as [p' c']. destruct IH as (Hp' & Hl & Hr & Ev).
  split; [apply limbs_cons; split; [apply fits_u64|done]|]. split; [cbn; lia|]. split; [done|].
  cbn [val length]. rewrite pow_S. lia.
Qed.

(** ** Significant limbs *)

Lemma used_le p : (used p <= length p)%nat.
Proof. induction p as [|x p IH]; cbn [used length]; [lia|]. destruct (used p); [destruct (x =? 0)|]; lia. Qed.

Lemma used_0 p : limbs p -> used p = 0%nat <-> val p = 0.
Proof.
  induction p as [|x p IH]; [done|]. intros [Hx Hp]%limbs_cons. specialize (IH Hp). cbn [used val].
  pose proof (val_nonneg p Hp). unfold fits, base in *. destruct (used p) as [|k].
  - rewrite (proj1 IH eq_refl). destruct (Z.eqb_spec x 0); split; intros; try done; lia.
  - split; [done|]. intros E. assert (E0 : val p = 0) by lia. apply IH in E0. done.
Qed.

Lemma val_used p : limbs p -> val (take (used p) p) = val p.
Proof.
  induction p as [|x p IH]; [done|]. intros [Hx Hp]%limbs_cons. specialize (IH Hp). cbn [used].
  destruct (used p) as [|k] eqn:E.
  - apply used_0 in E; [|done]. destruct (Z.eqb_spec x 0) as [->|]; open_takes; cbn [val] in *; rewrite ?E; lia.
  - open_takes; cbn [val] in *. by rewrite <- IH.
Qed.

Lemma val_lt_used p : limbs p -> val p < pow (used p).
Proof.
  intros H. rewrite <- (val_used p H) at 1.
  pose proof (val_bound (take (used p) p) (limbs_take _ _ H)) as Hb. rewrite length_take in Hb.
  pose proof (used_le p). rewrite Nat.min_l in Hb by lia. lia.
Qed.

Lemma pow_used_le p : limbs p -> (0 < used p)%nat -> pow (used p - 1) <= val p.
Proof.
  induction p as [|x p IH]; cbn [used]; [lia|]. intros [Hx Hp]%limbs_cons Hu. specialize (IH Hp).
  cbn [val]. unfold fits, base in *. pose proof (val_nonneg p Hp). destruct (used p) as [|k].
  - destruct (Z.eqb_spec x 0); [lia|]. cbn [Nat.sub]. rewrite pow_0. lia.
  - replace (S (S k) - 1)%nat with (S k) by lia. rewrite pow_S. unfold base.
    replace (S k - 1)%nat with k in IH by lia. specialize (IH ltac:(lia)). lia.
Qed.

Lemma used_lt p k : limbs p -> val p < pow k -> (used p <= k)%nat.
Proof.
  intros Hp Hv. destruct (decide (used p <= k)%nat) as [|Hk]; [done|].
  pose proof (pow_used_le p Hp ltac:(lia)). pose proof (pow_mono k (used p - 1) ltac:(lia)). lia.
Qed.

Lemma used_val p q : limbs p -> limbs q -> val p = val q -> used p = used q.
Proof.
  intros Hp Hq E. pose proof (used_lt p (used q) Hp). pose proof (used_lt q (used p) Hq).
  pose proof (val_lt_used p Hp). pose proof (val_lt_used q Hq). rewrite E in *. lia.
Qed.

(** ** Single limbs *)

Lemma val_take_S i p : (i < length p)%nat -> val (take (S i) p) = val (take i p) + pow i * (p !!! i).
Proof.
  intros Hi. destruct (lookup_lt_is_Some_2 p i Hi) as [x Hx]. rewrite (take_S_r _ _ x Hx), val_app, length_take.
  rewrite Nat.min_l by lia. cbn [val]. rewrite (list_lookup_total_correct _ _ _ Hx). lia.
Qed.

Lemma limb_fits p i : limbs p -> fits 64 (p !!! i).
Proof.
  intros Hp. rewrite list_lookup_total_alt. destruct (p !! i) as [x|] eqn:E; cbn; [|done].
  exact (Forall_lookup_1 _ _ _ _ Hp E).
Qed.

Lemma val_split i p : (i < length p)%nat ->
  val p = val (take i p) + pow i * (p !!! i) + pow (S i) * val (drop (S i) p).
Proof.
  intros Hi. rewrite (val_take_drop (S i) p) at 1. rewrite Nat.min_l by lia. rewrite val_take_S by done. lia.
Qed.

Lemma val_digit i p : limbs p -> (i < length p)%nat -> p !!! i = (val p / pow i) mod base.
Proof.
  intros Hp Hi. pose proof (val_split i p Hi) as E. pose proof (val_bound _ (limbs_take i p Hp)) as Hb.
  rewrite length_take, Nat.min_l in Hb by lia. destruct (limb_fits p i Hp) as [H0 H1]. fold base in H1.
  assert (Hd : val p / pow i = p !!! i + base * val (drop (S i) p)).
  { symmetry. apply (Z.div_unique _ _ _ (val (take i p))); [lia|]. rewrite E, pow_S. lia. }
  rewrite Hd. replace (p !!! i + base * val (drop (S i) p)) with (p !!! i + val (drop (S i) p) * base) by lia.
  rewrite Z.mod_add by done. by rewrite Z.mod_small.
Qed.

Lemma val_insert i v p : (i < length p)%nat -> val (<[i := v]> p) = val p + pow i * (v - p !!! i).
Proof.
  revert i. induction p as [|x p IH]; intros [|i] Hi; cbn [length] in *; [lia..| |].
  - change (<[0%nat := v]> (x :: p)) with (v :: p). change ((x :: p) !!! 0%nat) with x.
    cbn [val]. rewrite pow_0. lia.
  - change (<[S i := v]> (x :: p)) with (x :: <[i := v]> p). change ((x :: p) !!! S i) with (p !!! i).
    cbn [val]. rewrite IH by lia. rewrite pow_S. lia.
Qed.

Lemma limbs_insert i v p : limbs p -> fits 64 v -> limbs (<[i := v]> p).
Proof. intros. by apply Forall_insert. Qed.

(** The limbs from [i] on of a number that ends there. *)
Lemma top_limb i p : limbs p -> (i < length p)%nat -> val p < pow (S i) -> p !!! i = val p / pow i.
Proof.
  intros Hp Hi Hv. rewrite val_digit by done. apply Z.mod_small. pose proof (val_nonneg p Hp). pose proof (pow_pos i).
  split; [by apply Z.div_pos|]. apply Z.div_lt_upper_bound; [done|]. rewrite pow_S in Hv. lia.
Qed.

Lemma next_limb i p : limbs p -> (i < length p)%nat -> p !!! i + base * (val p / pow (S i)) = val p / pow i.
Proof.
  intros Hp Hi. rewrite val_digit by done. pose proof (pow_pos i).
  rewrite pow_S, (Z.mul_comm base (pow i)), <- Z.div_div by (done || lia).
  pose proof (Z.div_mod (val p / pow i) base ltac:(done)). lia.
Qed.
