(* ===== verification/Mpi.v ===== *)
(** * Mpi: multiprecision integers of [src/aes_test/library/bignum.c]

    [mbedtls_mpi] objects live at addresses; a function gets the addresses of its
    operands, which may be equal. [calloc] may refuse any request. *)
From S2P Require Import Prelude.
From S2P Require Import Limbs.

Open Scope C.

(** ** Objects and memory *)

(** [s], and [n] limbs at [p]; [p] is NULL when there are none. *)
Record mbedtls_mpi := Mpi { mpi_s : Z; mpi_p : list Z }.

Definition mpi_n (x : mbedtls_mpi) : nat := length (mpi_p x).

Abbreviation addr := nat.

(** The objects; addresses below [top] are in use. [calls] counts the requests
    to [calloc]. *)
Record heap := Heap { mem : addr -> mbedtls_mpi; top : addr; calls : nat }.

(** The answer of [calloc] to each request. *)
Class Callocs := grants : nat -> bool.

Definition MBEDTLS_ERR_MPI_BAD_INPUT_DATA : Z := -0x0004.
Definition MBEDTLS_ERR_MPI_INVALID_CHARACTER : Z := -0x0006.
Definition MBEDTLS_ERR_MPI_BUFFER_TOO_SMALL : Z := -0x0008.
Definition MBEDTLS_ERR_MPI_NEGATIVE_VALUE : Z := -0x000A.
Definition MBEDTLS_ERR_MPI_DIVISION_BY_ZERO : Z := -0x000C.
Definition MBEDTLS_ERR_MPI_NOT_ACCEPTABLE : Z := -0x000E.
Definition MBEDTLS_ERR_MPI_ALLOC_FAILED : Z := -0x0010.
Definition MBEDTLS_MPI_MAX_LIMBS : nat := Z.to_nat 10000.

(** A function returns 0, here with a value, or an error code; [Bad] is an access
    outside an array or a loop that has not ended. *)
Inductive outcome (A : Type) :=
  | Ok (v : A) (h : heap)
  | Err (code : Z) (h : heap)
  | Bad.
Arguments Ok {A} v h.
Arguments Err {A} code h.
Arguments Bad {A}.

Definition mpi (A : Type) : Type := heap -> outcome A.

Definition ret {A} (v : A) : mpi A := fun h => Ok v h.
Definition fail {A} (code : Z) : mpi A := fun h => Err code h.
Definition bad {A} : mpi A := fun _ => Bad.

(** [MBEDTLS_MPI_CHK]: an error goes to [cleanup]. *)
Definition chk {A B} (m : mpi A) (k : A -> mpi B) : mpi B :=
  fun h => match m h with Ok v h => k v h | Err e h => Err e h | Bad => Bad end.

Notation "'let*' x := m 'in' k" := (chk m (fun x => k))
  (at level 10, x pattern, m at level 100, k at level 200) : cmodel_scope.
Notation "m ;* k" := (chk m (fun _ => k)) (at level 199, right associativity) : cmodel_scope.

Definition upd (f : addr -> mbedtls_mpi) (a : addr) (x : mbedtls_mpi) : addr -> mbedtls_mpi :=
  fun b => if decide (b = a) then x else f b.

Definition load (a : addr) : mpi mbedtls_mpi := fun h => Ok (mem h a) h.
Definition store (a : addr) (x : mbedtls_mpi) : mpi unit := fun h => Ok tt (Heap (upd (mem h) a x) (top h) (calls h)).

(** An access that may be out of bounds. *)
Definition valid {A} (o : option A) : mpi A := match o with Some v => ret v | None => bad end.

(** [mbedtls_mpi_init] and [mbedtls_mpi_free] *)
Definition mbedtls_mpi_init : mbedtls_mpi := Mpi 1 [].
Definition mbedtls_mpi_free (X : addr) : mpi unit := store X mbedtls_mpi_init.

(** A local variable, initialised at the beginning and freed at [cleanup]. *)
Definition local {A} (body : addr -> mpi A) : mpi A :=
  fun h =>
    let T := top h in
    match body T (Heap (upd (mem h) T mbedtls_mpi_init) (S T) (calls h)) with
    | Ok v h => Ok v (Heap (mem h) T (calls h))
    | Err e h => Err e (Heap (mem h) T (calls h))
    | Bad => Bad
    end.

Definition set_s (X : addr) (s : Z) : mpi unit := let* x := load X in store X (Mpi s (mpi_p x)).
Definition set_p (X : addr) (p : list Z) : mpi unit := let* x := load X in store X (Mpi (mpi_s x) p).

(** [X->p[i] = v] *)
Definition set_limb (X : addr) (i : nat) (v : Z) : mpi unit :=
  let* x := load X in
  if (i <? mpi_n x)%nat then store X (Mpi (mpi_s x) (<[i := v]> (mpi_p x))) else bad.
Definition get_limb (X : addr) (i : nat) : mpi Z :=
  let* x := load X in valid (mpi_p x !! i).

Section Memory.
Context `{Callocs}.

(** [mbedtls_calloc]: zeroed limbs, or refused *)
Definition calloc (k : nat) : mpi (option (list Z)) :=
  fun h => Ok (if grants (calls h) then Some (replicate k 0) else None) (Heap (mem h) (top h) (S (calls h))).

Definition mbedtls_mpi_grow (X : addr) (nblimbs : nat) : mpi unit :=
  if (MBEDTLS_MPI_MAX_LIMBS <? nblimbs)%nat then fail MBEDTLS_ERR_MPI_ALLOC_FAILED
  else
    let* x := load X in
    if (mpi_n x <? nblimbs)%nat then
      let* p := calloc nblimbs in
      match p with
      | None => fail MBEDTLS_ERR_MPI_ALLOC_FAILED
      | Some p => store X (Mpi (mpi_s x) (mpi_p x ++ drop (mpi_n x) p))
      end
    else ret tt.

(** [for( i = X->n - 1; i > 0; i-- ) if( X->p[i] != 0 ) break; i++] *)
Definition significant (p : list Z) : nat := Nat.max 1 (used p).

Definition mbedtls_mpi_shrink (X : addr) (nblimbs : nat) : mpi unit :=
  if (MBEDTLS_MPI_MAX_LIMBS <? nblimbs)%nat then fail MBEDTLS_ERR_MPI_ALLOC_FAILED
  else
    let* x := load X in
    if (mpi_n x <=? nblimbs)%nat then mbedtls_mpi_grow X nblimbs
    else
      let i := Nat.max (significant (mpi_p x)) nblimbs in
      let* p := calloc i in
      match p with
      | None => fail MBEDTLS_ERR_MPI_ALLOC_FAILED
      | Some _ => store X (Mpi (mpi_s x) (take i (mpi_p x)))
      end.

Definition mbedtls_mpi_copy (X Y : addr) : mpi unit :=
  if (X =? Y)%nat then ret tt
  else
    let* y := load Y in
    match mpi_p y with
    | [] => mbedtls_mpi_free X
    | _ =>
        let i := significant (mpi_p y) in
        set_s X (mpi_s y) ;*
        let* x := load X in
        (if (mpi_n x <? i)%nat then mbedtls_mpi_grow X i
         else set_p X (take i (mpi_p x) ++ replicate (mpi_n x - i) 0)) ;*
        let* x := load X in
        set_p X (take i (mpi_p y) ++ drop i (mpi_p x))
    end.

Definition mbedtls_mpi_swap (X Y : addr) : mpi unit :=
  let* x := load X in
  let* y := load Y in
  store X y ;* store Y x.

(** [assign = (assign | (unsigned char)-assign) >> 7] *)
Definition normalise (assign : Z) : Z := Z.shiftr (Z.lor (u8 assign) (u8 (- assign))) 7.

Fixpoint assign_limbs (a : Z) (xs ys : list Z) : list Z :=
  match xs, ys with
  | x :: xs, y :: ys => u64 (x * (1 - a) + y * a) :: assign_limbs a xs ys
  | xs, _ => (fun x => u64 (x * (1 - a))) <$> xs
  end.

Definition mbedtls_mpi_safe_cond_assign (X Y : addr) (assign : Z) : mpi unit :=
  let assign := normalise assign in
  let* y := load Y in
  mbedtls_mpi_grow X (mpi_n y) ;*
  let* x := load X in
  let* y := load Y in
  store X (Mpi (mpi_s x * (1 - assign) + mpi_s y * assign) (assign_limbs assign (mpi_p x) (mpi_p y))).

Definition mbedtls_mpi_safe_cond_swap (X Y : addr) (swap : Z) : mpi unit :=
  if (X =? Y)%nat then ret tt
  else
    let swap := normalise swap in
    let* y := load Y in
    mbedtls_mpi_grow X (mpi_n y) ;*
    let* x := load X in
    mbedtls_mpi_grow Y (mpi_n x) ;*
    let* x := load X in
    let* y := load Y in
    let mix a xs ys := zip_with (fun x y => u64 (x * (1 - a) + y * a)) xs ys in
    store X (Mpi (mpi_s x * (1 - swap) + mpi_s y * swap) (mix swap (mpi_p x) (mpi_p y))) ;*
    store Y (Mpi (mpi_s y * (1 - swap) + mpi_s x * swap) (mix swap (mpi_p y) (mpi_p x))).

Definition mbedtls_mpi_lset (X : addr) (z : Z) : mpi unit :=
  mbedtls_mpi_grow X 1 ;*
  let* x := load X in
  let p := replicate (mpi_n x) 0 in
  store X (Mpi (if z <? 0 then -1 else 1) (<[0%nat := u64 (if z <? 0 then - z else z)]> p)).

End Memory.
