(* ===== verification/MpiBits.v ===== *)
(** * MpiBits: bits, shifts and comparisons of multiprecision integers *)
From S2P Require Import Prelude.
From S2P Require Import Limbs.
From S2P Require Import Mpi.

Open Scope C.

Definition BITS_TO_LIMBS (i : nat) : nat := (i / 64 + (if i mod 64 =? 0 then 0 else 1))%nat.

(** ** Reading *)

Definition mbedtls_mpi_get_bit (X : mbedtls_mpi) (pos : nat) : Z :=
  if (mpi_n X * 64 <=? pos)%nat then 0
  else Z.land (Z.shiftr (mpi_p X !!! (pos / 64)%nat) (Z.of_nat (pos mod 64))) 0x01.

(** [k] bits of [x] from bit [j] on. *)
Fixpoint first_bit (k j : nat) (x : Z) : option nat :=
  match k with
  | O => None
  | S k => if negb (Z.land (Z.shiftr x (Z.of_nat j)) 1 =? 0) then Some j else first_bit k (S j) x
  end.

Fixpoint lsb_limbs (count : nat) (p : list Z) : nat :=
  match p with
  | [] => 0
  | x :: p => match first_bit 64 0 x with Some j => count + j | None => lsb_limbs (count + 64) p end
  end%nat.

Definition mbedtls_mpi_lsb (X : mbedtls_mpi) : nat := lsb_limbs 0 (mpi_p X).

Fixpoint clz_loop (k j : nat) (x mask : Z) : nat :=
  match k with
  | O => j
  | S k => if negb (Z.land x mask =? 0) then j else clz_loop k (S j) x (Z.shiftr mask 1)
  end.

Definition mbedtls_clz (x : Z) : nat := clz_loop 64 0 x (Z.shiftl 1 (biL - 1)).

Definition mbedtls_mpi_bitlen (X : mbedtls_mpi) : nat :=
  match mpi_n X with
  | O => 0
  | _ =>
      let i := (significant (mpi_p X) - 1)%nat in
      let j := (64 - mbedtls_clz (mpi_p X !!! i))%nat in
      i * 64 + j
  end%nat.

Definition mbedtls_mpi_size (X : mbedtls_mpi) : nat := ((mbedtls_mpi_bitlen X + 7) / 8)%nat.

(** [for( ; i > 0; i-- )] of the comparisons *)
Fixpoint cmp_limbs (i : nat) (x y : list Z) (gt lt : Z) : Z :=
  match i with
  | O => 0
  | S i =>
      if y !!! i <? x !!! i then gt
      else if x !!! i <? y !!! i then lt
      else cmp_limbs i x y gt lt
  end.

Definition mbedtls_mpi_cmp_abs (X Y : mbedtls_mpi) : Z :=
  let i := used (mpi_p X) in
  let j := used (mpi_p Y) in
  if (i =? 0)%nat && (j =? 0)%nat then 0
  else if (j <? i)%nat then 1
  else if (i <? j)%nat then -1
  else cmp_limbs i (mpi_p X) (mpi_p Y) 1 (-1).

Definition mbedtls_mpi_cmp_mpi (X Y : mbedtls_mpi) : Z :=
  let i := used (mpi_p X) in
  let j := used (mpi_p Y) in
  if (i =? 0)%nat && (j =? 0)%nat then 0
  else if (j <? i)%nat then mpi_s X
  else if (i <? j)%nat then - mpi_s Y
  else if (0 <? mpi_s X) && (mpi_s Y <? 0) then 1
  else if (0 <? mpi_s Y) && (mpi_s X <? 0) then -1
  else cmp_limbs i (mpi_p X) (mpi_p Y) (mpi_s X) (- mpi_s X).

(** An integer as a number of one limb. *)
Definition of_int (z : Z) : mbedtls_mpi := Mpi (if z <? 0 then -1 else 1) [u64 (if z <? 0 then - z else z)].

Definition mbedtls_mpi_cmp_int (X : mbedtls_mpi) (z : Z) : Z := mbedtls_mpi_cmp_mpi X (of_int z).

(** ** Changing *)

(** [for( i = v0; i < X->n; i++ )] of the left shift, the limbs from [v0] on *)
Fixpoint shl_limbs (t1 r0 : Z) (p : list Z) : list Z :=
  match p with
  | [] => []
  | x :: p =>
      let r1 := Z.shiftr x (biL - t1) in
      Z.lor (u64 (Z.shiftl x t1)) r0 :: shl_limbs t1 r1 p
  end.

(** [for( i = X->n; i > 0; i-- )] of the right shift, with the bits that fall out
    of the lowest limb *)
Fixpoint shr_limbs (v1 : Z) (p : list Z) : list Z * Z :=
  match p with
  | [] => ([], 0)
  | x :: p =>
      let '(p, r0) := shr_limbs v1 p in
      (Z.lor (Z.shiftr x v1) r0 :: p, u64 (Z.shiftl x (biL - v1)))
  end.

Section Memory.
Context `{Callocs}.

Definition mbedtls_mpi_set_bit (X : addr) (pos : nat) (v : Z) : mpi unit :=
  let off := (pos / 64)%nat in
  let idx := Z.of_nat (pos mod 64) in
  if negb (v =? 0) && negb (v =? 1) then fail MBEDTLS_ERR_MPI_BAD_INPUT_DATA
  else
    let* x := load X in
    let write :=
      let* l := get_limb X off in
      set_limb X off (Z.lor (Z.land l (u64 (Z.lnot (u64 (Z.shiftl 1 idx))))) (u64 (Z.shiftl v idx))) in
    if (mpi_n x * 64 <=? pos)%nat then
      if v =? 0 then ret tt
      else mbedtls_mpi_grow X (off + 1) ;* write
    else write.

Definition mbedtls_mpi_shift_l (X : addr) (count : nat) : mpi unit :=
  let v0 := (count / 64)%nat in
  let t1 := Z.of_nat (count mod 64) in
  let* x := load X in
  let i := (mbedtls_mpi_bitlen x + count)%nat in
  (if (mpi_n x * 64 <? i)%nat then mbedtls_mpi_grow X (BITS_TO_LIMBS i) else ret tt) ;*
  let* x := load X in
  (* shift by count / limb_size *)
  let p := if (0 <? v0)%nat then take (mpi_n x) (replicate v0 0 ++ mpi_p x) else mpi_p x in
  (* shift by count % limb_size *)
  let p := if 0 <? t1 then take v0 p ++ shl_limbs t1 0 (drop v0 p) else p in
  set_p X p.

Definition mbedtls_mpi_shift_r (X : addr) (count : nat) : mpi unit :=
  let v0 := (count / 64)%nat in
  let v1 := Z.of_nat (count mod 64) in
  let* x := load X in
  if (mpi_n x <? v0)%nat || ((v0 =? mpi_n x)%nat && (0 <? v1)) then mbedtls_mpi_lset X 0
  else
    let p := if (0 <? v0)%nat then drop v0 (mpi_p x) ++ replicate v0 0 else mpi_p x in
    let p := if 0 <? v1 then fst (shr_limbs v1 p) else p in
    set_p X p.

End Memory.
