(* ===== verification/MpiFacts.v ===== *)
(** * MpiFacts: what the functions on multiprecision integers promise

    [wp m h Q]: from [h] the function [m] returns 0 in a state with [Q], or fails
    with [ALLOC_FAILED] because a request to [calloc] was refused. *)
From S2P Require Import Prelude.
From S2P Require Import Limbs.
From S2P Require Import Mpi.
From S2P Require Import MpiBits.

Open Scope C.

Definition wf (x : mbedtls_mpi) : Prop := limbs (mpi_p x) /\ (mpi_s x = 1 \/ mpi_s x = -1).
Definition mag (x : mbedtls_mpi) : Z := val (mpi_p x).
Definition value (x : mbedtls_mpi) : Z := mpi_s x * mag x.

(** The objects in use are numbers of at most [MBEDTLS_MPI_MAX_LIMBS] limbs. *)
Definition good (h : heap) : Prop :=
  forall a, (a < top h)%nat -> wf (mem h a) /\ (mpi_n (mem h a) <= MBEDTLS_MPI_MAX_LIMBS)%nat.

(** From [h] to [h'] only the object [X] changes, to one with [R]. *)
Record sets (X : addr) (R : mbedtls_mpi -> Prop) (h h' : heap) : Prop := Sets {
  s_top : top h' = top h;
  s_good : good h';
  s_new : R (mem h' X);
  s_rest : forall a, (a < top h)%nat -> a <> X -> mem h' a = mem h a
}.

Lemma upd_same f a x : upd f a x a = x.
Proof. unfold upd. by rewrite decide_True. Qed.
Lemma upd_other f a b x : b <> a -> upd f a x b = f b.
Proof. intros. unfold upd. by rewrite decide_False. Qed.

Lemma wf_init : wf mbedtls_mpi_init.
Proof. split; [apply limbs_nil|by left]. Qed.

Lemma value_abs x : wf x -> Z.abs (value x) = mag x.
Proof. intros [Hl [E|E]]; unfold value; rewrite E; pose proof (val_nonneg _ Hl); unfold mag in *; lia. Qed.

Lemma mag_nonneg x : wf x -> 0 <= mag x.
Proof. intros [Hl _]. by apply val_nonneg. Qed.

Lemma mag_bound x : wf x -> mag x < pow (mpi_n x).
Proof. intros [Hl _]. apply (val_bound _ Hl). Qed.

Section Memory.
Context `{Callocs}.

Definition wp {A} (m : mpi A) (h : heap) (Q : A -> heap -> Prop) : Prop :=
  match m h with
  | Ok v h' => Q v h'
  | Err e _ => e = MBEDTLS_ERR_MPI_ALLOC_FAILED /\ exists k, grants k = false
  | Bad => False
  end.

Definition writes {A} (m : mpi A) (X : addr) (h : heap) (R : mbedtls_mpi -> Prop) : Prop :=
  wp m h (fun _ h' => sets X R h h').

Lemma wp_ret {A} (v : A) h (Q : A -> heap -> Prop) : Q v h -> wp (ret v) h Q.
Proof. done. Qed.

Lemma wp_chk {A B} (m : mpi A) (k : A -> mpi B) h Q R :
  wp m h R -> (forall v h', R v h' -> wp (k v) h' Q) -> wp (chk m k) h Q.
Proof. unfold wp, chk. destruct (m h) as [v h'|e h'|]; [|done..]. intros HR Hk. by apply Hk. Qed.

Lemma wp_mono {A} (m : mpi A) h (Q R : A -> heap -> Prop) :
  wp m h Q -> (forall v h', Q v h' -> R v h') -> wp m h R.
Proof. unfold wp. destruct (m h); auto. Qed.

Lemma wp_load {B} a (k : mbedtls_mpi -> mpi B) h Q : wp (k (mem h a)) h Q -> wp (chk (load a) k) h Q.
Proof. done. Qed.

Lemma wp_valid {A B} (o : option A) v (k : A -> mpi B) h Q :
  o = Some v -> wp (k v) h Q -> wp (chk (valid o) k) h Q.
Proof. by intros ->. Qed.

Lemma wp_get_limb {B} X i (k : Z -> mpi B) h Q : (i < mpi_n (mem h X))%nat ->
  wp (k (mpi_p (mem h X) !!! i)) h Q -> wp (chk (get_limb X i) k) h Q.
Proof.
  intros Hi Hk. unfold get_limb, wp, chk, load, valid in *.
  destruct (lookup_lt_is_Some_2 (mpi_p (mem h X)) i Hi) as [x Hx]. rewrite Hx.
  by rewrite (list_lookup_total_correct _ _ _ Hx) in Hk.
Qed.

(** A run ends with [Q], at a refused [calloc], or with a code for the inputs
    [refused] names; it does not leave an array and does not run on. *)
Definition yields {A} (m : mpi A) (h : heap) (refused : Z -> Prop) (Q : A -> heap -> Prop) : Prop :=
  match m h with
  | Ok v h' => Q v h'
  | Err e _ => (e = MBEDTLS_ERR_MPI_ALLOC_FAILED /\ exists k, grants k = false) \/ refused e
  | Bad => False
  end.

Lemma yields_wp {A} (m : mpi A) h refused (Q : A -> heap -> Prop) : wp m h Q -> yields m h refused Q.
Proof. unfold wp, yields. destruct (m h); auto. Qed.

Lemma yields_err {A} (m : mpi A) h (refused : Z -> Prop) (Q : A -> heap -> Prop) e h' : m h = Err e h' -> refused e -> yields m h refused Q.
Proof. unfold yields. intros ->. by right. Qed.

Lemma yields_chk {A B} (m : mpi A) (k : A -> mpi B) h refused Q R :
  wp m h R -> (forall v h', R v h' -> yields (k v) h' refused Q) -> yields (chk m k) h refused Q.
Proof. unfold wp, yields, chk. destruct (m h) as [v h'|e h'|]; [|by left|done]. intros HR Hk. by apply Hk. Qed.

(** A local variable. *)
Definition enter (h : heap) : heap := Heap (upd (mem h) (top h) mbedtls_mpi_init) (S (top h)) (calls h).
Definition leave (h h' : heap) : heap := Heap (mem h') (top h) (calls h').

Lemma wp_local {A} (body : addr -> mpi A) h Q :
  wp (body (top h)) (enter h) (fun v h' => Q v (leave h h')) -> wp (local body) h Q.
Proof. unfold wp, local, enter, leave. by destruct (body (top h) _). Qed.

Lemma yields_mono {A} (m : mpi A) h refused refused' (Q Q' : A -> heap -> Prop) : yields m h refused Q ->
  (forall e, refused e -> refused' e) -> (forall v h', Q v h' -> Q' v h') -> yields m h refused' Q'.
Proof. unfold yields. destruct (m h); auto. intros [?|?]; auto. Qed.

(** No error but refused memory *)
Lemma yields_never {A} (m : mpi A) h refused (Q Q' : A -> heap -> Prop) : yields m h refused Q -> (forall e, ~ refused e) ->
  (forall v h', Q v h' -> Q' v h') -> wp m h Q'.
Proof. unfold wp, yields. destruct (m h) as [v h'|e h'|]; auto. intros [?|?] Hno; [done|]. by destruct (Hno e). Qed.

Lemma yields_local {A} (body : addr -> mpi A) h refused Q :
  yields (body (top h)) (enter h) refused (fun v h' => Q v (leave h h')) -> yields (local body) h refused Q.
Proof. unfold yields, local, enter, leave. by destruct (body (top h) _). Qed.

Lemma good_enter h : good h -> good (enter h).
Proof.
  intros Hg a Ha. cbn [enter mem top] in *. destruct (decide (a = top h)) as [->|Hn].
  - rewrite upd_same. split; [apply wf_init|]. cbn. lia.
  - rewrite upd_other by done. apply Hg. lia.
Qed.

Lemma good_leave h h' : good h' -> (top h <= top h')%nat -> good (leave h h').
Proof. intros Hg Ht a Ha. cbn [leave mem top] in *. apply Hg. lia. Qed.

Lemma writes_mono {A} (m : mpi A) X h (R S : mbedtls_mpi -> Prop) :
  writes m X h R -> (forall x, R x -> S x) -> writes m X h S.
Proof. intros Hm HS. eapply wp_mono; [exact Hm|]. intros v h' [H1 H2 H3 H4]. constructor; auto. Qed.

Lemma sets_store X x (R : mbedtls_mpi -> Prop) h : good h -> (X < top h)%nat ->
  wf x -> (mpi_n x <= MBEDTLS_MPI_MAX_LIMBS)%nat -> R x ->
  writes (store X x) X h R.
Proof.
  intros Hg HX Hw Hn HR. unfold writes, wp, store. constructor; cbn [mem top].
  - done.
  - intros a Ha. cbn [mem top] in *. destruct (decide (a = X)) as [->|Hne]; [by rewrite upd_same|].
    rewrite upd_other by done. by apply Hg.
  - by rewrite upd_same.
  - intros a _ Hne. by rewrite upd_other.
Qed.

(** Two changes of the same object. *)
Lemma sets_sets X R S h h1 h2 : sets X R h h1 -> sets X S h1 h2 -> sets X S h h2.
Proof.
  intros [T1 G1 N1 F1] [T2 G2 N2 F2]. constructor; [congruence|done|done|].
  intros a Ha Hn. rewrite F2 by (rewrite ?T1; done). by apply F1.
Qed.

Lemma writes_then {A B} (m : mpi A) (k : A -> mpi B) X h R S : writes m X h R ->
  (forall v h', sets X R h h' -> writes (k v) X h' S) -> writes (chk m k) X h S.
Proof.
  intros Hm Hk. eapply wp_chk; [exact Hm|]. intros v h1 H1. eapply wp_mono; [by apply Hk|].
  intros w h2 H2. exact (sets_sets X R S h h1 h2 H1 H2).
Qed.

(** Nothing to do. *)
Lemma writes_ret {A} (v : A) X h (R : mbedtls_mpi -> Prop) : good h -> R (mem h X) -> writes (ret v) X h R.
Proof. intros Hg HR. apply wp_ret. by constructor. Qed.

Lemma calloc_spec {B} k (f : option (list Z) -> mpi B) h Q :
  (let h' := Heap (mem h) (top h) (S (calls h)) in wp (f (Some (replicate k 0))) h' Q) ->
  (let h' := Heap (mem h) (top h) (S (calls h)) in grants (calls h) = false -> wp (f None) h' Q) ->
  wp (chk (calloc k) f) h Q.
Proof.
  intros H1 H2. unfold wp, chk, calloc in *. destruct (grants (calls h)) eqn:E; [exact H1|by apply H2].
Qed.

Lemma wp_refused {A} h h0 (Q : A -> heap -> Prop) :
  grants (calls h0) = false -> wp (fail MBEDTLS_ERR_MPI_ALLOC_FAILED) h Q.
Proof. intros E. unfold wp, fail. split; [done|]. by exists (calls h0). Qed.

(** ** Growing *)

Definition grown (k : nat) (x : mbedtls_mpi) : mbedtls_mpi := Mpi (mpi_s x) (mpi_p x ++ replicate (k - mpi_n x) 0).

Lemma limbs_grown p k : limbs p -> limbs (p ++ replicate k 0).
Proof. intros. apply limbs_app. split; [done|apply limbs_zero]. Qed.

Lemma val_grown p k : val (p ++ replicate k 0) = val p.
Proof. rewrite val_app, val_zeros. lia. Qed.

Lemma grown_wf k x : wf x -> wf (grown k x).
Proof. intros [Hl Hs]. split; [by apply limbs_grown|done]. Qed.
Lemma grown_n k x : mpi_n (grown k x) = Nat.max k (mpi_n x).
Proof. unfold grown, mpi_n. cbn [mpi_p]. rewrite length_app, length_replicate. lia. Qed.
Lemma grown_mag k x : mag (grown k x) = mag x.
Proof. apply val_grown. Qed.
Lemma grown_value k x : value (grown k x) = value x.
Proof. unfold value. by rewrite grown_mag. Qed.

Lemma grow_spec X k h : good h -> (X < top h)%nat -> (k <= MBEDTLS_MPI_MAX_LIMBS)%nat ->
  writes (mbedtls_mpi_grow X k) X h (fun x => x = grown k (mem h X)).
Proof.
  intros Hg HX Hk. unfold mbedtls_mpi_grow. rewrite (proj2 (Nat.ltb_ge _ _)) by done.
  apply wp_load. destruct (Hg X HX) as [Hw Hn]. destruct (Nat.ltb_spec (mpi_n (mem h X)) k).
  - apply calloc_spec; intros h1; [|by apply wp_refused].
    assert (E : mpi_p (mem h X) ++ drop (mpi_n (mem h X)) (replicate k 0) = mpi_p (grown k (mem h X))).
    { unfold grown. cbn [mpi_p]. by rewrite drop_replicate. }
    rewrite E. change (Mpi _ _) with (grown k (mem h X)).
    assert (Hg1 : good h1) by exact Hg.
    eapply wp_mono; [apply (sets_store X _ (fun x => x = grown k (mem h X)) h1); try done|].
    + by apply grown_wf.
    + rewrite grown_n. lia.
    + intros v h2 [T2 G2 N2 F2]. by constructor.
  - apply writes_ret; [done|]. unfold grown. replace (k - mpi_n (mem h X))%nat with 0%nat by lia.
    cbn [replicate]. rewrite app_nil_r. by destruct (mem h X).
Qed.

(** ** Copying *)

Lemma significant_le p : p <> [] -> (significant p <= length p)%nat.
Proof. intros Hp. unfold significant. pose proof (used_le p). destruct p; [done|]. cbn [length] in *. lia. Qed.

Lemma val_significant p : limbs p -> val (take (significant p) p) = val p.
Proof.
  intros Hl. unfold significant. destruct (Nat.max_spec 1 (used p)) as [[_ ->]|[Hu ->]]; [by apply val_used|].
  destruct (used p) as [|[|u]] eqn:E; [|rewrite <- E; by apply val_used|lia].
  apply used_0 in E; [|done]. rewrite E. pose proof (val_take_drop 1 p) as Et. rewrite E in Et.
  pose proof (val_nonneg _ (limbs_take 1 p Hl)). pose proof (val_nonneg _ (limbs_drop 1 p Hl)).
  pose proof (pow_pos (1 `min` length p)). nia.
Qed.

Lemma significant_lt p k : limbs p -> (0 < k)%nat -> val p < pow k -> (significant p <= k)%nat.
Proof. intros Hl Hk Hv. unfold significant. pose proof (used_lt p k Hl Hv). lia. Qed.

Definition copied (x y : mbedtls_mpi) : mbedtls_mpi :=
  match mpi_p y with
  | [] => mbedtls_mpi_init
  | _ => let i := significant (mpi_p y) in Mpi (mpi_s y) (take i (mpi_p y) ++ replicate (mpi_n x - i) 0)
  end.

Lemma copied_wf x y : wf y -> wf (copied x y).
Proof.
  intros [Hl Hs]. unfold copied. destruct (mpi_p y) as [|l p]; [apply wf_init|].
  split; [apply limbs_grown; auto with cmodel|done].
Qed.

Lemma copied_n x y : mpi_p y <> [] -> mpi_n (copied x y) = Nat.max (significant (mpi_p y)) (mpi_n x).
Proof.
  intros Hy. unfold copied. destruct (mpi_p y) as [|l p] eqn:E; [done|]. rewrite <- E in *.
  unfold mpi_n at 1. cbn [mpi_p]. rewrite length_app, length_replicate, length_take.
  pose proof (significant_le (mpi_p y) Hy). lia.
Qed.

Lemma copied_mag x y : wf y -> mag (copied x y) = mag y.
Proof.
  intros [Hl Hs]. unfold copied, mag. destruct (mpi_p y) as [|l p] eqn:E; [done|].
  cbn [mpi_p]. rewrite val_grown. by apply val_significant.
Qed.

Lemma copied_value x y : wf y -> value (copied x y) = value y.
Proof.
  intros Hw. unfold value. rewrite copied_mag by done. unfold copied, mag.
  destruct (mpi_p y) as [|l p] eqn:E; [cbn; lia|done].
Qed.

Lemma copy_spec X Y h : good h -> (X < top h)%nat -> (Y < top h)%nat ->
  writes (mbedtls_mpi_copy X Y) X h (fun x => x = if (X =? Y)%nat then mem h X else copied (mem h X) (mem h Y)).
Proof.
  intros Hg HX HY. unfold mbedtls_mpi_copy. destruct (Nat.eqb_spec X Y) as [->|Hne]; [by apply writes_ret|].
  apply wp_load. destruct (Hg Y HY) as [[Hl Hs] Hn]. destruct (Hg X HX) as [[Hlx Hsx] Hnx].
  unfold copied. set (y := mem h Y) in *. set (x := mem h X) in *.
  destruct (mpi_p y) as [|l0 p0] eqn:Ey; [apply sets_store; try done; [apply wf_init|cbn; lia]|].
  rewrite <- Ey in *. set (i := significant (mpi_p y)).
  assert (Hne' : mpi_p y <> []) by (by rewrite Ey). pose proof (significant_le _ Hne') as Hi. fold i in Hi.
  assert (Hlen : (length (mpi_p y) <= MBEDTLS_MPI_MAX_LIMBS)%nat) by exact Hn.
  apply (writes_then _ _ X h (fun x' => x' = Mpi (mpi_s y) (mpi_p x))).
  { unfold set_s. apply wp_load. apply sets_store; done. }
  intros _ h1 [T1 G1 N1 F1]. apply wp_load. rewrite N1. change (mpi_n (Mpi _ (mpi_p x))) with (mpi_n x).
  apply (writes_then _ _ X h1 (fun x' => mpi_s x' = mpi_s y /\ limbs (mpi_p x') /\
     length (mpi_p x') = Nat.max i (mpi_n x) /\ drop i (mpi_p x') = replicate (mpi_n x - i) 0)).
  - destruct (Nat.ltb_spec (mpi_n x) i).
    + eapply writes_mono; [apply grow_spec; [done|congruence|lia]|]. intros x' ->. rewrite N1.
      unfold grown. cbn [mpi_s mpi_p]. change (mpi_n (Mpi _ (mpi_p x))) with (mpi_n x).
      split; [done|]. split; [by apply limbs_grown|]. rewrite length_app, length_replicate. unfold mpi_n in *. split; [lia|].
      rewrite drop_ge by (rewrite length_app, length_replicate; lia). by replace (length (mpi_p x) - i)%nat with 0%nat by lia.
    + unfold set_p. apply wp_load. rewrite N1. cbn [mpi_s mpi_p]. unfold mpi_n in *.
      assert (Hlt : length (take i (mpi_p x)) = i) by (rewrite length_take; lia).
      apply sets_store; [done|congruence| | |]; cbn [mpi_s mpi_p].
      * split; [apply limbs_grown; auto with cmodel|done].
      * unfold mpi_n. cbn [mpi_p]. rewrite length_app, length_replicate. lia.
      * split; [done|]. split; [apply limbs_grown; auto with cmodel|].
        rewrite length_app, length_replicate. split; [lia|]. by rewrite drop_app_length'.
  - intros _ h2 [T2 G2 (N2 & Hl2 & Hn2 & Hd2) F2]. apply wp_load. unfold set_p. apply wp_load. rewrite N2, Hd2.
    assert (Hlt : length (take i (mpi_p y)) = i) by (rewrite length_take; lia).
    apply sets_store; [done|lia| | |done].
    + split; [apply limbs_grown; auto with cmodel|done].
    + unfold mpi_n. cbn [mpi_p]. rewrite length_app, length_replicate. unfold mpi_n in *. lia.
Qed.

(** ** Setting *)

Definition lset_limbs (k : nat) (z : Z) : list Z := <[0%nat := Z.abs z]> (replicate k 0).

Lemma lset_limbs_spec k z : (0 < k)%nat -> Z.abs z < base -> limbs (lset_limbs k z) /\
  length (lset_limbs k z) = k /\ val (lset_limbs k z) = Z.abs z.
Proof.
  intros Hk Hz. unfold lset_limbs. destruct k as [|k]; [lia|]. cbn [replicate].
  change (<[0%nat := Z.abs z]> (0 :: replicate k 0)) with (Z.abs z :: replicate k 0).
  split; [apply limbs_cons; split; [unfold fits, base in *; lia|apply limbs_zero]|].
  cbn [length val]. rewrite length_replicate, val_zeros. split; [done|lia].
Qed.

Lemma lset_spec X z h : good h -> (X < top h)%nat -> Z.abs z < base ->
  writes (mbedtls_mpi_lset X z) X h
    (fun x => x = Mpi (if z <? 0 then -1 else 1) (lset_limbs (Nat.max 1 (mpi_n (mem h X))) z)).
Proof.
  intros Hg HX Hz. unfold mbedtls_mpi_lset.
  eapply writes_then; [apply grow_spec; [done..|unfold MBEDTLS_MPI_MAX_LIMBS; lia]|].
  intros _ h1 [T1 G1 N1 F1]. apply wp_load. cbn beta in N1. rewrite N1, grown_n.
  assert (Eabs : u64 (if z <? 0 then - z else z) = Z.abs z).
  { rewrite wrap_id; destruct (Z.ltb_spec z 0); unfold fits, base in *; lia. }
  rewrite Eabs. change (<[0%nat := Z.abs z]> _) with (lset_limbs (Nat.max 1 (mpi_n (mem h X))) z).
  destruct (lset_limbs_spec (Nat.max 1 (mpi_n (mem h X))) z) as (Hl & Hn & Hv); [lia|done|].
  destruct (Hg X HX) as [_ Hnx]. apply sets_store; [done|congruence| | |done].
  - split; [done|]. cbn [mpi_s]. destruct (z <? 0); auto.
  - unfold mpi_n at 1. cbn [mpi_p]. rewrite Hn. unfold MBEDTLS_MPI_MAX_LIMBS in *. lia.
Qed.

Lemma lset_value k z : (0 < k)%nat -> Z.abs z < base ->
  value (Mpi (if z <? 0 then -1 else 1) (lset_limbs k z)) = z.
Proof.
  intros Hk Hz. destruct (lset_limbs_spec k z Hk Hz) as (_ & _ & Hv). unfold value, mag. cbn [mpi_s mpi_p].
  rewrite Hv. destruct (Z.ltb_spec z 0); lia.
Qed.

Lemma lset_int_spec X z h : good h -> (X < top h)%nat -> Z.abs z < base ->
  writes (mbedtls_mpi_lset X z) X h (fun x => value x = z /\ mag x = Z.abs z /\
    mpi_s x = (if z <? 0 then -1 else 1) /\ mpi_n x = Nat.max 1 (mpi_n (mem h X))).
Proof.
  intros Hg HX Hz. eapply writes_mono; [by apply lset_spec|]. intros x ->. rewrite lset_value by (done || lia).
  destruct (lset_limbs_spec (Nat.max 1 (mpi_n (mem h X))) z ltac:(lia) Hz) as (_ & H2 & H3). done.
Qed.

End Memory.

(** The heap [h'] differs from [h] in [X] only: rewriting backwards with the
    facts that say so. *)
Ltac frames := repeat match goal with
  | F : forall a, (a < top _)%nat -> a <> ?X -> mem ?h' a = mem ?h a |- context [mem ?h' ?b] =>
      rewrite (F b) by lia
  end.
