(* ===== verification/MpiBitsFacts.v ===== *)
(** * MpiBitsFacts: comparisons, lengths and shifts compute what they should *)
From S2P Require Import Prelude.
From S2P Require Import Limbs.
From S2P Require Import Mpi.
From S2P Require Import MpiBits.
From S2P Require Import MpiFacts.

Open Scope C.

(** ** Comparisons *)

Definition ord (c : comparison) : Z := match c with Lt => -1 | Eq => 0 | Gt => 1 end.

Lemma cmp_limbs_spec i x y gt lt : limbs x -> limbs y -> (i <= length x)%nat -> (i <= length y)%nat ->
  cmp_limbs i x y gt lt =
  match val (take i x) ?= val (take i y) with Lt => lt | Eq => 0 | Gt => gt end.
Proof.
  intros Hx Hy. induction i as [|i IH]; intros Hix Hiy; [by rewrite !take_0|]. cbn [cmp_limbs].
  rewrite !val_take_S by lia. pose proof (val_bound _ (limbs_take i x Hx)) as Bx.
  pose proof (val_bound _ (limbs_take i y Hy)) as By. rewrite length_take, Nat.min_l in Bx, By by lia.
  pose proof (pow_pos i). destruct (limb_fits x i Hx), (limb_fits y i Hy).
  destruct (Z.ltb_spec (y !!! i) (x !!! i)).
  - rewrite (proj2 (Z.compare_gt_iff _ _)); [done|nia].
  - destruct (Z.ltb_spec (x !!! i) (y !!! i)).
    + rewrite (proj2 (Z.compare_lt_iff _ _)); [done|nia].
    + rewrite IH by lia. replace (x !!! i) with (y !!! i) by lia.
      set (a := val _). set (b := val (take i y)). set (c := pow i * _).
      destruct (Z.compare_spec a b), (Z.compare_spec (a + c) (b + c)); try done; lia.
Qed.

Lemma used_compare p q : limbs p -> limbs q -> (used q < used p)%nat -> val q < val p.
Proof.
  intros Hp Hq Hu. pose proof (val_lt_used q Hq). pose proof (pow_used_le p Hp ltac:(lia)).
  pose proof (pow_mono (used q) (used p - 1) ltac:(lia)). lia.
Qed.

Lemma cmp_abs_spec X Y : wf X -> wf Y -> mbedtls_mpi_cmp_abs X Y = ord (mag X ?= mag Y).
Proof.
  intros [Hx _] [Hy _]. unfold mbedtls_mpi_cmp_abs, mag.
  destruct (Nat.eqb_spec (used (mpi_p X)) 0) as [Ex|Ex], (Nat.eqb_spec (used (mpi_p Y)) 0) as [Ey|Ey]; cbn [andb].
  1: { apply used_0 in Ex, Ey; try done. by rewrite Ex, Ey. }
  all: destruct (Nat.ltb_spec (used (mpi_p Y)) (used (mpi_p X)));
    [rewrite (proj2 (Z.compare_gt_iff _ _)); [done|by apply used_compare]|].
  all: destruct (Nat.ltb_spec (used (mpi_p X)) (used (mpi_p Y)));
    [rewrite (proj2 (Z.compare_lt_iff _ _)); [done|by apply used_compare]|].
  all: try lia.
  rewrite cmp_limbs_spec by (try done; pose proof (used_le (mpi_p X)); pose proof (used_le (mpi_p Y)); lia).
  rewrite val_used by done. replace (used (mpi_p X)) with (used (mpi_p Y)) by lia. rewrite val_used by done.
  by destruct (_ ?= _).
Qed.

Lemma ord_gt a b : b < a -> ord (a ?= b) = 1.
Proof. intros. by rewrite (proj2 (Z.compare_gt_iff _ _)). Qed.
Lemma ord_lt a b : a < b -> ord (a ?= b) = -1.
Proof. intros. by rewrite (proj2 (Z.compare_lt_iff _ _)). Qed.
Lemma ord_eq a b : a = b -> ord (a ?= b) = 0.
Proof. intros. by rewrite (proj2 (Z.compare_eq_iff _ _)). Qed.

Ltac by_ord := symmetry; first [apply ord_gt; lia | apply ord_lt; lia | apply ord_eq; lia].

Lemma cmp_mpi_spec X Y : wf X -> wf Y -> mbedtls_mpi_cmp_mpi X Y = ord (value X ?= value Y).
Proof.
  intros [Hx Sx] [Hy Sy]. unfold mbedtls_mpi_cmp_mpi, value, mag.
  pose proof (val_nonneg _ Hx). pose proof (val_nonneg _ Hy). pose proof (used_0 _ Hx) as Zx. pose proof (used_0 _ Hy) as Zy.
  pose proof (used_le (mpi_p X)). pose proof (used_le (mpi_p Y)).
  assert (Hc : used (mpi_p X) = used (mpi_p Y) -> forall gt lt,
     cmp_limbs (used (mpi_p X)) (mpi_p X) (mpi_p Y) gt lt =
     match val (mpi_p X) ?= val (mpi_p Y) with Lt => lt | Eq => 0 | Gt => gt end).
  { intros Eu gt lt. rewrite cmp_limbs_spec by (done || lia). rewrite val_used by done.
    rewrite Eu. by rewrite val_used. }
  pose proof (used_compare _ _ Hx Hy) as Cx. pose proof (used_compare _ _ Hy Hx) as Cy.
  set (i := used (mpi_p X)) in *. set (j := used (mpi_p Y)) in *.
  set (a := val (mpi_p X)) in *. set (b := val (mpi_p Y)) in *.
  destruct Sx as [-> | ->], Sy as [-> | ->]; cbn [Z.ltb Z.compare andb];
    destruct (Nat.eqb_spec i 0), (Nat.eqb_spec j 0); cbn [andb]; try by_ord;
    destruct (Nat.ltb_spec j i); try by_ord; destruct (Nat.ltb_spec i j); try by_ord;
    rewrite Hc by lia; destruct (Z.compare_spec a b); by_ord.
Qed.

Lemma of_int_wf z : wf (of_int z).
Proof. split; [apply limbs_cons; split; [apply fits_u64|apply limbs_nil]|]. cbn. destruct (z <? 0); auto. Qed.

Lemma of_int_value z : Z.abs z < base -> value (of_int z) = z.
Proof.
  intros Hz. unfold value, mag, of_int. cbn [mpi_s mpi_p val].
  rewrite wrap_id by (destruct (Z.ltb_spec z 0); unfold fits, base in *; lia).
  destruct (Z.ltb_spec z 0); lia.
Qed.

Lemma cmp_int_spec X z : wf X -> Z.abs z < base -> mbedtls_mpi_cmp_int X z = ord (value X ?= z).
Proof.
  intros Hx Hz. unfold mbedtls_mpi_cmp_int. rewrite cmp_mpi_spec by (done || apply of_int_wf). by rewrite of_int_value.
Qed.

Lemma ord_eqb x y : (ord (x ?= y) =? 0) = (x =? y).
Proof. destruct (Z.compare_spec x y); cbn; [by rewrite (proj2 (Z.eqb_eq _ _))|rewrite (proj2 (Z.eqb_neq _ _)); lia..]. Qed.
Lemma ord_ltb x y : (ord (x ?= y) <? 0) = (x <? y).
Proof. destruct (Z.compare_spec x y); cbn; symmetry; [apply Z.ltb_ge|apply Z.ltb_lt|apply Z.ltb_ge]; lia. Qed.
Lemma ord_leb x y : (ord (x ?= y) <=? 0) = (x <=? y).
Proof. destruct (Z.compare_spec x y); cbn; symmetry; [apply Z.leb_le|apply Z.leb_le|apply Z.leb_gt]; lia. Qed.
Lemma ord_geb x y : (0 <=? ord (x ?= y)) = (y <=? x).
Proof. destruct (Z.compare_spec x y); cbn; symmetry; [apply Z.leb_le|apply Z.leb_gt|apply Z.leb_le]; lia. Qed.
Lemma ord_gtb x y : (0 <? ord (x ?= y)) = (y <? x).
Proof. destruct (Z.compare_spec x y); cbn; symmetry; [apply Z.ltb_ge|apply Z.ltb_ge|apply Z.ltb_lt]; lia. Qed.

Create Rewrite HintDb cmp.
#[export] Hint Rewrite ord_eqb ord_ltb ord_leb ord_geb ord_gtb : cmp.

(** ** Bits *)

Lemma land_pow2 x m : 0 <= m -> (Z.land x (2 ^ m) =? 0) = negb (Z.testbit x m).
Proof.
  intros Hm. destruct (Z.testbit x m) eqn:E; cbn [negb].
  - apply Z.eqb_neq. intros E0. assert (Z.testbit (Z.land x (2 ^ m)) m = false) as Hb by (rewrite E0; apply Z.bits_0).
    rewrite Z.land_spec, E, Z.pow2_bits_true in Hb by done. done.
  - apply Z.eqb_eq. bits_by j. rewrite Z.pow2_bits_eqb by done.
    destruct (Z.eqb_spec m j) as [->|]; [by rewrite E|by rewrite andb_false_r].
Qed.

Lemma clz_loop_spec k : forall j x, (j + k = 64)%nat -> 0 <= x < 2 ^ Z.of_nat k ->
  clz_loop k j x (2 ^ (Z.of_nat k - 1)) = if x =? 0 then 64%nat else Z.to_nat (63 - Z.log2 x).
Proof.
  induction k as [|k IH]; intros j x Hjk Hx; cbn [clz_loop].
  { change (2 ^ Z.of_nat 0) with 1 in Hx. destruct (Z.eqb_spec x 0); lia. }
  replace (Z.of_nat (S k) - 1) with (Z.of_nat k) by lia. rewrite land_pow2, negb_involutive by lia.
  destruct (Z.testbit x (Z.of_nat k)) eqn:Eb.
  - destruct (Z.eqb_spec x 0) as [->|Hn]; [by rewrite Z.bits_0 in Eb|].
    assert (Z.log2 x = Z.of_nat k); [|lia].
    assert (Z.log2 x < Z.of_nat (S k)) by (apply Z.log2_lt_pow2; lia).
    destruct (decide (Z.log2 x < Z.of_nat k)); [|lia]. rewrite Z.bits_above_log2 in Eb by lia. done.
  - assert (Hx' : 0 <= x < 2 ^ Z.of_nat k).
    { apply fits_testbit; [lia|]. split; [lia|]. intros i Hi. destruct (decide (i = Z.of_nat k)) as [->|]; [done|].
      apply (testbit_above (Z.of_nat (S k))); [done|lia..]. }
    rewrite Z.shiftr_div_pow2 by lia.
    destruct (decide (k = 0%nat)) as [->|Hk].
    { cbn. change (2 ^ Z.of_nat 0) with 1 in Hx'. destruct (Z.eqb_spec x 0); lia. }
    replace (2 ^ Z.of_nat k / 2 ^ 1) with (2 ^ (Z.of_nat k - 1)); [apply IH; lia|].
    rewrite Z.pow_sub_r by lia. done.
Qed.

Lemma clz_spec x : fits 64 x -> mbedtls_clz x = if x =? 0 then 64%nat else Z.to_nat (63 - Z.log2 x).
Proof. intros Hx. apply (clz_loop_spec 64 0 x); [done|exact Hx]. Qed.

(** The length of a number in bits. *)
Definition bits (z : Z) : nat := if z =? 0 then 0%nat else Z.to_nat (Z.log2 z + 1).

Lemma bits_bounds z : 0 < z -> 2 ^ (Z.of_nat (bits z) - 1) <= z < 2 ^ Z.of_nat (bits z).
Proof.
  intros Hz. unfold bits. destruct (Z.eqb_spec z 0); [lia|]. pose proof (Z.log2_nonneg z).
  replace (Z.of_nat (Z.to_nat (Z.log2 z + 1))) with (Z.succ (Z.log2 z)) by lia.
  replace (Z.succ (Z.log2 z) - 1) with (Z.log2 z) by lia. by apply Z.log2_spec.
Qed.

Lemma bits_0 : bits 0 = 0%nat. Proof. done. Qed.

Lemma bits_lt z k : 0 <= z -> z < 2 ^ Z.of_nat k <-> (bits z <= k)%nat.
Proof.
  intros Hz. unfold bits. destruct (Z.eqb_spec z 0) as [->|Hn].
  { split; [lia|]. intros _. apply Z.pow_pos_nonneg; lia. }
  pose proof (Z.log2_lt_pow2 z (Z.of_nat k) ltac:(lia)). pose proof (Z.log2_nonneg z). lia.
Qed.

Lemma bits_unique z k : 0 < z -> 2 ^ (Z.of_nat k - 1) <= z < 2 ^ Z.of_nat k -> (0 < k)%nat -> bits z = k.
Proof.
  intros Hz [H1 H2] Hk. unfold bits. destruct (Z.eqb_spec z 0); [lia|].
  rewrite (Z.log2_unique z (Z.of_nat k - 1)); [lia|lia|]. by replace (Z.succ (Z.of_nat k - 1)) with (Z.of_nat k) by lia.
Qed.

Lemma bitlen_spec X : wf X -> mbedtls_mpi_bitlen X = bits (mag X).
Proof.
  intros [Hl _]. unfold mbedtls_mpi_bitlen, mag. destruct (mpi_n X) as [|m] eqn:En.
  { unfold mpi_n in En. apply length_zero_iff_nil in En. by rewrite En. }
  unfold mpi_n in En. set (p := mpi_p X) in *. rewrite clz_spec by by apply limb_fits.
  assert (Hu : (used p <= length p)%nat) by apply used_le. unfold significant.
  destruct (used p) as [|u] eqn:Eu.
  { apply used_0 in Eu; [|done]. cbn [Nat.max Nat.sub]. destruct p as [|x p]; [done|].
    apply limbs_cons in Hl as [Hx Hp]. cbn [val] in *. pose proof (val_nonneg p Hp). unfold fits, base in *.
    cbn [lookup_total list_lookup_total]. replace x with 0 by lia. replace (val p) with 0 by lia. done. }
  replace (1 `max` S u - 1)%nat with u by lia.
  assert (Hval : val p = val (take u p) + pow u * (p !!! u)).
  { rewrite <- val_take_S by lia. rewrite <- Eu. by rewrite val_used. }
  pose proof (val_bound _ (limbs_take u p Hl)) as Hb. rewrite length_take, Nat.min_l in Hb by lia.
  destruct (limb_fits p u Hl) as [Hx0 Hx1]. pose proof (pow_used_le p Hl ltac:(lia)) as Hge.
  rewrite Eu in Hge. replace (S u - 1)%nat with u in Hge by lia. pose proof (pow_pos u).
  assert (Hx : 0 < p !!! u) by nia. destruct (Z.eqb_spec (p !!! u) 0); [lia|].
  pose proof (Z.log2_spec _ Hx) as [L1 L2]. pose proof (Z.log2_nonneg (p !!! u)).
  assert (Z.log2 (p !!! u) < 64) by (apply Z.log2_lt_pow2; lia).
  symmetry. apply bits_unique; [nia| |lia].
  replace (Z.of_nat (u * 64 + (64 - Z.to_nat (63 - Z.log2 (p !!! u))))) with
    (64 * Z.of_nat u + Z.succ (Z.log2 (p !!! u))) by lia.
  replace (64 * Z.of_nat u + Z.succ (Z.log2 (p !!! u)) - 1) with (64 * Z.of_nat u + Z.log2 (p !!! u)) by lia.
  rewrite !Z.pow_add_r by lia. rewrite <- pow_bits. nia.
Qed.

(** ** The lowest bit that is set *)

Definition odd_part (k : nat) (z : Z) : Prop := exists q, z = 2 ^ Z.of_nat k * q /\ Z.odd q = true.

Lemma land_one x j : 0 <= j -> negb (Z.land (Z.shiftr x j) 1 =? 0) = Z.testbit x j.
Proof.
  intros Hj. change 1 with (2 ^ 0) at 1. rewrite land_pow2, negb_involutive by done.
  by rewrite Z.shiftr_spec, Z.add_0_l.
Qed.

Lemma first_bit_spec k : forall j x, (forall i, 0 <= i < Z.of_nat j -> Z.testbit x i = false) ->
  match first_bit k j x with
  | Some i => (i < j + k)%nat /\ Z.testbit x (Z.of_nat i) = true /\
      forall i', 0 <= i' < Z.of_nat i -> Z.testbit x i' = false
  | None => forall i, 0 <= i < Z.of_nat (j + k) -> Z.testbit x i = false
  end.
Proof.
  induction k as [|k IH]; intros j x Hj; cbn [first_bit]; [by rewrite Nat.add_0_r|].
  rewrite land_one by lia. destruct (Z.testbit x (Z.of_nat j)) eqn:E; [split; [lia|done]|].
  specialize (IH (S j) x). replace (S j + k)%nat with (j + S k)%nat in IH by lia. apply IH.
  intros i Hi. destruct (decide (i = Z.of_nat j)) as [->|]; [done|apply Hj; lia].
Qed.

Lemma odd_part_of x k : Z.testbit x (Z.of_nat k) = true ->
  (forall i, 0 <= i < Z.of_nat k -> Z.testbit x i = false) -> odd_part k x.
Proof.
  intros Hk Hlow. exists (Z.shiftr x (Z.of_nat k)). split.
  - rewrite Z.mul_comm, <- Z.shiftl_mul_pow2 by lia.
    apply Z.bits_inj'; intros i Hi. destruct (decide (i < Z.of_nat k)) as [Hlt|Hge].
    + rewrite Z.shiftl_spec_low by done. apply Hlow. lia.
    + rewrite Z.shiftl_spec by done. rewrite Z.shiftr_spec by lia. f_equal. lia.
  - rewrite <- Z.bit0_odd, Z.shiftr_spec by done. by rewrite Z.add_0_l.
Qed.

Lemma lsb_limbs_spec p : forall count, limbs p -> 0 < val p ->
  exists k, lsb_limbs count p = (count + k)%nat /\ odd_part k (val p).
Proof.
  induction p as [|x p IH]; intros count Hl Hv; cbn [val] in *; [lia|].
  apply limbs_cons in Hl as [Hx Hp]. pose proof (val_nonneg p Hp). cbn [lsb_limbs].
  pose proof (first_bit_spec 64 0 x ltac:(lia)) as Hf. destruct (first_bit 64 0 x) as [j|].
  - destruct Hf as (Hj & Hbit & Hlow). exists j. split; [done|].
    destruct (odd_part_of x j Hbit Hlow) as (q & -> & Hq).
    exists (q + 2 * 2 ^ (63 - Z.of_nat j) * val p). split.
    + assert (base = 2 ^ Z.of_nat j * (2 * 2 ^ (63 - Z.of_nat j))) as ->; [|lia].
      unfold base. rewrite (Z.mul_assoc _ 2), (Z.mul_comm _ 2), <- Z.mul_assoc, <- Z.pow_add_r by lia.
      by replace (Z.of_nat j + (63 - Z.of_nat j)) with 63 by lia.
    + rewrite <- Z.mul_assoc, Z.odd_add_mul_2. done.
  - assert (x = 0) as ->.
    { bits_by i. destruct (decide (i < 64)); [apply Hf; lia|apply (testbit_above 64 x i Hx); lia]. }
    destruct (IH (count + 64)%nat Hp) as (k & -> & q & Eq & Hq); [unfold base in *; lia|].
    exists (64 + k)%nat. split; [lia|]. exists q. split; [|done]. rewrite Eq, Nat2Z.inj_add, Z.pow_add_r by lia.
    unfold base. change (Z.of_nat 64) with 64. lia.
Qed.

Lemma lsb_zero p count : val p = 0 -> limbs p -> lsb_limbs count p = 0%nat.
Proof.
  revert count. induction p as [|x p IH]; intros count Hv Hl; [done|]. cbn [lsb_limbs val] in *.
  apply limbs_cons in Hl as [[Hx0 Hx1] Hp]. pose proof (val_nonneg p Hp). unfold base in *.
  replace x with 0 by lia. change (first_bit 64 0 0) with (@None nat). cbn iota. apply IH; [lia|done].
Qed.

Lemma lsb_spec X : wf X -> 0 < mag X -> odd_part (mbedtls_mpi_lsb X) (mag X).
Proof. intros [Hl _] Hv. destruct (lsb_limbs_spec (mpi_p X) 0 Hl Hv) as (k & E & Hk). unfold mbedtls_mpi_lsb. by rewrite E. Qed.

Lemma lsb_spec_0 X : wf X -> mag X = 0 -> mbedtls_mpi_lsb X = 0%nat.
Proof. intros [Hl _] Hv. by apply lsb_zero. Qed.

(** ** Shifts *)

Lemma lor_low t q r : 0 <= t -> 0 <= r < 2 ^ t -> Z.lor (q * 2 ^ t) r = q * 2 ^ t + r.
Proof. intros Ht Hr. rewrite <- Z.shiftl_mul_pow2 at 1 by done. by apply lor_shift. Qed.

Lemma shl_limbs_spec t p : forall r, 0 < t < 64 -> limbs p -> 0 <= r < 2 ^ t ->
  limbs (shl_limbs t r p) /\ length (shl_limbs t r p) = length p /\
  exists r', 0 <= r' < 2 ^ t /\ val (shl_limbs t r p) + pow (length p) * r' = val p * 2 ^ t + r.
Proof.
  induction p as [|x p IH]; intros r Ht Hp Hr.
  { split; [apply limbs_nil|]. split; [done|]. exists r. cbn [shl_limbs val length]. rewrite pow_0. split; [done|lia]. }
  apply limbs_cons in Hp as [Hx Hp]. cbn [shl_limbs val length].
  assert (Hsplit : 2 ^ 64 = 2 ^ (64 - t) * 2 ^ t) by (rewrite <- Z.pow_add_r by lia; f_equal; lia).
  assert (Hr1 : 0 <= Z.shiftr x (biL - t) < 2 ^ t).
  { unfold biL, fits in *. rewrite Z.shiftr_div_pow2 by lia. split; [apply Z.div_pos; [lia|apply Z.pow_pos_nonneg; lia]|].
    apply Z.div_lt_upper_bound; [apply Z.pow_pos_nonneg; lia|lia]. }
  destruct (IH _ Ht Hp Hr1) as (Hl & Hn & r' & Hr' & Ev).
  assert (Hlow : u64 (Z.shiftl x t) = (x mod 2 ^ (64 - t)) * 2 ^ t).
  { unfold wrap. rewrite Z.shiftl_mul_pow2 by lia. rewrite Hsplit. apply Zmult_mod_distr_r. }
  rewrite Hlow, lor_low by lia.
  pose proof (Z.mod_pos_bound x (2 ^ (64 - t)) ltac:(apply Z.pow_pos_nonneg; lia)) as Hm.
  pose proof (Z.div_mod x (2 ^ (64 - t)) ltac:(pose proof (Z.pow_pos_nonneg 2 (64 - t)); lia)) as Hd.
  split; [apply limbs_cons; split; [unfold fits in *; nia|done]|]. split; [lia|].
  exists r'. split; [done|]. rewrite pow_S. unfold biL in Ev. rewrite Z.shiftr_div_pow2 in Ev by lia.
  unfold base. rewrite Hsplit at 1 2. unfold base in Ev.
  transitivity ((x mod 2 ^ (64 - t)) * 2 ^ t + r + 2 ^ 64 * (val (shl_limbs t (x / 2 ^ (64 - t)) p) + pow (length p) * r')).
  { unfold biL. rewrite Z.shiftr_div_pow2 by lia. rewrite Hsplit. lia. }
  rewrite Ev, Hsplit. nia.
Qed.

Lemma shr_limbs_spec v p : 0 < v < 64 -> limbs p ->
  let '(q, r) := shr_limbs v p in
  limbs q /\ length q = length p /\ val q = val p / 2 ^ v /\ r = (val p mod 2 ^ v) * 2 ^ (64 - v).
Proof.
  intros Hv. assert (Hsplit : 2 ^ 64 = 2 ^ (64 - v) * 2 ^ v) by (rewrite <- Z.pow_add_r by lia; f_equal; lia).
  pose proof (Z.pow_pos_nonneg 2 v ltac:(lia) ltac:(lia)). pose proof (Z.pow_pos_nonneg 2 (64 - v) ltac:(lia) ltac:(lia)).
  induction p as [|x p IH]; intros Hp; cbn [shr_limbs].
  { split; [apply limbs_nil|]. cbn [val]. rewrite Z.mod_0_l, Z.div_0_l by lia. done. }
  apply limbs_cons in Hp as [Hx Hp]. specialize (IH Hp). destruct (shr_limbs v p) as [q r].
  destruct IH as (Hq & Hl & Ev & ->). cbn [val length].
  pose proof (Z.mod_pos_bound (val p) (2 ^ v) ltac:(lia)) as Hm. pose proof (Z.div_mod (val p) (2 ^ v) ltac:(lia)) as Hd.
  rewrite Z.shiftr_div_pow2 by lia.
  assert (Hhi : 0 <= x / 2 ^ v < 2 ^ (64 - v)).
  { unfold fits in Hx. split; [apply Z.div_pos; lia|apply Z.div_lt_upper_bound; lia]. }
  rewrite Z.lor_comm, lor_low by lia.
  assert (Hlow : u64 (Z.shiftl x (biL - v)) = (x mod 2 ^ v) * 2 ^ (64 - v)).
  { unfold wrap, biL. rewrite Z.shiftl_mul_pow2 by lia. rewrite Hsplit, (Z.mul_comm _ (2 ^ v)). apply Zmult_mod_distr_r. }
  pose proof (Z.mod_pos_bound x (2 ^ v) ltac:(lia)) as Hmx. pose proof (Z.div_mod x (2 ^ v) ltac:(lia)) as Hdx.
  split; [apply limbs_cons; split; [unfold fits in *; nia|done]|]. split; [lia|]. split.
  - rewrite Ev. apply (Z.div_unique _ _ _ (x mod 2 ^ v)); [lia|]. unfold base. rewrite Hsplit. nia.
  - rewrite Hlow. f_equal. unfold base. rewrite Hsplit.
    replace (x + 2 ^ (64 - v) * 2 ^ v * val p) with (x + 2 ^ (64 - v) * val p * 2 ^ v) by lia.
    by rewrite Z.mod_add by lia.
Qed.

Lemma BITS_TO_LIMBS_spec i k : (i <= k * 64)%nat -> (BITS_TO_LIMBS i <= k)%nat.
Proof.
  intros Hi. unfold BITS_TO_LIMBS. pose proof (Nat.div_mod i 64 ltac:(lia)).
  pose proof (Nat.mod_upper_bound i 64 ltac:(lia)).
  destruct (Nat.eqb_spec (i mod 64) 0); lia.
Qed.

Lemma BITS_TO_LIMBS_ge i : (i <= BITS_TO_LIMBS i * 64)%nat.
Proof.
  unfold BITS_TO_LIMBS. pose proof (Nat.div_mod i 64 ltac:(lia)). pose proof (Nat.mod_upper_bound i 64 ltac:(lia)).
  destruct (Nat.eqb_spec (i mod 64) 0); lia.
Qed.

Lemma pow_split v0 t1 : pow v0 * 2 ^ Z.of_nat t1 = 2 ^ Z.of_nat (v0 * 64 + t1).
Proof. rewrite pow_bits, <- Z.pow_add_r by lia. f_equal. lia. Qed.

Lemma bits_shift z c : 0 < z -> bits (z * 2 ^ Z.of_nat c) = (bits z + c)%nat.
Proof.
  intros Hz. pose proof (bits_bounds z Hz) as [B1 B2]. pose proof (Z.pow_pos_nonneg 2 (Z.of_nat c) ltac:(lia) ltac:(lia)).
  assert (Hb : (0 < bits z)%nat).
  { destruct (bits z) eqn:E; [|lia]. change (2 ^ Z.of_nat 0) with 1 in B2. lia. }
  apply bits_unique; [nia| |lia]. rewrite Nat2Z.inj_add.
  replace (Z.of_nat (bits z) + Z.of_nat c - 1) with ((Z.of_nat (bits z) - 1) + Z.of_nat c) by lia.
  rewrite !Z.pow_add_r by lia. nia.
Qed.

Section Memory.
Context `{Callocs}.

(** The move of the limbs. *)
Lemma moved_up v0 p : limbs p -> (val p = 0 \/ (used p + v0 <= length p)%nat) ->
  let q := take (length p) (replicate v0 0 ++ p) in
  limbs q /\ length q = length p /\ val q = val p * pow v0 /\ ((v0 <= length p)%nat -> take v0 q = replicate v0 0).
Proof.
  intros Hp Hv q. assert (Hq : limbs q).
  { apply limbs_take, limbs_app. split; [apply limbs_zero|done]. }
  assert (Hl : length q = length p) by (unfold q; rewrite length_take, length_app, length_replicate; lia).
  assert (Htv : (v0 <= length p)%nat -> q = replicate v0 0 ++ take (length p - v0) p).
  { intros Hle. unfold q. by rewrite take_app_ge, length_replicate by (rewrite length_replicate; lia). }
  split; [done|]. split; [done|]. split.
  - destruct (decide (v0 <= length p)%nat) as [Hle|Hgt].
    + rewrite Htv, val_app, val_zeros, length_replicate by done.
      enough (val (take (length p - v0) p) = val p) as -> by lia.
      destruct Hv as [Hv|Hv].
      * pose proof (val_take_drop (length p - v0) p) as E. pose proof (val_nonneg _ (limbs_take (length p - v0) p Hp)).
        pose proof (val_nonneg _ (limbs_drop (length p - v0) p Hp)). pose proof (pow_pos ((length p - v0) `min` length p)). nia.
      * pose proof (val_take_drop (used p) (take (length p - v0) p)) as E.
        rewrite take_take, Nat.min_l in E by lia. rewrite val_used in E by done.
        pose proof (val_take_drop (length p - v0) p) as E2.
        pose proof (val_nonneg _ (limbs_drop (used p) _ (limbs_take (length p - v0) p Hp))).
        pose proof (val_nonneg _ (limbs_drop (length p - v0) p Hp)).
        pose proof (pow_pos (used p `min` length (take (length p - v0) p))). pose proof (pow_pos ((length p - v0) `min` length p)). nia.
    + destruct Hv as [Hv|Hv]; [|lia]. rewrite Hv. unfold q. rewrite take_app_le by (rewrite length_replicate; lia).
      rewrite take_replicate, val_zeros. lia.
  - intros Hle. rewrite (Htv Hle). by rewrite take_app_length' by by rewrite length_replicate.
Qed.

Lemma shift_l_spec X count h : good h -> (X < top h)%nat ->
  mag (mem h X) * 2 ^ Z.of_nat count < pow MBEDTLS_MPI_MAX_LIMBS -> (count <= 64 * MBEDTLS_MPI_MAX_LIMBS)%nat ->
  writes (mbedtls_mpi_shift_l X count) X h (fun x =>
    mpi_s x = mpi_s (mem h X) /\ mag x = mag (mem h X) * 2 ^ Z.of_nat count /\
    mpi_n x = if (mpi_n (mem h X) * 64 <? bits (mag (mem h X)) + count)%nat
              then BITS_TO_LIMBS (bits (mag (mem h X)) + count) else mpi_n (mem h X)).
Proof.
  intros Hg HX Hv Hcount. unfold mbedtls_mpi_shift_l. apply wp_load. destruct (Hg X HX) as [Hw Hn].
  set (x := mem h X) in *. rewrite bitlen_spec by done. set (i := (bits (mag x) + count)%nat).
  pose proof (mag_nonneg x Hw) as Hm.
  assert (Hi : (i <= MBEDTLS_MPI_MAX_LIMBS * 64)%nat).
  { destruct (decide (mag x = 0)) as [E|Hne]; [unfold i; rewrite E, bits_0; lia|].
    unfold i. rewrite <- bits_shift by lia. apply bits_lt; [pose proof (Z.pow_pos_nonneg 2 (Z.of_nat count)); nia|].
    replace (Z.of_nat (MBEDTLS_MPI_MAX_LIMBS * 64)) with (64 * Z.of_nat MBEDTLS_MPI_MAX_LIMBS) by lia. by rewrite <- pow_bits. }
  apply (writes_then _ _ X h (fun x' => x' = if (mpi_n x * 64 <? i)%nat then grown (BITS_TO_LIMBS i) x else x)).
  { destruct (_ <? _)%nat; [|by apply writes_ret]. apply grow_spec; [done..|]. by apply BITS_TO_LIMBS_spec. }
  intros _ h1 [T1 G1 N1 F1]. apply wp_load.
  assert (Hx1 : mpi_s (mem h1 X) = mpi_s x /\ mag (mem h1 X) = mag x /\ (mag x = 0 \/ (i <= mpi_n (mem h1 X) * 64)%nat) /\
    mpi_n (mem h1 X) = if (mpi_n x * 64 <? i)%nat then BITS_TO_LIMBS i else mpi_n x).
  { cbn beta in N1. rewrite N1. destruct (Nat.ltb_spec (mpi_n x * 64) i) as [Hlt|Hge].
    - rewrite grown_mag, grown_n. pose proof (BITS_TO_LIMBS_ge i). split; [done|]. split; [done|].
      split; [right; lia|]. lia.
    - split; [done|]. split; [done|]. split; [right; lia|done]. }
  destruct Hx1 as (Es & Em & Hroom & En). rewrite <- En. destruct (G1 X) as [[Hl1 Hs1] Hn1]; [congruence|].
  set (x1 := mem h1 X) in *. set (v0 := (count / 64)%nat). set (t := (count mod 64)%nat).
  assert (Hct : count = (v0 * 64 + t)%nat /\ (t < 64)%nat).
  { unfold v0, t. pose proof (Nat.div_mod count 64 ltac:(lia)). pose proof (Nat.mod_upper_bound count 64 ltac:(lia)). lia. }
  destruct Hct as [Hct Ht].
  assert (Hused : val (mpi_p x1) = 0 \/ (used (mpi_p x1) + v0 <= length (mpi_p x1))%nat).
  { destruct (decide (mag x = 0)) as [E|Hne]; [left; fold (mag x1); lia|right]. destruct Hroom as [Hroom|Hroom]; [lia|].
    destruct (decide (used (mpi_p x1) = 0%nat)) as [E|Hu].
    { apply used_0 in E; [|done]. fold (mag x1) in E. lia. }
    pose proof (pow_used_le _ Hl1 ltac:(lia)) as Hp. fold (mag x1) in Hp.
    assert (Hb : (64 * (used (mpi_p x1) - 1) < bits (mag x))%nat).
    { destruct (decide (64 * (used (mpi_p x1) - 1) < bits (mag x))%nat); [done|].
      assert (bits (mag x) <= 64 * (used (mpi_p x1) - 1))%nat as Hb%bits_lt by lia; [|done].
      rewrite pow_bits in Hp. replace (Z.of_nat (64 * (used (mpi_p x1) - 1))) with (64 * Z.of_nat (used (mpi_p x1) - 1)) in Hb by lia. lia. }
    unfold mpi_n, i in *. lia. }
  set (p1 := if (0 <? v0)%nat then _ else _).
  assert (Hp1 : limbs p1 /\ length p1 = mpi_n x1 /\ val p1 = mag x1 * pow v0 /\
     ((v0 <= mpi_n x1)%nat -> take v0 p1 = replicate v0 0)).
  { unfold p1. destruct (Nat.ltb_spec 0 v0) as [Hv0|Hv0]; [by apply moved_up|].
    replace v0 with 0%nat by lia. rewrite pow_0. split; [done|]. split; [done|]. split; [unfold mag; lia|by rewrite take_0]. }
  destruct Hp1 as (Hl & Hlen & Hval & Hz). clearbody p1.
  set (p2 := if 0 <? Z.of_nat t then _ else _).
  enough (Hp2 : limbs p2 /\ length p2 = mpi_n x1 /\ val p2 = mag x1 * 2 ^ Z.of_nat count).
  { destruct Hp2 as (H2a & H2b & H2c). unfold set_p. apply wp_load.
    apply sets_store; [done|congruence|by split|unfold mpi_n in *; cbn [mpi_p]; lia|].
    cbn [mpi_s mpi_p]. split; [done|]. split; [unfold mag at 1; cbn [mpi_p]; lia|exact H2b]. }
  unfold p2. destruct (Z.ltb_spec 0 (Z.of_nat t)) as [Htp|Htp].
  2: { split; [done|]. split; [done|]. rewrite Hval, Hct, <- pow_split. replace (Z.of_nat t) with 0 by lia. lia. }
  destruct (shl_limbs_spec (Z.of_nat t) (drop v0 p1) 0) as (H2a & H2b & r' & Hr' & Ev); [lia|by apply limbs_drop|split; [lia|apply Z.pow_pos_nonneg; lia]|].
  rewrite length_drop in *. rewrite limbs_app, length_app, length_take, H2b, val_app, length_take. split; [|split].
  { split; [by apply limbs_take|done]. }
  { lia. }
  destruct (decide (v0 <= mpi_n x1)%nat) as [Hle|Hgt].
  - rewrite Hz, val_zeros by done. rewrite Nat.min_l by lia. pose proof (val_take_drop v0 p1) as Etd.
    rewrite Hz, val_zeros, Nat.min_l in Etd by (done || lia).
    assert (Hr0 : r' = 0).
    { assert (Hlt : val (drop v0 p1) * 2 ^ Z.of_nat t < pow (length p1 - v0)).
      { apply (Z.mul_lt_mono_pos_l (pow v0)); [apply pow_pos|]. rewrite <- pow_add. replace (v0 + (length p1 - v0))%nat with (length p1) by lia.
        replace (pow v0 * (val (drop v0 p1) * 2 ^ Z.of_nat t)) with (val p1 * 2 ^ Z.of_nat t) by lia.
        rewrite Hval, Em, <- Z.mul_assoc, pow_split, <- Hct.
        destruct (decide (mag x = 0)) as [E|Hne]; [rewrite E; pose proof (pow_pos (length p1)); lia|].
        destruct Hroom as [Hroom|Hroom]; [lia|]. rewrite pow_bits.
        replace (64 * Z.of_nat (length p1)) with (Z.of_nat (length p1 * 64)) by lia.
        apply bits_lt; [pose proof (Z.pow_pos_nonneg 2 (Z.of_nat count)); nia|].
        rewrite bits_shift by lia. unfold i in Hroom. lia. }
      pose proof (val_nonneg _ H2a). pose proof (pow_pos (length p1 - v0)). nia. }
    rewrite Hr0 in Ev. rewrite <- Em in *. replace (val (shl_limbs (Z.of_nat t) 0 (drop v0 p1))) with (val (drop v0 p1) * 2 ^ Z.of_nat t) by lia.
    rewrite Hct, <- pow_split. nia.
  - assert (Hm0 : mag x1 = 0).
    { destruct Hused as [E|E]; [exact E|unfold mpi_n in *; lia]. }
    rewrite Hm0 in *. rewrite drop_ge in * by lia. cbn [shl_limbs val length] in *.
    rewrite (take_ge p1) by lia. lia.
Qed.

Lemma shift_r_spec X count h : good h -> (X < top h)%nat ->
  writes (mbedtls_mpi_shift_r X count) X h (fun x =>
    (mpi_s x = mpi_s (mem h X) \/ mag x = 0) /\ mag x = mag (mem h X) / 2 ^ Z.of_nat count /\
    (mpi_n (mem h X) <= mpi_n x <= Nat.max 1 (mpi_n (mem h X)))%nat).
Proof.
  intros Hg HX. unfold mbedtls_mpi_shift_r. apply wp_load. destruct (Hg X HX) as [[Hl Hs] Hn].
  set (x := mem h X) in *. set (v0 := (count / 64)%nat). set (t := (count mod 64)%nat).
  assert (Hct : count = (v0 * 64 + t)%nat /\ (t < 64)%nat).
  { unfold v0, t. pose proof (Nat.div_mod count 64 ltac:(lia)). pose proof (Nat.mod_upper_bound count 64 ltac:(lia)). lia. }
  destruct Hct as [Hct Ht]. pose proof (val_bound _ Hl) as [Hv0 Hv1].
  set (c := _ || _). destruct c eqn:Ec.
  { eapply writes_mono; [apply lset_spec; [done..|]; done|]. intros x' ->.
    destruct (lset_limbs_spec (Nat.max 1 (mpi_n x)) 0 ltac:(lia) ltac:(done)) as (L1 & L2 & L3).
    assert (Em : mag (Mpi (if 0 <? 0 then -1 else 1) (lset_limbs (1 `max` mpi_n x) 0)) = 0) by exact L3.
    fold x. rewrite Em. split; [by right|]. split; [|change (mpi_n x <= length (lset_limbs (1 `max` mpi_n x) 0) <= 1 `max` mpi_n x)%nat; lia].
    symmetry. apply Z.div_small. split; [done|]. unfold mag. apply Z.lt_le_trans with (pow (mpi_n x)); [done|].
    rewrite pow_bits. apply Z.pow_le_mono_r; [lia|]. unfold c in Ec. apply orb_true_iff in Ec as [Ec|Ec].
    - apply Nat.ltb_lt in Ec. lia.
    - apply andb_true_iff in Ec as [E1%Nat.eqb_eq _]. lia. }
  apply orb_false_iff in Ec as [E1%Nat.ltb_ge E2].
  set (p1 := if (0 <? v0)%nat then _ else _).
  assert (Hp1 : limbs p1 /\ length p1 = mpi_n x /\ val p1 = mag x / pow v0).
  { unfold p1. destruct (Nat.ltb_spec 0 v0) as [Hlt|Hge].
    - split; [apply limbs_grown; by apply limbs_drop|]. rewrite length_app, length_drop, length_replicate.
      unfold mpi_n in *. split; [lia|]. rewrite val_grown. unfold mag. pose proof (val_take_drop v0 (mpi_p x)) as E.
      rewrite Nat.min_l in E by lia. pose proof (val_bound _ (limbs_take v0 _ Hl)) as Hb.
      rewrite length_take, Nat.min_l in Hb by lia. symmetry.
      symmetry. apply (Z.div_unique _ _ _ (val (take v0 (mpi_p x)))); [lia|lia].
    - replace v0 with 0%nat by lia. rewrite pow_0, Z.div_1_r. done. }
  destruct Hp1 as (Hl1 & Hn1 & Hv). clearbody p1.
  set (p2 := if 0 <? Z.of_nat t then _ else _).
  enough (Hp2 : limbs p2 /\ length p2 = mpi_n x /\ val p2 = mag x / 2 ^ Z.of_nat count).
  { destruct Hp2 as (H2a & H2b & H2c). unfold set_p. apply wp_load.
    apply sets_store; [done..|by split|unfold mpi_n in *; cbn [mpi_p]; lia|].
    cbn [mpi_s]. split; [by left|]. split; [exact H2c|]. unfold mpi_n in *. cbn [mpi_p]. lia. }
  assert (Hdiv : mag x / 2 ^ Z.of_nat count = mag x / pow v0 / 2 ^ Z.of_nat t).
  { rewrite Hct, <- pow_split. rewrite Z.div_div; [done|pose proof (pow_pos v0); lia|apply Z.pow_pos_nonneg; lia]. }
  unfold p2. destruct (Z.ltb_spec 0 (Z.of_nat t)) as [Htp|Htp].
  - pose proof (shr_limbs_spec (Z.of_nat t) p1 ltac:(lia) Hl1) as Hshr. destruct (shr_limbs (Z.of_nat t) p1) as [q r].
    destruct Hshr as (H2a & H2b & H2c & _). cbn [fst]. split; [done|]. split; [lia|]. by rewrite H2c, Hv, Hdiv.
  - split; [done|]. split; [done|]. rewrite Hv, Hdiv. replace (Z.of_nat t) with 0 by lia. by rewrite Z.div_1_r.
Qed.

End Memory.
