(* ===== verification/MpiArith.v ===== *)
(** * MpiArith: sums, differences and products of multiprecision integers

    All operands may be the same object; the functions compare the pointers
    where it matters. *)
From S2P Require Import Prelude.
From S2P Require Import Limbs.
From S2P Require Import Mpi.
From S2P Require Import MpiBits.
From S2P Require Import MpiFacts.
From S2P Require Import MpiBitsFacts.

Open Scope C.

Section Memory.
Context `{Callocs}.

(** From [if( X != A )] on. *)
Definition add_abs_ordered (X A B : addr) : mpi unit :=
  (if (X =? A)%nat then ret tt else mbedtls_mpi_copy X A) ;*
  set_s X 1 ;*
  let* b := load B in
  let j := used (mpi_p b) in
  mbedtls_mpi_grow X j ;*
  let* b := load B in
  let* x := load X in
  let* (ps, rest, c) := valid (add_limbs j (mpi_p b) (mpi_p x) 0) in
  let '(rest, c) := carry_limbs rest c in
  set_p X (ps ++ rest) ;*
  if c =? 0 then ret tt
  else
    (* the carry leaves the array *)
    mbedtls_mpi_grow X (mpi_n x + 1) ;*
    let* l := get_limb X (mpi_n x) in
    set_limb X (mpi_n x) (u64 (l + c)).

Definition mbedtls_mpi_add_abs (X A B : addr) : mpi unit :=
  let '(A, B) := if (X =? B)%nat then (X, A) else (A, B) in
  add_abs_ordered X A B.

Definition mbedtls_mpi_sub_abs (X A B : addr) : mpi unit :=
  let* a := load A in
  let* b := load B in
  if mbedtls_mpi_cmp_abs a b <? 0 then fail MBEDTLS_ERR_MPI_NEGATIVE_VALUE
  else
    local (fun TB =>
      (if (X =? B)%nat then mbedtls_mpi_copy TB B else ret tt) ;*
      let B := if (X =? B)%nat then TB else B in
      (if (X =? A)%nat then ret tt else mbedtls_mpi_copy X A) ;*
      set_s X 1 ;*
      let* b := load B in
      let* x := load X in
      let* p := valid (mpi_sub_hlp (used (mpi_p b)) (mpi_p b) (mpi_p x)) in
      set_p X p).

Definition mbedtls_mpi_add_mpi (X A B : addr) : mpi unit :=
  let* a := load A in
  let* b := load B in
  let s := mpi_s a in
  if mpi_s a * mpi_s b <? 0 then
    if 0 <=? mbedtls_mpi_cmp_abs a b then mbedtls_mpi_sub_abs X A B ;* set_s X s
    else mbedtls_mpi_sub_abs X B A ;* set_s X (- s)
  else mbedtls_mpi_add_abs X A B ;* set_s X s.

Definition mbedtls_mpi_sub_mpi (X A B : addr) : mpi unit :=
  let* a := load A in
  let* b := load B in
  let s := mpi_s a in
  if 0 <? mpi_s a * mpi_s b then
    if 0 <=? mbedtls_mpi_cmp_abs a b then mbedtls_mpi_sub_abs X A B ;* set_s X s
    else mbedtls_mpi_sub_abs X B A ;* set_s X (- s)
  else mbedtls_mpi_add_abs X A B ;* set_s X s.

(** [_B] with its one limb on the stack *)
Definition with_constant {A} (b : Z) (body : addr -> mpi A) : mpi A :=
  local (fun B => store B (of_int b) ;* body B).

Definition mbedtls_mpi_add_int (X A : addr) (b : Z) : mpi unit := with_constant b (mbedtls_mpi_add_mpi X A).
Definition mbedtls_mpi_sub_int (X A : addr) (b : Z) : mpi unit := with_constant b (mbedtls_mpi_sub_mpi X A).

(** [for( ; j > 0; j-- ) mpi_mul_hlp( i, A->p, X->p + j - 1, B->p[j - 1] )] *)
Fixpoint mul_rows (j i : nat) (a b x : list Z) : option (list Z) :=
  match j with
  | O => Some x
  | S j =>
      match mpi_mul_hlp i a (drop j x) (b !!! j) with
      | Some d => mul_rows j i a b (take j x ++ d)
      | None => None
      end
  end.

Definition mbedtls_mpi_mul_mpi (X A B : addr) : mpi unit :=
  local (fun TA => local (fun TB =>
    (if (X =? A)%nat then mbedtls_mpi_copy TA A else ret tt) ;*
    let A' := if (X =? A)%nat then TA else A in
    (if (X =? B)%nat then mbedtls_mpi_copy TB B else ret tt) ;*
    let B' := if (X =? B)%nat then TB else B in
    let* a := load A' in
    let* b := load B' in
    let i := used (mpi_p a) in
    let j := used (mpi_p b) in
    mbedtls_mpi_grow X (i + j) ;*
    mbedtls_mpi_lset X 0 ;*
    let* x := load X in
    let* p := valid (mul_rows j i (mpi_p a) (mpi_p b) (mpi_p x)) in
    set_p X p ;*
    set_s X (mpi_s a * mpi_s b))).

(** [b] is a [mbedtls_mpi_uint]. *)
Definition mbedtls_mpi_mul_int (X A : addr) (b : Z) : mpi unit :=
  local (fun B => store B (Mpi 1 [b]) ;* mbedtls_mpi_mul_mpi X A B).

(** ** They compute *)

(** How much the object of a result may grow, for operands below [total]. *)
Definition capacity (x a b : mbedtls_mpi) (total : Z) (x' : mbedtls_mpi) : Prop :=
  (forall k, (0 < k)%nat -> total < pow k -> (mpi_n x' <= Nat.max (mpi_n x) k)%nat) /\
  ((0 < mpi_n a)%nat -> (0 < mpi_n b)%nat -> (mpi_n x <= mpi_n x')%nat).

Lemma leave_sets X (R : mbedtls_mpi -> Prop) h h' : good h' -> (top h <= top h')%nat -> R (mem h' X) ->
  (forall a, (a < top h)%nat -> a <> X -> mem h' a = mem h a) -> sets X R h (leave h h').
Proof. intros Hg Ht HR Hf. constructor; try done. by apply good_leave. Qed.

Lemma set_s_spec X s h : good h -> (X < top h)%nat -> (s = 1 \/ s = -1) ->
  writes (set_s X s) X h (fun x => x = Mpi s (mpi_p (mem h X))).
Proof.
  intros Hg HX Hs. unfold set_s. apply wp_load. destruct (Hg X HX) as [[Hl _] Hn].
  apply sets_store; try done.
Qed.

Lemma set_p_spec X p h : good h -> (X < top h)%nat -> limbs p -> (length p <= MBEDTLS_MPI_MAX_LIMBS)%nat ->
  writes (set_p X p) X h (fun x => x = Mpi (mpi_s (mem h X)) p).
Proof.
  intros Hg HX Hl Hn. unfold set_p. apply wp_load. destruct (Hg X HX) as [[_ Hs] _].
  apply sets_store; try done.
Qed.

(** A copy that is left out when the two are the same. *)
Lemma copy_if_spec X A h : good h -> (X < top h)%nat -> (A < top h)%nat ->
  writes (if (X =? A)%nat then ret tt else mbedtls_mpi_copy X A) X h (fun x =>
    value x = value (mem h A) /\ mag x = mag (mem h A) /\
    (forall k, (0 < k)%nat -> mag (mem h A) < pow k -> (mpi_n x <= Nat.max (mpi_n (mem h X)) k)%nat) /\
    ((0 < mpi_n (mem h A))%nat -> (mpi_n (mem h X) <= mpi_n x)%nat) /\
    (mpi_n (mem h A) = 0%nat -> mpi_n x = 0%nat)).
Proof.
  intros Hg HX HA. destruct (Nat.eqb_spec X A) as [->|Hne].
  { apply writes_ret; [done|]. split_and!; try done. lia. }
  eapply writes_mono; [by apply copy_spec|]. intros x ->. rewrite (proj2 (Nat.eqb_neq _ _)) by done.
  destruct (Hg A HA) as [Hw Hn]. rewrite copied_value, copied_mag by done. split; [done|]. split; [done|].
  destruct (mpi_p (mem h A)) as [|l p] eqn:Ep.
  - unfold copied, mpi_n. rewrite Ep. cbn. split_and!; lia.
  - rewrite copied_n by by rewrite Ep. split; [|split].
    + intros k Hk Hv. pose proof (significant_lt (mpi_p (mem h A)) k (proj1 Hw) Hk Hv). lia.
    + lia.
    + unfold mpi_n. rewrite Ep. cbn. lia.
Qed.

Lemma set_limb_spec X i v h : good h -> (X < top h)%nat -> (i < mpi_n (mem h X))%nat -> fits 64 v ->
  writes (set_limb X i v) X h (fun x => x = Mpi (mpi_s (mem h X)) (<[i := v]> (mpi_p (mem h X)))).
Proof.
  intros Hg HX Hi Hv. unfold set_limb. apply wp_load. rewrite (proj2 (Nat.ltb_lt _ _)) by done.
  destruct (Hg X HX) as [[Hl Hs] Hn]. apply sets_store; try done.
  - split; [by apply Forall_insert|done].
  - unfold mpi_n in *. cbn [mpi_p]. by rewrite length_insert.
Qed.

(** The last step of the sum. *)
Lemma carry_out_spec X n c h : good h -> (X < top h)%nat -> mpi_n (mem h X) = n -> 0 <= c <= 1 ->
  mag (mem h X) + pow n * c < pow MBEDTLS_MPI_MAX_LIMBS ->
  writes (if c =? 0 then ret tt
          else mbedtls_mpi_grow X (n + 1) ;* let* l := get_limb X n in set_limb X n (u64 (l + c))) X h (fun x =>
    mpi_s x = mpi_s (mem h X) /\ mag x = mag (mem h X) + pow n * c /\
    mpi_n x = if c =? 0 then n else (n + 1)%nat).
Proof.
  intros Hg HX Hn Hc Hlt. destruct (Z.eqb_spec c 0) as [->|Hc0].
  { apply writes_ret; [done|]. split; [done|]. split; [lia|done]. }
  replace c with 1 in * by lia. destruct (Hg X HX) as [Hw HnX]. pose proof (mag_nonneg _ Hw).
  eapply writes_then; [apply grow_spec; [done..|]|].
  { assert (n < MBEDTLS_MPI_MAX_LIMBS)%nat; [apply pow_lt_inv; lia|lia]. }
  intros _ h1 [T1 G1 N1 F1]. cbn beta in N1.
  assert (Ep : mpi_p (mem h1 X) = mpi_p (mem h X) ++ [0]).
  { rewrite N1. unfold grown. cbn [mpi_p]. rewrite Hn. by replace (n + 1 - n)%nat with 1%nat by lia. }
  assert (En : mpi_n (mem h1 X) = (n + 1)%nat) by (unfold mpi_n in *; rewrite Ep, length_app; cbn; lia).
  unfold get_limb. eapply wp_chk; [apply wp_load; eapply wp_mono with (Q := fun v h => v = 0 /\ h = h1)|].
  { unfold wp, valid. rewrite Ep, lookup_app_r by (unfold mpi_n in Hn; lia).
    unfold mpi_n in Hn. replace (n - length (mpi_p (mem h X)))%nat with 0%nat by lia. done. }
  { intros v h' Hv. exact Hv. }
  intros v h2 [-> ->]. change (u64 (0 + 1)) with 1.
  eapply writes_mono; [apply set_limb_spec; [done|congruence|lia|done]|]. intros x ->.
  rewrite N1 at 1. split; [done|]. unfold mpi_n in *. unfold mag. cbn [mpi_p]. rewrite Ep.
  rewrite insert_app_r_alt by lia. replace (n - length (mpi_p (mem h X)))%nat with 0%nat by lia.
  change (<[0%nat := 1]> [0]) with [1]. rewrite val_app, length_app, Hn. cbn [val length]. split; [lia|done].
Qed.

Lemma add_abs_ordered_spec X A B h : good h -> (X < top h)%nat -> (A < top h)%nat -> (B < top h)%nat ->
  (X = B -> X = A) ->
  mag (mem h A) + mag (mem h B) < pow MBEDTLS_MPI_MAX_LIMBS ->
  writes (add_abs_ordered X A B) X h (fun x =>
    mpi_s x = 1 /\ mag x = mag (mem h A) + mag (mem h B) /\
    capacity (mem h X) (mem h A) (mem h B) (mag (mem h A) + mag (mem h B)) x).
Proof.
  intros Hg HX HA HB Halias Hlt. unfold add_abs_ordered.
  pose proof (mag_nonneg _ (proj1 (Hg A HA))). pose proof (mag_nonneg _ (proj1 (Hg B HB))).
  eapply writes_then; [by apply copy_if_spec|]. intros _ h1 [T1 G1 (_ & Em1 & Hk1 & Hlo1 & _) F1].
  assert (EB1 : mag (mem h1 B) = mag (mem h B)).
  { destruct (decide (X = B)) as [<-|]; [rewrite Em1; by rewrite <- Halias|by rewrite F1 by congruence]. }
  eapply writes_then; [apply set_s_spec; [done|congruence|by left]|]. intros _ h2 [T2 G2 N2 F2]. cbn beta in N2.
  assert (EB2 : mag (mem h2 B) = mag (mem h B)).
  { destruct (decide (X = B)) as [<-|]; [by rewrite N2|by rewrite F2 by congruence]. }
  apply wp_load. destruct (G2 B) as [[HlB2 _] HnB2]; [congruence|]. set (j := used (mpi_p (mem h2 B))).
  assert (Hj : (j <= mpi_n (mem h2 B))%nat) by apply used_le.
  eapply writes_then; [apply grow_spec; [done|congruence|lia]|]. intros _ h3 [T3 G3 N3 F3]. cbn beta in N3.
  apply wp_load. apply wp_load.
  assert (EB3 : mag (mem h3 B) = mag (mem h B)).
  { destruct (decide (X = B)) as [<-|]; [rewrite N3, grown_mag; done|by rewrite F3 by congruence]. }
  destruct (G3 B) as [[HlB3 _] HnB3]; [congruence|]. destruct (G3 X) as [[Hlx Hsx] Hnx]; [congruence|].
  assert (Ej : used (mpi_p (mem h3 B)) = j) by (apply used_val; [done..|]; unfold mag in *; lia).
  assert (Hx3 : mag (mem h3 X) = mag (mem h A) /\ mpi_s (mem h3 X) = 1 /\ mpi_n (mem h3 X) = Nat.max j (mpi_n (mem h1 X))).
  { rewrite N3, grown_mag, grown_n, N2. split; [exact Em1|done]. }
  destruct Hx3 as (Em3 & Es3 & En3). set (x := mem h3 X) in *. set (b := mem h3 B) in *.
  destruct (add_limbs_spec j (mpi_p b) (mpi_p x) 0 HlB3 Hlx ltac:(lia)) as (ps & c & -> & Hps & Hlps & Hc & Ev).
  { rewrite <- Ej. apply used_le. }
  { unfold mpi_n in En3. lia. }
  eapply wp_valid; [done|]. cbn beta iota. pose proof (carry_limbs_spec (drop j (mpi_p x)) c (limbs_drop _ _ Hlx) Hc) as Hcarry.
  destruct (carry_limbs (drop j (mpi_p x)) c) as [rest c']. destruct Hcarry as (Hrest & Hlr & Hc' & Evr).
  rewrite length_drop in *. fold (mpi_n x) in *.
  assert (Hn : length (ps ++ rest) = mpi_n x) by (rewrite length_app; lia).
  assert (Hval : val (ps ++ rest) + pow (mpi_n x) * c' = mag (mem h A) + mag (mem h B)).
  { rewrite val_app, Hlps. rewrite <- Em3, <- EB3. fold b. unfold mag. rewrite (val_take_drop j (mpi_p x)).
    rewrite Nat.min_l by (fold (mpi_n x); lia). rewrite <- (val_used (mpi_p b) HlB3), Ej.
    replace (mpi_n x) with (j + (mpi_n x - j))%nat by lia. rewrite pow_add. lia. }
  eapply writes_then; [apply set_p_spec; [done|congruence|by apply limbs_app|lia]|].
  intros _ h4 [T4 G4 N4 F4]. cbn beta in N4.
  assert (Hx4 : mpi_n (mem h4 X) = mpi_n x /\ mag (mem h4 X) = val (ps ++ rest) /\ mpi_s (mem h4 X) = 1) by by rewrite N4.
  destruct Hx4 as (En4 & Em4 & Es4).
  eapply writes_mono; [apply carry_out_spec; [done|congruence|done|done|lia]|].
  intros x' (Es & Em & En). rewrite Em, Em4, Hval, Es. split; [done|]. split; [done|].
  assert (Hpn : c' = 1 -> pow (mpi_n x) <= mag (mem h A) + mag (mem h B)).
  { intros ->. rewrite <- Hval. pose proof (val_nonneg (ps ++ rest)) as Hnn. rewrite limbs_app in Hnn. specialize (Hnn (conj Hps Hrest)). lia. }
  split.
  - intros k Hk Htot. specialize (Hk1 k Hk ltac:(lia)).
    assert (j <= k)%nat by (rewrite <- Ej; apply used_lt; [done|unfold mag in *; fold b; lia]).
    rewrite En. destruct (Z.eqb_spec c' 0) as [_|Hc1]; [lia|].
    assert (mpi_n x < k)%nat by (apply pow_lt_inv; specialize (Hpn ltac:(lia)); lia). lia.
  - intros Ha Hb. specialize (Hlo1 Ha). rewrite En. destruct (c' =? 0); lia.
Qed.

Lemma capacity_sym x a b t x' : capacity x a b t x' -> capacity x b a t x'.
Proof. intros [H1 H2]. split; [done|]. intros. by apply H2. Qed.

Lemma add_abs_spec X A B h : good h -> (X < top h)%nat -> (A < top h)%nat -> (B < top h)%nat ->
  mag (mem h A) + mag (mem h B) < pow MBEDTLS_MPI_MAX_LIMBS ->
  writes (mbedtls_mpi_add_abs X A B) X h (fun x =>
    mpi_s x = 1 /\ mag x = mag (mem h A) + mag (mem h B) /\
    capacity (mem h X) (mem h A) (mem h B) (mag (mem h A) + mag (mem h B)) x).
Proof.
  intros Hg HX HA HB Hlt. unfold mbedtls_mpi_add_abs. destruct (Nat.eqb_spec X B) as [->|Hne].
  - eapply writes_mono; [apply add_abs_ordered_spec; try done; lia|]. intros x (E1 & E2 & E3).
    rewrite Z.add_comm. split; [done|]. split; [done|]. by apply capacity_sym.
  - by apply add_abs_ordered_spec.
Qed.

Lemma sub_abs_spec X A B h : good h -> (X < top h)%nat -> (A < top h)%nat -> (B < top h)%nat ->
  mag (mem h B) <= mag (mem h A) ->
  writes (mbedtls_mpi_sub_abs X A B) X h (fun x =>
    mpi_s x = 1 /\ mag x = mag (mem h A) - mag (mem h B) /\
    capacity (mem h X) (mem h A) (mem h B) (mag (mem h A)) x).
Proof.
  intros Hg HX HA HB Hle. unfold mbedtls_mpi_sub_abs. apply wp_load, wp_load.
  rewrite cmp_abs_spec by (apply Hg; done). rewrite ord_ltb, (proj2 (Z.ltb_ge _ _)) by done.
  apply wp_local. set (T := top h). set (h0 := enter h). pose proof (good_enter h Hg) as G0. fold h0 in G0.
  assert (F0 : forall a, (a < T)%nat -> mem h0 a = mem h a) by (intros a Ha; apply upd_other; unfold T in *; lia).
  assert (T0 : top h0 = S T) by done. fold T in HX, HA, HB.
  pose proof (mag_nonneg _ (proj1 (Hg B HB))). pose proof (mag_nonneg _ (proj1 (Hg A HA))).
  (* the copy of B *)
  set (B' := if (X =? B)%nat then T else B).
  eapply wp_chk with (R := fun _ h1 => top h1 = S T /\ good h1 /\ mag (mem h1 B') = mag (mem h B) /\
     (forall a, (a < T)%nat -> mem h1 a = mem h a)).
  { unfold B'. destruct (Nat.eqb_spec X B) as [->|Hne].
    - eapply wp_mono; [apply copy_spec; [done|lia..]|]. intros _ h1 [T1 G1 N1 F1]. rewrite N1.
      rewrite (proj2 (Nat.eqb_neq T B)) by lia. rewrite copied_mag, F0 by (rewrite ?F0 by done; done || apply Hg; done).
      split; [congruence|]. split; [done|]. split; [done|]. intros a Ha. rewrite F1 by lia. by apply F0.
    - apply wp_ret. split; [done|]. split; [done|]. rewrite F0 by done. split; [done|]. exact F0. }
  intros _ h1 (T1 & G1 & EB1 & F1). assert (HB' : (B' < S T)%nat /\ (B' <> X)).
  { unfold B'. destruct (Nat.eqb_spec X B); lia. }
  destruct HB' as [HB' HBX].
  eapply wp_chk; [apply (copy_if_spec X A h1); [done|lia..]|]. intros _ h2 [T2 G2 (_ & Em2 & Hk2 & Hlo2 & Hz2) F2].
  pose proof (F1 A HA) as EA1. pose proof (F1 X HX) as EX1. rewrite EA1 in *. rewrite EX1 in *.
  eapply wp_chk; [apply (set_s_spec X 1 h2); [done|lia|by left]|]. intros _ h3 [T3 G3 N3 F3]. cbn beta in N3.
  apply wp_load, wp_load.
  assert (EB3 : mag (mem h3 B') = mag (mem h B)) by by rewrite F3, F2 by lia.
  assert (Hx3 : mag (mem h3 X) = mag (mem h A) /\ mpi_s (mem h3 X) = 1 /\ mpi_n (mem h3 X) = mpi_n (mem h2 X)) by by rewrite N3.
  destruct Hx3 as (Em3 & Es3 & En3). destruct (G3 B') as [[HlB _] _]; [lia|]. destruct (G3 X) as [[Hlx _] Hnx]; [lia|].
  unfold mag in EB3, Em3.
  destruct (mpi_sub_hlp_spec (used (mpi_p (mem h3 B'))) (mpi_p (mem h3 B')) (mpi_p (mem h3 X))) as (p & -> & Hp & Hlp & Ep);
    [done|done|apply used_le| |rewrite val_used by done; unfold mag in *; lia|].
  { apply used_lt; [done|]. pose proof (val_bound _ Hlx) as [_ Hb]. unfold mag in *. lia. }
  rewrite val_used in Ep by done.
  eapply wp_valid; [done|]. eapply wp_mono; [apply (set_p_spec X p h3); [done|lia|done|unfold mpi_n in *; lia]|].
  intros _ h4 [T4 G4 N4 F4]. cbn beta in N4. apply leave_sets; [done|unfold T in *; lia| |].
  - rewrite N4. cbn [mpi_s]. split; [done|]. unfold mag at 1. cbn [mpi_p]. split; [unfold mag in *; lia|].
    assert (En : mpi_n (Mpi (mpi_s (mem h3 X)) p) = mpi_n (mem h2 X)) by (unfold mpi_n in *; cbn [mpi_p]; lia).
    split; rewrite En; [|auto]. intros k Hk Htot. apply Hk2; [done|lia].
  - intros a Ha Hne. fold T in Ha. rewrite F4, F3, F2, F1 by lia. done.
Qed.

(** Sums and differences with a sign: what remains is to set it. *)
Lemma capacity_n x a b t x' x'' : mpi_n x' = mpi_n x'' -> capacity x a b t x' -> capacity x a b t x''.
Proof. intros E [H1 H2]. split; rewrite <- E; auto. Qed.

Lemma capacity_le x a b t t' x' : capacity x a b t x' -> t <= t' -> capacity x a b t' x'.
Proof. intros [H1 H2] Hle. split; [|done]. intros k Hk Ht. apply H1; [done|lia]. Qed.

Lemma set_sign_spec X h (m : mpi unit) s M x0 a b t : good h -> (X < top h)%nat -> (s = 1 \/ s = -1) ->
  writes m X h (fun x => mpi_s x = 1 /\ mag x = M /\ capacity x0 a b t x) ->
  writes (m ;* set_s X s) X h (fun x => value x = s * M /\ (mpi_s x = s) /\ capacity x0 a b t x).
Proof.
  intros Hg HX Hs Hm. eapply writes_then; [exact Hm|]. intros _ h1 [T1 G1 (E1 & E2 & E3) F1].
  eapply writes_mono; [apply set_s_spec; [done|congruence|done]|]. intros x ->. unfold value. cbn [mpi_s].
  change (mag (Mpi s (mpi_p (mem h1 X)))) with (mag (mem h1 X)). rewrite E2. split; [done|]. split; [done|].
  by eapply capacity_n.
Qed.

Lemma add_mpi_spec X A B h : good h -> (X < top h)%nat -> (A < top h)%nat -> (B < top h)%nat ->
  Z.abs (value (mem h A) + value (mem h B)) < pow MBEDTLS_MPI_MAX_LIMBS ->
  writes (mbedtls_mpi_add_mpi X A B) X h (fun x =>
    value x = value (mem h A) + value (mem h B) /\
    capacity (mem h X) (mem h A) (mem h B)
      (Z.max (Z.max (mag (mem h A)) (mag (mem h B))) (mag x)) x).
Proof.
  intros Hg HX HA HB Hlt. unfold mbedtls_mpi_add_mpi. apply wp_load, wp_load.
  destruct (Hg A HA) as [[HlA HsA] HnA], (Hg B HB) as [[HlB HsB] HnB].
  rewrite cmp_abs_spec by by split. rewrite ord_geb. unfold value in *.
  assert (0 <= mag (mem h A)) by by apply val_nonneg. assert (0 <= mag (mem h B)) by by apply val_nonneg.
  assert (Hadd : mpi_s (mem h A) = mpi_s (mem h B) ->
    mag (mem h A) + mag (mem h B) < pow MBEDTLS_MPI_MAX_LIMBS) by (intros E; destruct HsA, HsB; nia).
  destruct (Z.ltb_spec (mpi_s (mem h A) * mpi_s (mem h B)) 0) as [Hop|Hsame].
  - destruct (Z.leb_spec (mag (mem h B)) (mag (mem h A))) as [Hle|Hgt].
    + eapply writes_mono; [apply set_sign_spec; [done..|by apply sub_abs_spec]|].
      intros x (E & Es & Hc). split; [fold (value x); rewrite E; destruct HsA, HsB; nia|].
      by apply (capacity_le _ _ _ _ _ _ Hc); lia.
    + eapply writes_mono; [apply set_sign_spec; [done..|destruct HsA; lia|apply sub_abs_spec; done || lia]|].
      intros x (E & Es & Hc). split; [fold (value x); rewrite E; destruct HsA, HsB; nia|].
      apply capacity_sym in Hc. by apply (capacity_le _ _ _ _ _ _ Hc); lia.
  - eapply writes_mono; [apply set_sign_spec; [done..|apply add_abs_spec; try done]|].
    + apply Hadd. destruct HsA, HsB; lia.
    + intros x (E & Es & Hc). split; [fold (value x); rewrite E; destruct HsA, HsB; nia|].
      apply (capacity_le _ _ _ _ _ _ Hc). assert (mag x = mag (mem h A) + mag (mem h B)); [|lia].
      unfold value in E. rewrite Es in E. destruct HsA as [Ea|Ea]; rewrite Ea in E; lia.
Qed.

Lemma sub_mpi_spec X A B h : good h -> (X < top h)%nat -> (A < top h)%nat -> (B < top h)%nat ->
  Z.abs (value (mem h A) - value (mem h B)) < pow MBEDTLS_MPI_MAX_LIMBS ->
  writes (mbedtls_mpi_sub_mpi X A B) X h (fun x =>
    value x = value (mem h A) - value (mem h B) /\
    capacity (mem h X) (mem h A) (mem h B)
      (Z.max (Z.max (mag (mem h A)) (mag (mem h B))) (mag x)) x).
Proof.
  intros Hg HX HA HB Hlt. unfold mbedtls_mpi_sub_mpi. apply wp_load, wp_load.
  destruct (Hg A HA) as [[HlA HsA] HnA], (Hg B HB) as [[HlB HsB] HnB].
  rewrite cmp_abs_spec by by split. rewrite ord_geb. unfold value in *.
  assert (0 <= mag (mem h A)) by by apply val_nonneg. assert (0 <= mag (mem h B)) by by apply val_nonneg.
  assert (Hadd : mpi_s (mem h A) <> mpi_s (mem h B) ->
    mag (mem h A) + mag (mem h B) < pow MBEDTLS_MPI_MAX_LIMBS) by (intros E; destruct HsA, HsB; nia).
  destruct (Z.ltb_spec 0 (mpi_s (mem h A) * mpi_s (mem h B))) as [Hop|Hsame].
  - destruct (Z.leb_spec (mag (mem h B)) (mag (mem h A))) as [Hle|Hgt].
    + eapply writes_mono; [apply set_sign_spec; [done..|by apply sub_abs_spec]|].
      intros x (E & Es & Hc). split; [fold (value x); rewrite E; destruct HsA, HsB; nia|].
      by apply (capacity_le _ _ _ _ _ _ Hc); lia.
    + eapply writes_mono; [apply set_sign_spec; [done..|destruct HsA; lia|apply sub_abs_spec; done || lia]|].
      intros x (E & Es & Hc). split; [fold (value x); rewrite E; destruct HsA, HsB; nia|].
      apply capacity_sym in Hc. by apply (capacity_le _ _ _ _ _ _ Hc); lia.
  - eapply writes_mono; [apply set_sign_spec; [done..|apply add_abs_spec; try done]|].
    + apply Hadd. destruct HsA, HsB; lia.
    + intros x (E & Es & Hc). split; [fold (value x); rewrite E; destruct HsA, HsB; nia|].
      apply (capacity_le _ _ _ _ _ _ Hc). assert (mag x = mag (mem h A) + mag (mem h B)); [|lia].
      unfold value in E. rewrite Es in E. destruct HsA as [Ea|Ea]; rewrite Ea in E; lia.
Qed.

(** ** One operand on the stack *)

Lemma enter_same h a : (a < top h)%nat -> mem (enter h) a = mem h a.
Proof. intros Ha. apply upd_other. lia. Qed.

Lemma local_writes (body : addr -> mpi unit) X (R : mbedtls_mpi -> Prop) h :
  wp (body (top h)) (enter h) (fun _ h' => top h' = S (top h) /\ good h' /\ R (mem h' X) /\
    forall a, (a < top h)%nat -> a <> X -> mem h' a = mem h a) ->
  writes (local body) X h R.
Proof.
  intros Hb. apply wp_local. eapply wp_mono; [exact Hb|]. intros v h' (T' & G' & HR & F').
  by apply leave_sets; [|lia|..].
Qed.

Lemma constant_spec x h : good h -> wf x -> (mpi_n x <= MBEDTLS_MPI_MAX_LIMBS)%nat ->
  wp (store (top h) x) (enter h) (fun _ h1 => top h1 = S (top h) /\ good h1 /\ mem h1 (top h) = x /\
    forall a, (a < top h)%nat -> mem h1 a = mem h a).
Proof.
  intros Hg Hw Hn. eapply wp_mono; [apply (sets_store (top h) x (fun y => y = x) (enter h)); try done|].
  - by apply good_enter.
  - cbn. lia.
  - intros _ h1 [T1 G1 N1 F1]. split; [done|]. split; [done|]. split; [done|]. intros a Ha.
    rewrite F1; [by apply enter_same|cbn; lia|lia].
Qed.

Lemma with_constant_spec x (f : addr -> mpi unit) X (R : mbedtls_mpi -> Prop) h :
  good h -> wf x -> (mpi_n x <= MBEDTLS_MPI_MAX_LIMBS)%nat -> (X < top h)%nat ->
  (forall h1, good h1 -> top h1 = S (top h) -> mem h1 (top h) = x ->
     (forall a, (a < top h)%nat -> mem h1 a = mem h a) -> writes (f (top h)) X h1 R) ->
  writes (local (fun B => store B x ;* f B)) X h R.
Proof.
  intros Hg Hw Hn HX Hf. apply local_writes.
  eapply wp_chk; [by apply constant_spec|]. intros _ h1 (T1 & G1 & N1 & F1).
  eapply wp_mono; [by apply Hf|]. intros _ h2 [T2 G2 N2 F2]. split; [congruence|]. split; [done|]. split; [done|].
  intros a Ha Hne. rewrite F2 by lia. by apply F1.
Qed.

Lemma of_int_mag b : Z.abs b < base -> mag (of_int b) = Z.abs b.
Proof. intros Hb. rewrite <- value_abs by apply of_int_wf. by rewrite of_int_value. Qed.

Lemma add_int_spec X A b h : good h -> (X < top h)%nat -> (A < top h)%nat -> Z.abs b < base ->
  Z.abs (value (mem h A) + b) < pow MBEDTLS_MPI_MAX_LIMBS ->
  writes (mbedtls_mpi_add_int X A b) X h (fun x =>
    value x = value (mem h A) + b /\ capacity (mem h X) (mem h A) (of_int b) (Z.max (Z.max (mag (mem h A)) (Z.abs b)) (mag x)) x).
Proof.
  intros Hg HX HA Hb Hlt. apply with_constant_spec; [done|apply of_int_wf|unfold MBEDTLS_MPI_MAX_LIMBS; cbn; lia|done|].
  intros h1 G1 T1 N1 F1. rewrite <- (of_int_value b Hb), <- (F1 A HA) in Hlt. rewrite <- N1 in Hlt.
  eapply writes_mono; [apply add_mpi_spec; try done; lia|]. intros x. rewrite N1, of_int_value, of_int_mag, !F1 by done. done.
Qed.

Lemma sub_int_spec X A b h : good h -> (X < top h)%nat -> (A < top h)%nat -> Z.abs b < base ->
  Z.abs (value (mem h A) - b) < pow MBEDTLS_MPI_MAX_LIMBS ->
  writes (mbedtls_mpi_sub_int X A b) X h (fun x =>
    value x = value (mem h A) - b /\ capacity (mem h X) (mem h A) (of_int b) (Z.max (Z.max (mag (mem h A)) (Z.abs b)) (mag x)) x).
Proof.
  intros Hg HX HA Hb Hlt. apply with_constant_spec; [done|apply of_int_wf|unfold MBEDTLS_MPI_MAX_LIMBS; cbn; lia|done|].
  intros h1 G1 T1 N1 F1. rewrite <- (of_int_value b Hb), <- (F1 A HA) in Hlt. rewrite <- N1 in Hlt.
  eapply writes_mono; [apply sub_mpi_spec; try done; lia|]. intros x. rewrite N1, of_int_value, of_int_mag, !F1 by done. done.
Qed.

(** ** Products *)

Lemma mul_rows_spec i a b j : forall x, limbs a -> limbs b -> limbs x -> (i <= length a)%nat -> (j <= length b)%nat ->
  (i + j <= length x)%nat -> val x + val (take i a) * val (take j b) < pow (length x) ->
  exists x', mul_rows j i a b x = Some x' /\ limbs x' /\ length x' = length x /\
    val x' = val x + val (take i a) * val (take j b).
Proof.
  induction j as [|j IH]; intros x Ha Hb Hx Hi Hj Hij Hlt; cbn [mul_rows].
  { exists x. rewrite take_0. cbn [val]. split_and!; try done. lia. }
  rewrite val_take_S in * by lia. pose proof (limb_fits b j Hb) as Hbj. unfold fits in Hbj.
  pose proof (val_nonneg _ (limbs_take i a Ha)) as Hva. pose proof (val_nonneg _ (limbs_take j b Hb)) as Hvb.
  pose proof (val_take_drop j x) as Ex. rewrite Nat.min_l in Ex by lia.
  pose proof (val_nonneg _ (limbs_take j x Hx)). pose proof (pow_pos j).
  assert (Hrow : val (drop j x) + (b !!! j) * val (take i a) < pow (length (drop j x))).
  { rewrite length_drop. apply (Z.mul_lt_mono_pos_l (pow j)); [done|]. rewrite <- pow_add.
    replace (j + (length x - j))%nat with (length x) by lia.
    assert (0 <= val (take i a) * val (take j b)) by nia. nia. }
  destruct (mpi_mul_hlp_spec i a (drop j x) (b !!! j)) as (d & -> & Hd & Hld & Ed);
    [done|by apply limbs_drop|done|done|rewrite length_drop; lia|done|].
  rewrite length_drop in Hld.
  assert (El : length (take j x ++ d) = length x) by (rewrite length_app, length_take; lia).
  assert (Ev : val (take j x ++ d) = val x + pow j * ((b !!! j) * val (take i a))).
  { rewrite val_app, length_take, Nat.min_l by lia. rewrite Ed. lia. }
  destruct (IH (take j x ++ d)) as (x' & E' & Hx' & Hl' & Ev'); try done; try lia.
  { apply limbs_app. split; [by apply limbs_take|done]. }
  { rewrite El, Ev. nia. }
  exists x'. split; [done|]. split; [done|]. split; [lia|]. rewrite Ev', Ev. nia.
Qed.

Lemma mul_mpi_spec X A B h : good h -> (X < top h)%nat -> (A < top h)%nat -> (B < top h)%nat ->
  (used (mpi_p (mem h A)) + used (mpi_p (mem h B)) <= MBEDTLS_MPI_MAX_LIMBS)%nat ->
  writes (mbedtls_mpi_mul_mpi X A B) X h (fun x =>
    value x = value (mem h A) * value (mem h B) /\
    mpi_n x = Nat.max (mpi_n (mem h X)) (Nat.max 1 (used (mpi_p (mem h A)) + used (mpi_p (mem h B)))) /\
    (X <> A -> X <> B -> mpi_s x = mpi_s (mem h A) * mpi_s (mem h B))).
Proof.
  intros Hg HX HA HB Hsize. unfold mbedtls_mpi_mul_mpi. set (T := top h) in *.
  apply local_writes. fold T. set (h0 := enter h). pose proof (good_enter h Hg) as G0. fold h0 in G0.
  assert (F0 : forall a, (a < T)%nat -> mem h0 a = mem h a) by (intros a Ha; by apply enter_same).
  apply wp_local. change (top h0) with (S T). set (h1 := enter h0). pose proof (good_enter h0 G0) as G1. fold h1 in G1.
  assert (F1 : forall a, (a < T)%nat -> mem h1 a = mem h a).
  { intros a Ha. rewrite <- F0 by done. apply enter_same. cbn. fold T. lia. }
  assert (T1 : top h1 = S (S T)) by done.
  assert (Hcopy : forall (C D : addr) h2, top h2 = S (S T) -> good h2 -> (T <= D < S (S T))%nat -> (C < T)%nat ->
    wp (if (X =? C)%nat then mbedtls_mpi_copy D C else ret tt) h2 (fun _ h3 =>
      top h3 = S (S T) /\ good h3 /\ (forall a, (a < S (S T))%nat -> a <> D -> mem h3 a = mem h2 a) /\
      let C' : addr := if (X =? C)%nat then D else C in
      (C' < S (S T))%nat /\ C' <> X /\ value (mem h3 C') = value (mem h2 C) /\ mag (mem h3 C') = mag (mem h2 C))).
  { intros C D h2 T2 G2 HD HC. destruct (Nat.eqb_spec X C) as [E|Hne].
    - eapply wp_mono; [apply copy_spec; [done|lia..]|]. intros _ h3 [T3 G3 N3 F3]. cbn beta in N3.
      rewrite (proj2 (Nat.eqb_neq D C)) in N3 by lia. split; [congruence|]. split; [done|].
      split; [intros a Ha Hn; apply F3; lia|]. cbn zeta. split; [lia|]. split; [lia|].
      rewrite N3, copied_value, copied_mag by (apply G2; lia). done.
    - apply wp_ret. split; [done|]. split; [done|]. split; [done|]. cbn zeta. split; [lia|]. split; [lia|done]. }
  eapply wp_chk; [apply (Hcopy A T h1); [done|done|lia|done]|]. intros _ h2 (T2 & G2 & F2 & HA' & HAX & EvA & EmA).
  eapply wp_chk; [apply (Hcopy B (S T) h2); [done|done|lia|done]|]. intros _ h3 (T3 & G3 & F3 & HB' & HBX & EvB & EmB).
  cbv zeta in *. set (A' := if (X =? A)%nat then T else A) in *. set (B' := if (X =? B)%nat then S T else B) in *.
  change (A' < S (S T))%nat in HA'. change (B' < S (S T))%nat in HB'. change (A' <> X) in HAX. change (B' <> X) in HBX.
  change (value (mem h3 B') = value (mem h2 B)) in EvB. change (mag (mem h3 B') = mag (mem h2 B)) in EmB.
  assert (HAS : A' <> S T) by (unfold A'; destruct (X =? A)%nat; lia).
  rewrite <- (F3 A') in EvA, EmA by lia. rewrite (F2 B) in EvB, EmB by lia.
  rewrite (F1 A) in EvA, EmA by done. rewrite (F1 B) in EvB, EmB by done.
  apply wp_load, wp_load.
  destruct (G3 A') as [[HlA HsA] _]; [lia|]. destruct (G3 B') as [[HlB HsB] _]; [lia|].
  assert (Ei : used (mpi_p (mem h3 A')) = used (mpi_p (mem h A))) by (apply used_val; [done|apply (Hg A HA)|exact EmA]).
  assert (Ej : used (mpi_p (mem h3 B')) = used (mpi_p (mem h B))) by (apply used_val; [done|apply (Hg B HB)|exact EmB]).
  set (i := used (mpi_p (mem h3 A'))) in *. set (j := used (mpi_p (mem h3 B'))) in *.
  set (a := mpi_p (mem h3 A')) in *. set (b := mpi_p (mem h3 B')) in *.
  eapply wp_chk; [apply (grow_spec X (i + j) h3); [done|lia|lia]|]. intros _ h4 [T4 G4 N4 F4]. cbn beta in N4.
  eapply wp_chk; [apply (lset_spec X 0 h4); [done|lia|done]|]. intros _ h5 [T5 G5 N5 F5]. cbn beta in N5.
  apply wp_load. rewrite N4, grown_n in N5. destruct (lset_limbs_spec (1 `max` ((i + j) `max` mpi_n (mem h3 X))) 0 ltac:(lia) ltac:(done)) as (L1 & L2 & L3).
  rewrite N5. cbn [mpi_p]. set (x := lset_limbs _ 0) in *.
  pose proof (val_used a HlA) as Ua. pose proof (val_used b HlB) as Ub. fold i in Ua. fold j in Ub.
  assert (Hvab : val a * val b < pow (i + j)).
  { rewrite pow_add. pose proof (val_lt_used a HlA). pose proof (val_lt_used b HlB).
    fold i in H0. fold j in H1. pose proof (val_nonneg a HlA). pose proof (val_nonneg b HlB).
    apply Z.mul_lt_mono_nonneg; done. }
  destruct (mul_rows_spec i a b j x HlA HlB L1) as (x' & -> & Hx' & Hlx' & Ev'); [apply used_le|apply used_le|lia| |].
  { rewrite L3, Ua, Ub. pose proof (pow_mono (i + j) (length x) ltac:(lia)). lia. }
  rewrite L3, Ua, Ub in Ev'. eapply wp_valid; [done|].
  destruct (G5 X) as [_ Hn5]; [lia|]. rewrite N5 in Hn5. unfold mpi_n at 1 in Hn5. cbn [mpi_p] in Hn5.
  eapply wp_chk; [apply (set_p_spec X x' h5); [done|lia|done|lia]|]. intros _ h6 [T6 G6 N6 F6]. cbn beta in N6.
  eapply wp_mono; [apply (set_s_spec X (mpi_s (mem h3 A') * mpi_s (mem h3 B')) h6); [done|lia|]|].
  { destruct HsA as [-> | ->], HsB as [-> | ->]; auto. }
  intros _ h7 [T7 G7 N7 F7]. cbn beta in N7. rewrite N6 in N7.
  split; [done|]. split; [apply good_leave; [done|cbn; fold T; lia]|]. split.
  - cbn [leave mem]. rewrite N7. unfold mpi_n at 1. cbn [mpi_p]. split.
    + unfold value at 1, mag. cbn [mpi_s mpi_p]. rewrite Ev', <- EvA, <- EvB. unfold value, mag. fold a b. lia.
    + rewrite Hlx', L2, Ei, Ej. rewrite F3, F2, F1 by lia. split; [lia|]. cbn [mpi_s]. unfold A', B'. intros NA NB.
      rewrite (proj2 (Nat.eqb_neq X A)), (proj2 (Nat.eqb_neq X B)) by done. by rewrite !F3, !F2, !F1 by lia.
  - intros c Hc Hne. fold T in Hc. cbn [leave mem]. rewrite F7, F6, F5, F4, F3, F2, F1 by lia. done.
Qed.

Lemma used_small b : Z.abs b < base -> (used (mpi_p (of_int b)) <= 1)%nat.
Proof. intros Hb. pose proof (used_le (mpi_p (of_int b))). cbn [length mpi_p of_int] in *. lia. Qed.

Lemma mul_int_sign X A b h : good h -> (X < top h)%nat -> (A < top h)%nat -> fits 64 b ->
  (used (mpi_p (mem h A)) + 1 <= MBEDTLS_MPI_MAX_LIMBS)%nat ->
  writes (mbedtls_mpi_mul_int X A b) X h (fun x =>
    (value x = value (mem h A) * b /\
    (mpi_n x <= Nat.max (mpi_n (mem h X)) (used (mpi_p (mem h A)) + 1))%nat /\ (mpi_n (mem h X) <= mpi_n x)%nat) /\
    (X <> A -> mpi_s x = mpi_s (mem h A))).
Proof.
  intros Hg HX HA Hb Hsize.
  assert (Hl : limbs [b]) by (apply limbs_cons; split; [done|apply limbs_nil]).
  apply with_constant_spec; [done|by split; [|left]|unfold MBEDTLS_MPI_MAX_LIMBS; cbn; lia|done|].
  intros h1 G1 T1 N1 F1. pose proof (used_le [b]) as Hu. cbn [length] in Hu.
  eapply writes_mono; [apply mul_mpi_spec; try done; try lia|].
  - rewrite N1, F1 by done. cbn [mpi_p]. lia.
  - intros x. rewrite N1, !F1 by done. unfold value at 3, mag. cbn [mpi_s mpi_p val]. intros (E1 & E2 & E3).
    split; [lia|]. intros Hne. rewrite E3 by lia. lia.
Qed.

Lemma mul_int_spec X A b h : good h -> (X < top h)%nat -> (A < top h)%nat -> fits 64 b ->
  (used (mpi_p (mem h A)) + 1 <= MBEDTLS_MPI_MAX_LIMBS)%nat ->
  writes (mbedtls_mpi_mul_int X A b) X h (fun x =>
    value x = value (mem h A) * b /\
    (mpi_n x <= Nat.max (mpi_n (mem h X)) (used (mpi_p (mem h A)) + 1))%nat /\ (mpi_n (mem h X) <= mpi_n x)%nat).
Proof. intros. eapply writes_mono; [by apply mul_int_sign|]. by intros x [E _]. Qed.

End Memory.
