(* ===== verification/MpiDiv.v ===== *)
(** * MpiDiv: division of multiprecision integers

    [mbedtls_mpi_div_mpi] is Knuth's algorithm D with divisors normalised to a
    leading bit at position 62. The results go to [Q] and [R], each of which may
    be NULL. *)
From S2P Require Import Prelude.
From S2P Require Import Limbs.
From S2P Require Import Mpi.
From S2P Require Import MpiBits.
From S2P Require Import MpiFacts.
From S2P Require Import MpiBitsFacts.
From S2P Require Import MpiArith.

Open Scope C.

(** Quotient and [*r]; [dividend] and [quotient] have 128 bits. *)
Definition mbedtls_int_div_int (u1 u0 d : Z) : Z * Z :=
  if (d =? 0) || (d <=? u1) then (base - 1, base - 1)
  else
    let dividend := Z.lor (Z.shiftl u1 biL) u0 in
    let quotient := dividend / d in
    let quotient := if base - 1 <? quotient then base - 1 else quotient in
    (quotient, u64 (dividend - quotient * d)).

(** Iterations of the loops: they end before. *)
Definition subtractions : nat := 5.
Definition corrections : nat := 5.
Definition adjustments : nat := 2.

Section Memory.
Context `{Callocs}.

(** [while( mbedtls_mpi_cmp_mpi( &X, &Y ) >= 0 )] *)
Fixpoint subtract_top (fuel : nat) (X Y Z : addr) (k : nat) : mpi unit :=
  match fuel with
  | O => bad
  | S fuel =>
      let* x := load X in
      let* y := load Y in
      if 0 <=? mbedtls_mpi_cmp_mpi x y then
        let* z := get_limb Z k in
        set_limb Z k (u64 (z + 1)) ;*
        mbedtls_mpi_sub_mpi X X Y ;*
        subtract_top fuel X Y Z k
      else ret tt
  end.

(** One turn of [do { ... } while]: whether the digit is too large *)
Definition digit_too_large (X Y Z T1 T2 : addr) (i t : nat) : mpi bool :=
  let k := (i - t - 1)%nat in
  let* z := get_limb Z k in
  set_limb Z k (u64 (z - 1)) ;*
  mbedtls_mpi_lset T1 0 ;*
  let* y0 := if (t <? 1)%nat then ret 0 else get_limb Y (t - 1) in
  set_limb T1 0 y0 ;*
  let* y1 := get_limb Y t in
  set_limb T1 1 y1 ;*
  let* z := get_limb Z k in
  mbedtls_mpi_mul_int T1 T1 z ;*
  mbedtls_mpi_lset T2 0 ;*
  let* x0 := if (i <? 2)%nat then ret 0 else get_limb X (i - 2) in
  set_limb T2 0 x0 ;*
  let* x1 := if (i <? 1)%nat then ret 0 else get_limb X (i - 1) in
  set_limb T2 1 x1 ;*
  let* x2 := get_limb X i in
  set_limb T2 2 x2 ;*
  let* t1 := load T1 in
  let* t2 := load T2 in
  ret (0 <? mbedtls_mpi_cmp_mpi t1 t2).

Fixpoint correct_digit (fuel : nat) (X Y Z T1 T2 : addr) (i t : nat) : mpi unit :=
  match fuel with
  | O => bad
  | S fuel =>
      let* large := digit_too_large X Y Z T1 T2 i t in
      if large : bool then correct_digit fuel X Y Z T1 T2 i t else ret tt
  end.

(** The estimate of the digit; it is one too large when the correction begins. *)
Definition estimate_digit (X Y Z : addr) (i t : nat) : mpi unit :=
  let k := (i - t - 1)%nat in
  let* xi := get_limb X i in
  let* yt := get_limb Y t in
  (if yt <=? xi then set_limb Z k (base - 1)
   else let* x1 := get_limb X (i - 1) in set_limb Z k (fst (mbedtls_int_div_int xi x1 yt))) ;*
  let* z := get_limb Z k in
  set_limb Z k (u64 (z + 1)).

(** The body of [for( i = n; i > t ; i-- )]. *)
Definition divide_digit (X Y Z T1 T2 : addr) (i t : nat) : mpi unit :=
  let k := (i - t - 1)%nat in
  estimate_digit X Y Z i t ;*
  correct_digit corrections X Y Z T1 T2 i t ;*
  let* z := get_limb Z k in
  mbedtls_mpi_mul_int T1 Y z ;*
  mbedtls_mpi_shift_l T1 (64 * k) ;*
  mbedtls_mpi_sub_mpi X X T1 ;*
  let* x := load X in
  if mbedtls_mpi_cmp_int x 0 <? 0 then
    mbedtls_mpi_copy T1 Y ;*
    mbedtls_mpi_shift_l T1 (64 * k) ;*
    mbedtls_mpi_add_mpi X X T1 ;*
    let* z := get_limb Z k in
    set_limb Z k (u64 (z - 1))
  else ret tt.

(** [j] turns of the loop, from [i = t + j] on *)
Fixpoint divide_digits (j : nat) (X Y Z T1 T2 : addr) (t : nat) : mpi unit :=
  match j with
  | O => ret tt
  | S j' => divide_digit X Y Z T1 T2 (t + j) t ;* divide_digits j' X Y Z T1 T2 t
  end.

(** From the first copies to the end of the loop; [k] is the shift. *)
Definition divide (X Y Z T1 T2 A B : addr) : mpi nat :=
  mbedtls_mpi_copy X A ;*
  mbedtls_mpi_copy Y B ;*
  set_s Y 1 ;*
  set_s X 1 ;*
  let* a := load A in
  mbedtls_mpi_grow Z (mpi_n a + 2) ;*
  mbedtls_mpi_lset Z 0 ;*
  mbedtls_mpi_grow T1 2 ;*
  mbedtls_mpi_grow T2 3 ;*
  let* y := load Y in
  let k := (mbedtls_mpi_bitlen y mod 64)%nat in
  let k' := if (k <? 64 - 1)%nat then (64 - 1 - k)%nat else 0%nat in
  (if (k <? 64 - 1)%nat then mbedtls_mpi_shift_l X k' ;* mbedtls_mpi_shift_l Y k' else ret tt) ;*
  let* x := load X in
  let* y := load Y in
  let n := (mpi_n x - 1)%nat in
  let t := (mpi_n y - 1)%nat in
  mbedtls_mpi_shift_l Y (64 * (n - t)) ;*
  subtract_top subtractions X Y Z (n - t) ;*
  mbedtls_mpi_shift_r Y (64 * (n - t)) ;*
  divide_digits (n - t) X Y Z T1 T2 t ;*
  ret k'.

Definition mbedtls_mpi_div_mpi (Q R : option addr) (A B : addr) : mpi unit :=
  let* b := load B in
  if mbedtls_mpi_cmp_int b 0 =? 0 then fail MBEDTLS_ERR_MPI_DIVISION_BY_ZERO
  else
    let* a := load A in
    local (fun X => local (fun Y => local (fun Z => local (fun T1 => local (fun T2 =>
      if mbedtls_mpi_cmp_abs a b <? 0 then
        (match Q with Some Q => mbedtls_mpi_lset Q 0 | None => ret tt end) ;*
        (match R with Some R => mbedtls_mpi_copy R A | None => ret tt end)
      else
        let* k := divide X Y Z T1 T2 A B in
        (match Q with
         | Some Q =>
             mbedtls_mpi_copy Q Z ;*
             let* a := load A in
             let* b := load B in
             set_s Q (mpi_s a * mpi_s b)
         | None => ret tt
         end) ;*
        (match R with
         | Some R =>
             mbedtls_mpi_shift_r X k ;*
             let* a := load A in
             set_s X (mpi_s a) ;*
             mbedtls_mpi_copy R X ;*
             let* r := load R in
             if mbedtls_mpi_cmp_int r 0 =? 0 then set_s R 1 else ret tt
         | None => ret tt
         end)))))).

Definition mbedtls_mpi_div_int (Q R : option addr) (A : addr) (b : Z) : mpi unit :=
  with_constant b (mbedtls_mpi_div_mpi Q R A).

Fixpoint add_until_positive (fuel : nat) (R B : addr) : mpi unit :=
  match fuel with
  | O => bad
  | S fuel =>
      let* r := load R in
      if mbedtls_mpi_cmp_int r 0 <? 0 then mbedtls_mpi_add_mpi R R B ;* add_until_positive fuel R B
      else ret tt
  end.

Fixpoint sub_until_below (fuel : nat) (R B : addr) : mpi unit :=
  match fuel with
  | O => bad
  | S fuel =>
      let* r := load R in
      let* b := load B in
      if 0 <=? mbedtls_mpi_cmp_mpi r b then mbedtls_mpi_sub_mpi R R B ;* sub_until_below fuel R B
      else ret tt
  end.

Definition mbedtls_mpi_mod_mpi (R A B : addr) : mpi unit :=
  let* b := load B in
  if mbedtls_mpi_cmp_int b 0 <? 0 then fail MBEDTLS_ERR_MPI_NEGATIVE_VALUE
  else
    mbedtls_mpi_div_mpi None (Some R) A B ;*
    add_until_positive adjustments R B ;*
    sub_until_below adjustments R B.

End Memory.

(** One limb of [mbedtls_mpi_mod_int], in two halves *)
Definition mod_limb (b x y : Z) : Z :=
  let y := Z.lor (u64 (Z.shiftl y 32)) (Z.shiftr x 32) in
  let z := y / b in
  let y := u64 (y - u64 (z * b)) in
  let x := u64 (Z.shiftl x 32) in
  let y := Z.lor (u64 (Z.shiftl y 32)) (Z.shiftr x 32) in
  let z := y / b in
  u64 (y - u64 (z * b)).

(** [for( i = A->n, y = 0; i > 0; i-- )] *)
Fixpoint mod_limbs (b : Z) (p : list Z) : Z :=
  match p with
  | [] => 0
  | x :: p => mod_limb b x (mod_limbs b p)
  end.

(** [None]: [A->p[0]] of an object without limbs. *)
Definition mbedtls_mpi_mod_int (A : mbedtls_mpi) (b : Z) : option (Z + Z) :=
  if b =? 0 then Some (inr MBEDTLS_ERR_MPI_DIVISION_BY_ZERO)
  else if b <? 0 then Some (inr MBEDTLS_ERR_MPI_NEGATIVE_VALUE)
  else if b =? 1 then Some (inl 0)
  else if b =? 2 then (fun x => inl (Z.land x 1)) <$> head (mpi_p A)
  else
    let y := mod_limbs b (mpi_p A) in
    Some (inl (if (mpi_s A <? 0) && negb (y =? 0) then u64 (b - y) else y)).
