(* ===== verification/MpiDivFacts.v ===== *)
(** * MpiDivFacts: the division divides *)
From S2P Require Import Prelude.
From S2P Require Import Limbs.
From S2P Require Import Mpi.
From S2P Require Import MpiBits.
From S2P Require Import MpiFacts.
From S2P Require Import MpiBitsFacts.
From S2P Require Import MpiArith.
From S2P Require Import MpiDiv.

Open Scope C.

Lemma int_div_int_spec u1 u0 d : fits 64 u1 -> fits 64 u0 -> 0 <= u1 < d -> fits 64 d ->
  mbedtls_int_div_int u1 u0 d = ((u1 * base + u0) / d, (u1 * base + u0) mod d).
Proof.
  intros H1 H0 Hd Hf. unfold mbedtls_int_div_int.
  destruct (Z.eqb_spec d 0); [lia|]. destruct (Z.leb_spec d u1); [lia|]. cbn [orb].
  unfold biL. rewrite lor_shift by (done || lia). change (2 ^ 64) with base. set (dd := u1 * base + u0).
  assert (Hq : 0 <= dd / d <= base - 1).
  { unfold fits in *. fold base in *. split; [apply Z.div_pos; unfold dd; nia|].
    apply Z.lt_succ_r, Z.div_lt_upper_bound; unfold dd, base in *; nia. }
  destruct (Z.ltb_spec (base - 1) (dd / d)); [lia|]. f_equal.
  replace (dd - dd / d * d) with (dd mod d) by (pose proof (Z.div_mod dd d ltac:(lia)); lia).
  apply wrap_id. pose proof (Z.mod_pos_bound dd d ltac:(lia)). unfold fits in *. lia.
Qed.

(** ** The digit estimate, in numbers

    [v] is divided by [d = y * S] to one digit; [y2] and [x3] are the leading
    two limbs of [y * base] and three of [v * base]. *)

Section Estimate.
Context (v y P S x3 y2 : Z).
Hypotheses (Hv : 0 <= v) (HP : 0 < P) (HS : 0 < S) (Hy : P <= y).
Hypothesis Hy2 : y2 * P <= y * base < (y2 + 1) * P.
Hypothesis Hx3 : x3 * (P * S) <= v * base < (x3 + 1) * (P * S).

Lemma estimate_above q : 0 <= q -> q * (y * S) <= v -> q * y2 <= x3.
Proof.
  intros Hq Hle. apply Z.lt_succ_r. unfold Z.succ. apply (Z.mul_lt_mono_pos_r (P * S)); [nia|].
  apply Z.le_lt_trans with (v * base); [|lia].
  apply Z.le_trans with (q * (y * S) * base); [|unfold base in *; nia].
  replace (q * y2 * (P * S)) with (q * S * (y2 * P)) by lia.
  replace (q * (y * S) * base) with (q * S * (y * base)) by lia.
  apply Z.mul_le_mono_nonneg_l; [nia|lia].
Qed.

Lemma estimate_below z : 0 <= z < base -> z * y2 <= x3 -> z * (y * S) <= v + y * S.
Proof.
  intros Hz Hle. apply (Z.mul_le_mono_pos_r _ _ base); [done|].
  apply Z.le_trans with (z * ((y2 + 1) * P) * S).
  { replace (z * (y * S) * base) with (z * S * (y * base)) by lia.
    replace (z * ((y2 + 1) * P) * S) with (z * S * ((y2 + 1) * P)) by lia.
    apply Z.mul_le_mono_nonneg_l; [nia|lia]. }
  replace (z * ((y2 + 1) * P) * S) with ((z * y2) * (P * S) + z * (P * S)) by lia.
  assert (z * y2 * (P * S) <= v * base) by (apply Z.le_trans with (x3 * (P * S)); [apply Z.mul_le_mono_nonneg_r; nia|lia]).
  assert (z * (P * S) <= base * (y * S)) by (apply Z.mul_le_mono_nonneg; nia).
  lia.
Qed.

End Estimate.

(** The first estimate, from two limbs of [v] and one of [y]. *)
Definition first_digit (xi x1 yt : Z) : Z := if yt <=? xi then base - 1 else (xi * base + x1) / yt.

Lemma first_digit_spec xi x1 x0 yt y0 : fits 64 xi -> fits 64 x1 -> fits 64 x0 -> fits 64 y0 ->
  2 ^ 62 <= yt < base ->
  let x3 := x0 + base * x1 + base * base * xi in
  let y2 := y0 + base * yt in
  let z0 := first_digit xi x1 yt in
  fits 64 z0 /\ (z0 - 4) * y2 <= x3 /\ forall q, 0 <= q < base -> q * y2 <= x3 -> q <= z0.
Proof.
  intros Hxi Hx1 Hx0 Hy0 Hyt x3 y2 z0. unfold fits in *. fold base in *.
  assert (Hy4 : base * base <= 4 * y2) by (unfold y2, base in *; nia).
  unfold z0, first_digit. destruct (Z.leb_spec yt xi) as [Hle|Hgt].
  - split; [lia|]. split; [|intros; lia].
    assert ((base - 1) * y2 <= base * base * yt + base * base).
    { unfold y2. replace ((base - 1) * (y0 + base * yt)) with (base * base * yt - base * yt + (base - 1) * y0) by ring.
      unfold base in *. nia. }
    assert (base * base * yt <= x3) by (unfold x3, base in *; nia). lia.
  - set (w := xi * base + x1). pose proof (Z.div_mod w yt ltac:(lia)) as Hd. pose proof (Z.mod_pos_bound w yt ltac:(lia)).
    assert (Hz : 0 <= w / yt < base).
    { split; [apply Z.div_pos; unfold w, base in *; nia|apply Z.div_lt_upper_bound; unfold w, base in *; nia]. }
    split; [done|]. split.
    + assert (w / yt * y2 <= w * base + base * base).
      { unfold y2. replace (w / yt * (y0 + base * yt)) with (base * (yt * (w / yt)) + (w / yt) * y0) by ring.
        assert ((w / yt) * y0 <= base * base) by (apply Z.mul_le_mono_nonneg; lia). unfold base in *. lia. }
      assert (x3 = w * base + x0) by (unfold x3, w; ring). lia.
    + intros q Hq Hle. apply Z.div_le_lower_bound; [lia|].
      assert (q * yt * base <= x3) by (unfold y2 in Hle; unfold base in *; nia).
      assert (x3 = w * base + x0) by (unfold x3, w; ring). unfold base in *. nia.
Qed.

(** [z] is the largest digit up to [z0] that passes the test. *)
Definition best (x3 y2 z0 z : Z) : Prop := 0 <= z <= z0 /\ z * y2 <= x3 /\ (z = z0 \/ x3 < (z + 1) * y2).

Lemma best_max x3 y2 z0 z q : 0 <= y2 -> best x3 y2 z0 z -> q <= z0 -> q * y2 <= x3 -> q <= z.
Proof. intros Hy (Hz & Hle & [->|Hlt]) Hq Hqle; [done|]. nia. Qed.

Section Memory.
Context `{Callocs}.

(** The five locals of the division, above everything else. *)
Section Locals.
Context (X : addr).
Abbreviation Y := (S X).
Abbreviation Z1 := (S (S X)).
Abbreviation T1 := (S (S (S X))).
Abbreviation T2 := (S (S (S (S X)))).

Record locals (h0 h : heap) : Prop := Locals {
  l_top : top h = S T2;
  l_top0 : top h0 = S T2;
  l_good : good h;
  l_T1 : (2 <= mpi_n (mem h T1))%nat;
  l_T2 : (3 <= mpi_n (mem h T2))%nat;
  l_rest : forall a, (a < X)%nat -> mem h a = mem h0 a
}.

Definition limb (h : heap) (a : addr) (i : nat) : Z := mpi_p (mem h a) !!! i.

(** The leading limbs the code takes. *)
Definition y2_of (h : heap) (t : nat) : Z := (if (t <? 1)%nat then 0 else limb h Y (t - 1)) + base * limb h Y t.
Definition x3_of (h : heap) (i : nat) : Z :=
  (if (i <? 2)%nat then 0 else limb h X (i - 2)) + base * (if (i <? 1)%nat then 0 else limb h X (i - 1)) +
  base * base * limb h X i.

(** Filling a local with some limbs. *)
Lemma set_digit_spec a i v h m : good h -> (a < top h)%nat -> (i < mpi_n (mem h a))%nat -> fits 64 v ->
  mag (mem h a) = m -> 0 <= m < pow i -> mpi_s (mem h a) = 1 ->
  writes (set_limb a i v) a h (fun x => mpi_s x = 1 /\ mpi_n x = mpi_n (mem h a) /\ mag x = m + pow i * v).
Proof.
  intros Hg Ha Hi Hv Hm Hlt Hs. eapply writes_mono; [by apply set_limb_spec|]. intros x ->.
  unfold mag, mpi_n. cbn [mpi_s mpi_p]. rewrite length_insert. split; [done|]. split; [done|].
  destruct (Hg a Ha) as [[Hl _] _]. rewrite val_insert by done. rewrite val_digit by done.
  unfold mag in Hm. rewrite Hm, Z.div_small by done. rewrite Zmod_0_l. lia.
Qed.

Lemma if_limb_spec {B} (c : bool) a i (k : Z -> mpi B) h Q : (c = false -> (i < mpi_n (mem h a))%nat) ->
  wp (k (if c then 0 else limb h a i)) h Q ->
  wp (chk (if c then ret 0 else get_limb a i) k) h Q.
Proof.
  intros Hi Hk. destruct c; [exact Hk|]. unfold wp, get_limb, chk, load, valid in *. specialize (Hi eq_refl).
  destruct (lookup_lt_is_Some_2 (mpi_p (mem h a)) i Hi) as [x Hx]. unfold limb in Hk.
  rewrite (list_lookup_total_correct _ _ _ Hx) in Hk. rewrite Hx. done.
Qed.

Lemma limb_range h a i : good h -> (a < top h)%nat -> fits 64 (limb h a i).
Proof. intros Hg Ha. apply limb_fits. apply (Hg a Ha). Qed.

Lemma if_range (c : bool) z : fits 64 z -> fits 64 (if c then 0 else z).
Proof. by destruct c. Qed.

Lemma used_mag x k : wf x -> mag x < pow k -> (used (mpi_p x) <= k)%nat.
Proof. intros [Hl _] Hm. by apply used_lt. Qed.

Lemma value_pos x : mpi_s x = 1 -> value x = mag x.
Proof. intros E. unfold value. rewrite E. lia. Qed.

Lemma digit_too_large_spec h0 h i t zk : locals h0 h -> (t < i)%nat ->
  (t < mpi_n (mem h Y))%nat -> (i < mpi_n (mem h X))%nat -> (i - t - 1 < mpi_n (mem h Z1))%nat ->
  limb h Z1 (i - t - 1) = zk -> let z := u64 (zk - 1) in
  wp (digit_too_large X Y Z1 T1 T2 i t) h (fun v h' =>
    locals h0 h' /\ mem h' X = mem h X /\ mem h' Y = mem h Y /\
    mem h' Z1 = Mpi (mpi_s (mem h Z1)) (<[(i - t - 1)%nat := z]> (mpi_p (mem h Z1))) /\
    v = (x3_of h i <? z * y2_of h t)).
Proof.
  intros [T T0 G HT1 HT2 HF] Hit Ht Hi Hk Hz z. unfold digit_too_large. set (k := (i - t - 1)%nat) in *.
  apply wp_get_limb; [done|]. fold (limb h Z1 k). rewrite Hz. fold z.
  assert (Fz : fits 64 z) by apply fits_u64.
  eapply wp_chk; [apply (set_limb_spec Z1 k z h); [done|lia|done|done]|]. intros _ h1 [T1' G1 N1 F1]. cbn beta in N1.
  eapply wp_chk; [apply (lset_int_spec T1 0 h1); [done|lia|done]|]. intros _ h2 [T2' G2 (_ & Em2 & Es2 & En2) F2].
  assert (ET1 : mem h1 T1 = mem h T1) by by frames. rewrite ET1 in En2.
  assert (EY2 : mem h2 Y = mem h Y) by by frames. assert (EX2 : mem h2 X = mem h X) by by frames.
  apply if_limb_spec. { intros Hc%Nat.ltb_ge. rewrite EY2. lia. }
  set (y0 := if (t <? 1)%nat then 0 else _). assert (Fy0 : fits 64 y0) by (apply if_range, limb_range; [done|lia]).
  eapply wp_chk; [apply (set_digit_spec T1 0 y0 h2 0); try done; try lia; rewrite ?pow_0; lia|].
  intros _ h3 [T3' G3 (Es3 & En3 & Em3) F3]. rewrite pow_0 in Em3.
  assert (EY3 : mem h3 Y = mem h Y) by by frames.
  apply wp_get_limb; [by rewrite EY3|]. set (y1 := mpi_p (mem h3 Y) !!! t).
  assert (Fy1 : fits 64 y1) by (apply (limb_range h3 Y t); [done|lia]).
  eapply wp_chk; [apply (set_digit_spec T1 1 y1 h3 y0); try done; try lia; rewrite pow_S, pow_0; unfold fits, base in *; lia|].
  intros _ h4 [T4' G4 (Es4 & En4 & Em4) F4]. rewrite pow_S, pow_0, Z.mul_1_r in Em4.
  assert (EZ4 : mem h4 Z1 = mem h1 Z1) by by frames.
  assert (HZ1 : limb h4 Z1 k = z /\ mpi_n (mem h4 Z1) = mpi_n (mem h Z1)).
  { unfold limb. rewrite EZ4, N1. unfold mpi_n. cbn [mpi_p]. rewrite length_insert. split; [|done].
    by rewrite list_lookup_total_insert_eq. }
  destruct HZ1 as [HZ4 HnZ4]. apply wp_get_limb; [lia|]. fold (limb h4 Z1 k). rewrite HZ4.
  assert (Hm4 : mag (mem h4 T1) < pow 2).
  { rewrite Em4. rewrite !pow_S, pow_0. unfold fits in *. fold base in *. unfold base in *. nia. }
  eapply wp_chk; [apply (mul_int_spec T1 T1 z h4); [done|lia|lia|done|]|].
  { pose proof (used_mag (mem h4 T1) 2 (proj1 (G4 T1 ltac:(lia))) Hm4). unfold MBEDTLS_MPI_MAX_LIMBS. lia. }
  intros _ h5 [T5' G5 (Ev5 & _ & En5) F5]. rewrite (value_pos (mem h4 T1)), Em4 in Ev5 by done.
  eapply wp_chk; [apply (lset_int_spec T2 0 h5); [done|lia|done]|]. intros _ h6 [T6' G6 (_ & Em6 & Es6 & En6) F6].
  assert (ET2 : mem h5 T2 = mem h T2) by by frames. rewrite ET2 in En6. assert (EX6 : mem h6 X = mem h X) by by frames.
  apply if_limb_spec. { intros _. rewrite EX6. lia. }
  set (x0 := if (i <? 2)%nat then 0 else _). assert (Fx0 : fits 64 x0) by (apply if_range, limb_range; [done|lia]).
  eapply wp_chk; [apply (set_digit_spec T2 0 x0 h6 0); try done; try lia; rewrite ?pow_0; lia|].
  intros _ h7 [T7' G7 (Es7 & En7 & Em7) F7]. rewrite pow_0 in Em7. assert (EX7 : mem h7 X = mem h X) by by frames.
  apply if_limb_spec. { intros _. rewrite EX7. lia. }
  set (x1 := if (i <? 1)%nat then 0 else _). assert (Fx1 : fits 64 x1) by (apply if_range, limb_range; [done|lia]).
  eapply wp_chk; [apply (set_digit_spec T2 1 x1 h7 x0); try done; try lia; rewrite pow_S, pow_0; unfold fits, base in *; lia|].
  intros _ h8 [T8' G8 (Es8 & En8 & Em8) F8]. rewrite pow_S, pow_0 in Em8. assert (EX8 : mem h8 X = mem h X) by by frames.
  apply wp_get_limb; [by rewrite EX8|]. set (x2 := mpi_p (mem h8 X) !!! i).
  assert (Fx2 : fits 64 x2) by (apply (limb_range h8 X i); [done|lia]).
  eapply wp_chk; [apply (set_digit_spec T2 2 x2 h8 (x0 + base * x1)); try done; try lia|].
  { rewrite !pow_S, pow_0. unfold fits in *. fold base in *. unfold base in *. nia. }
  intros _ h9 [T9' G9 (Es9 & En9 & Em9) F9]. rewrite !pow_S, pow_0 in Em9.
  apply wp_load, wp_load, wp_ret. split; [|split; [by frames|split; [by frames|split; [by frames|]]]].
  - constructor; [congruence|congruence|done|frames; lia|lia|]. intros a Ha. frames. by apply HF.
  - rewrite cmp_mpi_spec by (apply G9; lia). rewrite ord_gtb. rewrite (value_pos (mem h9 T2)) by done.
    assert (E9 : value (mem h9 T1) = value (mem h5 T1)) by by frames. rewrite E9, Ev5, Em9.
    unfold x3_of, y2_of, x0, x1, x2, y0, y1, limb. rewrite EX8, EX7, EX6, EY3, EY2. f_equal; lia.
Qed.

Lemma x3_same h h' i : mem h' X = mem h X -> x3_of h' i = x3_of h i.
Proof. intros E. unfold x3_of, limb. by rewrite E. Qed.
Lemma y2_same h h' t : mem h' Y = mem h Y -> y2_of h' t = y2_of h t.
Proof. intros E. unfold y2_of, limb. by rewrite E. Qed.

Lemma correct_digit_spec h0 i t fuel : forall h zk, locals h0 h -> (t < i)%nat ->
  (t < mpi_n (mem h Y))%nat -> (i < mpi_n (mem h X))%nat -> (i - t - 1 < mpi_n (mem h Z1))%nat ->
  limb h Z1 (i - t - 1) = zk -> let z := u64 (zk - 1) in
  0 <= x3_of h i -> 0 <= y2_of h t -> (0 < fuel)%nat ->
  ((z - (Z.of_nat fuel - 1)) * y2_of h t <= x3_of h i \/ z <= Z.of_nat fuel - 1) ->
  wp (correct_digit fuel X Y Z1 T1 T2 i t) h (fun _ h' =>
    locals h0 h' /\ mem h' X = mem h X /\ mem h' Y = mem h Y /\
    exists z', best (x3_of h i) (y2_of h t) z z' /\
      mem h' Z1 = Mpi (mpi_s (mem h Z1)) (<[(i - t - 1)%nat := z']> (mpi_p (mem h Z1)))).
Proof.
  induction fuel as [|fuel IH]; intros h zk HL Hit Ht Hi Hk Hz z Hx3 Hy2 Hf Hen; [lia|]. cbn [correct_digit].
  pose proof (wrap_fits 64 (zk - 1) ltac:(lia)) as Fz. fold z in Fz.
  eapply wp_chk; [by apply (digit_too_large_spec h0 h i t zk)|]. fold z.
  intros v h1 (HL1 & EX & EY & EZ & ->). destruct (Z.ltb_spec (x3_of h i) (z * y2_of h t)) as [Hlt|Hge].
  - assert (Hz0 : 0 < z) by (unfold fits in Fz; nia).
    assert (Hz1 : limb h1 Z1 (i - t - 1) = z).
    { unfold limb. rewrite EZ. cbn [mpi_p]. by rewrite list_lookup_total_insert_eq. }
    assert (Ez : u64 (z - 1) = z - 1) by (apply wrap_id; unfold fits in *; lia).
    eapply wp_mono; [apply (IH h1 z); try done|].
    + by rewrite EY.
    + by rewrite EX.
    + rewrite EZ. unfold mpi_n. cbn [mpi_p]. by rewrite length_insert.
    + by rewrite (x3_same h).
    + by rewrite (y2_same h).
    + destruct fuel; [|lia]. exfalso. destruct Hen as [Hen|Hen]; [|lia].
      replace (z - (Z.of_nat 1 - 1)) with z in Hen by lia. lia.
    + rewrite Ez, (x3_same h), (y2_same h) by done. destruct Hen as [Hen|Hen]; [left|right; lia].
      by replace (z - 1 - (Z.of_nat fuel - 1)) with (z - (Z.of_nat (S fuel) - 1)) by lia.
    + intros _ h2 (HL2 & EX2 & EY2 & z' & Hbest & EZ2). rewrite Ez, (x3_same h), (y2_same h) in Hbest by done.
      split; [done|]. split; [congruence|]. split; [congruence|]. exists z'. split.
      * destruct Hbest as (Hb1 & Hb2 & [->|Hb3]); (split; [lia|split; [done|]]); [right|by right].
        by replace (z - 1 + 1) with z by lia.
      * rewrite EZ2, EZ. cbn [mpi_s mpi_p]. by rewrite list_insert_insert_eq.
  - apply wp_ret. split; [done|]. split; [done|]. split; [done|]. exists z.
    split; [|done]. split; [unfold fits in Fz; lia|]. split; [lia|by left].
Qed.

Lemma scaled_div v i : v * base / pow (S i) = v / pow i.
Proof. rewrite pow_S, (Z.mul_comm base). apply Z.div_mul_cancel_r; [pose proof (pow_pos i); lia|done]. Qed.

Lemma x3_spec h i : good h -> (X < top h)%nat -> (0 < i)%nat -> (i < mpi_n (mem h X))%nat -> mag (mem h X) < pow (S i) ->
  x3_of h i = mag (mem h X) * base / pow (i - 1).
Proof.
  intros Hg HX Hi Hn Hm. destruct (Hg X HX) as [[Hl _] _]. unfold x3_of, limb, mag in *. set (p := mpi_p (mem h X)) in *.
  destruct i as [|i]; [lia|]. replace (S i - 1)%nat with i by lia.
  pose proof (top_limb (S i) p Hl Hn Hm) as E0. pose proof (next_limb i p Hl ltac:(unfold mpi_n in Hn; fold p in Hn; lia)) as E1.
  rewrite <- E0 in E1. destruct i as [|i].
  - change (1 <? 2)%nat with true. change (1 <? 1)%nat with false. cbn iota. rewrite pow_0 in *. rewrite Z.div_1_r in *. lia.
  - replace (S (S i) <? 2)%nat with false by (symmetry; apply Nat.ltb_ge; lia).
    replace (S (S i) <? 1)%nat with false by (symmetry; apply Nat.ltb_ge; lia). replace (S (S i) - 2)%nat with i by lia.
    pose proof (next_limb i p Hl ltac:(unfold mpi_n in Hn; fold p in Hn; lia)) as E2. rewrite <- E1 in E2.
    rewrite scaled_div. lia.
Qed.

Lemma y2_spec h t : good h -> (Y < top h)%nat -> (t < mpi_n (mem h Y))%nat -> mag (mem h Y) < pow (S t) ->
  y2_of h t = mag (mem h Y) * base / pow t.
Proof.
  intros Hg HY Hn Hm. destruct (Hg Y HY) as [[Hl _] _]. unfold y2_of, limb, mag in *. set (p := mpi_p (mem h Y)) in *.
  pose proof (top_limb t p Hl Hn Hm) as E0. destruct t as [|t].
  - change (0 <? 1)%nat with true. cbn iota. rewrite E0, pow_0, !Z.div_1_r. lia.
  - replace (S t <? 1)%nat with false by (symmetry; apply Nat.ltb_ge; lia). replace (S t - 1)%nat with t by lia.
    pose proof (next_limb t p Hl ltac:(unfold mpi_n in Hn; fold p in Hn; lia)) as E1. rewrite <- E0 in E1.
    rewrite scaled_div. lia.
Qed.

Lemma shift_l_value_spec a c h : good h -> (a < top h)%nat ->
  mag (mem h a) * 2 ^ Z.of_nat c < pow MBEDTLS_MPI_MAX_LIMBS -> (c <= 64 * MBEDTLS_MPI_MAX_LIMBS)%nat ->
  writes (mbedtls_mpi_shift_l a c) a h (fun x => value x = value (mem h a) * 2 ^ Z.of_nat c /\
    (mpi_n (mem h a) <= mpi_n x)%nat).
Proof.
  intros Hg Ha Hm Hc. eapply writes_mono; [by apply shift_l_spec|]. intros x (Es & Em & En). unfold value.
  rewrite Es, Em. split; [lia|]. rewrite En. destruct (Nat.ltb_spec (mpi_n (mem h a) * 64) (bits (mag (mem h a)) + c)); [|lia].
  pose proof (BITS_TO_LIMBS_ge (bits (mag (mem h a)) + c)). lia.
Qed.
(** The state between the digits: [v] is left of the number, [q] found of the
    quotient, [i] the number of the next digit above [t]. *)
Record dividing (h0 : heap) (n t i : nat) (y v q : Z) (h : heap) : Prop := Dividing {
  d_locals : locals h0 h;
  d_x : value (mem h X) = v /\ mpi_n (mem h X) = S n;
  d_y : mag (mem h Y) = y /\ mpi_s (mem h Y) = 1 /\ (t < mpi_n (mem h Y))%nat;
  d_z : mag (mem h Z1) = q /\ (n - t < mpi_n (mem h Z1))%nat /\ (pow (i - t) | q);
  d_size : (S (S n) <= MBEDTLS_MPI_MAX_LIMBS)%nat /\ (t <= n)%nat;
  d_norm : 2 ^ 62 * pow t <= y < 2 ^ 63 * pow t;
  d_left : 0 <= v < y * pow (i - t);
  d_sign : mpi_s (mem h Z1) = 1
}.

Lemma locals_step h0 h h' a (R : mbedtls_mpi -> Prop) : locals h0 h -> (X <= a)%nat -> (a < top h)%nat ->
  sets a R h h' -> (a = T1 -> R (mem h' T1) -> (2 <= mpi_n (mem h' T1))%nat) ->
  (a = T2 -> R (mem h' T2) -> (3 <= mpi_n (mem h' T2))%nat) -> locals h0 h'.
Proof.
  intros [T T0 G H1 H2 F] Ha Hat [Ts Gs Ns Fs] HT1 HT2. constructor; [congruence|done|done| | |].
  - destruct (decide (a = T1)) as [->|]; [by apply HT1|rewrite Fs by lia; done].
  - destruct (decide (a = T2)) as [->|]; [by apply HT2|rewrite Fs by lia; done].
  - intros b Hb. rewrite Fs by lia. by apply F.
Qed.

Lemma zero_limb h a k j : good h -> (a < top h)%nat -> (k < mpi_n (mem h a))%nat -> (pow j | mag (mem h a)) ->
  (k < j)%nat -> limb h a k = 0.
Proof.
  intros Hg Ha Hk [w Hw] Hj. unfold limb. destruct (Hg a Ha) as [[Hl _] _].
  rewrite val_digit by done. unfold mag in Hw. rewrite Hw.
  replace j with (k + S (j - k - 1))%nat by lia. rewrite pow_add, pow_S.
  replace (w * (pow k * (base * pow (j - k - 1)))) with (w * pow (j - k - 1) * base * pow k) by lia.
  rewrite Z.div_mul by (pose proof (pow_pos k); lia). apply Z.mod_mul. done.
Qed.

(** Setting the digit [k] of the quotient, from any other value of it. *)
Lemma digit_mag h k v : good h -> (Z1 < top h)%nat -> (k < mpi_n (mem h Z1))%nat ->
  mag (Mpi (mpi_s (mem h Z1)) (<[k := v]> (mpi_p (mem h Z1)))) = mag (mem h Z1) + pow k * (v - limb h Z1 k).
Proof. intros Hg HZ Hk. unfold mag. cbn [mpi_p]. by rewrite val_insert. Qed.

(** The estimate of the digit, before it is corrected. *)
Lemma first_estimate_spec h0 n t i y v q h : dividing h0 n t i y v q h -> (t < i <= n)%nat ->
  let k := (i - t - 1)%nat in
  let z0 := first_digit (limb h X i) (limb h X (i - 1)) (limb h Y t) in
  writes (estimate_digit X Y Z1 i t) Z1 h (fun x =>
      x = Mpi (mpi_s (mem h Z1)) (<[k := u64 (z0 + 1)]> (mpi_p (mem h Z1)))).
Proof.
  intros [HL [Ev En] (Ey & Esy & Ent) (Eq & Enz & Hdiv) [Hsz Htn] Hnorm Hleft HsZ] Hi k z0.
  unfold estimate_digit. fold k. destruct HL as [T T0 G HT1 HT2 HF]. apply wp_get_limb; [lia|]. apply wp_get_limb; [lia|].
  fold (limb h X i). fold (limb h Y t).
  assert (Fx : forall j, fits 64 (limb h X j)) by (intros j; apply limb_range; [done|lia]).
  assert (Hyt : 2 ^ 62 <= limb h Y t < base).
  { destruct (limb_range h Y t G ltac:(lia)) as [_ H1]. split; [|done]. unfold limb.
    destruct (G Y ltac:(lia)) as [[Hl _] _]. rewrite (top_limb t _ Hl Ent).
    - unfold mag in Ey. rewrite Ey. apply Z.div_le_lower_bound; [apply pow_pos|lia].
    - unfold mag in Ey. rewrite Ey, pow_S. pose proof (pow_pos t). unfold base. lia. }
  destruct (first_digit_spec (limb h X i) (limb h X (i - 1)) 0 (limb h Y t) 0) as (Fz & _ & _); try done. fold z0 in Fz.
  assert (Hk : (k < mpi_n (mem h Z1))%nat) by (unfold k; lia).
  eapply writes_then with (R := fun x => x = Mpi (mpi_s (mem h Z1)) (<[k := z0]> (mpi_p (mem h Z1)))).
  - unfold z0, first_digit. destruct (Z.leb_spec (limb h Y t) (limb h X i)) as [Hle|Hgt].
    + apply set_limb_spec; try done; lia.
    + apply wp_get_limb; [lia|]. fold (limb h X (i - 1)). rewrite int_div_int_spec.
      * cbn [fst]. apply set_limb_spec; try done; [lia|]. unfold z0, first_digit in Fz.
        by rewrite (proj2 (Z.leb_gt _ _)) in Fz.
      * done.
      * done.
      * destruct (Fx i). lia.
      * unfold fits. fold base. destruct (Fx i). lia.
  - intros _ h1 [T1' G1 N1 F1]. cbn beta in N1. apply wp_get_limb; [rewrite N1; unfold mpi_n; cbn [mpi_p]; by rewrite length_insert|].
    rewrite N1. cbn [mpi_p]. rewrite list_lookup_total_insert_eq by done.
    eapply writes_mono; [apply set_limb_spec; [done|lia| |apply fits_u64]|].
    + rewrite N1. unfold mpi_n. cbn [mpi_p]. by rewrite length_insert.
    + intros x ->. rewrite N1. cbn [mpi_s mpi_p]. by rewrite list_insert_insert_eq.
Qed.
(** The digit, estimated and corrected: at most one too large. *)
Lemma found_digit_spec h0 n t i y v q h (rest : mpi unit) Q : dividing h0 n t i y v q h -> (t < i <= n)%nat ->
  let k := (i - t - 1)%nat in
  (forall h' z, locals h0 h' -> mem h' X = mem h X -> mem h' Y = mem h Y ->
     mem h' Z1 = Mpi (mpi_s (mem h Z1)) (<[k := z]> (mpi_p (mem h Z1))) -> 0 <= z < base ->
     z * (y * pow k) <= v + y * pow k -> v < (z + 1) * (y * pow k) -> wp rest h' Q) ->
  wp (estimate_digit X Y Z1 i t ;* correct_digit corrections X Y Z1 T1 T2 i t ;* rest) h Q.
Proof.
  intros HD Hi k Hrest.
  pose proof (first_estimate_spec h0 n t i y v q h HD Hi) as Hest. cbv zeta in Hest. fold k in Hest.
  set (z0 := first_digit _ _ _) in Hest.
  destruct HD as [HL [Ev En] (Ey & Esy & Ent) (Eq & Enz & Hdiv) [Hsz Htn] Hnorm Hleft HsZ].
  pose proof (l_good _ _ HL) as G. pose proof (l_top _ _ HL) as Top. pose proof (pow_pos k) as Pk. pose proof (pow_pos t) as Pt.
  assert (Eit : pow (i - t) = base * pow k) by (rewrite <- pow_S; f_equal; lia). rewrite Eit in Hleft.
  assert (Hy0 : 0 < y) by lia.
  assert (Hyb : y < pow (S t)) by (rewrite pow_S; unfold base; lia).
  assert (Ei1 : pow (i - 1) = pow t * pow k) by (rewrite <- pow_add; f_equal; lia).
  assert (Ein : pow (S i) = base * (base * (pow t * pow k))) by (rewrite <- Ei1, <- !pow_S; f_equal; lia).
  assert (Emag : mag (mem h X) = v) by (rewrite <- value_abs by (apply G; lia); lia).
  assert (Hvi : v < pow (S i)) by (rewrite Ein; rewrite pow_S in Hyb; nia).
  assert (Fl : forall a j, (a < top h)%nat -> fits 64 (limb h a j)) by (intros; by apply limb_range).
  (* the numbers of the estimate *)
  pose proof (x3_spec h i G ltac:(lia) ltac:(lia) ltac:(lia) ltac:(by rewrite Emag)) as Ex3.
  pose proof (y2_spec h t G ltac:(lia) Ent ltac:(by rewrite Ey)) as Ey2. rewrite Emag, Ei1 in Ex3. rewrite Ey in Ey2.
  assert (Hyt : 2 ^ 62 <= limb h Y t < base).
  { destruct (Fl Y t ltac:(lia)) as [_ H1]. split; [|done]. unfold limb. destruct (G Y ltac:(lia)) as [[Hl _] _].
    rewrite (top_limb t _ Hl Ent) by (unfold mag in Ey; lia). unfold mag in Ey. rewrite Ey. apply Z.div_le_lower_bound; lia. }
  destruct (first_digit_spec (limb h X i) (limb h X (i - 1)) (if (i <? 2)%nat then 0 else limb h X (i - 2)) (limb h Y t)
    (if (t <? 1)%nat then 0 else limb h Y (t - 1))) as (Fz0 & Hclose & Hmax);
    try (apply Fl; lia); try (apply if_range, Fl; lia); try done.
  fold z0 in Fz0, Hclose, Hmax. fold (y2_of h t) in Hclose, Hmax.
  assert (Ex3' : (if (i <? 2)%nat then 0 else limb h X (i - 2)) + base * limb h X (i - 1) + base * base * limb h X i = x3_of h i).
  { unfold x3_of. replace (i <? 1)%nat with false by (symmetry; apply Nat.ltb_ge; lia). done. }
  rewrite Ex3' in Hclose, Hmax. set (x3 := x3_of h i) in *. set (y2 := y2_of h t) in *.
  assert (Hx3b : x3 * (pow t * pow k) <= v * base < (x3 + 1) * (pow t * pow k)).
  { rewrite Ex3. pose proof (Z.div_mod (v * base) (pow t * pow k) ltac:(nia)).
    pose proof (Z.mod_pos_bound (v * base) (pow t * pow k) ltac:(nia)). lia. }
  assert (Hy2b : y2 * pow t <= y * base < (y2 + 1) * pow t).
  { rewrite Ey2. pose proof (Z.div_mod (y * base) (pow t) ltac:(lia)). pose proof (Z.mod_pos_bound (y * base) (pow t) ltac:(lia)). lia. }
  assert (Hx30 : 0 <= x3) by (rewrite Ex3; apply Z.div_pos; unfold base in *; nia).
  assert (Hy20 : 0 <= y2) by (rewrite Ey2; apply Z.div_pos; unfold base in *; nia).
  assert (Hk : (k < mpi_n (mem h Z1))%nat) by (unfold k; lia).
  assert (Hzk : limb h Z1 k = 0) by (apply (zero_limb h Z1 k (i - t)); [done|lia|done|by rewrite Eq|unfold k; lia]).
  (* the estimate and its correction *)
  eapply wp_chk; [exact Hest|]. intros ? h1 S1. cbn beta in S1. pose proof (locals_step h0 h h1 Z1 _ HL ltac:(lia) ltac:(lia) S1 ltac:(lia) ltac:(lia)) as HL1.
  destruct S1 as [Tp1 G1 N1 F1]. cbn beta in N1.
  assert (EX1 : mem h1 X = mem h X) by by frames. assert (EY1 : mem h1 Y = mem h Y) by by frames.
  assert (EnZ1 : mpi_n (mem h1 Z1) = mpi_n (mem h Z1)) by (rewrite N1; unfold mpi_n; cbn [mpi_p]; by rewrite length_insert).
  assert (Ez : u64 (u64 (z0 + 1) - 1) = z0).
  { unfold wrap. rewrite Zminus_mod_idemp_l. replace (z0 + 1 - 1) with z0 by lia. by apply Z.mod_small. }
  eapply wp_chk; [apply (correct_digit_spec h0 i t corrections h1 (u64 (z0 + 1))); try done; try lia|].
  { by rewrite EY1. } { by rewrite EX1, En; lia. } { unfold limb. rewrite N1. cbn [mpi_p]. by rewrite list_lookup_total_insert_eq. }
  { by rewrite (x3_same h). } { by rewrite (y2_same h). } { unfold corrections. lia. }
  { rewrite Ez, (x3_same h), (y2_same h) by done. left. exact Hclose. }
  rewrite Ez. intros _ h2 (HL2 & EX2 & EY2 & z & Hbest & EZ2). rewrite (x3_same h), (y2_same h) in Hbest by done.
  fold x3 y2 in Hbest. rewrite N1 in EZ2. cbn [mpi_s mpi_p] in EZ2. rewrite list_insert_insert_eq in EZ2. fold k in EZ2.
  pose proof Hbest as (Hzr & Hzle & _). unfold fits in Fz0. fold base in Fz0.
  pose proof (l_good _ _ HL2) as G2. pose proof (l_top _ _ HL2) as Top2.
  assert (Hbelow : z * (y * pow k) <= v + y * pow k) by (apply (estimate_below v y (pow t) (pow k) x3 y2); try done; try lia; nia).
  assert (Habove : v < (z + 1) * (y * pow k)).
  { set (qq := v / (y * pow k)). pose proof (Z.div_mod v (y * pow k) ltac:(nia)) as Hd. fold qq in Hd.
    pose proof (Z.mod_pos_bound v (y * pow k) ltac:(nia)).
    assert (Hqq : 0 <= qq < base) by (split; [apply Z.div_pos; nia|apply Z.div_lt_upper_bound; nia]).
    assert (qq * y2 <= x3) by (apply (estimate_above v y (pow t) (pow k) x3 y2); try done; try lia; nia).
    assert (qq <= z) by (apply (best_max x3 y2 z0); try done; by apply Hmax). nia. }
  apply (Hrest h2 z); try done; try congruence; lia.
Qed.
Lemma bits_pow k : 2 ^ Z.of_nat (64 * k) = pow k.
Proof. rewrite pow_bits. f_equal. lia. Qed.

Lemma T1_step h0 h h' (R : mbedtls_mpi -> Prop) : locals h0 h -> sets T1 R h h' ->
  (R (mem h' T1) -> (2 <= mpi_n (mem h' T1))%nat) -> locals h0 h'.
Proof. intros HL S HT. eapply locals_step; [exact HL| |pose proof (l_top _ _ HL)|exact S|..]; try lia; auto. Qed.

(** [T1] becomes [u * pow k]. *)
Lemma scaled_spec h0 h k u (m rest : mpi unit) Q : locals h0 h -> 0 <= u -> u * pow k < pow MBEDTLS_MPI_MAX_LIMBS ->
  (k <= MBEDTLS_MPI_MAX_LIMBS)%nat ->
  writes m T1 h (fun x => value x = u /\ (mpi_n (mem h T1) <= mpi_n x)%nat) ->
  (forall h', locals h0 h' -> (forall a, (a < top h)%nat -> a <> T1 -> mem h' a = mem h a) ->
     value (mem h' T1) = u * pow k -> wp rest h' Q) ->
  wp (m ;* mbedtls_mpi_shift_l T1 (64 * k) ;* rest) h Q.
Proof.
  intros HL Hu Hlt Hk Hm Hrest. eapply wp_chk; [exact Hm|]. intros ? h1 S1. cbn beta in S1.
  pose proof (l_top _ _ HL) as Top. pose proof (l_T1 _ _ HL) as H2.
  pose proof (T1_step h0 h h1 _ HL S1 ltac:(intros []; lia)) as HL1. destruct S1 as [Tp1 G1 [N1 N1'] F1].
  assert (Em : mag (mem h1 T1) = u) by (rewrite <- value_abs by (apply G1; lia); lia).
  eapply wp_chk; [apply (shift_l_value_spec T1 (64 * k) h1); [done|lia| |lia]|].
  { by rewrite Em, bits_pow. }
  intros ? h2 S2. cbn beta in S2. pose proof (T1_step h0 h1 h2 _ HL1 S2 ltac:(intros []; pose proof (l_T1 _ _ HL1); lia)) as HL2.
  destruct S2 as [Tp2 G2 [N2 N2'] F2]. apply Hrest; [done|intros a Ha Hn; rewrite F2 by lia; by apply F1|]. by rewrite N2, N1, bits_pow.
Qed.

(** [X] takes the sum with an object [b], and keeps its limbs. *)
Lemma X_step h0 n b h v v' (R : mbedtls_mpi -> Prop) h' : locals h0 h -> value (mem h X) = v -> mpi_n (mem h X) = S n ->
  sets X R h h' -> (R (mem h' X) -> value (mem h' X) = v' /\
    capacity (mem h X) (mem h X) (mem h b) (Z.max (Z.max (mag (mem h X)) (mag (mem h b))) (mag (mem h' X))) (mem h' X)) ->
  Z.abs v < pow (S n) -> Z.abs v' < pow (S n) -> mag (mem h b) < pow (S n) -> (0 < mpi_n (mem h b))%nat ->
  locals h0 h' /\ value (mem h' X) = v' /\ mpi_n (mem h' X) = S n.
Proof.
  intros HL Ev En St HR Hv Hv' Ht Hb. pose proof (l_top _ _ HL) as Top.
  pose proof (locals_step h0 h h' X _ HL ltac:(lia) ltac:(lia) St ltac:(lia) ltac:(lia)) as HL'.
  destruct (HR (s_new _ _ _ _ St)) as [Ev' [Hup Hlow]]. split; [done|]. split; [done|].
  rewrite En in Hup, Hlow. specialize (Hlow ltac:(lia) ltac:(lia)).
  assert (mag (mem h X) = Z.abs v) by (rewrite <- Ev; symmetry; apply value_abs, (l_good _ _ HL); lia).
  pose proof (l_top _ _ HL') as Top'.
  assert (mag (mem h' X) = Z.abs v') by (rewrite <- Ev'; symmetry; apply value_abs, (l_good _ _ HL'); lia).
  specialize (Hup (S n) ltac:(lia) ltac:(lia)). lia.
Qed.

(** The state with the digit [d] written. *)
Lemma dividing_next h0 n t i y v q h h' d v' : dividing h0 n t i y v q h -> (t < i <= n)%nat ->
  let k := (i - t - 1)%nat in
  locals h0 h' -> mem h' Y = mem h Y -> mem h' Z1 = Mpi (mpi_s (mem h Z1)) (<[k := d]> (mpi_p (mem h Z1))) ->
  value (mem h' X) = v' -> mpi_n (mem h' X) = S n -> v = v' + d * (y * pow k) -> 0 <= v' < y * pow k ->
  exists z v', dividing h0 n t (i - 1) y v' (q + pow k * z) h' /\ v = v' + z * (y * pow k).
Proof.
  intros [HL HX (Ey & Esy & Ent) (Eq & Enz & Hdiv) [Hsz Htn] Hnorm Hleft HsZ] Hi k HL' EY EZ Ev' En' Ev Hv'.
  exists d, v'. split; [|done]. pose proof (l_top _ _ HL) as Top.
  assert (Hk : (k < mpi_n (mem h Z1))%nat) by (unfold k; lia).
  assert (Hzk : limb h Z1 k = 0) by (apply (zero_limb h Z1 k (i - t)); [by apply HL|lia|done|by rewrite Eq|unfold k; lia]).
  constructor; try done; try (rewrite EY; done); [|by replace (i - 1 - t)%nat with k by (unfold k; lia)|by rewrite EZ].
  rewrite EZ, digit_mag, Eq, Hzk, Z.sub_0_r by (by apply HL || lia). split; [done|]. split.
  - unfold mpi_n in *. cbn [mpi_p]. by rewrite length_insert.
  - replace (i - 1 - t)%nat with k by (unfold k; lia). apply Z.divide_add_r; [|apply Z.divide_factor_l].
    eapply Z.divide_trans; [|exact Hdiv]. replace (i - t)%nat with (S k) by (unfold k; lia). rewrite pow_S. apply Z.divide_factor_r.
Qed.

(** Taking the multiple of [y] away, and giving one back if it was too much. *)
Lemma divide_digit_spec h0 n t i y v q h : dividing h0 n t i y v q h -> (t < i <= n)%nat ->
  wp (divide_digit X Y Z1 T1 T2 i t) h (fun _ h' =>
    exists z v', dividing h0 n t (i - 1) y v' (q + pow (i - t - 1) * z) h' /\
      v = v' + z * (y * pow (i - t - 1))).
Proof.
  intros HD Hi. unfold divide_digit. set (k := (i - t - 1)%nat). apply (found_digit_spec h0 n t i y v q h); [done..|].
  fold k. intros h1 z HL1 EX1 EY1 EZ1 Hz Hbelow Habove.
  pose proof (fun h' d v' => dividing_next h0 n t i y v q h h' d v' HD Hi) as Hnext. cbv zeta in Hnext. fold k in Hnext.
  destruct HD as [HL [Ev En] (Ey & Esy & Ent) (Eq & Enz & Hdiv) [Hsz Htn] Hnorm Hleft HsZ].
  pose proof (l_top _ _ HL) as Top. pose proof (l_top _ _ HL1) as Top1. pose proof (l_good _ _ HL) as G. pose proof (l_good _ _ HL1) as G1.
  pose proof (pow_pos k) as Pk. pose proof (pow_pos t) as Pt.
  assert (Hk : (k < mpi_n (mem h Z1))%nat) by (unfold k; lia).
  assert (Hzk : limb h Z1 k = 0) by (apply (zero_limb h Z1 k (i - t)); [done|lia|done|by rewrite Eq|unfold k; lia]).
  assert (EnZ1 : mpi_n (mem h1 Z1) = mpi_n (mem h Z1)) by (rewrite EZ1; unfold mpi_n; cbn [mpi_p]; by rewrite length_insert).
  apply wp_get_limb; [lia|]. fold (limb h1 Z1 k).
  assert (Ez1 : limb h1 Z1 k = z) by (unfold limb; rewrite EZ1; cbn [mpi_p]; by apply list_lookup_total_insert_eq). rewrite Ez1.
  assert (EvY : value (mem h1 Y) = y) by (rewrite EY1; rewrite value_pos by done; done).
  assert (Hpow : y * pow k * (base + 1) < pow (S n)).
  { apply Z.lt_le_trans with (pow (S i)); [|apply pow_mono; lia].
    replace (S i) with (S (S (t + k))) by (unfold k; lia). rewrite !pow_S, pow_add. unfold base. nia. }
  assert (HM : pow (S n) <= pow MBEDTLS_MPI_MAX_LIMBS) by (apply pow_mono; lia).
  assert (Hleft' : 0 <= v < base * (y * pow k)).
  { replace (base * (y * pow k)) with (y * pow (i - t)); [done|]. replace (i - t)%nat with (S k) by (unfold k; lia). rewrite pow_S. ring. }
  assert (Hyk : 0 < y * pow k) by nia.
  eapply (scaled_spec h0 h1 k (y * z)); [done|nia|unfold base in *; nia|unfold k; lia| |].
  { eapply writes_mono; [apply mul_int_spec; [done|lia|lia| |]|].
    - unfold fits. fold base. done.
    - pose proof (used_mag (mem h1 Y) (S t) (proj1 (G1 Y ltac:(lia))) ltac:(rewrite EY1, Ey, pow_S; unfold base; lia)). lia.
    - intros x (E & _ & Hn). by rewrite E, EvY. }
  intros h2 HL2 F2 Ev2. pose proof (l_good _ _ HL2) as G2. pose proof (l_top _ _ HL2) as Top2.
  assert (EX2 : mem h2 X = mem h X) by (rewrite F2 by lia; done).
  assert (Em2 : mag (mem h2 T1) = y * z * pow k) by (rewrite <- value_abs by (apply G2; lia); nia).
  assert (EmX2 : mag (mem h2 X) = v) by (rewrite <- value_abs by (apply G2; lia); rewrite EX2; lia).
  set (w := v - y * z * pow k). assert (Hw : - (y * pow k) <= w < y * pow k) by (unfold w; lia).
  eapply wp_chk; [apply (sub_mpi_spec X X T1 h2); [done|lia|lia|lia|]|].
  { rewrite EX2, Ev, Ev2. fold w. unfold base in *. lia. }
  intros ? h3 S3. cbn beta in S3.
  assert (F3 : forall a, (a < top h2)%nat -> a <> X -> mem h3 a = mem h2 a) by apply S3.
  destruct (X_step h0 n T1 h2 v w _ h3 HL2 ltac:(by rewrite EX2) ltac:(by rewrite EX2) S3) as (HL3 & Ev3 & En3).
  { intros [E Hc]. split; [|exact Hc]. rewrite E, EX2, Ev, Ev2. done. }
  { unfold base in *. lia. } { unfold base in *. lia. } { rewrite Em2. unfold base in *. lia. } { pose proof (l_T1 _ _ HL2). lia. }
  apply wp_load. pose proof (l_good _ _ HL3) as G3. pose proof (l_top _ _ HL3) as Top3.
  rewrite cmp_int_spec by (apply G3 || done; lia). rewrite ord_ltb, Ev3.
  assert (EY3 : mem h3 Y = mem h1 Y) by (rewrite F3, F2 by lia; done).
  assert (EZ3 : mem h3 Z1 = mem h1 Z1) by (rewrite F3, F2 by lia; done).
  destruct (Z.ltb_spec w 0) as [Hneg|Hpos].
  2: { apply wp_ret. apply (Hnext h3 z w); try done; try congruence; unfold w in *; lia. }
  eapply (scaled_spec h0 h3 k y); [done|lia|unfold base in *; nia|unfold k; lia| |].
  { eapply writes_mono; [apply copy_spec; [done|lia|lia]|]. intros x ->. rewrite (proj2 (Nat.eqb_neq T1 Y)) by lia.
    rewrite copied_value by (apply G3; lia). split; [by rewrite EY3|]. rewrite copied_n; [lia|]. rewrite EY3, EY1.
    intros E. unfold mpi_n in Ent. rewrite E in Ent. cbn in Ent. lia. }
  intros h4 HL4 F4 Ev4. pose proof (l_good _ _ HL4) as G4. pose proof (l_top _ _ HL4) as Top4.
  assert (EX4 : mem h4 X = mem h3 X) by (rewrite F4 by lia; done).
  assert (Em4 : mag (mem h4 T1) = y * pow k) by (rewrite <- value_abs by (apply G4; lia); nia).
  eapply wp_chk; [apply (add_mpi_spec X X T1 h4); [done|lia|lia|lia|]|].
  { rewrite EX4, Ev3, Ev4. unfold base in *. lia. }
  intros ? h5 S5. cbn beta in S5.
  assert (F5 : forall a, (a < top h4)%nat -> a <> X -> mem h5 a = mem h4 a) by apply S5.
  destruct (X_step h0 n T1 h4 w (w + y * pow k) _ h5 HL4 ltac:(by rewrite EX4) ltac:(by rewrite EX4) S5) as (HL5 & Ev5 & En5).
  { intros [E Hc]. split; [|exact Hc]. by rewrite E, EX4, Ev3, Ev4. }
  { unfold base in *. lia. } { unfold base in *. lia. } { rewrite Em4. unfold base in *. lia. } { pose proof (l_T1 _ _ HL4). lia. }
  pose proof (l_good _ _ HL5) as G5. pose proof (l_top _ _ HL5) as Top5.
  assert (EZ5 : mem h5 Z1 = mem h1 Z1) by (rewrite F5, F4 by lia; done).
  assert (EY5 : mem h5 Y = mem h1 Y) by (rewrite F5, F4 by lia; done).
  assert (Hz1 : 0 < z) by (unfold w in Hneg; nia).
  apply wp_get_limb; [rewrite EZ5; lia|]. rewrite EZ5. fold (limb h1 Z1 k). rewrite Ez1.
  rewrite wrap_id by (unfold fits; unfold base in *; lia).
  eapply wp_mono; [apply (set_limb_spec Z1 k (z - 1) h5); [done|lia|rewrite EZ5; lia|unfold fits; unfold base in *; lia]|].
  intros ? h6 S6. cbn beta in S6.
  pose proof (locals_step h0 h5 h6 Z1 _ HL5 ltac:(lia) ltac:(lia) S6 ltac:(lia) ltac:(lia)) as HL6.
  destruct S6 as [Tp6 G6 N6 F6].
  apply (Hnext h6 (z - 1) (w + y * pow k)); try done.
  - rewrite F6 by lia. congruence.
  - rewrite N6, EZ5, EZ1. cbn [mpi_s mpi_p]. by rewrite list_insert_insert_eq.
  - by rewrite F6 by lia.
  - by rewrite F6 by lia.
  - unfold w. lia.
  - unfold w in *. lia.
Qed.
Lemma divide_digits_spec h0 n t y j : forall h v q, dividing h0 n t (t + j) y v q h -> (t + j <= n)%nat ->
  wp (divide_digits j X Y Z1 T1 T2 t) h (fun _ h' =>
    exists v' q', dividing h0 n t t y v' q' h' /\ v + q * y = v' + q' * y).
Proof.
  induction j as [|j IH]; intros h v q HD Hj; cbn [divide_digits].
  - apply wp_ret. exists v, q. split; [|done]. by replace t with (t + 0)%nat at 2 by lia.
  - eapply wp_chk; [apply (divide_digit_spec h0 n t (t + S j) y v q); [done|lia]|].
    intros _ h1 (z & v1 & HD1 & E1). replace (t + S j - 1)%nat with (t + j)%nat in HD1 by lia.
    eapply wp_mono; [apply (IH h1 v1 _ HD1); lia|]. intros _ h2 (v2 & q2 & HD2 & E2). exists v2, q2. split; [done|]. lia.
Qed.

(** The subtractions before the loop: fewer than the fuel. *)
Lemma subtract_top_spec h0 n k y p s fuel : forall h m v, locals h0 h ->
  value (mem h X) = v -> mpi_n (mem h X) = S n -> mag (mem h Y) = y -> mpi_s (mem h Y) = 1 ->
  mem h Z1 = Mpi s (<[k := m]> p) -> (k < length p)%nat -> 0 <= m -> m + Z.of_nat fuel < base ->
  0 <= v < pow (S n) -> 0 < y < pow (S n) -> v < Z.of_nat fuel * y -> (S n <= MBEDTLS_MPI_MAX_LIMBS)%nat ->
  (0 < mpi_n (mem h Y))%nat ->
  wp (subtract_top fuel X Y Z1 k) h (fun _ h' => exists c, locals h0 h' /\ mem h' Y = mem h Y /\ 0 <= c /\
    value (mem h' X) = v - c * y /\ mpi_n (mem h' X) = S n /\ 0 <= v - c * y < y /\
    mem h' Z1 = Mpi s (<[k := m + c]> p)).
Proof.
  induction fuel as [|fuel IH]; intros h m v HL Ev En Ey Esy EZ Hk Hm Hmb Hv Hy Hlt Hn HnY; [lia|]. cbn [subtract_top].
  pose proof (l_top _ _ HL) as Top. pose proof (l_good _ _ HL) as G. apply wp_load, wp_load.
  rewrite cmp_mpi_spec by (apply G; lia). rewrite ord_geb, Ev, (value_pos (mem h Y)), Ey by done.
  destruct (Z.leb_spec y v) as [Hge|Hl].
  2: { apply wp_ret. exists 0. rewrite Z.mul_0_l, Z.sub_0_r, Z.add_0_r. split_and!; try done; lia. }
  assert (HkZ : (k < mpi_n (mem h Z1))%nat) by (rewrite EZ; unfold mpi_n; cbn [mpi_p]; by rewrite length_insert).
  apply wp_get_limb; [done|]. rewrite EZ at 1. cbn [mpi_p]. rewrite list_lookup_total_insert_eq by done.
  rewrite wrap_id by (unfold fits, base in *; lia).
  eapply wp_chk; [apply (set_limb_spec Z1 k (m + 1) h); [done|lia|done|unfold fits; unfold base in *; lia]|].
  intros ? h1 S1. cbn beta in S1.
  pose proof (locals_step h0 h h1 Z1 _ HL ltac:(lia) ltac:(lia) S1 ltac:(lia) ltac:(lia)) as HL1. destruct S1 as [Tp1 G1 N1 F1].
  cbn beta in N1. rewrite EZ in N1. cbn [mpi_s mpi_p] in N1. rewrite list_insert_insert_eq in N1.
  assert (EX1 : mem h1 X = mem h X) by by frames. assert (EY1 : mem h1 Y = mem h Y) by by frames.
  pose proof (l_top _ _ HL1) as Top1. pose proof (pow_mono (S n) MBEDTLS_MPI_MAX_LIMBS Hn).
  eapply wp_chk; [apply (sub_mpi_spec X X Y h1); [done|lia|lia|lia|]|].
  { rewrite EX1, EY1, Ev, (value_pos (mem h Y)), Ey by done. lia. }
  intros ? h2 S2. cbn beta in S2.
  assert (F2 : forall a, (a < top h1)%nat -> a <> X -> mem h2 a = mem h1 a) by apply S2.
  destruct (X_step h0 n Y h1 v (v - y) _ h2 HL1 ltac:(by rewrite EX1) ltac:(by rewrite EX1) S2) as (HL2 & Ev2 & En2).
  { intros [E Hc]. split; [|exact Hc]. by rewrite E, EX1, EY1, Ev, (value_pos (mem h Y)), Ey. }
  { lia. } { lia. } { rewrite EY1, Ey. lia. } { by rewrite EY1. }
  assert (EY2 : mem h2 Y = mem h Y) by (rewrite F2 by lia; done).
  eapply wp_mono; [apply (IH h2 (m + 1) (v - y)); rewrite ?EY2; try done; try lia|].
  { by rewrite F2 by lia. }
  intros _ h3 (c & HL3 & EY3 & Hc & Ev3 & En3 & Hr & EZ3). exists (c + 1).
  replace (v - (c + 1) * y) with (v - y - c * y) by lia. replace (m + (c + 1)) with (m + 1 + c) by lia.
  split_and!; try done; try lia. congruence.
Qed.

(** No limb is wasted. *)
Definition tight (x : mbedtls_mpi) : Prop := (0 < mpi_n x)%nat /\ pow (mpi_n x - 1) <= mag x.

Lemma tight_lt x : wf x -> mag x < pow (mpi_n x).
Proof. intros [Hl _]. apply (val_bound _ Hl). Qed.

Lemma tight_copied y : wf y -> 0 < mag y -> tight (copied mbedtls_mpi_init y) /\ (mpi_n (copied mbedtls_mpi_init y) <= mpi_n y)%nat.
Proof.
  intros Hw Hy. pose proof Hw as [Hl _].
  assert (Hne : mpi_p y <> []) by (unfold mag in Hy; intros E; rewrite E in Hy; cbn in Hy; lia).
  assert (Hu : used (mpi_p y) <> 0%nat) by (rewrite used_0 by done; unfold mag in Hy; lia).
  pose proof (used_le (mpi_p y)). unfold tight. rewrite copied_n, copied_mag by done. change (mpi_n mbedtls_mpi_init) with 0%nat.
  unfold significant. rewrite Nat.max_0_r, (Nat.max_r 1) by lia. split; [split; [lia|]|done].
  apply pow_used_le; [done|lia].
Qed.

(** A shift by less than a limb adds a limb only when it is needed. *)
Lemma tight_shift a c h : good h -> (a < top h)%nat -> tight (mem h a) -> (c < 64)%nat ->
  (S (mpi_n (mem h a)) <= MBEDTLS_MPI_MAX_LIMBS)%nat ->
  writes (mbedtls_mpi_shift_l a c) a h (fun x => mpi_s x = mpi_s (mem h a) /\ mag x = mag (mem h a) * 2 ^ Z.of_nat c /\
    tight x /\ (mpi_n x <= S (mpi_n (mem h a)))%nat).
Proof.
  intros Hg Ha [Hn Ht] Hc Hmax. pose proof (tight_lt _ (proj1 (Hg a Ha))) as Hlt. pose proof (pow_pos (mpi_n (mem h a) - 1)).
  assert (H2 : 0 < 2 ^ Z.of_nat c < base) by (split; [apply Z.pow_pos_nonneg; lia|unfold base; apply (Z.pow_lt_mono_r 2 (Z.of_nat c) 64); lia]).
  set (m := mag (mem h a)) in *. set (n := mpi_n (mem h a)) in *.
  assert (Hm : 0 < m) by lia. pose proof (bits_bounds m Hm) as [B1 B2].
  assert (Hbn : (bits m <= 64 * n)%nat) by (apply bits_lt; [lia|rewrite bits_pow; done]).
  eapply writes_mono; [apply shift_l_spec; [done|done| |lia]|].
  { fold m. apply Z.lt_le_trans with (pow (S n)); [rewrite pow_S; nia|apply pow_mono; lia]. }
  intros x (Es & Em & En). fold m n in Em, En. split; [done|]. split; [done|]. unfold tight. rewrite Em.
  destruct (Nat.ltb_spec (n * 64) (bits m + c)) as [Hb|Hb].
  - assert (E : mpi_n x = S n).
    { rewrite En. pose proof (BITS_TO_LIMBS_ge (bits m + c)). pose proof (BITS_TO_LIMBS_spec (bits m + c) (S n) ltac:(lia)). lia. }
    rewrite E. replace (S n - 1)%nat with n by lia. split; [|lia]. split; [lia|].
    rewrite <- bits_pow. apply Z.le_trans with (2 ^ (Z.of_nat (bits m) - 1) * 2 ^ Z.of_nat c); [|nia].
    rewrite <- Z.pow_add_r by lia. apply Z.pow_le_mono_r; lia.
  - rewrite En. split; [|lia]. split; [lia|]. nia.
Qed.

(** The copies, with both signs positive, and room for the digits. *)
Record prepared (h0 h : heap) (A B : addr) : Prop := Prepared {
  p_locals : locals h0 h;
  p_x : mag (mem h X) = mag (mem h0 A) /\ mpi_s (mem h X) = 1 /\ tight (mem h X) /\ (mpi_n (mem h X) <= mpi_n (mem h0 A))%nat;
  p_y : mag (mem h Y) = mag (mem h0 B) /\ mpi_s (mem h Y) = 1 /\ tight (mem h Y);
  p_z : mag (mem h Z1) = 0 /\ (mpi_n (mem h0 A) + 2 <= mpi_n (mem h Z1))%nat;
  p_sign : mpi_s (mem h Z1) = 1
}.

Lemma prepare_spec h A B (rest : mpi nat) Q : good h -> top h = S T2 -> (A < X)%nat -> (B < X)%nat ->
  mem h X = mbedtls_mpi_init -> mem h Y = mbedtls_mpi_init -> 0 < mag (mem h A) -> 0 < mag (mem h B) ->
  (mpi_n (mem h A) + 2 <= MBEDTLS_MPI_MAX_LIMBS)%nat ->
  (forall h', prepared h h' A B -> wp rest h' Q) ->
  wp (mbedtls_mpi_copy X A ;* mbedtls_mpi_copy Y B ;* set_s Y 1 ;* set_s X 1 ;*
      let* a := load A in mbedtls_mpi_grow Z1 (mpi_n a + 2) ;* mbedtls_mpi_lset Z1 0 ;*
      mbedtls_mpi_grow T1 2 ;* mbedtls_mpi_grow T2 3 ;* rest) h Q.
Proof.
  intros G Top HA HB EX EY HmA HmB Hn Hrest.
  destruct (tight_copied (mem h A)) as [TA NA]; [apply G; lia|done|]. destruct (tight_copied (mem h B)) as [TB NB]; [apply G; lia|done|].
  eapply wp_chk; [apply copy_spec; [done|lia|lia]|]. intros _ h1 [Tp1 G1 N1 F1]. rewrite (proj2 (Nat.eqb_neq _ _)), EX in N1 by lia.
  eapply wp_chk; [apply copy_spec; [done|lia|lia]|]. intros _ h2 [Tp2 G2 N2 F2]. rewrite (proj2 (Nat.eqb_neq _ _)) in N2 by lia.
  rewrite (F1 Y), (F1 B), EY in N2 by lia.
  eapply wp_chk; [apply set_s_spec; [done|lia|by left]|]. intros _ h3 [Tp3 G3 N3 F3]. cbn beta in N3. rewrite N2 in N3.
  eapply wp_chk; [apply set_s_spec; [done|lia|by left]|]. intros _ h4 [Tp4 G4 N4 F4]. cbn beta in N4. rewrite (F3 X), (F2 X), N1 in N4 by lia.
  apply wp_load. assert (EA : mem h4 A = mem h A) by by frames. rewrite EA.
  eapply wp_chk; [apply grow_spec; [done|lia|done]|]. intros _ h5 [Tp5 G5 N5 F5]. cbn beta in N5.
  eapply wp_chk; [apply (lset_int_spec Z1 0 h5); [done|lia|done]|]. intros _ h6 [Tp6 G6 (_ & N6 & Ns6 & N6') F6].
  rewrite N5, grown_n in N6'.
  eapply wp_chk; [apply grow_spec; [done|lia|unfold MBEDTLS_MPI_MAX_LIMBS; lia]|]. intros _ h7 [Tp7 G7 N7 F7]. cbn beta in N7.
  eapply wp_chk; [apply grow_spec; [done|lia|unfold MBEDTLS_MPI_MAX_LIMBS; lia]|]. intros _ h8 [Tp8 G8 N8 F8]. cbn beta in N8.
  apply Hrest. constructor.
  - constructor; [lia|done|done|frames; rewrite N7, grown_n; lia|rewrite N8, grown_n; lia|]. intros a Ha. by frames.
  - assert (E : mem h8 X = mem h4 X) by by frames. rewrite E, N4. unfold tight, mag, mpi_n. cbn [mpi_s mpi_p].
    split; [by apply copied_mag, G; lia|]. split; [done|]. by split.
  - assert (E : mem h8 Y = mem h3 Y) by by frames. rewrite E, N3. unfold tight, mag, mpi_n. cbn [mpi_s mpi_p].
    split; [by apply copied_mag, G; lia|]. done.
  - assert (E : mem h8 Z1 = mem h6 Z1) by by frames. rewrite E, N6, N6'. split; [done|lia].
  - assert (E : mem h8 Z1 = mem h6 Z1) by by frames. by rewrite E.
Qed.

(** The shift that brings the leading bit of [y] to position 62 of its limb. *)
Definition normaliser (y : Z) : nat := if (bits y mod 64 <? 64 - 1)%nat then (64 - 1 - bits y mod 64)%nat else 0%nat.

Lemma normaliser_top b x : wf x -> tight x -> mag x = b * 2 ^ Z.of_nat (normaliser b) -> 0 < b ->
  2 ^ 62 * pow (mpi_n x - 1) <= mag x < 2 ^ 63 * pow (mpi_n x - 1).
Proof.
  intros Hw [Hn Ht] Hm Hb. pose proof (tight_lt x Hw) as Hlt. pose proof (bits_shift b (normaliser b) Hb) as Eb. rewrite <- Hm in Eb.
  pose proof (pow_pos (mpi_n x - 1)) as Hp. pose proof (bits_bounds (mag x) ltac:(lia)) as [B1 B2]. set (m := bits (mag x)) in *.
  assert (Hmod : (m mod 64 = 63)%nat).
  { rewrite Eb. unfold normaliser. pose proof (Nat.div_mod (bits b) 64 ltac:(lia)). pose proof (Nat.mod_upper_bound (bits b) 64 ltac:(lia)).
    set (r := (bits b mod 64)%nat) in *. destruct (Nat.ltb_spec r (64 - 1)).
    - replace (bits b + (64 - 1 - r))%nat with (63 + bits b / 64 * 64)%nat by lia. by rewrite Nat.Div0.mod_add.
    - rewrite Nat.add_0_r. fold r. lia. }
  assert (Hup : (m <= 64 * mpi_n x)%nat) by (apply bits_lt; [lia|by rewrite bits_pow]).
  assert (Hlow : ~ (m <= 64 * (mpi_n x - 1))%nat) by (intros Hle%bits_lt; [rewrite bits_pow in Hle; lia|lia]).
  assert (Em : m = (64 * (mpi_n x - 1) + 63)%nat).
  { pose proof (Nat.div_mod m 64 ltac:(lia)). assert (m / 64 = mpi_n x - 1)%nat by lia. lia. }
  rewrite Em in B1, B2. rewrite <- bits_pow. rewrite <- !Z.pow_add_r by lia.
  replace (62 + Z.of_nat (64 * (mpi_n x - 1))) with (Z.of_nat (64 * (mpi_n x - 1) + 63) - 1) by lia.
  replace (63 + Z.of_nat (64 * (mpi_n x - 1))) with (Z.of_nat (64 * (mpi_n x - 1) + 63)) by lia. done.
Qed.

(** Both numbers scaled. *)
Record scaled (h0 h : heap) (A B : addr) (c n t : nat) : Prop := Scaled {
  n_locals : locals h0 h;
  n_x : value (mem h X) = mag (mem h0 A) * 2 ^ Z.of_nat c /\ mpi_n (mem h X) = S n;
  n_y : mag (mem h Y) = mag (mem h0 B) * 2 ^ Z.of_nat c /\ mpi_s (mem h Y) = 1 /\ mpi_n (mem h Y) = S t;
  n_norm : 2 ^ 62 * pow t <= mag (mem h Y) < 2 ^ 63 * pow t;
  n_z : mag (mem h Z1) = 0 /\ (n < mpi_n (mem h Z1))%nat;
  n_size : (t <= n)%nat /\ (S (S n) <= MBEDTLS_MPI_MAX_LIMBS)%nat;
  n_sign : mpi_s (mem h Z1) = 1
}.

Lemma normalise_spec h0 h A B : prepared h0 h A B -> 0 < mag (mem h0 B) <= mag (mem h0 A) ->
  (mpi_n (mem h0 A) + 2 <= MBEDTLS_MPI_MAX_LIMBS)%nat ->
  let c := normaliser (mag (mem h0 B)) in let k := (bits (mag (mem h0 B)) mod 64)%nat in
  wp (if (k <? 64 - 1)%nat then mbedtls_mpi_shift_l X c ;* mbedtls_mpi_shift_l Y c else ret tt) h (fun _ h' =>
    scaled h0 h' A B c (mpi_n (mem h' X) - 1) (mpi_n (mem h' Y) - 1)).
Proof.
  intros [HL (EmX & EsX & TX & NX) (EmY & EsY & TY) (EZ & NZ) SZ] Hb Hsz c k.
  pose proof (l_top _ _ HL) as Top. pose proof (l_good _ _ HL) as G.
  assert (Hfin : forall h', locals h0 h' -> mem h' Z1 = mem h Z1 -> mpi_s (mem h' X) = 1 -> mpi_s (mem h' Y) = 1 ->
    mag (mem h' X) = mag (mem h X) * 2 ^ Z.of_nat c -> mag (mem h' Y) = mag (mem h Y) * 2 ^ Z.of_nat c ->
    tight (mem h' X) -> tight (mem h' Y) -> (mpi_n (mem h' X) <= S (mpi_n (mem h X)))%nat ->
    scaled h0 h' A B c (mpi_n (mem h' X) - 1) (mpi_n (mem h' Y) - 1)).
  { intros h' HL' EZ' EsX' EsY' EmX' EmY' TX' TY' NX'. pose proof (l_top _ _ HL') as Top'. pose proof (l_good _ _ HL') as G'.
    pose proof TX' as [NX1 _]. pose proof TY' as [NY1 _].
    assert (Hnorm : 2 ^ 62 * pow (mpi_n (mem h' Y) - 1) <= mag (mem h' Y) < 2 ^ 63 * pow (mpi_n (mem h' Y) - 1)).
    { apply (normaliser_top (mag (mem h0 B))); [apply G'; lia|done|by rewrite EmY', EmY|lia]. }
    assert (Hcmp : mag (mem h' Y) <= mag (mem h' X)).
    { rewrite EmX', EmY', EmX, EmY. pose proof (Z.pow_pos_nonneg 2 (Z.of_nat c) ltac:(lia) ltac:(lia)). nia. }
    pose proof (tight_lt (mem h' X) (proj1 (G' X ltac:(lia)))) as Hlt.
    constructor; try done.
    - rewrite value_pos, EmX', EmX by done. split; [done|lia].
    - rewrite EmY', EmY. split; [done|]. split; [done|lia].
    - rewrite EZ', EZ. split; [done|lia].
    - split; [|lia]. assert (mpi_n (mem h' Y) - 1 < mpi_n (mem h' X))%nat; [|lia]. apply pow_lt_inv.
      pose proof (pow_pos (mpi_n (mem h' Y) - 1)). lia.
    - by rewrite EZ'. }
  destruct (Nat.ltb_spec k (64 - 1)) as [Hk|Hk].
  - assert (Hc : (c < 64)%nat \/ c = 63%nat).
    { unfold c, normaliser. fold k. rewrite (proj2 (Nat.ltb_lt _ _)) by done. lia. }
    eapply wp_chk; [apply (tight_shift X c h); [done|lia|done|lia|lia]|]. intros ? h1 S1. cbn beta in S1.
    pose proof (locals_step h0 h h1 X _ HL ltac:(lia) ltac:(lia) S1 ltac:(lia) ltac:(lia)) as HL1.
    destruct S1 as [Tp1 G1 (Es1 & Em1 & T1' & N1) F1]. assert (EY1 : mem h1 Y = mem h Y) by by frames.
    assert (HnY : (S (mpi_n (mem h Y)) <= MBEDTLS_MPI_MAX_LIMBS)%nat).
    { destruct TY as [_ TY]. pose proof (tight_lt (mem h X) (proj1 (G X ltac:(lia)))).
      assert (mpi_n (mem h Y) - 1 < mpi_n (mem h X))%nat; [apply pow_lt_inv; lia|lia]. }
    eapply wp_mono; [apply (tight_shift Y c h1); rewrite ?EY1; [done|lia|done|lia|lia]|]. intros ? h2 S2. cbn beta in S2.
    pose proof (locals_step h0 h1 h2 Y _ HL1 ltac:(lia) ltac:(lia) S2 ltac:(lia) ltac:(lia)) as HL2.
    destruct S2 as [Tp2 G2 (Es2 & Em2 & T2' & N2) F2]. assert (EX2 : mem h2 X = mem h1 X) by by frames.
    apply Hfin; rewrite ?EX2, ?Em2, ?Es1, ?Es2, ?EY1; try done. by frames.
  - assert (Ec : c = 0%nat) by (unfold c, normaliser; fold k; by rewrite (proj2 (Nat.ltb_ge _ _))).
    apply wp_ret. apply Hfin; try done; try lia; rewrite Ec; change (2 ^ Z.of_nat 0) with 1; lia.
Qed.

Lemma value_positive x : wf x -> 0 < value x -> mpi_s x = 1 /\ mag x = value x.
Proof. intros Hw Hv. pose proof (mag_nonneg x Hw). destruct Hw as [_ [E|E]]; unfold value in *; rewrite E in *; lia. Qed.

(** Quotient in [Z1], and the remainder scaled in [X]. *)
Lemma divide_spec h A B : good h -> top h = S T2 -> (A < X)%nat -> (B < X)%nat ->
  mem h X = mbedtls_mpi_init -> mem h Y = mbedtls_mpi_init -> 0 < mag (mem h B) <= mag (mem h A) ->
  (mpi_n (mem h A) + 2 <= MBEDTLS_MPI_MAX_LIMBS)%nat ->
  wp (divide X Y Z1 T1 T2 A B) h (fun c h' => locals h h' /\ mpi_s (mem h' Z1) = 1 /\ (0 < mpi_n (mem h' X))%nat /\
    mag (mem h' Z1) = mag (mem h A) / mag (mem h B) /\
    value (mem h' X) = mag (mem h A) mod mag (mem h B) * 2 ^ Z.of_nat c).
Proof.
  intros G Top HA HB EX EY Hb Hsz. unfold divide. apply prepare_spec; try done; try lia. intros h1 HP.
  apply wp_load. pose proof HP as [HL1 _ (EmY & _) _ _]. pose proof (l_top _ _ HL1) as Top1. pose proof (l_good _ _ HL1) as G1.
  rewrite bitlen_spec, EmY by (apply G1; lia).
  change (if (bits (mag (mem h B)) mod 64 <? 64 - 1)%nat then _ else 0%nat) with (normaliser (mag (mem h B))).
  eapply wp_chk; [apply (normalise_spec h h1 A B HP Hb Hsz)|]. intros u2 h2 HS. cbn beta in HS. clear u2. apply wp_load, wp_load.
  destruct HS as [HL2 [Ev2 En2] (EmY2 & EsY2 & EnY2) Hnorm (EZ2 & NZ2) [Htn HnM] SZ2].
  set (c := normaliser (mag (mem h B))) in *. set (n := (mpi_n (mem h2 X) - 1)%nat) in *. set (t := (mpi_n (mem h2 Y) - 1)%nat) in *.
  pose proof (l_top _ _ HL2) as Top2. pose proof (l_good _ _ HL2) as G2.
  set (a := mag (mem h A)) in *. set (b := mag (mem h B)) in *. set (y := mag (mem h2 Y)) in *. set (v := a * 2 ^ Z.of_nat c) in *.
  set (k := (n - t)%nat). pose proof (pow_pos t) as Pt. pose proof (pow_pos k) as Pk.
  assert (Ent : pow n = pow t * pow k) by (rewrite <- pow_add; f_equal; unfold k; lia).
  assert (Hv : 0 <= v < pow (S n)).
  { pose proof (tight_lt (mem h2 X) (proj1 (G2 X ltac:(lia)))) as Hlt. rewrite En2 in Hlt.
    rewrite <- (value_abs (mem h2 X)), Ev2 in Hlt by (apply G2; lia).
    pose proof (Z.pow_pos_nonneg 2 (Z.of_nat c) ltac:(lia) ltac:(lia)). unfold v in *. nia. }
  assert (Hyk : 2 ^ 62 * pow n <= y * pow k < 2 ^ 63 * pow n) by (rewrite Ent; nia).
  assert (HykS : y * pow k < pow (S n)) by (rewrite pow_S; unfold base; pose proof (pow_pos n); lia).
  pose proof (pow_mono (S n) MBEDTLS_MPI_MAX_LIMBS ltac:(lia)) as HM.
  (* the subtractions before the digits *)
  eapply wp_chk; [apply (shift_l_value_spec Y (64 * k) h2); [done|lia| |lia]|].
  { fold y. rewrite bits_pow. lia. }
  intros ? h3 S3. cbn beta in S3. pose proof (locals_step h h2 h3 Y _ HL2 ltac:(lia) ltac:(lia) S3 ltac:(lia) ltac:(lia)) as HL3.
  destruct S3 as [Tp3 G3 [Ev3 En3] F3]. rewrite bits_pow, (value_pos (mem h2 Y)) in Ev3 by done. fold y in Ev3.
  destruct (value_positive (mem h3 Y)) as [Es3 Em3]; [apply G3; lia|rewrite Ev3; nia|]. rewrite Ev3 in Em3.
  assert (EX3 : mem h3 X = mem h2 X) by by frames. assert (EZ3 : mem h3 Z1 = mem h2 Z1) by by frames.
  assert (Hzk : limb h3 Z1 k = 0).
  { apply (zero_limb h3 Z1 k (S k)); [done|lia|rewrite EZ3; unfold k; lia|rewrite EZ3, EZ2; apply Z.divide_0_r|lia]. }
  assert (HkZ : (k < length (mpi_p (mem h3 Z1)))%nat) by (rewrite EZ3; unfold mpi_n in NZ2; unfold k; lia).
  eapply wp_chk.
  { apply (subtract_top_spec h n k (y * pow k) (mpi_p (mem h3 Z1)) (mpi_s (mem h3 Z1)) subtractions h3 0 v HL3); rewrite ?EX3, ?Em3; try done; try lia.
    - rewrite <- Hzk. unfold limb. rewrite list_insert_id; [by destruct (mem h3 Z1)|]. by apply list_lookup_lookup_total_lt.
    - unfold subtractions. rewrite pow_S in Hv. unfold base in *. lia. }
  intros _ h4 (m & HL4 & EY4 & Hm & Ev4 & En4 & Hr & EZ4). rewrite Z.add_0_l in EZ4.
  pose proof (l_top _ _ HL4) as Top4. pose proof (l_good _ _ HL4) as G4.
  (* the divisor back in place *)
  eapply wp_chk; [apply (shift_r_spec Y (64 * k) h4); [done|lia]|].
  intros ? h5 S5. cbn beta in S5. pose proof (locals_step h h4 h5 Y _ HL4 ltac:(lia) ltac:(lia) S5 ltac:(lia) ltac:(lia)) as HL5.
  destruct S5 as [Tp5 G5 (Es5 & Em5 & En5) F5]. rewrite EY4, Em3, bits_pow, Z.div_mul in Em5 by lia. rewrite EY4 in Es5, En5.
  eapply wp_chk; [apply (divide_digits_spec h n t y k h5 (v - m * (y * pow k)) (m * pow k))|].
  { replace (t + k)%nat with n by (unfold k; lia). constructor; try done.
    - rewrite F5 by lia. done.
    - split; [done|]. split; [destruct Es5; lia|lia].
    - fold k. rewrite F5, EZ4 by lia. split; [|split].
      + rewrite digit_mag by (done || lia). rewrite Hzk, EZ3, EZ2. lia.
      + unfold mpi_n. cbn [mpi_p]. by rewrite length_insert.
      + apply Z.divide_factor_r.
    - rewrite F5, EZ4 by lia. cbn [mpi_s]. by rewrite EZ3. }
  { unfold k. lia. }
  intros _ h6 (r & q & [HL6 [Ev6 En6] _ (Eq6 & _ & _) _ _ Hr6 SZ6] & Eq). apply wp_ret. split; [done|]. split; [done|]. split; [lia|].
  rewrite Nat.sub_diag, pow_0, Z.mul_1_r in Hr6.
  assert (E : v = q * y + r) by lia. rewrite Eq6, Ev6.
  pose proof (Z.pow_pos_nonneg 2 (Z.of_nat c) ltac:(lia) ltac:(lia)) as Hc. set (p := 2 ^ Z.of_nat c) in *.
  assert (Er : r = (a - q * b) * p) by (unfold v in E; rewrite EmY2 in E; lia).
  assert (Hd : a = b * q + (a - q * b)) by ring.
  assert (Hrem : 0 <= a - q * b < b) by (rewrite EmY2 in Hr6; nia).
  split; [by apply (Z.div_unique a b q (a - q * b)); [left|]|].
  by rewrite <- (Z.mod_unique a b q (a - q * b)); [|left|].
Qed.
End Locals.
End Memory.
