(* ===== verification/MpiQuotient.v ===== *)
(** * MpiQuotient: quotient and remainder, with their signs *)
From S2P Require Import Prelude.
From S2P Require Import Limbs.
From S2P Require Import Mpi.
From S2P Require Import MpiBits.
From S2P Require Import MpiFacts.
From S2P Require Import MpiBitsFacts.
From S2P Require Import MpiArith.
From S2P Require Import MpiDiv.
From S2P Require Import MpiDivFacts.

Open Scope C.

Lemma quot_signs x y : wf x -> wf y -> mag y <> 0 ->
  Z.quot (value x) (value y) = mpi_s x * mpi_s y * (mag x / mag y) /\
  Z.rem (value x) (value y) = mpi_s x * (mag x mod mag y).
Proof.
  intros Hx Hy Hn. pose proof (mag_nonneg x Hx). pose proof (mag_nonneg y Hy).
  assert (Hv : value y <> 0) by (destruct Hy as [_ [E|E]]; unfold value; rewrite E; lia).
  rewrite Z.quot_div, Z.rem_mod, !value_abs by done. unfold value in *.
  destruct (Z.eq_dec (mag x) 0) as [E0|E0].
  { rewrite E0, Z.mul_0_r, Z.div_0_l, Zmod_0_l by done. cbn [Z.sgn]. lia. }
  rewrite !Z.sgn_mul, (Z.sgn_pos (mag x)), (Z.sgn_pos (mag y)) by lia.
  destruct Hx as [_ [Ex|Ex]], Hy as [_ [Ey|Ey]]; rewrite Ex, Ey; cbn [Z.sgn]; lia.
Qed.

Section Memory.
Context `{Callocs}.

(** An object with a new value, and no more limbs than it had or the value takes. *)
Definition new_value (X : addr) (v : Z) (h h' : heap) : Prop :=
  value (mem h' X) = v /\ forall k, (0 < k)%nat -> Z.abs v < pow k -> (mpi_n (mem h' X) <= Nat.max (mpi_n (mem h X)) k)%nat.

Definition optional (X : option addr) (P : addr -> Prop) : Prop := match X with Some X => P X | None => True end.

Record changes (Q R : option addr) (q r : Z) (keep : Prop) (h h' : heap) : Prop := Changes {
  c_top : top h' = top h;
  c_good : good h';
  c_rest : forall a, (a < top h)%nat -> Some a <> Q -> Some a <> R -> mem h' a = mem h a;
  c_quot : optional Q (fun Q : addr => new_value Q q h h');
  c_rem : optional R (fun R : addr => new_value R r h h');
  c_keep : optional R (fun R : addr => keep -> (mpi_n (mem h R) <= mpi_n (mem h' R))%nat)
}.

Lemma result_copied x y : wf y ->
  forall k, (0 < k)%nat -> mag y < pow k -> (mpi_n (copied x y) <= Nat.max (mpi_n x) k)%nat.
Proof.
  intros [Hl _] k Hk Hm. destruct (mpi_p y) as [|l p] eqn:E; [unfold copied; rewrite E; cbn; lia|].
  rewrite copied_n by by rewrite E. rewrite <- E in Hl. pose proof (significant_lt (mpi_p y) k Hl Hk Hm). lia.
Qed.

(** A copy, with the limbs it takes. *)
Lemma copy_result X Y h : good h -> (X < top h)%nat -> (Y < top h)%nat ->
  wp (mbedtls_mpi_copy X Y) h (fun _ h' => top h' = top h /\ good h' /\ 
    new_value X (value (mem h Y)) h h' /\ (mpi_s (mem h' X) = mpi_s (mem h Y) \/ mag (mem h Y) = 0) /\
    ((0 < mpi_n (mem h Y))%nat -> (mpi_n (mem h X) <= mpi_n (mem h' X))%nat) /\
    (forall a, (a < top h)%nat -> a <> X -> mem h' a = mem h a)).
Proof.
  intros G HX HY. eapply wp_mono; [by apply copy_spec|]. intros ? h' [T' G' N' F']. cbn beta in N'.
  pose proof (proj1 (G Y HY)) as Hw. split; [done|]. split; [done|]. unfold new_value. rewrite N'.
  destruct (Nat.eqb_spec X Y) as [->|Hne].
  - split; [split; [done|]; intros; lia|]. split; [by left|]. split; [lia|done].
  - rewrite copied_value by done. split; [split; [done|]|split; [|split; [|done]]].
    + intros k Hk Hv. rewrite value_abs in Hv by done. by apply result_copied.
    + unfold copied. destruct (mpi_p (mem h Y)) eqn:E; [|by left]. right. unfold mag. by rewrite E.
    + intros Hn0. rewrite copied_n; [lia|]. intros E. unfold mpi_n in Hn0. rewrite E in Hn0. cbn in Hn0. lia.
Qed.

(** How the results may alias the operands: the quotient goes to an object of its
    own, or replaces a non-negative [A] when the remainder is not asked for. *)
Definition apart (h : heap) (Q R : option addr) (A B : addr) : Prop :=
  optional Q (fun Q => Some Q <> R /\ Q <> B /\ (Q = A -> mpi_s (mem h A) = 1 /\ R = None)).

Lemma wp_none {A} (m : addr -> mpi A) (d : mpi A) Q h P :
  (Q = None -> wp d h P) -> (forall a, Q = Some a -> wp (m a) h P) ->
  wp (match Q with Some a => m a | None => d end) h P.
Proof. destruct Q; auto. Qed.

Lemma result_trans X v h h1 h2 u : new_value X u h h1 -> Z.abs u = Z.abs v ->
  value (mem h2 X) = v -> mpi_n (mem h2 X) = mpi_n (mem h1 X) -> new_value X v h h2.
Proof. intros [_ Hr] E Ev En. split; [done|]. rewrite En, <- E. exact Hr. Qed.

Lemma quotient_spec h Q A B Z s : good h -> optional Q (fun Q => (Q < top h)%nat) -> (A < top h)%nat -> (B < top h)%nat ->
  (Z < top h)%nat -> mpi_s (mem h Z) = 1 -> mpi_s (mem h A) = s ->
  optional Q (fun Q => Q <> B /\ Q <> Z /\ (Q = A -> s = 1)) ->
  let q := s * mpi_s (mem h B) * mag (mem h Z) in
  wp (match Q with
      | Some Q => mbedtls_mpi_copy Q Z ;* let* a := load A in let* b := load B in set_s Q (mpi_s a * mpi_s b)
      | None => ret tt
      end) h (fun _ h' => top h' = top h /\ good h' /\ (forall a, (a < top h)%nat -> Some a <> Q -> mem h' a = mem h a) /\
        optional Q (fun Q => new_value Q q h h')).
Proof.
  intros G HQ HA HB HZ EZ Es Hap q. destruct Q as [Q|]; [|apply wp_ret; split_and!; done].
  cbn [optional] in *. destruct Hap as (HQB & HQZ & HQA). pose proof (mag_nonneg _ (proj1 (G Z HZ))) as Hm.
  eapply wp_chk; [apply copy_spec; done|]. intros _ h1 [T1 G1 N1 F1]. rewrite (proj2 (Nat.eqb_neq _ _)) in N1 by done.
  apply wp_load, wp_load. rewrite (F1 B) by done.
  assert (EA : mpi_s (mem h1 A) = s \/ mag (mem h Z) = 0).
  { destruct (decide (A = Q)) as [->|Hne]; [|left; by rewrite F1]. rewrite N1. unfold copied.
    destruct (mpi_p (mem h Z)) eqn:E; [right; unfold mag; by rewrite E|left]. cbn [mpi_s]. rewrite EZ. by rewrite HQA. }
  assert (Hs : mpi_s (mem h1 A) * mpi_s (mem h B) = 1 \/ mpi_s (mem h1 A) * mpi_s (mem h B) = -1).
  { destruct (G1 A ltac:(lia)) as [[_ [E|E]] _], (G B HB) as [[_ [E'|E']] _]; rewrite E, E'; lia. }
  assert (Hsq : Z.abs q = mag (mem h Z)).
  { unfold q. rewrite <- Es. destruct (G A HA) as [[_ [E|E]] _], (G B HB) as [[_ [E'|E']] _]; rewrite E, E'; lia. }
  eapply wp_mono; [apply set_s_spec; [done|lia|done]|]. intros _ h2 [T2 G2 N2 F2]. cbn beta in N2.
  split; [lia|]. split; [done|]. split. { intros a Ha Hn. rewrite F2, F1 by (congruence || lia). done. }
  unfold new_value. rewrite N2. unfold value, mag, mpi_n. cbn [mpi_s mpi_p]. fold (mag (mem h1 Q)). fold (mpi_n (mem h1 Q)).
  rewrite N1, copied_mag by apply G, HZ. split.
  - unfold q. destruct EA as [->|E0]; [done|]. rewrite E0. lia.
  - intros k Hk Hlt. rewrite Hsq in Hlt. apply result_copied; [apply G, HZ|done|done].
Qed.

Lemma remainder_spec h R A X c r s : good h -> optional R (fun R => (R < top h)%nat) -> (A < top h)%nat ->
  (X < top h)%nat -> (A < X)%nat -> optional R (fun R => (R < X)%nat) -> value (mem h X) = r * 2 ^ Z.of_nat c -> 0 <= r ->
  (R <> None -> mpi_s (mem h A) = s) -> (0 < mpi_n (mem h X))%nat ->
  wp (match R with
      | Some R =>
          mbedtls_mpi_shift_r X c ;* let* a := load A in set_s X (mpi_s a) ;* mbedtls_mpi_copy R X ;*
          let* r := load R in if mbedtls_mpi_cmp_int r 0 =? 0 then set_s R 1 else ret tt
      | None => ret tt
      end) h (fun _ h' => top h' = top h /\ good h' /\ (forall a, (a < X)%nat -> Some a <> R -> mem h' a = mem h a) /\
        optional R (fun R => new_value R (s * r) h h' /\ (mpi_n (mem h R) <= mpi_n (mem h' R))%nat)).
Proof.
  intros G HR HA HX HAX HRX Ev Hr Es HnX. destruct R as [R|]; [|apply wp_ret; split_and!; done]. cbn [optional] in *.
  specialize (Es ltac:(done)). pose proof (Z.pow_pos_nonneg 2 (Z.of_nat c) ltac:(lia) ltac:(lia)) as Hc.
  assert (Hs : s = 1 \/ s = -1) by (rewrite <- Es; apply G, HA).
  assert (Em : mag (mem h X) = r * 2 ^ Z.of_nat c) by (rewrite <- value_abs by (apply G; lia); rewrite Ev; nia).
  eapply wp_chk; [apply shift_r_spec; done|]. intros _ h1 [T1 G1 (_ & Em1 & En1) F1]. rewrite Em, Z.div_mul in Em1 by lia.
  apply wp_load. rewrite (F1 A), Es by lia.
  eapply wp_chk; [apply set_s_spec; [done|lia|done]|]. intros _ h2 [T2 G2 N2 F2]. cbn beta in N2.
  assert (Ev2 : value (mem h2 X) = s * r) by (rewrite N2; unfold value, mag; cbn [mpi_s mpi_p]; fold (mag (mem h1 X)); by rewrite Em1).
  assert (ER2 : mem h2 R = mem h R) by by frames.
  eapply wp_chk; [apply (copy_result R X h2); [done|lia|lia]|]. intros _ h3 (T3 & G3 & HR3 & _ & K3 & F3). rewrite Ev2 in HR3.
  assert (K : (mpi_n (mem h R) <= mpi_n (mem h3 R))%nat).
  { rewrite <- ER2. apply K3. rewrite N2. change (0 < mpi_n (mem h1 X))%nat. lia. }
  apply wp_load. pose proof HR3 as [Ev3 _]. rewrite cmp_int_spec by (done || apply G3; lia). rewrite ord_eqb, Ev3.
  assert (Hframe : forall a, (a < X)%nat -> Some a <> Some R -> mem h3 a = mem h a).
  { intros a Ha Hn. rewrite F3, F2, F1 by (congruence || lia). done. }
  assert (HR' : new_value R (s * r) h h3) by (destruct HR3 as [E Hk]; split; [done|]; by rewrite <- ER2).
  destruct (Z.eqb_spec (s * r) 0) as [E0|_].
  - eapply wp_mono; [apply set_s_spec; [done|lia|by left]|]. intros _ h4 [T4 G4 N4 F4]. cbn beta in N4.
    split; [lia|]. split; [done|]. split; [intros a Ha Hn; rewrite F4 by (congruence || lia); by apply Hframe|].
    split; [|rewrite N4; exact K]. eapply result_trans; [exact HR'|done| |by rewrite N4]. rewrite N4. unfold value, mag. cbn [mpi_s mpi_p].
    unfold value, mag in Ev3. destruct (G3 R ltac:(lia)) as [[_ [E|E]] _]; rewrite E in Ev3; lia.
  - apply wp_ret. split_and!; try done; lia.
Qed.

(** The memory with the five locals. *)
Definition enter5 (h : heap) : heap := enter (enter (enter (enter (enter h)))).

Lemma enter5_same h a : (a < top h)%nat -> mem (enter5 h) a = mem h a.
Proof. intros Ha. unfold enter5. rewrite !enter_same; [done|cbn; lia..]. Qed.

Lemma enter5_locals h : mem (enter5 h) (top h) = mbedtls_mpi_init /\ mem (enter5 h) (S (top h)) = mbedtls_mpi_init.
Proof.
  unfold enter5. split.
  - rewrite !(enter_same _ (top h)) by (cbn; lia). apply upd_same.
  - rewrite !(enter_same _ (S (top h))) by (cbn; lia). apply upd_same.
Qed.

Lemma wp_locals5 {A} (body : addr -> addr -> addr -> addr -> addr -> mpi A) h Q : let X := top h in
  wp (body X (S X) (S (S X)) (S (S (S X))) (S (S (S (S X))))) (enter5 h) (fun v h' => Q v (leave h h')) ->
  wp (local (fun X => local (fun Y => local (fun Z => local (fun T1 => local (fun T2 => body X Y Z T1 T2)))))) h Q.
Proof. intros X Hb. do 5 apply wp_local. exact Hb. Qed.

Lemma good_enter5 h : good h -> good (enter5 h).
Proof. intros G. by do 5 apply good_enter. Qed.

(** |A| < |B| *)
Lemma below_spec Q R A B h : good h -> optional Q (fun Q => (Q < top h)%nat) -> optional R (fun R => (R < top h)%nat) ->
  (A < top h)%nat -> apart h Q R A B ->
  wp ((match Q with Some Q => mbedtls_mpi_lset Q 0 | None => ret tt end) ;*
      (match R with Some R => mbedtls_mpi_copy R A | None => ret tt end)) h
     (fun _ h' => changes Q R 0 (value (mem h A)) (0 < mpi_n (mem h A))%nat h h').
Proof.
  intros G HQ HR HA Hap.
  eapply wp_chk with (R := fun _ h1 => top h1 = top h /\ good h1 /\ (forall a, (a < top h)%nat -> Some a <> Q -> mem h1 a = mem h a) /\
    optional Q (fun Q => new_value Q 0 h h1)).
  { destruct Q as [Q|]; [|apply wp_ret; split_and!; done].
    eapply wp_mono; [apply (lset_int_spec Q 0 h); done|]. intros _ h1 [T1 G1 (Ev & _ & _ & En) F1].
    split; [done|]. split; [done|]. split; [intros a Ha Hn; apply F1; congruence|]. split; [done|]. intros k Hk _. lia. }
  intros _ h1 (T1 & G1 & F1 & HQ1). destruct R as [R|].
  - cbn [optional] in HR. assert (HAQ : Some A <> Q).
    { intros <-. cbn [optional apart] in Hap. destruct Hap as (_ & _ & Hap). by destruct (Hap eq_refl). }
    assert (HRQ : Some R <> Q) by (intros <-; cbn [apart optional] in Hap; by destruct Hap).
    eapply wp_mono; [apply (copy_result R A h1); [done|lia|lia]|]. intros _ h2 (T2 & G2 & HR2 & _ & K2 & F2).
    constructor; [lia|done| | | |].
    + intros a Ha Hn Hn'. rewrite F2, F1 by (congruence || lia). done.
    + destruct Q as [Q|]; [|done]. cbn [optional] in *. unfold new_value in *. rewrite F2 by (congruence || lia). done.
    + cbn [optional]. rewrite (F1 A) in HR2 by (lia || done). unfold new_value in *. by rewrite (F1 R) in HR2 by (lia || done).
    + cbn [optional]. by rewrite (F1 A), (F1 R) in K2 by (lia || done).
  - apply wp_ret. constructor; try done. intros a Ha Hn _. by apply F1.
Qed.

Lemma div_mpi_spec Q R A B h : good h -> optional Q (fun Q => (Q < top h)%nat) -> optional R (fun R => (R < top h)%nat) ->
  (A < top h)%nat -> (B < top h)%nat -> apart h Q R A B -> value (mem h B) <> 0 ->
  (mpi_n (mem h A) + 2 <= MBEDTLS_MPI_MAX_LIMBS)%nat ->
  wp (mbedtls_mpi_div_mpi Q R A B) h (fun _ h' =>
    changes Q R (Z.quot (value (mem h A)) (value (mem h B))) (Z.rem (value (mem h A)) (value (mem h B))) (0 < mpi_n (mem h A))%nat h h').
Proof.
  intros G HQ HR HA HB Hap HB0 Hsz. unfold mbedtls_mpi_div_mpi. apply wp_load.
  destruct (G A HA) as [WA _], (G B HB) as [WB _]. rewrite cmp_int_spec by done. rewrite ord_eqb, (proj2 (Z.eqb_neq _ _)) by done.
  assert (HmB : mag (mem h B) <> 0) by (unfold value in HB0; intros E; rewrite E in HB0; lia).
  pose proof (mag_nonneg _ WB). pose proof (mag_nonneg _ WA). destruct (quot_signs _ _ WA WB HmB) as [Eq Er]. rewrite Eq, Er.
  apply wp_load, wp_locals5. rewrite cmp_abs_spec by done. rewrite ord_ltb. set (X := top h) in *.
  pose proof (good_enter5 h G) as G5. set (h5 := enter5 h) in *.
  assert (Top5 : top h5 = S (S (S (S (S X))))) by done.
  assert (F5 : forall a, (a < X)%nat -> mem h5 a = mem h a) by apply enter5_same.
  assert (Hleave : forall h' q r, top h' = top h5 -> good h' ->
      (forall a, (a < X)%nat -> Some a <> Q -> Some a <> R -> mem h' a = mem h5 a) ->
      optional Q (fun Q => new_value Q q h5 h') -> optional R (fun R => new_value R r h5 h') ->
      optional R (fun R => (0 < mpi_n (mem h A))%nat -> (mpi_n (mem h5 R) <= mpi_n (mem h' R))%nat) ->
      changes Q R q r (0 < mpi_n (mem h A))%nat h (leave h h')).
  { intros h' q r T' G' F' Q' R' K'. constructor.
    - done.
    - apply good_leave; [done|]. rewrite T', Top5. unfold X. lia.
    - intros a Ha N1 N2. cbn [leave mem]. rewrite F' by done. by apply F5.
    - destruct Q as [Q|]; [|done]. cbn [optional] in *. unfold new_value in *. cbn [leave mem]. by rewrite F5 in Q'.
    - destruct R as [R|]; [|done]. cbn [optional] in *. unfold new_value in *. cbn [leave mem]. by rewrite F5 in R'.
    - destruct R as [R|]; [|done]. cbn [optional] in *. cbn [leave mem]. by rewrite F5 in K'. }
  assert (HQ5 : optional Q (fun Q => (Q < top h5)%nat)) by (destruct Q; cbn [optional] in *; lia).
  assert (HR5 : optional R (fun R => (R < top h5)%nat)) by (destruct R; cbn [optional] in *; lia).
  destruct (Z.ltb_spec (mag (mem h A)) (mag (mem h B))) as [Hlt|Hge].
  { eapply wp_mono.
    - apply (below_spec Q R A B h5); [done..|lia|]. unfold apart in *. by rewrite F5.
    - intros _ h' [T' G' F' Q' R' K']. rewrite F5 in R', K' by done. rewrite Z.div_small, Z.mod_small by lia. rewrite Z.mul_0_r.
      apply Hleave; try done. intros a Ha. apply F'. lia. }
  destruct (enter5_locals h) as [EX5 EY5]. fold h5 X in EX5, EY5.
  eapply wp_chk; [apply (divide_spec X h5 A B); rewrite ?F5 by done; done || lia|].
  intros c h6 ([T6 _ G6 _ _ F6] & EsZ & EnX & EZ & EX). rewrite !F5 in EZ, EX by done.
  set (q := mag (mem h A) / mag (mem h B)) in *. set (r := mag (mem h A) mod mag (mem h B)) in *.
  assert (Hr : 0 <= r) by (apply Z.mod_pos_bound; lia).
  eapply wp_chk; [apply (quotient_spec h6 Q A B (S (S X)) (mpi_s (mem h A))); try done; try lia|].
  - destruct Q; cbn [optional] in *; lia.
  - by rewrite F6, F5 by lia.
  - destruct Q as [Q|]; [|done]. cbn [optional apart] in *. destruct Hap as (_ & N1 & N2). split; [done|]. split; [lia|]. intros E. by apply N2.
  - rewrite EZ, (F6 B), (F5 B) by lia. intros _ h7 (T7 & G7 & F7 & Q7).
    assert (HXQ : Some X <> Q) by (destruct Q; cbn [optional] in *; intros [= ->]; lia).
    eapply wp_mono; [apply (remainder_spec h7 R A X c r (mpi_s (mem h A))); try done; try lia|].
    + destruct R; cbn [optional] in *; lia.
    + by rewrite F7 by (done || lia).
    + intros HRn. rewrite F7, F6, F5 by (lia || (intros <-; cbn [optional apart] in Hap; destruct Hap as (_ & _ & Hap); by destruct (Hap eq_refl))).
      done.
    + rewrite F7; [done|lia|congruence].
    + intros _ h8 (T8 & G8 & F8 & R8). apply Hleave; [congruence|done| | | |].
      * intros a Ha N1 N2. by rewrite F8, F7, F6 by (done || lia).
      * destruct Q as [Q|]; [|done]. cbn [optional] in *. assert (Some Q <> R) by (by destruct Hap). unfold new_value in *.
        rewrite (F8 Q) by (done || lia). by rewrite F6 in Q7 by lia.
      * destruct R as [R|]; [|done]. cbn [optional] in *. assert (Some R <> Q) by (intros <-; cbn [optional apart] in Hap; by destruct Hap).
        unfold new_value in *. rewrite (F7 R), (F6 R) in R8 by (done || lia). apply R8.
      * destruct R as [R|]; [|done]. cbn [optional] in *. assert (Some R <> Q) by (intros <-; cbn [optional apart] in Hap; by destruct Hap).
        rewrite (F7 R), (F6 R) in R8 by (done || lia). intros _. apply R8.
Qed.

Lemma add_until_positive_spec R B h fuel : good h -> (R < top h)%nat -> (B < top h)%nat -> R <> B ->
  0 < value (mem h B) -> - value (mem h B) < value (mem h R) < value (mem h B) ->
  let v := value (mem h R) mod value (mem h B) in
  writes (add_until_positive (S (S fuel)) R B) R h (fun x => value x = v /\
    (forall k, (0 < k)%nat -> value (mem h B) < pow k -> (mpi_n x <= Nat.max (mpi_n (mem h R)) k)%nat) /\
    ((0 < mpi_n (mem h R))%nat -> (mpi_n (mem h R) <= mpi_n x)%nat)).
Proof.
  intros G HR HB Hne Hb Hr v. cbn [add_until_positive]. apply wp_load.
  rewrite cmp_int_spec by (done || apply G; done). rewrite ord_ltb.
  destruct (Z.ltb_spec (value (mem h R)) 0) as [Hneg|Hpos].
  2: { apply writes_ret; [done|]. split; [symmetry; apply Z.mod_small; lia|]. split; [intros; lia|done]. }
  assert (Hw : mag (mem h B) = value (mem h B)) by (rewrite <- value_abs by (apply G; done); lia).
  assert (Hmax : value (mem h B) < pow MBEDTLS_MPI_MAX_LIMBS).
  { rewrite <- Hw. destruct (G B HB) as [Hwf Hn]. pose proof (tight_lt _ Hwf). pose proof (pow_mono _ _ Hn). lia. }
  assert (Ev : value (mem h R) + value (mem h B) = v).
  { unfold v. symmetry. rewrite <- (Z.mod_unique _ _ (-1) (value (mem h R) + value (mem h B))); [done|left; lia|lia]. }
  eapply writes_then; [apply (add_mpi_spec R R B h); try done; lia|].
  intros _ h1 [T1 G1 [N1 [Hc Hk]] F1]. rewrite Ev in N1. apply wp_load.
  rewrite cmp_int_spec by (done || apply G1; lia). rewrite ord_ltb, (proj2 (Z.ltb_ge _ _)) by lia.
  apply writes_ret; [done|]. split; [done|]. split.
  - intros k Hk0 Hlt. apply Hc; [done|].
    rewrite <- (value_abs (mem h R)), <- (value_abs (mem h1 R)) by (apply G || apply G1; lia). lia.
  - intros Hn. apply Hk; [done|]. unfold mag, mpi_n in *. destruct (mpi_p (mem h B)); cbn in *; lia.
Qed.

Lemma sub_until_below_spec R B h fuel : good h -> (R < top h)%nat -> (B < top h)%nat -> value (mem h R) < value (mem h B) ->
  writes (sub_until_below (S fuel) R B) R h (fun x => x = mem h R).
Proof.
  intros G HR HB Hlt. cbn [sub_until_below]. apply wp_load, wp_load. rewrite cmp_mpi_spec by (apply G; done).
  rewrite ord_geb, (proj2 (Z.leb_gt _ _)) by lia. by apply writes_ret.
Qed.

Lemma mod_mpi_spec R A B h : good h -> (R < top h)%nat -> (A < top h)%nat -> (B < top h)%nat -> R <> B ->
  0 < value (mem h B) -> (mpi_n (mem h A) + 2 <= MBEDTLS_MPI_MAX_LIMBS)%nat ->
  writes (mbedtls_mpi_mod_mpi R A B) R h (fun x => value x = value (mem h A) mod value (mem h B) /\
    (forall k, (0 < k)%nat -> value (mem h B) < pow k -> (mpi_n x <= Nat.max (mpi_n (mem h R)) k)%nat) /\
    ((0 < mpi_n (mem h A))%nat -> (0 < mpi_n (mem h R))%nat -> (mpi_n (mem h R) <= mpi_n x)%nat)).
Proof.
  intros G HR HA HB Hne Hb Hsz. unfold mbedtls_mpi_mod_mpi. apply wp_load.
  rewrite cmp_int_spec by (done || apply G; done). rewrite ord_ltb, (proj2 (Z.ltb_ge _ _)) by lia.
  pose proof (Z.rem_bound_abs (value (mem h A)) (value (mem h B)) ltac:(lia)) as Hrem. set (r := Z.rem _ _) in *.
  eapply writes_then with (R := fun x => value x = r /\
    (forall k, (0 < k)%nat -> value (mem h B) < pow k -> (mpi_n x <= Nat.max (mpi_n (mem h R)) k)%nat) /\
    ((0 < mpi_n (mem h A))%nat -> (mpi_n (mem h R) <= mpi_n x)%nat)).
  { eapply wp_mono; [apply (div_mpi_spec None (Some R) A B h); try done; lia|].
    intros _ h1 [T1 G1 F1 _ [E1 Hc] K1]. constructor; try done; [|intros a Ha Hn; apply F1; congruence]. split; [done|].
    split; [|exact K1]. intros k Hk Hlt. apply Hc; [done|]. fold r. lia. }
  intros _ h1 [T1 G1 (N1 & C1 & K1) F1].
  eapply writes_then; [apply (add_until_positive_spec R B h1 0); try done; try lia; rewrite ?N1, ?(F1 B) by lia; lia|].
  rewrite N1, (F1 B) by lia.
  assert (Em : r mod value (mem h B) = value (mem h A) mod value (mem h B)).
  { pose proof (Z.quot_rem (value (mem h A)) (value (mem h B)) ltac:(lia)) as Eq. fold r in Eq.
    replace r with (value (mem h A) + (- Z.quot (value (mem h A)) (value (mem h B))) * value (mem h B)) by lia. apply Z_mod_plus_full. }
  rewrite Em. intros _ h2 [T2 G2 (N2 & C2 & K2) F2]. pose proof (Z.mod_pos_bound (value (mem h A)) (value (mem h B)) Hb).
  eapply writes_mono; [apply (sub_until_below_spec R B h2); try done; try lia; rewrite (F2 B), (F1 B) by lia; lia|].
  intros x ->. split; [done|]. split; [intros k Hk Hlt; specialize (C1 k Hk Hlt); specialize (C2 k Hk Hlt); lia|].
  intros H1 H2. specialize (K1 H1). specialize (K2 ltac:(lia)). lia.
Qed.

Lemma div_int_spec Q R A b h : good h -> optional Q (fun Q => (Q < top h)%nat) -> optional R (fun R => (R < top h)%nat) ->
  (A < top h)%nat -> apart h Q R A (top h) -> b <> 0 -> Z.abs b < base ->
  (mpi_n (mem h A) + 2 <= MBEDTLS_MPI_MAX_LIMBS)%nat ->
  wp (mbedtls_mpi_div_int Q R A b) h (fun _ h' =>
    changes Q R (Z.quot (value (mem h A)) b) (Z.rem (value (mem h A)) b) (0 < mpi_n (mem h A))%nat h h').
Proof.
  intros G HQ HR HA Hap Hb0 Hb Hsz. unfold mbedtls_mpi_div_int, with_constant. apply wp_local.
  eapply wp_chk; [apply constant_spec; [done|apply of_int_wf|unfold MBEDTLS_MPI_MAX_LIMBS; cbn; lia]|].
  intros _ h1 (T1 & G1 & N1 & F1).
  eapply wp_mono; [apply (div_mpi_spec Q R A (top h) h1); try done; try lia|].
  - destruct Q; cbn [optional] in *; lia.
  - destruct R; cbn [optional] in *; lia.
  - unfold apart in *. by rewrite F1.
  - by rewrite N1, of_int_value.
  - by rewrite F1.
  - rewrite N1, of_int_value, F1 by done. intros _ h2 [T2 G2 F2 Q2 R2 K2]. constructor.
    + done.
    + apply good_leave; [done|lia].
    + intros a Ha Na Nb. cbn [leave mem]. rewrite F2 by (done || lia). by apply F1.
    + destruct Q as [Q|]; [|done]. cbn [optional] in *. unfold new_value in *. cbn [leave mem]. by rewrite F1 in Q2.
    + destruct R as [R|]; [|done]. cbn [optional] in *. unfold new_value in *. cbn [leave mem]. by rewrite F1 in R2.
    + destruct R as [R|]; [|done]. cbn [optional leave mem] in *. by rewrite (F1 R) in K2.
Qed.

End Memory.

(** ** Remainders by of_int numbers *)

Lemma mod_limb_spec b x y : 0 <= y < b -> b <= 2 ^ 32 -> fits 64 x -> mod_limb b x y = (y * base + x) mod b.
Proof.
  intros Hy Hb Hx. unfold mod_limb, fits in *.
  assert (Hhalf : forall y z, 0 <= y < b -> 0 <= z < 2 ^ 32 ->
    let t := Z.lor (u64 (Z.shiftl y 32)) z in
    u64 (t - u64 (t / b * b)) = (y * 2 ^ 32 + z) mod b).
  { intros y0 z Hy0 Hz t. assert (Et : t = y0 * 2 ^ 32 + z).
    { unfold t. rewrite wrap_id; [by apply lor_shift|]. rewrite Z.shiftl_mul_pow2 by done. unfold fits. nia. }
    pose proof (Z.div_mod t b ltac:(lia)) as Ed. pose proof (Z.mod_pos_bound t b ltac:(lia)).
    assert (0 <= t / b) by (apply Z.div_pos; lia). assert (Ht : 0 <= t < 2 ^ 64) by nia.
    rewrite (wrap_id 64 (t / b * b)) by (unfold fits; nia). rewrite wrap_id by (unfold fits; nia). rewrite <- Et. lia. }
  cbv zeta in *. rewrite Z.shiftr_div_pow2 by done.
  assert (Hhi : 0 <= x / 2 ^ 32 < 2 ^ 32) by (split; [apply Z.div_pos; lia|apply Z.div_lt_upper_bound; lia]).
  rewrite (Hhalf y (x / 2 ^ 32)) by done.
  assert (Elo : Z.shiftr (u64 (Z.shiftl x 32)) 32 = x mod 2 ^ 32).
  { rewrite Z.shiftl_mul_pow2, Z.shiftr_div_pow2 by done. unfold wrap. change (2 ^ 64) with (2 ^ 32 * 2 ^ 32).
    rewrite Zmult_mod_distr_r. by apply Z.div_mul. }
  rewrite Elo, Hhalf by (apply Z.mod_pos_bound; lia).
  rewrite (Z.div_mod x (2 ^ 32) ltac:(lia)) at 3. unfold base. change (2 ^ 64) with (2 ^ 32 * 2 ^ 32).
  rewrite <- Zplus_mod_idemp_l, <- (Zmult_mod_idemp_l ((y * 2 ^ 32 + x / 2 ^ 32) mod b)), Zmod_mod, Zmult_mod_idemp_l, Zplus_mod_idemp_l.
  f_equal. lia.
Qed.

Lemma mod_limbs_spec b p : 0 < b <= 2 ^ 32 -> limbs p -> mod_limbs b p = val p mod b.
Proof.
  intros Hb. induction p as [|x p IH]; [done|]. intros [Hx Hp]%limbs_cons. cbn [mod_limbs val]. rewrite IH by done.
  pose proof (Z.mod_pos_bound (val p) b ltac:(lia)). rewrite mod_limb_spec by (done || lia).
  rewrite <- Zplus_mod_idemp_l, Zmult_mod_idemp_l, Zplus_mod_idemp_l. f_equal. lia.
Qed.

(** The remainder is right for divisors of at most 32 bits. *)
Lemma mod_int_spec A b : wf A -> 0 < b <= 2 ^ 32 -> (0 < mpi_n A)%nat ->
  mbedtls_mpi_mod_int A b = Some (inl (value A mod b)).
Proof.
  intros [Hl Hs] Hb Hn. unfold mbedtls_mpi_mod_int.
  rewrite (proj2 (Z.eqb_neq b 0)), (proj2 (Z.ltb_ge b 0)) by lia.
  destruct (Z.eqb_spec b 1) as [->|H1]; [by rewrite Z.mod_1_r|].
  destruct (Z.eqb_spec b 2) as [->|H2].
  - unfold value, mag. destruct (mpi_p A) as [|x p] eqn:E; [unfold mpi_n in Hn; rewrite E in Hn; cbn in Hn; lia|].
    cbn [head fmap option_fmap option_map val]. do 2 f_equal. change 1 with (Z.ones 1) at 1. rewrite Z.land_ones by done. change (2 ^ 1) with 2.
    rewrite <- (Z.mod_add x (2 ^ 63 * val p) 2) by done. replace (x + 2 ^ 63 * val p * 2) with (x + base * val p) by (unfold base; lia).
    set (v := x + base * val p). destruct Hs as [->| ->]; [f_equal; lia|].
    replace (-1 * v) with (v + (- v) * 2) by lia. by rewrite Z.mod_add.
  - rewrite mod_limbs_spec by done. do 2 f_equal. unfold value, mag. pose proof (Z.mod_pos_bound (val (mpi_p A)) b ltac:(lia)) as Hr.
    destruct Hs as [-> | ->]; cbn [Z.ltb Z.compare andb]; [f_equal; lia|].
    replace (-1 * val (mpi_p A)) with (- val (mpi_p A)) by lia.
    destruct (Z.eqb_spec (val (mpi_p A) mod b) 0) as [E|E]; cbn [negb]; [rewrite E; symmetry; by apply Z_mod_zero_opp_full|].
    rewrite wrap_id by (unfold fits; lia). symmetry. apply Z_mod_nz_opp_full. done.
Qed.
