(* ===== verification/MpiMont.v ===== *)
(** * MpiMont: Montgomery multiplication and modular exponentiation

    [mpi_montmul] works on the limbs of [A] and of the scratch object [T];
    [mbedtls_mpi_exp_mod] is the sliding-window exponentiation on top of it. *)
From S2P Require Import Prelude.
From S2P Require Import Limbs.
From S2P Require Import Mpi.
From S2P Require Import MpiBits.
From S2P Require Import MpiArith.
From S2P Require Import MpiDiv.

Open Scope C.

Definition MBEDTLS_MPI_WINDOW_SIZE : nat := 6.

(** One turn of [for( i = biL; i >= 8; i /= 2 )]; [i] is 64, 32, 16 and 8. *)
Definition newton (m0 x : Z) : Z := u64 (x * u64 (2 - u64 (m0 * x))).

Definition mpi_montg_init (m0 : Z) : Z :=
  let x := u64 (m0 + Z.shiftl (Z.land (u64 (m0 + 2)) 4) 1) in
  let x := newton m0 (newton m0 (newton m0 (newton m0 x))) in
  u64 (Z.lnot x + 1).

(** One turn of the loop of [mpi_montmul]; [t] is [T->p], [d] is [T->p + i]. *)
Definition mont_step (n m : nat) (a b N : list Z) (mm : Z) (i : nat) (t : list Z) : option (list Z) :=
  let d := drop i t in
  match a !! i, d !! 0%nat, b !! 0%nat with
  | Some u0, Some d0, Some b0 =>
      let u1 := u64 (u64 (d0 + u64 (u0 * b0)) * mm) in
      match mpi_mul_hlp m b d u0 with
      | Some d =>
          match mpi_mul_hlp n N d u1 with
          | Some d =>
              if (n + 2 <? length d)%nat then
                Some (take i t ++ <[(n + 2)%nat := 0]> (<[0%nat := u0]> d))
              else None
          | None => None
          end
      | None => None
      end
  | _, _, _ => None
  end.

Fixpoint mont_steps (k n m : nat) (a b N : list Z) (mm : Z) (i : nat) (t : list Z) : option (list Z) :=
  match k with
  | O => Some t
  | S k => match mont_step n m a b N mm i t with Some t => mont_steps k n m a b N mm (S i) t | None => None end
  end.

Definition window_size (i : nat) : nat :=
  let wsize := if (671 <? i)%nat then 6%nat else if (239 <? i)%nat then 5%nat
    else if (79 <? i)%nat then 4%nat else if (23 <? i)%nat then 3%nat else 1%nat in
  if (MBEDTLS_MPI_WINDOW_SIZE <? wsize)%nat then MBEDTLS_MPI_WINDOW_SIZE else wsize.

Section Memory.
Context `{Callocs}.

Definition montmul_by (A : addr) (b : mbedtls_mpi) (N : addr) (mm : Z) (T : addr) : mpi unit :=
  let* t := load T in
  let* N_ := load N in
  let n := mpi_n N_ in
  if (mpi_n t <? n + 1)%nat || (mpi_n t =? 0)%nat then fail MBEDTLS_ERR_MPI_BAD_INPUT_DATA
  else
    let* a := load A in
    let m := if (mpi_n b <? n)%nat then mpi_n b else n in
    let* t := valid (mont_steps n n m (mpi_p a) (mpi_p b) (mpi_p N_) mm 0 (replicate (mpi_n t) 0)) in
    set_p T t ;*
    let d := drop n t in
    (if (n + 1 <=? length d)%nat && (n + 1 <=? mpi_n a)%nat
     then set_p A (take (n + 1) d ++ drop (n + 1) (mpi_p a)) else bad) ;*
    let* a := load A in
    if 0 <=? mbedtls_mpi_cmp_abs a N_ then
      let* p := valid (mpi_sub_hlp n (mpi_p N_) (mpi_p a)) in set_p A p
    else
      let* p := valid (mpi_sub_hlp n (mpi_p a) t) in set_p T p.

Definition mpi_montmul (A B N : addr) (mm : Z) (T : addr) : mpi unit :=
  let* b := load B in montmul_by A b N mm T.

(** [U.n = U.s = 1; U.p = &z] *)
Definition mpi_montred (A N : addr) (mm : Z) (T : addr) : mpi unit := montmul_by A (Mpi 1 [1]) N mm T.

Fixpoint repeat (k : nat) (m : mpi unit) : mpi unit :=
  match k with
  | O => ret tt
  | S k => m ;* repeat k m
  end.

(** An array of [k] local objects. [W] is zeroed and not initialised: the sign of
    an entry is 0, not 1, until it is first written, by a copy or a division,
    which sets it. *)
Definition local_array {A} (k : nat) (body : addr -> mpi A) : mpi A :=
  fun h =>
    let T := top h in
    match body T (Heap (fun a => if decide (T <= a < T + k)%nat then mbedtls_mpi_init else mem h a) (T + k) (calls h)) with
    | Ok v h => Ok v (Heap (mem h) T (calls h))
    | Err e h => Err e (Heap (mem h) T (calls h))
    | Bad => Bad
    end.

(** R^2 mod N, computed or taken from an earlier call *)
Definition precompute (RR N : addr) (_RR : option addr) : mpi unit :=
  let* known := match _RR with Some r => load r | None => ret mbedtls_mpi_init end in
  match mpi_p known with
  | [] =>
      mbedtls_mpi_lset RR 1 ;*
      let* n := load N in
      mbedtls_mpi_shift_l RR (mpi_n n * 2 * 64) ;*
      mbedtls_mpi_mod_mpi RR RR N ;*
      match _RR with Some r => let* rr := load RR in store r rr | None => ret tt end
  | _ => store RR known
  end.

(** [for( i = j + 1; i < ( one << wsize ); i++ )] *)
Fixpoint powers (count i : nat) (W N : addr) (mm : Z) (T : addr) : mpi unit :=
  match count with
  | O => ret tt
  | S count =>
      let* n := load N in
      mbedtls_mpi_grow (W + i) (mpi_n n + 1) ;*
      mbedtls_mpi_copy (W + i) (W + (i - 1)) ;*
      mpi_montmul (W + i) (W + 1) N mm T ;*
      powers count (S i) W N mm T
  end.

Definition power_table (wsize : nat) (W N : addr) (mm : Z) (T : addr) : mpi unit :=
  if (1 <? wsize)%nat then
    let j := (2 ^ (wsize - 1))%nat in
    let* n := load N in
    mbedtls_mpi_grow (W + j) (mpi_n n + 1) ;*
    mbedtls_mpi_copy (W + j) (W + 1) ;*
    repeat (wsize - 1) (mpi_montmul (W + j) (W + j) N mm T) ;*
    powers (2 ^ wsize - (j + 1)) (j + 1) W N mm T
  else ret tt.

(** [while( 1 )]: a turn for every bit of [E]; what is left of the last window *)
Fixpoint exponent_loop (fuel : nat) (wsize : nat) (X E N W : addr) (mm : Z) (T : addr)
    (nblimbs bufsize nbits : nat) (wbits : Z) (state : Z) : mpi (nat * Z) :=
  match fuel with
  | O => bad
  | S fuel =>
      if (bufsize =? 0)%nat && (nblimbs =? 0)%nat then ret (nbits, wbits)
      else
        let nblimbs := if (bufsize =? 0)%nat then (nblimbs - 1)%nat else nblimbs in
        let bufsize := ((if (bufsize =? 0)%nat then 64 else bufsize) - 1)%nat in
        let* l := get_limb E nblimbs in
        let ei := Z.land (Z.shiftr l (Z.of_nat bufsize)) 1 in
        if (ei =? 0) && (state =? 0) then exponent_loop fuel wsize X E N W mm T nblimbs bufsize nbits wbits state
        else if (ei =? 0) && (state =? 1) then
          mpi_montmul X X N mm T ;*
          exponent_loop fuel wsize X E N W mm T nblimbs bufsize nbits wbits state
        else
          let state := 2 in
          let nbits := (nbits + 1)%nat in
          let wbits := Z.lor wbits (Z.shiftl ei (Z.of_nat (wsize - nbits))) in
          if (nbits =? wsize)%nat then
            repeat wsize (mpi_montmul X X N mm T) ;*
            mpi_montmul X (W + Z.to_nat wbits) N mm T ;*
            exponent_loop fuel wsize X E N W mm T nblimbs bufsize 0 0 (state - 1)
          else exponent_loop fuel wsize X E N W mm T nblimbs bufsize nbits wbits state
  end.

(** The bits that do not fill a window. *)
Fixpoint remaining_bits (nbits wsize : nat) (X N W : addr) (mm : Z) (T : addr) (wbits : Z) : mpi unit :=
  match nbits with
  | O => ret tt
  | S nbits =>
      mpi_montmul X X N mm T ;*
      let wbits := u64 (Z.shiftl wbits 1) in
      (if Z.land wbits (Z.shiftl 1 (Z.of_nat wsize)) =? 0 then ret tt else mpi_montmul X (W + 1) N mm T) ;*
      remaining_bits nbits wsize X N W mm T wbits
  end.

(** From the table of powers to the last reduction. *)
Definition exponentiate (wsize : nat) (X E N W : addr) (mm : Z) (T : addr) : mpi unit :=
  power_table wsize W N mm T ;*
  let* e := load E in
  let* rest := exponent_loop (mpi_n e * 64 + 1) wsize X E N W mm T (mpi_n e) 0 0 0 0 in
  remaining_bits (fst rest) wsize X N W mm T (snd rest) ;*
  mpi_montred X N mm T.

Definition mbedtls_mpi_exp_mod (X A E N : addr) (_RR : option addr) : mpi unit :=
  let* n := load N in
  if mbedtls_mpi_cmp_int n 0 <=? 0 then fail MBEDTLS_ERR_MPI_BAD_INPUT_DATA
  else
    let* n0 := get_limb N 0 in
    if Z.land n0 1 =? 0 then fail MBEDTLS_ERR_MPI_BAD_INPUT_DATA
    else
      let* e := load E in
      if mbedtls_mpi_cmp_int e 0 <? 0 then fail MBEDTLS_ERR_MPI_BAD_INPUT_DATA
      else
        let mm := mpi_montg_init n0 in
        let wsize := window_size (mbedtls_mpi_bitlen e) in
        local (fun RR => local (fun T => local (fun Apos => local_array (2 * 2 ^ MBEDTLS_MPI_WINDOW_SIZE) (fun W =>
          let j := (mpi_n n + 1)%nat in
          mbedtls_mpi_grow X j ;*
          mbedtls_mpi_grow (W + 1) j ;*
          mbedtls_mpi_grow T (j * 2) ;*
          let* a := load A in
          let neg := mpi_s a =? -1 in
          (if neg then mbedtls_mpi_copy Apos A ;* set_s Apos 1 else ret tt) ;*
          let A := if neg then Apos else A in
          precompute RR N _RR ;*
          let* a := load A in
          let* n := load N in
          (if 0 <=? mbedtls_mpi_cmp_mpi a n then mbedtls_mpi_mod_mpi (W + 1) A N else mbedtls_mpi_copy (W + 1) A) ;*
          mpi_montmul (W + 1) RR N mm T ;*
          mbedtls_mpi_copy X RR ;*
          mpi_montred X N mm T ;*
          exponentiate wsize X E N W mm T ;*
          let* e := load E in
          let* odd := if (mpi_n e =? 0)%nat || negb neg then ret false
                      else let* e0 := get_limb E 0 in ret (negb (Z.land e0 1 =? 0)) in
          if odd : bool then set_s X (-1) ;* mbedtls_mpi_add_mpi X N X else ret tt)))).

End Memory.
