(* ===== verification/MpiMontFacts.v ===== *)
(** * MpiMontFacts: Montgomery multiplication *)
From Stdlib Require Import Znumtheory.
From S2P Require Import Prelude.
From S2P Require Import Limbs.
From S2P Require Import Mpi.
From S2P Require Import MpiBits.
From S2P Require Import MpiFacts.
From S2P Require Import MpiBitsFacts.
From S2P Require Import MpiArith.
From S2P Require Import MpiDiv.
From S2P Require Import MpiDivFacts.
From S2P Require Import MpiQuotient.
From S2P Require Import MpiMont.

Open Scope C.

(** ** The inverse of the low limb *)

Lemma u64_divide k z c : 0 <= k <= 64 -> (2 ^ k | z * c - 1) -> (2 ^ k | u64 z * c - 1).
Proof.
  intros Hk [q Hq]. exists (q - 2 ^ (64 - k) * (z / 2 ^ 64) * c). unfold wrap. pose proof (Z.div_mod z (2 ^ 64) ltac:(lia)) as Ed.
  assert (E64 : 2 ^ 64 = 2 ^ (64 - k) * 2 ^ k) by (rewrite <- Z.pow_add_r by lia; f_equal; lia).
  replace (z mod 2 ^ 64) with (z - 2 ^ 64 * (z / 2 ^ 64)) by lia. rewrite E64 at 1. lia.
Qed.

(** A step doubles the number of correct bits. *)
Lemma newton_spec m0 x k : 0 <= k -> 2 * k <= 64 -> (2 ^ k | x * m0 - 1) -> (2 ^ (2 * k) | newton m0 x * m0 - 1).
Proof.
  intros Hk Hk2 [q Hq]. unfold newton. apply u64_divide; [lia|].
  set (y := 2 - u64 (m0 * x)). assert (Hy : exists w, u64 y = 2 - m0 * x + w * 2 ^ 64).
  { unfold y, wrap. set (b := 2 ^ 64). pose proof (Z.div_mod (m0 * x) b ltac:(done)). 
    pose proof (Z.div_mod (2 - (m0 * x) mod b) b ltac:(done)).
    exists (m0 * x / b - (2 - (m0 * x) mod b) / b). lia. }
  destruct Hy as [w ->].
  assert (E64 : 2 ^ 64 = 2 ^ (64 - 2 * k) * 2 ^ (2 * k)) by (rewrite <- Z.pow_add_r by lia; f_equal; lia).
  assert (E2k : 2 ^ (2 * k) = 2 ^ k * 2 ^ k) by (rewrite <- Z.pow_add_r by lia; f_equal; lia).
  exists (- (q * q) + x * m0 * w * 2 ^ (64 - 2 * k)).
  replace (x * (2 - m0 * x + w * 2 ^ 64) * m0 - 1) with (- ((x * m0 - 1) * (x * m0 - 1)) + x * m0 * w * 2 ^ 64) by ring.
  rewrite Hq, E64, E2k. ring.
Qed.

Lemma first_guess m0 : m0 mod 2 = 1 -> (2 ^ 4 | u64 (m0 + Z.shiftl (Z.land (u64 (m0 + 2)) 4) 1) * m0 - 1).
Proof.
  intros Hodd. apply u64_divide; [lia|].
  assert (El : Z.land (u64 (m0 + 2)) 4 = Z.land ((m0 + 2) mod 2 ^ 3) 4).
  { rewrite <- Z.land_ones by done. rewrite <- Z.land_assoc. change (Z.land (Z.ones 3) 4) with (Z.land (Z.ones 64) 4).
    rewrite Z.land_assoc. f_equal. by rewrite Z.land_ones. }
  rewrite El. clear El. pose proof (Z.div_mod m0 16 ltac:(lia)) as Ed. pose proof (Z.mod_pos_bound m0 16 ltac:(lia)) as Hr.
  set (q := m0 / 16) in *. set (r := m0 mod 16) in *. clearbody q r. subst m0.
  assert (E8 : (16 * q + r + 2) mod 2 ^ 3 = (r + 2) mod 8).
  { replace (16 * q + r + 2) with (r + 2 + 2 * q * 8) by lia. change (2 ^ 3) with 8. by rewrite Z.mod_add. }
  rewrite E8. replace (16 * q + r) with (r + 8 * q * 2) in Hodd by lia. rewrite Z.mod_add in Hodd by done.
  assert (Hcases : forallb (fun r => negb (r mod 2 =? 1) || ((r + Z.shiftl (Z.land ((r + 2) mod 8) 4) 1) * r mod 16 =? 1))
    [0;1;2;3;4;5;6;7;8;9;10;11;12;13;14;15] = true) by (vm_compute; reflexivity).
  rewrite forallb_forall in Hcases. specialize (Hcases r).
  assert (Hin : In r [0;1;2;3;4;5;6;7;8;9;10;11;12;13;14;15]) by (cbn; lia).
  specialize (Hcases Hin). rewrite Hodd in Hcases. cbn [Z.eqb Pos.eqb negb orb] in Hcases. apply Z.eqb_eq in Hcases.
  set (x := Z.shiftl (Z.land ((r + 2) mod 8) 4) 1) in *. change (2 ^ 4) with 16.
  pose proof (Z.div_mod ((r + x) * r) 16 ltac:(lia)) as Ex. rewrite Hcases in Ex.
  exists ((r + x) * r / 16 + q * (16 * q + r + x + r)). lia.
Qed.

Lemma montg_init_spec m0 : m0 mod 2 = 1 -> fits 64 (mpi_montg_init m0) /\ (base | mpi_montg_init m0 * m0 + 1).
Proof.
  intros Hodd. unfold mpi_montg_init. set (x0 := u64 (m0 + _)).
  assert (H0 : (2 ^ 4 | x0 * m0 - 1)) by by apply first_guess.
  pose proof (newton_spec m0 x0 4 ltac:(lia) ltac:(lia) H0) as H1. set (x1 := newton m0 x0) in *.
  pose proof (newton_spec m0 x1 8 ltac:(lia) ltac:(lia) H1) as H2. set (x2 := newton m0 x1) in *.
  pose proof (newton_spec m0 x2 16 ltac:(lia) ltac:(lia) H2) as H3. set (x3 := newton m0 x2) in *.
  pose proof (newton_spec m0 x3 32 ltac:(lia) ltac:(lia) H3) as H4. set (x := newton m0 x3) in *.
split; [apply fits_u64|].
  destruct H4 as [q Hq]. change (2 ^ (2 * 32)) with base in Hq.
  unfold Z.lnot. replace (Z.pred (- x) + 1) with (- x) by lia. unfold wrap. change (2 ^ 64) with base.
  pose proof (Z.div_mod (- x) base ltac:(done)) as Ed. exists (- q - (- x) / base * m0).
  replace ((- x) mod base) with (- x - base * ((- x) / base)) by lia. lia.
Qed.

Lemma val_take_small p k : limbs p -> (k <= length p)%nat -> val p < pow k -> val (take k p) = val p /\ val (drop k p) = 0.
Proof.
  intros Hp Hk Hv. pose proof (val_take_drop k p) as E. rewrite Nat.min_l in E by done.
  pose proof (val_nonneg _ (limbs_take k p Hp)). pose proof (val_nonneg _ (limbs_drop k p Hp)). pose proof (pow_pos k) as Pk.
  assert (E0 : val (drop k p) < 1) by (apply (Z.mul_lt_mono_pos_l (pow k)); lia).
  assert (E1 : val (drop k p) = 0) by lia. rewrite E1 in *. lia.
Qed.

(** ** The loop *)

Section Loop.
Context (n m : nat) (a b N : list Z) (mm : Z).
Abbreviation B := (val (take m b)).
Abbreviation Nv := (val (take n N)).
Hypotheses (Ha : limbs a) (Hb : limbs b) (HN : limbs N).
Hypotheses (Hna : (n <= length a)%nat) (HnN : (n <= length N)%nat) (Hmb : (m <= length b)%nat) (Hm : (0 < m <= n)%nat).
Hypothesis Hinv : (base | mm * (N !!! 0%nat) + 1).

Lemma low_limb k p : (0 < k <= length p)%nat -> exists q, val (take k p) = p !!! 0%nat + base * q.
Proof.
  intros Hk. destruct p as [|x p], k as [|k]; cbn [length] in Hk; try lia. exists (val (take k p)). done.
Qed.

(** The digit [u1] clears the low limb. *)
Lemma cleared D d0 u0 q : D = d0 + base * q ->
  let u1 := u64 (u64 (d0 + u64 (u0 * (b !!! 0%nat))) * mm) in (base | D + u0 * B + u1 * Nv).
Proof.
  intros HD u1. destruct (low_limb m b ltac:(lia)) as [qb EB]. destruct (low_limb n N ltac:(lia)) as [qN EN]. destruct Hinv as [w Hw].
  set (b0 := b !!! 0%nat) in *. set (N0 := N !!! 0%nat) in *.
  assert (Eu : exists z, u1 = (d0 + u0 * b0) * mm + base * z).
  { unfold u1, wrap. change (2 ^ 64) with base.
    pose proof (Z.div_mod (u0 * b0) base ltac:(done)). set (s := (u0 * b0) mod base) in *.
    pose proof (Z.div_mod (d0 + s) base ltac:(done)). set (s' := (d0 + s) mod base) in *.
    pose proof (Z.div_mod (s' * mm) base ltac:(done)). 
    exists (- (u0 * b0 / base) * mm - (d0 + s) / base * mm - s' * mm / base). nia. }
  destruct Eu as [z ->]. rewrite HD, EB, EN.
  exists (q + u0 * qb + (d0 + u0 * b0) * w + z * N0 + ((d0 + u0 * b0) * mm + base * z) * qN).
  replace (((d0 + u0 * b0) * mm + base * z) * (N0 + base * qN)) with
    ((d0 + u0 * b0) * (mm * N0) + base * z * N0 + base * (((d0 + u0 * b0) * mm + base * z) * qN)) by ring.
  replace (mm * N0) with (w * base - 1) by lia. ring.
Qed.

Lemma mont_step_spec i t : limbs t -> (2 * n + 2 <= length t)%nat -> (i < n)%nat ->
  val (drop i t) < B + Nv -> B < pow n ->
  exists t' u1, mont_step n m a b N mm i t = Some t' /\ limbs t' /\ length t' = length t /\
    take (S i) t' = take i t ++ [a !!! i] /\ 0 <= u1 < base /\
    base * val (drop (S i) t') = val (drop i t) + (a !!! i) * B + u1 * Nv.
Proof.
  intros Ht Hlen Hi HD HB. unfold mont_step. set (d := drop i t) in *. set (D := val d) in *.
  assert (Hld : (n + 2 < length d)%nat) by (unfold d; rewrite length_drop; lia).
  assert (Hd : limbs d) by by apply limbs_drop.
  rewrite (list_lookup_lookup_total_lt a i), (list_lookup_lookup_total_lt d 0), (list_lookup_lookup_total_lt b 0) by lia.
  set (u0 := a !!! i). set (u1 := u64 _). assert (Fu0 : fits 64 u0) by by apply limb_fits.
  assert (Fu1 : fits 64 u1) by apply fits_u64.
  assert (HNv : 0 <= Nv < pow n).
  { pose proof (val_bound (take n N) (limbs_take n N HN)) as Hv. rewrite length_take, Nat.min_l in Hv by lia. done. }
  pose proof (val_nonneg _ (limbs_take m b Hb)) as HB0. pose proof (val_nonneg _ Hd) as HD0. fold D in HD0. pose proof (pow_pos n) as Pn.
  assert (Hbig : base * (base * pow n) <= pow (length d)) by (rewrite <- !pow_S; apply pow_mono; lia).
  unfold fits in Fu0, Fu1. fold base in Fu0, Fu1.
  destruct (mpi_mul_hlp_spec m b d u0 Hb Hd Fu0 Hmb ltac:(lia)) as (d1 & -> & Hd1 & Hl1 & E1).
  { fold D. unfold base in *. nia. }
  fold D in E1.
  destruct (mpi_mul_hlp_spec n N d1 u1 HN Hd1 Fu1 HnN ltac:(lia)) as (d2 & -> & Hd2 & Hl2 & E2).
  { rewrite Hl1, E1. unfold base in *. nia. }
  rewrite E1 in E2. rewrite (proj2 (Nat.ltb_lt _ _)) by lia.
  destruct (low_limb (length d) d ltac:(lia)) as [q Eq]. rewrite firstn_all in Eq. fold D in Eq.
  pose proof (cleared D (d !!! 0%nat) u0 q Eq) as [D' ED]. fold u1 in ED.
  assert (Hsmall : val d2 < pow (n + 2)).
  { rewrite E2. replace (n + 2)%nat with (S (S n)) by lia. rewrite !pow_S. unfold base in *. nia. }
  destruct d2 as [|x d2]; [cbn in Hl2; lia|]. apply limbs_cons in Hd2 as [Hx Hd2]. cbn [length] in Hl2.
  assert (Ex : x = 0).
  { cbn [val] in E2. unfold fits in Hx. fold base in Hx. pose proof (val_nonneg _ Hd2). 
    assert (Hq : x = base * (D' - val d2)) by lia. assert (D' - val d2 = 0); [|lia]. nia. }
  assert (Etop : <[(n + 1)%nat := 0]> d2 = d2).
  { apply list_insert_id. rewrite list_lookup_lookup_total_lt by lia. f_equal. rewrite val_digit by (done || lia).
    cbn [val] in Hsmall. replace (n + 2)%nat with (S (n + 1)) in Hsmall by lia. rewrite pow_S in Hsmall.
    rewrite Z.div_small; [done|]. pose proof (val_nonneg _ Hd2). nia. }
  replace (n + 2)%nat with (S (n + 1)) by lia. cbn [list_insert insert]. 
  exists (take i t ++ u0 :: <[(n + 1)%nat := 0]> d2), u1. split; [done|]. rewrite Etop.
  assert (Hti : length (take i t) = i) by (rewrite length_take; lia).
  split; [|split; [|split; [|split; [done|]]]].
  - apply limbs_app. split; [by apply limbs_take|]. by apply limbs_cons.
  - rewrite length_app, Hti. cbn [length]. unfold d in Hl1. rewrite length_drop in Hl1. lia.
  - rewrite take_app, Hti. rewrite take_ge by lia. replace (S i - i)%nat with 1%nat by lia. cbn [take]. by rewrite take_0.
  - rewrite drop_app, Hti. rewrite drop_ge by lia. replace (S i - i)%nat with 1%nat by lia. cbn [drop app]. rewrite drop_0.
    cbn [val] in E2. lia.
Qed.

Lemma mont_steps_spec k : forall i t M, (i + k = n)%nat -> limbs t -> (2 * n + 2 <= length t)%nat ->
  B < pow n -> 0 < Nv -> take i t = take i a -> 0 <= M < pow i -> pow i * val (drop i t) = val (take i a) * B + M * Nv ->
  exists t' M', mont_steps k n m a b N mm i t = Some t' /\ limbs t' /\ length t' = length t /\
    take n t' = take n a /\ 0 <= M' < pow n /\ pow n * val (drop n t') = val (take n a) * B + M' * Nv.
Proof.
  induction k as [|k IH]; intros i t M Hk Ht Hlen HB HN0 Htake HM HD; cbn [mont_steps].
  { replace i with n in * by lia. exists t, M. done. }
  pose proof (val_bound _ (limbs_take i a Ha)) as Hai. rewrite length_take, Nat.min_l in Hai by lia. pose proof (pow_pos i) as Pi.
  pose proof (val_nonneg _ (limbs_take m b Hb)) as HB0.
  assert (HDlt : val (drop i t) < B + Nv) by (apply (Z.mul_lt_mono_pos_l (pow i)); [done|]; rewrite HD; nia).
  destruct (mont_step_spec i t Ht Hlen ltac:(lia) HDlt HB) as (t1 & u1 & -> & Ht1 & Hl1 & Etake & Hu1 & E1).
  rewrite <- Hl1. apply (IH (S i) t1 (M + pow i * u1)); try done; try lia.
  - rewrite Etake, Htake. symmetry. apply take_S_r. apply list_lookup_lookup_total_lt. lia.
  - rewrite pow_S. unfold base in *. nia.
  - rewrite pow_S, val_take_S by lia. replace (base * pow i * val (drop (S i) t1)) with (pow i * (base * val (drop (S i) t1))) by ring.
    rewrite E1. lia.
Qed.

End Loop.

(** ** The product *)

Section Memory.
Context `{Callocs}.

(** From [h] to [h'] only [X], with [R], and the scratch object [T] change. *)
Record sets2 (X : addr) (R : mbedtls_mpi -> Prop) (T : addr) (S : mbedtls_mpi -> Prop) (h h' : heap) : Prop := Sets2 {
  w_top : top h' = top h;
  w_good : good h';
  w_new : R (mem h' X);
  w_scratch : S (mem h' T);
  w_rest : forall a, (a < top h)%nat -> a <> X -> a <> T -> mem h' a = mem h a
}.

Lemma montmul_by_spec A b N mm T h : good h -> (A < top h)%nat -> (N < top h)%nat -> (T < top h)%nat ->
  T <> A -> T <> N -> A <> N -> wf b -> (0 < mpi_n b)%nat -> let n := mpi_n (mem h N) in
  (0 < mag (mem h N)) -> (base | mm * (mpi_p (mem h N) !!! 0%nat) + 1) ->
  (2 * n + 2 <= mpi_n (mem h T))%nat -> (n + 1 <= mpi_n (mem h A))%nat ->
  mag (mem h A) < pow n -> mag b < pow n -> mag (mem h A) * mag b < pow n * mag (mem h N) ->
  wp (montmul_by A b N mm T) h (fun _ h' => sets2 A (fun x => mpi_s x = mpi_s (mem h A) /\ mpi_n x = mpi_n (mem h A) /\
      mag x < mag (mem h N) /\ (mag (mem h N) | mag x * pow n - mag (mem h A) * mag b))
    T (fun t => mpi_n t = mpi_n (mem h T)) h h').
Proof.
  intros G HA HN HT HTA HTN HAN [Hlb _] Hnb n HNpos Hinv HnT HnA HmA Hmb Hprod. unfold montmul_by.
  destruct (G A HA) as [[Hla Hsa] HMA], (G N HN) as [[HlN HsN] HMN], (G T HT) as [[HlT HsT] HMT].
  apply wp_load, wp_load. fold n. rewrite (proj2 (Nat.ltb_ge _ _)), (proj2 (Nat.eqb_neq _ _)) by lia. cbn [orb].
  apply wp_load. set (m := if (mpi_n b <? n)%nat then mpi_n b else n).
  unfold mag in *. set (a := mpi_p (mem h A)) in *. set (p := mpi_p (mem h N)) in *.
  assert (LA : (n + 1 <= length a)%nat) by exact HnA. assert (LN : length p = n) by done.
  assert (Hn : (0 < n)%nat) by (rewrite <- LN; destruct p; cbn in *; lia).
  assert (Hm : (0 < m <= n)%nat /\ (m <= length (mpi_p b))%nat).
  { unfold m, mpi_n in *. destruct (Nat.ltb_spec (length (mpi_p b)) n); lia. }
  assert (Etb : val (take m (mpi_p b)) = val (mpi_p b)).
  { unfold m, mpi_n. destruct (Nat.ltb_spec (length (mpi_p b)) n); [by rewrite firstn_all|]. by apply val_take_small. }
  destruct (val_take_small a n Hla ltac:(lia) HmA) as [Eta _].
  assert (Etn : val (take n p) = val p) by (rewrite <- LN; by rewrite firstn_all).
  destruct (mont_steps_spec n m a (mpi_p b) p mm Hla Hlb HlN) with (k := n) (i := 0%nat) (t := replicate (mpi_n (mem h T)) 0) (M := 0)
    as (t & M & -> & Ht & Hlt & Etake & HM & ED); try done; try (apply Hm); try lia.
  1: apply limbs_zero. 1: by rewrite length_replicate.
  { rewrite drop_0, val_zeros, take_0, pow_0. cbn [val]. lia. }
  rewrite length_replicate in Hlt. rewrite Eta, Etb, Etn in ED. set (D := val (drop n t)) in *.
  assert (Pn : 0 < pow n) by apply pow_pos. assert (HD0 : 0 <= D) by by apply val_nonneg, limbs_drop.
  assert (HD2 : D < 2 * val p) by (apply (Z.mul_lt_mono_pos_l (pow n)); [done|]; rewrite ED; nia).
  destruct (val_bound p HlN) as [_ HpN]. rewrite LN in HpN.
  assert (Ldn : (n + 2 <= length (drop n t))%nat) by (rewrite length_drop, Hlt; lia).
  eapply wp_valid; [reflexivity|].
  eapply wp_chk; [apply set_p_spec; [done|done|done|lia]|]. intros ? h2 [T2 G2 N2 F2]. cbn beta in N2.
  rewrite (proj2 (Nat.leb_le _ _)), (proj2 (Nat.leb_le (n + 1) (mpi_n (mem h A)))) by lia. cbn [andb].
  set (a' := take (n + 1) (drop n t) ++ drop (n + 1) a).
  assert (Hla' : limbs a') by (apply limbs_app; split; [by apply limbs_take, limbs_drop|by apply limbs_drop]).
  assert (La' : length a' = length a) by (unfold a'; rewrite length_app, length_take, !length_drop; lia).
  assert (Ea' : val a' = D).
  { unfold a'. rewrite val_app. destruct (val_take_small (drop n t) (n + 1)) as [-> _]; [by apply limbs_drop|lia| |].
    - fold D. rewrite Nat.add_1_r, pow_S. unfold base. lia.
    - destruct (val_take_small a (n + 1) Hla) as [_ ->]; [lia| |fold D; lia].
      apply Z.lt_le_trans with (pow n); [done|apply pow_mono; lia]. }
  eapply wp_chk; [apply set_p_spec; [done|lia|done|]|]. { rewrite La'. exact HMA. }
  intros ? h3 [T3 G3 N3 F3]. cbn beta in N3. rewrite (F2 A) in N3 by done. apply wp_load.
  rewrite cmp_abs_spec by (try apply G3; try apply G; lia). rewrite ord_geb. rewrite N3. unfold mag. cbn [mpi_p]. fold p. rewrite Ea'.
  assert (Hdiv : (val p | D * pow n - val a * val (mpi_p b))) by (exists M; lia).
  destruct (Z.leb_spec (val p) D) as [Hge|Hlt'].
  - destruct (mpi_sub_hlp_spec n p a' HlN Hla') as (d & Ed & Hd & Ld & Ev); [lia|lia|by rewrite Etn, Ea'|].
    eapply wp_valid; [exact Ed|].
    eapply wp_mono; [apply set_p_spec; [done|lia|done|]|]. { rewrite Ld, La'. exact HMA. }
    intros ? h5 [T5 G5 N5 F5]. cbn beta in N5. rewrite Etn, Ea' in Ev. constructor.
    + lia. + done.
    + rewrite N5, N3. cbn [mpi_s mpi_p]. unfold mpi_n. cbn [mpi_p]. rewrite Ld, La', Ev. split_and!; try done; [lia|].
      destruct Hdiv as [w Hw]. exists (w - pow n). lia.
    + rewrite F5, F3, N2 by lia. unfold mpi_n. cbn [mpi_p]. done.
    + intros c Hc Hca Hct. by rewrite F5, F3, F2 by lia.
  - destruct (mpi_sub_hlp_spec n a' t Hla' Ht) as (d & Ed & Hd & Ld & Ev); [lia|lia| |].
    { destruct (val_take_small a' n Hla') as [-> _]; [lia|lia|]. rewrite Ea', (val_take_drop n t), Nat.min_l by lia. fold D.
      pose proof (val_nonneg _ (limbs_take n t Ht)). nia. }
    eapply wp_valid; [exact Ed|].
    eapply wp_mono; [apply set_p_spec; [done|lia|done|lia]|].
    intros ? h5 [T5 G5 N5 F5]. cbn beta in N5. constructor.
    + lia. + done.
    + rewrite F5, N3 by lia. cbn [mpi_s mpi_p]. unfold mpi_n. cbn [mpi_p]. by rewrite La', Ea'.
    + rewrite N5. unfold mpi_n. cbn [mpi_p]. rewrite Ld. exact Hlt.
    + intros c Hc Hca Hct. by rewrite F5, F3, F2 by lia.
Qed.
End Memory.
