(* ===== verification/MpiExpFacts.v ===== *)
(** * MpiExpFacts: the sliding window computes the power *)
From S2P Require Import Prelude.
From S2P Require Import Limbs.
From S2P Require Import Mpi.
From S2P Require Import MpiBits.
From S2P Require Import MpiFacts.
From S2P Require Import MpiBitsFacts.
From S2P Require Import MpiArith.
From S2P Require Import MpiDiv.
From S2P Require Import MpiDivFacts.
From S2P Require Import MpiQuotient.
From S2P Require Import MpiMont.
From S2P Require Import MpiMontFacts.

Open Scope C.

Section Memory.
Context `{Callocs}.

(** The objects of the exponentiation: [N] and [E] stay, [T] is the scratch
    object, [X] the accumulator and the table begins at [W]. *)
Section Window.
Context (X E N T W tp : addr) (nobj eobj : mbedtls_mpi) (mm g : Z) (wsize : nat).
Abbreviation Nv := (mag nobj).
Abbreviation n := (mpi_n nobj).
Abbreviation R := (pow (mpi_n nobj)).
Hypotheses (HXW : (X < W)%nat) (HEW : (E < W)%nat) (HNW : (N < W)%nat) (HTW : (T < W)%nat).
Hypotheses (HXN : X <> N) (HXE : X <> E) (HXT : X <> T) (HNT : N <> T) (HET : E <> T).
Hypothesis Htp : (W + 2 ^ wsize <= tp)%nat.
Hypotheses (Hws : (0 < wsize <= 6)%nat) (Hn : (2 * n + 2 <= MBEDTLS_MPI_MAX_LIMBS)%nat).
Hypotheses (HNv : 0 < Nv < R) (Hmm : (base | mm * (mpi_p nobj !!! 0%nat) + 1)).
(** [N] is odd, so [R] can be cancelled. *)
Hypothesis Hcancel : forall z, (Nv | z * R) -> (Nv | z).

Record env (h : heap) : Prop := Env {
  e_good : good h;
  e_top : top h = tp;
  e_N : mem h N = nobj;
  e_E : mem h E = eobj;
  e_T : (2 * n + 2 <= mpi_n (mem h T))%nat
}.

(** [x] is the residue of [v] times [R]. *)
Definition mont (x : mbedtls_mpi) (v : Z) : Prop := mag x < Nv /\ (Nv | mag x - v * R).

Lemma mont_mul x y z u v : mont x u -> mont y v -> mag z < Nv -> (Nv | mag z * R - mag x * mag y) -> mont z (u * v).
Proof.
  intros [Hx [a Ea]] [Hy [b Eb]] Hz [c Ec]. split; [done|]. apply Hcancel. 
  exists (c + a * mag y + u * R * b). 
  replace (mag x) with (u * R + a * Nv) in * by lia. replace (mag y) with (v * R + b * Nv) in * by lia.
  replace ((mag z - u * v * R) * R) with (mag z * R - u * R * (v * R)) by ring.
  replace (mag z * R) with (c * Nv + (u * R + a * Nv) * (v * R + b * Nv)) by lia. ring.
Qed.

(** A step of the exponentiation: one object outside the fixed ones gets [R]. *)
Record steps (A : addr) (P : mbedtls_mpi -> Prop) (h h' : heap) : Prop := Steps {
  t_env : env h';
  t_new : P (mem h' A);
  t_rest : forall a, (a < tp)%nat -> a <> A -> a <> T -> mem h' a = mem h a
}.

Definition free (A : addr) : Prop := (A < tp)%nat /\ A <> N /\ A <> E /\ A <> T.

Lemma sets_steps A P h h' : env h -> free A -> sets A P h h' -> steps A P h h'.
Proof.
  intros [G Top EN EE ET] (HA & HAN & HAE & HAT) [T1 G1 N1 F1]. rewrite Top in *. constructor; [|done|].
  - constructor; try done; rewrite F1 by lia; done.
  - intros a Ha Hne _. by apply F1.
Qed.

Lemma montmul_raw A B h : env h -> free A -> (B < tp)%nat -> (n + 1 <= mpi_n (mem h A))%nat -> (0 < mpi_n (mem h B))%nat ->
  mag (mem h A) < R -> mag (mem h B) < R -> mag (mem h A) * mag (mem h B) < R * Nv ->
  wp (mpi_montmul A B N mm T) h (fun _ h' => steps A (fun x =>
    (mag x < Nv /\ (Nv | mag x * R - mag (mem h A) * mag (mem h B))) /\ mpi_n x = mpi_n (mem h A) /\ mpi_s x = mpi_s (mem h A)) h h').
Proof.
  intros [G Top EN EE ET] (HA & HAN & HAE & HAT) HB HnA HnB Hu Hv Huv. unfold mpi_montmul. apply wp_load.
  eapply wp_mono; [apply (montmul_by_spec A (mem h B) N mm T h); rewrite ?EN; [done|lia..|apply G; lia|done|lia|done|done|done|lia|lia|lia]|].
  rewrite EN. intros ? h' [T1 G1 (Es & En & Hlt & Hd) HT F1]. constructor; [|split; [done|done]|].
  - constructor; [done|lia|rewrite F1 by lia; done|rewrite F1 by lia; done|lia].
  - intros a Ha Na Nt. apply F1; lia.
Qed.

Lemma montmul_steps A B u v h : env h -> free A -> (B < tp)%nat -> (n + 1 <= mpi_n (mem h A))%nat -> (0 < mpi_n (mem h B))%nat ->
  mont (mem h A) u -> mont (mem h B) v ->
  wp (mpi_montmul A B N mm T) h (fun _ h' =>
    steps A (fun x => mont x (u * v) /\ mpi_n x = mpi_n (mem h A) /\ mpi_s x = mpi_s (mem h A)) h h').
Proof.
  intros He Hf HB HnA HnB Hu Hv. pose proof (e_good _ He) as G. pose proof (e_top _ He) as Top. pose proof Hf as (HA & _).
  pose proof (mag_nonneg _ (proj1 (G A ltac:(lia)))). pose proof (mag_nonneg _ (proj1 (G B ltac:(lia)))).
  pose proof Hu as [Hu1 _]. pose proof Hv as [Hv1 _].
  eapply wp_mono; [apply (montmul_raw A B h He Hf HB HnA HnB); [lia|lia|nia]|].
  intros ? h' [He' ([Hlt Hd] & Hr) F']. constructor; [done| |done]. split; [|done]. by apply (mont_mul (mem h A) (mem h B)).
Qed.

Lemma squares_spec A k : forall u h, env h -> free A -> (n + 1 <= mpi_n (mem h A))%nat -> mont (mem h A) u ->
  wp (repeat k (mpi_montmul A A N mm T)) h (fun _ h' =>
    steps A (fun x => mont x (u ^ 2 ^ Z.of_nat k) /\ mpi_n x = mpi_n (mem h A) /\ mpi_s x = mpi_s (mem h A)) h h').
Proof.
  induction k as [|k IH]; intros u h He Hf HnA Hu; cbn [repeat].
  - apply wp_ret. constructor; try done. split; [|done]. change (2 ^ Z.of_nat 0) with 1. by rewrite Z.pow_1_r.
  - eapply wp_chk; [apply (montmul_steps A A u u h); try done; [apply Hf|lia]|]. intros _ h1 [He1 (Hm1 & En1 & Es1) F1].
    eapply wp_mono; [apply (IH (u * u) h1); try done; lia|]. intros ? h2 [He2 (Hm2 & En2 & Es2) F2].
    constructor; [done| |].
    + split; [|split; congruence]. replace (u ^ 2 ^ Z.of_nat (S k)) with ((u * u) ^ 2 ^ Z.of_nat k); [done|].
      rewrite Nat2Z.inj_succ, Z.pow_succ_r by lia. rewrite Z.pow_mul_r by (try apply Z.pow_nonneg; lia). by rewrite Z.pow_2_r.
    + intros a Ha Na Nt. by rewrite F2, F1.
Qed.

(** ** The table *)

(** An entry of the table: [g] to the power [i]. *)
Definition entry (h : heap) (i : nat) : Prop := mont (mem h (W + i)%nat) (g ^ Z.of_nat i) /\ (0 < mpi_n (mem h (W + i)%nat))%nat.

Lemma entry_free i : (i < 2 ^ wsize)%nat -> free (W + i).
Proof. intros Hi. unfold free. lia. Qed.

Lemma pow2_mono i j : (i <= j)%nat -> (2 ^ i <= 2 ^ j)%nat.
Proof. intros. apply Nat.pow_le_mono_r; lia. Qed.

(** A copy of an entry, with room for the multiplication. *)
Lemma fresh_entry_spec i j h (rest : mpi unit) Q : env h -> (i < 2 ^ wsize)%nat -> (j < 2 ^ wsize)%nat -> i <> j -> entry h j ->
  (forall h', steps (W + i) (fun x => mont x (g ^ Z.of_nat j) /\ (n + 1 <= mpi_n x)%nat) h h' -> wp rest h' Q) ->
  wp (mbedtls_mpi_grow (W + i) (n + 1) ;* mbedtls_mpi_copy (W + i) (W + j) ;* rest) h Q.
Proof.
  intros He Hi Hj Hne [Hm Hnj] Hrest. pose proof He as [G Top EN EE ET].
  eapply wp_chk; [apply (grow_spec (W + i) (n + 1) h); [done|lia|lia]|]. intros ? h1 S1. cbn beta in S1.
  pose proof (sets_steps _ _ _ _ He (entry_free i Hi) S1) as [He1 N1 F1]. pose proof He1 as [G1 Top1 _ _ _].
  eapply wp_chk; [apply (copy_spec (W + i) (W + j) h1); [done|lia|lia]|]. intros ? h2 S2. cbn beta in S2.
  pose proof (sets_steps _ _ _ _ He1 (entry_free i Hi) S2) as [He2 N2 F2]. rewrite (proj2 (Nat.eqb_neq _ _)), (F1 (W + j)%nat) in N2 by lia.
  apply Hrest. constructor; [done| |].
  - rewrite N2. unfold mont. rewrite copied_mag by (apply G; lia). split; [done|].
    rewrite copied_n, N1, grown_n; [lia|]. intros E0. unfold mpi_n in Hnj. rewrite E0 in Hnj. cbn in Hnj. lia.
  - intros a Ha Na Nt. by rewrite F2, F1.
Qed.

Lemma powers_spec count : forall i h, env h -> (i + count = 2 ^ wsize)%nat -> (2 <= i)%nat -> entry h 1 -> entry h (i - 1) ->
  wp (powers count i W N mm T) h (fun _ h' => env h' /\
    (forall a, (a < tp)%nat -> (a < W + i)%nat -> a <> T -> mem h' a = mem h a) /\
    forall k, (i <= k < 2 ^ wsize)%nat -> entry h' k).
Proof.
  induction count as [|count IH]; intros i h He Hi H2 H1 Hprev; cbn [powers].
  - apply wp_ret. split; [done|]. split; [done|]. intros; lia.
  - apply wp_load. rewrite (e_N _ He). apply fresh_entry_spec; try done; try lia.
    intros h1 [He1 [Hm1 Hn1] F1]. pose proof H1 as [Hm Hn'].
    eapply wp_chk; [apply (montmul_steps (W + i) (W + 1) (g ^ Z.of_nat (i - 1)) g h1 He1 (entry_free i ltac:(lia))); [lia|done| |exact Hm1|]|].
    { by rewrite (F1 (W + 1)%nat) by lia. } { rewrite (F1 (W + 1)%nat) by lia. by rewrite Z.pow_1_r in Hm. }
    intros ? h2 [He2 (Hm2 & En2 & _) F2].
    assert (Hentry : entry h2 i).
    { split; [|lia]. replace (Z.of_nat i) with (Z.of_nat (i - 1) + 1) by lia. by rewrite Z.pow_add_r, Z.pow_1_r by lia. }
    assert (Hlow : forall a, (a < tp)%nat -> (a < W + i)%nat -> a <> T -> mem h2 a = mem h a).
    { intros a Ha Hai Nt. by rewrite F2, F1 by lia. }
    eapply wp_mono; [apply (IH (S i) h2 He2); try lia|].
    + unfold entry. by rewrite Hlow by lia.
    + by replace (S i - 1)%nat with i by lia.
    + intros ? h3 (He3 & F3 & T3). split; [done|]. split; [intros a Ha Hai Nt; rewrite F3, Hlow by lia; done|].
      intros k Hk. destruct (decide (k = i)) as [->|]; [|apply T3; lia]. unfold entry. by rewrite F3 by lia.
Qed.

Definition table (h : heap) : Prop := entry h 1 /\ forall k, (2 ^ (wsize - 1) <= k < 2 ^ wsize)%nat -> entry h k.

Lemma power_table_spec h : env h -> entry h 1 ->
  wp (power_table wsize W N mm T) h (fun _ h' => env h' /\ table h' /\
    forall a, (a < W)%nat -> a <> T -> mem h' a = mem h a).
Proof.
  intros He H1. unfold power_table. destruct (Nat.ltb_spec 1 wsize) as [Hw|Hw].
  2: { apply wp_ret. split; [done|]. split; [|done]. split; [done|]. replace wsize with 1%nat by lia. cbn. intros k Hk.
       by replace k with 1%nat by lia. }
  pose proof (pow2_mono 1 (wsize - 1) ltac:(lia)) as P1. change (2 ^ 1)%nat with 2%nat in P1.
  assert (P2 : (2 ^ wsize = 2 * 2 ^ (wsize - 1))%nat) by (replace wsize with (S (wsize - 1)) at 1 by lia; by rewrite Nat.pow_succ_r').
  set (j := (2 ^ (wsize - 1))%nat) in *.
  apply wp_load. rewrite (e_N _ He). apply fresh_entry_spec; try done; try lia. intros h1 [He1 [Hm1 Hn1] F1].
  eapply wp_chk; [apply (squares_spec (W + j) (wsize - 1) (g ^ Z.of_nat 1) h1 He1 (entry_free j ltac:(lia))); [lia|exact Hm1]|].
  intros ? h2 [He2 (Hm2 & En2 & _) F2].
  assert (Hlow : forall a, (a < W + j)%nat -> a <> T -> mem h2 a = mem h a) by (intros a Ha Nt; by rewrite F2, F1 by lia).
  assert (Hj : entry h2 j).
  { split; [|lia]. rewrite <- Z.pow_mul_r in Hm2 by lia. replace (Z.of_nat j) with (Z.of_nat 1 * 2 ^ Z.of_nat (wsize - 1)); [done|].
    unfold j. rewrite Nat2Z.inj_pow. lia. }
  eapply wp_mono; [apply (powers_spec (2 ^ wsize - (j + 1)) (j + 1) h2 He2); try lia|].
  - unfold entry. by rewrite Hlow by lia.
  - by replace (j + 1 - 1)%nat with j by lia.
  - intros ? h3 (He3 & F3 & T3). split; [done|]. split; [split|].
    + unfold entry. by rewrite F3, Hlow by lia.
    + intros k Hk. destruct (decide (k = j)) as [->|]; [unfold entry; by rewrite F3 by lia|]. apply T3. lia.
    + intros a Ha Nt. by rewrite F3, Hlow by lia.
Qed.

(** ** The bits of the exponent *)

Lemma exponent_bit p k c : limbs p -> (k < length p)%nat -> (c < 64)%nat ->
  Z.land (Z.shiftr (p !!! k) (Z.of_nat c)) 1 = (val p / 2 ^ Z.of_nat (k * 64 + c)) mod 2.
Proof.
  intros Hp Hk Hc. rewrite val_digit by done. change 1 with (Z.ones 1). rewrite Z.land_ones, Z.shiftr_div_pow2 by lia. change (2 ^ 1) with 2.
  set (w := val p / pow k). assert (Ew : (w mod base) / 2 ^ Z.of_nat c mod 2 = w / 2 ^ Z.of_nat c mod 2).
  { rewrite <- !Z.testbit_spec' by lia. f_equal. unfold base. by apply Z.mod_pow2_bits_low; lia. }
  rewrite Ew. unfold w. pose proof (pow_pos k). rewrite Z.div_div by (try apply Z.pow_pos_nonneg; lia). rewrite <- bits_pow, <- Z.pow_add_r by lia.
  do 3 f_equal. lia.
Qed.

(** [x]: the exponent of [X]; [v]: the bits of the window so far; [r]: the bits
    to come. *)
Record reading (r nbits : nat) (wbits state x v : Z) : Prop := Reading {
  r_exp : val (mpi_p eobj) / 2 ^ Z.of_nat r = x * 2 ^ Z.of_nat nbits + v;
  r_window : wbits = v * 2 ^ Z.of_nat (wsize - nbits) /\ 0 <= v < 2 ^ Z.of_nat nbits /\ (nbits < wsize)%nat;
  r_x : 0 <= x;
  r_state : state = 0 /\ nbits = 0%nat /\ x = 0 \/ state = 1 /\ nbits = 0%nat \/ state = 2 /\ 2 ^ Z.of_nat nbits <= 2 * v
}.

Lemma next_bit r nbits wbits state x v : 0 <= val (mpi_p eobj) -> reading (S r) nbits wbits state x v ->
  let ei := (val (mpi_p eobj) / 2 ^ Z.of_nat r) mod 2 in
  val (mpi_p eobj) / 2 ^ Z.of_nat r = x * 2 ^ Z.of_nat (S nbits) + (2 * v + ei).
Proof.
  intros He [Hexp _ _ _] ei. set (w := val (mpi_p eobj) / 2 ^ Z.of_nat r) in *.
  assert (Ew : val (mpi_p eobj) / 2 ^ Z.of_nat (S r) = w / 2).
  { unfold w. rewrite Z.div_div by (try apply Z.pow_nonzero; lia). f_equal. rewrite Nat2Z.inj_succ, Z.pow_succ_r by lia. lia. }
  rewrite Ew in Hexp. pose proof (Z.div_mod w 2 ltac:(lia)) as Hw. fold ei in Hw. rewrite Nat2Z.inj_succ, Z.pow_succ_r by lia. lia.
Qed.

(** The new bit enters the window. *)
Lemma window_bit r nbits wbits state x v ei : (ei = 0 \/ ei = 1) -> reading (S r) nbits wbits state x v -> (ei = 0 -> state = 2) ->
  let wbits' := Z.lor wbits (Z.shiftl ei (Z.of_nat (wsize - (nbits + 1)))) in
  wbits' = (2 * v + ei) * 2 ^ Z.of_nat (wsize - (nbits + 1)) /\ 0 <= 2 * v + ei < 2 ^ Z.of_nat (nbits + 1) /\
  2 ^ Z.of_nat (nbits + 1) <= 2 * (2 * v + ei).
Proof.
  intros Hei [_ (-> & Hv & Hlt) _ Hst] H0 wbits'. rewrite (Nat2Z.inj_add nbits 1), Z.pow_add_r by lia. change (2 ^ Z.of_nat 1) with 2.
  split; [|split; [lia|]].
  - unfold wbits'. replace (wsize - nbits)%nat with (S (wsize - (nbits + 1))) by lia. set (k := (wsize - (nbits + 1))%nat).
    rewrite Nat2Z.inj_succ, <- Z.add_1_r, Z.pow_add_r by lia. change (2 ^ 1) with 2.
    rewrite Z.shiftl_mul_pow2 by lia. rewrite <- (Z.shiftl_mul_pow2 _ (Z.of_nat k)) by lia.
    replace (v * (2 ^ Z.of_nat k * 2)) with (Z.shiftl (2 * v) (Z.of_nat k)) by (rewrite Z.shiftl_mul_pow2 by lia; ring).
    rewrite <- Z.shiftl_lor, Z.shiftl_mul_pow2 by lia. f_equal.
    replace (2 * v) with (Z.shiftl v 1) at 1 by (rewrite Z.shiftl_mul_pow2 by done; lia).
    rewrite lor_shift by (destruct Hei; lia). lia.
  - destruct Hst as [(-> & -> & ->)|[(-> & ->)|(-> & Hst)]]; [| |lia].
    + change (2 ^ Z.of_nat 0) with 1 in *. destruct Hei as [->| ->]; [specialize (H0 eq_refl); lia|lia].
    + change (2 ^ Z.of_nat 0) with 1 in *. destruct Hei as [->| ->]; [specialize (H0 eq_refl); lia|lia].
Qed.

(** What an exponentiation leaves in [X]. *)
Definition power (h : heap) (x : Z) (y : mbedtls_mpi) : Prop :=
  mont y (g ^ x) /\ mpi_n y = mpi_n (mem h X) /\ mpi_s y = mpi_s (mem h X).

Lemma X_free : free X.
Proof. unfold free. lia. Qed.

Lemma entry_steps P h h' k : steps X P h h' -> (k < 2 ^ wsize)%nat -> entry h k -> entry h' k.
Proof. intros [_ _ F] Hk. unfold entry. by rewrite F by lia. Qed.

Lemma table_steps P h h' : steps X P h h' -> table h -> table h'.
Proof.
  intros Hs [H1 Ht]. pose proof (pow2_mono 1 wsize ltac:(lia)) as P1. change (2 ^ 1)%nat with 2%nat in P1.
  split; [eapply entry_steps; [exact Hs|lia|done]|]. intros k Hk. eapply entry_steps; [exact Hs|lia|by apply Ht].
Qed.

Lemma steps_trans P Q S h h1 h2 : steps X P h h1 -> steps X Q h1 h2 -> (P (mem h1 X) -> Q (mem h2 X) -> S (mem h2 X)) -> steps X S h h2.
Proof.
  intros [_ P1 F1] [He2 P2 F2] HS. constructor; [done|by apply HS|]. intros a Ha Na Nt. by rewrite F2, F1.
Qed.

Lemma power_trans h h1 h2 x y : steps X (power h x) h h1 -> steps X (power h1 y) h1 h2 -> steps X (power h y) h h2.
Proof. intros H1 H2. eapply steps_trans; [exact H1|exact H2|]. intros (_ & E1 & E2) (? & E3 & E4). split; [done|]. split; congruence. Qed.

Lemma multiply_spec h k x : env h -> entry h k -> (k < 2 ^ wsize)%nat -> mont (mem h X) (g ^ x) -> 0 <= x -> (n + 1 <= mpi_n (mem h X))%nat ->
  wp (mpi_montmul X (W + k) N mm T) h (fun _ h' => steps X (power h (x + Z.of_nat k)) h h').
Proof.
  intros He [Hm Hn'] Hk HX Hx HnX. eapply wp_mono; [apply (montmul_steps X (W + k) (g ^ x) (g ^ Z.of_nat k) h He X_free); done || lia|].
  intros ? h' [He' (Hm' & En' & Es') F']. constructor; [done| |done]. split; [|done]. by rewrite Z.pow_add_r by lia.
Qed.

Lemma square_spec h x : env h -> mont (mem h X) (g ^ x) -> 0 <= x -> (n + 1 <= mpi_n (mem h X))%nat ->
  wp (mpi_montmul X X N mm T) h (fun _ h' => steps X (power h (2 * x)) h h').
Proof.
  intros He HX Hx HnX. eapply wp_mono; [apply (montmul_steps X X (g ^ x) (g ^ x) h He X_free); try done; lia|].
  intros ? h' [He' (Hm' & En' & Es') F']. constructor; [done| |done]. split; [|done].
  replace (2 * x) with (x + x) by lia. by rewrite Z.pow_add_r by lia.
Qed.

(** When the bits are used up, [fst res] of them are left in the window [snd res]. *)
Definition read_out (h : heap) (res : nat * Z) (h' : heap) : Prop := exists x v,
  steps X (power h x) h h' /\ 0 <= x /\ val (mpi_p eobj) = x * 2 ^ Z.of_nat (fst res) + v /\
  snd res = v * 2 ^ Z.of_nat (wsize - fst res) /\ 0 <= v < 2 ^ Z.of_nat (fst res) /\ (fst res < wsize)%nat.

Lemma read_out_trans h h1 h2 x res : steps X (power h x) h h1 -> read_out h1 res h2 -> read_out h res h2.
Proof. intros H1 (x' & v & H2 & Hr). exists x', v. split; [by eapply power_trans|done]. Qed.

Lemma power_refl h x : env h -> mont (mem h X) (g ^ x) -> steps X (power h x) h h.
Proof. intros He HX. constructor; [done|by split|done]. Qed.

(** The window with its new bit; when it is full, [X] takes its power. *)
Lemma window_spec h r nbits wbits x v (loop : nat -> Z -> Z -> mpi (nat * Z)) : env h -> table h ->
  mont (mem h X) (g ^ x) -> 0 <= x -> (n + 1 <= mpi_n (mem h X))%nat ->
  val (mpi_p eobj) / 2 ^ Z.of_nat r = x * 2 ^ Z.of_nat nbits + v -> (nbits <= wsize)%nat ->
  wbits = v * 2 ^ Z.of_nat (wsize - nbits) -> 0 <= v < 2 ^ Z.of_nat nbits -> 2 ^ Z.of_nat nbits <= 2 * v ->
  (forall h' nbits' wbits' state' x' v', steps X (power h x') h h' -> table h' ->
     reading r nbits' wbits' state' x' v' -> wp (loop nbits' wbits' state') h' (read_out h)) ->
  wp (if (nbits =? wsize)%nat
      then repeat wsize (mpi_montmul X X N mm T) ;* mpi_montmul X (W + Z.to_nat wbits) N mm T ;* loop 0%nat 0 (2 - 1)
      else loop nbits wbits 2) h (read_out h).
Proof.
  intros He Ht HX Hx HnX Hexp Hle Ew Hv Htop Hloop. destruct (Nat.eqb_spec nbits wsize) as [->|Hlt].
  2: { apply (Hloop h nbits wbits 2 x v); [by apply power_refl|done|]. constructor; try done; [split_and!; done || lia|right; by right]. }
  rewrite Nat.sub_diag in Ew. change (2 ^ Z.of_nat 0) with 1 in Ew. rewrite Z.mul_1_r in Ew. subst wbits.
  eapply wp_chk; [apply (squares_spec X wsize (g ^ x) h He X_free HnX HX)|]. intros ? h1 [He1 (Hm1 & En1 & Es1) F1].
  rewrite <- Z.pow_mul_r in Hm1 by lia.
  assert (H1 : steps X (power h (x * 2 ^ Z.of_nat wsize)) h h1) by (by constructor).
  assert (Ht1 : table h1) by (eapply table_steps; [exact H1|done]).
  assert (Hk : (2 ^ (wsize - 1) <= Z.to_nat v < 2 ^ wsize)%nat).
  { assert (E1 : 2 ^ Z.of_nat wsize = 2 * 2 ^ Z.of_nat (wsize - 1)).
    { rewrite <- Z.pow_succ_r by lia. f_equal. lia. }
    split; [apply Nat2Z.inj_le|apply Nat2Z.inj_lt]; rewrite Nat2Z.inj_pow, Z2Nat.id by lia; change (Z.of_nat 2) with 2; lia. }
  eapply wp_chk; [apply (multiply_spec h1 (Z.to_nat v) _ He1 (proj2 Ht1 _ Hk) ltac:(lia) Hm1); [nia|lia]|].
  rewrite Z2Nat.id by lia. intros ? h2 H2.
  apply (Hloop h2 0%nat 0 (2 - 1) (x * 2 ^ Z.of_nat wsize + v) 0); [by eapply power_trans|eapply table_steps; [exact H2|done]|].
  constructor; [change (2 ^ Z.of_nat 0) with 1; lia|split_and!; try done; lia|nia|right; by left].
Qed.

(** One turn of the loop; [loop] is the rest of it. *)
Lemma bit_spec h nb bs nbits wbits state x v (loop : nat -> Z -> Z -> mpi (nat * Z)) : env h -> table h ->
  mont (mem h X) (g ^ x) -> (n + 1 <= mpi_n (mem h X))%nat -> reading (S (nb * 64 + bs)) nbits wbits state x v ->
  (nb < mpi_n eobj)%nat -> (bs < 64)%nat -> limbs (mpi_p eobj) ->
  (forall h' nbits' wbits' state' x' v', steps X (power h x') h h' -> table h' ->
     reading (nb * 64 + bs) nbits' wbits' state' x' v' -> wp (loop nbits' wbits' state') h' (read_out h')) ->
  wp (let* l := get_limb E nb in
      let ei := Z.land (Z.shiftr l (Z.of_nat bs)) 1 in
      if (ei =? 0) && (state =? 0) then loop nbits wbits state
      else if (ei =? 0) && (state =? 1) then mpi_montmul X X N mm T ;* loop nbits wbits state
      else
        let state := 2 in
        let nbits := (nbits + 1)%nat in
        let wbits := Z.lor wbits (Z.shiftl ei (Z.of_nat (wsize - nbits))) in
        if (nbits =? wsize)%nat then
          repeat wsize (mpi_montmul X X N mm T) ;* mpi_montmul X (W + Z.to_nat wbits) N mm T ;* loop 0%nat 0 (state - 1)
        else loop nbits wbits state) h (read_out h).
Proof.
  intros He Ht HX HnX Hr Hnb Hbs Hl Hloop. pose proof Hr as [_ (Ew & Hv & Hlt) Hx Hst].
  apply wp_get_limb; [by rewrite (e_E _ He)|]. rewrite (e_E _ He), exponent_bit by done.
  pose proof (next_bit _ _ _ _ _ _ (val_nonneg _ Hl) Hr) as Hbit. set (ei := _ mod 2) in *. cbv zeta in Hbit |- *. fold ei in Hbit.
  assert (Hei : ei = 0 \/ ei = 1) by (unfold ei; pose proof (Z.mod_pos_bound (val (mpi_p eobj) / 2 ^ Z.of_nat (nb * 64 + bs)) 2 ltac:(lia)); lia).
  assert (Hloop' : forall h' nbits' wbits' state' x' v', steps X (power h x') h h' -> table h' ->
     reading (nb * 64 + bs) nbits' wbits' state' x' v' -> wp (loop nbits' wbits' state') h' (read_out h)).
  { intros h' nbits' wbits' state' x' v' H1 H2 H3. eapply wp_mono; [by eapply Hloop|]. intros res h2 Hf. by eapply read_out_trans. }
  destruct (Z.eqb_spec ei 0) as [E0|E0], (Z.eqb_spec state 0) as [S0|S0]; cbn [andb].
  1: { destruct Hst as [(-> & -> & ->)|[(-> & _)|(-> & _)]]; [|lia..]. apply (Hloop' h 0%nat wbits 0 0 0); [by apply power_refl|done|].
       change (2 ^ Z.of_nat 0) with 1 in Hv. constructor; [rewrite Hbit; lia|split_and!; try done; lia|done|by left]. }
  1: destruct (Z.eqb_spec state 1) as [S1|S1].
  1: { destruct Hst as [(-> & -> & _)|[(_ & ->)|(-> & _)]]; [lia| |lia]. change (2 ^ Z.of_nat 0) with 1 in Hv.
       eapply wp_chk; [by apply square_spec|]. intros ? h1 H1. apply (Hloop' h1 0%nat wbits state (2 * x) 0); [done|eapply table_steps; [exact H1|done]|].
       constructor; [rewrite Hbit; change (2 ^ Z.of_nat 1) with 2; lia|split_and!; try done; lia|lia|right; by left]. }
  all: assert (Hnz : ei = 0 -> state = 2) by (intros Hz; destruct Hst as [(Hs & _)|[(Hs & _)|(Hs & _)]]; lia).
  all: destruct (window_bit _ _ _ _ _ _ ei Hei Hr Hnz) as (Ew' & Hv' & Htop).
  all: set (wbits' := Z.lor wbits (Z.shiftl ei (Z.of_nat (wsize - (nbits + 1))))) in *.
  all: apply (window_spec h (nb * 64 + bs) (nbits + 1) wbits' x (2 * v + ei) loop He Ht HX Hx HnX);
    [by rewrite Nat.add_1_r|lia|exact Ew'|exact Hv'|exact Htop|exact Hloop'].
Qed.

Lemma exponent_loop_spec fuel : forall h nblimbs bufsize nbits wbits state x v, env h -> table h ->
  mont (mem h X) (g ^ x) -> (n + 1 <= mpi_n (mem h X))%nat ->
  reading (nblimbs * 64 + bufsize) nbits wbits state x v ->
  (nblimbs * 64 + bufsize <= mpi_n eobj * 64)%nat -> (bufsize < 64)%nat -> (nblimbs * 64 + bufsize < fuel)%nat -> limbs (mpi_p eobj) ->
  wp (exponent_loop fuel wsize X E N W mm T nblimbs bufsize nbits wbits state) h (read_out h).
Proof.
  induction fuel as [|fuel IH]; intros h nblimbs bufsize nbits wbits state x v He Ht HX HnX Hr Hsz Hb Hf Hl; [lia|]. cbn [exponent_loop].
  assert (Hstep : forall nb bs, (nblimbs * 64 + bufsize = S (nb * 64 + bs))%nat -> (bs < 64)%nat -> wp (
      let* l := get_limb E nb in
      let ei := Z.land (Z.shiftr l (Z.of_nat bs)) 1 in
      if (ei =? 0) && (state =? 0) then exponent_loop fuel wsize X E N W mm T nb bs nbits wbits state
      else if (ei =? 0) && (state =? 1) then
        mpi_montmul X X N mm T ;* exponent_loop fuel wsize X E N W mm T nb bs nbits wbits state
      else
        let state := 2 in
        let nbits := (nbits + 1)%nat in
        let wbits := Z.lor wbits (Z.shiftl ei (Z.of_nat (wsize - nbits))) in
        if (nbits =? wsize)%nat then
          repeat wsize (mpi_montmul X X N mm T) ;* mpi_montmul X (W + Z.to_nat wbits) N mm T ;*
          exponent_loop fuel wsize X E N W mm T nb bs 0 0 (state - 1)
        else exponent_loop fuel wsize X E N W mm T nb bs nbits wbits state) h (read_out h)).
  { intros nb bs Hbs Hbs64. apply (bit_spec h nb bs nbits wbits state x v
      (fun nbits wbits state => exponent_loop fuel wsize X E N W mm T nb bs nbits wbits state)); try done; try lia.
    - by rewrite <- Hbs.
    - intros h' nbits' wbits' state' x' v' [He' (HX' & En' & _) _] Ht' Hr'. apply (IH h' _ _ _ _ _ x' v'); try done; lia. }
  destruct (Nat.eqb_spec bufsize 0) as [Eb|Eb], (Nat.eqb_spec nblimbs 0) as [Ek|Ek]; cbn [andb].
  1: { subst. apply wp_ret. exists x, v. destruct Hr as [Hexp (Ew & Hv & Hlt) Hx _]. change (2 ^ Z.of_nat (0 * 64 + 0)) with 1 in Hexp.
       rewrite Z.div_1_r in Hexp. split; [constructor; [done|by split|done]|].
       cbn [fst snd]. tauto. }
  - apply (Hstep (nblimbs - 1)%nat (64 - 1)%nat); lia.
  - apply (Hstep nblimbs (bufsize - 1)%nat); lia.
  - apply (Hstep nblimbs (bufsize - 1)%nat); lia.
Qed.

(** The highest bit of a partial window, shifted to position [wsize]. *)
Lemma window_top k wbits v : (S k < wsize)%nat -> 0 <= v < 2 ^ Z.of_nat (S k) ->
  wbits mod 2 ^ Z.of_nat wsize = v * 2 ^ Z.of_nat (wsize - S k) -> 0 <= wbits < 2 ^ (60 - Z.of_nat (S k)) ->
  exists top low, v = top * 2 ^ Z.of_nat k + low /\ 0 <= low < 2 ^ Z.of_nat k /\ (top = 0 \/ top = 1) /\
    let wbits' := u64 (Z.shiftl wbits 1) in
    wbits' mod 2 ^ Z.of_nat wsize = low * 2 ^ Z.of_nat (wsize - k) /\
    (Z.land wbits' (Z.shiftl 1 (Z.of_nat wsize)) =? 0) = (top =? 0) /\ 0 <= wbits' < 2 ^ (60 - Z.of_nat k).
Proof.
  clear Hn. intros Hk Hv Hw Hwb.
  assert (Hb : 2 ^ (60 - Z.of_nat k) = 2 * 2 ^ (60 - Z.of_nat (S k))) by (rewrite <- Z.pow_succ_r by lia; f_equal; lia).
  assert (Hb60 : 2 ^ (60 - Z.of_nat k) <= 2 ^ 60) by (apply Z.pow_le_mono_r; lia).
  rewrite wrap_id by (unfold fits; rewrite Z.shiftl_mul_pow2 by lia; lia). rewrite Z.shiftl_mul_pow2 by lia. change (2 ^ 1) with 2.
  set (p := 2 ^ Z.of_nat (wsize - S k)) in *. assert (Hp : 0 < p) by (apply Z.pow_pos_nonneg; lia).
  assert (Ep : 2 ^ Z.of_nat (wsize - k) = 2 * p) by (unfold p; rewrite <- Z.pow_succ_r by lia; f_equal; lia).
  assert (Ewp : 2 ^ Z.of_nat wsize = 2 ^ Z.of_nat (S k) * p) by (unfold p; rewrite <- Z.pow_add_r by lia; f_equal; lia).
  set (m := 2 ^ Z.of_nat k) in *. assert (Em : 2 ^ Z.of_nat (S k) = 2 * m) by (unfold m; rewrite Nat2Z.inj_succ, Z.pow_succ_r; lia).
  assert (Hm : 0 < m) by (apply Z.pow_pos_nonneg; lia). rewrite Em in *.
  pose proof (Z.div_mod v m ltac:(lia)) as Ev. pose proof (Z.mod_pos_bound v m Hm) as Hr. set (top := v / m) in *. set (low := v mod m) in *.
  assert (Htop : top = 0 \/ top = 1) by (unfold top; pose proof (Z.div_pos v m ltac:(lia) Hm); pose proof (Z.div_lt_upper_bound v m 2 Hm ltac:(lia)); lia).
  assert (Hmp : 0 < 2 * m * p) by (apply Z.mul_pos_pos; lia).
  rewrite Ewp in Hw. pose proof (Z.div_mod wbits (2 * m * p) ltac:(lia)) as Ewb. rewrite Hw in Ewb. set (q := wbits / (2 * m * p)) in *.
  assert (E1 : wbits * 2 = 2 * m * p * (2 * q + top) + low * (2 * p)) by (rewrite Ewb, Ev; ring).
  assert (E2 : 0 <= low * (2 * p) < 2 * m * p).
  { assert (low * (2 * p) < m * (2 * p)) by (apply Z.mul_lt_mono_pos_r; lia). split; [apply Z.mul_nonneg_nonneg; lia|lia]. }
  assert (Etop : wbits * 2 / (2 * m * p) = 2 * q + top) by (symmetry; apply (Z.div_unique _ _ _ (low * (2 * p))); [left; exact E2|exact E1]).
  exists top, low. split; [lia|]. split; [exact Hr|]. split; [exact Htop|]. cbv zeta. split; [|split; [|lia]].
  - rewrite Ewp, Ep. symmetry. apply (Z.mod_unique _ _ (2 * q + top)); [left; exact E2|exact E1].
  - rewrite Z.shiftl_mul_pow2, Z.mul_1_l, land_pow2, Z.testbit_eqb, Ewp, Etop by lia.
    rewrite Z.add_comm, Z.mul_comm, Z.mod_add by lia. destruct Htop as [-> | ->]; reflexivity.
Qed.

(** The bits that are left, the highest first. *)
Lemma remaining_bits_spec k : forall h wbits x v, env h -> table h -> mont (mem h X) (g ^ x) -> 0 <= x ->
  (n + 1 <= mpi_n (mem h X))%nat -> (k < wsize)%nat -> 0 <= v < 2 ^ Z.of_nat k ->
  wbits mod 2 ^ Z.of_nat wsize = v * 2 ^ Z.of_nat (wsize - k) -> 0 <= wbits < 2 ^ (60 - Z.of_nat k) ->
  wp (remaining_bits k wsize X N W mm T wbits) h (fun _ h' => steps X (power h (x * 2 ^ Z.of_nat k + v)) h h').
Proof.
  induction k as [|k IH]; intros h wbits x v He Ht HX Hx HnX Hk Hv Hw Hwb; cbn [remaining_bits].
  - change (2 ^ Z.of_nat 0) with 1 in *. apply wp_ret. replace (x * 1 + v) with x by lia. by apply power_refl.
  - eapply wp_chk; [by apply square_spec|]. intros ? h1 H1.
    destruct (window_top k wbits v Hk Hv Hw Hwb) as (top & low & Ev & Hlow & Htop & Hw' & Hbit & Hwb').
    set (wbits' := u64 (Z.shiftl wbits 1)) in *. rewrite Hbit.
    assert (Hnext : forall h', steps X (power h (2 * x + top)) h h' ->
      wp (remaining_bits k wsize X N W mm T wbits') h' (fun _ h2 => steps X (power h (x * 2 ^ Z.of_nat (S k) + v)) h h2)).
    { intros h' H'. pose proof H' as [He' (HX' & En' & _) _].
      assert (Hx' : 0 <= 2 * x + top) by (clear - Hx Htop; lia).
      assert (HnX' : (n + 1 <= mpi_n (mem h' X))%nat) by (rewrite En'; exact HnX).
      assert (Hk' : (k < wsize)%nat) by (clear - Hk; lia).
      assert (Ht' : table h') by (eapply table_steps; [exact H'|exact Ht]).
      eapply wp_mono; [exact (IH h' wbits' (2 * x + top) low He' Ht' HX' Hx' HnX' Hk' Hlow Hw' Hwb')|].
      intros ? h2 H2. eapply power_trans; [exact H'|]. rewrite Nat2Z.inj_succ, Z.pow_succ_r by lia.
      replace (x * (2 * 2 ^ Z.of_nat k) + v) with ((2 * x + top) * 2 ^ Z.of_nat k + low) by (rewrite Ev; ring). exact H2. }
    pose proof H1 as [He1 (HX1 & En1 & _) F1].
    destruct Htop as [Et|Et]; rewrite Et in *; cbn [Z.eqb].
    + eapply wp_chk; [apply (wp_ret tt h1 (fun _ h' => h' = h1)); reflexivity|]. intros ? h2 ->.
      apply Hnext. by rewrite Z.add_0_r.
    + assert (Ht1 : table h1) by (eapply table_steps; [exact H1|exact Ht]).
      assert (H1w : (1 < 2 ^ wsize)%nat) by (pose proof (pow2_mono 1 wsize ltac:(lia)) as P1; change (2 ^ 1)%nat with 2%nat in P1; lia).
      eapply wp_chk; [apply (multiply_spec h1 1 (2 * x) He1 (proj1 Ht1) H1w HX1); [clear - Hx; lia|rewrite En1; exact HnX]|].
      intros ? h2 H2. apply Hnext. eapply power_trans; [exact H1|exact H2].
Qed.

Lemma montred_steps A u h : env h -> free A -> (n + 1 <= mpi_n (mem h A))%nat -> mag (mem h A) < R ->
  (Nv | mag (mem h A) - u * R) -> 
  wp (mpi_montred A N mm T) h (fun _ h' =>
    steps A (fun x => mag x = u mod Nv /\ mpi_n x = mpi_n (mem h A) /\ mpi_s x = mpi_s (mem h A)) h h').
Proof.
  intros [G Top EN EE ET] (HA & HAN & HAE & HAT) HnA Hlt [a Ea]. unfold mpi_montred.
  assert (Hone : wf (Mpi 1 [1])) by (split; [by apply limbs_cons; split; [|apply limbs_nil]|by left]).
  assert (E1 : mag (Mpi 1 [1]) = 1) by done. pose proof (mag_nonneg _ (proj1 (G A ltac:(lia)))) as HmA.
  eapply wp_mono; [apply (montmul_by_spec A (Mpi 1 [1]) N mm T h); rewrite ?EN, ?E1;
    [exact G|lia|lia|lia|congruence|congruence|congruence|exact Hone|cbn; lia|lia|exact Hmm|exact ET|exact HnA|lia|lia|nia]|].
  rewrite EN, E1. intros ? h' [T1 G1 (Es & En & Hlt' & [b Eb]) HT F1]. constructor.
  - constructor; [done|lia|rewrite F1 by lia; done|rewrite F1 by lia; done|lia].
  - split; [|done]. pose proof (mag_nonneg _ (proj1 (G1 A ltac:(lia)))) as Hm'.
    assert (Hd : (Nv | mag (mem h' A) - u)).
    { apply Hcancel. exists (b + a). rewrite Z.mul_sub_distr_r. lia. }
    destruct Hd as [q Hq]. apply (Z.mod_unique _ _ (- q)); [left; lia|lia].
  - intros c Hc Na Nt. apply F1; lia.
Qed.

Lemma exponentiate_spec h : env h -> entry h 1 -> mont (mem h X) 1 -> (n + 1 <= mpi_n (mem h X))%nat -> limbs (mpi_p eobj) ->
  wp (exponentiate wsize X E N W mm T) h (fun _ h' => env h' /\
    (forall a, (a < W)%nat -> a <> X -> a <> T -> mem h' a = mem h a) /\
    mag (mem h' X) = g ^ val (mpi_p eobj) mod Nv /\ mpi_n (mem h' X) = mpi_n (mem h X) /\ mpi_s (mem h' X) = mpi_s (mem h X)).
Proof.
  intros He H1 HX HnX Hl. unfold exponentiate.
  eapply wp_chk; [by apply power_table_spec|]. intros u1 h1 (He1 & Ht1 & F1). apply wp_load. rewrite (e_E _ He1).
  assert (EX1 : mem h1 X = mem h X) by (apply F1; lia).
  eapply wp_chk; [apply (exponent_loop_spec (mpi_n eobj * 64 + 1) h1 (mpi_n eobj) 0 0 0 0 0 0 He1 Ht1); rewrite ?EX1; try exact Hl; try lia; [exact HX|]|].
  { change (2 ^ Z.of_nat 0) with 1. constructor; [|split_and!; try done; try lia|lia|by left].
    rewrite Nat.add_0_r, Z.mul_0_l, Z.add_0_l. apply Z.div_small. pose proof (val_bound _ Hl) as Hb. rewrite pow_bits in Hb.
    replace (Z.of_nat (mpi_n eobj * 64)) with (64 * Z.of_nat (length (mpi_p eobj))) by (unfold mpi_n; lia). done. }
  intros [nbits wbits] h2 (x & v & H2 & Hx & Hval & Ew & Hv & Hlt). cbn [fst snd] in *. pose proof H2 as [He2 (HX2 & En2 & Es2) F2].
  assert (Ht2 : table h2) by (eapply table_steps; [exact H2|exact Ht1]). rewrite EX1 in En2, Es2.
  assert (Hp : 0 < 2 ^ Z.of_nat (wsize - nbits)) by (apply Z.pow_pos_nonneg; lia).
  assert (Ep : 2 ^ Z.of_nat wsize = 2 ^ Z.of_nat nbits * 2 ^ Z.of_nat (wsize - nbits)) by (rewrite <- Z.pow_add_r by lia; f_equal; lia).
  assert (Hwb : 0 <= wbits < 2 ^ Z.of_nat wsize) by (rewrite Ew, Ep; split; [apply Z.mul_nonneg_nonneg; lia|apply Z.mul_lt_mono_pos_r; lia]).
  assert (Hw6 : 2 ^ Z.of_nat wsize <= 2 ^ (60 - Z.of_nat nbits)) by (apply Z.pow_le_mono_r; lia).
  eapply wp_chk; [apply (remaining_bits_spec nbits h2 wbits x v He2 Ht2 HX2 Hx ltac:(lia) Hlt Hv); [rewrite Z.mod_small by exact Hwb; exact Ew|lia]|].
  rewrite <- Hval. intros u3 h3 [He3 ([Hlt3 Hd3] & En3 & Es3) F3].
  eapply wp_mono; [apply (montred_steps X (g ^ val (mpi_p eobj)) h3 He3 X_free); [lia|lia|exact Hd3]|].
  intros u4 h4 [He4 (Em4 & En4 & Es4) F4]. split; [exact He4|]. split; [|split; [exact Em4|split; congruence]].
  intros a Ha Na Nt. rewrite F4, F3, F2, F1 by lia. reflexivity.
Qed.

(** ** From the base and R^2 to the power *)

(** [W[1]] takes the base, reduced. *)
Lemma first_entry_spec A h : env h -> (A < W)%nat -> value (mem h A) = g -> 0 <= g -> (0 < mpi_n (mem h A))%nat ->
  (mpi_n (mem h A) + 2 <= MBEDTLS_MPI_MAX_LIMBS)%nat -> mpi_s nobj = 1 -> (n + 1 <= mpi_n (mem h (W + 1)%nat))%nat -> (1 < 2 ^ wsize)%nat ->
  wp (if 0 <=? mbedtls_mpi_cmp_mpi (mem h A) (mem h N) then mbedtls_mpi_mod_mpi (W + 1) A N else mbedtls_mpi_copy (W + 1) A) h
    (fun _ h' => steps (W + 1) (fun x => mag x = g mod Nv /\ (n + 1 <= mpi_n x)%nat) h h').
Proof.
  intros He HA Hg Hg0 HnA HA2 Hs HnW Hw1. pose proof He as [G Top EN EE ET].
  rewrite cmp_mpi_spec by (apply G; lia). rewrite ord_geb, Hg, EN.
  assert (EvN : value nobj = Nv) by (unfold value; rewrite Hs; lia). rewrite EvN.
  assert (Hf : free (W + 1)) by (apply entry_free; lia).
  destruct (Z.leb_spec Nv g) as [Hge|Hlt].
  - eapply wp_mono; [apply (mod_mpi_spec (W + 1) A N h); rewrite ?EN, ?EvN; [exact G|lia|lia|lia|lia|lia|exact HA2]|].
    intros ? h' S1. cbn beta in S1. pose proof (sets_steps _ _ _ _ He Hf S1) as [He1 (Ev & _ & Hk) F1].
    constructor; [exact He1| |exact F1]. rewrite Hg, EN, EvN in Ev. split; [|lia].
    pose proof (Z.mod_pos_bound g Nv ltac:(lia)). rewrite <- value_abs by (apply (e_good _ He1); rewrite (e_top _ He1); lia). lia.
  - eapply wp_mono; [apply (copy_spec (W + 1) A h); [exact G|lia|lia]|].
    intros ? h' S1. cbn beta in S1. pose proof (sets_steps _ _ _ _ He Hf S1) as [He1 E1 F1].
    constructor; [exact He1| |exact F1]. rewrite E1, (proj2 (Nat.eqb_neq _ _)) by lia. rewrite copied_mag by (apply G; lia).
    rewrite <- value_abs, Hg, Z.mod_small by (apply G || idtac; lia). split; [lia|].
    rewrite copied_n; [lia|]. intros E0. unfold mpi_n in HnA. rewrite E0 in HnA. cbn in HnA. lia.
Qed.

Lemma powers_mod_spec A RR h (rest : mpi unit) Q : env h -> (A < W)%nat -> value (mem h A) = g -> 0 <= g -> (0 < mpi_n (mem h A))%nat ->
  (mpi_n (mem h A) + 2 <= MBEDTLS_MPI_MAX_LIMBS)%nat -> mpi_s nobj = 1 -> (n + 1 <= mpi_n (mem h (W + 1)%nat))%nat ->
  (n + 1 <= mpi_n (mem h X))%nat -> limbs (mpi_p eobj) ->
  (RR < W)%nat -> RR <> X -> RR <> T -> RR <> N -> (0 < mpi_n (mem h RR))%nat -> mont (mem h RR) R ->
  (forall h', env h' -> (forall a, (a < W)%nat -> a <> X -> a <> T -> mem h' a = mem h a) ->
     mag (mem h' X) = g ^ val (mpi_p eobj) mod Nv -> mpi_s (mem h' X) = mpi_s (mem h RR) ->
     (n + 1 <= mpi_n (mem h' X) <= mpi_n (mem h X))%nat -> wp rest h' Q) ->
  wp ((if 0 <=? mbedtls_mpi_cmp_mpi (mem h A) (mem h N) then mbedtls_mpi_mod_mpi (W + 1) A N else mbedtls_mpi_copy (W + 1) A) ;*
      mpi_montmul (W + 1) RR N mm T ;* mbedtls_mpi_copy X RR ;* mpi_montred X N mm T ;* exponentiate wsize X E N W mm T ;* rest) h Q.
Proof.
  intros He HA Hg Hg0 HnA HA2 Hs HnW HnX Hl HRW HRX HRT HRN HnR HR Hrest.
  assert (Hw1 : (1 < 2 ^ wsize)%nat) by (pose proof (pow2_mono 1 wsize ltac:(lia)) as P1; change (2 ^ 1)%nat with 2%nat in P1; lia).
  assert (Hf : free (W + 1)) by (apply entry_free; lia).
  eapply wp_chk; [apply (first_entry_spec A h He); assumption|]. intros u1 h1 [He1 [Em1 En1] F1].
  assert (ERR1 : mem h1 RR = mem h RR) by (apply F1; lia). pose proof HR as [HR1 [q Hq]].
  pose proof (Z.mod_pos_bound g Nv ltac:(lia)) as Hgm.
  pose proof (mag_nonneg _ (proj1 (e_good _ He RR ltac:(rewrite (e_top _ He); lia)))) as HRR0.
  eapply wp_chk; [apply (montmul_raw (W + 1) RR h1 He1 Hf); rewrite ?ERR1, ?Em1; [lia|lia|exact HnR|lia|lia|nia]|].
  rewrite ERR1, Em1. intros u2 h2 [He2 ([Hlt2 [c Hc]] & En2 & Es2) F2].
  assert (H1 : entry h2 1).
  { split; [|lia]. split; [exact Hlt2|]. rewrite Z.pow_1_r. apply Hcancel.
    exists (c + (g mod Nv) * q - (g / Nv) * R * R). pose proof (Z.div_mod g Nv ltac:(lia)) as Eg.
    replace (mag (mem h RR)) with (R * R + q * Nv) in Hc by lia. set (gm := g mod Nv) in *.
    rewrite Z.mul_sub_distr_r. replace (mag (mem h2 (W + 1)%nat) * R) with (c * Nv + gm * (R * R + q * Nv)) by lia.
    rewrite Eg at 1. ring. }
  assert (ERR2 : mem h2 RR = mem h RR) by (rewrite F2, F1 by lia; reflexivity).
  assert (EX2 : mem h2 X = mem h X) by (rewrite F2, F1 by lia; reflexivity).
  eapply wp_chk; [apply (copy_spec X RR h2); [apply He2|rewrite (e_top _ He2); lia|rewrite (e_top _ He2); lia]|]. intros u3 h3 S3. cbn beta in S3.
  pose proof (sets_steps _ _ _ _ He2 X_free S3) as [He3 N3 F3]. rewrite (proj2 (Nat.eqb_neq _ _)), ERR2, EX2 in N3 by lia.
  assert (Hne : mpi_p (mem h RR) <> []) by (intros E0; unfold mpi_n in HnR; rewrite E0 in HnR; cbn in HnR; lia).
  assert (EX3 : mag (mem h3 X) = mag (mem h RR)).
  { rewrite N3. apply copied_mag. apply (e_good _ He). rewrite (e_top _ He). lia. }
  assert (Hn0 : (0 < n)%nat) by (destruct n; [change (pow 0) with 1 in HNv; lia|lia]).
  assert (En3 : (n + 1 <= mpi_n (mem h3 X) <= mpi_n (mem h X))%nat).
  { split; [rewrite N3, copied_n by exact Hne; lia|]. rewrite N3.
    pose proof (result_copied (mem h X) (mem h RR) (proj1 (e_good _ He RR ltac:(rewrite (e_top _ He); lia))) n Hn0 ltac:(lia)). lia. }
  assert (Es3 : mpi_s (mem h3 X) = mpi_s (mem h RR)) by (rewrite N3; unfold copied; destruct (mpi_p (mem h RR)); done).
  eapply wp_chk; [apply (montred_steps X R h3 He3 X_free (proj1 En3)); [lia|rewrite EX3; by exists q]|]. intros u4 h4 [He4 (Em4 & En4 & Es4) F4].
  assert (Hm4 : mont (mem h4 X) 1).
  { rewrite <- (Z.mul_1_l R) in Em4. unfold mont. rewrite Em4, Z.mul_1_l. pose proof (Z.div_mod R Nv ltac:(lia)).
    pose proof (Z.mod_pos_bound R Nv ltac:(lia)). split; [lia|]. exists (- (R / Nv)). lia. }
  assert (H4 : entry h4 1) by (unfold entry; rewrite F4, F3 by lia; exact H1).
  eapply wp_chk; [apply (exponentiate_spec h4 He4 H4 Hm4); [lia|exact Hl]|]. intros u5 h5 (He5 & F5 & Em5 & En5 & Es5).
  apply Hrest; [exact He5| |exact Em5|congruence|lia].
  intros a Ha Na Nt. rewrite F5, F4, F3, F2, F1 by lia. reflexivity.
Qed.

End Window.
End Memory.
