(* ===== verification/MpiExpMod.v ===== *)
(** * MpiExpMod: modular exponentiation as a whole *)
From S2P Require Import Prelude.
From S2P Require Import Limbs.
From S2P Require Import Mpi.
From S2P Require Import MpiBits.
From S2P Require Import MpiFacts.
From S2P Require Import MpiBitsFacts.
From S2P Require Import MpiArith.
From S2P Require Import MpiDiv.
From S2P Require Import MpiDivFacts.
From S2P Require Import MpiQuotient.
From S2P Require Import MpiMont.
From S2P Require Import MpiMontFacts.
From S2P Require Import MpiExpFacts.

Open Scope C.

Lemma window_size_range i : (0 < window_size i <= 6)%nat.
Proof. unfold window_size, MBEDTLS_MPI_WINDOW_SIZE. repeat case_match; lia. Qed.

Lemma odd_low_limb x : wf x -> (0 < mpi_n x)%nat -> Z.land (mpi_p x !!! 0%nat) 1 = mag x mod 2.
Proof.
  intros [Hl _] Hn. unfold mag. change 1 with (Z.ones 1). rewrite Z.land_ones by done. change (2 ^ 1) with 2.
  destruct (mpi_p x) as [|y p] eqn:E; [unfold mpi_n in Hn; rewrite E in Hn; cbn in Hn; lia|]. cbn [val].
  change (y :: p !!! 0%nat) with y. unfold base. replace (y + 2 ^ 64 * val p) with (y + 2 ^ 63 * val p * 2) by lia.
  by rewrite Z.mod_add.
Qed.

(** An odd modulus is prime to the powers of the base. *)
Lemma odd_cancel v k z : v mod 2 = 1 -> (v | z * pow k) -> (v | z).
Proof.
  intros Hodd Hd. rewrite Z.mul_comm in Hd. apply (Z.gauss _ (pow k)); [done|]. unfold pow, base. rewrite <- Z.pow_mul_r by lia.
  set (e := 64 * Z.of_nat k). assert (He : 0 <= e) by lia. clearbody e. clear Hd.
  apply Z.coprime_pow_r; [done|]. unfold Z.coprime. by rewrite Z.gcd_comm, <- Z.gcd_mod, Hodd by lia.
Qed.

Section Memory.
Context `{Callocs}.

(** [R^2] modulo [nobj], as the last argument of [mbedtls_mpi_exp_mod] keeps it. *)
Definition square_residue (nobj x : mbedtls_mpi) : Prop :=
  (0 < mpi_n x)%nat /\ mag x < mag nobj /\ (mag nobj | mag x - pow (mpi_n nobj) * pow (mpi_n nobj)) /\
  (mpi_s x = 1 \/ mag nobj = 1).

Definition known (nobj : mbedtls_mpi) (x : mbedtls_mpi) : Prop := mpi_p x = [] \/ square_residue nobj x.

Record precomputed (nobj : mbedtls_mpi) (RR : addr) (_RR : option addr) (h h' : heap) : Prop := Precomputed {
  q_top : top h' = top h;
  q_good : good h';
  q_RR : square_residue nobj (mem h' RR);
  q_known : optional _RR (fun r => square_residue nobj (mem h' r));
  q_rest : forall a, (a < top h)%nat -> a <> RR -> Some a <> _RR -> mem h' a = mem h a
}.

Lemma reduced_square nobj x : wf x -> 0 < mag nobj -> mag nobj mod 2 = 1 ->
  value x = pow (mpi_n nobj) * pow (mpi_n nobj) mod mag nobj -> (0 < mpi_n x)%nat -> square_residue nobj x.
Proof.
  intros Hw HN Hodd Ev Hn. set (R := pow (mpi_n nobj)) in *. pose proof (Z.mod_pos_bound (R * R) (mag nobj) HN) as Hb.
  pose proof (Z.div_mod (R * R) (mag nobj) ltac:(lia)) as Ed.
  assert (Em : mag x = (R * R) mod mag nobj) by (rewrite <- value_abs by exact Hw; lia).
  split; [exact Hn|]. split; [lia|]. split; [exists (- (R * R / mag nobj)); fold R; lia|].
  destruct (Z.eq_dec (value x) 0) as [E0|E0]; [right|left; apply (value_positive x Hw); lia].
  assert (Hd : (mag nobj | 1)).
  { apply (odd_cancel _ (mpi_n nobj)); [exact Hodd|]. apply (odd_cancel _ (mpi_n nobj)); [exact Hodd|].
    exists (R * R / mag nobj). fold R. lia. }
  apply Z.divide_1_r_nonneg in Hd; lia.
Qed.

Lemma precompute_spec RR N _RR h : good h -> (RR < top h)%nat -> (N < top h)%nat -> RR <> N ->
  optional _RR (fun r => (r < top h)%nat /\ r <> RR /\ r <> N /\ known (mem h N) (mem h r)) ->
  0 < value (mem h N) -> mag (mem h N) mod 2 = 1 -> (2 * mpi_n (mem h N) + 3 <= MBEDTLS_MPI_MAX_LIMBS)%nat ->
  mpi_n (mem h RR) = 0%nat ->
  wp (precompute RR N _RR) h (fun _ h' => precomputed (mem h N) RR _RR h h').
Proof.
  intros G HR HN HRN Hr HvN Hodd Hsz HnR. unfold precompute. set (nobj := mem h N) in *.
  destruct (value_positive nobj) as [_ EmN]; [by apply G|done|].
  assert (Hfresh : wp (mbedtls_mpi_lset RR 1 ;*
      let* n := load N in mbedtls_mpi_shift_l RR (mpi_n n * 2 * 64) ;* mbedtls_mpi_mod_mpi RR RR N ;*
      match _RR with Some r => let* rr := load RR in store r rr | None => ret tt end) h (fun _ h' => precomputed nobj RR _RR h h')).
  { eapply wp_chk; [apply (lset_int_spec RR 1 h); [exact G|exact HR|done]|]. intros ? h1 [T1 G1 (Ev1 & Em1 & _ & En1) F1].
    apply wp_load. rewrite (F1 N) by lia. fold nobj. set (n := mpi_n nobj) in *.
    assert (Epow : 2 ^ Z.of_nat (n * 2 * 64) = pow n * pow n).
    { rewrite <- pow_add, <- bits_pow. f_equal. lia. }
    pose proof (pow_pos n) as Pn.
    eapply wp_chk; [apply (shift_l_spec RR (n * 2 * 64) h1); [exact G1|lia| |lia]|].
    { rewrite Em1, Epow, <- pow_add. change (Z.abs 1) with 1. rewrite Z.mul_1_l. apply Z.lt_le_trans with (pow (S (n + n))); [|apply pow_mono; lia].
      rewrite pow_S. pose proof (pow_pos (n + n)). unfold base. lia. }
    intros ? h2 [T2 G2 (Es2 & Em2 & En2) F2]. rewrite Em1, Epow in Em2.
    assert (EN2 : mem h2 N = nobj) by (rewrite F2, F1 by lia; reflexivity).
    assert (HnR2 : (0 < mpi_n (mem h2 RR) <= 2 * n + 1)%nat).
    { rewrite HnR in En1. change (Nat.max 1 0) with 1%nat in En1. rewrite En1 in En2.
      destruct (Nat.ltb_spec (1 * 64) (bits (mag (mem h1 RR)) + n * 2 * 64)) as [Hc|Hc]; [|lia].
      rewrite Em1 in Hc, En2. change (bits (Z.abs 1)) with 1%nat in Hc, En2.
      pose proof (BITS_TO_LIMBS_spec (1 + n * 2 * 64) (2 * n + 1) ltac:(lia)). pose proof (BITS_TO_LIMBS_ge (1 + n * 2 * 64)). lia. }
    eapply wp_chk; [apply (mod_mpi_spec RR RR N h2); rewrite ?EN2; [exact G2|lia|lia|lia|exact HRN|exact HvN|lia]|].
    rewrite EN2. intros ? h3 [T3 G3 (Ev3 & _ & K3) F3].
    assert (Hsq : square_residue nobj (mem h3 RR)).
    { apply reduced_square; [apply G3; lia|lia|exact Hodd| |lia]. rewrite Ev3, EmN. f_equal. fold n. unfold value. rewrite Es2, Em2.
      unfold value in Ev1. rewrite Em1 in Ev1. change (Z.abs 1) with 1 in *. rewrite Z.mul_1_r in Ev1. rewrite Ev1. lia. }
    destruct _RR as [r|].
    - cbn [optional] in Hr. destruct Hr as (Hrt & HrR & HrN & _). apply wp_load.
      eapply wp_mono; [apply (sets_store r (mem h3 RR) (fun x => x = mem h3 RR) h3); [exact G3|lia|apply G3; lia|apply G3; lia|reflexivity]|].
      intros ? h4 [T4 G4 N4 F4]. cbn beta in N4. constructor; [lia|exact G4| |cbn [optional]; by rewrite N4|].
      + by rewrite F4 by lia.
      + intros a Ha Na Nr. rewrite F4, F3, F2, F1 by (congruence || lia). reflexivity.
    - apply wp_ret. constructor; [lia|exact G3|exact Hsq|done|]. intros a Ha Na _. rewrite F3, F2, F1 by lia. reflexivity. }
  destruct _RR as [r|]; [|eapply wp_chk; [apply (wp_ret mbedtls_mpi_init h (fun v h' => v = mbedtls_mpi_init /\ h' = h)); done|]; intros v h1 [-> ->]; exact Hfresh].
  apply wp_load. cbn [optional] in Hr. destruct Hr as (Hrt & HrR & HrN & Hk).
  destruct (mpi_p (mem h r)) as [|l p] eqn:Ep; [exact Hfresh|].
  destruct Hk as [Hk|Hk]; [congruence|].
  eapply wp_mono; [apply (sets_store RR (mem h r) (fun x => x = mem h r) h); [exact G|exact HR|apply G; lia|apply G; lia|reflexivity]|].
  intros ? h4 [T4 G4 N4 F4]. cbn beta in N4. constructor; [lia|exact G4|by rewrite N4|cbn [optional]; by rewrite F4 by lia|].
  intros a Ha Na _. by apply F4.
Qed.

(** ** The locals *)

Definition enter_array (k : nat) (h : heap) : heap :=
  Heap (fun a => if decide (top h <= a < top h + k)%nat then mbedtls_mpi_init else mem h a) (top h + k) (calls h).

Lemma wp_local_array {A} k (body : addr -> mpi A) h Q :
  wp (body (top h)) (enter_array k h) (fun v h' => Q v (leave h h')) -> wp (local_array k body) h Q.
Proof. unfold wp, local_array, enter_array, leave. by destruct (body (top h) _). Qed.

Definition enter_all (h : heap) : heap := enter_array (2 * 2 ^ MBEDTLS_MPI_WINDOW_SIZE) (enter (enter (enter h))).

Lemma wp_locals_all {A} (body : addr -> addr -> addr -> addr -> mpi A) h Q : let L := top h in
  wp (body L (S L) (S (S L)) (S (S (S L)))) (enter_all h) (fun v h' => Q v (leave h h')) ->
  wp (local (fun RR => local (fun T => local (fun Apos => local_array (2 * 2 ^ MBEDTLS_MPI_WINDOW_SIZE) (fun W => body RR T Apos W))))) h Q.
Proof. intros L Hb. do 3 apply wp_local. apply wp_local_array. exact Hb. Qed.

Lemma enter_all_spec h : good h -> let L := top h in let h0 := enter_all h in
  good h0 /\ top h0 = (S (S (S L)) + 128)%nat /\ (forall a, (a < L)%nat -> mem h0 a = mem h a) /\
  (forall a, (L <= a < top h0)%nat -> mem h0 a = mbedtls_mpi_init).
Proof.
  intros G L h0.
  assert (Hmem : forall a, mem h0 a = if decide (L <= a < S (S (S L)) + 128)%nat then mbedtls_mpi_init else mem h a).
  { intros a. unfold h0, enter_all, enter_array, enter, upd. cbn [mem top]. fold L. change (2 * 2 ^ MBEDTLS_MPI_WINDOW_SIZE)%nat with 128%nat.
    repeat case_decide; try done; lia. }
  split; [|split; [done|split]].
  - intros a Ha. change (top h0) with (S (S (S L)) + 128)%nat in Ha. rewrite Hmem. case_decide; [|apply G; lia].
    split; [apply wf_init|]. cbn. lia.
  - intros a Ha. rewrite Hmem. case_decide; [lia|done].
  - intros a Ha. change (top h0) with (S (S (S L)) + 128)%nat in Ha. rewrite Hmem. case_decide; [done|lia].
Qed.

(** What the function returns: the power, or the modulus itself where a negative
    base has an odd power that the modulus divides. *)
Definition exp_result (a e : mbedtls_mpi) (v : Z) : Z :=
  if (mpi_s a =? -1) && (mag e mod 2 =? 1) && (mag a ^ mag e mod v =? 0) then v else value a ^ mag e mod v.

(** ** The sign *)

Lemma absolute_spec A Apos h : good h -> (A < top h)%nat -> (Apos < top h)%nat -> A <> Apos ->
  mem h Apos = mbedtls_mpi_init -> (0 < mpi_n (mem h A))%nat -> let neg := mpi_s (mem h A) =? -1 in
  wp (if neg then mbedtls_mpi_copy Apos A ;* set_s Apos 1 else ret tt) h (fun _ h' =>
    top h' = top h /\ good h' /\ (forall a, (a < top h)%nat -> a <> Apos -> mem h' a = mem h a) /\
    let x := mem h' (if neg then Apos else A) in
    value x = mag (mem h A) /\ (0 < mpi_n x <= mpi_n (mem h A))%nat).
Proof.
  intros G HA HP Hne Hinit HnA neg. unfold neg. destruct (Z.eqb_spec (mpi_s (mem h A)) (-1)) as [Hs|Hs].
  - eapply wp_chk; [apply (copy_spec Apos A h); [exact G|exact HP|exact HA]|]. intros ? h1 [T1 G1 N1 F1].
    rewrite (proj2 (Nat.eqb_neq _ _)), Hinit in N1 by lia.
    eapply wp_mono; [apply (set_s_spec Apos 1 h1); [exact G1|lia|by left]|]. intros ? h2 [T2 G2 N2 F2]. cbn beta in N2.
    split; [lia|]. split; [exact G2|]. split; [intros a Ha Na; rewrite F2, F1 by lia; reflexivity|].
    assert (Hp : mpi_p (mem h A) <> []) by (intros E0; unfold mpi_n in HnA; rewrite E0 in HnA; cbn in HnA; lia).
    rewrite N2, N1. unfold value, mag at 1, mpi_n. cbn [mpi_s mpi_p]. fold (mag (copied mbedtls_mpi_init (mem h A))).
    fold (mpi_n (copied mbedtls_mpi_init (mem h A))). rewrite copied_mag by (apply G, HA). split; [lia|].
    rewrite copied_n by exact Hp. change (mpi_n mbedtls_mpi_init) with 0%nat. pose proof (significant_le _ Hp).
    unfold significant in *. unfold mpi_n in *. lia.
  - apply wp_ret. split; [reflexivity|]. split; [exact G|]. split; [done|]. cbv zeta. split; [|lia].
    destruct (G A HA) as [[_ [E|E]] _]; [unfold value; rewrite E; lia|contradiction].
Qed.

Lemma negate_spec X E N (neg : bool) r h : good h -> (X < top h)%nat -> (E < top h)%nat -> (N < top h)%nat -> X <> E -> X <> N ->
  value (mem h X) = r -> 0 <= r < value (mem h N) -> (0 < mpi_n (mem h N))%nat ->
  let odd := neg && (mag (mem h E) mod 2 =? 1) in
  wp (let* e := load E in
      let* odd := if (mpi_n e =? 0)%nat || negb neg then ret false
                  else let* e0 := get_limb E 0 in ret (negb (Z.land e0 1 =? 0)) in
      if odd : bool then set_s X (-1) ;* mbedtls_mpi_add_mpi X N X else ret tt) h
    (fun _ h' => sets X (fun x => value x = (if odd then value (mem h N) - r else r) /\
      (mpi_n x <= Nat.max (mpi_n (mem h X)) (mpi_n (mem h N)))%nat) h h').
Proof.
  intros G HX HE HN HXE HXN Ev Hr HnN odd. apply wp_load.
  assert (Hodd : wp (if (mpi_n (mem h E) =? 0)%nat || negb neg then ret false
                  else let* e0 := get_limb E 0 in ret (negb (Z.land e0 1 =? 0))) h (fun v h' => v = odd /\ h' = h)).
  { unfold odd. destruct (Nat.eqb_spec (mpi_n (mem h E)) 0) as [E0|E0]; cbn [orb].
    - apply wp_ret. split; [|reflexivity]. unfold mag. destruct (mpi_p (mem h E)) eqn:Ep; [by destruct neg|].
      unfold mpi_n in E0. rewrite Ep in E0. cbn in E0. lia.
    - destruct neg; cbn [negb andb]; [|by apply wp_ret]. apply wp_get_limb; [lia|]. apply wp_ret. split; [|reflexivity].
      rewrite odd_low_limb by (apply G || idtac; lia). pose proof (Z.mod_pos_bound (mag (mem h E)) 2 ltac:(lia)).
      destruct (Z.eqb_spec (mag (mem h E) mod 2) 0) as [E1|E1], (Z.eqb_spec (mag (mem h E) mod 2) 1) as [E2|E2]; cbn [negb]; try reflexivity; lia. }
  eapply wp_chk; [exact Hodd|]. intros v h1 [-> ->]. destruct odd.
  - eapply writes_then; [apply (set_s_spec X (-1) h); [exact G|exact HX|by right]|]. intros ? h1 [T1 G1 N1 F1]. cbn beta in N1.
    assert (Em : mag (mem h X) = r) by (rewrite <- value_abs by (apply G, HX); lia).
    assert (Ev1 : value (mem h1 X) = - r) by (rewrite N1; unfold value, mag in *; cbn [mpi_s mpi_p]; lia).
    assert (EN1 : mem h1 N = mem h N) by (apply F1; lia).
    assert (HvN : value (mem h N) < pow (mpi_n (mem h N))).
    { destruct (value_positive (mem h N)) as [_ <-]; [apply G, HN|lia|]. apply tight_lt, G, HN. }
    assert (HM : pow (mpi_n (mem h N)) <= pow MBEDTLS_MPI_MAX_LIMBS) by (apply pow_mono, G, HN).
    eapply wp_mono; [apply (add_mpi_spec X N X h1); rewrite ?EN1, ?Ev1; [exact G1|lia|lia|lia|lia]|].
    rewrite EN1, Ev1. intros ? h2 [T2 G2 [E2 [Hc _]] F2]. constructor; [exact T2|exact G2| |exact F2]. split; [lia|].
    assert (EnX : mpi_n (mem h1 X) = mpi_n (mem h X)) by (rewrite N1; reflexivity). rewrite <- EnX.
    assert (Em1 : mag (mem h1 X) = r) by (rewrite N1; exact Em).
    assert (Em2 : mag (mem h2 X) = value (mem h N) - r) by (rewrite <- value_abs by (apply G2; lia); lia).
    assert (EmN : mag (mem h N) = value (mem h N)) by (rewrite <- value_abs by (apply G, HN); lia).
    apply Hc; [exact HnN|]. rewrite Em1, Em2, EmN. lia.
  - apply writes_ret; [exact G|]. split; [exact Ev|lia].
Qed.

(** ** The whole *)

Lemma power_sign s m e v : s = 1 \/ s = -1 -> 0 <= e -> 0 < v -> (s * m) ^ e mod v =
  if (s =? -1) && (e mod 2 =? 1) then if m ^ e mod v =? 0 then 0 else v - m ^ e mod v else m ^ e mod v.
Proof.
  intros [-> | ->] He Hv; [by rewrite Z.mul_1_l|]. cbn [Z.eqb Pos.eqb andb]. replace (-1 * m) with (- m) by lia.
  destruct (Z.eqb_spec (e mod 2) 1) as [Ho|Ho].
  - rewrite Z.pow_opp_odd by (exists (e / 2); pose proof (Z.div_mod e 2 ltac:(lia)); lia).
    destruct (Z.eqb_spec (m ^ e mod v) 0); [by apply Z_mod_zero_opp_full|by apply Z_mod_nz_opp_full].
  - rewrite Z.pow_opp_even; [done|]. exists (e / 2). pose proof (Z.div_mod e 2 ltac:(lia)). pose proof (Z.mod_pos_bound e 2 ltac:(lia)). lia.
Qed.

(** The inputs of the exponentiation, and how they may alias. *)
Record exp_inputs (X A E N : addr) (_RR : option addr) (h : heap) : Prop := ExpInputs {
  x_good : good h;
  x_top : (X < top h)%nat /\ (A < top h)%nat /\ (E < top h)%nat /\ (N < top h)%nat;
  x_apart : X <> E /\ X <> N;
  x_A : (0 < mpi_n (mem h A))%nat;
  x_size : (mpi_n (mem h A) + 2 <= MBEDTLS_MPI_MAX_LIMBS)%nat /\ (2 * mpi_n (mem h N) + 3 <= MBEDTLS_MPI_MAX_LIMBS)%nat;
  x_RR : optional _RR (fun r => (r < top h)%nat /\ r <> X /\ r <> A /\ r <> E /\ r <> N /\ known (mem h N) (mem h r))
}.

Record exp_done (X A E N : addr) (_RR : option addr) (h h' : heap) : Prop := ExpDone {
  y_top : top h' = top h;
  y_good : good h';
  y_value : value (mem h' X) = exp_result (mem h A) (mem h E) (value (mem h N));
  y_size : (mpi_n (mem h' X) <= Nat.max (mpi_n (mem h X)) (mpi_n (mem h N) + 1))%nat;
  y_RR : optional _RR (fun r => square_residue (mem h N) (mem h' r));
  y_rest : forall a, (a < top h)%nat -> a <> X -> Some a <> _RR -> mem h' a = mem h a
}.

Lemma exp_mod_spec X A E N _RR h : exp_inputs X A E N _RR h ->
  0 < value (mem h N) -> mag (mem h N) mod 2 = 1 -> 0 <= value (mem h E) ->
  wp (mbedtls_mpi_exp_mod X A E N _RR) h (fun _ h' => exp_done X A E N _RR h h').
Proof.
  intros [G (HX & HA & HE & HN) (HXE & HXN) HnA (HsA & HsN) HRR] HvN Hodd HvE. unfold mbedtls_mpi_exp_mod. apply wp_load.
  set (nobj := mem h N) in *. pose proof (proj1 (G N HN)) as WN. fold nobj in WN.
  destruct (value_positive nobj WN HvN) as [EsN EmN].
  assert (HnN : (0 < mpi_n nobj)%nat).
  { destruct (mpi_n nobj) eqn:E0; [|lia]. pose proof (tight_lt nobj WN) as Hlt. rewrite E0, pow_0 in Hlt. lia. }
  rewrite cmp_int_spec by done. rewrite ord_leb, (proj2 (Z.leb_gt _ _)) by exact HvN.
  apply wp_get_limb; [exact HnN|]. fold nobj. rewrite odd_low_limb by done. rewrite Hodd. cbn [Z.eqb].
  apply wp_load. set (eobj := mem h E) in *. pose proof (proj1 (G E HE)) as WE. fold eobj in WE.
  rewrite cmp_int_spec by done. rewrite ord_ltb, (proj2 (Z.ltb_ge _ _)) by exact HvE.
  apply wp_locals_all. set (L := top h) in *. destruct (enter_all_spec h G) as (G0 & Top0 & F0 & Init0). fold L in Top0, F0, Init0.
  set (h0 := enter_all h) in *. set (RR := L) in *. set (T := S L) in *. set (Apos := S (S L)) in *. set (W := S (S (S L))) in *.
  set (n := mpi_n nobj) in *. set (j := (n + 1)%nat). set (mm := mpi_montg_init _). set (wsize := window_size _).
  eapply wp_chk; [apply (grow_spec X j h0); [exact G0|lia|lia]|]. intros u1 h1 [T1 G1 N1 F1]. cbn beta in N1.
  eapply wp_chk; [apply (grow_spec (W + 1) j h1); [exact G1|lia|lia]|]. intros u2 h2 [T2 G2 N2 F2]. cbn beta in N2.
  eapply wp_chk; [apply (grow_spec T (j * 2) h2); [exact G2|lia|lia]|]. intros u3 h3 [T3 G3 N3 F3]. cbn beta in N3.
  assert (F03 : forall a, (a < top h0)%nat -> a <> X -> a <> (W + 1)%nat -> a <> T -> mem h3 a = mem h0 a).
  { intros a Ha Na Nb Nc. rewrite F3, F2, F1 by lia. reflexivity. }
  assert (EX3 : mem h3 X = grown j (mem h X)) by (rewrite F3, F2, N1, F0 by lia; reflexivity).
  assert (EA3 : value (mem h3 A) = value (mem h A) /\ mag (mem h3 A) = mag (mem h A) /\ mpi_s (mem h3 A) = mpi_s (mem h A) /\
    (0 < mpi_n (mem h3 A))%nat /\ (mpi_n (mem h3 A) + 2 <= MBEDTLS_MPI_MAX_LIMBS)%nat).
  { destruct (decide (A = X)) as [->|HAX].
    - rewrite EX3, grown_value, grown_mag, grown_n. split_and!; [reflexivity..|lia|lia].
    - rewrite F03, F0 by lia. split_and!; [reflexivity..|exact HnA|exact HsA]. }
  destruct EA3 as (EvA & EmA & EsA & HnA3 & HsA3).
  apply wp_load. rewrite EsA. set (neg := mpi_s (mem h A) =? -1).
  eapply wp_chk.
  { pose proof (absolute_spec A Apos h3 G3 ltac:(lia) ltac:(lia) ltac:(lia)) as Habs. rewrite EsA in Habs. apply Habs; [|exact HnA3].
    rewrite F03 by lia. apply Init0. lia. }
  fold neg. intros u4 h4 (T4 & G4 & F4 & Ev4 & En4). rewrite EmA in Ev4.
  assert (EN4 : mem h4 N = nobj) by (rewrite F4, F03, F0 by lia; reflexivity).
  eapply wp_chk.
  { apply (precompute_spec RR N _RR h4 G4); rewrite ?EN4; [lia|lia|lia| |exact HvN|exact Hodd|exact HsN|].
    - destruct _RR as [r|]; [|done]. cbn [optional] in *. destruct HRR as (Hr1 & Hr2 & Hr3 & Hr4 & Hr5 & Hr6).
      split; [lia|]. split; [lia|]. split; [exact Hr5|]. rewrite F4, F03, F0 by lia. exact Hr6.
    - rewrite F4, F03, Init0 by lia. reflexivity. }
  rewrite EN4. intros u5 h5 [T5 G5 Q5 K5 F5].
  set (A' := if neg then Apos else A) in *.
  assert (Hr : forall a, _RR = Some a -> (a < L)%nat /\ a <> X /\ a <> A /\ a <> E /\ a <> N) by (intros a ->; cbn [optional] in HRR; tauto).
  assert (HA'r : (A' < W)%nat /\ A' <> RR /\ Some A' <> _RR).
  { unfold A'. destruct neg; (split; [lia|split; [lia|]]); intros E0; symmetry in E0; apply Hr in E0; lia. }
  assert (Fall : forall a, (a < top h0)%nat -> a <> X -> a <> (W + 1)%nat -> a <> T -> a <> Apos -> a <> RR -> Some a <> _RR -> mem h5 a = mem h0 a).
  { intros a Ha N1' N2' N3' N4' N5' N6'. rewrite F5, F4, F03 by (assumption || lia). reflexivity. }
  assert (EN5 : mem h5 N = nobj) by (rewrite Fall, F0 by (lia || (intros E0; symmetry in E0; apply Hr in E0; lia)); reflexivity).
  assert (EE5 : mem h5 E = eobj) by (rewrite Fall, F0 by (lia || (intros E0; symmetry in E0; apply Hr in E0; lia)); reflexivity).
  assert (EX5 : mem h5 X = grown j (mem h X)) by (rewrite F5, F4, EX3 by (lia || (intros E0; symmetry in E0; apply Hr in E0; lia)); reflexivity).
  assert (EA5 : mem h5 A' = mem h4 A') by (apply F5; [lia|apply HA'r|apply HA'r]).
  assert (EW5 : (n + 1 <= mpi_n (mem h5 (W + 1)%nat))%nat).
  { rewrite F5, F4, F3, N2, grown_n by (lia || (intros E0; symmetry in E0; apply Hr in E0; lia)). lia. }
  assert (ET5 : (2 * n + 2 <= mpi_n (mem h5 T))%nat).
  { rewrite F5, F4, N3, grown_n by (lia || (intros E0; symmetry in E0; apply Hr in E0; lia)). lia. }
  assert (Hm0 : (mpi_p nobj !!! 0%nat) mod 2 = 1).
  { change 2 with (2 ^ 1). rewrite <- Z.land_ones by lia. change (Z.ones 1) with 1. rewrite odd_low_limb by assumption. exact Hodd. }
  pose proof (montg_init_spec _ Hm0) as [_ Hmm]. fold mm in Hmm.
  pose proof (window_size_range (mbedtls_mpi_bitlen eobj)) as Hws. fold wsize in Hws. pose proof (tight_lt nobj WN) as HNR. fold n in HNR.
  assert (Hw128 : (2 ^ wsize <= 64)%nat) by (change 64%nat with (2 ^ 6)%nat; apply Nat.pow_le_mono_r; lia).
  destruct Q5 as (HnRR & HmRR & HdRR & HsRR).
  apply wp_load, wp_load. change (if neg then S (S RR) else A) with A'.
  apply (powers_mod_spec X E N T W (top h0) nobj eobj mm (mag (mem h A)) wsize); fold n; try assumption; try lia.
  - intros z. by apply odd_cancel.
  - constructor; [exact G5|lia|exact EN5|exact EE5|exact ET5].
  - rewrite EA5. exact Ev4.
  - apply mag_nonneg, G, HA.
  - rewrite EA5. lia.
  - rewrite EA5. lia.
  - rewrite EX5, grown_n. lia.
  - apply WE.
  - by split.
  - intros h6 [G6 T6 EN6 EE6 _] F6 Em6 Es6 En6. set (r := mag (mem h A) ^ val (mpi_p eobj) mod mag nobj) in *.
    assert (Hr0 : 0 <= r < value nobj) by (rewrite <- EmN; apply Z.mod_pos_bound; lia).
    assert (Ev6 : value (mem h6 X) = r).
    { unfold value. rewrite Em6, Es6. destruct HsRR as [->|E1]; [lia|]. replace r with 0 by lia. lia. }
    eapply wp_mono; [apply (negate_spec X E N neg r h6 G6); rewrite ?EN6; [lia|lia|lia|exact HXE|exact HXN|exact Ev6|exact Hr0|exact HnN]|].
    rewrite EN6, EE6. fold n. intros ? h7 [T7 G7 [Ev7 En7] F7]. constructor.
    + reflexivity.
    + apply good_leave; [exact G7|]. fold L. lia.
    + cbn [leave mem]. rewrite Ev7. unfold exp_result. fold eobj nobj. fold neg. rewrite <- EmN in Ev7, Hr0 |- *.
      change (value (mem h A)) with (mpi_s (mem h A) * mag (mem h A)). rewrite power_sign by (try apply G, HA; try apply mag_nonneg, WE; lia). fold neg.
      change (val (mpi_p eobj)) with (mag eobj) in r. fold r.
      destruct (neg && (mag eobj mod 2 =? 1)); cbn [andb]; [|reflexivity].
      destruct (Z.eqb_spec r 0) as [E0|E0]; [lia|reflexivity].
    + cbn [leave mem]. fold nobj. fold n. rewrite EX5, grown_n in En6. lia.
    + destruct _RR as [r0|]; [|done]. cbn [optional leave mem] in *. destruct (Hr r0 eq_refl) as (Hr1 & Hr2 & _).
      rewrite F7, F6 by lia. exact K5.
    + intros a Ha Na Nr. cbn [leave mem]. fold L in Ha. rewrite F7, F6, Fall, F0 by (lia || assumption). reflexivity.
Qed.

End Memory.
