(* ===== verification/MpiGcd.v ===== *)
(** * MpiGcd: greatest common divisors and inverses of multiprecision integers

    [mbedtls_mpi_gcd] is the binary algorithm 14.54 and [mbedtls_mpi_inv_mod] the
    binary extended algorithm 14.61 of the Handbook of Applied Cryptography.
    The loops get the turns that suffice from the sizes of their numbers. *)
From S2P Require Import Prelude.
From S2P Require Import Limbs.
From S2P Require Import Mpi.
From S2P Require Import MpiBits.
From S2P Require Import MpiArith.
From S2P Require Import MpiDiv.

Open Scope C.

Section Memory.
Context `{Callocs}.

(** [while( mbedtls_mpi_cmp_int( &TA, 0 ) != 0 )] *)
Fixpoint gcd_loop (fuel : nat) (TA TB : addr) : mpi unit :=
  match fuel with
  | O => bad
  | S fuel =>
      let* ta := load TA in
      if mbedtls_mpi_cmp_int ta 0 =? 0 then ret tt
      else
        mbedtls_mpi_shift_r TA (mbedtls_mpi_lsb ta) ;*
        let* tb := load TB in
        mbedtls_mpi_shift_r TB (mbedtls_mpi_lsb tb) ;*
        let* ta := load TA in
        let* tb := load TB in
        (if 0 <=? mbedtls_mpi_cmp_mpi ta tb then mbedtls_mpi_sub_abs TA TA TB ;* mbedtls_mpi_shift_r TA 1
         else mbedtls_mpi_sub_abs TB TB TA ;* mbedtls_mpi_shift_r TB 1) ;*
        gcd_loop fuel TA TB
  end.

Definition mbedtls_mpi_gcd (G A B : addr) : mpi unit :=
  local (fun TA => local (fun TB =>
    mbedtls_mpi_copy TA A ;*
    mbedtls_mpi_copy TB B ;*
    let* ta := load TA in
    let* tb := load TB in
    let lz := mbedtls_mpi_lsb ta in
    let lzt := mbedtls_mpi_lsb tb in
    let lz := if (lzt <? lz)%nat then lzt else lz in
    mbedtls_mpi_shift_r TA lz ;*
    mbedtls_mpi_shift_r TB lz ;*
    set_s TB 1 ;*
    set_s TA 1 ;*
    let* ta := load TA in
    let* tb := load TB in
    gcd_loop (mbedtls_mpi_bitlen ta + mbedtls_mpi_bitlen tb + 1) TA TB ;*
    mbedtls_mpi_shift_l TB lz ;*
    mbedtls_mpi_copy G TB)).

(** [X.p[0] & 1] *)
Definition odd_limb (X : addr) : mpi bool :=
  let* l := get_limb X 0 in ret (negb (Z.land l 1 =? 0)).

(** A turn of [while( ( TU.p[0] & 1 ) == 0 )], and of the same for [TV] *)
Definition halve_once (TU U1 U2 TA TB : addr) : mpi unit :=
  mbedtls_mpi_shift_r TU 1 ;*
  let* odd := odd_limb U1 in
  let* odd := if odd : bool then ret true else odd_limb U2 in
  (if odd : bool then mbedtls_mpi_add_mpi U1 U1 TB ;* mbedtls_mpi_sub_mpi U2 U2 TA else ret tt) ;*
  mbedtls_mpi_shift_r U1 1 ;*
  mbedtls_mpi_shift_r U2 1.

Fixpoint halve (fuel : nat) (TU U1 U2 TA TB : addr) : mpi unit :=
  match fuel with
  | O => bad
  | S fuel =>
      let* odd := odd_limb TU in
      if odd : bool then ret tt else halve_once TU U1 U2 TA TB ;* halve fuel TU U1 U2 TA TB
  end.

Definition halve_both (TU U1 U2 TV V1 V2 TA TB : addr) : mpi unit :=
  let* tu := load TU in
  halve (mbedtls_mpi_bitlen tu) TU U1 U2 TA TB ;*
  let* tv := load TV in
  halve (mbedtls_mpi_bitlen tv) TV V1 V2 TA TB.

Definition subtract (TU U1 U2 TV V1 V2 : addr) : mpi unit :=
  mbedtls_mpi_sub_mpi TU TU TV ;*
  mbedtls_mpi_sub_mpi U1 U1 V1 ;*
  mbedtls_mpi_sub_mpi U2 U2 V2.

(** [do { ... } while( mbedtls_mpi_cmp_int( &TU, 0 ) != 0 )] *)
Fixpoint inverse_loop (fuel : nat) (TU U1 U2 TV V1 V2 TA TB : addr) : mpi unit :=
  match fuel with
  | O => bad
  | S fuel =>
      halve_both TU U1 U2 TV V1 V2 TA TB ;*
      let* tu := load TU in
      let* tv := load TV in
      (if 0 <=? mbedtls_mpi_cmp_mpi tu tv then subtract TU U1 U2 TV V1 V2
       else subtract TV V1 V2 TU U1 U2) ;*
      let* tu := load TU in
      if mbedtls_mpi_cmp_int tu 0 =? 0 then ret tt else inverse_loop fuel TU U1 U2 TV V1 V2 TA TB
  end.

(** From the nine local objects on. *)
Definition invert (TA TU U1 U2 G TB TV V1 V2 X A N : addr) : mpi unit :=
  mbedtls_mpi_gcd G A N ;*
  let* g := load G in
  if negb (mbedtls_mpi_cmp_int g 1 =? 0) then fail MBEDTLS_ERR_MPI_NOT_ACCEPTABLE
  else
    mbedtls_mpi_mod_mpi TA A N ;*
    mbedtls_mpi_copy TU TA ;*
    mbedtls_mpi_copy TB N ;*
    mbedtls_mpi_copy TV N ;*
    mbedtls_mpi_lset U1 1 ;*
    mbedtls_mpi_lset U2 0 ;*
    mbedtls_mpi_lset V1 0 ;*
    mbedtls_mpi_lset V2 1 ;*
    let* tu := load TU in
    let* tv := load TV in
    let turns := (mbedtls_mpi_bitlen tu + mbedtls_mpi_bitlen tv + 1)%nat in
    inverse_loop turns TU U1 U2 TV V1 V2 TA TB ;*
    add_until_positive (turns + 2) V1 N ;*
    sub_until_below (turns + 2) V1 N ;*
    mbedtls_mpi_copy X V1.

Definition mbedtls_mpi_inv_mod (X A N : addr) : mpi unit :=
  let* n := load N in
  if mbedtls_mpi_cmp_int n 1 <=? 0 then fail MBEDTLS_ERR_MPI_BAD_INPUT_DATA
  else
    local (fun TA => local (fun TU => local (fun U1 => local (fun U2 => local (fun G =>
    local (fun TB => local (fun TV => local (fun V1 => local (fun V2 =>
      invert TA TU U1 U2 G TB TV V1 V2 X A N))))))))).

End Memory.
