(* ===== verification/MpiGcdFacts.v ===== *)
(** * MpiGcdFacts: greatest common divisors

    The binary algorithm keeps the odd common divisors; the common power of two
    is taken out at the beginning and put back at the end. *)
From S2P Require Import Prelude.
From S2P Require Import Limbs.
From S2P Require Import Mpi.
From S2P Require Import MpiBits.
From S2P Require Import MpiFacts.
From S2P Require Import MpiBitsFacts.
From S2P Require Import MpiArith.
From S2P Require Import MpiQuotient.
From S2P Require Import MpiGcd.

Open Scope C.

(** ** Odd divisors *)

Lemma odd_mod z : Z.odd z = true <-> z mod 2 = 1.
Proof. rewrite Zmod_odd. by destruct (Z.odd z). Qed.

Lemma even_mod z : Z.odd z = false <-> z mod 2 = 0.
Proof. rewrite Zmod_odd. by destruct (Z.odd z). Qed.

Lemma odd_coprime d k : Z.odd d = true -> Z.coprime d (2 ^ Z.of_nat k).
Proof.
  intros Hd%odd_mod. apply Z.coprime_pow_r; [lia|]. unfold Z.coprime. by rewrite Z.gcd_comm, <- Z.gcd_mod, Hd by lia.
Qed.

Lemma odd_divide d k z : Z.odd d = true -> (d | 2 ^ Z.of_nat k * z) <-> (d | z).
Proof. intros Hd. split; [|by apply Z.divide_mul_r]. intros Hz. eapply Z.gauss; [exact Hz|]. by apply odd_coprime. Qed.

(** [r] is what the algorithm leaves for [a] and [b]: their odd common divisor,
    or [b] when one of them is 0. *)
Definition odd_gcd (a b r : Z) : Prop :=
  (a = 0 \/ b = 0 -> r = b) /\
  (0 < a -> 0 < b -> 0 < r /\ Z.odd r = true /\ forall d, Z.odd d = true -> (d | r) <-> (d | a) /\ (d | b)).

Lemma odd_gcd_scaled k l a b a' b' r : 0 < a -> 0 < b -> a = 2 ^ Z.of_nat k * a' -> b = 2 ^ Z.of_nat l * b' ->
  odd_gcd a' b' r -> odd_gcd a b r.
Proof.
  intros Ha Hb Ea Eb [H0 H1]. pose proof (Z.pow_pos_nonneg 2 (Z.of_nat k) ltac:(done) ltac:(lia)).
  pose proof (Z.pow_pos_nonneg 2 (Z.of_nat l) ltac:(done) ltac:(lia)). split; [lia|]. intros _ _.
  destruct (H1 ltac:(nia) ltac:(nia)) as (Hr & Ho & Hd). split; [done|]. split; [done|].
  intros d Hdo. rewrite Hd by done. by rewrite Ea, Eb, !odd_divide.
Qed.

(** One subtraction of odd numbers and the halving of the difference. *)
Lemma odd_gcd_step a b r : Z.odd a = true -> Z.odd b = true -> 0 < b -> b <= a ->
  odd_gcd ((a - b) / 2) b r -> odd_gcd a b r.
Proof.
  intros Ha Hb Hb0 Hle [H0 H1]. split; [lia|]. intros _ _.
  assert (Eh : a - b = 2 ^ Z.of_nat 1 * ((a - b) / 2)).
  { change (2 ^ Z.of_nat 1) with 2. apply odd_mod in Ha, Hb. Z.to_euclidean_division_equations; lia. }
  assert (Hd : forall d, Z.odd d = true -> (d | (a - b) / 2) /\ (d | b) <-> (d | a) /\ (d | b)).
  { intros d Hd. rewrite <- (odd_divide d 1 _ Hd), <- Eh. split; intros [Hx Hy]; split; try done.
    - replace a with (a - b + b) by lia. by apply Z.divide_add_r.
    - by apply Z.divide_sub_r. }
  destruct (Z.eq_dec ((a - b) / 2) 0) as [E|E].
  - rewrite H0 by by left. split; [done|]. split; [done|]. intros d Hdo. rewrite <- Hd, E by done.
    split; [|by intros []]. intros. split; [apply Z.divide_0_r|done].
  - destruct (H1 ltac:(lia) Hb0) as (Hr & Ho & Hdr). split; [done|]. split; [done|]. intros d Hdo. by rewrite Hdr, Hd.
Qed.

Lemma odd_gcd_sym a b r : 0 < a -> 0 < b -> odd_gcd b a r -> odd_gcd a b r.
Proof.
  intros Ha Hb [_ H1]. split; [lia|]. intros _ _. destruct (H1 Hb Ha) as (Hr & Ho & Hd). split; [done|]. split; [done|].
  intros d Hdo. rewrite Hd by done. tauto.
Qed.

Lemma divides_odd d z : (d | z) -> Z.odd z = true -> Z.odd d = true.
Proof. intros [q ->] Ho. rewrite Z.odd_mul in Ho. by destruct (Z.odd d), (Z.odd q). Qed.

(** The common power of two is put back. *)
Lemma gcd_scaled a b c a0 b0 r : 0 <= a0 -> 0 < b0 -> 0 <= c -> a = 2 ^ c * a0 -> b = 2 ^ c * b0 ->
  (0 < a0 -> Z.odd a0 = true \/ Z.odd b0 = true) -> odd_gcd a0 b0 r -> r * 2 ^ c = Z.gcd a b.
Proof.
  intros Ha Hb Hc -> -> Hodd [H0 H1]. rewrite Z.gcd_mul_mono_l_nonneg by (apply Z.pow_nonneg; lia).
  rewrite Z.mul_comm. f_equal. destruct (Z.eq_dec a0 0) as [->|Ea].
  { rewrite H0 by by left. by rewrite Z.gcd_0_l_nonneg by lia. }
  destruct (H1 ltac:(lia) Hb) as (Hr & Ho & Hd). pose proof (Z.gcd_nonneg a0 b0).
  assert (Hg : Z.odd (Z.gcd a0 b0) = true).
  { destruct (Hodd ltac:(lia)) as [E|E]; (eapply divides_odd; [|exact E]); [apply Z.gcd_divide_l|apply Z.gcd_divide_r]. }
  apply Z.divide_antisym_nonneg; [lia|done| |].
  - apply Z.gcd_greatest; by apply Hd.
  - apply Hd; [done|]. split; [apply Z.gcd_divide_l|apply Z.gcd_divide_r].
Qed.

(** The measure of both loops *)
Lemma bits_half a b : 0 <= a -> 2 * a <= b -> 0 < b -> (bits a < bits b)%nat.
Proof.
  intros Ha Hle Hb. destruct (bits_bounds b Hb) as [_ Hlt]. destruct (bits b) as [|n]; [cbn in Hlt; lia|].
  rewrite Nat2Z.inj_succ, Z.pow_succ_r in Hlt by lia. assert (bits a <= n)%nat; [apply bits_lt; lia|lia].
Qed.

Lemma bits_le a b : 0 <= a -> a <= b -> (bits a <= bits b)%nat.
Proof.
  intros Ha Hle. destruct (Z.eq_dec b 0) as [->|]; [by replace a with 0 by lia|].
  apply bits_lt; [done|]. destruct (bits_bounds b ltac:(lia)). lia.
Qed.

Lemma bits_pos a : 0 < a -> (0 < bits a)%nat.
Proof. intros Ha. destruct (bits_bounds a Ha) as [_ Hlt]. destruct (bits a); [cbn in Hlt; lia|lia]. Qed.

Lemma pow2_lt_inv c k : 2 ^ Z.of_nat c < pow k -> (c <= 64 * k)%nat.
Proof. rewrite pow_bits. intros Hlt%Z.pow_lt_mono_r_iff; lia. Qed.

Lemma value_mag x : wf x -> 0 <= value x -> mag x = value x.
Proof. intros Hw Hv. rewrite <- (value_abs x Hw). lia. Qed.

Section Memory.
Context `{Callocs}.

(** Shifts of numbers that are not negative, or divisible *)
Lemma shift_r_value X k h : good h -> (X < top h)%nat ->
  0 <= value (mem h X) \/ (2 ^ Z.of_nat k | value (mem h X)) ->
  writes (mbedtls_mpi_shift_r X k) X h (fun x => value x = value (mem h X) / 2 ^ Z.of_nat k /\
    (mpi_n (mem h X) <= mpi_n x)%nat).
Proof.
  intros G HX Hv. eapply writes_mono; [by apply shift_r_spec|]. intros x (Hs & Hm & Hn & _). split; [|done].
  destruct (G X HX) as [[Hl Hsx] _]. pose proof (mag_nonneg (mem h X) (conj Hl Hsx)).
  pose proof (Z.pow_pos_nonneg 2 (Z.of_nat k) ltac:(done) ltac:(lia)) as Hk.
  unfold value in *. set (m := mag (mem h X)) in *. rewrite Hm. set (p := 2 ^ Z.of_nat k) in *.
  assert (Hq : 0 <= mpi_s (mem h X) * m -> mpi_s (mem h X) = 1 \/ m = 0) by (destruct Hsx as [-> | ->]; lia).
  assert (Hz : mag x = 0 -> m / p = 0) by lia.
  destruct Hsx as [E|E]; rewrite E in *.
  - rewrite !Z.mul_1_l in *. destruct Hs as [-> | Hs]; [lia|]. rewrite Hz by done. lia.
  - assert (Hd : (p | m)).
    { destruct Hv as [Hv|Hv]; [assert (m = 0) as -> by lia; apply Z.divide_0_r|].
      apply Z.divide_opp_r. by replace (- m) with (-1 * m) by lia. }
    destruct Hd as [q Eq]. assert (Em : m / p = q) by (rewrite Eq; apply Z.div_mul; lia).
    replace (-1 * m / p) with (- q) by (replace (-1 * m) with (- q * p) by lia; rewrite Z.div_mul by lia; done).
    rewrite Em in *. destruct Hs as [-> | Hs]; [lia|]. rewrite Hm in Hs. lia.
Qed.

(** The factors two of a number *)
Lemma strip_spec X h : good h -> (X < top h)%nat -> 0 <= value (mem h X) ->
  writes (mbedtls_mpi_shift_r X (mbedtls_mpi_lsb (mem h X))) X h (fun x => 0 <= value x /\
    exists k, value (mem h X) = 2 ^ Z.of_nat k * value x /\ (0 < value (mem h X) -> Z.odd (value x) = true)).
Proof.
  intros G HX Hv. destruct (G X HX) as [Hw _]. set (k := mbedtls_mpi_lsb (mem h X)).
  pose proof (Z.pow_pos_nonneg 2 (Z.of_nat k) ltac:(done) ltac:(lia)) as Hk.
  eapply writes_mono; [apply shift_r_value; auto|]. intros x [-> _]. split; [by apply Z.div_pos|].
  exists k. pose proof (value_mag _ Hw Hv) as Em. destruct (Z.eq_dec (value (mem h X)) 0) as [E|E].
  - rewrite E, Z.div_0_l by lia. split; lia.
  - destruct (lsb_spec (mem h X) Hw ltac:(lia)) as (q & Eq & Hq). fold k in Eq. rewrite Em in Eq.
    rewrite Eq, (Z.mul_comm _ q), Z.div_mul by lia. split; [lia|done].
Qed.

Lemma gcd_loop_spec TA TB fuel : TA <> TB -> forall h a b, good h -> (TA < top h)%nat -> (TB < top h)%nat ->
  value (mem h TA) = a -> value (mem h TB) = b -> 0 <= a -> 0 <= b -> (bits a + bits b < fuel)%nat ->
  wp (gcd_loop fuel TA TB) h (fun _ h' => top h' = top h /\ good h' /\
    (exists r, value (mem h' TB) = r /\ odd_gcd a b r) /\
    forall c, (c < top h)%nat -> c <> TA -> c <> TB -> mem h' c = mem h c).
Proof.
  intros Hne. induction fuel as [|fuel IH]; intros h a b G HA HB Ea Eb Ha Hb Hf; [lia|].
  cbn [gcd_loop]. apply wp_load. rewrite cmp_int_spec by (apply G || idtac; done). rewrite ord_eqb, Ea.
  destruct (Z.eqb_spec a 0) as [Ea0|Ea0].
  { apply wp_ret. split; [done|]. split; [done|]. split; [|done]. exists b. split; [done|]. split; [done|lia]. }
  eapply wp_chk; [apply strip_spec; [done..|lia]|]. rewrite Ea. intros _ h1 [T1 G1 (Ha1 & k & Ek & Hoa) F1]. apply wp_load.
  eapply wp_chk; [apply strip_spec; [done|lia|rewrite F1 by lia; lia]|]. rewrite (F1 TB), Eb by lia.
  intros _ h2 [T2 G2 (Hb2 & l & El & Hob) F2]. apply wp_load, wp_load.
  rewrite cmp_mpi_spec by (apply G2; lia). rewrite ord_geb. rewrite (F2 TA) by lia.
  set (a1 := value (mem h1 TA)) in *. set (b2 := value (mem h2 TB)) in *.
  pose proof (Z.pow_pos_nonneg 2 (Z.of_nat k) ltac:(done) ltac:(lia)) as Hk.
  pose proof (Z.pow_pos_nonneg 2 (Z.of_nat l) ltac:(done) ltac:(lia)) as Hl.
  assert (Ha1' : 0 < a1 <= a) by nia. assert (Hb2' : b2 <= b) by nia.
  assert (Em : mag (mem h2 TA) = a1 /\ mag (mem h2 TB) = b2).
  { split; [rewrite F2 by lia; apply value_mag; [apply G1; lia|lia]|apply value_mag; [apply G2; lia|lia]]. }
  destruct Em as [Ema Emb].
  (* one of the two becomes the half of the difference *)
  assert (Hstep : forall X Y h3 x y, (X = TA /\ Y = TB /\ x = a1 /\ y = b2 \/ X = TB /\ Y = TA /\ x = b2 /\ y = a1) -> h3 = h2 ->
    y <= x -> writes (mbedtls_mpi_sub_abs X X Y ;* mbedtls_mpi_shift_r X 1) X h3 (fun z => value z = (x - y) / 2)).
  { intros X Y h3 x y HXY -> Hle. assert (HXY' : (X < top h2)%nat /\ (Y < top h2)%nat /\ mag (mem h2 X) = x /\ mag (mem h2 Y) = y).
    { destruct HXY as [(-> & -> & -> & ->)|(-> & -> & -> & ->)]; split_and!; try done; lia. }
    destruct HXY' as (HX & HY & EX & EY).
    eapply writes_then; [apply sub_abs_spec; [done..|lia]|]. rewrite EX, EY. intros _ h4 [T4 G4 (Hs & Hm & _) F4].
    assert (Ev : value (mem h4 X) = x - y) by (unfold value; rewrite Hs, Hm; lia).
    eapply writes_mono; [apply shift_r_value; [done|lia|left; lia]|]. intros z [-> _]. by rewrite Ev. }
  destruct (Z.leb_spec b2 a1) as [Hle|Hlt].
  - eapply wp_chk; [apply (Hstep TA TB h2 a1 b2); auto|]. intros _ h3 [T3 G3 N3 F3].
    assert (Hd : 0 <= (a1 - b2) / 2) by (apply Z.div_pos; lia).
    assert (H2 : 2 * ((a1 - b2) / 2) <= a) by (pose proof (Z.mul_div_le (a1 - b2) 2); lia).
    eapply wp_mono; [apply (IH h3 ((a1 - b2) / 2) b2); try done; try lia; [rewrite F3 by lia; done|]|].
    { pose proof (bits_half _ _ Hd H2 ltac:(lia)). pose proof (bits_le b2 b Hb2 Hb2'). lia. }
    intros _ h4 (T4 & G4 & (r & Er & Hr) & F4). split; [lia|]. split; [done|]. split.
    + exists r. split; [done|]. destruct (Z.eq_dec b 0) as [Eb0|Eb0].
      * split; [|lia]. intros _. rewrite (proj1 Hr) by lia. lia.
      * apply (odd_gcd_scaled k l a b a1 b2); try lia. apply odd_gcd_step; [apply Hoa; lia|apply Hob; lia|nia|lia|done].
    + intros c Hc H1' H2'. rewrite F4, F3, F2, F1 by lia. done.
  - eapply wp_chk; [apply (Hstep TB TA h2 b2 a1); auto; lia|]. intros _ h3 [T3 G3 N3 F3].
    assert (Hoab : Z.odd a1 = true /\ Z.odd b2 = true) by (split; [apply Hoa|apply Hob]; lia). destruct Hoab as [Ho1 Ho2].
    assert (Hd : 0 < (b2 - a1) / 2) by (apply odd_mod in Ho1, Ho2; Z.to_euclidean_division_equations; lia).
    assert (H2 : 2 * ((b2 - a1) / 2) <= b) by (pose proof (Z.mul_div_le (b2 - a1) 2); lia).
    eapply wp_mono; [apply (IH h3 a1 ((b2 - a1) / 2)); try done; try lia; [rewrite F3, F2 by lia; done|]|].
    { pose proof (bits_half ((b2 - a1) / 2) b ltac:(lia) H2 ltac:(lia)). pose proof (bits_le a1 a ltac:(lia) ltac:(lia)). lia. }
    intros _ h4 (T4 & G4 & (r & Er & Hr) & F4). split; [lia|]. split; [done|]. split.
    + exists r. split; [done|]. apply (odd_gcd_scaled k l a b a1 b2); try lia. apply odd_gcd_sym; [lia..|].
      apply odd_gcd_step; [done..|lia|lia|]. by apply odd_gcd_sym; [lia..|].
    + intros c Hc H1' H2'. rewrite F4, F3, F2, F1 by lia. done.
Qed.

(** The factors two both operands have *)
Definition common_twos (x y : mbedtls_mpi) : nat :=
  if (mbedtls_mpi_lsb y <? mbedtls_mpi_lsb x)%nat then mbedtls_mpi_lsb y else mbedtls_mpi_lsb x.

Lemma common_twos_spec x y : wf x -> wf y -> let c := Z.of_nat (common_twos x y) in
  exists a0 b0, 0 <= a0 /\ 0 <= b0 /\ mag x = 2 ^ c * a0 /\ mag y = 2 ^ c * b0 /\
    (0 < a0 -> 0 < b0 -> Z.odd a0 = true \/ Z.odd b0 = true).
Proof.
  intros Hx Hy c. pose proof (mag_nonneg x Hx). pose proof (mag_nonneg y Hy).
  assert (Hl : forall z, wf z -> mag z = 0 /\ mbedtls_mpi_lsb z = 0%nat \/ 0 < mag z /\ odd_part (mbedtls_mpi_lsb z) (mag z)).
  { intros z Hz. pose proof (mag_nonneg z Hz). destruct (Z.eq_dec (mag z) 0) as [E|E]; [left|right].
    - split; [done|by apply lsb_spec_0].
    - split; [lia|apply lsb_spec; [done|lia]]. }
  destruct (Hl x Hx) as [[Ex Lx]|[Px (qx & Ex & Ox)]].
  { exists 0, (mag y). assert (c = 0) as -> by (unfold c, common_twos; rewrite Lx; destruct (mbedtls_mpi_lsb y); done).
    rewrite Ex. lia. }
  destruct (Hl y Hy) as [[Ey Ly]|[Py (qy & Ey & Oy)]].
  { exists (mag x), 0. assert (c = 0) as -> by (unfold c, common_twos; rewrite Ly; destruct (mbedtls_mpi_lsb x); done).
    rewrite Ey. lia. }
  pose proof (Z.pow_pos_nonneg 2 (Z.of_nat (mbedtls_mpi_lsb x)) ltac:(done) ltac:(lia)).
  pose proof (Z.pow_pos_nonneg 2 (Z.of_nat (mbedtls_mpi_lsb y)) ltac:(done) ltac:(lia)).
  assert (Hqx : 0 <= qx) by nia. assert (Hqy : 0 <= qy) by nia. unfold c, common_twos. clear c Hl.
  destruct (Nat.ltb_spec (mbedtls_mpi_lsb y) (mbedtls_mpi_lsb x)) as [Hlt|Hge].
  - exists (2 ^ (Z.of_nat (mbedtls_mpi_lsb x) - Z.of_nat (mbedtls_mpi_lsb y)) * qx), qy.
    split; [apply Z.mul_nonneg_nonneg; [apply Z.pow_nonneg; lia|done]|]. split; [done|]. split; [|split; [done|auto]].
    rewrite Z.mul_assoc, <- Z.pow_add_r by lia. rewrite Ex. f_equal. f_equal. lia.
  - exists qx, (2 ^ (Z.of_nat (mbedtls_mpi_lsb y) - Z.of_nat (mbedtls_mpi_lsb x)) * qy).
    split; [done|]. split; [apply Z.mul_nonneg_nonneg; [apply Z.pow_nonneg; lia|done]|]. split; [done|]. split; [|auto].
    rewrite Z.mul_assoc, <- Z.pow_add_r by lia. rewrite Ey. f_equal. f_equal. lia.
Qed.

(** A shift and the sign: what the loop begins with *)
Lemma positive_part_spec X k q h : good h -> (X < top h)%nat -> 0 <= q -> mag (mem h X) = 2 ^ Z.of_nat k * q ->
  writes (mbedtls_mpi_shift_r X k) X h (fun x => mag x = q).
Proof.
  intros G HX Hq Em. eapply writes_mono; [by apply shift_r_spec|]. intros x (_ & -> & _).
  rewrite Em, Z.mul_comm. apply Z.div_mul. pose proof (Z.pow_pos_nonneg 2 (Z.of_nat k)). lia.
Qed.

(** The common divisor, except that it is 0 when the second operand is *)
Lemma gcd_spec G A B h : good h -> (G < top h)%nat -> (A < top h)%nat -> (B < top h)%nat ->
  let a := value (mem h A) in let b := value (mem h B) in
  let g := if b =? 0 then 0 else Z.gcd a b in
  wp (mbedtls_mpi_gcd G A B) h (fun _ h' => top h' = top h /\ good h' /\ new_value G g h h' /\
    forall c, (c < top h)%nat -> c <> G -> mem h' c = mem h c).
Proof.
  intros Hg HG HA HB a b g. unfold mbedtls_mpi_gcd. set (T := top h) in *.
  apply wp_local. fold T. set (h0 := enter h). pose proof (good_enter h Hg) as G0. fold h0 in G0.
  apply wp_local. change (top h0) with (S T). set (h1 := enter h0). pose proof (good_enter h0 G0) as G1. fold h1 in G1.
  assert (F1 : forall c, (c < T)%nat -> mem h1 c = mem h c).
  { intros c Hc. unfold h1. rewrite enter_same by (cbn; fold T; lia). by apply enter_same. }
  assert (T1 : top h1 = S (S T)) by done.
  eapply wp_chk; [apply (copy_spec T A h1); [done|lia..]|]. rewrite (proj2 (Nat.eqb_neq T A)), (F1 A) by lia.
  intros _ h2 [T2 G2 N2 F2]. cbn beta in N2.
  eapply wp_chk; [apply (copy_spec (S T) B h2); [done|lia..]|]. rewrite (proj2 (Nat.eqb_neq (S T) B)), (F2 B), (F1 B) by lia.
  intros _ h3 [T3 G3 N3 F3]. cbn beta in N3. apply wp_load, wp_load.
  assert (Hwa : wf (mem h3 T)) by (apply G3; lia). assert (Hwb : wf (mem h3 (S T))) by (apply G3; lia).
  assert (Ema : mag (mem h3 T) = Z.abs a).
  { rewrite F3, N2, copied_mag by (lia || apply Hg; done). unfold a. symmetry. apply value_abs, Hg. done. }
  assert (Emb : mag (mem h3 (S T)) = Z.abs b).
  { rewrite N3, copied_mag by (apply Hg; done). unfold b. symmetry. apply value_abs, Hg. done. }
  fold (common_twos (mem h3 T) (mem h3 (S T))). set (c := common_twos _ _).
  destruct (common_twos_spec (mem h3 T) (mem h3 (S T)) Hwa Hwb) as (a0 & b0 & Ha0 & Hb0 & Ea0 & Eb0 & Hodd). fold c in Ea0, Eb0.
  eapply wp_chk; [apply (positive_part_spec T c a0 h3); [done|lia|done|done]|]. intros _ h4 [T4 G4 N4 F4]. cbn beta in N4.
  eapply wp_chk; [apply (positive_part_spec (S T) c b0 h4); [done|lia|done|rewrite F4 by lia; done]|].
  intros _ h5 [T5 G5 N5 F5]. cbn beta in N5.
  eapply wp_chk; [apply (set_s_spec (S T) 1 h5); [done|lia|by left]|]. intros _ h6 [T6 G6 N6 F6]. cbn beta in N6.
  eapply wp_chk; [apply (set_s_spec T 1 h6); [done|lia|by left]|]. intros _ h7 [T7 G7 N7 F7]. cbn beta in N7.
  apply wp_load, wp_load.
  assert (Eva : mag (mem h7 T) = a0 /\ mpi_s (mem h7 T) = 1).
  { rewrite N7. split; [|done]. unfold mag at 1. cbn [mpi_p]. rewrite F6, F5 by lia. exact N4. }
  assert (Evb : mag (mem h7 (S T)) = b0 /\ mpi_s (mem h7 (S T)) = 1).
  { rewrite F7, N6 by lia. split; [|done]. exact N5. }
  rewrite !bitlen_spec by (apply G7; lia). rewrite (proj1 Eva), (proj1 Evb).
  eapply wp_chk; [apply (gcd_loop_spec T (S T) (bits a0 + bits b0 + 1) ltac:(lia) h7 a0 b0); try done; try lia|].
  { unfold value. lia. } { unfold value. lia. }
  intros _ h8 (T8 & G8 & (r & Er & Hr) & F8).
  assert (Hp : 0 < 2 ^ Z.of_nat c) by (apply Z.pow_pos_nonneg; lia).
  assert (Hres : 0 <= r /\ r * 2 ^ Z.of_nat c = g).
  { unfold g. destruct (Z.eqb_spec b 0) as [E|E].
    - assert (b0 = 0) by nia. assert (r = 0) as -> by (rewrite (proj1 Hr); lia). lia.
    - assert (Hb : 0 < b0) by nia. split; [destruct (Z.eq_dec a0 0); [rewrite (proj1 Hr); lia|destruct (proj2 Hr); lia]|].
      rewrite <- Z.gcd_abs_l, <- Z.gcd_abs_r. apply (gcd_scaled _ _ (Z.of_nat c) a0 b0); try done; try lia. auto. }
  destruct Hres as [Hr0 Hres]. pose proof (value_mag (mem h8 (S T)) ltac:(apply G8; lia) ltac:(lia)) as Em8.
  assert (Hgb : 0 <= g <= Z.abs b).
  { unfold g. destruct (Z.eqb_spec b 0); [lia|]. split; [apply Z.gcd_nonneg|].
    apply Z.divide_pos_le; [lia|]. apply Z.divide_abs_r, Z.gcd_divide_r. }
  assert (HbM : Z.abs b < pow MBEDTLS_MPI_MAX_LIMBS).
  { rewrite <- Emb. pose proof (mag_bound _ Hwb). pose proof (pow_mono _ _ (proj2 (G3 (S T) ltac:(lia)))). lia. }
  assert (Hc : (c <= 64 * MBEDTLS_MPI_MAX_LIMBS)%nat).
  { destruct (Z.eq_dec b 0) as [E|E].
    - unfold c, common_twos. rewrite (lsb_spec_0 (mem h3 (S T))) by (done || lia).
      destruct (Nat.ltb_spec 0 (mbedtls_mpi_lsb (mem h3 T))); lia.
    - assert (Hb1 : b0 <> 0) by (intros ->; lia).
      assert (Hle : 2 ^ Z.of_nat c <= Z.abs b) by (rewrite <- Emb, Eb0; apply Z.le_mul_diag_r; lia).
      apply pow2_lt_inv. eapply Z.le_lt_trans; eassumption. }
  eapply wp_chk; [apply (shift_l_spec (S T) c h8); [done|lia|rewrite Em8, Er, Hres; lia|exact Hc]|].
  intros _ h9 [T9 G9 (Hs9 & Em9 & _) F9].
  assert (Ev9 : value (mem h9 (S T)) = g).
  { destruct (Z.eq_dec r 0) as [->|]; [unfold value; nia|]. destruct (G8 (S T) ltac:(lia)) as [[Hl8 Hsg] _].
    unfold value in *. rewrite Hs9, Em9, Em8, <- Hres, Er.
    assert (mpi_s (mem h8 (S T)) = 1) as -> by (pose proof (val_nonneg _ Hl8); unfold mag in *; destruct Hsg; nia). lia. }
  eapply wp_mono; [apply (copy_result G (S T) h9); [done|lia..]|]. rewrite Ev9.
  intros _ h10 (T10 & G10 & [N10 C10] & _ & _ & F10). cbn [leave top mem]. split; [done|].
  split; [apply good_leave; [apply good_leave; [done|cbn; lia]|cbn; fold T; lia]|]. split.
  - split; [done|]. intros k Hk Hlt. specialize (C10 k Hk Hlt). rewrite F9, F8, F7, F6, F5, F4, F3, F2, F1 in C10 by lia. exact C10.
  - intros d Hd Hne. rewrite F10, F9, F8, F7, F6, F5, F4, F3, F2, F1 by lia. done.
Qed.

End Memory.
