(* ===== verification/MpiInverse.v ===== *)
(** * MpiInverse: modular inverses

    The loop keeps [TU = U1 * TA + U2 * TB] and [TV = V1 * TA + V2 * TB] with
    coprime [TU] and [TV]; the coefficients grow by at most [TB] in a turn. *)
From S2P Require Import Prelude.
From S2P Require Import Limbs.
From S2P Require Import Mpi.
From S2P Require Import MpiBits.
From S2P Require Import MpiFacts.
From S2P Require Import MpiBitsFacts.
From S2P Require Import MpiArith.
From S2P Require Import MpiDiv.
From S2P Require Import MpiDivFacts.
From S2P Require Import MpiQuotient.
From S2P Require Import MpiExpMod.
From S2P Require Import MpiGcd.
From S2P Require Import MpiGcdFacts.

Open Scope C.

(** When the odd coefficients of an even combination are moved, both are even. *)
Lemma both_even a b u1 u2 : Z.odd a || Z.odd b = true -> Z.odd (u1 * a + u2 * b) = false ->
  Z.odd u1 || Z.odd u2 = true -> Z.odd (u1 + b) = false /\ Z.odd (u2 - a) = false.
Proof.
  rewrite Z.odd_add, !Z.odd_mul, Z.odd_add, Z.odd_sub.
  by destruct (Z.odd a), (Z.odd b), (Z.odd u1), (Z.odd u2).
Qed.

Lemma even_half z : Z.odd z = false -> z = 2 * (z / 2).
Proof. intros Hz%even_mod. pose proof (Z.div_mod z 2 ltac:(done)). lia. Qed.

Lemma half_combination a b w1 w2 u : Z.odd w1 = false -> Z.odd w2 = false -> Z.odd u = false -> w1 * a + w2 * b = u ->
  u / 2 = w1 / 2 * a + w2 / 2 * b.
Proof.
  intros E1%even_half E2%even_half E%even_half Ew. set (x := w1 / 2) in *. set (y := w2 / 2) in *. set (z := u / 2) in *.
  clearbody x y z. subst. lia.
Qed.

Lemma half_pos u : 0 < u -> Z.odd u = false -> 0 < u / 2.
Proof. intros Hu E%even_half. lia. Qed.

Lemma half_bound w m : Z.odd w = false -> Z.abs w <= 2 * m -> Z.abs (w / 2) <= m.
Proof. intros E%even_half Hw. lia. Qed.

Lemma abs_diff u v m : 0 < v -> v <= u -> u < m -> Z.abs (u - v) < m.
Proof. lia. Qed.

Lemma abs_diff_le x y k m : Z.abs x <= k -> Z.abs y <= k -> 2 * k < m -> Z.abs (x - y) < m.
Proof. lia. Qed.

Lemma even_divides z : Z.odd z = false -> (2 ^ Z.of_nat 1 | z).
Proof. intros Hz. exists (z / 2). change (2 ^ Z.of_nat 1) with 2. rewrite (even_half z Hz) at 1. lia. Qed.

(** Different addresses *)
Fixpoint apart_from (x : addr) (l : list addr) : Prop :=
  match l with [] => True | y :: l => x <> y /\ apart_from x l end.
Fixpoint pairwise (l : list addr) : Prop :=
  match l with [] => True | x :: l => apart_from x l /\ pairwise l end.

Lemma apart_not_elem x l : apart_from x l -> x ∉ l.
Proof. induction l as [|y l IH]; [intros _; apply not_elem_of_nil|]. intros [Hn Hl]. apply not_elem_of_cons. auto. Qed.

(** What the hypothesis on different addresses says, unpacked for one goal *)
Ltac unpack := match goal with
  | D : pairwise _ |- _ => let D' := fresh in pose proof D as D'; cbn [pairwise apart_from] in D'; destruct_and? D'
  end.
Ltac away := try apply apart_not_elem; cbn [pairwise apart_from]; try unpack; split_and?; solve [exact I | congruence].

Section Memory.
Context `{Callocs}.

Lemma odd_value x : wf x -> Z.odd (value x) = Z.odd (mag x).
Proof. intros [_ [E|E]]; unfold value; rewrite E, Z.odd_mul; done. Qed.

Lemma chk_ret {A} (m : mpi A) : forall h Q, wp (chk m ret) h Q -> wp m h Q.
Proof. intros h Q. unfold wp, chk, ret. by destruct (m h). Qed.

Lemma odd_limb_spec {B} X (k : bool -> mpi B) h Q : good h -> (X < top h)%nat -> (0 < mpi_n (mem h X))%nat ->
  wp (k (Z.odd (value (mem h X)))) h Q -> wp (chk (odd_limb X) k) h Q.
Proof.
  intros G HX Hn Hk. destruct (G X HX) as [Hw _]. eapply wp_chk with (R := fun b h' => h' = h /\ b = Z.odd (value (mem h X))).
  - unfold odd_limb. apply wp_get_limb; [done|]. apply wp_ret. split; [done|].
    rewrite odd_low_limb, odd_value, Zmod_odd by done. destruct (Z.odd (mag (mem h X))); reflexivity.
  - by intros b h' [-> ->].
Qed.

(** A number with at least one limb *)
Definition holds (h : heap) (X : addr) (v : Z) : Prop :=
  (X < top h)%nat /\ value (mem h X) = v /\ (0 < mpi_n (mem h X))%nat.

(** Nothing below [top h] changes but the objects of [l]. *)
Definition only (l : list addr) (h h' : heap) : Prop :=
  top h' = top h /\ good h' /\ forall a, (a < top h)%nat -> a ∉ l -> mem h' a = mem h a.

Lemma only_then l h1 h2 h3 : only l h1 h2 -> only l h2 h3 -> only l h1 h3.
Proof. intros (T1 & G1 & F1) (T2 & G2 & F2). split; [congruence|]. split; [done|]. intros a Ha Hn. rewrite F2 by (done || lia). by apply F1. Qed.

Lemma only_refl l h : good h -> only l h h.
Proof. done. Qed.

Lemma only_more l l' h h' : l ⊆ l' -> only l h h' -> only l' h h'.
Proof. intros Hl (T & G & F). split; [done|]. split; [done|]. intros a Ha Hn. apply F; [done|]. intros Hi. by apply Hn, Hl. Qed.

Lemma holds_only l h h' X v : only l h h' -> X ∉ l -> holds h X v -> holds h' X v.
Proof. intros (T & G & F) Hn (Ht & Hv & H0). unfold holds. rewrite T, F by done. done. Qed.

(** Changes one after the other *)
Ltac within O := eapply only_more; [|exact O]; clear; set_solver.
Ltac after O := eapply only_then; [within O|].
Ltac kept O := eapply holds_only; [exact O|away|eassumption].

Lemma sets_only X R h h' : sets X R h h' -> only [X] h h'.
Proof. intros [T G _ F]. split; [done|]. split; [done|]. intros a Ha Hn. apply F; [done|]. intros ->. apply Hn. by left. Qed.

(** The steps on numbers: what they hold afterwards *)
Lemma add_step X A B h a b : good h -> (X < top h)%nat -> (0 < mpi_n (mem h X))%nat -> holds h A a -> holds h B b ->
  Z.abs (a + b) < pow MBEDTLS_MPI_MAX_LIMBS ->
  wp (mbedtls_mpi_add_mpi X A B) h (fun _ h' => only [X] h h' /\ holds h' X (a + b)).
Proof.
  intros G HX Hn (HA & <- & Ha) (HB & <- & Hb) Hlt. eapply wp_mono; [by apply add_mpi_spec|].
  intros ? h' Hs. split; [exact (sets_only _ _ _ _ Hs)|]. destruct Hs as [T' _ [Hv [_ Hk]] _]. unfold holds. rewrite T', Hv.
  specialize (Hk Ha Hb). repeat split; lia.
Qed.

Lemma sub_step X A B h a b : good h -> (X < top h)%nat -> (0 < mpi_n (mem h X))%nat -> holds h A a -> holds h B b ->
  Z.abs (a - b) < pow MBEDTLS_MPI_MAX_LIMBS ->
  wp (mbedtls_mpi_sub_mpi X A B) h (fun _ h' => only [X] h h' /\ holds h' X (a - b)).
Proof.
  intros G HX Hn (HA & <- & Ha) (HB & <- & Hb) Hlt. eapply wp_mono; [by apply sub_mpi_spec|].
  intros ? h' Hs. split; [exact (sets_only _ _ _ _ Hs)|]. destruct Hs as [T' _ [Hv [_ Hk]] _]. unfold holds. rewrite T', Hv.
  specialize (Hk Ha Hb). repeat split; lia.
Qed.

Lemma half_step X h v : good h -> holds h X v -> Z.odd v = false ->
  wp (mbedtls_mpi_shift_r X 1) h (fun _ h' => only [X] h h' /\ holds h' X (v / 2)).
Proof.
  intros G (HX & <- & Hn) Hv. eapply wp_mono; [apply (shift_r_value X 1 h G HX); right; by apply even_divides|].
  intros ? h' Hs. split; [exact (sets_only _ _ _ _ Hs)|]. destruct Hs as [T' _ [Hv' Hk] _]. unfold holds. rewrite T', Hv'.
  repeat split; lia.
Qed.

Lemma set_step X z h : good h -> (X < top h)%nat -> Z.abs z < base ->
  wp (mbedtls_mpi_lset X z) h (fun _ h' => only [X] h h' /\ holds h' X z).
Proof.
  intros G HX Hz. eapply wp_mono; [by apply lset_int_spec|]. intros ? h' Hs. split; [exact (sets_only _ _ _ _ Hs)|].
  destruct Hs as [T' _ (Hv & _ & _ & Hn) _]. unfold holds. rewrite T', Hv, Hn. repeat split; lia.
Qed.

Lemma copy_step X Y v h : good h -> (X < top h)%nat -> holds h Y v ->
  wp (mbedtls_mpi_copy X Y) h (fun _ h' => only [X] h h' /\ value (mem h' X) = v /\ (v <> 0 -> holds h' X v)).
Proof.
  intros G HX (HY & <- & Hn). eapply wp_mono; [by apply copy_result|]. intros _ h' (T' & G' & [Hv _] & _ & _ & F').
  split; [split_and!; [done..|]; intros a Ha Hne; apply F'; [done|]; intros ->; by apply Hne, list_elem_of_singleton|].
  split; [done|]. intros Hnz. unfold holds. rewrite T', Hv. split; [done|]. split; [done|].
  unfold value, mag, mpi_n in *. destruct (mpi_p (mem h' X)); cbn in *; lia.
Qed.

(** ** Halving *)

(** What the coefficients may reach before and after the halving of [u]. *)
Definition reach (J b u : Z) : Z := if Z.odd u then J + b else 2 * J + b.

(** The numbers of one side: [u] and its coefficients *)
Record side (h : heap) (U U1 U2 : addr) (a b u u1 u2 : Z) : Prop := Side {
  i_u : holds h U u;
  i_u1 : holds h U1 u1;
  i_u2 : holds h U2 u2;
  i_comb : u = u1 * a + u2 * b;
  i_pos : 0 < u
}.

Lemma side_only l h h' U U1 U2 a b u u1 u2 : only l h h' -> U ∉ l -> U1 ∉ l -> U2 ∉ l ->
  side h U U1 U2 a b u u1 u2 -> side h' U U1 U2 a b u u1 u2.
Proof. intros Ho N N1 N2 [S1 S2 S3 S4 S5]. constructor; try done; by eapply holds_only. Qed.

Section Halving.
Context (TA TB U U1 U2 : addr).
Hypothesis distinct : pairwise [U; U1; U2; TA; TB].

Lemma halve_once_spec h a b u u1 u2 J : good h -> side h U U1 U2 a b u u1 u2 -> holds h TA a -> holds h TB b ->
  0 <= a <= b -> Z.odd a || Z.odd b = true -> Z.odd u = false -> 0 <= J -> 2 * J + 2 * b < pow MBEDTLS_MPI_MAX_LIMBS ->
  Z.abs u1 <= 2 * J + b -> Z.abs u2 <= 2 * J + b ->
  wp (halve_once U U1 U2 TA TB) h (fun _ h' => only [U; U1; U2] h h' /\
    exists u1' u2', side h' U U1 U2 a b (u / 2) u1' u2' /\ Z.abs u1' <= J + b /\ Z.abs u2' <= J + b).
Proof.
  intros G [SU S1 S2 Ec Hu] HA HB Hab Hpar Hev HJ Hmax B1 B2. unfold halve_once.
  eapply wp_chk; [by apply half_step|]. intros ? h1 (O1 & SU1). pose proof (proj1 (proj2 O1)) as G1.
  assert (S11 : holds h1 U1 u1) by kept O1. assert (S21 : holds h1 U2 u2) by kept O1.
  assert (HA1 : holds h1 TA a) by kept O1. assert (HB1 : holds h1 TB b) by kept O1.
  pose proof S11 as (T1 & E1 & N1). pose proof S21 as (T2 & E2 & N2).
  apply odd_limb_spec; [done..|]. rewrite E1.
  eapply wp_chk with (R := fun odd h' => h' = h1 /\ odd = Z.odd u1 || Z.odd u2).
  { destruct (Z.odd u1); [by apply wp_ret|]. apply chk_ret, odd_limb_spec; [done..|]. by rewrite E2. }
  intros ? ? (-> & ->).
  eapply wp_chk with (R := fun _ h2 => only [U1; U2] h1 h2 /\ exists w1 w2, holds h2 U1 w1 /\ holds h2 U2 w2 /\
    Z.odd w1 = false /\ Z.odd w2 = false /\ w1 * a + w2 * b = u /\ Z.abs w1 <= 2 * J + 2 * b /\ Z.abs w2 <= 2 * J + 2 * b).
  { destruct (Z.odd u1 || Z.odd u2) eqn:Eo.
    - eapply wp_chk; [by apply (add_step U1 U1 TB h1 u1 b); try done; lia|]. intros ? h2 (O2 & S12).
      eapply wp_mono.
      { apply (sub_step U2 U2 TA h2 u2 a); [apply O2|rewrite (proj1 O2); done| | | |lia].
        - destruct O2 as (_ & _ & ->); [done|done|away].
        - kept O2.
        - kept O2. }
      intros ? h3 (O3 & S23). split.
      { after O2. within O3. }
      destruct (both_even a b u1 u2 Hpar ltac:(by rewrite <- Ec) Eo) as [Ev1 Ev2].
      exists (u1 + b), (u2 - a). split; [kept O3|]. split; [done|]. split_and!; try done; lia.
    - apply wp_ret. split; [by apply only_refl|]. apply orb_false_elim in Eo as [Eo1 Eo2]. exists u1, u2. split_and!; try done; lia. }
  intros ? h2 (O2 & w1 & w2 & S12 & S22 & Ev1 & Ev2 & Ew & B1' & B2'). pose proof (proj1 (proj2 O2)) as G2.
  eapply wp_chk; [by apply half_step|]. intros ? h3 (O3 & S13). pose proof (proj1 (proj2 O3)) as G3.
  assert (S23 : holds h3 U2 w2) by kept O3.
  eapply wp_mono; [by apply half_step|]. intros ? h4 (O4 & S24).
  assert (O : only [U; U1; U2] h h4).
  { after O1. after O2. after O3. within O4. }
  split; [done|]. exists (w1 / 2), (w2 / 2).
  split; [constructor|].
  - assert (SU2 : holds h2 U (u / 2)) by kept O2. assert (SU3 : holds h3 U (u / 2)) by kept O3. kept O4.
  - kept O4.
  - done.
  - by apply half_combination.
  - by apply half_pos.
  - split; apply half_bound; done || lia.
Qed.

Lemma halve_spec fuel : forall h a b u u1 u2 J, good h -> side h U U1 U2 a b u u1 u2 -> holds h TA a -> holds h TB b ->
  0 <= a <= b -> Z.odd a || Z.odd b = true -> (bits u <= fuel)%nat -> 0 <= J -> 2 * J + 2 * b < pow MBEDTLS_MPI_MAX_LIMBS ->
  Z.abs u1 <= reach J b u -> Z.abs u2 <= reach J b u ->
  wp (halve fuel U U1 U2 TA TB) h (fun _ h' => only [U; U1; U2] h h' /\ exists u' u1' u2',
    side h' U U1 U2 a b u' u1' u2' /\ Z.odd u' = true /\ (u' | u) /\ (if Z.odd u then u' = u else 2 * u' <= u) /\
    Z.abs u1' <= J + b /\ Z.abs u2' <= J + b).
Proof.
  induction fuel as [|fuel IH]; intros h a b u u1 u2 J G HS HA HB Hab Hpar Hf HJ Hmax B1 B2.
  { pose proof (bits_pos u (i_pos _ _ _ _ _ _ _ _ _ HS)). lia. }
  cbn [halve]. pose proof (i_u _ _ _ _ _ _ _ _ _ HS) as (TU & EU & NU). apply odd_limb_spec; [done..|]. rewrite EU.
  unfold reach in B1, B2. destruct (Z.odd u) eqn:Eo.
  { apply wp_ret. split; [by apply only_refl|]. exists u, u1, u2. by split_and!. }
  eapply wp_chk; [eapply (halve_once_spec h a b u u1 u2 J); done|]. intros ? h1 (O1 & w1 & w2 & HS1 & C1 & C2).
  pose proof (i_pos _ _ _ _ _ _ _ _ _ HS) as Hu. pose proof (i_pos _ _ _ _ _ _ _ _ _ HS1) as Hu'.
  pose proof (even_half u Eo) as Eh.
  assert (HA1 : holds h1 TA a) by kept O1. assert (HB1 : holds h1 TB b) by kept O1.
  eapply wp_mono; [apply (IH h1 a b (u / 2) w1 w2 J); try done; try apply O1|].
  - pose proof (bits_half (u / 2) u ltac:(lia) ltac:(lia) Hu). lia.
  - unfold reach. destruct (Z.odd (u / 2)); lia.
  - unfold reach. destruct (Z.odd (u / 2)); lia.
  - intros ? h2 (O2 & u' & u1' & u2' & HS2 & Ho & Hd & Hle & D). split; [after O1; within O2|].
    exists u', u1', u2'. split; [done|]. split; [done|]. split; [|split; [|done]].
    + apply (Z.divide_trans _ (u / 2)); [exact Hd|]. exists 2. exact Eh.
    + clear - Hle Eh Hu. destruct (Z.odd (u / 2)); lia.
Qed.

End Halving.

(** ** Subtracting *)

Section Subtracting.
Context (U U1 U2 V V1 V2 : addr).
Hypothesis distinct : pairwise [U; U1; U2; V; V1; V2].

Lemma subtract_spec h a b u u1 u2 v v1 v2 K : good h -> side h U U1 U2 a b u u1 u2 -> side h V V1 V2 a b v v1 v2 -> v <= u ->
  u < pow MBEDTLS_MPI_MAX_LIMBS -> 2 * K < pow MBEDTLS_MPI_MAX_LIMBS ->
  Z.abs u1 <= K -> Z.abs u2 <= K -> Z.abs v1 <= K -> Z.abs v2 <= K ->
  wp (subtract U U1 U2 V V1 V2) h (fun _ h' => only [U; U1; U2] h h' /\ holds h' U (u - v) /\ side h' V V1 V2 a b v v1 v2 /\
    (v < u -> side h' U U1 U2 a b (u - v) (u1 - v1) (u2 - v2))).
Proof.
  intros G HS HS' Hle Hmu Hmax B1 B2 C1 C2. pose proof HS as [(TU & EU & NU) (T1 & E1 & N1) (T2 & E2 & N2) Ec Hu].
  pose proof HS as [S S1 S2 _ _]. pose proof HS' as [S' S1' S2' Ec' Hu']. unfold subtract.
  eapply wp_chk; [apply (sub_step U U V h u v); [done..|by apply abs_diff]|]. intros ? h1 (O1 & SU).
  assert (S11 : holds h1 U1 u1) by kept O1. assert (S21 : holds h1 U2 u2) by kept O1.
  assert (S11' : holds h1 V1 v1) by kept O1. assert (S21' : holds h1 V2 v2) by kept O1.
  eapply wp_chk; [apply (sub_step U1 U1 V1 h1 u1 v1); [apply O1|apply S11|apply S11|done..|by apply (abs_diff_le _ _ K)]|]. intros ? h2 (O2 & SU1).
  assert (S22 : holds h2 U2 u2) by kept O2. assert (S22' : holds h2 V2 v2) by kept O2. assert (SU2 : holds h2 U (u - v)) by kept O2.
  eapply wp_mono; [apply (sub_step U2 U2 V2 h2 u2 v2); [apply O2|apply S22|apply S22|done..|by apply (abs_diff_le _ _ K)]|]. intros ? h3 (O3 & S23).
  assert (O : only [U; U1; U2] h h3) by (after O1; after O2; within O3). assert (SU3 : holds h3 U (u - v)) by kept O3.
  split; [done|]. split; [done|]. split; [by apply (side_only _ _ _ _ _ _ _ _ _ _ _ O); [away..|]|].
  intros Hlt. constructor; [done|kept O3|done|rewrite Ec, Ec'; ring|by apply Z.lt_0_sub].
Qed.

End Subtracting.

(** ** The loop *)

Section Loop.
Context (U U1 U2 V V1 V2 TA TB : addr).
Hypothesis distinct : pairwise [U; U1; U2; V; V1; V2; TA; TB].

(** The turns that are left: one more when nothing can be halved *)
Definition turns_of (u v : Z) : nat := (bits u + bits v + if Z.odd u && Z.odd v then 1 else 0)%nat.

(** The coefficients of one turn with room for the next *)
Record turning (h : heap) (a b u u1 u2 v v1 v2 J : Z) : Prop := Turning {
  r_good : good h;
  r_u : side h U U1 U2 a b u u1 u2;
  r_v : side h V V1 V2 a b v v1 v2;
  r_a : holds h TA a;
  r_b : holds h TB b;
  r_coprime : Z.coprime u v;
  r_uJ : Z.abs u1 <= reach J b u /\ Z.abs u2 <= reach J b u;
  r_vJ : Z.abs v1 <= reach J b v /\ Z.abs v2 <= reach J b v
}.

Lemma coprime_parts u v u' v' : Z.coprime u v -> (u' | u) -> (v' | v) -> Z.coprime u' v'.
Proof.
  intros Hc Hu Hv. unfold Z.coprime in *. apply Z.divide_1_r_nonneg; [apply Z.gcd_nonneg|]. rewrite <- Hc.
  apply Z.gcd_greatest; (eapply Z.divide_trans; [|eassumption]); [apply Z.gcd_divide_l|apply Z.gcd_divide_r].
Qed.

Lemma halved_bits u u' : 0 < u' -> (if Z.odd u then u' = u else 2 * u' <= u) -> (bits u' + (if Z.odd u then 0 else 1) <= bits u)%nat.
Proof. intros Hp Hh. destruct (Z.odd u); [subst; lia|]. pose proof (bits_half u' u ltac:(lia) Hh ltac:(lia)). lia. Qed.

Lemma odd_difference u v : Z.odd u = true -> Z.odd v = true -> Z.odd (u - v) = false.
Proof. intros Hu Hv. by rewrite Z.odd_sub, Hu, Hv. Qed.

Lemma turns_sym u v : turns_of u v = turns_of v u.
Proof. unfold turns_of. rewrite andb_comm. lia. Qed.

Lemma turns_next u v : Z.odd u = true -> Z.odd v = true -> 0 < v -> v < u -> (turns_of (u - v) v < turns_of u v)%nat.
Proof.
  intros Hu Hv H0 Hlt. unfold turns_of. rewrite odd_difference, Hu, Hv by done. cbn [andb].
  pose proof (bits_le (u - v) u ltac:(lia) ltac:(lia)). lia.
Qed.

Lemma reach_difference J b x y u v : 0 <= b -> Z.odd u = true -> Z.odd v = true -> Z.abs x <= J + b -> Z.abs y <= J + b ->
  Z.abs (x - y) <= reach (J + b) b (u - v).
Proof. intros Hb Hu Hv Hx Hy. unfold reach. rewrite odd_difference by done. lia. Qed.

Lemma reach_kept J b x u : 0 <= b -> Z.odd u = true -> Z.abs x <= J + b -> Z.abs x <= reach (J + b) b u.
Proof. intros Hb Hu Hx. unfold reach. rewrite Hu. lia. Qed.

Lemma coprime_difference u v : Z.coprime u v -> Z.coprime (u - v) v.
Proof. unfold Z.coprime. intros <-. rewrite (Z.gcd_comm _ v), Z.gcd_sub_diag_r. apply Z.gcd_comm. Qed.

Lemma coprime_equal u : Z.coprime u u -> 0 < u -> u = 1.
Proof. unfold Z.coprime. rewrite Z.gcd_diag. lia. Qed.

Lemma side_bitlen h X X1 X2 a b u u1 u2 : good h -> side h X X1 X2 a b u u1 u2 -> mbedtls_mpi_bitlen (mem h X) = bits u.
Proof.
  intros G [(T & E & _) _ _ _ Hu]. rewrite bitlen_spec by by apply G. f_equal. rewrite value_mag; [done|by apply G|lia].
Qed.

Lemma halve_both_spec h a b u u1 u2 v v1 v2 J : turning h a b u u1 u2 v v1 v2 J ->
  0 <= a <= b -> Z.odd a || Z.odd b = true -> 0 <= J -> 2 * J + 2 * b < pow MBEDTLS_MPI_MAX_LIMBS ->
  wp (halve_both U U1 U2 V V1 V2 TA TB) h (fun _ h' =>
    only [U; U1; U2; V; V1; V2] h h' /\ exists u' u1' u2' v' v1' v2', turning h' a b u' u1' u2' v' v1' v2' J /\
      Z.odd u' = true /\ Z.odd v' = true /\ u' <= u /\ v' <= v /\ (turns_of u' v' <= turns_of u v)%nat).
Proof.
  intros [G HU HV HA HB Hc [U1b U2b] [V1b V2b]] Hab Hpar HJ Hmax. apply wp_load. rewrite (side_bitlen _ _ _ _ _ _ _ _ _ G HU).
  eapply wp_chk; [eapply (halve_spec TA TB U U1 U2); try done; away|].
  intros ? h1 (O1 & u' & u1' & u2' & HU1 & Ho & Hd & Hh & B1 & B2).
  assert (HV1 : side h1 V V1 V2 a b v v1 v2) by (apply (side_only _ _ _ _ _ _ _ _ _ _ _ O1); [away..|done]).
  assert (HA1 : holds h1 TA a) by kept O1. assert (HB1 : holds h1 TB b) by kept O1. apply wp_load.
  rewrite (side_bitlen _ _ _ _ _ _ _ _ _ (proj1 (proj2 O1)) HV1).
  eapply wp_mono; [eapply (halve_spec TA TB V V1 V2); try done; try apply O1; away|].
  intros ? h2 (O2 & v' & v1' & v2' & HV2 & Ho' & Hd' & Hh' & B1' & B2'). split; [after O1; within O2|].
  exists u', u1', u2', v', v1', v2'. split; [|split; [done|split; [done|]]].
  - constructor; try done; try apply O2.
    + apply (side_only _ _ _ _ _ _ _ _ _ _ _ O2); [away..|done].
    + kept O2.
    + kept O2.
    + by apply (coprime_parts u v).
    + unfold reach. by rewrite Ho.
    + unfold reach. by rewrite Ho'.
  - pose proof (i_pos _ _ _ _ _ _ _ _ _ HU1) as Hu'. pose proof (i_pos _ _ _ _ _ _ _ _ _ HV2) as Hv'.
    clear - Ho Ho' Hh Hh' Hu' Hv'. pose proof (halved_bits u u' Hu' Hh). pose proof (halved_bits v v' Hv' Hh').
    unfold turns_of. rewrite Ho, Ho'. destruct (Z.odd u), (Z.odd v); cbn [andb]; lia.
Qed.

(** The inverse is the coefficient of [a] when only 1 is left. *)
Lemma inverse_loop_spec fuel : forall h a b u u1 u2 v v1 v2 J, turning h a b u u1 u2 v v1 v2 J ->
  0 <= a <= b -> Z.odd a || Z.odd b = true -> 0 <= J -> (turns_of u v <= fuel)%nat ->
  2 * (J + Z.of_nat fuel * b) + 2 * b < pow MBEDTLS_MPI_MAX_LIMBS -> u <= b -> v <= b ->
  wp (inverse_loop fuel U U1 U2 V V1 V2 TA TB) h (fun _ h' => only [U; U1; U2; V; V1; V2] h h' /\
    exists w1 w2, holds h' V1 w1 /\ w1 * a + w2 * b = 1 /\ Z.abs w1 <= J + Z.of_nat fuel * b).
Proof.
  induction fuel as [|fuel IH]; intros h a b u u1 u2 v v1 v2 J HT Hab Hpar HJ Hf Hmax Hub Hvb.
  { pose proof (bits_pos u (i_pos _ _ _ _ _ _ _ _ _ (r_u _ _ _ _ _ _ _ _ _ _ HT))). unfold turns_of in Hf. lia. }
  assert (Hfb : 0 <= Z.of_nat fuel * b) by (apply Z.mul_nonneg_nonneg; lia).
  rewrite Nat2Z.inj_succ, Z.mul_succ_l in Hmax |- *. cbn [inverse_loop].
  eapply wp_chk; [apply (halve_both_spec h a b u u1 u2 v v1 v2 J HT Hab Hpar HJ); lia|].
  intros ? h1 (O1 & u' & u1' & u2' & v' & v1' & v2' & HT1 & Hou & Hov & Hu & Hv & Ht).
  pose proof HT1 as [G1 HU1 HV1 HA1 HB1 Hc1 [X1 X2] [Y1 Y2]]. unfold reach in X1, X2, Y1, Y2. rewrite Hou in X1, X2. rewrite Hov in Y1, Y2.
  pose proof (i_u _ _ _ _ _ _ _ _ _ HU1) as (TU & EU & NU). pose proof (i_u _ _ _ _ _ _ _ _ _ HV1) as (TV & EV & NV).
  pose proof (i_pos _ _ _ _ _ _ _ _ _ HU1) as Pu. pose proof (i_pos _ _ _ _ _ _ _ _ _ HV1) as Pv.
  apply wp_load, wp_load. rewrite cmp_mpi_spec, ord_geb, EU, EV by (apply G1; done).
  destruct (Z.leb_spec v' u') as [Hle|Hlt].
  - eapply wp_chk; [eapply (subtract_spec U U1 U2 V V1 V2 ltac:(away) h1 a b u' u1' u2' v' v1' v2' (J + b)); try done; lia|].
    intros ? h2 (O2 & (TU2 & EU2 & NU2) & HV2 & HU2). pose proof (proj1 (proj2 O2)) as G2. apply wp_load.
    rewrite cmp_int_spec, ord_eqb, EU2 by (done || by apply G2). destruct (Z.eqb_spec (u' - v') 0) as [E0|E0].
    + apply wp_ret. split; [after O1; within O2|]. destruct HV2 as [_ S1 _ Ec _]. exists v1', v2'. split; [done|].
      assert (u' = v') as -> by lia. pose proof (coprime_equal v' Hc1 Pv). split; [lia|]. lia.
    + assert (Hlt : v' < u') by lia. pose proof (turns_next u' v' Hou Hov Pv Hlt).
      eapply wp_mono; [apply (IH h2 a b (u' - v') (u1' - v1') (u2' - v2') v' v1' v2' (J + b)); try done; try lia|].
      * constructor; [done|by apply HU2|done|kept O2|kept O2|by apply coprime_difference| |].
        { split; by apply (reach_difference _ _ _ _ u' v'); [lia|..]. }
        { split; by apply reach_kept; [lia|..]. }
      * intros ? h3 (O3 & w1 & w2 & S & Ew & Hw). split; [after O1; after O2; within O3|]. exists w1, w2. split; [done|]. lia.
  - eapply wp_chk; [eapply (subtract_spec V V1 V2 U U1 U2 ltac:(away) h1 a b v' v1' v2' u' u1' u2' (J + b)); try done; lia|].
    intros ? h2 (O2 & _ & HU2 & HV2). pose proof (proj1 (proj2 O2)) as G2. apply wp_load.
    pose proof (i_u _ _ _ _ _ _ _ _ _ HU2) as (TU2 & EU2 & NU2).
    rewrite cmp_int_spec, ord_eqb, EU2 by (done || by apply G2). rewrite (proj2 (Z.eqb_neq _ _)) by lia.
    pose proof (turns_next v' u' Hov Hou Pu Hlt) as Ht'. rewrite (turns_sym v' u'), (turns_sym (v' - u')) in Ht'.
    eapply wp_mono; [apply (IH h2 a b u' u1' u2' (v' - u') (v1' - u1') (v2' - u2') (J + b)); try done; try lia|].
    + constructor; [done|done|by apply HV2|kept O2|kept O2| | |].
      { apply Z.Symmetric_coprime, coprime_difference. by apply Z.Symmetric_coprime. }
      { split; by apply reach_kept; [lia|..]. }
      { split; by apply (reach_difference _ _ _ _ v' u'); [lia|..]. }
    + intros ? h3 (O3 & w1 & w2 & S & Ew & Hw). split; [after O1; after O2; within O3|]. exists w1, w2. split; [done|]. lia.
Qed.

End Loop.

(** ** The residue of the coefficient *)

Lemma add_turns V N n fuel : V <> N -> 0 < n -> forall h v, good h -> holds h V v -> holds h N n ->
  - (Z.of_nat fuel - 1) * n <= v -> (0 < fuel)%nat -> Z.abs v < pow MBEDTLS_MPI_MAX_LIMBS -> n < pow MBEDTLS_MPI_MAX_LIMBS ->
  wp (add_until_positive fuel V N) h (fun _ h' => only [V] h h' /\ exists v', holds h' V v' /\ 0 <= v' /\
    v' mod n = v mod n /\ (v' = v \/ v' < n)).
Proof.
  intros Hne Hn. induction fuel as [|fuel IH]; intros h v G HV HN Hv Hf Hmax Hmn; [lia|]. cbn [add_until_positive].
  pose proof HV as (TV & EV & NV). apply wp_load. rewrite cmp_int_spec, ord_ltb, EV by (done || by apply G).
  destruct (Z.ltb_spec v 0) as [Hneg|Hpos]; [|apply wp_ret; split; [by apply only_refl|]; exists v; auto].
  destruct fuel as [|fuel]; [lia|].
  eapply wp_chk; [apply (add_step V V N h v n); [done..|lia]|]. intros ? h1 (O1 & HV1).
  assert (HN1 : holds h1 N n) by (eapply holds_only; [exact O1|by intros ?%list_elem_of_singleton|done]).
  eapply wp_mono; [apply (IH h1 (v + n)); [apply O1|done|done|lia|lia|lia|exact Hmn]|].
  intros ? h2 (O2 & v' & HV2 & H0 & Em & Hc). split; [after O1; within O2|]. exists v'. split; [done|]. split; [done|].
  split; [|lia]. rewrite Em. replace (v + n) with (v + 1 * n) by lia. apply Z_mod_plus_full.
Qed.

Lemma sub_turns V N n fuel : V <> N -> 0 < n -> forall h v, good h -> holds h V v -> holds h N n ->
  0 <= v < Z.of_nat fuel * n -> v < pow MBEDTLS_MPI_MAX_LIMBS ->
  wp (sub_until_below fuel V N) h (fun _ h' => only [V] h h' /\ holds h' V (v mod n)).
Proof.
  intros Hne Hn. induction fuel as [|fuel IH]; intros h v G HV HN Hv Hmax; [lia|]. cbn [sub_until_below].
  pose proof HV as (TV & EV & NV). pose proof HN as (TN & EN & NN). apply wp_load, wp_load.
  rewrite cmp_mpi_spec, ord_geb, EV, EN by (by apply G).
  destruct (Z.leb_spec n v) as [Hle|Hlt].
  - eapply wp_chk; [apply (sub_step V V N h v n); [done..|lia]|]. intros ? h1 (O1 & HV1).
    assert (HN1 : holds h1 N n) by (eapply holds_only; [exact O1|by intros ?%list_elem_of_singleton|done]).
    eapply wp_mono; [apply (IH h1 (v - n)); [apply O1|done|done|lia|lia]|].
    intros ? h2 (O2 & HV2). split; [after O1; within O2|].
    replace (v mod n) with ((v - n) mod n); [done|]. replace (v - n) with (v + (-1) * n) by lia. apply Z_mod_plus_full.
  - apply wp_ret. split; [by apply only_refl|]. rewrite Z.mod_small by lia. exact HV.
Qed.

(** ** All together *)

Lemma holds_nonzero h X v : good h -> (X < top h)%nat -> value (mem h X) = v -> v <> 0 -> holds h X v.
Proof. intros G HX <- Hv. split; [done|]. split; [done|]. unfold value, mag, mpi_n in *. destruct (mpi_p (mem h X)); cbn in *; lia. Qed.

Lemma room n k t : 0 < n -> n < pow k -> (k + 2 <= MBEDTLS_MPI_MAX_LIMBS)%nat -> (t <= 2 * bits n + 1)%nat ->
  2 * (0 + Z.of_nat t * n) + 2 * n < pow MBEDTLS_MPI_MAX_LIMBS.
Proof.
  intros Hn Hk Hmax Ht. assert (Hb : (bits n <= 64 * k)%nat) by (apply bits_lt; [lia|]; rewrite Nat2Z.inj_mul, <- pow_bits; done).
  assert (Hs : Z.of_nat t < 2 ^ 40) by (unfold MBEDTLS_MPI_MAX_LIMBS in Hmax; lia).
  apply Z.lt_le_trans with (pow (k + 1)); [|apply pow_mono; lia]. rewrite pow_add. change (pow 1) with (2 ^ 64). nia.
Qed.

Lemma coprime_odd a b : Z.coprime a b -> Z.odd a || Z.odd b = true.
Proof.
  intros Hc. destruct (Z.odd a) eqn:Ea; [done|]. destruct (Z.odd b) eqn:Eb; [done|].
  assert (Hd : (2 | Z.gcd a b)).
  { apply Z.gcd_greatest; [exists (a / 2); rewrite (even_half a Ea) at 1|exists (b / 2); rewrite (even_half b Eb) at 1]; lia. }
  rewrite Hc in Hd. apply Z.divide_1_r in Hd. lia.
Qed.

Section Invert.
Context (TA TU U1 U2 G TB TV V1 V2 X A N : addr).
Hypothesis distinct : pairwise [TA; TU; U1; U2; G; TB; TV; V1; V2; N].

Definition locals9 : list addr := [TA; TU; U1; U2; G; TB; TV; V1; V2].

(** The loop begins with [TU = TA] and [TV = TB = N]. *)
Lemma prepare_inverse_spec h a n : good h -> Forall (fun c => (c < top h)%nat) locals9 -> holds h N n -> 1 < n -> A <> G ->
  (A < top h)%nat -> value (mem h A) = a -> Z.coprime (a mod n) n -> (mpi_n (mem h A) + 2 <= MBEDTLS_MPI_MAX_LIMBS)%nat ->
  forall k : mpi unit, forall Q,
  (forall h', only locals9 h h' -> turning TU U1 U2 TV V1 V2 TA TB h' (a mod n) n (a mod n) 1 0 n 0 1 0 -> wp k h' Q) ->
  wp (mbedtls_mpi_mod_mpi TA A N ;* mbedtls_mpi_copy TU TA ;* mbedtls_mpi_copy TB N ;* mbedtls_mpi_copy TV N ;*
      mbedtls_mpi_lset U1 1 ;* mbedtls_mpi_lset U2 0 ;* mbedtls_mpi_lset V1 0 ;* mbedtls_mpi_lset V2 1 ;* k) h Q.
Proof.
  intros Hg Ht HN Hn HAG HA Ea Hc Hsz k Q Hk. unfold locals9 in Ht. rewrite !Forall_cons in Ht. destruct_and! Ht.
  pose proof (Z.mod_pos_bound a n ltac:(lia)) as Hr. pose proof HN as (TN & EN & NN).
  assert (Ha0 : a mod n <> 0). { intros E. rewrite E in Hc. unfold Z.coprime in Hc. rewrite Z.gcd_0_l in Hc. lia. }
  eapply wp_chk; [apply (mod_mpi_spec TA A N h); try done; [|lia]|].
  { intros E. unpack. congruence. }
  rewrite Ea, EN. intros ? h1 Hs1. pose proof (sets_only _ _ _ _ Hs1) as O1. destruct Hs1 as [T1 G1 [E1 _] _].
  assert (HA1 : holds h1 TA (a mod n)) by (apply holds_nonzero; [done|lia|done|done]).
  assert (HN1 : holds h1 N n) by kept O1.
  eapply wp_chk; [apply (copy_step TU TA (a mod n) h1); [done|lia|done]|]. intros ? h2 (O2 & _ & HU2). specialize (HU2 Ha0).
  pose proof O2 as (T2 & G2 & _). assert (HA2 : holds h2 TA (a mod n)) by kept O2. assert (HN2 : holds h2 N n) by kept O2.
  eapply wp_chk; [apply (copy_step TB N n h2); [done|lia|done]|]. intros ? h3 (O3 & _ & HB3). specialize (HB3 ltac:(lia)).
  pose proof O3 as (T3 & G3 & _). assert (HA3 : holds h3 TA (a mod n)) by kept O3. assert (HN3 : holds h3 N n) by kept O3.
  assert (HU3 : holds h3 TU (a mod n)) by kept O3.
  eapply wp_chk; [apply (copy_step TV N n h3); [done|lia|done]|]. intros ? h4 (O4 & _ & HV4). specialize (HV4 ltac:(lia)).
  pose proof O4 as (T4 & G4 & _). assert (HA4 : holds h4 TA (a mod n)) by kept O4. assert (HB4 : holds h4 TB n) by kept O4.
  assert (HU4 : holds h4 TU (a mod n)) by kept O4.
  eapply wp_chk; [apply (set_step U1 1 h4); [done|lia|done]|]. intros ? h5 (O5 & S5). pose proof O5 as (T5 & G5 & _).
  eapply wp_chk; [apply (set_step U2 0 h5); [done|lia|done]|]. intros ? h6 (O6 & S6). pose proof O6 as (T6 & G6 & _).
  eapply wp_chk; [apply (set_step V1 0 h6); [done|lia|done]|]. intros ? h7 (O7 & S7). pose proof O7 as (T7 & G7 & _).
  eapply wp_chk; [apply (set_step V2 1 h7); [done|lia|done]|]. intros ? h8 (O8 & S8). pose proof O8 as (T8 & G8 & _).
  assert (O58 : only [U1; U2; V1; V2] h4 h8) by (after O5; after O6; after O7; within O8).
  assert (O68 : only [U2; V1; V2] h5 h8) by (after O6; after O7; within O8).
  assert (O78 : only [V1; V2] h6 h8) by (after O7; within O8).
  apply Hk; [unfold locals9; after O1; after O2; after O3; after O4; within O58|].
  constructor; try done; try kept O58; try (unfold reach; split; destruct (Z.odd _); lia).
  - constructor; [kept O58|kept O68|kept O78|lia|lia].
  - constructor; [kept O58|kept O8|done|lia|lia].
Qed.

Lemma inverse_turns u n : 0 < u <= n -> (turns_of u n <= bits u + bits n + 1 <= 2 * bits n + 1)%nat.
Proof. intros Hu. unfold turns_of. pose proof (bits_le u n ltac:(lia) ltac:(lia)). destruct (_ && _); lia. Qed.

Lemma turning_side h a b u u1 u2 v v1 v2 J : turning TU U1 U2 TV V1 V2 TA TB h a b u u1 u2 v v1 v2 J ->
  mbedtls_mpi_bitlen (mem h TU) = bits u /\ mbedtls_mpi_bitlen (mem h TV) = bits v /\ 0 < u.
Proof.
  intros [G0 HU HV _ _ _ _ _]. split; [by apply (side_bitlen _ _ _ _ _ _ _ _ _ G0 HU)|].
  split; [by apply (side_bitlen _ _ _ _ _ _ _ _ _ G0 HV)|]. by destruct HU.
Qed.

(** From the loop to the end *)
Lemma finish_inverse_spec h a n : turning TU U1 U2 TV V1 V2 TA TB h (a mod n) n (a mod n) 1 0 n 0 1 0 -> holds h N n -> 1 < n ->
  (X < top h)%nat -> (mpi_n (mem h N) + 2 <= MBEDTLS_MPI_MAX_LIMBS)%nat ->
  wp (let* tu := load TU in
      let* tv := load TV in
      let turns_of := (mbedtls_mpi_bitlen tu + mbedtls_mpi_bitlen tv + 1)%nat in
      inverse_loop turns_of TU U1 U2 TV V1 V2 TA TB ;*
      add_until_positive (turns_of + 2) V1 N ;*
      sub_until_below (turns_of + 2) V1 N ;*
      mbedtls_mpi_copy X V1) h (fun _ h' => top h' = top h /\ good h' /\
    (0 <= value (mem h' X) < n /\ value (mem h' X) * a mod n = 1) /\
    forall c, (c < top h)%nat -> c ∉ locals9 -> c <> X -> mem h' c = mem h c).
Proof.
  intros HT HN Hn HX Hsz. destruct (turning_side _ _ _ _ _ _ _ _ _ _ HT) as (EU & EV & Hu). apply wp_load, wp_load. rewrite EU, EV.
  pose proof (Z.mod_pos_bound a n ltac:(lia)) as Hr. destruct (inverse_turns (a mod n) n ltac:(lia)) as [Ht1 Ht2].
  set (t := (bits (a mod n) + bits n + 1)%nat) in *. pose proof HT as [G0 _ _ _ _ Hc _ _]. pose proof HN as (TN & EN & NN).
  assert (Hlt : n < pow (mpi_n (mem h N))) by (rewrite <- EN; pose proof (mag_bound _ (proj1 (G0 N TN))); pose proof (value_abs _ (proj1 (G0 N TN))); lia).
  pose proof (room n _ t ltac:(lia) Hlt Hsz Ht2) as Hroom.
  eapply wp_chk; [eapply (inverse_loop_spec TU U1 U2 TV V1 V2 TA TB ltac:(away) t h); [exact HT|lia|by apply coprime_odd|lia|exact Ht1|exact Hroom|lia|lia]|].
  intros ? h1 (O1 & w1 & w2 & HV & Ew & Hw). rewrite Z.add_0_l in Hw. assert (HN1 : holds h1 N n) by kept O1.
  assert (HVN : V1 <> N) by (unpack; congruence).
  assert (Htn : 0 <= Z.of_nat t * n) by (apply Z.mul_nonneg_nonneg; lia).
  eapply wp_chk; [apply (add_turns V1 N n (t + 2) HVN ltac:(lia) h1 w1); [apply O1|done|done|lia|lia|lia|lia]|].
  intros ? h2 (O2 & v' & HV2 & H0 & Em & Hv'). assert (HN2 : holds h2 N n) by kept O2.
  eapply wp_chk; [apply (sub_turns V1 N n (t + 2) HVN ltac:(lia) h2 v'); [apply O2|done|done|lia|lia]|].
  intros ? h3 (O3 & HV3). assert (O : only [TU; U1; U2; TV; V1; V2] h h3) by (after O1; after O2; within O3).
  pose proof O as (T3 & G3 & F3). eapply wp_mono; [apply (copy_step X V1 (v' mod n) h3 G3); [lia|exact HV3]|].
  intros ? h4 ((T4 & G4 & F4) & EX & _). split; [lia|]. split; [done|]. split.
  - rewrite EX, Em. split; [apply Z.mod_pos_bound; lia|]. rewrite Z.mul_mod_idemp_l by lia.
    rewrite <- Z.mul_mod_idemp_r by lia. replace (w1 * (a mod n)) with (1 + (- w2) * n) by lia.
    rewrite Z_mod_plus_full. apply Z.mod_small. lia.
  - intros c Hcc Hnl Hne. rewrite F4, F3; [done|lia| |lia|by intros ?%list_elem_of_singleton].
    intros Hin. apply Hnl. unfold locals9. clear - Hin. set_solver.
Qed.

End Invert.

Lemma gcd_mod_coprime a n : 1 < n -> Z.gcd a n = 1 <-> Z.coprime (a mod n) n.
Proof. intros Hn. unfold Z.coprime. rewrite Z.gcd_mod by lia. by rewrite Z.gcd_comm. Qed.

(** What the inverse is and when there is none. *)
Definition inverse_of (a n : Z) (x : mbedtls_mpi) : Prop := 0 <= value x < n /\ value x * a mod n = 1.

Lemma inv_mod_spec X A N h : good h -> (X < top h)%nat -> (A < top h)%nat -> (N < top h)%nat ->
  (mpi_n (mem h A) + 2 <= MBEDTLS_MPI_MAX_LIMBS)%nat -> (mpi_n (mem h N) + 2 <= MBEDTLS_MPI_MAX_LIMBS)%nat ->
  let a := value (mem h A) in let n := value (mem h N) in 1 < n ->
  yields (mbedtls_mpi_inv_mod X A N) h (fun e => e = MBEDTLS_ERR_MPI_NOT_ACCEPTABLE /\ Z.gcd a n <> 1)
    (fun _ h' => Z.gcd a n = 1 /\ sets X (inverse_of a n) h h').
Proof.
  intros Hg HX HA HN HsA HsN a n Hn. unfold mbedtls_mpi_inv_mod, yields at 1, chk at 1, load.
  rewrite cmp_int_spec, ord_leb by (done || by apply Hg). fold n. rewrite (proj2 (Z.leb_gt _ _)) by lia.
  set (T := top h) in *. do 9 apply yields_local. cbn [enter top]. fold T.
  match goal with |- yields _ ?hh _ _ => set (h0 := hh) end.
  assert (G0 : good h0) by (unfold h0; do 9 apply good_enter; exact Hg).
  assert (T0 : top h0 = (9 + T)%nat) by done.
  assert (F0 : forall c, (c < T)%nat -> mem h0 c = mem h c) by (intros c Hc; unfold h0; rewrite !enter_same by (cbn; lia); done).
  assert (HND : pairwise [T; S T; S (S T); S (S (S T)); S (S (S (S T))); S (S (S (S (S T)))); S (S (S (S (S (S T)))));
      S (S (S (S (S (S (S T)))))); S (S (S (S (S (S (S (S T))))))); N]).
  { cbn [pairwise apart_from]. split_and?; solve [lia | exact I]. }
  unfold invert. eapply yields_chk; [apply gcd_spec; [done|lia..]|]. rewrite !F0 by lia. fold a n.
  rewrite (proj2 (Z.eqb_neq n 0)) by lia. intros ? h1 (T1 & G1 & [Eg _] & F1).
  unfold yields at 1, chk at 1, load. rewrite cmp_int_spec, ord_eqb, Eg by (done || apply G1; lia).
  destruct (Z.eqb_spec (Z.gcd a n) 1) as [E1|E1]; cbn [negb]; [|by right].
  apply yields_wp. assert (HN1 : holds h1 N n) by (apply holds_nonzero; [done|lia|by rewrite F1, F0 by lia|lia]).
  eapply (prepare_inverse_spec _ _ _ _ _ _ _ _ _ A N HND h1 a n G1); try done; try lia.
  - unfold locals9. rewrite T1, T0. repeat (apply Forall_cons_2; [lia|]). apply Forall_nil_2.
  - by rewrite F1, F0 by lia.
  - exact (proj1 (gcd_mod_coprime a n Hn) E1).
  - by rewrite F1, F0 by lia.
  - intros h2 O2 HT2. pose proof O2 as (T2 & G2 & F2).
    assert (Hout : forall c, (c < T)%nat -> c ∉ locals9 T (S T) (S (S T)) (S (S (S T))) (S (S (S (S T)))) (S (S (S (S (S T)))))
      (S (S (S (S (S (S T)))))) (S (S (S (S (S (S (S T))))))) (S (S (S (S (S (S (S (S T))))))))).
    { intros c Hc. unfold locals9. apply apart_not_elem. cbn [apart_from]. split_and?; solve [lia | exact I]. }
    eapply wp_mono; [apply (finish_inverse_spec _ _ _ _ (S (S (S (S T)))) _ _ _ _ X N HND h2 a n HT2); [|done|lia|]|].
    + eapply holds_only; [exact O2|by apply Hout|done].
    + rewrite F2, F1, F0 by (by apply Hout || lia). done.
    + intros ? h3 (T3 & G3 & HR & F3). split; [done|]. constructor.
      * done.
      * change (good (leave h h3)). apply good_leave; [done|fold T; lia].
      * exact HR.
      * intros c Hc Hne. change (mem (leave _ _) c) with (mem h3 c). rewrite F3, F2, F1, F0 by (by apply Hout || lia). done.
Qed.

End Memory.
