(* ===== verification/MpiText.v ===== *)
(** * MpiText: multiprecision integers as bytes and as text

    The import and export functions: unsigned bytes of both orders, strings of
    radix 2 to 16 and lines of a file. A limb in memory is its eight bytes, the
    lowest first. Buffers are lists; a write behind their end is [bad]. *)
From S2P Require Import Prelude.
From S2P Require Import CString.
From S2P Require Import Limbs.
From S2P Require Import Mpi.
From S2P Require Import MpiBits.
From S2P Require Import MpiArith.
From S2P Require Import MpiDiv.
From Stdlib Require Import Ascii.

Open Scope C.

Definition CHARS_TO_LIMBS (i : nat) : nat := (i / 8 + (if i mod 8 =? 0 then 0 else 1))%nat.

(** [GET_BYTE( X, i )] *)
Definition GET_BYTE (X : mbedtls_mpi) (i : nat) : Z :=
  Z.land (Z.shiftr (mpi_p X !!! (i / 8)%nat) (Z.of_nat (8 * (i mod 8)))) 0xff.

(** ** Byte order *)

(** The eight bytes of a limb in memory *)
Definition limb_bytes (x : Z) : list Z := (fun i => Z.land (Z.shiftr x (8 * Z.of_nat i)) 0xff) <$> seq 0 8.

(** Memory read as limbs *)
Fixpoint load_limbs (n : nat) (bytes : list Z) : list Z :=
  match n with
  | O => []
  | S n => foldr (fun b x => b + 256 * x) 0 (take 8 bytes) :: load_limbs n (drop 8 bytes)
  end.

(** [for( i = 0, x_ptr = &x; i < ciL; i++, x_ptr++ )]; the compiler's byte swap,
    where it has one, does the same. *)
Definition mpi_uint_bigendian_to_host_c (x : Z) : Z :=
  foldl (fun tmp b => Z.lor (u64 (Z.shiftl tmp 8)) b) 0 (limb_bytes x).

Definition mpi_uint_bigendian_to_host : Z -> Z := mpi_uint_bigendian_to_host_c.

(** The two pointers move towards each other. *)
Fixpoint swap_limbs (fuel : nat) (left right : Z) (p : list Z) : option (list Z) :=
  match fuel with
  | O => None
  | S fuel =>
      if left <=? right then
        match p !! Z.to_nat left, p !! Z.to_nat right with
        | Some l, Some r =>
            let tmp := mpi_uint_bigendian_to_host l in
            let p := <[Z.to_nat left := mpi_uint_bigendian_to_host r]> p in
            let p := <[Z.to_nat right := tmp]> p in
            swap_limbs fuel (left + 1) (right - 1) p
        | _, _ => None
        end
      else Some p
  end.

Definition mpi_bigendian_to_host (p : list Z) (limbs : nat) : option (list Z) :=
  if (limbs =? 0)%nat then Some p else swap_limbs (limbs + 1) 0 (Z.of_nat limbs - 1) p.

Section Memory.
Context `{Callocs}.

(** Exactly [limbs] limbs, all zero (one limb for none) *)
Definition exact_limbs (X : addr) (limbs : nat) : mpi unit :=
  let* x := load X in
  (if (mpi_n x =? limbs)%nat then ret tt else mbedtls_mpi_free X ;* mbedtls_mpi_grow X limbs) ;*
  mbedtls_mpi_lset X 0.

(** [for( i = 0; i < buflen; i++ )] *)
Fixpoint or_bytes (X : addr) (i : nat) (buf : list Z) : mpi unit :=
  match buf with
  | [] => ret tt
  | b :: buf =>
      let* l := get_limb X (i / 8) in
      set_limb X (i / 8) (Z.lor l (u64 (Z.shiftl b (Z.of_nat (8 * (i mod 8)))))) ;*
      or_bytes X (S i) buf
  end.

Definition mbedtls_mpi_read_binary_le (X : addr) (buf : list Z) : mpi unit :=
  exact_limbs X (CHARS_TO_LIMBS (length buf)) ;* or_bytes X 0 buf.

(** The bytes at the end of the limbs' memory, and the limbs turned round *)
Definition fill_bytes (X : addr) (limbs : nat) (buf : list Z) : mpi unit :=
  let overhead := (limbs * 8 - length buf)%nat in
  let* x := load X in
  let raw := load_limbs limbs (replicate overhead 0 ++ buf) in
  let* p := valid (mpi_bigendian_to_host (raw ++ drop limbs (mpi_p x)) limbs) in
  set_p X p.

Definition mbedtls_mpi_read_binary (X : addr) (buf : list Z) : mpi unit :=
  let limbs := CHARS_TO_LIMBS (length buf) in
  exact_limbs X limbs ;* fill_bytes X limbs buf.

End Memory.

(** A byte of [X] behind [i] that is not zero, of [k] *)
Fixpoint byte_left (k i : nat) (X : mbedtls_mpi) : bool :=
  match k with
  | O => false
  | S k => negb (GET_BYTE X i =? 0) || byte_left k (S i) X
  end.

(** [for( i = 0; i < bytes_to_copy; i++ )]; the byte [i] goes to [at i]. *)
Fixpoint copy_bytes (k i : nat) (X : mbedtls_mpi) (at_ : nat -> nat) (buf : list Z) : option (list Z) :=
  match k with
  | O => Some buf
  | S k => if (at_ i <? length buf)%nat then copy_bytes k (S i) X at_ (<[at_ i := GET_BYTE X i]> buf) else None
  end.

(** What the buffer holds afterwards, or a code; [None] leaves it *)
Definition mbedtls_mpi_write_binary_le (X : mbedtls_mpi) (buf : list Z) : option (Z + list Z) :=
  let stored_bytes := (mpi_n X * 8)%nat in
  let buflen := length buf in
  if (stored_bytes <? buflen)%nat then
    inr <$> ((fun buf => take stored_bytes buf ++ replicate (buflen - stored_bytes) 0) <$> copy_bytes stored_bytes 0 X (fun i => i) buf)
  else if byte_left (stored_bytes - buflen) buflen X then Some (inl MBEDTLS_ERR_MPI_BUFFER_TOO_SMALL)
  else inr <$> copy_bytes buflen 0 X (fun i => i) buf.

Definition mbedtls_mpi_write_binary (X : mbedtls_mpi) (buf : list Z) : option (Z + list Z) :=
  let stored_bytes := (mpi_n X * 8)%nat in
  let buflen := length buf in
  if (stored_bytes <? buflen)%nat then
    let p := (buflen - stored_bytes)%nat in
    inr <$> copy_bytes stored_bytes 0 X (fun i => p + (stored_bytes - i - 1))%nat (replicate p 0 ++ drop p buf)
  else if byte_left (stored_bytes - buflen) buflen X then Some (inl MBEDTLS_ERR_MPI_BUFFER_TOO_SMALL)
  else inr <$> copy_bytes buflen 0 X (fun i => buflen - i - 1)%nat buf.

(** ** Text *)

Definition mpi_get_digit (radix : Z) (c : ascii) : option Z :=
  let c := code c in
  let d := 255 in
  let d := if (0x30 <=? c) && (c <=? 0x39) then c - 0x30 else d in
  let d := if (0x41 <=? c) && (c <=? 0x46) then c - 0x37 else d in
  let d := if (0x61 <=? c) && (c <=? 0x66) then c - 0x57 else d in
  if radix <=? d then None else Some d.

Definition minus_sign : ascii := chr 45.

(** The characters of a digit: of [r < 0xA ? '0' + r : 'A' + ( r - 0xA )] *)
Definition digit_char (r : Z) : ascii := chr (Z.to_nat (if r <? 0xA then 48 + r else 65 + (r - 0xA))).

(** ["0123456789ABCDEF"[i]] *)
Definition hex_upper (i : Z) : ascii := nth (Z.to_nat i) (lit "0123456789ABCDEF") NUL.

Section Memory.
Context `{Callocs}.

(** The characters from the last one on; [j] digits were read. *)
Fixpoint read_hex (X : addr) (j : nat) (s : chars) : mpi unit :=
  match s with
  | [] => ret tt
  | c :: s =>
      if bool_decide (s = []) && bool_decide (c = minus_sign) then set_s X (-1)
      else
        match mpi_get_digit 16 c with
        | None => fail MBEDTLS_ERR_MPI_INVALID_CHARACTER
        | Some d =>
            let* l := get_limb X (j / 16) in
            set_limb X (j / 16) (Z.lor l (u64 (Z.shiftl d (Z.of_nat (4 * (j mod 16)))))) ;*
            read_hex X (S j) s
        end
  end.

Fixpoint read_radix (X T : addr) (radix : Z) (s : chars) : mpi unit :=
  match s with
  | [] => ret tt
  | c :: s =>
      match mpi_get_digit radix c with
      | None => fail MBEDTLS_ERR_MPI_INVALID_CHARACTER
      | Some d =>
          mbedtls_mpi_mul_int T X radix ;*
          let* x := load X in
          (if mpi_s x =? 1 then mbedtls_mpi_add_int X T d else mbedtls_mpi_sub_int X T d) ;*
          read_radix X T radix s
      end
  end.

Definition mbedtls_mpi_read_string (X : addr) (radix : Z) (s : chars) : mpi unit :=
  if (radix <? 2) || (16 <? radix) then fail MBEDTLS_ERR_MPI_BAD_INPUT_DATA
  else
    local (fun T =>
      let slen := length s in
      if radix =? 16 then
        if Z.shiftr (2 ^ 64 - 1) 2 <? Z.of_nat slen then fail MBEDTLS_ERR_MPI_BAD_INPUT_DATA
        else
          mbedtls_mpi_grow X (BITS_TO_LIMBS (4 * slen)) ;*
          mbedtls_mpi_lset X 0 ;*
          read_hex X 0 (rev s)
      else
        mbedtls_mpi_lset X 0 ;*
        match s with
        | c :: s' => if bool_decide (c = minus_sign) then set_s X (-1) ;* read_radix X T radix s' else read_radix X T radix s
        | [] => ret tt
        end).

(** [*p = c] *)
Definition put_char (buf : chars) (p : nat) (c : ascii) : mpi chars :=
  if (p <? length buf)%nat then ret (<[p := c]> buf) else bad.

(** A code of [mbedtls_mpi_mod_int] *)
Definition residue_of (x : mbedtls_mpi) (b : Z) : mpi Z :=
  let* r := valid (mbedtls_mpi_mod_int x b) in
  match r with inl r => ret r | inr e => fail e end.

(** [do { ... } while( mbedtls_mpi_cmp_int( X, 0 ) != 0 )]; the digits come to
    lie before [p_end]. *)
Fixpoint write_digits (fuel : nat) (X : addr) (radix : Z) (buf : chars) (p_end length_ buflen : nat) : mpi (chars * nat) :=
  match fuel with
  | O => bad
  | S fuel =>
      if (buflen <=? length_)%nat then fail MBEDTLS_ERR_MPI_BUFFER_TOO_SMALL
      else
        let* x := load X in
        let* r := residue_of x radix in
        mbedtls_mpi_div_int (Some X) None X radix ;*
        let p_end := (p_end - 1)%nat in
        let* buf := put_char buf p_end (digit_char r) in
        let length_ := S length_ in
        let* x := load X in
        if mbedtls_mpi_cmp_int x 0 =? 0 then ret (buf, length_) else write_digits fuel X radix buf p_end length_ buflen
  end.

(** The buffer and [*p] *)
Definition mpi_write_hlp (X : addr) (radix : Z) (buf : chars) (p buflen : nat) : mpi (chars * nat) :=
  let* (buf, length_) := write_digits (buflen + 1) X radix buf (p + buflen) 0 buflen in
  let p_end := (p + buflen - length_)%nat in
  ret (take p buf ++ take length_ (drop p_end buf) ++ drop (p + length_) buf, (p + length_)%nat).

(** The loops over the bytes of the limbs, the highest first; [i] is the byte's
    number and [k] says whether a digit was written. *)
Fixpoint write_hex (i : nat) (X : mbedtls_mpi) (k : bool) (buf : chars) (p : nat) : mpi (chars * nat) :=
  match i with
  | O => ret (buf, p)
  | S i =>
      let c := GET_BYTE X i in
      if (c =? 0) && negb k && negb (i =? 0)%nat then write_hex i X k buf p
      else
        let* buf := put_char buf p (hex_upper (c / 16)) in
        let* buf := put_char buf (p + 1) (hex_upper (c mod 16)) in
        write_hex i X true buf (p + 2)
  end.

(** The room [mbedtls_mpi_write_string] asks for *)
Definition string_room (X : mbedtls_mpi) (radix : Z) : nat :=
  let n := mbedtls_mpi_bitlen X in
  let n := if 4 <=? radix then Nat.div2 n else n in
  let n := if 16 <=? radix then Nat.div2 n else n in
  let n := (n + 1 + 1 + 1)%nat in
  (n + (if Nat.odd n then 1 else 0))%nat.

(** The buffer, [*olen] and the code; the buffer is all that [buflen] counts. *)
Definition mbedtls_mpi_write_string (X : addr) (radix : Z) (buf : chars) : mpi (chars * nat * Z) :=
  if (radix <? 2) || (16 <? radix) then fail MBEDTLS_ERR_MPI_BAD_INPUT_DATA
  else
    let* x := load X in
    let n := string_room x radix in
    let buflen := length buf in
    if (buflen <? n)%nat then ret (buf, n, MBEDTLS_ERR_MPI_BUFFER_TOO_SMALL)
    else
      local (fun T =>
        let* (buf, p, buflen) :=
          if mpi_s x =? -1 then let* buf := put_char buf 0 minus_sign in ret (buf, 1%nat, (buflen - 1)%nat)
          else ret (buf, 0%nat, buflen) in
        let* (buf, p) :=
          if radix =? 16 then write_hex (mpi_n x * 8) x false buf p
          else
            mbedtls_mpi_copy T X ;*
            let* t := load T in
            (if mpi_s t =? -1 then set_s T 1 else ret tt) ;*
            mpi_write_hlp T radix buf p buflen in
        let* buf := put_char buf p NUL in
        ret (buf, (p + 1)%nat, 0)).

(** ** Files *)

Definition MBEDTLS_ERR_MPI_FILE_IO_ERROR : Z := -0x0002.
Definition MBEDTLS_MPI_RW_BUFFER_SIZE : nat := Z.to_nat ((100 * (8 * 1024) + 332 - 1) / 332 + 10 + 6).

(** The last character dropped if it is [c] *)
Definition drop_last (c : ascii) (s : chars) : chars :=
  match rev s with x :: r => if bool_decide (x = c) then rev r else s | [] => s end.

(** [line] is what [fgets] read, if anything. *)
Definition mbedtls_mpi_read_file (X : addr) (radix : Z) (line : option chars) : mpi unit :=
  if (radix <? 2) || (16 <? radix) then fail MBEDTLS_ERR_MPI_BAD_INPUT_DATA
  else
    match line with
    | None => fail MBEDTLS_ERR_MPI_FILE_IO_ERROR
    | Some s =>
        if (length s =? MBEDTLS_MPI_RW_BUFFER_SIZE - 2)%nat then fail MBEDTLS_ERR_MPI_BUFFER_TOO_SMALL
        else
          let s := drop_last CR (drop_last LF s) in
          mbedtls_mpi_read_string X radix (rev (span (fun c => bool_decide (is_Some (mpi_get_digit radix c))) (rev s)).1)
    end.

(** What is written to the file, or a code *)
Definition mbedtls_mpi_write_file (p : chars) (X : addr) (radix : Z) : mpi chars :=
  if (radix <? 2) || (16 <? radix) then fail MBEDTLS_ERR_MPI_BAD_INPUT_DATA
  else
    let* (s, n, e) := mbedtls_mpi_write_string X radix (replicate (MBEDTLS_MPI_RW_BUFFER_SIZE - 2) NUL) in
    if e =? 0 then
      let* s := valid (text s) in
      ret (p ++ s ++ [CR; LF])
    else fail e.

End Memory.
