(* ===== verification/MpiBytes.v ===== *)
(** * MpiBytes: multiprecision integers and their bytes

    The number a string of bytes stands for in both orders, and the import and
    export functions as the conversions between the two. *)
From S2P Require Import Prelude.
From S2P Require Import CString.
From S2P Require Import Limbs.
From S2P Require Import Mpi.
From S2P Require Import MpiBits.
From S2P Require Import MpiFacts.
From S2P Require Import MpiBitsFacts.
From S2P Require Import MpiArith.
From S2P Require Import MpiText.

Open Scope C.

(** ** Numbers and bytes *)

Definition octets (b : list Z) : Prop := Forall (fits 8) b.

(** The number of bytes [b], the lowest first, and the [k] low bytes of a number *)
Definition le (b : list Z) : Z := foldr (fun b x => b + 256 * x) 0 b.
Definition le_bytes (k : nat) (z : Z) : list Z := (fun i : nat => z / 256 ^ Z.of_nat i mod 256) <$> seq 0 k.

(** The highest first *)
Definition be (b : list Z) : Z := le (rev b).
Definition be_bytes (k : nat) (z : Z) : list Z := rev (le_bytes k z).

Definition bpow (k : nat) : Z := 256 ^ Z.of_nat k.

Lemma bpow_0 : bpow 0 = 1. Proof. done. Qed.
Lemma bpow_S k : bpow (S k) = 256 * bpow k.
Proof. unfold bpow. rewrite Nat2Z.inj_succ, Z.pow_succ_r; lia. Qed.
Lemma bpow_pos k : 0 < bpow k.
Proof. unfold bpow. apply Z.pow_pos_nonneg; lia. Qed.
Lemma bpow_add i j : bpow (i + j) = bpow i * bpow j.
Proof. unfold bpow. rewrite Nat2Z.inj_add, Z.pow_add_r; lia. Qed.
Lemma bpow_mono i j : (i <= j)%nat -> bpow i <= bpow j.
Proof. intros. apply Z.pow_le_mono_r; lia. Qed.
Lemma bpow_bits k : bpow k = 2 ^ (8 * Z.of_nat k).
Proof. unfold bpow. rewrite Z.pow_mul_r; [done|lia..]. Qed.
Lemma pow_bpow k : pow k = bpow (8 * k).
Proof. rewrite pow_bits, bpow_bits. f_equal. lia. Qed.

Lemma le_nil : le [] = 0. Proof. done. Qed.
Lemma le_cons b l : le (b :: l) = b + 256 * le l. Proof. done. Qed.

Lemma le_app a b : le (a ++ b) = le a + bpow (length a) * le b.
Proof. induction a as [|x a IH]; cbn [app length]; [rewrite bpow_0, le_nil; lia|]. rewrite !le_cons, IH, bpow_S. lia. Qed.

Lemma le_bound b : octets b -> 0 <= le b < bpow (length b).
Proof.
  induction b as [|x b IH]; intros Hb; cbn [length]; [by rewrite bpow_0|].
  apply Forall_cons in Hb as [[H0 H1] Hb]. specialize (IH Hb). rewrite le_cons, bpow_S. change (2 ^ 8) with 256 in H1. lia.
Qed.

Lemma le_zeros k : le (replicate k 0) = 0.
Proof. induction k as [|k IH]; [done|]. cbn [replicate]. rewrite le_cons. lia. Qed.

Lemma length_le_bytes k z : length (le_bytes k z) = k.
Proof. unfold le_bytes. by rewrite length_fmap, length_seq. Qed.

Lemma le_bytes_lookup k z i : (i < k)%nat -> le_bytes k z !! i = Some (z / bpow i mod 256).
Proof. intros Hi. unfold le_bytes. by rewrite list_lookup_fmap, lookup_seq_lt. Qed.

Lemma octets_le_bytes k z : octets (le_bytes k z).
Proof.
  apply Forall_lookup. intros i x Hx. pose proof (lookup_lt_Some _ _ _ Hx) as Hi. rewrite length_le_bytes in Hi.
  rewrite le_bytes_lookup in Hx by done. injection Hx as <-. apply Z.mod_pos_bound. done.
Qed.

Lemma le_bytes_S k z : le_bytes (S k) z = z mod 256 :: le_bytes k (z / 256).
Proof.
  unfold le_bytes. cbn [seq fmap list_fmap]. change (256 ^ Z.of_nat 0) with 1. rewrite Z.div_1_r. f_equal.
  rewrite <- fmap_S_seq, <- list_fmap_compose. apply list_fmap_ext. intros i x _. cbn.
  change (256 ^ Z.of_nat (S x)) with (bpow (S x)). rewrite bpow_S. rewrite <- Z.div_div; [done|done|apply bpow_pos].
Qed.

Lemma le_of_bytes k : forall z, le (le_bytes k z) = z mod bpow k.
Proof.
  induction k as [|k IH]; intros z; [by rewrite bpow_0, Z.mod_1_r|]. rewrite le_bytes_S, le_cons, IH, bpow_S.
  pose proof (bpow_pos k). rewrite (Z.rem_mul_r z 256 (bpow k)); [done|done|lia].
Qed.

Lemma bytes_of_le b : octets b -> le_bytes (length b) (le b) = b.
Proof.
  induction b as [|x b IH]; intros Hb; [done|]. apply Forall_cons in Hb as [[H0 H1] Hb]. cbn [length].
  change (2 ^ 8) with 256 in H1. rewrite le_bytes_S, le_cons. replace (x + 256 * le b) with (x + le b * 256) by lia.
  rewrite Z.mod_add, Z.div_add, Z.mod_small, Z.div_small by lia. rewrite Z.add_0_l. by rewrite IH.
Qed.

Lemma be_of_bytes k z : be (be_bytes k z) = z mod bpow k.
Proof. unfold be, be_bytes. by rewrite rev_involutive, le_of_bytes. Qed.

Lemma bytes_of_be b : octets b -> be_bytes (length b) (be b) = b.
Proof.
  intros Hb. unfold be, be_bytes. rewrite <- length_rev, bytes_of_le by by apply Forall_rev. apply rev_involutive.
Qed.

Lemma length_be_bytes k z : length (be_bytes k z) = k.
Proof. unfold be_bytes. by rewrite length_rev, length_le_bytes. Qed.

Lemma octets_be_bytes k z : octets (be_bytes k z).
Proof. apply Forall_rev, octets_le_bytes. Qed.

Lemma be_bound b : octets b -> 0 <= be b < bpow (length b).
Proof. intros Hb. unfold be. rewrite <- length_rev. apply le_bound. by apply Forall_rev. Qed.

(** ** The bytes of the limbs *)

Lemma land_255 z : Z.land z 0xff = z mod 256.
Proof. change 0xff with (Z.ones 8). by rewrite Z.land_ones. Qed.

(** A byte of the number is a byte of one of its limbs. *)
Lemma get_byte_spec X i : wf X -> (i < mpi_n X * 8)%nat -> GET_BYTE X i = mag X / bpow i mod 256.
Proof.
  intros [Hl _] Hi. unfold GET_BYTE, mag, mpi_n in *. rewrite land_255, Z.shiftr_div_pow2 by lia.
  rewrite val_digit by (done || apply Nat.Div0.div_lt_upper_bound; lia). unfold base. rewrite pow_bits, bpow_bits.
  set (v := val (mpi_p X)). set (q := (i / 8)%nat) in *. assert (Ei : i = (8 * q + i mod 8)%nat) by (apply Nat.div_mod_eq).
  pose proof (Nat.mod_upper_bound i 8 ltac:(lia)) as Hr. set (r := (i mod 8)%nat) in *.
  change 256 with (2 ^ 8). bits_by j. rewrite !Z.testbit_mod_pow2 by lia. destruct (Z.ltb_spec j 8); [cbn [andb]|done].
  rewrite !Z.div_pow2_bits by lia. rewrite Z.testbit_mod_pow2, Z.div_pow2_bits by lia.
  rewrite (proj2 (Z.ltb_lt _ _)) by lia. cbn [andb]. f_equal. lia.
Qed.

(** ** Export *)

Lemma copy_bytes_spec k X f : forall i buf, (forall j, (i <= j < i + k)%nat -> (f j < length buf)%nat) ->
  (forall j j', (i <= j < i + k)%nat -> (i <= j' < i + k)%nat -> f j = f j' -> j = j') ->
  exists buf', copy_bytes k i X f buf = Some buf' /\ length buf' = length buf /\
    (forall j, (i <= j < i + k)%nat -> buf' !! f j = Some (GET_BYTE X j)) /\
    (forall m, (forall j, (i <= j < i + k)%nat -> f j <> m) -> buf' !! m = buf !! m).
Proof.
  induction k as [|k IH]; intros i buf Hf Hinj; cbn [copy_bytes]; [exists buf; split_and!; done || lia|].
  rewrite (proj2 (Nat.ltb_lt _ _)) by (apply Hf; lia).
  destruct (IH (S i) (<[f i := GET_BYTE X i]> buf)) as (buf' & -> & Hl & Hj & Ho).
  - intros j Hj. rewrite length_insert. apply Hf. lia.
  - intros j j' Hj Hj'. apply Hinj; lia.
  - exists buf'. split; [done|]. rewrite length_insert in Hl. split; [done|]. split.
    + intros j Hj'. destruct (decide (j = i)) as [->|Hne]; [|apply Hj; lia].
      rewrite Ho; [apply list_lookup_insert_eq, Hf; lia|]. intros j Hji E. apply Hinj in E; lia.
    + intros m Hm. rewrite Ho by (intros j Hj2; apply Hm; lia). apply list_lookup_insert_ne, Hm. lia.
Qed.

Lemma byte_left_spec k : forall i X, byte_left k i X = false <-> forall j, (i <= j < i + k)%nat -> GET_BYTE X j = 0.
Proof.
  induction k as [|k IH]; intros i X; cbn [byte_left]; [split; [intros _ j|done]; lia|].
  rewrite orb_false_iff, IH, negb_false_iff, Z.eqb_eq. split.
  - intros [H0 Hr] j Hj. destruct (decide (j = i)) as [->|]; [done|apply Hr; lia].
  - intros Hr. split; [apply Hr; lia|intros j Hj; apply Hr; lia].
Qed.

(** The bytes that do not fit are zero exactly when the number fits. *)
Lemma bytes_fit X k : wf X -> (k <= mpi_n X * 8)%nat -> byte_left (mpi_n X * 8 - k) k X = negb (mag X <? bpow k).
Proof.
  intros Hw Hk. pose proof (mag_nonneg X Hw). pose proof (mag_bound X Hw) as Hb. rewrite pow_bpow in Hb.
  destruct (Z.ltb_spec (mag X) (bpow k)) as [Hlt|Hge]; cbn [negb].
  - apply byte_left_spec. intros j Hj. rewrite get_byte_spec by (done || lia). pose proof (bpow_mono k j ltac:(lia)).
    by rewrite Z.div_small by lia.
  - apply not_false_iff_true. rewrite byte_left_spec. intros Hz.
    enough (mag X / bpow k = 0) as E by (pose proof (bpow_pos k); apply Z.div_small_iff in E; lia).
    set (m := (mpi_n X * 8 - k)%nat) in *. rewrite <- (Z.mod_small (mag X / bpow k) (bpow m)).
    + rewrite <- le_of_bytes. replace (le_bytes m (mag X / bpow k)) with (replicate m 0); [apply le_zeros|].
      apply list_eq_same_length with m; [apply length_le_bytes|apply length_replicate|].
      intros i x y Hi Hx Hy. rewrite le_bytes_lookup in Hy by done. apply lookup_replicate in Hx as [-> _]. injection Hy as <-.
      rewrite Z.div_div, <- bpow_add by (pose proof (bpow_pos k); pose proof (bpow_pos i); lia).
      symmetry. rewrite <- get_byte_spec by (done || lia). apply Hz. lia.
    + pose proof (bpow_pos k). split; [by apply Z.div_pos|]. apply Z.div_lt_upper_bound; [done|]. rewrite <- bpow_add.
      replace (k + m)%nat with (8 * mpi_n X)%nat by lia. done.
Qed.

Lemma list_of_lookup (b c : list Z) : length b = length c -> (forall i, (i < length c)%nat -> b !! i = c !! i) -> b = c.
Proof.
  intros Hl He. apply list_eq. intros i. destruct (decide (i < length c)%nat); [by apply He|].
  by rewrite !lookup_ge_None_2 by lia.
Qed.

Lemma be_bytes_lookup k z i : (i < k)%nat -> be_bytes k z !! i = Some (z / bpow (k - 1 - i) mod 256).
Proof.
  intros Hi. unfold be_bytes. rewrite rev_alt. change (rev_append (le_bytes k z) []) with (reverse (le_bytes k z)). rewrite reverse_lookup by by rewrite length_le_bytes.
  rewrite length_le_bytes, le_bytes_lookup by lia. replace (k - S i)%nat with (k - 1 - i)%nat by lia. done.
Qed.

(** The whole buffer gets the number, or nothing is written. *)
Theorem write_binary_spec X buf : wf X ->
  mbedtls_mpi_write_binary X buf = Some (if mag X <? bpow (length buf) then inr (be_bytes (length buf) (mag X))
                                         else inl MBEDTLS_ERR_MPI_BUFFER_TOO_SMALL).
Proof.
  intros Hw. unfold mbedtls_mpi_write_binary. set (s := (mpi_n X * 8)%nat). set (l := length buf).
  pose proof (mag_nonneg X Hw). pose proof (mag_bound X Hw) as Hb. rewrite pow_bpow in Hb.
  replace (8 * mpi_n X)%nat with s in Hb by (unfold s; lia).
  destruct (Nat.ltb_spec s l) as [Hlt|Hge].
  - pose proof (bpow_mono s l ltac:(lia)). rewrite (proj2 (Z.ltb_lt _ _)) by lia.
    set (b0 := replicate (l - s) 0 ++ drop (l - s) buf).
    assert (Hl0 : length b0 = l) by (unfold b0; rewrite length_app, length_replicate, length_drop; fold l; lia).
    destruct (copy_bytes_spec s X (fun i => l - s + (s - i - 1))%nat 0 b0) as (b & -> & Hl & Hj & Ho); [intros j Hj; lia|intros; lia|].
    cbn [fmap option_fmap option_map]. do 2 f_equal. apply list_of_lookup; [rewrite length_be_bytes; lia|].
    rewrite length_be_bytes. intros i Hi. rewrite be_bytes_lookup by done. destruct (decide (i < l - s)%nat) as [Hz|Hn].
    + rewrite Ho by lia. unfold b0. rewrite lookup_app_l, lookup_replicate_2 by (rewrite ?length_replicate; lia).
      pose proof (bpow_mono s (l - 1 - i) ltac:(lia)). by rewrite Z.div_small by lia.
    + specialize (Hj (l - 1 - i)%nat ltac:(lia)). replace (l - s + (s - (l - 1 - i) - 1))%nat with i in Hj by lia.
      by rewrite Hj, get_byte_spec by (done || lia).
  - unfold s at 1. rewrite (bytes_fit X l Hw Hge). destruct (mag X <? bpow l); cbn [negb]; [|done].
    destruct (copy_bytes_spec l X (fun i => l - i - 1)%nat 0 buf) as (b & -> & Hl & Hj & Ho); [intros j Hj; fold l; lia|intros; lia|].
    cbn [fmap option_fmap option_map]. do 2 f_equal. apply list_of_lookup; [rewrite length_be_bytes; fold l in Hl; lia|].
    rewrite length_be_bytes. intros i Hi. rewrite be_bytes_lookup by done. specialize (Hj (l - 1 - i)%nat ltac:(lia)).
    replace (l - (l - 1 - i) - 1)%nat with i in Hj by lia. by rewrite Hj, get_byte_spec by (done || lia).
Qed.

Theorem write_binary_le_spec X buf : wf X ->
  mbedtls_mpi_write_binary_le X buf = Some (if mag X <? bpow (length buf) then inr (le_bytes (length buf) (mag X))
                                            else inl MBEDTLS_ERR_MPI_BUFFER_TOO_SMALL).
Proof.
  intros Hw. unfold mbedtls_mpi_write_binary_le. set (s := (mpi_n X * 8)%nat). set (l := length buf).
  pose proof (mag_nonneg X Hw). pose proof (mag_bound X Hw) as Hb. rewrite pow_bpow in Hb.
  replace (8 * mpi_n X)%nat with s in Hb by (unfold s; lia).
  destruct (Nat.ltb_spec s l) as [Hlt|Hge].
  - pose proof (bpow_mono s l ltac:(lia)). rewrite (proj2 (Z.ltb_lt _ _)) by lia.
    destruct (copy_bytes_spec s X (fun i => i) 0 buf) as (b & -> & Hl & Hj & Ho); [intros j Hj; fold l; lia|done|].
    fold l in Hl. cbn [fmap option_fmap option_map]. do 2 f_equal.
    apply list_of_lookup; rewrite length_app, length_take, length_replicate, length_le_bytes || rewrite length_le_bytes; [lia|].
    intros i Hi. rewrite le_bytes_lookup by done. destruct (decide (i < s)%nat) as [Hz|Hn].
    + rewrite lookup_app_l, lookup_take_lt, Hj, get_byte_spec by (rewrite ?length_take; lia || done). done.
    + rewrite lookup_app_r by (rewrite length_take; lia). rewrite lookup_replicate_2 by (rewrite length_take; lia).
      pose proof (bpow_mono s i ltac:(lia)). by rewrite Z.div_small by lia.
  - unfold s at 1. rewrite (bytes_fit X l Hw Hge). destruct (mag X <? bpow l); cbn [negb]; [|done].
    destruct (copy_bytes_spec l X (fun i => i) 0 buf) as (b & -> & Hl & Hj & Ho); [intros j Hj; fold l; lia|done|].
    cbn [fmap option_fmap option_map]. do 2 f_equal. apply list_of_lookup; [rewrite length_le_bytes; fold l in Hl; lia|].
    rewrite length_le_bytes. intros i Hi. rewrite le_bytes_lookup by done. by rewrite Hj, get_byte_spec by lia || done.
Qed.

(** ** Import *)

Lemma be_cons b l : be (b :: l) = bpow (length l) * b + be l.
Proof. unfold be. cbn [rev]. rewrite le_app, length_rev, le_cons, le_nil. lia. Qed.

Lemma be_app a b : be (a ++ b) = bpow (length b) * be a + be b.
Proof. unfold be. rewrite rev_app_distr, le_app, length_rev. lia. Qed.

Lemma limb_bytes_spec x : limb_bytes x = le_bytes 8 x.
Proof.
  unfold limb_bytes, le_bytes. apply list_fmap_ext. intros i n _. rewrite land_255, Z.shiftr_div_pow2 by lia.
  change (256 ^ Z.of_nat n) with (bpow n). by rewrite bpow_bits.
Qed.

Lemma shifted_bytes b : forall acc, octets b -> 0 <= acc -> acc < bpow (8 - length b) -> (length b <= 8)%nat ->
  foldl (fun tmp b => Z.lor (u64 (Z.shiftl tmp 8)) b) acc b = acc * bpow (length b) + be b.
Proof.
  induction b as [|x b IH]; intros acc Hb Ha Hlt Hl; [cbn; rewrite bpow_0; lia|].
  apply Forall_cons in Hb as [Hx Hb]. cbn [foldl length] in *. pose proof Hx as [H0 H1]. change (2 ^ 8) with 256 in H1.
  assert (E : Z.lor (u64 (Z.shiftl acc 8)) x = acc * 256 + x).
  { rewrite wrap_id; [by rewrite lor_shift|]. rewrite Z.shiftl_mul_pow2 by lia. pose proof (bpow_mono (8 - S (length b)) 7 ltac:(lia)).
    change (bpow 7) with (2 ^ 56) in *. unfold fits. lia. }
  rewrite E, IH; [rewrite be_cons, bpow_S; lia|done|lia| |lia].
  replace (8 - length b)%nat with (S (8 - S (length b))) by lia. rewrite bpow_S. lia.
Qed.

(** The bytes of a limb turned round *)
Lemma bigendian_spec x : mpi_uint_bigendian_to_host x = be (le_bytes 8 x).
Proof.
  unfold mpi_uint_bigendian_to_host, mpi_uint_bigendian_to_host_c. rewrite limb_bytes_spec, shifted_bytes; try lia.
  - apply octets_le_bytes.
  - rewrite length_le_bytes. done.
  - by rewrite length_le_bytes.
Qed.

Lemma bigendian_fits x : fits 64 (mpi_uint_bigendian_to_host x).
Proof. rewrite bigendian_spec. pose proof (be_bound _ (octets_le_bytes 8 x)) as Hb. rewrite length_le_bytes in Hb. exact Hb. Qed.

Lemma bigendian_le b : octets b -> length b = 8%nat -> mpi_uint_bigendian_to_host (le b) = be b.
Proof. intros Hb Hl. rewrite bigendian_spec, <- Hl, bytes_of_le; done. Qed.

Definition turned (p : list Z) : list Z := rev (mpi_uint_bigendian_to_host <$> p).

Lemma turned_lookup p j : (j < length p)%nat -> turned p !! j = mpi_uint_bigendian_to_host <$> p !! (length p - 1 - j)%nat.
Proof.
  intros Hj. unfold turned. rewrite rev_alt. change (rev_append ?l []) with (reverse l).
  rewrite reverse_lookup by by rewrite length_fmap. rewrite length_fmap, list_lookup_fmap. do 2 f_equal. lia.
Qed.

(** The loop with both pointers [i] limbs from their ends *)
Lemma swap_limbs_spec p0 fuel : forall i p, length p = length p0 -> (2 * i <= length p0 + 1)%nat -> (length p0 < fuel + i)%nat ->
  (forall j, (j < length p0)%nat -> p !! j = if (j <? i)%nat || (length p0 <=? j + i)%nat then turned p0 !! j else p0 !! j) ->
  swap_limbs fuel (Z.of_nat i) (Z.of_nat (length p0) - 1 - Z.of_nat i) p = Some (turned p0).
Proof.
  set (n := length p0). induction fuel as [|fuel IH]; intros i p Hl Hi Hf Hp; [lia|]. cbn [swap_limbs].
  destruct (Z.leb_spec (Z.of_nat i) (Z.of_nat n - 1 - Z.of_nat i)) as [Hle|Hgt].
  - rewrite Nat2Z.id. replace (Z.to_nat (Z.of_nat n - 1 - Z.of_nat i)) with (n - 1 - i)%nat by lia.
    destruct (lookup_lt_is_Some_2 p0 i ltac:(lia)) as [l El]. destruct (lookup_lt_is_Some_2 p0 (n - 1 - i)%nat ltac:(lia)) as [r Er].
    rewrite (Hp i), (Hp (n - 1 - i)%nat) by lia. rewrite El, Er.
    assert (Hc : forall j, (i <= j)%nat -> (j + i < n)%nat -> (j <? i)%nat || (n <=? j + i)%nat = false).
    { intros j H1 H2. apply orb_false_iff. split; [apply Nat.ltb_ge|apply Nat.leb_gt]; lia. }
    rewrite !Hc by lia.
    replace (Z.of_nat i + 1) with (Z.of_nat (S i)) by lia.
    replace (Z.of_nat n - 1 - Z.of_nat i - 1) with (Z.of_nat n - 1 - Z.of_nat (S i)) by lia.
    apply IH; [by rewrite !length_insert|lia|lia|]. intros j Hj.
    destruct (decide (j = n - 1 - i)%nat) as [->|H1].
    + rewrite list_lookup_insert_eq by (rewrite length_insert; lia).
      replace (_ || _) with true by (symmetry; apply orb_true_iff; right; apply Nat.leb_le; lia).
      rewrite turned_lookup by done. replace (length p0 - 1 - (n - 1 - i))%nat with i by lia. by rewrite El.
    + rewrite list_lookup_insert_ne by done. destruct (decide (j = i)) as [->|H2].
      * rewrite list_lookup_insert_eq by lia.
        replace (_ || _) with true by (symmetry; apply orb_true_iff; left; apply Nat.ltb_lt; lia).
        rewrite turned_lookup by done. fold n. by rewrite Er.
      * rewrite list_lookup_insert_ne by done. rewrite (Hp j Hj).
        replace (j <? S i)%nat with (j <? i)%nat by (apply eq_true_iff_eq; rewrite !Nat.ltb_lt; lia).
        replace (n <=? j + S i)%nat with (n <=? j + i)%nat by (apply eq_true_iff_eq; rewrite !Nat.leb_le; lia). done.
  - f_equal. apply list_of_lookup; [unfold turned; by rewrite length_rev, length_fmap|]. intros j Hj.
    unfold turned in Hj. rewrite length_rev, length_fmap in Hj. rewrite (Hp j Hj).
    replace (_ || _) with true; [done|]. symmetry. apply orb_true_iff. rewrite Nat.ltb_lt, Nat.leb_le. lia.
Qed.

Lemma bigendian_to_host_spec p : mpi_bigendian_to_host p (length p) = Some (turned p).
Proof.
  unfold mpi_bigendian_to_host. destruct (Nat.eqb_spec (length p) 0) as [E|E]; [by destruct p|].
  replace (Z.of_nat (length p) - 1) with (Z.of_nat (length p) - 1 - Z.of_nat 0) by lia.
  apply (swap_limbs_spec p _ 0); try lia. intros j Hj. rewrite (proj2 (Nat.leb_gt _ _)) by lia. done.
Qed.

Lemma load_limbs_spec n : forall b, octets b -> length b = (8 * n)%nat ->
  length (load_limbs n b) = n /\ limbs (turned (load_limbs n b)) /\ val (turned (load_limbs n b)) = be b.
Proof.
  induction n as [|n IH]; intros b Hb Hl; cbn [load_limbs].
  { destruct b; [|cbn in Hl; lia]. split; [done|]. split; [apply limbs_nil|done]. }
  destruct (IH (drop 8 b)) as (H1 & H2 & H3); [by apply Forall_drop|rewrite length_drop; lia|].
  fold (le (take 8 b)). unfold turned in *. cbn [fmap list_fmap rev length]. split; [lia|].
  rewrite bigendian_le; [|by apply Forall_take|rewrite length_take; lia].
  assert (Hl8 : length (take 8 b) = 8%nat) by (rewrite length_take; lia).
  split; [apply limbs_app; split; [done|apply limbs_cons; split; [|apply limbs_nil]]|].
  { pose proof (be_bound _ (Forall_take _ 8 b Hb)) as Hbd. rewrite Hl8 in Hbd. exact Hbd. }
  rewrite val_app, H3, length_rev, length_fmap, H1. cbn [val]. rewrite <- (take_drop 8 b) at 3.
  rewrite be_app, length_drop, Hl, pow_bpow. replace (8 * S n - 8)%nat with (8 * n)%nat by lia. lia.
Qed.

Lemma CHARS_TO_LIMBS_spec k : (k <= CHARS_TO_LIMBS k * 8 < k + 8)%nat.
Proof.
  unfold CHARS_TO_LIMBS. pose proof (Nat.div_mod_eq k 8). pose proof (Nat.mod_upper_bound k 8 ltac:(lia)).
  destruct (Nat.eqb_spec (k mod 8) 0); lia.
Qed.

Section Memory.
Context `{Callocs}.

Lemma lset_zero k : (0 < k)%nat -> lset_limbs k 0 = replicate k 0.
Proof. intros Hk. unfold lset_limbs. by destruct k. Qed.

Lemma exact_limbs_spec X k h : good h -> (X < top h)%nat -> (k <= MBEDTLS_MPI_MAX_LIMBS)%nat ->
  writes (exact_limbs X k) X h (fun x => x = Mpi 1 (replicate (Nat.max 1 k) 0)).
Proof.
  intros G HX Hk. unfold exact_limbs. apply wp_load.
  apply (writes_then _ _ X h (fun x => mpi_n x = k)).
  - destruct (Nat.eqb_spec (mpi_n (mem h X)) k); [by apply writes_ret|].
    eapply writes_then; [apply (sets_store X mbedtls_mpi_init (fun x => x = mbedtls_mpi_init) h G HX); [apply wf_init|cbn; lia|done]|].
    intros _ h1 [T1 G1 N1 F1]. eapply writes_mono; [apply grow_spec; [done|lia|done]|]. intros x ->. rewrite grown_n, N1. cbn. lia.
  - intros _ h1 [T1 G1 N1 F1]. eapply writes_mono; [apply lset_spec; [done|lia|done]|]. intros x ->. cbn beta in N1.
    by rewrite N1, lset_zero by lia.
Qed.

(** One byte more *)
Lemma or_byte v b i : 0 <= v < bpow i -> fits 8 b -> let l := v / pow (i / 8) in
  0 <= l /\ Z.lor l (u64 (Z.shiftl b (Z.of_nat (8 * (i mod 8))))) = l + b * 2 ^ Z.of_nat (8 * (i mod 8)) /\
  fits 64 (l + b * 2 ^ Z.of_nat (8 * (i mod 8))) /\ pow (i / 8) * (b * 2 ^ Z.of_nat (8 * (i mod 8))) = bpow i * b.
Proof.
  intros Hv Hb l. pose proof (Nat.div_mod_eq i 8) as Ei. pose proof (Nat.mod_upper_bound i 8 ltac:(lia)) as Hr.
  assert (Ep : bpow i = pow (i / 8) * 2 ^ Z.of_nat (8 * (i mod 8))).
  { rewrite pow_bits, bpow_bits, <- Z.pow_add_r by lia. f_equal. lia. }
  pose proof (pow_pos (i / 8)) as Hp. set (r := Z.of_nat (8 * (i mod 8))) in *. assert (Hr8 : 0 <= r <= 56) by lia.
  pose proof (Z.pow_pos_nonneg 2 r ltac:(lia) ltac:(lia)) as H2. pose proof (Z.pow_le_mono_r 2 r 56 ltac:(lia) ltac:(lia)) as H56.
  assert (Hl : 0 <= l < 2 ^ r) by (unfold l; split; [apply Z.div_pos; lia|apply Z.div_lt_upper_bound; lia]).
  destruct Hb as [Hb0 Hb1]. change (2 ^ 8) with 256 in Hb1. assert (Hfit : 0 <= l + b * 2 ^ r < 2 ^ 64) by (change (2 ^ 64) with (256 * 2 ^ 56); nia).
  split; [lia|]. split; [|split; [exact Hfit|rewrite Ep; lia]].
  rewrite wrap_id, Z.lor_comm, lor_shift by (lia || rewrite Z.shiftl_mul_pow2 by lia; unfold fits; lia). lia.
Qed.

Lemma or_bytes_spec X buf : forall i h, good h -> (X < top h)%nat -> octets buf -> mag (mem h X) < bpow i -> mpi_s (mem h X) = 1 ->
  (i + length buf <= mpi_n (mem h X) * 8)%nat ->
  writes (or_bytes X i buf) X h (fun x => mpi_s x = 1 /\ mpi_n x = mpi_n (mem h X) /\ mag x = mag (mem h X) + bpow i * le buf).
Proof.
  induction buf as [|b buf IH]; intros i h G HX Hb Hv Hs Hn; cbn [or_bytes length] in *.
  { apply writes_ret; [done|]. split; [done|]. split; [done|]. rewrite le_nil. lia. }
  apply Forall_cons in Hb as [Hb Hbuf]. destruct (G X HX) as [[Hl Hsg] HnX].
  assert (Hi : (i / 8 < mpi_n (mem h X))%nat) by (apply Nat.Div0.div_lt_upper_bound; lia).
  pose proof (val_nonneg _ Hl) as H0. apply wp_get_limb; [done|].
  assert (Hlim : mpi_p (mem h X) !!! (i / 8)%nat = mag (mem h X) / pow (i / 8)).
  { apply top_limb; [done|exact Hi|]. pose proof (Nat.div_mod_eq i 8). pose proof (Nat.mod_upper_bound i 8 ltac:(lia)).
    rewrite pow_bpow. pose proof (bpow_mono i (8 * S (i / 8)) ltac:(lia)). unfold mag in *. lia. }
  destruct (or_byte (mag (mem h X)) b i ltac:(unfold mag; split; [exact H0|exact Hv]) Hb) as (Hl0 & El & Hfit & Ep).
  rewrite Hlim, El. eapply writes_then; [apply set_limb_spec; [done..|exact Hfit]|].
  intros _ h1 [T1 G1 N1 F1]. cbn beta in N1.
  assert (Em : mag (mem h1 X) = mag (mem h X) + bpow i * b).
  { rewrite N1. unfold mag at 1. cbn [mpi_p]. rewrite val_insert by exact Hi. rewrite Hlim. unfold mag in *. lia. }
  assert (En : mpi_n (mem h1 X) = mpi_n (mem h X)) by (rewrite N1; unfold mpi_n; cbn [mpi_p]; by rewrite length_insert).
  destruct Hb as [Hb0 Hb1]. change (2 ^ 8) with 256 in Hb1. pose proof (bpow_pos i).
  eapply writes_mono; [apply IH; [done|lia|done|rewrite Em, bpow_S; nia|rewrite N1; exact Hs|lia]|].
  intros x (Hsx & Hnx & Hmx). split; [done|]. split; [lia|]. rewrite Hmx, Em, bpow_S, le_cons. lia.
Qed.

Lemma read_binary_le_spec X buf h : good h -> (X < top h)%nat -> octets buf -> (CHARS_TO_LIMBS (length buf) <= MBEDTLS_MPI_MAX_LIMBS)%nat ->
  writes (mbedtls_mpi_read_binary_le X buf) X h (fun x => value x = le buf /\ mpi_n x = Nat.max 1 (CHARS_TO_LIMBS (length buf))).
Proof.
  intros G HX Hb Hsz. unfold mbedtls_mpi_read_binary_le. eapply writes_then; [by apply exact_limbs_spec|].
  intros _ h1 [T1 G1 N1 F1]. cbn beta in N1.
  assert (E : mag (mem h1 X) = 0 /\ mpi_s (mem h1 X) = 1 /\ mpi_n (mem h1 X) = Nat.max 1 (CHARS_TO_LIMBS (length buf))).
  { rewrite N1. unfold mag, mpi_n. cbn [mpi_p mpi_s]. by rewrite val_zeros, length_replicate. }
  destruct E as (Em & Es & En). pose proof (CHARS_TO_LIMBS_spec (length buf)).
  eapply writes_mono; [apply or_bytes_spec; [done|lia|done|rewrite Em; apply bpow_pos|done|lia]|].
  intros x (Hs & Hn & Hm). split; [|lia]. unfold value. rewrite Hs, Hm, Em, bpow_0. lia.
Qed.

Lemma fill_bytes_spec X k buf h : good h -> (X < top h)%nat -> octets buf -> (length buf <= k * 8)%nat ->
  mem h X = Mpi 1 (replicate (Nat.max 1 k) 0) ->
  writes (fill_bytes X k buf) X h (fun x => mpi_s x = 1 /\ mag x = be buf /\ mpi_n x = Nat.max 1 k).
Proof.
  intros G HX Hb Hl E. unfold fill_bytes. apply wp_load. rewrite E. cbn [mpi_p].
  set (b0 := replicate (k * 8 - length buf) 0 ++ buf).
  assert (Ho : octets b0) by (apply Forall_app; split; [apply Forall_replicate; done|done]).
  destruct (load_limbs_spec k b0 Ho) as (L1 & L2 & L3); [unfold b0; rewrite length_app, length_replicate; lia|].
  assert (Eb : be b0 = be buf).
  { unfold b0. rewrite be_app. unfold be at 1. rewrite rev_alt. change (rev_append ?l []) with (reverse l).
    rewrite reverse_replicate, le_zeros. lia. }
  destruct (G X HX) as [_ HnX]. rewrite E in HnX. unfold mpi_n in HnX. cbn [mpi_p] in HnX. rewrite length_replicate in HnX.
  assert (Hp : exists p, mpi_bigendian_to_host (load_limbs k b0 ++ drop k (replicate (Nat.max 1 k) 0)) k = Some p /\
    limbs p /\ length p = Nat.max 1 k /\ val p = be buf).
  { destruct (Nat.eq_dec k 0) as [->|Hk].
    - cbn [load_limbs app drop]. exists [0]. split; [done|]. split; [by apply limbs_cons; split; [|apply limbs_nil]|].
      split; [done|]. rewrite <- Eb. destruct b0 as [|? ?] eqn:E0; [done|]. exfalso.
      assert (length b0 = 0%nat) by (unfold b0; rewrite length_app, length_replicate; lia). rewrite E0 in *. done.
    - rewrite drop_ge by (rewrite length_replicate; lia). rewrite app_nil_r. pose proof (bigendian_to_host_spec (load_limbs k b0)) as Eh. rewrite L1 in Eh. rewrite Eh.
      eexists. split; [done|]. split; [done|]. unfold turned at 1. rewrite length_rev, length_fmap. split; [lia|]. congruence. }
  destruct Hp as (p & -> & Hlp & Hnp & Hvp). eapply wp_valid; [done|].
  eapply writes_mono; [apply set_p_spec; [done|done|done|lia]|]. intros x ->. rewrite E. unfold mag, mpi_n. by cbn [mpi_s mpi_p].
Qed.

Lemma read_binary_spec X buf h : good h -> (X < top h)%nat -> octets buf -> (CHARS_TO_LIMBS (length buf) <= MBEDTLS_MPI_MAX_LIMBS)%nat ->
  writes (mbedtls_mpi_read_binary X buf) X h (fun x => value x = be buf /\ mpi_n x = Nat.max 1 (CHARS_TO_LIMBS (length buf))).
Proof.
  intros G HX Hb Hsz. unfold mbedtls_mpi_read_binary. eapply writes_then; [by apply exact_limbs_spec|].
  intros _ h1 [T1 G1 N1 F1]. pose proof (CHARS_TO_LIMBS_spec (length buf)).
  eapply writes_mono; [apply fill_bytes_spec; [done|lia|done|lia|exact N1]|]. intros x (Hs & Hm & Hn).
  split; [|done]. unfold value. rewrite Hs, Hm. lia.
Qed.

End Memory.
