(* ===== verification/MpiRead.v ===== *)
(** * MpiRead: multiprecision integers from text

    The value a string stands for, and [mbedtls_mpi_read_string] and
    [mbedtls_mpi_read_file] as its conversion. *)
From S2P Require Import Prelude.
From S2P Require Import CString.
From S2P Require Import Limbs.
From S2P Require Import Mpi.
From S2P Require Import MpiBits.
From S2P Require Import MpiFacts.
From S2P Require Import MpiBitsFacts.
From S2P Require Import MpiArith.
From S2P Require Import MpiText.
From S2P Require Import MpiBytes.
From Stdlib Require Import Ascii.

Open Scope C.

(** ** What a string stands for *)

Definition digits (radix : Z) (s : chars) : option (list Z) := mapM (mpi_get_digit radix) s.
Definition number (radix : Z) (ds : list Z) : Z := foldl (fun v d => v * radix + d) 0 ds.

(** The sign and the characters of the digits *)
Definition signed (s : chars) : Z * chars :=
  match s with
  | c :: s' => if bool_decide (c = minus_sign) then (-1, s') else (1, s)
  | [] => (1, [])
  end.

Definition string_value (radix : Z) (s : chars) : option Z :=
  (fun ds => (signed s).1 * number radix ds) <$> digits radix (signed s).2.

Lemma signed_snoc s c : s <> [] \/ c <> minus_sign -> signed (s ++ [c]) = ((signed s).1, (signed s).2 ++ [c]).
Proof.
  intros Hs. destruct s as [|x s]; cbn [app signed]; [|by destruct (bool_decide _)].
  rewrite bool_decide_eq_false_2; [done|]. by destruct Hs.
Qed.

Lemma get_digit_range radix c d : radix <= 16 -> mpi_get_digit radix c = Some d -> 0 <= d < radix.
Proof.
  unfold mpi_get_digit. cbv zeta. intros _. match goal with |- (if radix <=? ?e then _ else _) = _ -> _ => set (x := e) end.
  assert (Hx : 0 <= x).
  { unfold x. clear x. repeat match goal with |- context [if ?b then _ else _] =>
      let E := fresh in destruct b eqn:E; [rewrite andb_true_iff, !Z.leb_le in E|clear E] end; lia. }
  clearbody x. destruct (Z.leb_spec radix x); [done|]. intros [= <-]. lia.
Qed.

Lemma minus_no_digit radix : radix <= 16 -> mpi_get_digit radix minus_sign = None.
Proof.
  intros Hr. transitivity (if radix <=? 255 then None else Some 255); [reflexivity|]. by rewrite (proj2 (Z.leb_le _ _)) by lia.
Qed.

Lemma number_from radix ds : forall v, foldl (fun v d => v * radix + d) v ds = v * radix ^ Z.of_nat (length ds) + number radix ds.
Proof.
  unfold number. induction ds as [|d ds IH]; intros v; cbn [foldl length]; [lia|].
  rewrite IH, (IH (0 * radix + d)). rewrite Nat2Z.inj_succ, Z.pow_succ_r by lia. lia.
Qed.

Lemma number_cons radix d ds : number radix (d :: ds) = d * radix ^ Z.of_nat (length ds) + number radix ds.
Proof. unfold number at 1. cbn [foldl]. rewrite number_from. lia. Qed.

Lemma number_app radix a b : number radix (a ++ b) = number radix a * radix ^ Z.of_nat (length b) + number radix b.
Proof. unfold number at 1. rewrite foldl_app. by rewrite number_from. Qed.

Lemma digits_cons radix c s : digits radix (c :: s) =
  match mpi_get_digit radix c, digits radix s with Some d, Some ds => Some (d :: ds) | _, _ => None end.
Proof. unfold digits. cbn [mapM]. destruct (mpi_get_digit radix c); [|done]. cbn. by destruct (mapM _ s). Qed.

Lemma digits_app radix a b : digits radix (a ++ b) =
  match digits radix a, digits radix b with Some x, Some y => Some (x ++ y) | _, _ => None end.
Proof.
  induction a as [|c a IH]; cbn [app]; [by destruct (digits radix b)|]. rewrite !digits_cons, IH.
  destruct (mpi_get_digit radix c), (digits radix a), (digits radix b); done.
Qed.

Lemma length_digits radix s ds : digits radix s = Some ds -> length ds = length s.
Proof.
  revert ds. induction s as [|c s IH]; intros ds; [by intros [= <-]|]. rewrite digits_cons.
  destruct (mpi_get_digit radix c), (digits radix s); try done. intros [= <-]. cbn. f_equal. by apply IH.
Qed.

Section Memory.
Context `{Callocs}.

Lemma chk_ret_wp {A} (m : mpi A) h Q : wp (chk m ret) h Q -> wp m h Q.
Proof. unfold wp, chk, ret. by destruct (m h). Qed.

(** ** One digit more *)

Lemma add_positive X A b h : good h -> (X < top h)%nat -> (A < top h)%nat -> 0 <= b < base -> mpi_s (mem h A) = 1 ->
  mag (mem h A) + b < pow MBEDTLS_MPI_MAX_LIMBS ->
  writes (mbedtls_mpi_add_int X A b) X h (fun x => mpi_s x = 1 /\ mag x = mag (mem h A) + b).
Proof.
  intros G HX HA Hb Hs Hm. apply with_constant_spec; [done|apply of_int_wf|unfold MBEDTLS_MPI_MAX_LIMBS; cbn; lia|done|].
  intros h1 G1 T1 N1 F1. unfold mbedtls_mpi_add_mpi. apply wp_load, wp_load. rewrite N1, F1, Hs by done.
  assert (E : mpi_s (of_int b) = 1 /\ mag (of_int b) = b).
  { split; [unfold of_int; by rewrite (proj2 (Z.ltb_ge b 0)) by lia|rewrite of_int_mag; lia]. }
  destruct E as [Es Em]. rewrite Es. cbn [Z.mul Z.ltb Z.compare].
  eapply writes_mono; [eapply (set_sign_spec X h1 _ 1 (mag (mem h A) + b)); [done|lia|by left|]|].
  - eapply writes_mono; [apply add_abs_spec; try done; try lia; rewrite N1, F1, Em by done; done|].
    intros x. rewrite N1, F1, Em by done. intros H'. exact H'.
  - intros x (Ev & Es' & _). split; [done|]. unfold value in Ev. rewrite Es' in Ev. lia.
Qed.

Lemma sub_negative X A b h : good h -> (X < top h)%nat -> (A < top h)%nat -> 0 <= b < base -> mpi_s (mem h A) = -1 ->
  mag (mem h A) + b < pow MBEDTLS_MPI_MAX_LIMBS ->
  writes (mbedtls_mpi_sub_int X A b) X h (fun x => mpi_s x = -1 /\ mag x = mag (mem h A) + b).
Proof.
  intros G HX HA Hb Hs Hm. apply with_constant_spec; [done|apply of_int_wf|unfold MBEDTLS_MPI_MAX_LIMBS; cbn; lia|done|].
  intros h1 G1 T1 N1 F1. unfold mbedtls_mpi_sub_mpi. apply wp_load, wp_load. rewrite N1, F1, Hs by done.
  assert (E : mpi_s (of_int b) = 1 /\ mag (of_int b) = b).
  { split; [unfold of_int; by rewrite (proj2 (Z.ltb_ge b 0)) by lia|rewrite of_int_mag; lia]. }
  destruct E as [Es Em]. rewrite Es. cbn [Z.mul Z.ltb Z.compare Z.opp].
  eapply writes_mono; [eapply (set_sign_spec X h1 _ (-1) (mag (mem h A) + b)); [done|lia|by right|]|].
  - eapply writes_mono; [apply add_abs_spec; try done; try lia; rewrite N1, F1, Em by done; done|].
    intros x. rewrite N1, F1, Em by done. intros H'. exact H'.
  - intros x (Ev & Es' & _). split; [done|]. unfold value in Ev. rewrite Es' in Ev. lia.
Qed.

Lemma read_radix_spec X T radix s : X <> T -> 2 <= radix <= 16 -> forall h m, good h -> (X < top h)%nat -> (T < top h)%nat ->
  mag (mem h X) = m -> (m + 1) * 16 ^ Z.of_nat (length s) <= pow (MBEDTLS_MPI_MAX_LIMBS - 1) ->
  yields (read_radix X T radix s) h (fun e => e = MBEDTLS_ERR_MPI_INVALID_CHARACTER /\ digits radix s = None) (fun _ h' =>
    top h' = top h /\ good h' /\ (forall a, (a < top h)%nat -> a <> X -> a <> T -> mem h' a = mem h a) /\
    exists ds, digits radix s = Some ds /\ mpi_s (mem h' X) = mpi_s (mem h X) /\
      mag (mem h' X) = m * radix ^ Z.of_nat (length s) + number radix ds).
Proof.
  intros Hne Hr. induction s as [|c s IH]; intros h m G HX HT Em Hsz; cbn [read_radix].
  { apply yields_wp, wp_ret. split; [done|]. split; [done|]. split; [done|]. exists []. cbn. unfold number. cbn. split_and!; [done..|lia]. }
  rewrite digits_cons. destruct (mpi_get_digit radix c) as [d|] eqn:Ed; [|by right].
  pose proof (get_digit_range _ _ _ (proj2 Hr) Ed) as Hd. cbn [length] in Hsz |- *. rewrite Nat2Z.inj_succ, Z.pow_succ_r in Hsz |- * by lia.
  pose proof (mag_nonneg _ (proj1 (G X HX))) as Hm. rewrite Em in Hm.
  pose proof (Z.pow_pos_nonneg 16 (Z.of_nat (length s)) ltac:(lia) ltac:(lia)) as Hp.
  assert (Hnew : (m * radix + d + 1) * 16 ^ Z.of_nat (length s) <= pow (MBEDTLS_MPI_MAX_LIMBS - 1)) by nia.
  assert (Hlt : m * radix + d < pow (MBEDTLS_MPI_MAX_LIMBS - 1)) by nia.
  assert (Hlt' : m < pow (MBEDTLS_MPI_MAX_LIMBS - 1)) by nia.
  pose proof (pow_mono (MBEDTLS_MPI_MAX_LIMBS - 1) MBEDTLS_MPI_MAX_LIMBS ltac:(lia)) as HM.
  eapply yields_chk; [apply (mul_int_sign T X radix h); [done|done|done|unfold fits; lia|]|].
  { unfold mag in Em. pose proof (used_lt (mpi_p (mem h X)) (MBEDTLS_MPI_MAX_LIMBS - 1) (proj1 (proj1 (G X HX))) ltac:(lia)).
    unfold MBEDTLS_MPI_MAX_LIMBS in *. lia. }
  intros _ h1 [T1 G1 [(Ev1 & _) Es1] F1]. specialize (Es1 ltac:(lia)). unfold yields at 1, chk at 1, load. rewrite (F1 X) by lia.
  assert (Em1 : mag (mem h1 T) = m * radix).
  { rewrite <- value_abs by (apply G1; lia). rewrite Ev1, Z.abs_mul, value_abs, Em by (by apply G). lia. }
  destruct (G X HX) as [[_ Hsg] _]. assert (Hfit : 0 <= d < base) by (unfold base; lia).
  eapply yields_chk with (R := fun _ h2 => sets X (fun x => mpi_s x = mpi_s (mem h X) /\ mag x = m * radix + d) h1 h2).
  { destruct Hsg as [E|E]; rewrite E; cbn [Z.eqb Pos.eqb].
    - eapply writes_mono; [apply (add_positive X T d h1); [done|lia|lia|done|by rewrite Es1|lia]|]. by rewrite Em1.
    - eapply writes_mono; [apply (sub_negative X T d h1); [done|lia|lia|done|by rewrite Es1|lia]|]. by rewrite Em1. }
  intros _ h2 [T2 G2 [Es2 Em2] F2].
  specialize (IH h2 (m * radix + d) G2 ltac:(lia) ltac:(lia) Em2 Hnew). unfold yields in *.
  destruct (read_radix X T radix s h2) as [? h3|e h3|]; [|destruct IH as [IH|[-> ->]]; auto|done].
  destruct IH as (T3 & G3 & F3 & ds & Eds & Es3 & Em3). pose proof (length_digits _ _ _ Eds) as Hlen. rewrite Eds. split; [lia|]. split; [done|]. split.
  - intros a Ha H1 H2. rewrite F3, F2, F1 by lia. done.
  - exists (d :: ds). split; [done|]. rewrite Es3, Es2. split; [done|]. rewrite Em3, number_cons. 
    rewrite Hlen. lia.
Qed.

(** ** Hexadecimal *)

Lemma or_nibble v d j : 0 <= v < 16 ^ Z.of_nat j -> 0 <= d < 16 -> let r := Z.of_nat (4 * (j mod 16)) in
  let l := v / pow (j / 16) in
  Z.lor l (u64 (Z.shiftl d r)) = l + d * 2 ^ r /\ fits 64 (l + d * 2 ^ r) /\
  pow (j / 16) * (d * 2 ^ r) = 16 ^ Z.of_nat j * d.
Proof.
  intros Hv Hd r l. pose proof (Nat.div_mod_eq j 16) as Ej. pose proof (Nat.mod_upper_bound j 16 ltac:(lia)) as Hr.
  assert (Ep : 16 ^ Z.of_nat j = pow (j / 16) * 2 ^ r).
  { rewrite pow_bits. change 16 with (2 ^ 4) at 1. rewrite <- Z.pow_mul_r, <- Z.pow_add_r by lia. f_equal. lia. }
  pose proof (pow_pos (j / 16)) as Hp. assert (Hr8 : 0 <= r <= 60) by lia.
  pose proof (Z.pow_pos_nonneg 2 r ltac:(lia) ltac:(lia)) as H2. pose proof (Z.pow_le_mono_r 2 r 60 ltac:(lia) ltac:(lia)) as H60.
  assert (Hl : 0 <= l < 2 ^ r) by (unfold l; split; [apply Z.div_pos; lia|apply Z.div_lt_upper_bound; lia]).
  assert (Hfit : 0 <= l + d * 2 ^ r < 2 ^ 64) by (change (2 ^ 64) with (16 * 2 ^ 60); nia).
  split; [|split; [exact Hfit|rewrite Ep; lia]].
  rewrite wrap_id, Z.lor_comm, lor_shift by (lia || rewrite Z.shiftl_mul_pow2 by lia; unfold fits; lia). lia.
Qed.

Lemma pow_nibbles k : pow k = 16 ^ Z.of_nat (16 * k).
Proof.
  rewrite pow_bits. replace (16 ^ Z.of_nat (16 * k)) with ((2 ^ 4) ^ Z.of_nat (16 * k)) by done. rewrite <- Z.pow_mul_r by lia. f_equal. lia.
Qed.

(** [r] is the rest of the string turned round. *)
Lemma read_hex_spec X r : forall j h, good h -> (X < top h)%nat -> mag (mem h X) < 16 ^ Z.of_nat j -> mpi_s (mem h X) = 1 ->
  (j + length r <= mpi_n (mem h X) * 16)%nat ->
  yields (read_hex X j r) h (fun e => e = MBEDTLS_ERR_MPI_INVALID_CHARACTER /\ digits 16 (signed (rev r)).2 = None) (fun _ h' =>
    exists ds, digits 16 (signed (rev r)).2 = Some ds /\ sets X (fun x => mpi_s x = (signed (rev r)).1 /\
      mag x = mag (mem h X) + 16 ^ Z.of_nat j * number 16 ds) h h').
Proof.
  induction r as [|c r IH]; intros j h G HX Hm Hs Hn; cbn [read_hex rev].
  { apply yields_wp, wp_ret. exists []. split; [done|]. constructor; try done. split; [done|]. unfold number. cbn. lia. }
  destruct (bool_decide (r = []) && bool_decide (c = minus_sign)) eqn:Em.
  { apply andb_true_iff in Em as [->%bool_decide_eq_true ->%bool_decide_eq_true]. cbn [rev app signed].
    rewrite bool_decide_eq_true_2 by done. apply yields_wp. eapply wp_mono; [apply set_s_spec; [done|done|by right]|].
    intros _ h' [T' G' N' F']. exists []. split; [done|]. constructor; try done. rewrite N'. split; [done|].
    unfold number, mag. cbn [mpi_p foldl]. lia. }
  assert (Hsg : signed (rev r ++ [c]) = ((signed (rev r)).1, (signed (rev r)).2 ++ [c])).
  { apply signed_snoc. apply andb_false_iff in Em as [Em%bool_decide_eq_false|Em%bool_decide_eq_false]; [left|by right].
    intros E%(f_equal (@rev ascii)). by rewrite rev_involutive in E. }
  rewrite Hsg. cbn [fst snd]. rewrite digits_app, digits_cons. cbn [length] in Hn.
  destruct (mpi_get_digit 16 c) as [d|] eqn:Ed; [|right; by destruct (digits 16 (signed (rev r)).2)].
  pose proof (get_digit_range 16 c d ltac:(done) Ed) as Hd.
  destruct (G X HX) as [[Hl Hsx] HnX]. pose proof (val_nonneg _ Hl) as H0. fold (mag (mem h X)) in H0.
  assert (Hi : (j / 16 < mpi_n (mem h X))%nat) by (apply Nat.Div0.div_lt_upper_bound; lia).
  assert (Hlim : mpi_p (mem h X) !!! (j / 16)%nat = mag (mem h X) / pow (j / 16)).
  { apply top_limb; [done|exact Hi|]. pose proof (Nat.div_mod_eq j 16). pose proof (Nat.mod_upper_bound j 16 ltac:(lia)).
    rewrite pow_nibbles. pose proof (Z.pow_le_mono_r 16 (Z.of_nat j) (Z.of_nat (16 * S (j / 16))) ltac:(lia) ltac:(lia)). unfold mag in *. lia. }
  destruct (or_nibble (mag (mem h X)) d j ltac:(lia) Hd) as (El & Hfit & Ep).
  eapply (yields_chk (get_limb X (j / 16)) _ h _ _ (fun l h' => l = mpi_p (mem h X) !!! (j / 16)%nat /\ h' = h)).
  { apply chk_ret_wp. by apply wp_get_limb. }
  intros l h0 [-> ->]. rewrite Hlim, El. eapply yields_chk; [apply set_limb_spec; [done..|exact Hfit]|].
  intros _ h1 [T1 G1 N1 F1]. cbn beta in N1.
  assert (Em1 : mag (mem h1 X) = mag (mem h X) + 16 ^ Z.of_nat j * d).
  { rewrite N1. unfold mag at 1. cbn [mpi_p]. rewrite val_insert by exact Hi. rewrite Hlim. unfold mag in *. lia. }
  assert (En : mpi_n (mem h1 X) = mpi_n (mem h X)) by (rewrite N1; unfold mpi_n; cbn [mpi_p]; by rewrite length_insert).
  pose proof (Z.pow_pos_nonneg 16 (Z.of_nat j) ltac:(lia) ltac:(lia)).
  specialize (IH (S j) h1 G1 ltac:(lia)). rewrite Nat2Z.inj_succ, Z.pow_succ_r in IH by lia.
  specialize (IH ltac:(nia) ltac:(by rewrite N1) ltac:(lia)). unfold yields in *.
  destruct (read_hex X (S j) r h1) as [? h2|e h2|]; [|destruct IH as [IH|[-> ->]]; auto|done].
  destruct IH as (ds & -> & Hs2). exists (ds ++ [d]). split; [done|].
  destruct Hs2 as [T2 G2 [Es2 Em2] F2]. constructor; [congruence|done| |intros a Ha Hne; rewrite F2, F1 by lia; done].
  split; [done|]. rewrite Em2, Em1, number_app.
  cbn [length]. change (number 16 [d]) with (0 * 16 + d). change (Z.of_nat 1) with 1. lia.
Qed.

(** ** Strings *)

Lemma signed_minus c s : c = minus_sign -> signed (c :: s) = (-1, s).
Proof. intros ->. cbn [signed]. by rewrite bool_decide_eq_true_2. Qed.

Lemma signed_plain c s : c <> minus_sign -> signed (c :: s) = (1, c :: s).
Proof. intros Hc. cbn [signed]. by rewrite bool_decide_eq_false_2. Qed.

Lemma zero_limbs k : (0 < k)%nat -> mag (Mpi 1 (lset_limbs k 0)) = 0 /\ mpi_n (Mpi 1 (lset_limbs k 0)) = k.
Proof. intros Hk. destruct (lset_limbs_spec k 0 Hk ltac:(done)) as (_ & Hn & Hv). done. Qed.

(** The loop of the other radices, from the sign on *)
Lemma read_signed_spec X T radix s h : X <> T -> 2 <= radix <= 16 -> good h -> (X < top h)%nat -> (T < top h)%nat ->
  mag (mem h X) = 0 -> mpi_s (mem h X) = 1 -> 16 ^ Z.of_nat (length s) <= pow (MBEDTLS_MPI_MAX_LIMBS - 1) ->
  yields (match s with
          | c :: s' => if bool_decide (c = minus_sign) then set_s X (-1) ;* read_radix X T radix s' else read_radix X T radix s
          | [] => ret tt
          end) h (fun e => e = MBEDTLS_ERR_MPI_INVALID_CHARACTER /\ string_value radix s = None)
    (fun _ h' => top h' = top h /\ good h' /\ (forall a, (a < top h)%nat -> a <> X -> a <> T -> mem h' a = mem h a) /\
       string_value radix s = Some (value (mem h' X))).
Proof.
  intros Hne Hr G HX HT Em Es Hsz.
  assert (Hrun : forall t sg h1, good h1 -> top h1 = top h -> mag (mem h1 X) = 0 -> mpi_s (mem h1 X) = sg ->
    16 ^ Z.of_nat (length t) <= pow (MBEDTLS_MPI_MAX_LIMBS - 1) ->
    (forall a, (a < top h)%nat -> a <> X -> mem h1 a = mem h a) -> signed s = (sg, t) ->
    yields (read_radix X T radix t) h1 (fun e => e = MBEDTLS_ERR_MPI_INVALID_CHARACTER /\ string_value radix s = None)
    (fun _ h' => top h' = top h /\ good h' /\ (forall a, (a < top h)%nat -> a <> X -> a <> T -> mem h' a = mem h a) /\
       string_value radix s = Some (value (mem h' X)))).
  { intros t sg h1 G1 T1 E1 S1 Hl F1 Esg. unfold string_value. rewrite Esg. cbn [fst snd].
    eapply yields_mono; [apply (read_radix_spec X T radix t Hne Hr h1 0); try done; try lia| |].
    - intros e [-> ->]. done.
    - intros _ h2 (T2 & G2 & F2 & ds & -> & S2 & E2). split; [lia|]. split; [done|]. split.
      + intros a Ha H1 H2. rewrite F2, F1 by lia. done.
      + cbn. unfold value. by rewrite S2, E2, S1, Z.mul_0_l, Z.add_0_l. }
  destruct s as [|c s].
  { apply yields_wp, wp_ret. split_and!; try done. unfold string_value, value. rewrite Em, Z.mul_0_r. reflexivity. }
  destruct (decide (c = minus_sign)) as [Ec|Ec].
  - rewrite bool_decide_eq_true_2 by done. eapply yields_chk; [apply (set_s_spec X (-1) h); [done|done|by right]|].
    intros _ h1 [T1 G1 N1 F1]. apply (Hrun s (-1)); [done|done|by rewrite N1|by rewrite N1| |done|by apply signed_minus].
    cbn [length] in Hsz. rewrite Nat2Z.inj_succ, Z.pow_succ_r in Hsz by lia.
    pose proof (Z.pow_pos_nonneg 16 (Z.of_nat (length s)) ltac:(lia) ltac:(lia)). lia.
  - rewrite bool_decide_eq_false_2 by done. apply (Hrun (c :: s) 1); try done. by apply signed_plain.
Qed.

Lemma read_string_spec X radix s h : good h -> (X < top h)%nat -> 2 <= radix <= 16 ->
  (length s <= 16 * (MBEDTLS_MPI_MAX_LIMBS - 1))%nat ->
  yields (mbedtls_mpi_read_string X radix s) h
    (fun e => e = MBEDTLS_ERR_MPI_INVALID_CHARACTER /\ string_value radix s = None)
    (fun _ h' => exists v, string_value radix s = Some v /\ sets X (fun x => value x = v) h h').
Proof.
  intros G HX Hr Hlen. unfold mbedtls_mpi_read_string.
  replace ((radix <? 2) || (16 <? radix)) with false by (symmetry; apply orb_false_iff; split; apply Z.ltb_ge; lia).
  apply yields_local. set (T := top h). pose proof (good_enter h G) as G0. set (h0 := enter h) in *.
  assert (T0 : top h0 = S T) by done. assert (F0 : forall a, (a < T)%nat -> mem h0 a = mem h a) by (intros; by apply enter_same).
  assert (Hfin : forall h', top h' = top h0 -> good h' -> (forall a, (a < T)%nat -> a <> X -> mem h' a = mem h a) ->
    sets X (fun x => value x = value (mem h' X)) h (leave h h')).
  { intros h' T' G' F'. apply leave_sets; [done|fold T; lia|done|done]. }
  destruct (Z.eqb_spec radix 16) as [->|Hr16].
  - assert (Hbig : (Z.shiftr (2 ^ 64 - 1) 2 <? Z.of_nat (length s)) = false).
    { apply Z.ltb_ge. unfold MBEDTLS_MPI_MAX_LIMBS in Hlen. change (Z.shiftr _ _) with 4611686018427387903. lia. }
    rewrite Hbig. pose proof (BITS_TO_LIMBS_spec (4 * length s) (MBEDTLS_MPI_MAX_LIMBS - 1) ltac:(lia)) as Hk.
    pose proof (BITS_TO_LIMBS_ge (4 * length s)) as Hge. set (k := BITS_TO_LIMBS (4 * length s)) in *.
    eapply yields_chk; [apply (grow_spec X k h0); [done|lia|lia]|]. intros _ h1 [T1 G1 N1 F1]. cbn beta in N1.
    eapply yields_chk; [apply (lset_spec X 0 h1); [done|lia|done]|]. intros _ h2 [T2 G2 N2 F2]. cbn beta in N2.
    assert (En : (k <= Nat.max 1 (mpi_n (mem h1 X)))%nat) by (rewrite N1, grown_n; lia).
    destruct (zero_limbs (Nat.max 1 (mpi_n (mem h1 X))) ltac:(lia)) as [Z1 Z2]. change (if 0 <? 0 then -1 else 1) with 1 in N2.
    eapply yields_mono; [apply (read_hex_spec X (rev s) 0 h2); [done|lia|rewrite N2, Z1; done|by rewrite N2|rewrite N2, Z2, length_rev; lia]| |].
    + intros e [-> Hd]. rewrite rev_involutive in Hd. unfold string_value. by rewrite Hd.
    + rewrite rev_involutive. intros _ h3 (ds & Hd & [T3 G3 [Es3 Em3] F3]). exists (value (mem h3 X)). split.
      * unfold string_value. rewrite Hd. cbn. unfold value. rewrite Es3, Em3, N2, Z1. change (16 ^ Z.of_nat 0) with 1. by rewrite Z.mul_1_l, Z.add_0_l.
      * apply Hfin; [lia|done|]. intros a Ha Hne. rewrite F3, F2, F1, F0 by lia. done.
  - eapply yields_chk; [apply (lset_spec X 0 h0); [done|lia|done]|]. intros _ h1 [T1 G1 N1 F1]. cbn beta in N1.
    destruct (zero_limbs (Nat.max 1 (mpi_n (mem h0 X))) ltac:(lia)) as [Z1 Z2]. change (if 0 <? 0 then -1 else 1) with 1 in N1.
    eapply yields_mono; [apply (read_signed_spec X T radix s h1); try done; try lia; [by rewrite N1|by rewrite N1|]| |].
    + rewrite pow_nibbles. apply Z.pow_le_mono_r; lia.
    + done.
    + intros _ h2 (T2 & G2 & F2 & Hv). exists (value (mem h2 X)). split; [done|]. apply Hfin; [lia|done|].
      intros a Ha Hne. rewrite F2, F1, F0 by lia. done.
Qed.

End Memory.
