(* ===== verification/MpiWrite.v ===== *)
(** * MpiWrite: multiprecision integers to text

    The room [mbedtls_mpi_write_string] asks for is enough, and what it writes
    stands for the number. *)
From S2P Require Import Prelude.
From S2P Require Import CString.
From S2P Require Import Limbs.
From S2P Require Import Mpi.
From S2P Require Import MpiBits.
From S2P Require Import MpiFacts.
From S2P Require Import MpiBitsFacts.
From S2P Require Import MpiArith.
From S2P Require Import MpiDiv.
From S2P Require Import MpiDivFacts.
From S2P Require Import MpiQuotient.
From S2P Require Import MpiGcdFacts.
From S2P Require Import MpiText.
From S2P Require Import MpiBytes.
From S2P Require Import MpiRead.
From Stdlib Require Import Ascii.

Open Scope C.

(** ** Digits *)

Lemma get_digit_radix radix c d : mpi_get_digit 16 c = Some d -> d < radix -> mpi_get_digit radix c = Some d.
Proof.
  unfold mpi_get_digit. cbv zeta. match goal with |- (if 16 <=? ?e then _ else _) = _ -> _ => set (x := e) end.
  destruct (16 <=? x); [done|]. intros [= ->] Hd. by rewrite (proj2 (Z.leb_gt _ _)).
Qed.

Lemma below_16 r : 0 <= r < 16 -> exists k, (k < 16)%nat /\ r = Z.of_nat k.
Proof. intros Hr. exists (Z.to_nat r). lia. Qed.

Lemma digit_char_spec radix r : radix <= 16 -> 0 <= r < radix -> mpi_get_digit radix (digit_char r) = Some r.
Proof.
  intros Hr Hd. apply get_digit_radix; [|lia]. destruct (below_16 r ltac:(lia)) as (k & Hk & ->).
  do 16 (destruct k as [|k]; [reflexivity|]). lia.
Qed.

Lemma hex_upper_spec r : 0 <= r < 16 -> mpi_get_digit 16 (hex_upper r) = Some r.
Proof.
  intros Hd. destruct (below_16 r Hd) as (k & Hk & ->). do 16 (destruct k as [|k]; [reflexivity|]). lia.
Qed.

(** Text that stands for [v] *)
Definition spells (radix v : Z) (w : chars) : Prop := exists ds, digits radix w = Some ds /\ number radix ds = v.

Lemma spells_nil radix : spells radix 0 [].
Proof. by exists []. Qed.

Lemma spells_cons radix v w c d : mpi_get_digit radix c = Some d -> spells radix v w ->
  spells radix (d * radix ^ Z.of_nat (length w) + v) (c :: w).
Proof.
  intros Hc (ds & Hds & <-). exists (d :: ds). rewrite digits_cons, Hc, Hds. split; [done|].
  by rewrite number_cons, (length_digits _ _ _ Hds).
Qed.

Lemma spells_snoc radix v w c d : mpi_get_digit radix c = Some d -> spells radix v w -> spells radix (v * radix + d) (w ++ [c]).
Proof.
  intros Hc (ds & Hds & <-). exists (ds ++ [d]). rewrite digits_app, digits_cons, Hc, Hds. split; [done|].
  rewrite number_app. cbn [length]. change (Z.of_nat 1) with 1. unfold number at 2. cbn [foldl]. lia.
Qed.

Lemma digits_not_nul radix w ds : digits radix w = Some ds -> radix <= 16 -> Forall (fun c => c <> NUL) w.
Proof.
  revert ds. induction w as [|c w IH]; intros ds; [constructor|]. rewrite digits_cons. intros Hds Hr.
  destruct (mpi_get_digit radix c) eqn:E; [|done]. destruct (digits radix w) eqn:Ew; [|done]. constructor; [|by eapply IH].
  intros ->. enough (mpi_get_digit radix NUL = None) by congruence.
  transitivity (if radix <=? 255 then None else Some 255); [reflexivity|]. by rewrite (proj2 (Z.leb_le _ _)) by lia.
Qed.

Lemma text_of s r : Forall (fun c => c <> NUL) s -> text (s ++ NUL :: r) = Some s.
Proof.
  intros Hs. unfold text. assert (E : span (fun c => negb (bool_decide (c = NUL))) (s ++ NUL :: r) = (s, NUL :: r)).
  { induction Hs as [|c s Hc Hs IH]; [done|]. cbn [app span]. by rewrite bool_decide_eq_false_2, IH by done. }
  by rewrite E.
Qed.

Section Memory.
Context `{Callocs}.

Lemma wp_put {B} (buf : list ascii) p c (k : chars -> mpi B) h Q : (p < length buf)%nat -> wp (k (<[p := c]> buf)) h Q -> wp (chk (put_char buf p c) k) h Q.
Proof. intros Hp. unfold put_char. by rewrite (proj2 (Nat.ltb_lt _ _)). Qed.

Lemma residue_spec {B} x b (k : Z -> mpi B) h Q : wf x -> 2 <= b <= 16 -> (0 < mpi_n x)%nat \/ b <> 2 ->
  wp (k (value x mod b)) h Q -> wp (chk (residue_of x b) k) h Q.
Proof.
  intros Hw Hb Hn Hk. assert (E : mbedtls_mpi_mod_int x b = Some (inl (value x mod b))).
  { destruct (mpi_p x) as [|l p] eqn:Ep; [|apply mod_int_spec; [done|lia|unfold mpi_n; rewrite Ep; cbn; lia]].
    assert (value x = 0) as -> by (unfold value, mag; rewrite Ep; cbn; lia). rewrite Z.mod_0_l by lia.
    unfold mpi_n in Hn. rewrite Ep in Hn. cbn in Hn. unfold mbedtls_mpi_mod_int. rewrite Ep.
    rewrite (proj2 (Z.eqb_neq b 0)), (proj2 (Z.ltb_ge b 0)), (proj2 (Z.eqb_neq b 1)), (proj2 (Z.eqb_neq b 2)) by lia.
    cbn. by destruct (mpi_s x <? 0). }
  unfold residue_of, wp, chk, valid in *. rewrite E. exact Hk.
Qed.

(** ** The loop of the digits *)

Lemma write_digits_spec X radix p buflen fuel : 2 <= radix <= 16 -> forall h buf l v, good h -> (X < top h)%nat ->
  value (mem h X) = v -> mpi_s (mem h X) = 1 -> (0 < mpi_n (mem h X))%nat \/ radix <> 2 -> (mpi_n (mem h X) + 2 <= MBEDTLS_MPI_MAX_LIMBS)%nat ->
  0 <= v < radix ^ Z.of_nat (buflen - l) -> (l < buflen)%nat -> (p + buflen <= length buf)%nat -> (buflen - l < fuel)%nat ->
  wp (write_digits fuel X radix buf (p + buflen - l) l buflen) h (fun r h' => top h' = top h /\ good h' /\
    (forall a, (a < top h)%nat -> a <> X -> mem h' a = mem h a) /\ exists w,
      r = (take (p + buflen - (l + length w)) buf ++ w ++ drop (p + buflen - l) buf, (l + length w)%nat) /\
      (0 < length w <= buflen - l)%nat /\ spells radix v w /\ (length w = 1%nat \/ radix ^ Z.of_nat (length w - 1) <= v)).
Proof.
  intros Hr. induction fuel as [|fuel IH]; intros h buf l v G HX Ev Es Hn Hsz Hv Hl Hb Hf; [lia|].
  cbn [write_digits]. rewrite (proj2 (Nat.leb_gt _ _)) by lia. apply wp_load.
  apply residue_spec; [by apply G|done|done|]. rewrite Ev.
  eapply wp_chk; [apply (div_int_spec (Some X) None X radix h G HX I HX); [|lia|unfold base; lia|done]|].
  { cbn. split; [done|]. split; [lia|]. done. }
  rewrite Ev, Z.quot_div_nonneg by lia. intros _ h1 [T1 G1 F1 [E1 C1] _ _].
  pose proof (Z.mod_pos_bound v radix ltac:(lia)) as Hm. pose proof (Z.div_mod v radix ltac:(lia)) as Edm.
  pose proof (Z.div_pos v radix ltac:(lia) ltac:(lia)) as Hq. set (q := v / radix) in *. set (c := digit_char (v mod radix)).
  assert (Hc : mpi_get_digit radix c = Some (v mod radix)) by (apply digit_char_spec; lia).
  set (e := (p + buflen - l)%nat). apply wp_put; [unfold e; lia|]. apply wp_load.
  assert (Eins : forall w', (l + length w' < buflen)%nat -> 
    take (e - 1 - length w') (<[(e - 1)%nat := c]> buf) ++ w' ++ drop (e - 1) (<[(e - 1)%nat := c]> buf) =
    take (e - 1 - length w') buf ++ (w' ++ [c]) ++ drop e buf).
  { intros w' Hw'. rewrite take_insert_ge by lia. f_equal. rewrite <- app_assoc. f_equal. unfold e in *.
    rewrite insert_take_drop by lia. rewrite drop_app_length' by (rewrite length_take; lia). cbn [app]. f_equal. f_equal. lia. }
  rewrite cmp_int_spec, ord_eqb, E1 by (done || apply G1; lia). destruct (Z.eqb_spec q 0) as [Eq|Eq].
  - apply wp_ret. split; [done|]. split; [done|]. split; [intros a Ha Hne; apply F1; congruence|]. exists [c]. cbn [length].
    specialize (Eins [] ltac:(cbn; lia)). cbn [length app] in Eins. rewrite !Nat.sub_0_r in Eins.
    split; [|split; [lia|split; [|by left]]].
    + f_equal; [|lia]. replace (p + buflen - (l + 1))%nat with (e - 1)%nat by lia. fold e. cbn [app]. rewrite <- Eins.
      symmetry. apply take_drop.
    + pose proof (spells_cons radix 0 [] c _ Hc (spells_nil radix)) as Hs. cbn [length] in Hs. change (radix ^ Z.of_nat 0) with 1 in Hs.
      replace v with (v mod radix * 1 + 0) by lia. exact Hs.
  - assert (Hq0 : 0 < q) by lia. assert (Hs1 : mpi_s (mem h1 X) = 1) by (apply value_positive; [apply G1; lia|lia]).
    assert (Hn1 : (0 < mpi_n (mem h1 X) <= Nat.max 1 (mpi_n (mem h X)))%nat).
    { split; [unfold value, mag, mpi_n in *; destruct (mpi_p (mem h1 X)); cbn in *; lia|].
      pose proof (mag_bound _ (proj1 (G X HX))) as Hb'. rewrite value_mag, Ev in Hb' by (apply G || lia; done).
      pose proof (pow_mono (mpi_n (mem h X)) (Nat.max 1 (mpi_n (mem h X))) ltac:(lia)).
      specialize (C1 (Nat.max 1 (mpi_n (mem h X))) ltac:(lia)). assert (q <= v) by (unfold q; apply Z.div_le_upper_bound; nia).
      specialize (C1 ltac:(lia)). lia. }
    assert (Hbl : (S l < buflen)%nat).
    { destruct (decide (S l < buflen)%nat); [done|]. exfalso. replace (buflen - l)%nat with 1%nat in Hv by lia.
      change (Z.of_nat 1) with 1 in Hv. rewrite Z.pow_1_r in Hv. unfold q in Hq0. rewrite Z.div_small in Hq0 by lia. lia. }
    assert (Hqv : q < radix ^ Z.of_nat (buflen - S l)).
    { unfold q. apply Z.div_lt_upper_bound; [lia|]. rewrite <- Z.pow_succ_r by lia. rewrite <- Nat2Z.inj_succ.
      replace (S (buflen - S l)) with (buflen - l)%nat by lia. lia. }
    replace (e - 1)%nat with (p + buflen - S l)%nat in * by (unfold e; lia).
    eapply wp_mono; [apply (IH h1 _ (S l) q); try done; try lia|].
    { unfold MBEDTLS_MPI_MAX_LIMBS in *. lia. } { rewrite length_insert. lia. }
    intros r h2 (T2 & G2 & F2 & w & -> & Hw & Hs & Hlow). split; [lia|]. split; [done|].
    split; [intros a Ha Hne; rewrite F2 by lia; apply F1; congruence|]. exists (w ++ [c]). rewrite length_app. cbn [length].
    split; [|split; [lia|split]].
    + f_equal; [|lia]. specialize (Eins w ltac:(lia)).
      replace (p + buflen - (S l + length w))%nat with (p + buflen - S l - length w)%nat by lia. rewrite Eins. do 2 f_equal. lia.
    + replace v with (q * radix + v mod radix) by lia. by apply spells_snoc.
    + right. replace (length w + 1 - 1)%nat with (length w) by lia. destruct Hlow as [El|Hlow].
      * rewrite El. change (Z.of_nat 1) with 1. rewrite Z.pow_1_r. nia.
      * replace (length w) with (S (length w - 1)) by lia. rewrite Nat2Z.inj_succ, Z.pow_succ_r by lia. nia.
Qed.

Lemma write_hlp_spec X radix buf p buflen h v : 2 <= radix <= 16 -> good h -> (X < top h)%nat ->
  value (mem h X) = v -> mpi_s (mem h X) = 1 -> (0 < mpi_n (mem h X))%nat \/ radix <> 2 -> (mpi_n (mem h X) + 2 <= MBEDTLS_MPI_MAX_LIMBS)%nat ->
  0 <= v < radix ^ Z.of_nat buflen -> (0 < buflen)%nat -> (p + buflen <= length buf)%nat ->
  wp (mpi_write_hlp X radix buf p buflen) h (fun r h' => top h' = top h /\ good h' /\
    (forall a, (a < top h)%nat -> a <> X -> mem h' a = mem h a) /\ exists w,
      take (p + length w) r.1 = take p buf ++ w /\ length r.1 = length buf /\ r.2 = (p + length w)%nat /\
      spells radix v w /\ (length w = 1%nat \/ radix ^ Z.of_nat (length w - 1) <= v)).
Proof.
  intros Hr G HX Ev Es Hn Hsz Hv Hl Hb. unfold mpi_write_hlp.
  replace (p + buflen)%nat with (p + buflen - 0)%nat at 1 by lia.
  eapply wp_chk; [apply (write_digits_spec X radix p buflen (buflen + 1) Hr h buf 0 v); try done; try lia; by rewrite Nat.sub_0_r|].
  intros ? h1 (T1 & G1 & F1 & w & -> & Hw & Hs & Hlow). apply wp_ret. split; [done|]. split; [done|]. split; [done|].
  exists w. rewrite Nat.add_0_l, Nat.sub_0_r in *. cbn [fst snd]. set (e := (p + buflen - length w)%nat).
  assert (Ht : length (take e buf) = e) by (rewrite length_take; lia).
  assert (E1 : take p (take e buf ++ w ++ drop (p + buflen) buf) = take p buf).
  { rewrite take_app_le by (rewrite Ht; lia). rewrite take_take. f_equal. lia. }
  assert (E2 : take (length w) (drop e (take e buf ++ w ++ drop (p + buflen) buf)) = w).
  { rewrite drop_app_length' by done. apply take_app_length. }
  rewrite E1, E2. assert (Hp : length (take p buf) = p) by (rewrite length_take; lia). split_and!; try done.
  - rewrite app_assoc. apply take_app_length'. rewrite length_app. lia.
  - rewrite !length_app, length_drop, !length_app, length_drop, Hp, Ht. lia.
Qed.

(** ** Hexadecimal *)

Lemma hex_pair c m w i : 0 <= c < 256 -> length w = (2 * i)%nat -> spells 16 m w ->
  spells 16 (c * bpow i + m) (hex_upper (c / 16) :: hex_upper (c mod 16) :: w).
Proof.
  intros Hc Hl Hw. pose proof (Z.div_mod c 16 ltac:(done)). pose proof (Z.mod_pos_bound c 16 ltac:(done)).
  assert (Hh : 0 <= c / 16 < 16) by (split; [apply Z.div_pos; lia|apply Z.div_lt_upper_bound; lia]).
  assert (E : 16 ^ Z.of_nat (length w) = bpow i).
  { rewrite Hl, Nat2Z.inj_mul, Z.pow_mul_r by lia. done. }
  pose proof (spells_cons 16 _ _ _ _ (hex_upper_spec (c mod 16) ltac:(lia)) Hw) as Hlow.
  pose proof (spells_cons 16 _ _ _ _ (hex_upper_spec (c / 16) Hh) Hlow) as Hboth. cbn [length] in Hboth.
  rewrite Nat2Z.inj_succ, Z.pow_succ_r, E in Hboth by lia.
  replace (c * bpow i + m) with (c / 16 * (16 * bpow i) + (c mod 16 * bpow i + m)) by lia. exact Hboth.
Qed.

Lemma mod_bpow_S v i : v mod bpow (S i) = (v / bpow i mod 256) * bpow i + v mod bpow i.
Proof.
  pose proof (bpow_pos i). rewrite bpow_S, (Z.mul_comm 256), Z.rem_mul_r by lia. lia.
Qed.

Lemma take_two (buf : list ascii) p c d : (p + 2 <= length buf)%nat -> take (p + 2) (<[(p + 1)%nat := d]> (<[p := c]> buf)) = take p buf ++ [c; d].
Proof.
  intros Hp. replace (p + 2)%nat with (S (S p)) by lia. replace (p + 1)%nat with (S p) by lia.
  set (b1 := <[p := c]> buf). assert (H1 : b1 !! p = Some c) by (apply list_lookup_insert_eq; lia).
  assert (H2 : <[S p := d]> b1 !! S p = Some d) by (apply list_lookup_insert_eq; unfold b1; rewrite length_insert; lia).
  rewrite (take_S_r _ _ _ H2), take_insert_ge, (take_S_r _ _ _ H1) by lia. unfold b1. rewrite take_insert_ge by lia. by rewrite <- app_assoc.
Qed.

(** [b] bytes of [x] are enough. *)
Definition roomy (x : mbedtls_mpi) (b i : nat) (k : bool) (buf : chars) (p : nat) : Prop :=
  if k then (p + 2 * i <= length buf)%nat else mag x mod bpow i < bpow b /\ (p + 2 * b <= length buf)%nat.

Lemma write_hex_spec x b i : wf x -> (i <= mpi_n x * 8)%nat -> (0 < b)%nat -> forall (k : bool) (buf : list ascii) p h, roomy x b i k buf p ->
  wp (write_hex i x k buf p) h (fun r h' => h' = h /\ exists w,
    take (p + length w) r.1 = take p buf ++ w /\ length r.1 = length buf /\ r.2 = (p + length w)%nat /\
    spells 16 (mag x mod bpow i) w /\ (if k then length w = 2 * i else length w <= 2 * b)%nat).
Proof.
  intros Hw Hi Hb. induction i as [|i IH]; intros k buf p h HR; cbn [write_hex].
  { apply wp_ret. split; [done|]. exists []. cbn [length fst snd]. rewrite Nat.add_0_r, app_nil_r, bpow_0, Z.mod_1_r.
    split_and!; try done; [apply spells_nil|destruct k; lia]. }
  pose proof (get_byte_spec x i Hw ltac:(lia)) as Ec. pose proof (Z.mod_pos_bound (mag x / bpow i) 256 ltac:(done)) as Hc.
  pose proof (mod_bpow_S (mag x) i) as Em. rewrite <- Ec in Em, Hc. set (c := GET_BYTE x i) in *. pose proof (bpow_pos i) as Hp.
  pose proof (Z.mod_pos_bound (mag x) (bpow i) Hp) as Hm.
  destruct ((c =? 0) && negb k && negb (i =? 0)%nat) eqn:Es.
  { apply andb_true_iff in Es as [[E0%Z.eqb_eq Ek%negb_true_iff]%andb_true_iff _]. subst k. cbn [roomy] in HR.
    rewrite Em, E0, Z.mul_0_l, Z.add_0_l in *. apply (IH ltac:(lia) false). exact HR. }
  assert (Hroom : (p + 2 * S i <= length buf)%nat /\ (k = false -> S i <= b)%nat).
  { destruct k; [by split|]. destruct HR as [HR1 HR2]. enough (S i <= b)%nat by (split; [lia|done]).
    rewrite andb_true_r in Es. apply andb_false_iff in Es as [E0%Z.eqb_neq|E0%negb_false_iff%Nat.eqb_eq]; [|lia].
    destruct (decide (S i <= b)%nat); [done|]. pose proof (bpow_mono b i ltac:(lia)). nia. }
  destruct Hroom as [Hroom Hkb]. apply wp_put; [lia|]. apply wp_put; [rewrite length_insert; lia|].
  set (b' := <[(p + 1)%nat := hex_upper (c mod 16)]> (<[p := hex_upper (c / 16)]> buf)).
  assert (Hl' : length b' = length buf) by (unfold b'; by rewrite !length_insert).
  eapply wp_mono; [apply (IH ltac:(lia) true b' (p + 2)%nat h); unfold roomy; lia|].
  intros r h' (-> & w & Et & Hlen & Er & Hsp & Hlw). split; [done|]. exists (hex_upper (c / 16) :: hex_upper (c mod 16) :: w).
  cbn [length]. split; [|split; [lia|split; [lia|split]]].
  - replace (p + S (S (length w)))%nat with (p + 2 + length w)%nat by lia. rewrite Et. unfold b'. rewrite take_two by lia.
    by rewrite <- app_assoc.
  - rewrite Em. by apply hex_pair.
  - destruct k; [lia|]. specialize (Hkb eq_refl). lia.
Qed.

(** ** The room *)

Lemma string_room_digits x radix : wf x -> 2 <= radix <= 16 -> radix <> 16 ->
  exists m, (0 < m)%nat /\ (m + 2 <= string_room x radix)%nat /\ mag x < radix ^ Z.of_nat m.
Proof.
  intros Hw Hr Hne. unfold string_room. rewrite bitlen_spec by done. set (n := bits (mag x)).
  assert (Hv : mag x < 2 ^ Z.of_nat n) by (apply bits_lt; [by apply mag_nonneg|done]). clearbody n.
  rewrite (proj2 (Z.leb_gt 16 radix)) by lia. destruct (Z.leb_spec 4 radix) as [H4|H4].
  - pose proof (Nat.div2_odd n) as Ho. set (q := Nat.div2 n) in *. clearbody q.
    exists (q + 1)%nat. split; [lia|]. split; [destruct (Nat.odd (q + 1 + 1 + 1)); lia|].
    eapply Z.lt_le_trans; [exact Hv|]. apply Z.le_trans with (4 ^ Z.of_nat (q + 1)).
    + change 4 with (2 ^ 2). rewrite <- Z.pow_mul_r by lia. apply Z.pow_le_mono_r; [lia|].
      destruct (Nat.odd n); cbn [Nat.b2n] in *; lia.
    + apply Z.pow_le_mono_l. lia.
  - exists (n + 1)%nat. split; [lia|]. split; [destruct (Nat.odd (n + 1 + 1 + 1)); lia|].
    eapply Z.lt_le_trans; [exact Hv|]. apply Z.le_trans with (2 ^ Z.of_nat (n + 1)); [apply Z.pow_le_mono_r; lia|apply Z.pow_le_mono_l; lia].
Qed.

Lemma string_room_hex x : wf x -> exists b, (0 < b)%nat /\ (2 * b + 2 <= string_room x 16)%nat /\ mag x < bpow b.
Proof.
  intros Hw. unfold string_room. rewrite bitlen_spec by done. set (n := bits (mag x)). cbn [Z.leb Z.compare Pos.compare Pos.compare_cont].
  assert (Hv : mag x < 2 ^ Z.of_nat n) by (apply bits_lt; [by apply mag_nonneg|done]).
  pose proof (Nat.div2_odd n) as H1. pose proof (Nat.div2_odd (Nat.div2 n)) as H2. set (q := Nat.div2 (Nat.div2 n)) in *.
  pose proof (Nat.div2_odd q) as H3. set (d := Nat.div2 q) in *. clearbody q d n.
  exists (d + 1)%nat. split; [lia|]. split.
  - replace (q + 1 + 1 + 1)%nat with (S (S (S q))) by lia. rewrite Nat.odd_succ, Nat.even_succ, Nat.odd_succ, <- Nat.negb_odd.
    destruct (Nat.odd q); cbn [negb Nat.b2n] in *; lia.
  - eapply Z.lt_le_trans; [exact Hv|]. rewrite bpow_bits. apply Z.pow_le_mono_r; [lia|].
    destruct (Nat.odd n), (Nat.odd (Nat.div2 n)), (Nat.odd q); cbn [Nat.b2n] in *; lia.
Qed.

(** ** Strings *)

(** The text of [x] with its end in the buffer *)
Definition written (x : mbedtls_mpi) (radix : Z) (buf : chars) (r : chars * nat * Z) : Prop :=
  let '(buf', olen, code) := r in
  code = 0 /\ length buf' = length buf /\ (olen <= string_room x radix)%nat /\ exists s,
    olen = S (length s) /\ take olen buf' = s ++ [NUL] /\ string_value radix s = Some (value x) /\ Forall (fun c => c <> NUL) s.

Lemma signed_digits radix v w : radix <= 16 -> spells radix v w -> signed w = (1, w).
Proof.
  intros Hr (ds & Hds & _). destruct w as [|c w]; [done|]. apply signed_plain. intros ->.
  rewrite digits_cons, minus_no_digit in Hds by done. done.
Qed.

Definition sign_chars (x : mbedtls_mpi) : chars := if mpi_s x =? -1 then [minus_sign] else [].

Lemma spells_value radix x w : radix <= 16 -> wf x -> spells radix (mag x) w -> string_value radix (sign_chars x ++ w) = Some (value x).
Proof.
  intros Hr [_ Hs] Hw. pose proof (signed_digits _ _ _ Hr Hw) as E. destruct Hw as (ds & Hds & Hn). unfold sign_chars, string_value, value.
  destruct Hs as [Es|Es]; rewrite Es; cbn [Z.eqb Pos.eqb app].
  - rewrite E. cbn [fst snd]. rewrite Hds. cbn. by rewrite Hn.
  - rewrite signed_minus by done. cbn [fst snd]. rewrite Hds. cbn. by rewrite Hn.
Qed.

(** The terminating NUL *)
Lemma put_end_spec x radix (buf0 buf : list ascii) w p h (Q : chars * nat * Z -> heap -> Prop) : wf x -> radix <= 16 ->
  (p = length (sign_chars x ++ w))%nat -> take p buf = sign_chars x ++ w -> length buf = length buf0 -> (p < length buf)%nat ->
  (p < string_room x radix)%nat -> spells radix (mag x) w -> (forall r, written x radix buf0 r -> Q r h) ->
  wp (let* buf := put_char buf p NUL in ret (buf, (p + 1)%nat, 0)) h Q.
Proof.
  intros Hw Hr Hp Et Hl Hlt Hroom Hs HQ. apply wp_put; [done|]. apply wp_ret, HQ. split; [done|]. rewrite length_insert.
  split; [done|]. split; [lia|]. exists (sign_chars x ++ w). split; [lia|]. split; [|split; [by apply spells_value|]].
  - assert (E : <[p := NUL]> buf !! p = Some NUL) by (by apply list_lookup_insert_eq). replace (p + 1)%nat with (S p) by lia.
    rewrite (take_S_r _ _ _ E), take_insert_ge by lia. by rewrite Et.
  - destruct Hs as (ds & Hds & _). apply Forall_app. split; [|by eapply digits_not_nul].
    unfold sign_chars. destruct (_ =? _); [|constructor]. constructor; [discriminate|constructor].
Qed.

Lemma positive_copy_spec T X h : good h -> (T < top h)%nat -> (X < top h)%nat -> T <> X -> mem h T = mbedtls_mpi_init ->
  wp (mbedtls_mpi_copy T X ;* let* t := load T in if mpi_s t =? -1 then set_s T 1 else ret tt) h (fun _ h' =>
    sets T (fun t => mpi_s t = 1 /\ mag t = mag (mem h X) /\ ((0 < mpi_n (mem h X))%nat -> (0 < mpi_n t)%nat) /\
      (mpi_n t <= mpi_n (mem h X))%nat) h h').
Proof.
  intros G HT HX Hne E0. destruct (G X HX) as [Hw Hn].
  eapply writes_then; [apply (copy_spec T X h G HT HX)|]. rewrite (proj2 (Nat.eqb_neq T X)) by done. rewrite E0.
  intros _ h1 [T1 G1 N1 F1]. cbn beta in N1. apply wp_load.
  assert (Hn1 : ((0 < mpi_n (mem h X))%nat -> (0 < mpi_n (mem h1 T))%nat) /\ (mpi_n (mem h1 T) <= mpi_n (mem h X))%nat).
  { rewrite N1. destruct (mpi_p (mem h X)) as [|l p] eqn:Ep.
    - unfold copied, mpi_n. rewrite Ep. cbn. lia.
    - rewrite copied_n by by rewrite Ep. pose proof (significant_le (mpi_p (mem h X)) ltac:(by rewrite Ep)).
      unfold mpi_n, significant in *. cbn in *. lia. }
  assert (Hm : mag (mem h1 T) = mag (mem h X)) by (rewrite N1; by apply copied_mag).
  destruct (G1 T ltac:(lia)) as [[_ Hs] _]. destruct (Z.eqb_spec (mpi_s (mem h1 T)) (-1)) as [Es|Es].
  - eapply writes_mono; [apply set_s_spec; [done|lia|by left]|]. intros t ->. split; [done|]. done.
  - apply writes_ret; [done|]. split; [lia|done].
Qed.

(** The sign *)
Lemma put_sign_spec x (buf : list ascii) h : wf x -> (0 < length buf)%nat ->
  wp (A := chars * nat * nat)
    (if mpi_s x =? -1 then let* buf' := put_char buf 0 minus_sign in ret (buf', 1%nat, (length buf - 1)%nat) else ret (buf, 0%nat, length buf)) h (fun r h' => h' = h /\ exists b : list ascii, r = (b, length (sign_chars x), (length buf - length (sign_chars x))%nat) /\
      length b = length buf /\ take (length (sign_chars x)) b = sign_chars x).
Proof.
  intros Hw Hl. unfold sign_chars. destruct (mpi_s x =? -1).
  - destruct buf as [|c buf]; [cbn in Hl; lia|]. apply wp_put; [done|]. apply wp_ret. split; [done|]. by exists (minus_sign :: buf).
  - apply wp_ret. split; [done|]. exists buf. by rewrite Nat.sub_0_r.
Qed.

Lemma positive_then {B} T X (k : mpi B) h Q : good h -> (T < top h)%nat -> (X < top h)%nat -> T <> X -> mem h T = mbedtls_mpi_init ->
  (forall h', sets T (fun t => mpi_s t = 1 /\ mag t = mag (mem h X) /\ ((0 < mpi_n (mem h X))%nat -> (0 < mpi_n t)%nat) /\
      (mpi_n t <= mpi_n (mem h X))%nat) h h' -> wp k h' Q) ->
  wp (mbedtls_mpi_copy T X ;* let* t := load T in (if mpi_s t =? -1 then set_s T 1 else ret tt) ;* k) h Q.
Proof.
  intros G HT HX Hne E0 Hk. pose proof (positive_copy_spec T X h G HT HX Hne E0) as Hc. unfold wp, chk in *.
  destruct (mbedtls_mpi_copy T X h) as [v h1|e h1|]; [|done|done]. destruct (load T h1) as [t h2|e h2|]; [|done|done].
  destruct ((if mpi_s t =? -1 then set_s T 1 else ret tt) h2) as [u h3|e h3|]; [by apply Hk|done|done].
Qed.

Lemma write_string_spec X radix (buf : list ascii) h : good h -> (X < top h)%nat -> 2 <= radix <= 16 ->
  (mpi_n (mem h X) + 2 <= MBEDTLS_MPI_MAX_LIMBS)%nat -> (0 < mpi_n (mem h X))%nat \/ radix <> 2 ->
  (string_room (mem h X) radix <= length buf)%nat ->
  wp (mbedtls_mpi_write_string X radix buf) h (fun r h' => written (mem h X) radix buf r /\ top h' = top h /\ good h' /\
    forall a, (a < top h)%nat -> mem h' a = mem h a).
Proof.
  intros G HX Hr Hsz Hn Hroom. unfold mbedtls_mpi_write_string.
  replace ((radix <? 2) || (16 <? radix)) with false by (symmetry; apply orb_false_iff; split; apply Z.ltb_ge; lia).
  apply wp_load. rewrite (proj2 (Nat.ltb_ge _ _)) by done. apply wp_local. set (T := top h). set (x := mem h X) in *.
  destruct (G X HX) as [Hw _]. fold x in Hw. pose proof (good_enter h G) as G0. set (h0 := enter h) in *.
  assert (T0 : top h0 = S T) by done. assert (F0 : forall a, (a < T)%nat -> mem h0 a = mem h a) by (intros; by apply enter_same).
  assert (Hsg : (length (sign_chars x) <= 1)%nat) by (unfold sign_chars; destruct (_ =? _); cbn; lia).
  assert (Hr0 : (0 < string_room x radix)%nat) by (unfold string_room; lia).
  eapply wp_chk; [apply (put_sign_spec x buf h0); [done|lia]|]. intros ? ? (-> & b & -> & Hlb & Htb). set (p := length (sign_chars x)) in *.
  assert (Hdone : forall h' w (b' : list ascii), top h' = S T -> good h' -> (forall a, (a < T)%nat -> mem h' a = mem h a) ->
    length b' = length b -> take (p + length w) b' = take p b ++ w -> (p + length w < string_room x radix)%nat ->
    spells radix (mag x) w ->
    wp (let* buf := put_char b' (p + length w) NUL in ret (buf, (p + length w + 1)%nat, 0)) h' (fun r h' =>
      written x radix buf r /\ top (leave h h') = T /\ good (leave h h') /\ forall a, (a < T)%nat -> mem (leave h h') a = mem h a)).
  { intros h' w b' T' G' F' Hl' Ht' Hlt Hs. apply (put_end_spec x radix buf b' w); try done; try lia.
    - by rewrite length_app.
    - by rewrite Ht', Htb.
    - intros r HR. split; [done|]. split; [done|]. split; [apply good_leave; [done|lia]|exact F']. }
  destruct (Z.eqb_spec radix 16) as [->|Hne].
  - destruct (string_room_hex x Hw) as (m & Hm & Hmr & Hmv).
    assert (Emag : mag x mod bpow (mpi_n x * 8) = mag x).
    { apply Z.mod_small. split; [by apply mag_nonneg|]. rewrite Nat.mul_comm, <- pow_bpow. apply mag_bound. apply Hw. }
    eapply wp_chk; [apply (write_hex_spec x m (mpi_n x * 8) Hw ltac:(lia) Hm false b p h0)|].
    { cbn [roomy]. rewrite Emag. split; [done|lia]. }
    intros [b' p'] h' (-> & w & Et & Hl' & Ep & Hs & Hlw). cbn [fst snd] in *. subst p'. rewrite Emag in Hs.
    apply (Hdone h0 w b'); try done; lia.
  - destruct (string_room_digits x radix Hw Hr Hne) as (m & Hm & Hmr & Hmv).
    assert (HT : (T < top h0)%nat) by lia. assert (HX0 : (X < top h0)%nat) by lia.
    eapply wp_chk with (R := fun r h' => top h' = S T /\ good h' /\ (forall a, (a < T)%nat -> mem h' a = mem h a) /\ exists w,
      take (p + length w) r.1 = take p b ++ w /\ length r.1 = length b /\ r.2 = (p + length w)%nat /\
      spells radix (mag x) w /\ (length w = 1%nat \/ radix ^ Z.of_nat (length w - 1) <= mag x)).
    + apply (positive_then T X); try done; [unfold T; lia|apply upd_same|]. rewrite F0 by done. fold x.
      intros h1 [T1 G1 (Es & Em & Hn1 & Hn2) F1]. pose proof (mag_nonneg x Hw) as H0.
      assert (Hlim : mag x < radix ^ Z.of_nat (length buf - p)).
      { eapply Z.lt_le_trans; [exact Hmv|]. apply Z.pow_le_mono_r; lia. }
      eapply wp_mono; [apply (write_hlp_spec T radix b p (length buf - p) h1 (mag x)); try done; try lia|].
      * unfold value. rewrite Es, Em. lia.
      * intros r h2 (T2 & G2 & F2 & Hw2). split; [lia|]. split; [done|]. split; [|exact Hw2].
        intros a Ha. rewrite F2, F1, F0 by lia. done.
    + intros [b' p'] h' (T' & G' & F' & w & Et & Hl' & Ep & Hs & Hlow). cbn [fst snd] in *. subst p'.
      apply (Hdone h' w b'); try done. destruct Hlow as [->|Hlow]; [lia|].
      enough (length w <= m)%nat by lia. apply Nat.nlt_ge. intros Hgt.
      pose proof (Z.pow_le_mono_r radix (Z.of_nat m) (Z.of_nat (length w - 1)) ltac:(lia) ltac:(lia)). lia.
Qed.

Lemma write_string_small X radix (buf : list ascii) h : 2 <= radix <= 16 -> (length buf < string_room (mem h X) radix)%nat ->
  mbedtls_mpi_write_string X radix buf h = Ok (buf, string_room (mem h X) radix, MBEDTLS_ERR_MPI_BUFFER_TOO_SMALL) h.
Proof.
  intros Hr Hl. unfold mbedtls_mpi_write_string.
  replace ((radix <? 2) || (16 <? radix)) with false by (symmetry; apply orb_false_iff; split; apply Z.ltb_ge; lia).
  unfold chk at 1, load at 1. by rewrite (proj2 (Nat.ltb_lt _ _)).
Qed.

Lemma bad_radix X radix s (buf : chars) h : radix < 2 \/ 16 < radix ->
  mbedtls_mpi_read_string X radix s h = Err MBEDTLS_ERR_MPI_BAD_INPUT_DATA h /\
  mbedtls_mpi_write_string X radix buf h = Err MBEDTLS_ERR_MPI_BAD_INPUT_DATA h.
Proof.
  intros Hr. assert (E : (radix <? 2) || (16 <? radix) = true) by (apply orb_true_iff; rewrite !Z.ltb_lt; lia).
  unfold mbedtls_mpi_read_string, mbedtls_mpi_write_string. by rewrite E.
Qed.

End Memory.
