(* ===== verification/MpiTop.v ===== *)
(** * MpiTop: what the multiprecision integers promise

    The results of the operations as integers, with the errors of the callers
    and refused memory, for every aliasing the code supports. *)
From S2P Require Import Prelude.
From S2P Require Import Limbs.
From S2P Require Import Mpi.
From S2P Require Import MpiBits.
From S2P Require Import MpiFacts.
From S2P Require Import MpiBitsFacts.
From S2P Require Import MpiArith.
From S2P Require Import MpiDiv.
From S2P Require Import MpiDivFacts.
From S2P Require Import MpiQuotient.
From S2P Require Import MpiMont.
From S2P Require Import MpiExpMod.
From S2P Require Import MpiGcd.
From S2P Require Import MpiGcdFacts.
From S2P Require Import MpiInverse.

Open Scope C.

(** Objects at the addresses 0, 1, ... *)
Definition heap_of (l : list mbedtls_mpi) : heap := Heap (fun a => nth a l mbedtls_mpi_init) (length l) 0.

Section Memory.
Context `{Callocs}.

(** C9: Addition, subtraction and multiplication give the sum, the difference and the product of the values, whatever the signs and
    however the three objects alias, when the result fits 10000 limbs; nothing else changes. *)
Theorem mpi_ring X A B h : good h -> (X < top h)%nat -> (A < top h)%nat -> (B < top h)%nat ->
  let a := value (mem h A) in let b := value (mem h B) in
  (Z.abs (a + b) < pow MBEDTLS_MPI_MAX_LIMBS -> writes (mbedtls_mpi_add_mpi X A B) X h (fun x => value x = a + b)) /\
  (Z.abs (a - b) < pow MBEDTLS_MPI_MAX_LIMBS -> writes (mbedtls_mpi_sub_mpi X A B) X h (fun x => value x = a - b)) /\
  ((used (mpi_p (mem h A)) + used (mpi_p (mem h B)) <= MBEDTLS_MPI_MAX_LIMBS)%nat ->
     writes (mbedtls_mpi_mul_mpi X A B) X h (fun x => value x = a * b)).
Proof.
  intros G HX HA HB a b. split_and!; intros Hs.
  - eapply writes_mono; [by apply add_mpi_spec|]. by intros x [E _].
  - eapply writes_mono; [by apply sub_mpi_spec|]. by intros x [E _].
  - eapply writes_mono; [by apply mul_mpi_spec|]. by intros x [E _].
Qed.

(** C4: Division gives the quotient and the remainder of C for all signs, each where it is asked for, and changes nothing else; it
    refuses the divisor 0. The quotient must not go to B, and to A only without a remainder and for a positive A. *)
Theorem mpi_division Q R A B h : good h -> optional Q (fun Q => (Q < top h)%nat) -> optional R (fun R => (R < top h)%nat) ->
  (A < top h)%nat -> (B < top h)%nat -> apart h Q R A B -> (mpi_n (mem h A) + 2 <= MBEDTLS_MPI_MAX_LIMBS)%nat ->
  let a := value (mem h A) in let b := value (mem h B) in
  yields (mbedtls_mpi_div_mpi Q R A B) h (fun e => e = MBEDTLS_ERR_MPI_DIVISION_BY_ZERO /\ b = 0)
    (fun _ h' => b <> 0 /\ changes Q R (Z.quot a b) (Z.rem a b) (0 < mpi_n (mem h A))%nat h h').
Proof.
  intros G HQ HR HA HB Hap Hsz a b. destruct (Z.eq_dec b 0) as [E0|E0].
  - eapply yields_err; [|by split]. unfold mbedtls_mpi_div_mpi, chk, load. rewrite cmp_int_spec by (apply G || idtac; done).
    fold b. by rewrite ord_eqb, E0.
  - apply yields_wp. eapply wp_mono; [by apply div_mpi_spec|]. by intros.
Qed.

(** C11: The residue is the mathematical one, between 0 and B - 1 for every sign of A; a negative and a zero modulus are refused with
    their codes and nothing is left half done. R may be A but not B. *)
Theorem mpi_residue R A B h : good h -> (R < top h)%nat -> (A < top h)%nat -> (B < top h)%nat -> R <> B ->
  (mpi_n (mem h A) + 2 <= MBEDTLS_MPI_MAX_LIMBS)%nat ->
  let a := value (mem h A) in let b := value (mem h B) in
  yields (mbedtls_mpi_mod_mpi R A B) h
    (fun e => e = MBEDTLS_ERR_MPI_NEGATIVE_VALUE /\ b < 0 \/ e = MBEDTLS_ERR_MPI_DIVISION_BY_ZERO /\ b = 0)
    (fun _ h' => 0 < b /\ sets R (fun x => value x = a mod b) h h').
Proof.
  intros G HR HA HB Hne Hsz a b. destruct (Ztrichotomy b 0) as [Hb|[Hb|Hb]].
  - eapply yields_err; [|left; by split]. unfold mbedtls_mpi_mod_mpi, chk, load. rewrite cmp_int_spec by (apply G || idtac; done).
    fold b. by rewrite ord_ltb, (proj2 (Z.ltb_lt _ _)).
  - eapply yields_err; [|right; by split]. unfold mbedtls_mpi_mod_mpi, mbedtls_mpi_div_mpi, chk, load.
    rewrite !cmp_int_spec by (apply G || idtac; done). fold b. rewrite ord_ltb, Hb. cbn [Z.ltb Z.compare].
    rewrite cmp_int_spec by (apply G || idtac; done). fold b. by rewrite ord_eqb, Hb.
  - apply yields_wp. eapply wp_mono; [apply mod_mpi_spec; done || lia|]. intros ? h' [T' G' [E' _] F']. by split; [lia|].
Qed.

(** C3: The sliding-window exponentiation gives A^E mod N for every odd positive N and E >= 0, keeping R^2 mod N for the next call,
    except that a negative A with an odd power divisible by N gives N itself; other N and E are refused. A must have a limb: one
    that was only initialised has none, and the code follows its NULL ([mpi_pitfalls]). X is not E or N, A has at most 9998 and N at
    most 4998 limbs, and the object that keeps R^2 is no operand and empty or the result of a call with the same N. *)
Theorem mpi_exponentiation X A E N _RR h : exp_inputs X A E N _RR h ->
  yields (mbedtls_mpi_exp_mod X A E N _RR) h
    (fun e => e = MBEDTLS_ERR_MPI_BAD_INPUT_DATA /\ ~ (0 < value (mem h N) /\ mag (mem h N) mod 2 = 1 /\ 0 <= value (mem h E)))
    (fun _ h' => exp_done X A E N _RR h h').
Proof.
  intros Hin. pose proof Hin as [G (HX & HA & HE & HN) _ _ _ _].
  assert (Hdec : 0 < value (mem h N) /\ mag (mem h N) mod 2 = 1 /\ 0 <= value (mem h E) \/
    ~ (0 < value (mem h N) /\ mag (mem h N) mod 2 = 1 /\ 0 <= value (mem h E))) by lia.
  destruct Hdec as [(HvN & Hodd & HvE)|Hno]; [by apply yields_wp, exp_mod_spec|].
  eapply yields_err; [|by split]. unfold mbedtls_mpi_exp_mod, chk, load. rewrite cmp_int_spec by (apply G || idtac; done).
  rewrite ord_leb. destruct (Z.leb_spec (value (mem h N)) 0) as [Hv|Hv]; [reflexivity|].
  destruct (value_positive (mem h N)) as [_ Em]; [by apply G|done|].
  assert (Hn : (0 < mpi_n (mem h N))%nat) by (unfold mag, mpi_n in *; destruct (mpi_p (mem h N)); cbn in *; lia).
  unfold get_limb, chk, load, valid. rewrite list_lookup_lookup_total_lt by exact Hn. cbn [ret].
  rewrite odd_low_limb by (apply G || idtac; done).
  destruct (Z.eqb_spec (mag (mem h N) mod 2) 0) as [Ho|Ho]; [reflexivity|].
  pose proof (Z.mod_pos_bound (mag (mem h N)) 2 ltac:(lia)).
  rewrite cmp_int_spec by (apply G || idtac; done). rewrite ord_ltb, (proj2 (Z.ltb_lt _ _)) by lia. reflexivity.
Qed.

(** C12: The binary algorithm gives the greatest common divisor of any two numbers, into any object, in particular over an operand, and
    changes nothing else; but when B is 0 it gives 0, whatever A is. *)
Theorem mpi_gcd G A B h : good h -> (G < top h)%nat -> (A < top h)%nat -> (B < top h)%nat ->
  let a := value (mem h A) in let b := value (mem h B) in
  writes (mbedtls_mpi_gcd G A B) G h (fun x => value x = if b =? 0 then 0 else Z.gcd a b).
Proof.
  intros Hg HG HA HB a b. eapply wp_mono; [by apply gcd_spec|]. intros _ h' (T' & G' & [E' _] & F'). by constructor.
Qed.

(** C5: The inversion gives the number x between 0 and N - 1 with x * A mod N = 1, also over an operand and for a negative A, exactly
    when A and N have no common divisor, and says so otherwise; a modulus below 2 is refused. A and N have at most 9998 limbs. *)
Theorem mpi_inverse X A N h : good h -> (X < top h)%nat -> (A < top h)%nat -> (N < top h)%nat ->
  (mpi_n (mem h A) + 2 <= MBEDTLS_MPI_MAX_LIMBS)%nat -> (mpi_n (mem h N) + 2 <= MBEDTLS_MPI_MAX_LIMBS)%nat ->
  let a := value (mem h A) in let n := value (mem h N) in
  yields (mbedtls_mpi_inv_mod X A N) h
    (fun e => e = MBEDTLS_ERR_MPI_BAD_INPUT_DATA /\ n <= 1 \/ e = MBEDTLS_ERR_MPI_NOT_ACCEPTABLE /\ 1 < n /\ Z.gcd a n <> 1)
    (fun _ h' => 1 < n /\ Z.gcd a n = 1 /\ sets X (fun x => 0 <= value x < n /\ value x * a mod n = 1) h h').
Proof.
  intros G HX HA HN HsA HsN a n. destruct (Z.le_gt_cases n 1) as [Hn|Hn].
  - eapply yields_err; [|left; by split]. unfold mbedtls_mpi_inv_mod, chk, load. rewrite cmp_int_spec by (apply G || idtac; done).
    fold n. by rewrite ord_leb, (proj2 (Z.leb_le _ _)).
  - eapply yields_mono; [by apply inv_mod_spec| |].
    + intros e [-> Hc]. right. by split_and!.
    + intros _ h' [Hc Hs]. by split_and!.
Qed.

End Memory.

(** ** At concrete inputs *)

#[local] Instance granted : Callocs := fun _ => true.

Definition sound (x : mbedtls_mpi) : bool :=
  forallb (fun l => (0 <=? l) && (l <? 2 ^ 64)) (mpi_p x) && ((mpi_s x =? 1) || (mpi_s x =? -1)) &&
  (mpi_n x <=? MBEDTLS_MPI_MAX_LIMBS)%nat.

Lemma good_heap_of l : forallb sound l = true -> good (heap_of l).
Proof.
  rewrite forallb_forall. intros Hl a Ha. cbn [heap_of mem top] in *.
  specialize (Hl _ (nth_In l mbedtls_mpi_init Ha)). set (x := nth a l mbedtls_mpi_init) in *. unfold sound in Hl.
  rewrite !andb_true_iff, orb_true_iff, !Z.eqb_eq, Nat.leb_le, forallb_forall in Hl. destruct Hl as [[Hp Hs] Hn].
  split; [split; [|exact Hs]|exact Hn]. apply Forall_forall. intros y Hy%list_elem_of_In. specialize (Hp y Hy).
  rewrite andb_true_iff, Z.leb_le, Z.ltb_lt in Hp. exact Hp.
Qed.

(** -(2^64 + 5), 2^33, 0 and 3 * 2^64 + 7 *)
Definition four : list mbedtls_mpi := [Mpi (-1) [5; 1]; Mpi 1 [2 ^ 33]; Mpi 1 [0]; Mpi 1 [7; 3]].

Lemma four_good : good (heap_of four).
Proof. apply good_heap_of. vm_compute. reflexivity. Qed.

Definition value_at {A} (o : outcome A) (a : addr) : option Z :=
  match o with Ok _ h => Some (value (mem h a)) | _ => None end.

(** What the hypotheses of the theorems keep out. *)
Example mpi_pitfalls :
  (* the quotient replaces a negative A: the sign is lost, and with |A| < |B| the remainder too *)
  value_at (mbedtls_mpi_div_mpi (Some 0%nat) None 0 1 (heap_of four)) 0 = Some (2 ^ 31) /\
  value_at (mbedtls_mpi_div_mpi (Some 0%nat) (Some 2%nat) 0 3 (heap_of four)) 2 = Some 0 /\
  (* (-3)^1 mod 3 is 3 *)
  value_at (mbedtls_mpi_exp_mod 0 1 2 3 None (heap_of [Mpi 1 []; Mpi (-1) [3]; Mpi 1 [1]; Mpi 1 [3]])) 0 = Some 3 /\
  (* a base without limbs makes the multiplication follow NULL *)
  mbedtls_mpi_exp_mod 0 1 2 3 None (heap_of [Mpi 1 []; Mpi 1 []; Mpi 1 [1]; Mpi 1 [3]]) = Bad /\
  (* the remainder by a divisor of more than 32 bits *)
  mbedtls_mpi_mod_int (Mpi 1 [0; 2 ^ 32]) (2 ^ 33 + 1) <> Some (inl (2 ^ 96 mod (2 ^ 33 + 1))).
Proof. vm_compute. repeat split; discriminate. Qed.

Lemma four_values : value <$> four = [- 2 ^ 64 - 5; 2 ^ 33; 0; 3 * 2 ^ 64 + 7].
Proof. reflexivity. Qed.

Lemma four_size a : (mpi_n (mem (heap_of four) a) <= 2)%nat.
Proof. do 4 (destruct a as [|a]; [cbn; lia|]). destruct a; cbn; lia. Qed.

Lemma four_below a b : Z.abs (value (mem (heap_of four) a)) < 2 ^ 70 -> Z.abs (value (mem (heap_of four) b)) < 2 ^ 70 ->
  Z.abs (value (mem (heap_of four) a) + value (mem (heap_of four) b)) < pow MBEDTLS_MPI_MAX_LIMBS /\
  Z.abs (value (mem (heap_of four) a) - value (mem (heap_of four) b)) < pow MBEDTLS_MPI_MAX_LIMBS.
Proof.
  intros Ha Hb. pose proof (pow_mono 2 MBEDTLS_MPI_MAX_LIMBS ltac:(unfold MBEDTLS_MPI_MAX_LIMBS; lia)) as HM.
  change (pow 2) with (2 ^ 128) in HM. lia.
Qed.

Lemma mpi_ring_witness : let h := heap_of four in let a := value (mem h 0%nat) in let b := value (mem h 1%nat) in
  a = - 2 ^ 64 - 5 /\ b = 2 ^ 33 /\
  writes (mbedtls_mpi_add_mpi 0 0 1) 0 h (fun x => value x = a + b) /\
  writes (mbedtls_mpi_sub_mpi 1 0 1) 1 h (fun x => value x = a - b) /\
  writes (mbedtls_mpi_mul_mpi 0 0 0) 0 h (fun x => value x = a * a).
Proof.
  intros h a b. destruct (four_below 0 1) as [H1 H2]; [reflexivity..|].
  assert (T0 : (0 < top h)%nat) by (cbn; lia). assert (T1 : (1 < top h)%nat) by (cbn; lia).
  split; [reflexivity|]. split; [reflexivity|]. split; [|split].
  - exact (proj1 (mpi_ring 0 0 1 h four_good T0 T0 T1) H1).
  - exact (proj1 (proj2 (mpi_ring 1 0 1 h four_good T1 T0 T1)) H2).
  - refine (proj2 (proj2 (mpi_ring 0 0 0 h four_good T0 T0 T0)) _). unfold MBEDTLS_MPI_MAX_LIMBS. cbn. lia.
Defined.

Lemma mpi_division_witness : let h := heap_of four in let a := value (mem h 0%nat) in let b := value (mem h 3%nat) in
  yields (mbedtls_mpi_div_mpi (Some 2%nat) (Some 0%nat) 0 3) h (fun e => e = MBEDTLS_ERR_MPI_DIVISION_BY_ZERO /\ b = 0)
    (fun _ h' => b <> 0 /\ changes (Some 2%nat) (Some 0%nat) (Z.quot a b) (Z.rem a b) (0 < mpi_n (mem h 0%nat))%nat h h').
Proof.
  refine (mpi_division (Some 2%nat) (Some 0%nat) 0 3 (heap_of four) four_good _ _ _ _ _ _); try (cbn; lia).
  - cbn. split; [discriminate|]. split; [lia|]. discriminate.
  - pose proof (four_size 0). unfold MBEDTLS_MPI_MAX_LIMBS. lia.
Defined.

Lemma mpi_residue_witness : let h := heap_of four in let a := value (mem h 0%nat) in let b := value (mem h 1%nat) in
  yields (mbedtls_mpi_mod_mpi 0 0 1) h
    (fun e => e = MBEDTLS_ERR_MPI_NEGATIVE_VALUE /\ b < 0 \/ e = MBEDTLS_ERR_MPI_DIVISION_BY_ZERO /\ b = 0)
    (fun _ h' => 0 < b /\ sets 0 (fun x => value x = a mod b) h h').
Proof.
  refine (mpi_residue 0 0 1 (heap_of four) four_good _ _ _ _ _); try (cbn; lia).
  pose proof (four_size 0). unfold MBEDTLS_MPI_MAX_LIMBS. lia.
Defined.

Lemma mpi_exponentiation_witness : let h := heap_of four in
  exp_inputs 2 0 1 3 None h /\
  yields (mbedtls_mpi_exp_mod 2 0 1 3 None) h
    (fun e => e = MBEDTLS_ERR_MPI_BAD_INPUT_DATA /\
       ~ (0 < value (mem h 3%nat) /\ mag (mem h 3%nat) mod 2 = 1 /\ 0 <= value (mem h 1%nat)))
    (fun _ h' => exp_done 2 0 1 3 None h h') /\
  exp_result (mem h 0%nat) (Mpi 1 [3]) 1000 = (- 2 ^ 64 - 5) ^ 3 mod 1000.
Proof.
  intros h. assert (Hin : exp_inputs 2 0 1 3 None h).
  { constructor; try (cbn; lia); [exact four_good|]. pose proof (four_size 0). pose proof (four_size 3). unfold h, MBEDTLS_MPI_MAX_LIMBS. lia. }
  split; [exact Hin|]. split; [exact (mpi_exponentiation 2 0 1 3 None h Hin)|reflexivity].
Defined.

Lemma mpi_gcd_witness : let h := heap_of four in let b := value (mem h 0%nat) in
  writes (mbedtls_mpi_gcd 0 3 0) 0 h (fun x => value x = if b =? 0 then 0 else Z.gcd (value (mem h 3%nat)) b) /\
  writes (mbedtls_mpi_gcd 2 3 2) 2 h (fun x => value x = if value (mem h 2%nat) =? 0 then 0 else Z.gcd (value (mem h 3%nat)) (value (mem h 2%nat))) /\
  value (mem h 2%nat) = 0.
Proof.
  assert (T0 : (0 < top (heap_of four))%nat) by (cbn; lia). assert (T2 : (2 < top (heap_of four))%nat) by (cbn; lia).
  assert (T3 : (3 < top (heap_of four))%nat) by (cbn; lia).
  pose proof (mpi_gcd 0 3 0 (heap_of four) four_good T0 T3 T0) as H1.
  pose proof (mpi_gcd 2 3 2 (heap_of four) four_good T2 T3 T2) as H2.
  cbv zeta in *. split; [exact H1|]. split; [exact H2|reflexivity].
Defined.

Lemma mpi_inverse_witness : let h := heap_of four in let a := value (mem h 0%nat) in let n := value (mem h 3%nat) in
  yields (mbedtls_mpi_inv_mod 3 0 3) h
    (fun e => e = MBEDTLS_ERR_MPI_BAD_INPUT_DATA /\ n <= 1 \/ e = MBEDTLS_ERR_MPI_NOT_ACCEPTABLE /\ 1 < n /\ Z.gcd a n <> 1)
    (fun _ h' => 1 < n /\ Z.gcd a n = 1 /\ sets 3 (fun x => 0 <= value x < n /\ value x * a mod n = 1) h h') /\
  Z.gcd a n = 1.
Proof.
  assert (T0 : (0 < top (heap_of four))%nat) by (cbn; lia). assert (T3 : (3 < top (heap_of four))%nat) by (cbn; lia).
  assert (S0 : (mpi_n (mem (heap_of four) 0%nat) + 2 <= MBEDTLS_MPI_MAX_LIMBS)%nat) by (pose proof (four_size 0); unfold MBEDTLS_MPI_MAX_LIMBS; lia).
  assert (S3 : (mpi_n (mem (heap_of four) 3%nat) + 2 <= MBEDTLS_MPI_MAX_LIMBS)%nat) by (pose proof (four_size 3); unfold MBEDTLS_MPI_MAX_LIMBS; lia).
  pose proof (mpi_inverse 3 0 3 (heap_of four) four_good T3 T0 T3 S0 S3) as H1.
  cbv zeta in *. split; [exact H1|vm_compute; reflexivity].
Defined.

(** In place, with a negative operand, and the divisors of 12 and 0 *)
Example gcd_inverse_runs :
  value_at (mbedtls_mpi_gcd 0 0 1 (heap_of [Mpi (-1) [12]; Mpi 1 [18]])) 0 = Some 6 /\
  value_at (mbedtls_mpi_gcd 0 0 1 (heap_of [Mpi 1 [12]; Mpi 1 [0]])) 0 = Some 0 /\
  value_at (mbedtls_mpi_gcd 0 1 0 (heap_of [Mpi 1 [12]; Mpi 1 [0]])) 0 = Some 12 /\
  value_at (mbedtls_mpi_inv_mod 1 0 1 (heap_of [Mpi (-1) [3]; Mpi 1 [10]])) 1 = Some 3.
Proof. vm_compute. repeat split. Qed.
