(* ===== verification/MpiCodec.v ===== *)
(** * MpiCodec: multiprecision integers as text and bytes

    What the conversions promise: which strings stand for which integers, and
    that an integer written as text, to a file or as bytes is read back. *)
From S2P Require Import Prelude.
From S2P Require Import CString.
From S2P Require Import Limbs.
From S2P Require Import Mpi.
From S2P Require Import MpiBits.
From S2P Require Import MpiFacts.
From S2P Require Import MpiBitsFacts.
From S2P Require Import MpiArith.
From S2P Require Import MpiGcdFacts.
From S2P Require Import MpiText.
From S2P Require Import MpiBytes.
From S2P Require Import MpiRead.
From S2P Require Import MpiWrite.
From S2P Require Import MpiTop.
From Stdlib Require Import Ascii.

Open Scope C.

(** ** The digits at the end of a line *)

Lemma span_stop (f : ascii -> bool) a b : Forall (fun x => f x = true) a -> match b with x :: _ => f x = false | [] => True end ->
  span f (a ++ b) = (a, b).
Proof.
  intros Ha Hb. induction Ha as [|x a Hx Ha IH]; cbn [app span].
  - destruct b as [|x b]; [done|]. cbn [span]. by rewrite Hb.
  - by rewrite Hx, IH.
Qed.

Definition is_digit (radix : Z) (c : ascii) : bool := bool_decide (is_Some (mpi_get_digit radix c)).

(** No digit stands right before the number. *)
Definition ends_label (radix : Z) (p : chars) : Prop := match rev p with c :: _ => mpi_get_digit radix c = None | [] => True end.

Lemma digits_all radix w ds : digits radix w = Some ds -> Forall (fun c => is_digit radix c = true) w.
Proof.
  revert ds. induction w as [|c w IH]; intros ds; [constructor|]. rewrite digits_cons.
  destruct (mpi_get_digit radix c) eqn:E; [|done]. destruct (digits radix w) eqn:Ew; [|done]. constructor; [|by eapply IH].
  unfold is_digit. rewrite E. by apply bool_decide_eq_true.
Qed.

Lemma last_digits radix p w ds : ends_label radix p -> digits radix w = Some ds ->
  rev (span (is_digit radix) (rev (p ++ w))).1 = w.
Proof.
  intros Hp Hw. rewrite rev_app_distr, span_stop; [apply rev_involutive| |].
  - apply Forall_rev. by eapply digits_all.
  - unfold ends_label in Hp. destruct (rev p) as [|c r]; [done|]. unfold is_digit. by rewrite Hp.
Qed.

Lemma ends_label_sign radix p q : radix <= 16 -> ends_label radix p -> q = [] \/ q = [minus_sign] -> ends_label radix (p ++ q).
Proof.
  intros Hr Hp [->| ->]; [by rewrite app_nil_r|]. unfold ends_label. rewrite rev_app_distr. by apply minus_no_digit.
Qed.

Lemma number_nonneg radix w ds : 0 <= radix <= 16 -> digits radix w = Some ds -> 0 <= number radix ds.
Proof.
  intros Hr. revert ds. induction w as [|c w IH]; intros ds; [intros [= <-]; done|]. rewrite digits_cons.
  destruct (mpi_get_digit radix c) eqn:E; [|done]. destruct (digits radix w) eqn:Ew; [|done]. intros [= <-].
  apply get_digit_range in E; [|lia]. rewrite number_cons. specialize (IH _ eq_refl).
  pose proof (Z.pow_nonneg radix (Z.of_nat (length l)) ltac:(lia)). nia.
Qed.

(** The sign split off: what is left stands for the magnitude. *)
Lemma string_value_split radix s v : 0 <= radix <= 16 -> string_value radix s = Some v ->
  exists q w ds, s = q ++ w /\ (q = [] \/ q = [minus_sign]) /\ digits radix w = Some ds /\ string_value radix w = Some (Z.abs v).
Proof.
  intros Hr Hv. unfold string_value in Hv. destruct (digits radix (signed s).2) as [ds|] eqn:Ed; [|done]. cbn in Hv.
  injection Hv as <-. assert (Hs : exists q, s = q ++ (signed s).2 /\ (q = [] /\ (signed s).1 = 1 \/ q = [minus_sign] /\ (signed s).1 = -1)).
  { destruct s as [|c s]; [exists []; auto|]. destruct (decide (c = minus_sign)) as [->|Hc].
    - exists [minus_sign]. rewrite signed_minus by done. auto.
    - exists []. rewrite signed_plain by done. auto. }
  destruct Hs as (q & Es & Hq). exists q, (signed s).2, ds. split; [done|]. split; [destruct Hq as [[? _]|[? _]]; auto|].
  split; [done|]. pose proof (number_nonneg _ _ _ Hr Ed) as Hn.
  unfold string_value. rewrite (signed_digits radix (number radix ds)) by (lia || by exists ds). cbn [fst snd]. rewrite Ed. cbn.
  f_equal. destruct Hq as [[_ ->]|[_ ->]]; lia.
Qed.

Lemma drop_last_line s : drop_last CR (drop_last LF (s ++ [CR; LF])) = s.
Proof.
  unfold drop_last. replace (s ++ [CR; LF]) with ((s ++ [CR]) ++ [LF]) by by rewrite <- app_assoc.
  rewrite rev_app_distr. cbn [rev app]. rewrite bool_decide_eq_true_2, rev_involutive by done.
  rewrite rev_app_distr. cbn [rev app]. by rewrite bool_decide_eq_true_2, rev_involutive by done.
Qed.

Lemma radix_ok radix : 2 <= radix <= 16 -> (radix <? 2) || (16 <? radix) = false.
Proof. intros Hr. apply orb_false_iff. split; apply Z.ltb_ge; lia. Qed.

Section Memory.
Context `{Callocs}.

(** The text ends at its NUL. *)
Lemma written_text x radix buf r : written x radix buf r -> exists s, text r.1.1 = Some s /\ r.1.2 = S (length s) /\
  string_value radix s = Some (value x).
Proof.
  destruct r as [[b olen] code]. intros (_ & _ & _ & s & -> & Et & Hv & Hs). exists s. cbn [fst snd]. split; [|done].
  rewrite <- (take_drop (S (length s)) b), Et, <- app_assoc. by apply text_of.
Qed.

(** C13: A string is read, whatever was in the object, as the integer it stands for: an optional minus sign and digits of the radix,
    none of them too; any other string and any radix but 2 to 16 are refused, and no string makes a bad access. Strings of up to
    16 * 9999 characters. *)
Theorem mpi_reads_strings X radix s h : good h -> (X < top h)%nat -> (length s <= 16 * (MBEDTLS_MPI_MAX_LIMBS - 1))%nat ->
  yields (mbedtls_mpi_read_string X radix s) h
    (fun e => e = MBEDTLS_ERR_MPI_BAD_INPUT_DATA /\ ~ 2 <= radix <= 16 \/
              e = MBEDTLS_ERR_MPI_INVALID_CHARACTER /\ 2 <= radix <= 16 /\ string_value radix s = None)
    (fun _ h' => 2 <= radix <= 16 /\ exists v, string_value radix s = Some v /\ sets X (fun x => value x = v) h h').
Proof.
  intros G HX Hl. assert (Hdec : 2 <= radix <= 16 \/ (radix < 2 \/ 16 < radix)) by lia. destruct Hdec as [Hr|Hr].
  - eapply yields_mono; [apply (read_string_spec X radix s h G HX Hr Hl)| |].
    + intros e [-> Hv]. right. split; [done|]. by split.
    + intros ? h' Hv. by split.
  - eapply yields_err; [apply (bad_radix X radix s []); lia|left; split; [done|lia]].
Qed.

(** C10: Writing needs the announced room and nothing else: with less it says how much and touches nothing, with so much it stores a
    terminated text, leaves the number alone, and the text is read back as the same number. In radix 2 the
    number must have a limb: one that was only initialised has none, and its NULL is followed ([mpi_text_pitfalls]). *)
Theorem mpi_string_roundtrip X Y radix (buf : chars) h : good h -> (X < top h)%nat -> (Y < top h)%nat -> 2 <= radix <= 16 ->
  (mpi_n (mem h X) + 2 <= MBEDTLS_MPI_MAX_LIMBS)%nat -> (0 < mpi_n (mem h X))%nat \/ radix <> 2 ->
  let n := string_room (mem h X) radix in (n <= 16 * (MBEDTLS_MPI_MAX_LIMBS - 1))%nat ->
  if (length buf <? n)%nat then mbedtls_mpi_write_string X radix buf h = Ok (buf, n, MBEDTLS_ERR_MPI_BUFFER_TOO_SMALL) h
  else wp (mbedtls_mpi_write_string X radix buf) h (fun '(buf', olen, code) h' =>
    code = 0 /\ length buf' = length buf /\ (olen <= n)%nat /\ (forall a, (a < top h)%nat -> mem h' a = mem h a) /\
    exists s, text buf' = Some s /\ olen = S (length s) /\
      writes (mbedtls_mpi_read_string Y radix s) Y h' (fun y => value y = value (mem h X))).
Proof.
  intros G HX HY Hr Hsz Hn n Hlim. destruct (Nat.ltb_spec (length buf) n) as [Hl|Hl]; [by apply write_string_small|].
  eapply wp_mono; [by apply (write_string_spec X radix buf h)|]. intros [[b olen] code] h' (HW & T' & G' & F').
  destruct (written_text _ _ _ _ HW) as (s & Et & El & Hv). cbn [fst snd] in *. destruct HW as (-> & Hlen & Hroom & _).
  split_and!; try done. exists s. split; [done|]. split; [done|].
  eapply yields_never; [apply (read_string_spec Y radix s h' G'); [lia|done|unfold n in *; lia]| |].
  - intros e [_ E]. congruence.
  - intros _ h'' (v & Ev & Hs). rewrite Hv in Ev. by injection Ev as <-.
Qed.

(** C14: Written as bytes in either order into a buffer that 256^length covers, filled up with zeros, a number is read back as its
    magnitude, and a shorter buffer is refused; any bytes that are read are what the number is written as at the same length. *)
Theorem mpi_bytes_roundtrip X Y (buf : list Z) h : good h -> (X < top h)%nat -> (Y < top h)%nat ->
  (CHARS_TO_LIMBS (length buf) <= MBEDTLS_MPI_MAX_LIMBS)%nat ->
  let x := mem h X in let v := Z.abs (value x) in
  (if v <? 256 ^ Z.of_nat (length buf) then exists b, length b = length buf /\
     mbedtls_mpi_write_binary x buf = Some (inr b) /\ mbedtls_mpi_write_binary_le x buf = Some (inr (rev b)) /\
     writes (mbedtls_mpi_read_binary Y b) Y h (fun y => value y = v) /\
     writes (mbedtls_mpi_read_binary_le Y (rev b)) Y h (fun y => value y = v)
   else mbedtls_mpi_write_binary x buf = Some (inl MBEDTLS_ERR_MPI_BUFFER_TOO_SMALL) /\
     mbedtls_mpi_write_binary_le x buf = Some (inl MBEDTLS_ERR_MPI_BUFFER_TOO_SMALL)) /\
  (octets buf -> let room := replicate (length buf) 0 in
     writes (mbedtls_mpi_read_binary Y buf) Y h (fun y => mbedtls_mpi_write_binary y room = Some (inr buf)) /\
     writes (mbedtls_mpi_read_binary_le Y buf) Y h (fun y => mbedtls_mpi_write_binary_le y room = Some (inr buf))).
Proof.
  intros G HX HY Hk x v. destruct (G X HX) as [Hw _]. fold x in Hw. assert (Ev : v = mag x) by by apply value_abs.
  pose proof (mag_nonneg x Hw) as H0. split.
  - rewrite write_binary_spec, write_binary_le_spec, Ev by done. fold (bpow (length buf)).
    destruct (Z.ltb_spec (mag x) (bpow (length buf))) as [Hlt|]; [|done]. exists (be_bytes (length buf) (mag x)).
    assert (Hl : length (be_bytes (length buf) (mag x)) = length buf) by apply length_be_bytes.
    split; [done|]. split; [done|]. unfold be_bytes at 1. rewrite rev_involutive. split; [done|]. split.
    + eapply writes_mono; [apply read_binary_spec; try done; [apply octets_be_bytes|by rewrite Hl]|].
      intros y [-> _]. rewrite be_of_bytes. by apply Z.mod_small.
    + unfold be_bytes. rewrite rev_involutive.
      eapply writes_mono; [apply read_binary_le_spec; try done; [apply octets_le_bytes|by rewrite length_le_bytes]|].
      intros y [-> _]. rewrite le_of_bytes. by apply Z.mod_small.
  - intros Hb room. assert (Hlr : length room = length buf) by apply length_replicate. split.
    + eapply wp_mono; [by apply read_binary_spec|]. intros _ h' [T' G' [Ev' _] F']. constructor; try done.
      destruct (G' Y ltac:(lia)) as [Hw' _]. pose proof (be_bound buf Hb) as Hbd.
      rewrite write_binary_spec, Hlr, (value_mag (mem h' Y)), Ev' by (done || lia).
      by rewrite (proj2 (Z.ltb_lt _ _)), bytes_of_be by (done || lia).
    + eapply wp_mono; [by apply read_binary_le_spec|]. intros _ h' [T' G' [Ev' _] F']. constructor; try done.
      destruct (G' Y ltac:(lia)) as [Hw' _]. pose proof (le_bound buf Hb) as Hbd.
      rewrite write_binary_le_spec, Hlr, (value_mag (mem h' Y)), Ev' by (done || lia).
      by rewrite (proj2 (Z.ltb_lt _ _)), bytes_of_le by (done || lia).
Qed.

(** ** Files *)

(** A line written behind a label is read as the magnitude of the number: the reader turns back at the minus sign. *)
Theorem mpi_file_roundtrip X Y radix p h : good h -> (X < top h)%nat -> (Y < top h)%nat -> 2 <= radix <= 16 ->
  (mpi_n (mem h X) + 2 <= MBEDTLS_MPI_MAX_LIMBS)%nat -> (0 < mpi_n (mem h X))%nat \/ radix <> 2 -> ends_label radix p ->
  let n := string_room (mem h X) radix in let size := (MBEDTLS_MPI_RW_BUFFER_SIZE - 2)%nat in
  yields (mbedtls_mpi_write_file p X radix) h (fun e => e = MBEDTLS_ERR_MPI_BUFFER_TOO_SMALL /\ (size < n)%nat) (fun line h' =>
    (n <= size)%nat /\ (forall a, (a < top h)%nat -> mem h' a = mem h a) /\ exists s,
      line = p ++ s ++ [CR; LF] /\ string_value radix s = Some (value (mem h X)) /\
      (length line <> size -> writes (mbedtls_mpi_read_file Y radix (Some line)) Y h' (fun y => value y = Z.abs (value (mem h X))))).
Proof.
  intros G HX HY Hr Hsz Hn Hp n size. unfold mbedtls_mpi_write_file. rewrite radix_ok by done. fold size.
  assert (Hlr : length (replicate size NUL) = size) by apply length_replicate.
  destruct (Nat.lt_ge_cases size n) as [Hl|Hl].
  { unfold yields, chk. rewrite write_string_small by (done || by rewrite Hlr). cbn. right. by split. }
  eapply yields_chk; [apply (write_string_spec X radix (replicate size NUL) h); try done; by rewrite Hlr|].
  intros [[b olen] code] h' (HW & T' & G' & F'). destruct (written_text _ _ _ _ HW) as (s & Et & El & Hv). cbn [fst snd] in *.
  destruct HW as (-> & _ & Hroom & _). cbn [Z.eqb]. apply yields_wp. unfold valid. rewrite Et. apply wp_ret.
  split; [done|]. split; [done|]. exists s. split; [done|]. split; [done|]. intros Hne.
  destruct (string_value_split radix s _ ltac:(lia) Hv) as (q & w & ds & -> & Hq & Hd & Hw).
  unfold mbedtls_mpi_read_file. rewrite radix_ok by done. fold size. rewrite (proj2 (Nat.eqb_neq _ _)) by done.
  assert (E : p ++ (q ++ w) ++ [CR; LF] = ((p ++ q) ++ w) ++ [CR; LF]) by by rewrite <- !app_assoc.
  rewrite E, drop_last_line. fold (is_digit radix). rewrite (last_digits radix (p ++ q) w ds); [|apply ends_label_sign; [lia|done|done]|done].
  assert (Hsize : (size <= 16 * (MBEDTLS_MPI_MAX_LIMBS - 1))%nat).
  { apply Nat.leb_le. vm_compute. reflexivity. }
  eapply yields_never; [apply (read_string_spec Y radix w h' G'); [lia|done|]| |].
  - rewrite length_app in El. unfold n in *. lia.
  - intros e [_ Ew]. congruence.
  - intros _ h'' (v & Ev & Hs). rewrite Hw in Ev. by injection Ev as <-.
Qed.

End Memory.

(** ** At concrete inputs *)

#[local] Instance all_granted : Callocs := fun _ => true.

(** A minus sign alone, a limbless number in radix 2 and in radix 16, and the sign that a file loses *)
Example mpi_text_pitfalls : let h := heap_of [Mpi 1 [7]; Mpi 1 []; Mpi (-1) [255]] in
  match mbedtls_mpi_read_string 0 10 [minus_sign] h with Ok _ h' => Some (mem h' 0%nat) | _ => None end = Some (Mpi (-1) [0]) /\
  mbedtls_mpi_write_string 1 2 (replicate 10 NUL) h = Bad /\
  match mbedtls_mpi_write_string 1 16 (replicate 4 NUL) h with Ok r _ => Some r | _ => None end = Some (replicate 4 NUL, 1%nat, 0) /\
  value_at (mbedtls_mpi_read_file 0 16 (Some (lit "n=-FF" ++ [CR; LF])) h) 0 = Some 255.
Proof. vm_compute. repeat split. Qed.

Definition three : list mbedtls_mpi := [Mpi 1 [7; 7; 7]; Mpi (-1) [254; 1]; Mpi 1 []].

Lemma three_good : good (heap_of three).
Proof. apply good_heap_of. vm_compute. reflexivity. Qed.

Lemma three_size a : (mpi_n (mem (heap_of three) a) <= 3)%nat.
Proof. do 3 (destruct a as [|a]; [cbn; lia|]). destruct a; cbn; lia. Qed.

Lemma few_limbs n : (n <= 1000)%nat -> (n + 2 <= MBEDTLS_MPI_MAX_LIMBS)%nat /\ (n <= 16 * (MBEDTLS_MPI_MAX_LIMBS - 1))%nat.
Proof. unfold MBEDTLS_MPI_MAX_LIMBS. lia. Qed.

(** A whole trip through text: "-18446744073709551870" *)
Example mpi_text_runs : let h := heap_of three in
  match mbedtls_mpi_write_string 1 10 (replicate 40 NUL) h with
  | Ok (b, n, e) h' =>
      n = 22%nat /\ e = 0 /\ text b = Some (lit "-18446744073709551870") /\
      value_at (mbedtls_mpi_read_string 0 10 (lit "-18446744073709551870") h') 0 = Some (- 2 ^ 64 - 254)
  | _ => False
  end.
Proof. vm_compute. repeat split. Qed.

Lemma mpi_reads_strings_witness : let h := heap_of three in let s := lit "-ff" in
  string_value 16 s = Some (-255) /\
  yields (mbedtls_mpi_read_string 1 16 s) h
    (fun e => e = MBEDTLS_ERR_MPI_BAD_INPUT_DATA /\ ~ 2 <= 16 <= 16 \/
              e = MBEDTLS_ERR_MPI_INVALID_CHARACTER /\ 2 <= 16 <= 16 /\ string_value 16 s = None)
    (fun _ h' => 2 <= 16 <= 16 /\ exists v, string_value 16 s = Some v /\ sets 1 (fun x => value x = v) h h').
Proof.
  intros h s. assert (T1 : (1 < top h)%nat) by (cbn; lia).
  assert (Hl : (length s <= 16 * (MBEDTLS_MPI_MAX_LIMBS - 1))%nat) by (apply few_limbs; cbn; lia).
  pose proof (mpi_reads_strings 1 16 s h three_good T1 Hl) as H1. split; [reflexivity|exact H1].
Defined.

Lemma mpi_string_roundtrip_witness : let h := heap_of three in let buf := replicate 40 NUL in
  wp (mbedtls_mpi_write_string 1 10 buf) h (fun '(buf', olen, code) h' =>
    code = 0 /\ length buf' = length buf /\ (olen <= 36)%nat /\ (forall a, (a < top h)%nat -> mem h' a = mem h a) /\
    exists s, text buf' = Some s /\ olen = S (length s) /\
      writes (mbedtls_mpi_read_string 0 10 s) 0 h' (fun y => value y = value (mem h 1%nat))).
Proof.
  intros h buf. assert (T0 : (0 < top h)%nat) by (cbn; lia). assert (T1 : (1 < top h)%nat) by (cbn; lia).
  assert (Hn : (0 < mpi_n (mem h 1%nat))%nat) by (cbn; lia). destruct (few_limbs (mpi_n (mem h 1%nat)) ltac:(cbn; lia)) as [Hs _].
  assert (Er : string_room (mem h 1%nat) 10 = 36%nat) by reflexivity.
  destruct (few_limbs (string_room (mem h 1%nat) 10) ltac:(rewrite Er; lia)) as [_ Hr].
  pose proof (mpi_string_roundtrip 1 0 10 buf h three_good T1 T0 ltac:(lia) Hs (or_introl Hn) Hr) as H1. cbv zeta in H1.
  assert (Hb : (length buf <? 36)%nat = false) by reflexivity. rewrite Er, Hb in H1. exact H1.
Defined.

Lemma mpi_bytes_roundtrip_witness : let h := heap_of three in let buf := [0; 1; 2; 3; 4; 5; 6; 7; 8; 255] in
  let x := mem h 1%nat in let v := Z.abs (value x) in let room := replicate (length buf) 0 in
  (exists b, length b = length buf /\
     mbedtls_mpi_write_binary x buf = Some (inr b) /\ mbedtls_mpi_write_binary_le x buf = Some (inr (rev b)) /\
     writes (mbedtls_mpi_read_binary 0 b) 0 h (fun y => value y = v) /\
     writes (mbedtls_mpi_read_binary_le 0 (rev b)) 0 h (fun y => value y = v)) /\
  writes (mbedtls_mpi_read_binary 0 buf) 0 h (fun y => mbedtls_mpi_write_binary y room = Some (inr buf)) /\
  writes (mbedtls_mpi_read_binary_le 0 buf) 0 h (fun y => mbedtls_mpi_write_binary_le y room = Some (inr buf)).
Proof.
  intros h buf. assert (T0 : (0 < top h)%nat) by (cbn; lia). assert (T1 : (1 < top h)%nat) by (cbn; lia).
  assert (Hl : (CHARS_TO_LIMBS (length buf) <= MBEDTLS_MPI_MAX_LIMBS)%nat) by (pose proof (few_limbs 2 ltac:(lia)); cbn; lia).
  pose proof (mpi_bytes_roundtrip 1 0 buf h three_good T1 T0 Hl) as H1. cbv zeta in H1.
  assert (Hlt : (Z.abs (value (mem h 1%nat)) <? 256 ^ Z.of_nat (length buf)) = true) by reflexivity. rewrite Hlt in H1.
  destruct H1 as [H1 H2]. cbv zeta. split; [exact H1|]. apply H2. repeat (constructor; [unfold fits; lia|]). constructor.
Defined.
